(* ===== verification/_CoqProject ===== *)
-Q . S2P
Prelude.v
Udiv.v
Memory.v
StringLib.v
StringCopy.v
RingBuf.v
Ldisc.v
RadixTree.v
RadixMap.v
Idr.v
RbTree.v
RbModel.v
RbProof.v
RbWalk.v
Conc.v
RwSpin.v
Semaphore.v
Spinlock.v
RwLock.v
Pipe.v
Mutex.v
Pmm.v
PmmBuddy.v
PmmMap.v
PmmCache.v
PmmInit.v
PmmSpec.v
PmmLaws.v
Bdev.v
Bcache.v
BcacheInv.v
BcacheOps.v
BcacheEvict.v
BcacheCreate.v
BcacheSpec.v
YfsBitmap.v
YfsWords.v
Yfs.v
YfsAlloc.v
YfsOps.v
YfsVolume.v
YfsInode.v
YfsForest.v
YfsBlockMap.v
YfsResolve.v
YfsFile.v
YfsBytes.v
YfsFiles.v
YfsFaults.v
YfsTruncate.v
YfsDcache.v
YfsDir.v
YfsEntry.v
YfsNames.v
YfsSpace.v
YfsPath.v
YfsNameOps.v
YfsCreate.v
YfsCalls.v
YfsNameSpace.v
YfsList.v
YfsWhere.v
YfsMount.v
YfsNameFaults.v
