(* ===== verification/Prelude.v ===== *)
(** * A verification library for YulaOS

    YulaOS is a 32-bit x86 operating system in C and C++.  This library models
    parts of its kernel as Rocq functions and step relations, translated from
    the sources under [src/src], and proves what makes them correct.  Paths
    below are relative to [src/src].

    ** The program and what is modelled

    The kernel is built from small C libraries (memory and string routines, ring
    buffer, radix tree, ID allocator, red-black tree, 64-bit division), locks and
    semaphores on top of a scheduler, the physical memory manager, and services
    on top of those (terminal line discipline, pipes, file systems, drivers).
    The files of this library follow that order.

    - [Prelude]: the result type [res] ([Ok], [Fault] for an access C must not
      make, [Panic], [Timeout] for exhausted fuel), machine integers as [Z] with
      the wrap-around written out ([u8], [u16], [u32], [u64], [s32]), arrays as
      lists with checked access, tactics and shared lemmas.
    - [Udiv]: [lib/udivdi3.c], shift and subtract division at 64 bits.
    - [Memory], [StringLib], [StringCopy]: [lib/string.c] over a flat byte memory
      in which a page is mapped or not.  Word-at-a-time loops, [rep movs] and the
      order of loads and stores are kept, so that reading past the end of a
      string within a page, overlapping moves and faults are visible.  strdup is
      not modelled.
    - [RingBuf]: every operation of [lib/ringbuf.h] on the C struct.  The class
      [ByteRing] with its laws [ByteRingLaws] is what clients see.
    - [Ldisc]: [kernel/tty/ldisc.c] over any [ByteRing]: input processing, echo,
      canonical and raw reads, output processing, configuration.  Blocking reads
      get the calls other threads make while they sleep as an explicit list.
    - [RadixTree], [RadixMap]: [lib/radixtree.c] on a store of nodes with
      addresses; the node allocator is a parameter that may fail.  The class
      [KeyMap] with [KeyMapLaws] is what clients see.
    - [Idr]: [lib/idr.c] over any [KeyMap].
    - [RbTree], [RbModel], [RbProof], [RbWalk]: [lib/rbtree.c].  [RbTree] is the
      pointer code on a heap with the packed parent and colour word, [RbModel]
      red-black trees as data with a path to the node in focus, [RbProof] the
      simulation of one by the other, [RbWalk] the theorems.
    - [Conc]: threads as a list of program points, one atomic access per step,
      sums over threads, invariants of reachable states.
    - [RwSpin]: both locks of [kernel/locking/rwspinlock.c].
    - [Semaphore]: [kernel/locking/sem.cpp], the counter and the queue of
      sleeping threads.
    - [Spinlock]: [kernel/locking/spinlock.c], the queue spinlock: locks that
      share per-CPU queue nodes, contexts that interrupt each other.
    - [RwLock]: [kernel/locking/rwlock.c], the sleeping reader-writer lock.
    - [Mutex]: [kernel/locking/mutex.c], with its wait queue and task states.
    - [Pipe]: [kernel/ipc/pipe.c], any number of concurrent reads, writes and
      closes on one pipe; copies move one byte per step and user copies may fail.
    - [Pmm], [PmmBuddy], [PmmMap], [PmmCache], [PmmInit], [PmmSpec], [PmmLaws]:
      [mm/pmm.cpp].  [Pmm] is the code: page descriptors with intrusive free
      lists, bitmap and counters, per-CPU caches, set-up from a memory map.
      [PmmBuddy] relates the descriptors to a map of blocks and shows splitting
      and merging on it, [PmmMap] has the facts about that map, [PmmCache] adds
      the caches, [PmmInit] the set-up, [PmmSpec] clients and the contract,
      [PmmLaws] the laws of the allocator and termination.
    - [Bdev]: the transfers of [drivers/block/bdev.c] and of [DiskIo] in
      [fs/bcache.cpp] over a driver that is a parameter, with the laws of a disk
      that works and a disk in memory that satisfies them.
    - [Bcache], [BcacheInv], [BcacheOps], [BcacheEvict], [BcacheCreate],
      [BcacheSpec]: [fs/bcache.cpp].  [Bcache] is the code: shards with map,
      CLOCK ring and dirty list, reference counted entries in a heap, hot slots
      per CPU, the prefetch ring.  [BcacheInv] has the invariant, the next three
      show that each part keeps it, [BcacheSpec] has the abstract disk.  The hash
      map is a finite map whose insertion can fail; a call runs to completion and
      the prefetch worker runs between calls or while a call waits for it, so
      the locks do not appear.
    - [YfsBitmap], [YfsWords], [Yfs], [YfsAlloc], [YfsOps], [YfsVolume]: blocks
      and inodes of [fs/yulafs.cpp] on the disk that the block cache is shown to
      be.  [YfsBitmap] is the search in a bitmap, [YfsWords] words in a block,
      [Yfs] the superblock, the groups, both allocators and mounting, the next
      two what they keep and do, [YfsVolume] the abstract volume.  Buffers may
      fail to be allocated.
    - [YfsInode], [YfsForest], [YfsBlockMap], [YfsResolve], [YfsFile], [YfsBytes],
      [YfsFiles], [YfsTruncate], [YfsFaults]: its files.  [YfsInode] has packed
      inodes and the per-CPU cache of their table, [YfsBlockMap] the code from
      blocks of a file to blocks of the disk and [YfsFile] the calls on a file,
      deletion and open counts.  [YfsForest] has trees of pointers that share no
      block, [YfsResolve] shows that the code keeps them and [YfsBytes] what its
      loops do to bytes.  [YfsFiles], [YfsTruncate] and [YfsFaults] have the
      theorems.  A call holds the lock of its inode and is one step.

    ** What the theorems show

    - The string routines compute the standard functions, write nothing else and
      do not fault when the strings are mapped page-wise; [memmove] is wrong for
      small downward moves ([StringLib.memmove_down_corrupts]).
    - The ring buffer refines a bounded FIFO; the line discipline refines a queue
      of edited lines and, in raw mode, delivers the input in order.  Four
      theorems state what goes wrong there: a newline after a full line leaves
      the array, a stale line length is returned, the VMIN loop can spin, and
      interrupts stay off.
    - The radix tree refines a finite map under a failing allocator, its search
      for the next key is exact, and the IDs of [Idr] are unique and reusable.
    - Insertion and removal in the red-black tree keep the balance and change the
      in-order sequence by exactly the given node; walking gives its neighbours.
    - The locks exclude each other's critical sections in every interleaving; the
      semaphore conserves tokens and loses no wakeup; the pipe is a byte stream,
      small writes are atomic, but a reader can miss the wakeup of a writer
      ([Pipe.pipe_lost_wakeup]).  The queue of the spinlock never gets stuck; the
      mutex loses no wakeup, the sleeping reader-writer lock does
      ([RwLock.rwlock_lost_wakeup]).
    - The memory manager is a heap: from boot, whatever clients on any CPU do,
      blocks handed out are usable and disjoint, failure means exhaustion, and
      every call returns.  The pointer code equals best fit and coalescing on a
      map of blocks.  Three theorems state where it departs from its comments:
      blocks set up at boot need not be aligned, the top of memory is lost, and
      small DMA requests may get memory above 16 MiB.
    - The block cache is a disk with write-back: whatever sequence of calls on
      any CPUs, reads give the last successful write, the medium holds only
      contents the block once had and after a sync all of them, and no freed
      entry is touched.  Three theorems state what goes wrong: transfer errors
      are reported as success, a failed map insertion makes CPUs disagree, and
      a write can fail although an entry could be evicted.
    - The file system is sound from mounting on: free blocks and inodes are two
      sets with exact counters, what is handed out is free and zeroed, and the
      disk alone gives them back after a flush.  Files are arrays of bytes: reads,
      writes and appends on any of them act on those bytes and on no other, with
      holes of zeros, and deleting a file frees its blocks and nothing else.  The
      inode cache is invisible on one CPU.  [YfsFaults] and
      [YfsInode.inode_cache_stale_across_cpus] state what goes wrong without
      memory, on a full disk, at the largest offset, when a file shrinks and with
      two CPUs.
    - 64-bit division is division.

    ** Fuel and bounds

    Loops whose bound is not structural take fuel and return [Timeout] when it
    runs out.  The theorems that a function returns give the amount: the length
    of the data for the string loops, the seven levels of a 32-bit key for the
    radix tree and as many restarts of the search as there are nodes, the number
    of used IDs for [Idr], the depth of the tree (at most
    2 log2 (size + 1) + 2) for insertion into the red-black tree and its size
    for removal, 12 for splitting and merging blocks of memory and one round per
    page for setting them up; 128 worker turns for a wait in the block cache and
    one round per entry or dirty block for making room, syncing and shrinking; two
    turns for an inode and one per byte for a file.  In the concurrent models
    threads are a finite but arbitrary list and there is no fuel; the number of threads is bounded only where the
    code counts them in a word.

    ** Not modelled

    Directories, paths, formatting and the VFS, process management, system calls,
    the kernel heap and page tables, device drivers, architecture code, user
    library and programs.  The
    concurrent models assume sequential consistency; inner spinlocks of a
    modelled lock are acquired and released in one step; sleeping and waking are
    steps of the thread itself. *)

From stdpp Require Export base gmap list fin_maps numbers strings.
From Stdlib Require Export Lia.

#[global] Open Scope Z_scope.

(** ** Outcomes of code that can fail

    [Ok a] is a normal return.  [Fault] is an access the C program must never
    make (unmapped memory, an array index out of range, a NULL dereference).
    [Panic] is a call of the kernel's [panic].  [Timeout] is a loop that used
    up the fuel of its model. *)
Inductive res (A : Type) : Type :=
| Ok (a : A)
| Fault
| Panic
| Timeout.
Arguments Ok {A} a.
Arguments Fault {A}.
Arguments Panic {A}.
Arguments Timeout {A}.

#[export] Instance res_ret : MRet res := λ A a, Ok a.
#[export] Instance res_bind : MBind res := λ A B f r,
  match r with
  | Ok a => f a
  | Fault => Fault
  | Panic => Panic
  | Timeout => Timeout
  end.

#[export] Instance res_eq_dec `{EqDecision A} : EqDecision (res A).
Proof. solve_decision. Defined.

Lemma res_bind_ext {A B} (r : res A) (f g : A → res B) :
  (∀ a, f a = g a) → (r ≫= f) = (r ≫= g).
Proof. destruct r; simpl; auto. Qed.

(** ** Machine integers *)

Definition u8 (z : Z) : Z := z `mod` 256.
Definition u16 (z : Z) : Z := z `mod` 65536.
Definition u32 (z : Z) : Z := z `mod` 4294967296.
Definition u64 (z : Z) : Z := z `mod` 18446744073709551616.

(** The [int] a 32-bit pattern stands for on the i386 target. *)
Definition s32 (z : Z) : Z :=
  let w := u32 z in if w <? 2147483648 then w else w - 4294967296.

Definition is_u8 (z : Z) : Prop := 0 ≤ z < 256.
Definition is_u32 (z : Z) : Prop := 0 ≤ z < 4294967296.

(** A C truth value as a C [int]. *)
Definition b2z (b : bool) : Z := if b then 1 else 0.

(** ** Arrays as lists with C-style indices *)

Abbreviation zlen l := (Z.of_nat (length l)).

(** [l[i]], a fault when [i] is out of range. *)
Definition arr_get {A} (l : list A) (i : Z) : res A :=
  if (0 <=? i) then match l !! Z.to_nat i with Some x => Ok x | None => Fault end
  else Fault.

(** [l[i] = x], a fault when [i] is out of range. *)
Definition arr_set {A} (l : list A) (i : Z) (x : A) : res (list A) :=
  if (0 <=? i) && (i <? zlen l) then Ok (<[Z.to_nat i := x]> l) else Fault.

(** The [n] elements from offset [off]. *)
Definition slice {A} (l : list A) (off n : nat) : list A := take n (drop off l).

(** [l] with [d] written over it from offset [off]. *)
Definition blit {A} (l : list A) (off : nat) (d : list A) : list A :=
  take off l ++ d ++ drop (off + length d) l.

(** The source operand of a [memcpy] of [n] elements. *)
Definition arr_slice {A} (l : list A) (off n : Z) : res (list A) :=
  if (0 <=? off) && (0 <=? n) && (off + n <=? zlen l)
  then Ok (slice l (Z.to_nat off) (Z.to_nat n)) else Fault.

(** The destination operand of a [memcpy]. *)
Definition arr_blit {A} (l : list A) (off : Z) (d : list A) : res (list A) :=
  if (0 <=? off) && (off + zlen d <=? zlen l)
  then Ok (blit l (Z.to_nat off) d) else Fault.

(** ** Automation *)

Create HintDb yula discriminated.

(** Splits the boolean guards of a model into arithmetic facts. *)
Ltac bool_simpl :=
  repeat match goal with
  | H : _ && _ = true |- _ => apply andb_true_iff in H as [? ?]
  | H : _ || _ = false |- _ => apply orb_false_iff in H as [? ?]
  | H : negb _ = true |- _ => apply negb_true_iff in H
  | H : negb _ = false |- _ => apply negb_false_iff in H
  | H : (_ <=? _) = true |- _ => apply Z.leb_le in H
  | H : (_ <=? _) = false |- _ => apply Z.leb_gt in H
  | H : (_ <? _) = true |- _ => apply Z.ltb_lt in H
  | H : (_ <? _) = false |- _ => apply Z.ltb_ge in H
  | H : (_ =? _) = true |- _ => apply Z.eqb_eq in H
  | H : (_ =? _) = false |- _ => apply Z.eqb_neq in H
  end.

(** Equality of two boolean combinations of comparisons. *)
Ltac bool_lia :=
  apply Bool.eq_iff_eq_true;
  rewrite ?orb_true_iff, ?andb_true_iff, ?Z.leb_le, ?Z.ltb_lt, ?Z.eqb_eq; intuition lia.

(** Case analysis on the guard of the first conditional of the goal. *)
Ltac case_if :=
  match goal with
  | |- context [if ?b then _ else _] =>
      lazymatch type of b with
      | bool => let E := fresh "E" in destruct b eqn:E; bool_simpl
      | _ => destruct b
      end
  end.

Ltac inv_ok :=
  repeat match goal with
  | H : Ok _ = Ok _ |- _ => injection H; clear H; intros; subst
  | H : Fault = Ok _ |- _ => discriminate H
  | H : Panic = Ok _ |- _ => discriminate H
  | H : Timeout = Ok _ |- _ => discriminate H
  end.

(** ** Integers *)

Lemma u32_small z : 0 ≤ z < 4294967296 → u32 z = z.
Proof. intros. unfold u32. by apply Z.mod_small. Qed.

Lemma u8_small z : 0 ≤ z < 256 → u8 z = z.
Proof. intros. unfold u8. by apply Z.mod_small. Qed.

Lemma u32_range z : 0 ≤ u32 z < 4294967296.
Proof. unfold u32. apply Z.mod_pos_bound. lia. Qed.

Lemma u8_range z : 0 ≤ u8 z < 256.
Proof. unfold u8. apply Z.mod_pos_bound. lia. Qed.

#[export] Hint Resolve u32_range u8_range : yula.

(** Clearing the low [n] bits of a word of [w] bits. *)
Lemma land_high x n w :
  0 ≤ x < 2 ^ w → 0 ≤ n ≤ w →
  Z.land x ((Z.lnot (2 ^ n - 1)) `mod` 2 ^ w) = x / 2 ^ n * 2 ^ n.
Proof.
  intros Hk Hn. rewrite <- Z.land_ones by lia.
  rewrite (Z.land_comm (Z.lnot _)), Z.land_assoc, Z.land_ones, Z.mod_small by lia.
  replace (2 ^ n - 1) with (Z.ones n) by (rewrite Z.ones_equiv; lia).
  rewrite <- Z.ldiff_land, Z.ldiff_ones_r, Z.shiftl_mul_pow2, Z.shiftr_div_pow2 by lia. done.
Qed.

(** A multiple of [2^n] with the bits below [n] or-ed in. *)
Lemma lor_low a b n : 0 ≤ n → 0 ≤ b < 2 ^ n → Z.lor (a * 2 ^ n) b = a * 2 ^ n + b.
Proof.
  intros Hn Hb. symmetry. apply Z.add_nocarry_lor. rewrite <- Z.shiftl_mul_pow2 by done.
  apply Z.bits_inj'. intros i Hi. rewrite Z.land_spec, Z.bits_0, Z.shiftl_spec by done.
  destruct (decide (i < n)) as [Hin|Hin]; [by rewrite (Z.testbit_neg_r a) by lia|].
  rewrite <- (Z.mod_small b (2 ^ n)), Z.mod_pow2_bits_high by lia. apply andb_false_r.
Qed.

(** ** Lists *)

Lemma arr_get_ok {A} (l : list A) i x :
  0 ≤ i → l !! Z.to_nat i = Some x → arr_get l i = Ok x.
Proof. intros Hi Hx. unfold arr_get. case_if; [by rewrite Hx | lia]. Qed.

Lemma arr_get_inv {A} (l : list A) i x :
  arr_get l i = Ok x → 0 ≤ i < zlen l ∧ l !! Z.to_nat i = Some x.
Proof.
  unfold arr_get. case_if; [|done]. destruct (l !! Z.to_nat i) eqn:Hl; [|done].
  intros. inv_ok. split; [|done]. apply lookup_lt_Some in Hl. lia.
Qed.

Lemma arr_get_total {A} (l : list A) i :
  0 ≤ i < zlen l → ∃ x, arr_get l i = Ok x ∧ l !! Z.to_nat i = Some x.
Proof.
  intros Hi. destruct (lookup_lt_is_Some_2 l (Z.to_nat i)) as [x Hx]; [lia|].
  exists x. split; [|done]. apply arr_get_ok; [lia|done].
Qed.

Lemma arr_set_ok {A} (l : list A) i x :
  0 ≤ i < zlen l → arr_set l i x = Ok (<[Z.to_nat i := x]> l).
Proof. intros Hi. unfold arr_set. case_if; [done|]. apply andb_false_iff in E as [E|E]; bool_simpl; lia. Qed.

Lemma length_slice {A} (l : list A) off n : length (slice l off n) = (n `min` (length l - off))%nat.
Proof. unfold slice. by rewrite length_take, length_drop. Qed.

Lemma lookup_slice {A} (l : list A) off n i :
  slice l off n !! i = if decide (i < n)%nat then l !! (off + i)%nat else None.
Proof.
  unfold slice. case_decide.
  - rewrite lookup_take_lt by done. apply lookup_drop.
  - apply lookup_take_ge. lia.
Qed.

(** What a blit leaves at every index. *)
Lemma lookup_blit {A} (l d : list A) off i :
  (off + length d ≤ length l)%nat →
  blit l off d !! i =
    if decide (off ≤ i < off + length d)%nat then d !! (i - off)%nat else l !! i.
Proof.
  intros Hlen. unfold blit. destruct (decide (i < off)%nat) as [Hi|Hi].
  - rewrite lookup_app_l by (rewrite length_take; lia).
    rewrite lookup_take_lt by lia. case_decide; [lia|done].
  - rewrite lookup_app_r by (rewrite length_take; lia).
    rewrite length_take, Nat.min_l by lia.
    destruct (decide (i < off + length d)%nat).
    + rewrite lookup_app_l by lia. case_decide; [done|lia].
    + rewrite lookup_app_r by lia. rewrite lookup_drop.
      case_decide; [lia|]. f_equal. lia.
Qed.

Lemma length_blit {A} (l d : list A) off :
  (off + length d ≤ length l)%nat → length (blit l off d) = length l.
Proof. intros. unfold blit. rewrite !length_app, length_take, length_drop. lia. Qed.

Lemma blit_0 {A} (l d : list A) : blit l 0 d = d ++ drop (length d) l.
Proof. done. Qed.

(** Two adjacent writes are one write. *)
Lemma blit_adjacent {A} (l d e : list A) :
  (length d + length e ≤ length l)%nat →
  blit (blit l 0 d) (length d) e = blit l 0 (d ++ e).
Proof.
  intros Hlen. apply list_eq. intros i.
  rewrite lookup_blit by (rewrite length_blit; lia).
  rewrite !lookup_blit by (rewrite ?length_app; lia). rewrite length_app, !Nat.add_0_l.
  repeat case_decide; try lia; try done.
  - rewrite lookup_app_r by lia. f_equal. lia.
  - by rewrite lookup_app_l by lia.
Qed.

Lemma arr_slice_ok {A} (l : list A) off n :
  0 ≤ off → 0 ≤ n → off + n ≤ zlen l →
  arr_slice l off n = Ok (slice l (Z.to_nat off) (Z.to_nat n)).
Proof.
  intros. unfold arr_slice. rewrite (proj2 (Z.leb_le 0 off)), (proj2 (Z.leb_le 0 n)) by done.
  by rewrite (proj2 (Z.leb_le _ _)).
Qed.

Lemma arr_blit_ok {A} (l : list A) off d :
  0 ≤ off → off + zlen d ≤ zlen l →
  arr_blit l off d = Ok (blit l (Z.to_nat off) d).
Proof.
  intros. unfold arr_blit. rewrite (proj2 (Z.leb_le 0 off)) by done.
  by rewrite (proj2 (Z.leb_le _ _)).
Qed.

#[global] Arguments slice : simpl never.
#[global] Arguments blit : simpl never.

(** Lengths and elements of slices and blits, side conditions by arithmetic. *)
Ltac len_simpl :=
  repeat first
    [ rewrite length_slice in *
    | rewrite length_app in *
    | rewrite length_take in *
    | rewrite length_drop in *
    | rewrite length_insert in *
    | rewrite length_replicate in * ].
Ltac len_lia := len_simpl; repeat (rewrite length_blit by len_lia; len_simpl); lia.

(** [Forall] over a concrete list of numbers. *)
Ltac forall_lia :=
  lazymatch goal with
  | |- Forall _ (_ :: _) => apply Forall_cons_2; [unfold is_u8; lia | forall_lia]
  | |- Forall _ [] => apply Forall_nil_2
  | |- Forall ?P ?l => let l' := eval vm_compute in l in change (Forall P l'); forall_lia
  end.
