(* ===== verification/Udiv.v ===== *)
(** * 64-bit division: [src/src/lib/udivdi3.c]

    The kernel is built without libgcc; the compiler calls this routine for
    [uint64_t] division. *)

From S2P Require Import Prelude.

(** [for (int i = 63; i >= 0; i--)] from [i = n - 1] on; the result is the quotient. *)
Fixpoint udiv_loop (n : nat) (num den quotient remainder : Z) : Z :=
  match n with
  | O => quotient
  | S i =>
      let remainder := u64 (Z.shiftl remainder 1) in
      let remainder := Z.lor remainder (Z.land (Z.shiftr num (Z.of_nat i)) 1) in
      if den <=? remainder
      then udiv_loop i num den (Z.lor quotient (u64 (Z.shiftl 1 (Z.of_nat i)))) (u64 (remainder - den))
      else udiv_loop i num den quotient remainder
  end.

Definition udivdi3 (num den : Z) : Z :=
  if den =? 0 then 0 else
  if num =? 0 then 0 else
  if num <? den then 0 else
  if num =? den then 1 else
  udiv_loop 64 num den 0 0.

Lemma shiftr_bit num i : 0 ≤ i → Z.shiftr num i = 2 * Z.shiftr num (i + 1) + Z.land (Z.shiftr num i) 1.
Proof.
  intros Hi. change (Z.land (Z.shiftr num i) 1) with (Z.land (Z.shiftr num i) (Z.ones 1)).
  rewrite Z.land_ones, !Z.shiftr_div_pow2, Z.pow_add_r by lia. change (2 ^ 1) with 2. rewrite <- Z.div_div by lia. apply Z.div_mod. lia.
Qed.

Lemma lor_bit x b : 0 ≤ x → 0 ≤ b ≤ 1 → Z.lor (2 * x) b = 2 * x + b.
Proof.
  intros Hx Hb. assert (b = 0 ∨ b = 1) as [->| ->] by lia; [rewrite Z.lor_0_r; lia|].
  symmetry. apply Z.add_nocarry_lor. change (Z.land (2 * x) 1) with (Z.land (2 * x) (Z.ones 1)). rewrite Z.land_ones by lia.
  change (2 ^ 1) with 2. rewrite Z.mul_comm. apply Z.mod_mul. lia.
Qed.

(** The quotient bits found so far lie above the one that is set next. *)
Lemma lor_power q i : 0 ≤ i → q `mod` 2 ^ (i + 1) = 0 → Z.lor q (2 ^ i) = q + 2 ^ i.
Proof.
  intros Hi Hq. symmetry. apply Z.add_nocarry_lor. rewrite <- (Z.mod_small (2 ^ i) (2 ^ (i + 1))).
  - rewrite <- (Z.land_ones (2 ^ i)), (Z.land_comm (2 ^ i)), Z.land_assoc, Z.land_ones, Hq by lia. done.
  - rewrite Z.pow_add_r by lia. pose proof (Z.pow_pos_nonneg 2 i). lia.
Qed.

Section Division.
Context (num den : Z) (Hnum : 0 ≤ num < 18446744073709551616) (Hden : 0 < den < 18446744073709551616).

(** With [n] bits to go the quotient and the remainder are those of the bits read. *)
Lemma udiv_loop_correct n :
  (n ≤ 64)%nat → ∀ q r, let top := Z.shiftr num (Z.of_nat n) in
  q = top / den * 2 ^ Z.of_nat n → r = top `mod` den → udiv_loop n num den q r = num / den.
Proof.
  induction n as [|i IH]; intros Hn q r top Hq Hr.
  - subst q. unfold top. simpl. rewrite Z.shiftr_0_r. lia.
  - cbn [udiv_loop]. set (b := Z.land (Z.shiftr num (Z.of_nat i)) 1). pose proof (shiftr_bit num (Z.of_nat i) ltac:(lia)) as Hbit. fold b in Hbit.
    replace (Z.of_nat i + 1) with (Z.of_nat (S i)) in Hbit by lia. fold top in Hbit.
    assert (0 ≤ b ≤ 1) as Hb.
    { unfold b. change (Z.land (Z.shiftr num (Z.of_nat i)) 1) with (Z.land (Z.shiftr num (Z.of_nat i)) (Z.ones 1)).
      rewrite Z.land_ones by lia. change (2 ^ 1) with 2. Z.to_euclidean_division_equations; lia. }
    assert (0 ≤ top < 9223372036854775808) as Htop.
    { unfold top. rewrite Z.shiftr_div_pow2 by lia. split; [apply Z.div_pos; [lia|apply Z.pow_pos_nonneg; lia]|].
      apply Z.div_lt_upper_bound; [apply Z.pow_pos_nonneg; lia|]. pose proof (Z.pow_le_mono_r 2 1 (Z.of_nat (S i)) ltac:(lia) ltac:(lia)). lia. }
    assert (0 ≤ r < den ∧ r ≤ top) as [Hrd Hrt].
    { subst r. split; [apply Z.mod_pos_bound; lia|apply Z.mod_le; lia]. }
    assert (u64 (Z.shiftl r 1) = 2 * r) as ->.
    { unfold u64. rewrite Z.shiftl_mul_pow2 by lia. change (2 ^ 1) with 2. rewrite Z.mod_small; lia. }
    rewrite lor_bit by lia.
    assert (den * (top / den) + r = top) as Hdm by (subst r; symmetry; apply Z.div_mod; lia).
    pose proof (Z.pow_pos_nonneg 2 (Z.of_nat i) ltac:(lia) ltac:(lia)) as Hpow.
    assert (2 ^ Z.of_nat (S i) = 2 * 2 ^ Z.of_nat i) as Hsucc by (rewrite Nat2Z.inj_succ, Z.pow_succ_r; lia).
    destruct (den <=? 2 * r + b) eqn:E; bool_simpl.
    + assert (Z.shiftr num (Z.of_nat i) / den = 2 * (top / den) + 1 ∧ Z.shiftr num (Z.of_nat i) `mod` den = 2 * r + b - den) as [Hq' Hr'].
      { assert (Z.shiftr num (Z.of_nat i) = den * (2 * (top / den) + 1) + (2 * r + b - den)) as Hs by lia.
        split; [symmetry; eapply Z.div_unique_pos; [|exact Hs]; lia|symmetry; eapply Z.mod_unique_pos; [|exact Hs]; lia]. }
      apply IH; [lia| |].
      * assert (u64 (Z.shiftl 1 (Z.of_nat i)) = 2 ^ Z.of_nat i) as ->.
        { unfold u64. rewrite Z.shiftl_1_l. apply Z.mod_small. split; [lia|].
          apply (Z.le_lt_trans _ (2 ^ 63)); [apply Z.pow_le_mono_r; lia|by compute]. }
        rewrite lor_power, Hq, Hq', Hsucc; [lia|lia|]. rewrite Hq. replace (Z.of_nat i + 1) with (Z.of_nat (S i)) by lia. apply Z.mod_mul. lia.
      * rewrite Hr'. unfold u64. apply Z.mod_small. lia.
    + assert (Z.shiftr num (Z.of_nat i) / den = 2 * (top / den) ∧ Z.shiftr num (Z.of_nat i) `mod` den = 2 * r + b) as [Hq' Hr'].
      { assert (Z.shiftr num (Z.of_nat i) = den * (2 * (top / den)) + (2 * r + b)) as Hs by lia.
        split; [symmetry; eapply Z.div_unique_pos; [|exact Hs]; lia|symmetry; eapply Z.mod_unique_pos; [|exact Hs]; lia]. }
      apply IH; [lia|rewrite Hq, Hq', Hsucc; lia|done].
Qed.
End Division.

(** C35. [__udivdi3] is division of 64-bit numbers (0 when dividing by 0): the
    shifted remainder never overflows its 64 bits, whatever the divisor. *)
Theorem udivdi3_correct num den :
  0 ≤ num < 18446744073709551616 → 0 ≤ den < 18446744073709551616 → udivdi3 num den = num / den.
Proof.
  intros Hn Hd. unfold udivdi3. destruct (den =? 0) eqn:E0; bool_simpl; [subst; by rewrite Z.div_0_r|].
  destruct (num =? 0) eqn:E1; bool_simpl; [by subst|]. destruct (num <? den) eqn:E2; bool_simpl; [symmetry; apply Z.div_small; lia|].
  destruct (num =? den) eqn:E3; bool_simpl; [subst; rewrite Z.div_same; lia|].
  assert (Z.shiftr num (Z.of_nat 64) = 0) as Ht.
  { rewrite Z.shiftr_div_pow2 by lia. apply Z.div_small. change (2 ^ Z.of_nat 64) with 18446744073709551616. lia. }
  apply (udiv_loop_correct num den); [lia|lia|lia| |]; rewrite Ht; [by rewrite Z.div_0_l|by rewrite Z.mod_0_l].
Qed.

Lemma udivdi3_correct_witness : udivdi3 18446744073709551615 9223372036854775809 = 1.
Proof.
  rewrite (udivdi3_correct 18446744073709551615 9223372036854775809); [reflexivity|lia|lia].
Defined.
