(* ===== verification/Memory.v ===== *)
(** * Flat byte memory

    The address space the kernel's string routines work on: a finite map from
    addresses to bytes.  An access to an unmapped address is a [Fault].
    Words are little-endian, as on the i386 target.  [copied] is the shared
    invariant of the copy loops: which bytes of the destination already hold
    the source's bytes. *)

From S2P Require Import Prelude.

Abbreviation mem := (gmap Z Z).

(** ** Accesses *)

Definition load8 (m : mem) (a : Z) : res Z :=
  match m !! a with Some b => Ok b | None => Fault end.

Definition store8 (m : mem) (a v : Z) : res mem :=
  match m !! a with Some _ => Ok (<[a := u8 v]> m) | None => Fault end.

Definition load16 (m : mem) (a : Z) : res Z :=
  b0 ← load8 m a; b1 ← load8 m (a + 1); Ok (b0 + 256 * b1).

Definition load32 (m : mem) (a : Z) : res Z :=
  b0 ← load8 m a; b1 ← load8 m (a + 1); b2 ← load8 m (a + 2); b3 ← load8 m (a + 3);
  Ok (b0 + 256 * b1 + 65536 * b2 + 16777216 * b3).

Definition store32 (m : mem) (a v : Z) : res mem :=
  m ← store8 m a v; m ← store8 m (a + 1) (v / 256);
  m ← store8 m (a + 2) (v / 65536); store8 m (a + 3) (v / 16777216).

(** ** Well-formed memories *)

Definition mem_ok (m : mem) : Prop := map_Forall (λ _ b, 0 ≤ b < 256) m.

Definition mapped (m : mem) (a n : Z) : Prop := ∀ x, a ≤ x < a + n → is_Some (m !! x).

(** Mappings have page granularity: a page with one mapped byte is mapped. *)
Definition page_mapped (m : mem) : Prop :=
  ∀ a b, is_Some (m !! a) → a / 4096 = b / 4096 → is_Some (m !! b).

(** The bytes [l] are stored from address [a] on. *)
Definition bytes_at (m : mem) (a : Z) (l : list Z) : Prop :=
  ∀ i : nat, (i < length l)%nat → m !! (a + Z.of_nat i) = l !! i.

(** A NUL-terminated string with contents [l] at address [a]. *)
Definition cstr (m : mem) (a : Z) (l : list Z) : Prop :=
  Forall (λ b, b ≠ 0) l ∧ bytes_at m a (l ++ [0]).

(** [m] is [m0] after the bytes at the offsets [P] of the source [s] were
    copied to the destination [d]. *)
Definition copied (m0 m : mem) (d s : Z) (P : Z → bool) : Prop :=
  ∀ y, m !! y = if P (y - d) then m0 !! (y - d + s) else m0 !! y.

Definition in_range (lo hi : Z) (j : Z) : bool := (lo <=? j) && (j <? hi).

(** ** Loads and stores *)

Lemma load8_ok m a b : m !! a = Some b → load8 m a = Ok b.
Proof. unfold load8. by intros ->. Qed.

Lemma load8_inv m a b : load8 m a = Ok b → m !! a = Some b.
Proof. unfold load8. destruct (m !! a); [|done]. by intros [= ->]. Qed.

Lemma load8_mapped m a : is_Some (m !! a) → ∃ b, load8 m a = Ok b ∧ m !! a = Some b.
Proof. intros [b Hb]. exists b. by rewrite (load8_ok _ _ _ Hb). Qed.

Lemma mem_ok_lookup m a b : mem_ok m → m !! a = Some b → 0 ≤ b < 256.
Proof. intros Hm Hb. by apply (Hm a b Hb). Qed.

Lemma load8_congr m m' a : m !! a = m' !! a → load8 m a = load8 m' a.
Proof. unfold load8. by intros ->. Qed.

Lemma load32_congr m m' a :
  (∀ x, a ≤ x < a + 4 → m !! x = m' !! x) → load32 m a = load32 m' a.
Proof. intros H. unfold load32. by rewrite !(load8_congr m m') by (apply H; lia). Qed.

(** The four bytes a word load reads. *)
Lemma load32_bytes m a :
  mapped m a 4 →
  ∃ b0 b1 b2 b3, load32 m a = Ok (b0 + 256 * b1 + 65536 * b2 + 16777216 * b3) ∧
    m !! a = Some b0 ∧ m !! (a + 1) = Some b1 ∧
    m !! (a + 2) = Some b2 ∧ m !! (a + 3) = Some b3.
Proof.
  intros Hm.
  destruct (Hm a) as [b0 H0]; [lia|]. destruct (Hm (a + 1)) as [b1 H1]; [lia|].
  destruct (Hm (a + 2)) as [b2 H2]; [lia|]. destruct (Hm (a + 3)) as [b3 H3]; [lia|].
  exists b0, b1, b2, b3. unfold load32.
  by rewrite (load8_ok _ _ _ H0); simpl; rewrite (load8_ok _ _ _ H1); simpl;
    rewrite (load8_ok _ _ _ H2); simpl; rewrite (load8_ok _ _ _ H3).
Qed.

Lemma store8_ok m a v : is_Some (m !! a) → store8 m a v = Ok (<[a := u8 v]> m).
Proof. unfold store8. by intros [b ->]. Qed.

Lemma store32_ok m a v :
  mapped m a 4 →
  store32 m a v = Ok (<[a + 3 := u8 (v / 16777216)]> (<[a + 2 := u8 (v / 65536)]>
    (<[a + 1 := u8 (v / 256)]> (<[a := u8 v]> m)))).
Proof.
  intros Hm. unfold store32.
  rewrite (store8_ok m) by (apply Hm; lia). simpl.
  rewrite store8_ok by (rewrite lookup_insert_ne by lia; apply Hm; lia). simpl.
  rewrite store8_ok by (rewrite !lookup_insert_ne by lia; apply Hm; lia). simpl.
  by rewrite store8_ok by (rewrite !lookup_insert_ne by lia; apply Hm; lia).
Qed.

(** A word store puts back the bytes of a word made of [b0 .. b3]. *)
Lemma store32_word m a b0 b1 b2 b3 :
  mapped m a 4 → is_u8 b0 → is_u8 b1 → is_u8 b2 → is_u8 b3 →
  store32 m a (b0 + 256 * b1 + 65536 * b2 + 16777216 * b3) =
    Ok (<[a + 3 := b3]> (<[a + 2 := b2]> (<[a + 1 := b1]> (<[a := b0]> m)))).
Proof.
  unfold is_u8. intros Hm H0 H1 H2 H3. rewrite store32_ok by done. repeat f_equal;
    unfold u8; Z.to_euclidean_division_equations; lia.
Qed.

Lemma lookup_insert4 (m : mem) a b0 b1 b2 b3 y :
  (<[a + 3 := b3]> (<[a + 2 := b2]> (<[a + 1 := b1]> (<[a := b0]> m)))) !! y =
    if decide (y = a) then Some b0 else if decide (y = a + 1) then Some b1
    else if decide (y = a + 2) then Some b2 else if decide (y = a + 3) then Some b3
    else m !! y.
Proof.
  repeat case_decide; subst.
  all: repeat first [rewrite lookup_insert_eq | rewrite lookup_insert_ne by lia]; done.
Qed.

(** ** The copy invariant *)

Lemma copied_refl m d s : copied m m d s (λ _, false).
Proof. by intros y. Qed.

Lemma copied_ext m0 m d s P Q : copied m0 m d s P → (∀ j, P j = Q j) → copied m0 m d s Q.
Proof. intros H HPQ y. by rewrite <- HPQ. Qed.

Lemma copied_mapped m0 m d s P a n :
  copied m0 m d s P → mapped m0 a n →
  (∀ j, P j = true → is_Some (m0 !! (j + s))) → mapped m a n.
Proof.
  intros H Hm Hs x Hx. rewrite H. destruct (P (x - d)) eqn:E; [|by apply Hm].
  by apply Hs.
Qed.

Lemma copied_store8 m0 m d s P a b v :
  copied m0 m d s P → a - d = b - s → m0 !! b = Some v → is_u8 v → is_Some (m !! a) →
  ∃ m', store8 m a v = Ok m' ∧
    copied m0 m' d s (λ j, P j || in_range (a - d) (a - d + 1) j) ∧
    (∀ x k, mapped m x k → mapped m' x k).
Proof.
  intros H Hab Hb Hb8 Hd. rewrite store8_ok by done. eexists. split; [done|].
  rewrite u8_small by done. split.
  - intros y. unfold in_range. destruct (decide (y = a)) as [->|Hne].
    + rewrite lookup_insert_eq. replace ((a - d <=? a - d) && _) with true by lia.
      rewrite orb_true_r, <- Hb. f_equal. lia.
    + rewrite lookup_insert_ne by done. rewrite H.
      replace ((a - d <=? y - d) && (y - d <? a - d + 1)) with false by lia.
      by rewrite orb_false_r.
  - intros x k Hm y Hy. rewrite lookup_insert. case_decide; [done|by apply Hm].
Qed.

(** Copying one word of the original source. *)
Lemma copied_store32 m0 m d s P a b v :
  mem_ok m0 → copied m0 m d s P → a - d = b - s → mapped m0 b 4 → load32 m0 b = Ok v →
  mapped m a 4 →
  ∃ m', store32 m a v = Ok m' ∧
    copied m0 m' d s (λ j, P j || in_range (a - d) (a - d + 4) j) ∧
    (∀ x k, mapped m x k → mapped m' x k).
Proof.
  intros Hok H Hab Hs Hv Hd.
  destruct (load32_bytes m0 b Hs) as (b0 & b1 & b2 & b3 & Hl & H0 & H1 & H2 & H3).
  rewrite Hl in Hv. injection Hv as <-.
  rewrite store32_word by (done || by eapply mem_ok_lookup).
  eexists. split; [done|]. split.
  - intros y. rewrite lookup_insert4. unfold in_range.
    repeat case_decide; subst; rewrite ?H;
      (destruct ((a - d <=? _) && _) eqn:E; [|lia + by rewrite orb_false_r]; bool_simpl;
       try lia; rewrite orb_true_r).
    all: symmetry; etrans; [|eassumption]; f_equal; lia.
  - intros x k Hm y Hy. rewrite lookup_insert4. repeat (case_decide; [done|]). by apply Hm.
Qed.

(** Reading the source while the copy is under way: the bytes read are the
    original ones when none of them was overwritten. *)
Lemma copied_load32 m0 m d s P a :
  copied m0 m d s P → (∀ x, a ≤ x < a + 4 → P (x - d) = false) →
  load32 m a = load32 m0 a.
Proof. intros H Hx. apply load32_congr. intros x Hr. rewrite H. by rewrite Hx. Qed.

Lemma copied_load8 m0 m d s P a :
  copied m0 m d s P → P (a - d) = false → load8 m a = load8 m0 a.
Proof. intros H Hx. apply load8_congr. rewrite H. by rewrite Hx. Qed.

Lemma mapped_sub m a n b k : mapped m a n → a ≤ b → b + k ≤ a + n → mapped m b k.
Proof. intros H Hab Hk x Hx. apply H. lia. Qed.

(** ** Writing a run of bytes *)

Fixpoint mem_write (m : mem) (a : Z) (l : list Z) : mem :=
  match l with [] => m | b :: l => mem_write (<[a := b]> m) (a + 1) l end.

Lemma lookup_mem_write m a l y :
  mem_write m a l !! y =
    if decide (a ≤ y < a + zlen l) then l !! Z.to_nat (y - a) else m !! y.
Proof.
  revert m a. induction l as [|b l IH]; intros m a; simpl.
  - by rewrite decide_False by lia.
  - rewrite IH. repeat case_decide; try lia.
    + replace (Z.to_nat (y - a)) with (S (Z.to_nat (y - (a + 1)))) by lia. done.
    + replace y with a by lia. rewrite lookup_insert_eq, Z.sub_diag. done.
    + by rewrite lookup_insert_ne by lia.
Qed.

Lemma mem_write_app m a l1 l2 :
  mem_write m a (l1 ++ l2) = mem_write (mem_write m a l1) (a + zlen l1) l2.
Proof.
  revert m a. induction l1 as [|b l1 IH]; intros m a; simpl; [by rewrite Z.add_0_r|].
  rewrite IH. f_equal. lia.
Qed.

Lemma mapped_mem_write m a l b n : mapped m b n → mapped (mem_write m a l) b n.
Proof.
  intros H x Hx. rewrite lookup_mem_write. case_decide; [|by apply H].
  apply lookup_lt_is_Some_2. lia.
Qed.

Lemma mem_ok_mem_write m a l :
  mem_ok m → Forall is_u8 l → mem_ok (mem_write m a l).
Proof.
  intros Hm Hl y b. rewrite lookup_mem_write. case_decide; [|apply Hm].
  rewrite Forall_lookup in Hl. apply Hl.
Qed.

Lemma page_mapped_mem_write m a l :
  page_mapped m → mapped m a (zlen l) → page_mapped (mem_write m a l).
Proof.
  intros Hpg Hm x y. assert (∀ z, is_Some (mem_write m a l !! z) ↔ is_Some (m !! z)) as Heq.
  { intros z. rewrite lookup_mem_write. case_decide as Hz; [|done].
    split; intros _; [by apply Hm|]. apply lookup_lt_is_Some_2. lia. }
  rewrite !Heq. apply Hpg.
Qed.

(** Storing one more byte behind a run. *)
Lemma store8_mem_write m a l b :
  is_Some (m !! (a + zlen l)) → is_u8 b →
  store8 (mem_write m a l) (a + zlen l) b = Ok (mem_write m a (l ++ [b])).
Proof.
  intros Hm Hb. rewrite store8_ok, u8_small, mem_write_app; [done|done|].
  rewrite lookup_mem_write, decide_False by lia. done.
Qed.

(** A complete copy is the write of the source's bytes. *)
Lemma copied_mem_write m0 m d s n bs :
  copied m0 m d s (in_range 0 n) → bytes_at m0 s bs → zlen bs = n →
  m = mem_write m0 d bs.
Proof.
  intros H Hbs Hn. apply map_eq. intros y. rewrite H, lookup_mem_write. unfold in_range.
  case_decide.
  - replace ((0 <=? y - d) && (y - d <? n)) with true by lia.
    rewrite <- Hbs by lia. f_equal. lia.
  - by replace ((0 <=? y - d) && (y - d <? n)) with false by lia.
Qed.

Lemma bytes_at_mapped m s bs : bytes_at m s bs → mapped m s (zlen bs).
Proof.
  intros H x Hx. replace x with (s + Z.of_nat (Z.to_nat (x - s))) by lia.
  rewrite H by lia. apply lookup_lt_is_Some_2. lia.
Qed.

Lemma bytes_at_u8 m s bs : mem_ok m → bytes_at m s bs → Forall is_u8 bs.
Proof.
  intros Hm H. apply Forall_lookup. intros i b Hb.
  rewrite <- H in Hb by (by eapply lookup_lt_Some). by apply (Hm _ _ Hb).
Qed.

Lemma bytes_at_app m s l1 l2 :
  bytes_at m s (l1 ++ l2) ↔ bytes_at m s l1 ∧ bytes_at m (s + zlen l1) l2.
Proof.
  split.
  - intros H. split; intros i Hi.
    + rewrite H by len_lia. by apply lookup_app_l.
    + replace (s + zlen l1 + Z.of_nat i) with (s + Z.of_nat (length l1 + i)) by lia.
      rewrite H by len_lia. rewrite lookup_app_r by lia. f_equal. lia.
  - intros [H1 H2] i Hi. rewrite length_app in Hi.
    destruct (decide (i < length l1)%nat).
    + rewrite lookup_app_l by done. by apply H1.
    + rewrite lookup_app_r by lia. rewrite <- H2 by lia. f_equal. lia.
Qed.

Lemma bytes_at_cons m s b l : bytes_at m s (b :: l) ↔ m !! s = Some b ∧ bytes_at m (s + 1) l.
Proof.
  change (b :: l) with ([b] ++ l). rewrite bytes_at_app. simpl. split.
  - intros [H1 H2]. split; [|done]. specialize (H1 0%nat). simpl in H1.
    rewrite Z.add_0_r in H1. apply H1. lia.
  - intros [H1 H2]. split; [|done]. intros i Hi. simpl in Hi.
    replace i with 0%nat by lia. by rewrite Z.add_0_r.
Qed.

(** Bytes outside a write are kept. *)
Lemma bytes_at_mem_write m a l s bs :
  bytes_at m s bs → (a + zlen l ≤ s ∨ s + zlen bs ≤ a) → bytes_at (mem_write m a l) s bs.
Proof.
  intros H Hd i Hi. rewrite lookup_mem_write, decide_False by lia. by apply H.
Qed.

Lemma bytes_at_mem_write_self m a l : bytes_at (mem_write m a l) a l.
Proof.
  intros i Hi. rewrite lookup_mem_write, decide_True by lia. f_equal. lia.
Qed.

Lemma cstr_mem_write m a l s t :
  cstr m s t → (a + zlen l ≤ s ∨ s + zlen t < a) → cstr (mem_write m a l) s t.
Proof.
  intros [Hnz Hs] Hd. split; [done|]. apply bytes_at_mem_write; [done|]. rewrite length_app. simpl. lia.
Qed.

(** ** The fill invariant *)

(** [m] is [m0] after the bytes at the offsets [P] from [p] were set to [c]. *)
Definition filled (m0 m : mem) (p c : Z) (P : Z → bool) : Prop :=
  ∀ y, m !! y = if P (y - p) then Some c else m0 !! y.

Lemma filled_refl m p c : filled m m p c (λ _, false).
Proof. by intros y. Qed.

Lemma filled_ext m0 m p c P Q : filled m0 m p c P → (∀ j, P j = Q j) → filled m0 m p c Q.
Proof. intros H HPQ y. by rewrite <- HPQ. Qed.

Lemma filled_mapped m0 m p c P a n : filled m0 m p c P → mapped m0 a n → mapped m a n.
Proof. intros H Hm x Hx. rewrite H. case_if; [done|by apply Hm]. Qed.

Lemma filled_store8 m0 m p c v P a :
  filled m0 m p c P → u8 v = c → is_Some (m !! a) →
  ∃ m', store8 m a v = Ok m' ∧ filled m0 m' p c (λ j, P j || in_range (a - p) (a - p + 1) j).
Proof.
  intros H Hv Ha. rewrite store8_ok, Hv by done. eexists. split; [done|]. intros y.
  unfold in_range. rewrite lookup_insert, H. case_decide.
  - subst. replace ((y - p <=? y - p) && _) with true by lia. by rewrite orb_true_r.
  - replace ((a - p <=? y - p) && _) with false by lia. by rewrite orb_false_r.
Qed.

Lemma filled_store32 m0 m p c w P a :
  filled m0 m p c P → is_u8 c → w = c * 0x01010101 → mapped m a 4 →
  ∃ m', store32 m a w = Ok m' ∧ filled m0 m' p c (λ j, P j || in_range (a - p) (a - p + 4) j).
Proof.
  intros H Hc -> Ha.
  replace (c * 0x01010101) with (c + 256 * c + 65536 * c + 16777216 * c) by lia.
  rewrite store32_word by done. eexists. split; [done|]. intros y.
  rewrite lookup_insert4, H. unfold in_range.
  destruct ((a - p <=? y - p) && (y - p <? a - p + 4)) eqn:E; bool_simpl.
  - rewrite orb_true_r. repeat case_decide; done || lia.
  - rewrite orb_false_r. apply andb_false_iff in E as [E|E]; bool_simpl;
      repeat case_decide; done || lia.
Qed.

Lemma filled_mem_write m0 m p c n :
  filled m0 m p c (in_range 0 n) → 0 ≤ n → m = mem_write m0 p (replicate (Z.to_nat n) c).
Proof.
  intros H Hn. apply map_eq. intros y. rewrite H, lookup_mem_write, length_replicate. unfold in_range.
  case_decide.
  - replace ((0 <=? y - p) && _) with true by lia. rewrite lookup_replicate_2; [done|lia].
  - by replace ((0 <=? y - p) && _) with false by lia.
Qed.

(** ** A page of memory with given contents *)

(** The page at 4096, holding [l] and zeros behind it. *)
Definition one_page (l : list Z) : mem :=
  mem_write ∅ 4096 (l ++ replicate (4096 - length l) 0).

Section OnePage.
Context (l : list Z) (Hlen : (length l <= 4096)%nat).

Lemma length_one_page : zlen (l ++ replicate (4096 - length l) 0) = 4096.
Proof. len_lia. Qed.

Lemma one_page_dom a : is_Some (one_page l !! a) ↔ 4096 ≤ a < 8192.
Proof.
  unfold one_page. rewrite lookup_mem_write, length_one_page. case_decide as Ha.
  - split; [lia|]. intros _. apply lookup_lt_is_Some_2. pose proof length_one_page. lia.
  - rewrite lookup_empty. split; [by intros [? ?]|lia].
Qed.

Lemma one_page_mapped a n : 4096 ≤ a → a + n ≤ 8192 → mapped (one_page l) a n.
Proof. intros ? ? x Hx. apply one_page_dom. lia. Qed.

Lemma one_page_page_mapped : page_mapped (one_page l).
Proof. intros a b. rewrite !one_page_dom. intros. Z.to_euclidean_division_equations; lia. Qed.

Lemma one_page_ok : Forall is_u8 l → mem_ok (one_page l).
Proof.
  intros Hl. apply mem_ok_mem_write; [apply map_Forall_empty|].
  apply Forall_app. split; [done|]. by apply Forall_replicate.
Qed.

Lemma one_page_bytes off bs :
  slice l off (length bs) = bs → bytes_at (one_page l) (4096 + Z.of_nat off) bs.
Proof.
  intros Hbs i Hi. unfold one_page. rewrite lookup_mem_write, length_one_page.
  assert (off + length bs ≤ length l)%nat.
  { pose proof (f_equal length Hbs) as Hl. rewrite length_slice in Hl. lia. }
  rewrite decide_True, lookup_app_l by lia.
  transitivity (slice l off (length bs) !! i); [|by rewrite Hbs].
  rewrite lookup_slice, decide_True by done. f_equal. lia.
Qed.
End OnePage.

(** Discharges the hypotheses about a concrete page. *)
Ltac page_solve :=
  lazymatch goal with
  | |- mem_ok (one_page _) => apply one_page_ok; forall_lia
  | |- page_mapped (one_page _) => apply one_page_page_mapped; simpl; lia
  | |- mapped (one_page _) _ _ => apply one_page_mapped; simpl; lia
  | |- cstr (one_page ?l) ?a ?s =>
      split; [forall_lia | page_solve]
  | |- bytes_at (one_page ?l) ?a ?s =>
      let o := eval vm_compute in (Z.to_nat (a - 4096)) in
      apply (one_page_bytes l ltac:(simpl; lia) o s); reflexivity
  end.
