(* ===== verification/StringLib.v ===== *)
(** * Word-at-a-time memory and string routines of [src/src/lib/string.c]

    Every routine is a function of the memory; pointers are addresses and the
    32-bit word accesses are [load32] and [store32].  A loop over a string of
    unknown length takes fuel; the theorems give the fuel that is enough.  The
    reference definitions say what the C standard asks of each routine. *)

From S2P Require Import Prelude Memory.

(** ** Word tricks *)

(** [(v - 0x01010101) & ~v & 0x80808080] on [uint32_t]. *)
Definition has_zero (v : Z) : Z :=
  Z.land (Z.land (u32 (v - 0x01010101)) (u32 (Z.lnot v))) 0x80808080.

(** [__builtin_ctz] of a non-zero 32-bit word. *)
Fixpoint ctz_from (fuel : nat) (v i : Z) : Z :=
  match fuel with
  | O => i
  | S fuel => if Z.testbit v i then i else ctz_from fuel v (i + 1)
  end.
Definition builtin_ctz (v : Z) : Z := ctz_from 32 v 0.

(** [rep movsl] and [rep stosl] with the direction flag clear. *)
Fixpoint rep_movsl (dwords : nat) (m : mem) (d s : Z) : res mem :=
  match dwords with
  | O => Ok m
  | S k => v ← load32 m s; m ← store32 m d v; rep_movsl k m (d + 4) (s + 4)
  end.

Fixpoint rep_stosl (dwords : nat) (m : mem) (d v : Z) : res mem :=
  match dwords with
  | O => Ok m
  | S k => m ← store32 m d v; rep_stosl k m (d + 4) v
  end.

(** ** Copying and filling *)

Definition memcpy (m : mem) (d s n : Z) : res (mem * Z) :=
  if n <? 4 then
    if n =? 0 then Ok (m, d) else
    b ← load8 m s; m ← store8 m d b;
    if 2 <=? n then
      b ← load8 m (s + 1); m ← store8 m (d + 1) b;
      b ← load8 m (s + (n - 1)); m ← store8 m (d + (n - 1)) b;
      Ok (m, d)
    else Ok (m, d)
  else if n <=? 8 then
    v0 ← load32 m s; v1 ← load32 m (s + (n - 4));
    m ← store32 m d v0; m ← store32 m (d + (n - 4)) v1;
    Ok (m, d)
  else if n <=? 16 then
    v0 ← load32 m s; v1 ← load32 m (s + 4);
    v2 ← load32 m (s + (n - 8)); v3 ← load32 m (s + (n - 4));
    m ← store32 m d v0; m ← store32 m (d + 4) v1;
    m ← store32 m (d + (n - 8)) v2; m ← store32 m (d + (n - 4)) v3;
    Ok (m, d)
  else if n <=? 32 then
    v0 ← load32 m s; v1 ← load32 m (s + 4); v2 ← load32 m (s + 8); v3 ← load32 m (s + 12);
    v4 ← load32 m (s + (n - 16)); v5 ← load32 m (s + (n - 12));
    v6 ← load32 m (s + (n - 8)); v7 ← load32 m (s + (n - 4));
    m ← store32 m d v0; m ← store32 m (d + 4) v1; m ← store32 m (d + 8) v2;
    m ← store32 m (d + 12) v3;
    m ← store32 m (d + (n - 16)) v4; m ← store32 m (d + (n - 12)) v5;
    m ← store32 m (d + (n - 8)) v6; m ← store32 m (d + (n - 4)) v7;
    Ok (m, d)
  else
    tail ← load32 m (s + (n - 4));
    let offset := Z.land (4 - Z.land d 3) 3 in
    v ← load32 m s; m ← store32 m d v;
    let dwords := Z.shiftr (n - offset) 2 in
    m ← rep_movsl (Z.to_nat dwords) m (d + offset) (s + offset);
    m ← store32 m (d + (n - 4)) tail;
    Ok (m, d).

(** The backward loop [while (i >= 16) { i -= 16; ... }]. *)
Fixpoint memmove_back (blocks : nat) (m : mem) (d s i : Z) : res mem :=
  match blocks with
  | O => Ok m
  | S k =>
      if 16 <=? i then
        let i := i - 16 in
        t0 ← load32 m (s + i); t1 ← load32 m (s + (i + 4));
        t2 ← load32 m (s + (i + 8)); t3 ← load32 m (s + (i + 12));
        m ← store32 m (d + (i + 12)) t3; m ← store32 m (d + (i + 8)) t2;
        m ← store32 m (d + (i + 4)) t1; m ← store32 m (d + i) t0;
        memmove_back k m d s i
      else Ok m
  end.

Definition memmove (m : mem) (d s n : Z) : res (mem * Z) :=
  if (n =? 0) || (d =? s) then Ok (m, d)
  else if (d <? s) || (u32 (s + n) <=? d) then memcpy m d s n
  else if n <? 4 then
    v0 ← load8 m s; v1 ← load8 m (s + n / 2); v2 ← load8 m (s + (n - 1));
    m ← store8 m (d + (n - 1)) v2; m ← store8 m (d + n / 2) v1; m ← store8 m d v0;
    Ok (m, d)
  else if n <=? 8 then
    v0 ← load32 m s; v1 ← load32 m (s + (n - 4));
    m ← store32 m (d + (n - 4)) v1; m ← store32 m d v0;
    Ok (m, d)
  else if n <=? 16 then
    v0 ← load32 m s; v1 ← load32 m (s + 4);
    v2 ← load32 m (s + (n - 8)); v3 ← load32 m (s + (n - 4));
    m ← store32 m (d + (n - 4)) v3; m ← store32 m (d + (n - 8)) v2;
    m ← store32 m (d + 4) v1; m ← store32 m d v0;
    Ok (m, d)
  else
    f0 ← load32 m s; f1 ← load32 m (s + 4); f2 ← load32 m (s + 8); f3 ← load32 m (s + 12);
    m ← memmove_back (Z.to_nat (n / 16)) m d s n;
    m ← store32 m d f0; m ← store32 m (d + 4) f1; m ← store32 m (d + 8) f2;
    m ← store32 m (d + 12) f3;
    Ok (m, d).

Definition memset (m : mem) (p v n : Z) : res (mem * Z) :=
  let c32 := u32 (u8 v * 0x01010101) in
  if n <? 4 then
    if n =? 0 then Ok (m, p) else
    m ← store8 m p v;
    if 2 <=? n then m ← store8 m (p + 1) v; m ← store8 m (p + (n - 1)) v; Ok (m, p)
    else Ok (m, p)
  else if n <=? 8 then
    m ← store32 m p c32; m ← store32 m (p + (n - 4)) c32; Ok (m, p)
  else if n <=? 16 then
    m ← store32 m p c32; m ← store32 m (p + 4) c32;
    m ← store32 m (p + (n - 8)) c32; m ← store32 m (p + (n - 4)) c32; Ok (m, p)
  else if n <=? 32 then
    m ← store32 m p c32; m ← store32 m (p + 4) c32;
    m ← store32 m (p + 8) c32; m ← store32 m (p + 12) c32;
    m ← store32 m (p + (n - 16)) c32; m ← store32 m (p + (n - 12)) c32;
    m ← store32 m (p + (n - 8)) c32; m ← store32 m (p + (n - 4)) c32; Ok (m, p)
  else
    m ← store32 m p c32;
    m ← store32 m (p + (n - 4)) c32;
    let offset := Z.land (4 - Z.land p 3) 3 in
    let dwords := Z.shiftr (n - offset) 2 in
    m ← rep_stosl (Z.to_nat dwords) m (p + offset) c32;
    Ok (m, p).

(** [memzero_nt_page]: 64 rounds of sixteen [movnti] stores of zero. *)
Definition memzero_nt_page (m : mem) (p : Z) : res mem := rep_stosl (64 * 16) m p 0.

(** ** Comparing *)

(** The difference of the first bytes in which the words differ. *)
Definition word_diff (va vb : Z) : Z :=
  let shift := Z.land (builtin_ctz (Z.lxor va vb)) (u32 (Z.lnot 7)) in
  Z.land (Z.shiftr va shift) 0xFF - Z.land (Z.shiftr vb shift) 0xFF.

Definition memcmp_tail (m : mem) (pa pb n : Z) : res Z :=
  if 0 <? n then x ← load8 m pa; y ← load8 m pb; Ok (x - y) else Ok 0.

Fixpoint memcmp_words (words : nat) (m : mem) (pa pb n : Z) : res Z :=
  match words with
  | O =>
      if 2 <=? n then
        va ← load16 m pa; vb ← load16 m pb;
        if negb (va =? vb) then Ok (word_diff va vb)
        else memcmp_tail m (pa + 2) (pb + 2) (n - 2)
      else memcmp_tail m pa pb n
  | S k =>
      va ← load32 m pa; vb ← load32 m pb;
      if negb (va =? vb) then Ok (word_diff va vb)
      else memcmp_words k m (pa + 4) (pb + 4) (n - 4)
  end.

(** The [while (n >= 4)] loop runs [n / 4] times. *)
Definition memcmp (m : mem) (a b n : Z) : res Z := memcmp_words (Z.to_nat (n / 4)) m a b n.

(** [strlen]: [inl r] is [return r], [inr p] goes on with pointer [p]. *)
Fixpoint strlen_head (k : nat) (m : mem) (start s : Z) : res (Z + Z) :=
  match k with
  | O => Ok (inr s)
  | S k =>
      if Z.land s 3 =? 0 then Ok (inr s) else
      c ← load8 m s;
      if c =? 0 then Ok (inl (s - start)) else strlen_head k m start (s + 1)
  end.

Fixpoint strlen_words (fuel : nat) (m : mem) (p : Z) : res Z :=
  match fuel with
  | O => Timeout
  | S fuel =>
      v0 ← load32 m p;
      if negb (has_zero v0 =? 0) then Ok p else
      v1 ← load32 m (p + 4);
      if negb (has_zero v1 =? 0) then Ok (p + 4) else
      v2 ← load32 m (p + 8);
      if negb (has_zero v2 =? 0) then Ok (p + 8) else
      v3 ← load32 m (p + 12);
      if negb (has_zero v3 =? 0) then Ok (p + 12) else
      strlen_words fuel m (p + 16)
  end.

Definition strlen (fuel : nat) (m : mem) (s : Z) : res Z :=
  r ← strlen_head 3 m s s;
  match r with
  | inl len => Ok len
  | inr p =>
      p ← strlen_words fuel m p;
      v ← load32 m p;
      if Z.land v 0x000000FF =? 0 then Ok (p - s)
      else if Z.land v 0x0000FF00 =? 0 then Ok (p - s + 1)
      else if Z.land v 0x00FF0000 =? 0 then Ok (p - s + 2)
      else Ok (p - s + 3)
  end.

(** [strcmp]: the byte loop up to the alignment of [a], the word loop while
    the words are equal without a zero and [b] does not cross a page, then the
    byte loop (unrolled four times in the source). *)
Fixpoint strcmp_head (k : nat) (m : mem) (a b : Z) : res (Z + Z * Z) :=
  match k with
  | O => Ok (inr (a, b))
  | S k =>
      if Z.land a 3 =? 0 then Ok (inr (a, b)) else
      ac ← load8 m a; bc ← load8 m b;
      if negb (ac =? bc) then Ok (inl (ac - bc))
      else if ac =? 0 then Ok (inl 0)
      else strcmp_head k m (a + 1) (b + 1)
  end.

Fixpoint strcmp_words (fuel : nat) (m : mem) (a b : Z) : res (Z * Z) :=
  match fuel with
  | O => Timeout
  | S fuel =>
      if 0xFFC <? Z.land b 0xFFF then Ok (a, b) else
      va ← load32 m a; vb ← load32 m b;
      if negb (va =? vb) || negb (has_zero va =? 0) then Ok (a, b)
      else strcmp_words fuel m (a + 4) (b + 4)
  end.

Fixpoint strcmp_bytes (fuel : nat) (m : mem) (a b : Z) : res Z :=
  match fuel with
  | O => Timeout
  | S fuel =>
      ac ← load8 m a; bc ← load8 m b;
      if negb (ac =? bc) || (ac =? 0) then Ok (ac - bc) else
      ac ← load8 m (a + 1); bc ← load8 m (b + 1);
      if negb (ac =? bc) || (ac =? 0) then Ok (ac - bc) else
      ac ← load8 m (a + 2); bc ← load8 m (b + 2);
      if negb (ac =? bc) || (ac =? 0) then Ok (ac - bc) else
      ac ← load8 m (a + 3); bc ← load8 m (b + 3);
      if negb (ac =? bc) || (ac =? 0) then Ok (ac - bc) else
      strcmp_bytes fuel m (a + 4) (b + 4)
  end.

Definition strcmp (fuel : nat) (m : mem) (a b : Z) : res Z :=
  if a =? b then Ok 0 else
  r ← strcmp_head 3 m a b;
  match r with
  | inl d => Ok d
  | inr (a, b) => '(a, b) ← strcmp_words fuel m a b; strcmp_bytes fuel m a b
  end.

(** [while (n > 0)]: the count itself bounds the loop. *)
Fixpoint strncmp_loop (n : nat) (m : mem) (a b : Z) : res Z :=
  match n with
  | O => Ok 0
  | S n =>
      ac ← load8 m a; bc ← load8 m b;
      if negb (ac =? bc) then Ok (ac - bc)
      else if ac =? 0 then Ok 0
      else strncmp_loop n m (a + 1) (b + 1)
  end.
Definition strncmp (m : mem) (a b n : Z) : res Z :=
  if n =? 0 then Ok 0 else strncmp_loop (Z.to_nat n) m a b.

(** ** Bounded copy and concatenation *)

(** The four-byte blocks [while (n >= 4)] shared by [strlcpy] and [strlcat]:
    [inl s'] when the NUL of the source was copied at [s'], [inr (d, s)] when
    the blocks ran out. *)
Fixpoint copy_blocks (blocks : nat) (m : mem) (d s : Z) : res (mem * (Z + Z * Z)) :=
  match blocks with
  | O => Ok (m, inr (d, s))
  | S k =>
      c0 ← load8 m s;
      if c0 =? 0 then m ← store8 m d 0; Ok (m, inl s) else
      m ← store8 m d c0;
      c1 ← load8 m (s + 1);
      if c1 =? 0 then m ← store8 m (d + 1) 0; Ok (m, inl (s + 1)) else
      m ← store8 m (d + 1) c1;
      c2 ← load8 m (s + 2);
      if c2 =? 0 then m ← store8 m (d + 2) 0; Ok (m, inl (s + 2)) else
      m ← store8 m (d + 2) c2;
      c3 ← load8 m (s + 3);
      if c3 =? 0 then m ← store8 m (d + 3) 0; Ok (m, inl (s + 3)) else
      m ← store8 m (d + 3) c3;
      copy_blocks k m (d + 4) (s + 4)
  end.

(** The byte loop [while (n > 0)] after the blocks. *)
Fixpoint copy_bytes (n : nat) (m : mem) (d s : Z) : res (mem * (Z + Z * Z)) :=
  match n with
  | O => Ok (m, inr (d, s))
  | S k =>
      c ← load8 m s;
      if c =? 0 then m ← store8 m d 0; Ok (m, inl s) else
      m ← store8 m d c; copy_bytes k m (d + 1) (s + 1)
  end.

(** The end of [strlcpy]: how far the source still runs. *)
Fixpoint strlcpy_rest_words (fuel : nat) (m : mem) (src s : Z) : res Z :=
  match fuel with
  | O => Timeout
  | S fuel =>
      v ← load32 m s;
      if negb (has_zero v =? 0) then
        if Z.land v 0xFF =? 0 then Ok (s - src)
        else if Z.land v 0xFF00 =? 0 then Ok (s - src + 1)
        else if Z.land v 0xFF0000 =? 0 then Ok (s - src + 2)
        else Ok (s - src + 3)
      else strlcpy_rest_words fuel m src (s + 4)
  end.

Definition strlcpy_rest (fuel : nat) (m : mem) (src s : Z) : res Z :=
  r ← strlen_head 3 m src s;
  match r with inl n => Ok n | inr s => strlcpy_rest_words fuel m src s end.

Definition strlcpy (fuel : nat) (m : mem) (dst src dstsz : Z) : res (mem * Z) :=
  if 0 <? dstsz then
    let n := dstsz - 1 in
    '(m, r) ← copy_blocks (Z.to_nat (n / 4)) m dst src;
    match r with
    | inl s => Ok (m, s - src)
    | inr (d, s) =>
        '(m, r) ← copy_bytes (Z.to_nat (n `mod` 4)) m d s;
        match r with
        | inl s => Ok (m, s - src)
        | inr (d, s) =>
            m ← store8 m d 0;
            len ← strlcpy_rest fuel m src s; Ok (m, len)
        end
    end
  else len ← strlcpy_rest fuel m src src; Ok (m, len).

(** [strlcat]: the word loop that looks for the end of [dst]. *)
Fixpoint strlcat_end_words (blocks : nat) (m : mem) (d n : Z) : res (Z * Z) :=
  match blocks with
  | O => Ok (d, n)
  | S k =>
      v ← load32 m d;
      if negb (has_zero v =? 0) then
        if Z.land v 0xFF =? 0 then Ok (d, n)
        else if Z.land v 0xFF00 =? 0 then Ok (d + 1, n - 1)
        else if Z.land v 0xFF0000 =? 0 then Ok (d + 2, n - 2)
        else Ok (d + 3, n - 3)
      else strlcat_end_words k m (d + 4) (n - 4)
  end.

(** [while (n > 0 && *d != '\0')]. *)
Fixpoint strlcat_end_bytes (k : nat) (m : mem) (d n : Z) : res (Z * Z) :=
  match k with
  | O => Ok (d, n)
  | S k =>
      if 0 <? n then
        c ← load8 m d;
        if negb (c =? 0) then strlcat_end_bytes k m (d + 1) (n - 1) else Ok (d, n)
      else Ok (d, n)
  end.

(** The loop that finds the end of [src] four bytes at a time. *)
Fixpoint find_end (fuel : nat) (m : mem) (s : Z) : res Z :=
  match fuel with
  | O => Timeout
  | S fuel =>
      c ← load8 m s; if c =? 0 then Ok s else
      c ← load8 m (s + 1); if c =? 0 then Ok (s + 1) else
      c ← load8 m (s + 2); if c =? 0 then Ok (s + 2) else
      c ← load8 m (s + 3); if c =? 0 then Ok (s + 3) else
      find_end fuel m (s + 4)
  end.

Definition strlcat (fuel : nat) (m : mem) (dst src dstsz : Z) : res (mem * Z) :=
  '(d, n) ← strlcat_end_words (Z.to_nat (dstsz / 4)) m dst dstsz;
  '(d, n) ← strlcat_end_bytes (Z.to_nat n) m d n;
  let dlen := d - dst in
  if n =? 0 then s ← find_end fuel m src; Ok (m, dstsz + (s - src)) else
  let remaining := n - 1 in
  '(m, r) ← copy_blocks (Z.to_nat (remaining / 4)) m d src;
  match r with
  | inl s => Ok (m, dlen + (s - src))
  | inr (d, s) =>
      '(m, r) ← copy_bytes (Z.to_nat (remaining `mod` 4)) m d s;
      match r with
      | inl s => Ok (m, dlen + (s - src))
      | inr (d, s) =>
          m ← store8 m d 0;
          s ← find_end fuel m s; Ok (m, dlen + (s - src))
      end
  end.

(** ** Reference definitions *)

Fixpoint memcmp_ref (la lb : list Z) : Z :=
  match la, lb with
  | a :: la, b :: lb => if a =? b then memcmp_ref la lb else a - b
  | _, _ => 0
  end.

(** The first difference of two strings, their terminators included. *)
Fixpoint strcmp_ref (la lb : list Z) : Z :=
  match la, lb with
  | [], [] => 0
  | [], b :: _ => - b
  | a :: _, [] => a
  | a :: la, b :: lb => if a =? b then strcmp_ref la lb else a - b
  end.

Definition strncmp_ref (n : nat) (la lb : list Z) : Z := strcmp_ref (take n la) (take n lb).

(** ** Copying: proofs *)

(** Loads the word at [a] of a mapped source. *)
Lemma load32_mapped m a n i :
  mapped m a n → 0 ≤ i → i + 4 ≤ n → ∃ v, load32 m (a + i) = Ok v.
Proof.
  intros Hm Hi Hn. destruct (load32_bytes m (a + i)) as (?&?&?&?&->&_); eauto.
  intros x Hx. apply Hm. lia.
Qed.

(** Reads the word at [src + i] of the original memory into [v]. *)
Ltac load_word Hsrc i v H :=
  destruct (load32_mapped _ _ _ i Hsrc) as [v H]; [lia|lia|];
  rewrite ?Z.add_0_r in H; rewrite H; cbn [mbind res_bind].

Ltac sub_mapped :=
  match goal with
  | H : mapped ?m _ _ |- mapped ?m _ _ => apply (mapped_sub _ _ _ _ _ H); lia
  end.

(** Runs the next word store of a copy whose words are already loaded. *)
Ltac copy_word :=
  match goal with
  | Hok : mem_ok ?m0, Hc : copied ?m0 ?m ?d ?s ?P, Hv : load32 ?m0 ?b = Ok ?v,
    Hd : mapped ?m ?d _ |- context [store32 ?m ?a ?v] =>
      let m' := fresh "m" in let Hst := fresh "Hst" in
      let Hc' := fresh "Hc" in let Hm' := fresh "Hm" in
      destruct (copied_store32 m0 m d s P a b v Hok Hc) as (m' & Hst & Hc' & Hm');
      [lia | sub_mapped | exact Hv | sub_mapped | ];
      rewrite Hst; cbn [mbind res_bind]; apply Hm' in Hd; clear Hst Hc Hm'
  end.

(** The result of a copy whose stores covered [0 .. n). *)
Lemma copy_done m0 m d s P n bs :
  copied m0 m d s P → bytes_at m0 s bs → zlen bs = n →
  (∀ j, P j = in_range 0 n j) → Ok (m, d) = Ok (mem_write m0 d bs, d).
Proof.
  intros Hc Hbs Hn HP. do 2 f_equal. eapply copied_mem_write; [|done|done].
  by eapply copied_ext.
Qed.

(** Blocks of 4 to 32 bytes load every word before the first store, so they
    copy correctly whatever the overlap. *)
Lemma memcpy_small m d s n bs :
  mem_ok m → bytes_at m s bs → zlen bs = n → mapped m d n → 4 ≤ n ≤ 32 →
  memcpy m d s n = Ok (mem_write m d bs, d).
Proof.
  intros Hok Hbs Hlen Hd Hn.
  assert (mapped m s n) as Hs by (rewrite <- Hlen; by apply bytes_at_mapped).
  pose proof (copied_refl m d s) as Hc.
  unfold memcpy. rewrite (proj2 (Z.ltb_ge n 4)) by lia. repeat case_if; try lia.
  - load_word Hs 0 v0 H0. load_word Hs (n - 4) v1 H1.
    do 2 copy_word. eapply copy_done; [done..|]. intros j. unfold in_range. lia.
  - load_word Hs 0 v0 H0. load_word Hs 4 v1 H1. load_word Hs (n - 8) v2 H2.
    load_word Hs (n - 4) v3 H3.
    do 4 copy_word. eapply copy_done; [done..|]. intros j. unfold in_range. lia.
  - load_word Hs 0 v0 H0. load_word Hs 4 v1 H1. load_word Hs 8 v2 H2. load_word Hs 12 v3 H3.
    load_word Hs (n - 16) v4 H4. load_word Hs (n - 12) v5 H5. load_word Hs (n - 8) v6 H6.
    load_word Hs (n - 4) v7 H7.
    do 8 copy_word. eapply copy_done; [done..|]. intros j. unfold in_range. lia.
Qed.

(** [rep movsl] continues a copy at offset [o] when the words it reads were
    not overwritten before it ([P]) and it does not run into its own output. *)
Lemma rep_movsl_copied k m0 m d s n P o :
  mem_ok m0 → copied m0 m d s P → mapped m0 s n → mapped m d n →
  0 ≤ o → o + 4 * Z.of_nat k ≤ n →
  s + n ≤ d ∨ d ≤ s →
  (∀ x, s + o ≤ x < s + o + 4 * Z.of_nat k → P (x - d) = false) →
  ∃ m', rep_movsl k m (d + o) (s + o) = Ok m' ∧ mapped m' d n ∧
    copied m0 m' d s (λ j, P j || in_range o (o + 4 * Z.of_nat k) j).
Proof.
  intros Hok. revert m P o. induction k as [|k IH]; intros m P o Hc Hs Hd Ho Hn Hov HP; simpl.
  { exists m. split_and!; [done..|]. eapply copied_ext; [done|].
    intros j. unfold in_range. bool_lia. }
  rewrite (copied_load32 _ _ _ _ _ _ Hc) by (intros x Hx; apply HP; lia).
  load_word Hs o v Hv. copy_word.
  rewrite <- !(Z.add_assoc _ o 4).
  edestruct (IH _ _ (o + 4) Hc0) as (m2 & -> & Hm2 & Hc2); [done|done|lia|lia|done| |].
  { intros x Hx. rewrite HP by lia. unfold in_range. lia. }
  exists m2. split_and!; [done..|]. eapply copied_ext; [done|].
  intros j. simpl. unfold in_range. bool_lia.
Qed.

Lemma align_offset d : 0 ≤ Z.land (4 - Z.land d 3) 3 ≤ 3.
Proof.
  change 3 with (Z.ones 2). rewrite !Z.land_ones by lia.
  pose proof (Z.mod_pos_bound (4 - d `mod` 2 ^ 2) (2 ^ 2)). change (Z.ones 2) with 3. lia.
Qed.

(** The overlaps [memcpy] tolerates: none, or a destination below the source
    whose first word, stored early, is not read again by the word loop. *)
Definition copy_safe (d s n : Z) : Prop :=
  s + n ≤ d ∨ d + n ≤ s ∨
  (d < s ∧ (n ≤ 32 ∨ 4 ≤ s - d + Z.land (4 - Z.land d 3) 3)).

Lemma memcpy_large m d s n bs :
  mem_ok m → bytes_at m s bs → zlen bs = n → mapped m d n → 32 < n → copy_safe d s n →
  memcpy m d s n = Ok (mem_write m d bs, d).
Proof.
  intros Hok Hbs Hlen Hd Hn Hsafe.
  assert (mapped m s n) as Hs by (rewrite <- Hlen; by apply bytes_at_mapped).
  pose proof (align_offset d) as Ho.
  unfold memcpy. repeat (case_if; [lia|]).
  load_word Hs (n - 4) vt Ht. unfold copy_safe in Hsafe.
  set (o := Z.land _ 3) in *. clearbody o.
  load_word Hs 0 v Hv. pose proof (copied_refl m d s) as Hc. copy_word.
  rewrite Z.shiftr_div_pow2 by lia. change (2 ^ 2) with 4.
  assert (n - 4 < o + 4 * Z.of_nat (Z.to_nat ((n - o) / 4)) ≤ n) as Hk
    by (Z.to_euclidean_division_equations; lia).
  set (k := Z.to_nat _) in *. clearbody k.
  destruct (rep_movsl_copied k m m0 d s n _ o Hok Hc0)
      as (m1 & -> & Hm1 & Hc1); [done|done|lia|lia|lia| |].
  { intros x Hx. unfold in_range. lia. }
  cbn [mbind res_bind]. clear Hc0. copy_word. eapply copy_done; [done..|].
  intros j. simpl. unfold in_range. bool_lia.
Qed.

(** One byte of a copy: loads the byte at [b] and stores it at [a]. *)
Ltac copy_byte :=
  match goal with
  | Hok : mem_ok ?m0, Hc : copied ?m0 ?m ?d ?s ?P, Hd : mapped ?m ?d _
    |- context [load8 ?m ?b] =>
      let v := fresh "v" in let Hl := fresh "Hl" in let Hv := fresh "Hv" in
      try (rewrite (copied_load8 _ _ _ _ _ b Hc) by (simpl; unfold in_range; lia));
      destruct (load8_mapped m0 b) as (v & Hl & Hv);
      [match goal with H : mapped m0 s _ |- _ => apply H; lia end|];
      rewrite Hl; cbn [mbind res_bind];
      match goal with
      | |- context [store8 m ?a v] =>
          let m' := fresh "m" in let Hst := fresh "Hst" in
          let Hc' := fresh "Hc" in let Hm' := fresh "Hm" in
          destruct (copied_store8 m0 m d s P a b v Hc) as (m' & Hst & Hc' & Hm');
          [lia | exact Hv | by eapply mem_ok_lookup | apply Hd; lia |];
          rewrite Hst; cbn [mbind res_bind]; apply Hm' in Hd; clear Hst Hc Hm' Hl
      end
  end.

Lemma memcpy_tiny m d s n bs :
  mem_ok m → bytes_at m s bs → zlen bs = n → mapped m d n → n < 4 →
  s + n ≤ d ∨ d + n ≤ s ∨ d < s →
  memcpy m d s n = Ok (mem_write m d bs, d).
Proof.
  intros Hok Hbs Hlen Hd Hn Hov.
  assert (mapped m s n) as Hs by (rewrite <- Hlen; by apply bytes_at_mapped).
  pose proof (copied_refl m d s) as Hc.
  unfold memcpy. rewrite (proj2 (Z.ltb_lt n 4)) by lia. case_if.
  { eapply copy_done; [done..|]. intros j. unfold in_range. lia. }
  copy_byte. case_if.
  - do 2 copy_byte. eapply copy_done; [done..|]. intros j. unfold in_range. lia.
  - eapply copy_done; [done..|]. intros j. unfold in_range. lia.
Qed.

Lemma memcpy_safe m d s n bs :
  mem_ok m → bytes_at m s bs → zlen bs = n → mapped m d n → copy_safe d s n →
  memcpy m d s n = Ok (mem_write m d bs, d).
Proof.
  intros Hok Hbs Hlen Hd Hsafe. unfold copy_safe in Hsafe.
  destruct (decide (n < 4)); [apply memcpy_tiny; try done; lia|].
  destruct (decide (n ≤ 32)); [apply memcpy_small; try done; lia|].
  apply memcpy_large; try done. lia.
Qed.

(** The backward loop: [i] bytes are left to copy, all above are done. *)
Lemma memmove_back_copied k m0 m d s n P i :
  mem_ok m0 → copied m0 m d s P → mapped m0 s n → mapped m d n →
  s ≤ d → 0 ≤ i ≤ n → Z.of_nat k = i / 16 →
  (∀ j, j < i → P j = false) →
  ∃ m', memmove_back k m d s i = Ok m' ∧ mapped m' d n ∧
    copied m0 m' d s (λ j, P j || in_range (i `mod` 16) i j).
Proof.
  intros Hok. revert m P i. induction k as [|k IH]; intros m P i Hc Hs Hd Hle Hi Hk HP; simpl.
  { exists m. split_and!; [done..|]. eapply copied_ext; [done|]. intros j. unfold in_range.
    assert (i `mod` 16 = i) as -> by (Z.to_euclidean_division_equations; lia). bool_lia. }
  assert (16 ≤ i) as Hi16 by (Z.to_euclidean_division_equations; lia).
  rewrite (proj2 (Z.leb_le 16 i)) by done.
  rewrite !(copied_load32 _ _ _ _ _ _ Hc) by (intros x Hx; apply HP; lia).
  load_word Hs (i - 16) t0 H0. load_word Hs (i - 16 + 4) t1 H1.
  load_word Hs (i - 16 + 8) t2 H2. load_word Hs (i - 16 + 12) t3 H3.
  do 4 copy_word.
  destruct (IH _ _ (i - 16) Hc) as (mr & -> & Hmr & Hcr);
    [done|done|done|lia|Z.to_euclidean_division_equations; lia| |].
  { intros j Hj. rewrite HP by lia. unfold in_range. lia. }
  exists mr. split_and!; [done..|]. eapply copied_ext; [done|]. intros j. unfold in_range.
  replace ((i - 16) `mod` 16) with (i `mod` 16)
    by (Z.to_euclidean_division_equations; lia).
  assert (i `mod` 16 ≤ i - 16) by (Z.to_euclidean_division_equations; lia). bool_lia.
Qed.

(** A destination above an overlapping source, more than 16 bytes. *)
Lemma memmove_back_done m0 m d s n bs f0 f1 f2 f3 P :
  mem_ok m0 → bytes_at m0 s bs → zlen bs = n → mapped m0 s n → mapped m d n → 16 < n →
  load32 m0 s = Ok f0 → load32 m0 (s + 4) = Ok f1 → load32 m0 (s + 8) = Ok f2 →
  load32 m0 (s + 12) = Ok f3 →
  copied m0 m d s P → (∀ j, P j = in_range (n `mod` 16) n j) →
  (m ← store32 m d f0; m ← store32 m (d + 4) f1; m ← store32 m (d + 8) f2;
   m ← store32 m (d + 12) f3; Ok (m, d)) = Ok (mem_write m0 d bs, d).
Proof.
  intros Hok Hbs Hlen Hs Hd Hn H0 H1 H2 H3 Hc HP. do 4 copy_word.
  eapply copy_done; [done..|]. intros j. simpl. rewrite HP. unfold in_range.
  pose proof (Z.mod_pos_bound n 16). bool_lia.
Qed.

(** The overlapping case of [memmove] in which the destination is above. *)
Lemma memmove_up m d s n bs :
  mem_ok m → bytes_at m s bs → zlen bs = n → mapped m d n →
  s < d < s + n → s + n < 4294967296 → 0 ≤ s →
  memmove m d s n = Ok (mem_write m d bs, d).
Proof.
  intros Hok Hbs Hlen Hd Hov Hwrap Hs0.
  assert (mapped m s n) as Hs by (rewrite <- Hlen; by apply bytes_at_mapped).
  pose proof (copied_refl m d s) as Hc.
  unfold memmove. rewrite (u32_small (s + n)) by lia.
  case_if; [lia|]. case_if; [lia|]. repeat case_if.
  - assert (n / 2 ≤ n - 1 ∧ 0 ≤ n / 2) by (Z.to_euclidean_division_equations; lia).
    destruct (load8_mapped m s) as (v0 & -> & L0); [apply Hs; lia|].
    destruct (load8_mapped m (s + n / 2)) as (v1 & Hl1 & L1); [apply Hs; lia|].
    destruct (load8_mapped m (s + (n - 1))) as (v2 & Hl2 & L2); [apply Hs; lia|].
    cbn [mbind res_bind]. rewrite Hl1. cbn [mbind res_bind]. rewrite Hl2. cbn [mbind res_bind].
    destruct (copied_store8 _ _ _ _ _ (d + (n - 1)) (s + (n - 1)) v2 Hc)
      as (m1 & -> & Hc1 & Hm1); [lia|done|by eapply mem_ok_lookup|apply Hd; lia|].
    cbn [mbind res_bind].
    destruct (copied_store8 _ _ _ _ _ (d + n / 2) (s + n / 2) v1 Hc1)
      as (m2 & -> & Hc2 & Hm2); [lia|done|by eapply mem_ok_lookup|apply (Hm1 _ _ Hd); lia|].
    cbn [mbind res_bind].
    destruct (copied_store8 _ _ _ _ _ d s v0 Hc2)
      as (m3 & -> & Hc3 & Hm3); [lia|done|by eapply mem_ok_lookup|apply (Hm2 _ _ (Hm1 _ _ Hd)); lia|].
    eapply copy_done; [done..|]. intros j. unfold in_range.
    Z.to_euclidean_division_equations; bool_lia.
  - load_word Hs 0 v0 L0. load_word Hs (n - 4) v1 L1.
    do 2 copy_word. eapply copy_done; [done..|]. intros j. unfold in_range. lia.
  - load_word Hs 0 v0 L0. load_word Hs 4 v1 L1. load_word Hs (n - 8) v2 L2.
    load_word Hs (n - 4) v3 L3.
    do 4 copy_word. eapply copy_done; [done..|]. intros j. unfold in_range. lia.
  - load_word Hs 0 f0 L0. load_word Hs 4 f1 L1. load_word Hs 8 f2 L2. load_word Hs 12 f3 L3.
    destruct (memmove_back_copied (Z.to_nat (n / 16)) m m d s n _ n Hok Hc)
      as (m1 & -> & Hm1 & Hc1); [done|done|lia|lia| |done|].
    { Z.to_euclidean_division_equations; lia. }
    cbn [mbind res_bind]. by eapply memmove_back_done.
Qed.

Lemma mem_ok_copied m0 m d s P : mem_ok m0 → copied m0 m d s P → mem_ok m.
Proof. intros Hok Hc y b. rewrite Hc. case_if; apply Hok. Qed.

(** ** Filling: proofs *)

Lemma rep_stosl_filled k m0 m p c w n P o :
  filled m0 m p c P → is_u8 c → w = c * 0x01010101 → mapped m0 p n →
  0 ≤ o → o + 4 * Z.of_nat k ≤ n →
  ∃ m', rep_stosl k m (p + o) w = Ok m' ∧
    filled m0 m' p c (λ j, P j || in_range o (o + 4 * Z.of_nat k) j).
Proof.
  intros Hf Hc Hw Hp. revert m P o Hf. induction k as [|k IH]; intros m P o Hf Ho Hn; simpl.
  { exists m. split; [done|]. eapply filled_ext; [done|]. intros j. unfold in_range. bool_lia. }
  destruct (filled_store32 m0 m p c w P (p + o) Hf Hc Hw) as (m1 & -> & Hf1).
  { eapply mapped_sub; [by eapply filled_mapped|lia|lia]. }
  cbn [mbind res_bind]. rewrite <- (Z.add_assoc _ o 4).
  destruct (IH _ _ (o + 4) Hf1) as (m2 & -> & Hf2); [lia|lia|].
  exists m2. split; [done|]. eapply filled_ext; [done|].
  intros j. simpl. unfold in_range. bool_lia.
Qed.

Lemma fill_done m0 m p c P n :
  filled m0 m p c P → 0 ≤ n → (∀ j, P j = in_range 0 n j) →
  Ok (m, p) = Ok (mem_write m0 p (replicate (Z.to_nat n) c), p).
Proof.
  intros Hf Hn HP. do 2 f_equal. eapply filled_mem_write; [|done]. by eapply filled_ext.
Qed.

Ltac fill_word :=
  match goal with
  | Hc : is_u8 ?c, Hw : ?w = ?c * _, Hf : filled ?m0 ?m ?p ?c ?P, Hp : mapped ?m0 ?p ?n
    |- context [store32 ?m ?a ?w] =>
      let m' := fresh "m" in let Hst := fresh "Hst" in let Hf' := fresh "Hf" in
      destruct (filled_store32 m0 m p c w P a Hf Hc Hw) as (m' & Hst & Hf');
      [apply (mapped_sub m p n); [by eapply filled_mapped|lia|lia]|];
      rewrite Hst; cbn [mbind res_bind]; clear Hst Hf
  | Hf : filled ?m0 ?m ?p ?c ?P, Hp : mapped ?m0 ?p ?n |- context [store8 ?m ?a ?v] =>
      let m' := fresh "m" in let Hst := fresh "Hst" in let Hf' := fresh "Hf" in
      destruct (filled_store8 m0 m p c v P a Hf) as (m' & Hst & Hf');
      [done|apply (filled_mapped _ _ _ _ _ _ _ Hf Hp); lia|];
      rewrite Hst; cbn [mbind res_bind]; clear Hst Hf
  end.

(** [memset] sets exactly the [n] bytes from [p] to the low byte of [v]
    and changes nothing else, on every size path (single bytes, overlapping
    words, and the aligned [rep stosl] with its overlapping ends). *)
Theorem memset_correct (m : mem) (p v n : Z) :
  mapped m p n → 0 ≤ n →
  memset m p v n = Ok (mem_write m p (replicate (Z.to_nat n) (u8 v)), p).
Proof.
  intros Hp Hn0. pose proof (u8_range v) as Hc. change (is_u8 (u8 v)) in Hc.
  pose proof (filled_refl m p (u8 v)) as Hf. unfold memset.
  rewrite (u32_small (u8 v * _)) by (unfold is_u8 in Hc; lia).
  remember (u8 v * 0x01010101) as w eqn:Hw.
  pose proof (align_offset p) as Ho. set (o := Z.land _ 3) in *. clearbody o.
  repeat case_if; repeat fill_word.
  all: try (eapply fill_done; [done..|]; intros j; unfold in_range; lia).
  rewrite Z.shiftr_div_pow2 by lia. change (2 ^ 2) with 4.
  assert (n - 4 < o + 4 * Z.of_nat (Z.to_nat ((n - o) / 4)) ≤ n) as Hk
    by (Z.to_euclidean_division_equations; lia).
  set (k := Z.to_nat _) in *. clearbody k.
  destruct (rep_stosl_filled k m _ p (u8 v) w n _ o Hf) as (mr & -> & Hfr); [done|done|done|lia|lia|].
  eapply fill_done; [done..|]. intros j. simpl. unfold in_range. bool_lia.
Qed.

Lemma memset_correct_witness :
  memset (one_page []) 4101 0x1AB 40 = Ok (mem_write (one_page []) 4101 (replicate 40 0xAB), 4101).
Proof. apply (memset_correct (one_page []) 4101 0x1AB 40); [page_solve|lia]. Defined.

(** [memzero_nt_page] clears the 4096 bytes of a page. *)
Lemma memzero_nt_page_spec (m : mem) (p : Z) :
  mapped m p 4096 → memzero_nt_page m p = Ok (mem_write m p (replicate 4096 0)).
Proof.
  intros Hp. unfold memzero_nt_page. rewrite <- (Z.add_0_r p) at 1.
  destruct (rep_stosl_filled (64 * 16) m m p 0 0 4096 (λ _, false) 0 (filled_refl m p 0))
    as (m' & -> & Hf); [done|done|done|lia|lia|].
  f_equal. apply (filled_mem_write m m' p 0 4096); [|lia].
  eapply filled_ext; [done|]. intros j. simpl. unfold in_range. bool_lia.
Qed.

(** [memcpy] of [n] bytes between disjoint regions writes exactly the
    source's bytes to the destination, on every size path, and changes
    nothing else. *)
Theorem memcpy_correct (m : mem) (d s n : Z) (bs : list Z) :
  mem_ok m → bytes_at m s bs → zlen bs = n → mapped m d n →
  s + n ≤ d ∨ d + n ≤ s →
  memcpy m d s n = Ok (mem_write m d bs, d).
Proof. intros. apply memcpy_safe; try done. unfold copy_safe. lia. Qed.

Lemma memcpy_correct_witness :
  let m := one_page (seqZ 1 40) in
  memcpy m 4137 4096 37 = Ok (mem_write m 4137 (seqZ 1 37), 4137).
Proof. apply memcpy_correct; [page_solve|page_solve|reflexivity|page_solve|lia]. Defined.

(** [memmove] writes the original source bytes to the destination for
    every overlap in which the destination is above the source, and for a
    destination below it under [copy_safe] (at most 32 bytes, or a distance
    that the early store of the first word does not reach). *)
Theorem memmove_correct (m : mem) (d s n : Z) (bs : list Z) :
  mem_ok m → bytes_at m s bs → zlen bs = n → mapped m d n →
  0 ≤ s → s + n < 4294967296 → (d < s → copy_safe d s n) →
  memmove m d s n = Ok (mem_write m d bs, d).
Proof.
  intros Hok Hbs Hlen Hd Hs0 Hwrap Hsafe.
  destruct (decide (n = 0 ∨ d = s)) as [H0|H0].
  { unfold memmove. replace ((n =? 0) || (d =? s)) with true by lia.
    do 2 f_equal. apply map_eq. intros y. rewrite lookup_mem_write.
    case_decide; [|done]. destruct H0 as [-> | ->]; [lia|].
    rewrite <- Hbs by lia. f_equal. lia. }
  destruct (decide (s < d < s + n)) as [Hov|Hov]; [by apply memmove_up|].
  unfold memmove. rewrite (u32_small (s + n)) by lia.
  replace ((n =? 0) || (d =? s)) with false by lia.
  replace ((d <? s) || (s + n <=? d)) with true by lia.
  apply memcpy_safe; try done. destruct (decide (d < s)); [auto|]. unfold copy_safe. lia.
Qed.

Lemma memmove_correct_witness :
  let m := one_page (seqZ 1 40) in
  memmove m 4101 4096 37 = Ok (mem_write m 4101 (seqZ 1 37), 4101).
Proof.
  apply memmove_correct; [page_solve|page_solve|reflexivity|page_solve|lia|lia|lia].
Defined.

(** The overlap [memmove] gets wrong: moving more than 32 bytes down by
    one to a word-aligned destination stores, at the first byte of the
    destination, the second byte of the source instead of the first. *)
Theorem memmove_down_corrupts (m : mem) (d n : Z) (bs : list Z) :
  mem_ok m → bytes_at m (d + 1) bs → zlen bs = n → mapped m d n →
  Z.land d 3 = 0 → 32 < n →
  ∃ m', memmove m d (d + 1) n = Ok (m', d) ∧ m' !! d = bs !! 1%nat.
Proof.
  intros Hok Hbs Hlen Hd Hal Hn.
  assert (mapped m (d + 1) n) as Hs by (rewrite <- Hlen; by apply bytes_at_mapped).
  unfold memmove. replace ((n =? 0) || (d =? d + 1)) with false by lia.
  replace ((d <? d + 1) || (u32 (d + 1 + n) <=? d)) with true by lia.
  unfold memcpy. repeat (case_if; [lia|]). rewrite Hal. change (Z.land (4 - 0) 3) with 0.
  load_word Hs (n - 4) vt Ht. load_word Hs 0 v Hv.
  pose proof (copied_refl m d (d + 1)) as Hc. copy_word.
  rewrite Z.sub_0_r, Z.shiftr_div_pow2 by lia. change (2 ^ 2) with 4.
  pose proof (mem_ok_copied _ _ _ _ _ Hok Hc0) as Hok0.
  assert (1 ≤ Z.of_nat (Z.to_nat (n / 4)) ∧ 4 * Z.of_nat (Z.to_nat (n / 4)) ≤ n) as Hk
    by (Z.to_euclidean_division_equations; lia).
  set (k := Z.to_nat _) in *. clearbody k.
  assert (mapped m0 (d + 1) n) as Hs0.
  { eapply copied_mapped; [done..|]. intros j Hj. simpl in Hj. unfold in_range in Hj. apply Hs. lia. }
  destruct (rep_movsl_copied k m0 m0 d (d + 1) n _ 0 Hok0 (copied_refl m0 d (d + 1)))
    as (m1 & -> & Hm1 & Hc1); [done|done|lia|lia|lia|done|].
  cbn [mbind res_bind]. rewrite store32_ok by (eapply mapped_sub; [done|lia|lia]).
  eexists. split; [done|]. rewrite lookup_insert4. repeat (case_decide; [lia|]).
  rewrite Hc1. simpl. unfold in_range. rewrite Z.sub_diag.
  replace ((0 <=? 0) && (0 <? _)) with true by lia.
  rewrite Hc0. simpl. unfold in_range. replace ((_ <=? _) && _) with true by lia.
  rewrite <- Hbs by lia. f_equal. lia.
Qed.

Lemma memmove_down_corrupts_witness :
  ∃ m', memmove (one_page (0 :: seqZ 1 40)) 4096 4097 40 = Ok (m', 4096) ∧ m' !! 4096 = Some 2.
Proof.
  apply (memmove_down_corrupts (one_page (0 :: seqZ 1 40)) 4096 40 (seqZ 1 40));
    [page_solve|page_solve|reflexivity|page_solve|reflexivity|lia].
Defined.

(** ** The zero-byte test *)

(** The word made of four bytes. *)
Definition word4 (b0 b1 b2 b3 : Z) : Z := b0 + 256 * b1 + 65536 * b2 + 16777216 * b3.

Lemma testbit_div w i : 0 ≤ i → Z.testbit w i = ((w / 2 ^ i) `mod` 2 =? 1).
Proof.
  intros Hi. rewrite Z.testbit_odd, Z.shiftr_div_pow2, Zmod_odd by done. by destruct (Z.odd _).
Qed.

(** The mask keeps bits 7, 15, 23 and 31. *)
Lemma land_sign_bits x :
  Z.land x 0x80808080 = 0 ↔
  Z.testbit x 7 = false ∧ Z.testbit x 15 = false ∧ Z.testbit x 23 = false ∧ Z.testbit x 31 = false.
Proof.
  split.
  - intros H.
    assert (∀ i, Z.testbit 0x80808080 i = true → Z.testbit x i = false) as Hb.
    { intros i Hi. assert (Z.testbit (Z.land x 0x80808080) i = false) as E by (rewrite H; apply Z.bits_0).
      rewrite Z.land_spec, Hi, andb_true_r in E. done. }
    by split_and!; apply Hb.
  - intros (H7 & H15 & H23 & H31). apply Z.bits_inj'. intros i Hi. rewrite Z.land_spec, Z.bits_0.
    destruct (decide (i < 32)).
    + assert (∃ k : nat, (k < 32)%nat ∧ i = Z.of_nat k) as (k & Hk & ->) by (exists (Z.to_nat i); lia).
      apply andb_false_iff.
      do 32 (destruct k as [|k];
        [first [right; reflexivity | left; exact H7 | left; exact H15 | left; exact H23 | left; exact H31]|]).
      lia.
    + rewrite (Z.bits_above_log2 0x80808080) by (simpl; lia). apply andb_false_r.
Qed.

Lemma has_zero_word4 b0 b1 b2 b3 :
  is_u8 b0 → is_u8 b1 → is_u8 b2 → is_u8 b3 →
  has_zero (word4 b0 b1 b2 b3) = 0 ↔ b0 ≠ 0 ∧ b1 ≠ 0 ∧ b2 ≠ 0 ∧ b3 ≠ 0.
Proof.
  unfold is_u8, has_zero, word4. intros H0 H1 H2 H3. set (v := b0 + _ + _ + _).
  rewrite land_sign_bits, !Z.land_spec, !andb_false_iff.
  replace (u32 (Z.lnot v)) with (4294967295 - v)
    by (unfold u32, Z.lnot, v; Z.to_euclidean_division_equations; lia).
  rewrite !testbit_div by lia. rewrite !Z.eqb_neq.
  change (2 ^ 7) with 128. change (2 ^ 15) with 32768. change (2 ^ 23) with 8388608.
  change (2 ^ 31) with 2147483648. unfold u32, v.
  split.
  - intros (S0 & S1 & S2 & S3).
    destruct (decide (b0 = 0)) as [->|]; [exfalso; clear S1 S2 S3; Z.to_euclidean_division_equations; lia|].
    destruct (decide (b1 = 0)) as [->|]; [exfalso; clear S0 S2 S3; Z.to_euclidean_division_equations; lia|].
    destruct (decide (b2 = 0)) as [->|]; [exfalso; clear S0 S1 S3; Z.to_euclidean_division_equations; lia|].
    destruct (decide (b3 = 0)) as [->|]; [exfalso; clear S0 S1 S2; Z.to_euclidean_division_equations; lia|].
    done.
  - intros Hnz. rewrite (Z.mod_small (_ - _)) by lia.
    split_and!.
    + destruct (decide (b0 ≤ 128)); [left|right]; Z.to_euclidean_division_equations; lia.
    + destruct (decide (b1 ≤ 128)); [left|right]; Z.to_euclidean_division_equations; lia.
    + destruct (decide (b2 ≤ 128)); [left|right]; Z.to_euclidean_division_equations; lia.
    + destruct (decide (b3 ≤ 128)); [left|right]; Z.to_euclidean_division_equations; lia.
Qed.

Lemma land_shifted_byte v n :
  0 ≤ n → Z.land v (Z.shiftl 255 n) = Z.shiftl ((v / 2 ^ n) `mod` 256) n.
Proof.
  intros Hn. change 256 with (2 ^ 8). rewrite <- Z.land_ones, <- Z.shiftr_div_pow2 by lia.
  change (Z.ones 8) with 255. apply Z.bits_inj'. intros i Hi.
  rewrite Z.land_spec, !Z.shiftl_spec, Z.land_spec by done.
  destruct (decide (n ≤ i)).
  - rewrite Z.shiftr_spec by lia. by replace (i - n + n) with i by lia.
  - rewrite !(Z.testbit_neg_r _ (i - n)) by lia. by rewrite andb_false_r.
Qed.

(** Which byte of a word is zero, as the mask tests of the source see it. *)
Lemma byte_masks b0 b1 b2 b3 :
  is_u8 b0 → is_u8 b1 → is_u8 b2 → is_u8 b3 →
  (Z.land (word4 b0 b1 b2 b3) 0xFF =? 0) = (b0 =? 0) ∧
  (Z.land (word4 b0 b1 b2 b3) 0xFF00 =? 0) = (b1 =? 0) ∧
  (Z.land (word4 b0 b1 b2 b3) 0xFF0000 =? 0) = (b2 =? 0).
Proof.
  unfold is_u8, word4. intros H0 H1 H2 H3.
  change 0xFF0000 with (Z.shiftl 255 16). change 0xFF00 with (Z.shiftl 255 8).
  change 0xFF with (Z.shiftl 255 0) at 1.
  rewrite !land_shifted_byte, !Z.shiftl_mul_pow2 by lia.
  change (2 ^ 16) with 65536. change (2 ^ 8) with 256. change (2 ^ 0) with 1.
  rewrite Z.div_1_r. split_and!; apply Bool.eq_iff_eq_true; rewrite !Z.eqb_eq;
    Z.to_euclidean_division_equations; lia.
Qed.

(** An aligned word lies in one page, so it is mapped with any of its bytes. *)
Lemma aligned_word_mapped m p i :
  page_mapped m → p `mod` 4 = 0 → 0 ≤ i < 4 → is_Some (m !! (p + i)) → mapped m p 4.
Proof.
  intros Hpg Hal Hi Hm x Hx. apply (Hpg (p + i)); [done|].
  Z.to_euclidean_division_equations; lia.
Qed.

Lemma land_3 a : Z.land a 3 = a `mod` 4.
Proof. change 3 with (Z.ones 2). by rewrite Z.land_ones. Qed.

Lemma cstr_lookup m s l i :
  cstr m s l → (i ≤ length l)%nat → ∃ b, m !! (s + Z.of_nat i) = Some b ∧
    (b = 0 ↔ i = length l) ∧ (l ++ [0]) !! i = Some b.
Proof.
  intros [Hnz Hl] Hi. rewrite Hl by (rewrite length_app; simpl; lia).
  destruct (decide (i = length l)) as [->|Hne].
  - exists 0. rewrite lookup_app_r, Nat.sub_diag by lia. done.
  - destruct (lookup_lt_is_Some_2 l i) as [b Hb]; [lia|].
    exists b. rewrite lookup_app_l by lia. split_and!; [done| |done].
    rewrite Forall_lookup in Hnz. split; [|done]. intros ->. by destruct (Hnz i 0 Hb).
Qed.

(** A string from its [k]-th byte on is a string. *)
Lemma cstr_drop m s l k :
  cstr m s l → (k ≤ length l)%nat → cstr m (s + Z.of_nat k) (drop k l).
Proof.
  intros [Hnz Hl] Hk. split; [by apply Forall_drop|].
  rewrite <- (take_drop k l), <- (assoc_L (++)), bytes_at_app in Hl. destruct Hl as [_ Hl].
  by rewrite length_take, Nat.min_l in Hl by lia.
Qed.

(** What the word tests say about a string that starts at a mapped word. *)
Lemma string_word m p l :
  mem_ok m → mapped m p 4 → cstr m p l →
  ∃ v, load32 m p = Ok v ∧ (has_zero v =? 0) = (4 <=? zlen l) ∧
    (zlen l < 4 →
      zlen l = if Z.land v 0xFF =? 0 then 0 else if Z.land v 0xFF00 =? 0 then 1
               else if Z.land v 0xFF0000 =? 0 then 2 else 3).
Proof.
  intros Hok Hm Hs. destruct (load32_bytes m p Hm) as (b0 & b1 & b2 & b3 & Hl & H0 & H1 & H2 & H3).
  assert (is_u8 b0 ∧ is_u8 b1 ∧ is_u8 b2 ∧ is_u8 b3) as (U0 & U1 & U2 & U3)
    by (split_and!; by eapply mem_ok_lookup).
  exists (word4 b0 b1 b2 b3). split; [exact Hl|].
  assert (∀ (i : nat) b, m !! (p + Z.of_nat i) = Some b →
    (i = length l → b = 0) ∧ ((i < length l)%nat → b ≠ 0)) as Hb.
  { intros i b Hbi. split; intros Hi; destruct (cstr_lookup m p l i Hs ltac:(lia)) as (b' & Hb' & Hz' & _);
      rewrite Hb' in Hbi; injection Hbi as <-; [by apply Hz'|]. intros Hz0%Hz'. lia. }
  destruct (Hb 0%nat b0) as [E0 N0]; [by rewrite Z.add_0_r|].
  destruct (Hb 1%nat b1 H1) as [E1 N1]. destruct (Hb 2%nat b2 H2) as [E2 N2].
  destruct (Hb 3%nat b3 H3) as [E3 N3]. clear Hb Hl H0 H1 H2 H3 Hs Hm.
  pose proof (has_zero_word4 b0 b1 b2 b3 U0 U1 U2 U3) as Hz.
  destruct (byte_masks b0 b1 b2 b3 U0 U1 U2 U3) as (M0 & M1 & M2).
  rewrite M0, M1, M2. clear M0 M1 M2 U0 U1 U2 U3. split.
  - destruct (decide (4 ≤ zlen l)).
    + rewrite (proj2 Hz), (proj2 (Z.leb_le _ _)) by (split_and?; auto with lia || lia). done.
    + rewrite (proj2 (Z.leb_gt _ _)) by lia. apply Z.eqb_neq. rewrite Hz.
      intros (N0' & N1' & N2' & N3').
      assert (0 = length l ∨ 1 = length l ∨ 2 = length l ∨ 3 = length l)%nat as [Hk|[Hk|[Hk|Hk]]] by lia; auto.
  - intros Hlt. clear Hz.
    assert (0 = length l ∨ 1 = length l ∨ 2 = length l ∨ 3 = length l)%nat as [H|[H|[H|H]]] by lia.
    + rewrite E0 by done. simpl. lia.
    + rewrite (proj2 (Z.eqb_neq b0 0)), E1 by auto with lia. simpl. lia.
    + rewrite (proj2 (Z.eqb_neq b0 0)), (proj2 (Z.eqb_neq b1 0)), E2 by auto with lia. simpl. lia.
    + rewrite (proj2 (Z.eqb_neq b0 0)), (proj2 (Z.eqb_neq b1 0)), (proj2 (Z.eqb_neq b2 0))
        by auto with lia. simpl. lia.
Qed.

Lemma cstr_word_mapped m p l : page_mapped m → p `mod` 4 = 0 → cstr m p l → mapped m p 4.
Proof.
  intros Hpg Hal Hs. apply (aligned_word_mapped m p 0); [done|done|lia|].
  destruct (cstr_lookup m p l 0 Hs ltac:(lia)) as (b & Hb & _). by exists b.
Qed.

Lemma strlen_words_spec fuel m p l :
  mem_ok m → page_mapped m → p `mod` 4 = 0 → cstr m p l → (length l < 16 * fuel)%nat →
  ∃ k, strlen_words fuel m p = Ok (p + 4 * Z.of_nat k) ∧
       4 * Z.of_nat k ≤ zlen l < 4 * Z.of_nat k + 4.
Proof.
  intros Hok Hpg. revert p l. induction fuel as [|fuel IH]; intros p l Hal Hs Hf; [lia|].
  assert (∀ j : nat, (4 * j ≤ length l)%nat →
    ∃ v, load32 m (p + Z.of_nat (4 * j)) = Ok v ∧
         (has_zero v =? 0) = (4 <=? zlen l - 4 * Z.of_nat j)) as Hw.
  { intros j Hj. pose proof (cstr_drop m p l (4 * j) Hs Hj) as Hd.
    destruct (string_word m (p + Z.of_nat (4 * j)) (drop (4 * j) l)) as (v & -> & Hv & _);
      [done| |done|].
    - eapply cstr_word_mapped; [done| |done]. Z.to_euclidean_division_equations; lia.
    - exists v. split; [done|]. rewrite Hv, length_drop. f_equal. lia. }
  simpl.
  destruct (Hw 0%nat) as (v0 & L0 & Z0); [lia|]. rewrite Z.add_0_r in L0.
  rewrite L0. cbn [mbind res_bind]. rewrite Z0. case_if; [exists 0%nat; split; [f_equal; lia|lia]|].
  destruct (Hw 1%nat) as (v1 & L1 & Z1); [lia|]. change (Z.of_nat (4 * 1)) with 4 in L1.
  rewrite L1. cbn [mbind res_bind]. rewrite Z1. case_if; [exists 1%nat; split; [f_equal; lia|lia]|].
  destruct (Hw 2%nat) as (v2 & L2 & Z2); [lia|]. change (Z.of_nat (4 * 2)) with 8 in L2.
  rewrite L2. cbn [mbind res_bind]. rewrite Z2. case_if; [exists 2%nat; split; [f_equal; lia|lia]|].
  destruct (Hw 3%nat) as (v3 & L3 & Z3); [lia|]. change (Z.of_nat (4 * 3)) with 12 in L3.
  rewrite L3. cbn [mbind res_bind]. rewrite Z3. case_if; [exists 3%nat; split; [f_equal; lia|lia]|].
  destruct (IH (p + 16) (drop 16 l)) as (k & Hk & Hr).
  - Z.to_euclidean_division_equations; lia.
  - apply (cstr_drop m p l 16 Hs). lia.
  - len_lia.
  - exists (k + 4)%nat. rewrite Hk. rewrite length_drop in Hr. split; [f_equal; lia|lia].
Qed.

(** The byte loop up to the next aligned address, [i] bytes ahead. *)
Lemma strlen_head_spec k m start s l i q :
  cstr m s l → s + Z.of_nat i = 4 * q → (i ≤ k)%nat →
  strlen_head k m start s = Ok (inl (s + zlen l - start)) ∨
  (∃ j : nat, strlen_head k m start s = Ok (inr (s + Z.of_nat j)) ∧ (j ≤ length l)%nat ∧
     (s + Z.of_nat j) `mod` 4 = 0).
Proof.
  revert s l i. induction k as [|k IH]; intros s l i Hs Hq Hk; simpl.
  { right. exists 0%nat. replace i with 0%nat in * by lia. split_and!; [f_equal; f_equal; lia|lia|].
    rewrite Hq. by rewrite Z.mul_comm, Z_mod_mult. }
  rewrite land_3. case_if.
  { right. exists 0%nat. rewrite Z.add_0_r. split_and!; [done|lia|done]. }
  assert (i ≠ 0%nat) as Hi by (intros ->; Z.to_euclidean_division_equations; lia).
  destruct (cstr_lookup m s l 0 Hs ltac:(lia)) as (b & Hb & Hz & _).
  rewrite Z.add_0_r in Hb. rewrite (load8_ok _ _ _ Hb). cbn [mbind res_bind]. case_if.
  { left. do 2 f_equal. lia. }
  destruct (IH (s + 1) (drop 1 l) (i - 1)%nat) as [-> |(j & -> & Hj & Hm)].
  - apply (cstr_drop m s l 1 Hs). lia.
  - lia.
  - lia.
  - left. rewrite length_drop. do 2 f_equal. lia.
  - right. exists (S j). rewrite length_drop in Hj.
    replace (s + Z.of_nat (S j)) with (s + 1 + Z.of_nat j) by lia. split_and!; [done|lia|done].
Qed.

(** At most three bytes from any address to an aligned one. *)
Lemma align_up s : ∃ (i : nat) q, s + Z.of_nat i = 4 * q ∧ (i ≤ 3)%nat.
Proof.
  exists (Z.to_nat ((- s) `mod` 4)), ((s + 3) / 4). Z.to_euclidean_division_equations; lia.
Qed.

(** [strlen] returns the length of every NUL-terminated string, and its
    word loads touch only pages that hold a byte of the string: with page
    granular mappings it never faults. *)
Theorem strlen_correct (fuel : nat) (m : mem) (s : Z) (l : list Z) :
  mem_ok m → page_mapped m → cstr m s l → (length l < 16 * fuel)%nat →
  strlen fuel m s = Ok (zlen l).
Proof.
  intros Hok Hpg Hs Hf. unfold strlen. destruct (align_up s) as (i & q & Hq & Hi).
  destruct (strlen_head_spec 3 m s s l i q Hs Hq Hi) as [-> |(j & -> & Hj & Hm)];
    cbn [mbind res_bind].
  { f_equal. lia. }
  pose proof (cstr_drop m s l j Hs Hj) as Hd.
  destruct (strlen_words_spec fuel m _ _ Hok Hpg Hm Hd) as (k & -> & Hk); [len_lia|].
  cbn [mbind res_bind]. rewrite length_drop in Hk.
  pose proof (cstr_drop m _ _ (4 * k) Hd ltac:(len_lia)) as Hw.
  replace (Z.of_nat (4 * k)) with (4 * Z.of_nat k) in Hw by lia.
  assert (mapped m (s + Z.of_nat j + 4 * Z.of_nat k) 4) as Hmap.
  { eapply cstr_word_mapped; [done| |done]. Z.to_euclidean_division_equations; lia. }
  destruct (string_word m _ _ Hok Hmap Hw) as (v & -> & _ & Hv).
  cbn [mbind res_bind]. rewrite !length_drop in Hv.
  specialize (Hv ltac:(lia)). repeat case_if; f_equal; lia.
Qed.

Lemma strlen_correct_witness :
  strlen 1 (one_page [9; 121; 117; 108; 97; 79; 83; 0]) 4097 = Ok 6.
Proof.
  apply (strlen_correct 1 (one_page [9; 121; 117; 108; 97; 79; 83; 0]) 4097 [121; 117; 108; 97; 79; 83]);
    [page_solve|page_solve|page_solve|simpl; lia].
Defined.

(** ** Comparing: proofs *)

Lemma cstr_nil m a : cstr m a [] ↔ m !! a = Some 0.
Proof.
  unfold cstr. simpl. rewrite bytes_at_cons. split; [by intros (_ & ? & _)|].
  intros ?. split_and!; [done..|]. intros i Hi. simpl in Hi. lia.
Qed.

Lemma cstr_cons m a x l : cstr m a (x :: l) ↔ x ≠ 0 ∧ m !! a = Some x ∧ cstr m (a + 1) l.
Proof.
  unfold cstr. simpl. rewrite bytes_at_cons, Forall_cons. tauto.
Qed.

(** A string is determined by its address. *)
Lemma cstr_inj m a l l' : cstr m a l → cstr m a l' → l = l'.
Proof.
  revert a l'. induction l as [|x l IH]; intros a [|y l']; rewrite ?cstr_nil, ?cstr_cons; intros;
    destruct_and?; simplify_eq; try done.
  f_equal. eauto.
Qed.

Lemma strcmp_ref_refl l : strcmp_ref l l = 0.
Proof. induction l; simpl; [done|]. by rewrite Z.eqb_refl. Qed.

(** One step of a byte loop of [strcmp]. *)
Lemma strcmp_step m a b la lb :
  cstr m a la → cstr m b lb →
  ∃ x y, load8 m a = Ok x ∧ load8 m b = Ok y ∧
    ((x ≠ y ∨ x = 0) ∧ strcmp_ref la lb = x - y ∨
     x = y ∧ x ≠ 0 ∧ ∃ la' lb', la = x :: la' ∧ lb = y :: lb' ∧
       cstr m (a + 1) la' ∧ cstr m (b + 1) lb').
Proof.
  intros Ha Hb.
  destruct la as [|x la]; rewrite ?cstr_nil, ?cstr_cons in Ha;
    destruct lb as [|y lb]; rewrite ?cstr_nil, ?cstr_cons in Hb; destruct_and?.
  - exists 0, 0. rewrite !(load8_ok m _ 0) by done. split_and!; [done..|]. left. simpl. lia.
  - exists 0, y. rewrite (load8_ok m a 0), (load8_ok m b y) by done. split_and!; [done..|].
    left. simpl. lia.
  - exists x, 0. rewrite (load8_ok m a x), (load8_ok m b 0) by done. split_and!; [done..|].
    left. simpl. lia.
  - exists x, y. rewrite (load8_ok m a x), (load8_ok m b y) by done. split_and!; [done..|].
    destruct (decide (x = y)) as [->|Hne].
    + right. split_and!; [done..|]. by exists la, lb.
    + left. split; [by left|]. simpl. rewrite (proj2 (Z.eqb_neq x y)) by done. done.
Qed.

(** The rest of a comparison that has reached [a'] and [b'] without finding a
    difference. *)
Record cmp_rest (m : mem) (la lb : list Z) (a' b' : Z) (la' lb' : list Z) : Prop := {
  rest_a : cstr m a' la';
  rest_b : cstr m b' lb';
  rest_ref : strcmp_ref la lb = strcmp_ref la' lb';
  rest_len : (length la' ≤ length la)%nat
}.

Lemma strcmp_head_spec k m a b la lb i q :
  cstr m a la → cstr m b lb → a + Z.of_nat i = 4 * q → (i ≤ k)%nat →
  strcmp_head k m a b = Ok (inl (strcmp_ref la lb)) ∨
  ∃ a' b' la' lb', strcmp_head k m a b = Ok (inr (a', b')) ∧ a' `mod` 4 = 0 ∧
    cmp_rest m la lb a' b' la' lb'.
Proof.
  revert a b la lb i. induction k as [|k IH]; intros a b la lb i Ha Hb Hq Hk; simpl.
  { right. exists a, b, la, lb. replace i with 0%nat in Hq by lia.
    split_and!; [done| |by split]. Z.to_euclidean_division_equations; lia. }
  rewrite land_3. case_if; [right; exists a, b, la, lb; by split_and!|].
  assert (i ≠ 0%nat) as Hi by (intros ->; Z.to_euclidean_division_equations; lia).
  destruct (strcmp_step m a b la lb Ha Hb) as (x & y & -> & -> & [[Hxy Hr]|(-> & Hy & la' & lb' & -> & -> & Ha' & Hb')]);
    cbn [mbind res_bind].
  - left. rewrite Hr. repeat case_if; do 2 f_equal; lia.
  - rewrite Z.eqb_refl, (proj2 (Z.eqb_neq y 0)) by done. cbn [negb].
    destruct (IH _ _ _ _ (i - 1)%nat Ha' Hb') as [-> |(a2 & b2 & la2 & lb2 & -> & Hm & [])]; [lia|lia| |].
    + left. simpl. by rewrite Z.eqb_refl.
    + right. exists a2, b2, la2, lb2. split_and!; [done..|]. split; try done; simpl.
      * by rewrite Z.eqb_refl.
      * lia.
Qed.

(** The words of a string of four or more bytes. *)
Lemma cstr_load32 m p x0 x1 x2 x3 l :
  cstr m p (x0 :: x1 :: x2 :: x3 :: l) → load32 m p = Ok (word4 x0 x1 x2 x3) ∧ cstr m (p + 4) l.
Proof.
  rewrite !cstr_cons. intros (_ & H0 & _ & H1 & _ & H2 & _ & H3 & Hl).
  replace (p + 1 + 1 + 1 + 1) with (p + 4) in Hl by lia.
  replace (p + 1 + 1 + 1) with (p + 3) in H3 by lia.
  replace (p + 1 + 1) with (p + 2) in H2 by lia. split; [|done]. unfold load32.
  rewrite (load8_ok _ _ _ H0); simpl. rewrite (load8_ok _ _ _ H1); simpl.
  rewrite (load8_ok _ _ _ H2); simpl. by rewrite (load8_ok _ _ _ H3).
Qed.

Lemma unaligned_word_mapped m p l :
  page_mapped m → Z.land p 0xFFF ≤ 0xFFC → cstr m p l → mapped m p 4.
Proof.
  intros Hpg Hp Hs x Hx. change 0xFFF with (Z.ones 12) in Hp.
  rewrite Z.land_ones in Hp by lia. change (2 ^ 12) with 4096 in Hp.
  destruct (cstr_lookup m p l 0 Hs ltac:(lia)) as (b & Hb & _). rewrite Z.add_0_r in Hb.
  apply (Hpg p); [by exists b|]. Z.to_euclidean_division_equations; lia.
Qed.

Lemma strcmp_words_spec fuel m a b la lb :
  mem_ok m → page_mapped m → cstr m a la → cstr m b lb → a `mod` 4 = 0 →
  (length la < 4 * fuel)%nat →
  ∃ a' b' la' lb', strcmp_words fuel m a b = Ok (a', b') ∧ cmp_rest m la lb a' b' la' lb'.
Proof.
  intros Hok Hpg. revert a b la lb. induction fuel as [|fuel IH]; intros a b la lb Ha Hb Hal Hf; [lia|].
  simpl. case_if; [exists a, b, la, lb; by split|].
  destruct (string_word m a la Hok (cstr_word_mapped _ _ _ Hpg Hal Ha) Ha) as (va & La & Za & _).
  destruct (string_word m b lb Hok (unaligned_word_mapped _ _ _ Hpg E Hb) Hb) as (vb & Lb & Zb & _).
  rewrite La, Lb. cbn [mbind res_bind].
  case_if; [exists a, b, la, lb; by split|]. subst vb. rewrite Z.eqb_sym in Za.
  assert (4 ≤ zlen la ∧ 4 ≤ zlen lb) as [Hla Hlb] by (split; apply Z.leb_le; lia).
  destruct la as [|x0 [|x1 [|x2 [|x3 la]]]]; simpl in Hla; try lia.
  destruct lb as [|y0 [|y1 [|y2 [|y3 lb]]]]; simpl in Hlb; try lia.
  apply cstr_load32 in Ha as Ha4. apply cstr_load32 in Hb as Hb4.
  destruct Ha4 as [La' Ha4], Hb4 as [Lb' Hb4].
  rewrite La in La'. rewrite Lb in Lb'. injection La' as La'. injection Lb' as Lb'.
  assert (x0 = y0 ∧ x1 = y1 ∧ x2 = y2 ∧ x3 = y3) as (-> & -> & -> & ->).
  { pose proof (bytes_at_u8 m a _ Hok (proj2 Ha)) as Ua. pose proof (bytes_at_u8 m b _ Hok (proj2 Hb)) as Ub.
    simpl in Ua, Ub. rewrite !Forall_cons in Ua, Ub. unfold is_u8 in *. clear - Ua Ub La' Lb'.
    unfold word4 in *. destruct_and!. lia. }
  destruct (IH (a + 4) (b + 4) la lb) as (a' & b' & la' & lb' & -> & []); [done|done| |simpl in Hf; lia|].
  { Z.to_euclidean_division_equations; lia. }
  exists a', b', la', lb'. split; [done|]. split; [done|done| |simpl; lia].
  simpl. by rewrite !Z.eqb_refl.
Qed.

(** One unrolled comparison of the final byte loop. *)
Ltac cmp_byte Ha Hb :=
  let x := fresh "x" in let y := fresh "y" in let Hx := fresh "Hx" in let Hy := fresh "Hy" in
  let Hr := fresh "Hr" in let Hxy := fresh "Hxy" in let Hnz := fresh "Hnz" in
  let la' := fresh "la" in let lb' := fresh "lb" in
  let Ha' := fresh "Ha" in let Hb' := fresh "Hb" in
  destruct (strcmp_step _ _ _ _ _ Ha Hb)
    as (x & y & Hx & Hy & [[Hxy Hr]|(-> & Hnz & la' & lb' & -> & -> & Ha' & Hb')]);
  rewrite Hx, Hy; cbn [mbind res_bind]; clear Ha Hb;
  [ replace (negb (x =? y) || (x =? 0)) with true by lia; simpl; rewrite ?Z.eqb_refl;
    f_equal; simpl in Hr; lia
  | replace (negb (y =? y) || (y =? 0)) with false by lia;
    rewrite <- ?Z.add_assoc in Ha', Hb';
    change (1 + 1) with 2 in Ha', Hb'; change (2 + 1) with 3 in Ha', Hb';
    change (3 + 1) with 4 in Ha', Hb';
    rename Ha' into Ha, Hb' into Hb ].

Lemma strcmp_bytes_spec fuel m a b la lb :
  cstr m a la → cstr m b lb → (length la < 4 * fuel)%nat →
  strcmp_bytes fuel m a b = Ok (strcmp_ref la lb).
Proof.
  revert a b la lb. induction fuel as [|fuel IH]; intros a b la lb Ha Hb Hf; [lia|].
  simpl. do 4 (cmp_byte Ha Hb).
  simpl. rewrite !Z.eqb_refl. apply IH; [done|done|simpl in Hf; lia].
Qed.

(** [strcmp] returns the difference of the first bytes in which two
    strings differ (their terminators included), 0 when they are equal.  The
    word loop reads [b] unaligned but never across a page: with page granular
    mappings it never faults. *)
Theorem strcmp_correct (fuel : nat) (m : mem) (a b : Z) (la lb : list Z) :
  mem_ok m → page_mapped m → cstr m a la → cstr m b lb → (length la < 4 * fuel)%nat →
  strcmp fuel m a b = Ok (strcmp_ref la lb).
Proof.
  intros Hok Hpg Ha Hb Hf. unfold strcmp. case_if.
  { subst b. by rewrite (cstr_inj _ _ _ _ Hb Ha), strcmp_ref_refl. }
  destruct (align_up a) as (i & q & Hq & Hi).
  destruct (strcmp_head_spec 3 m a b la lb i q Ha Hb Hq Hi)
    as [-> |(a1 & b1 & la1 & lb1 & -> & Hal & [])]; [done|]. cbn [mbind res_bind].
  destruct (strcmp_words_spec fuel m a1 b1 la1 lb1) as (a2 & b2 & la2 & lb2 & -> & []); [done..|lia|].
  cbn [mbind res_bind]. rewrite (strcmp_bytes_spec fuel m a2 b2 la2 lb2) by (done || lia).
  congruence.
Qed.

Lemma strcmp_correct_witness :
  strcmp 2 (one_page [97; 98; 99; 100; 101; 0; 97; 98; 99; 100; 200; 0]) 4096 4102 = Ok (-99).
Proof.
  apply (strcmp_correct 2 (one_page [97; 98; 99; 100; 101; 0; 97; 98; 99; 100; 200; 0]) 4096 4102
    [97; 98; 99; 100; 101] [97; 98; 99; 100; 200]);
    [page_solve|page_solve|page_solve|page_solve|simpl; lia].
Defined.

(** [strncmp] compares at most [n] bytes. *)
Lemma strncmp_loop_spec n m a b la lb :
  cstr m a la → cstr m b lb → strncmp_loop n m a b = Ok (strncmp_ref n la lb).
Proof.
  unfold strncmp_ref. revert a b la lb. induction n as [|n IH]; intros a b la lb Ha Hb; [done|].
  simpl. destruct la as [|x la]; [rewrite cstr_nil in Ha|rewrite cstr_cons in Ha];
    (destruct lb as [|y lb]; [rewrite cstr_nil in Hb|rewrite cstr_cons in Hb]); destruct_and?;
    (erewrite (load8_ok m a) by eassumption); (erewrite (load8_ok m b) by eassumption);
    cbn [mbind res_bind strcmp_ref firstn negb]; repeat case_if; try (f_equal; lia); try done.
  all: eauto.
Qed.

(** [strncmp] is [strcmp] on the first [n] bytes of the strings. *)
Theorem strncmp_correct (m : mem) (a b n : Z) (la lb : list Z) :
  cstr m a la → cstr m b lb → 0 ≤ n →
  strncmp m a b n = Ok (strcmp_ref (take (Z.to_nat n) la) (take (Z.to_nat n) lb)).
Proof.
  intros Ha Hb Hn. unfold strncmp. case_if; [by subst n|]. by apply strncmp_loop_spec.
Qed.

Lemma strncmp_correct_witness :
  strncmp (one_page [97; 98; 99; 0; 97; 98; 120; 0]) 4096 4100 2 = Ok 0.
Proof.
  apply (strncmp_correct (one_page [97; 98; 99; 0; 97; 98; 120; 0]) 4096 4100 2
    [97; 98; 99] [97; 98; 120]); [page_solve|page_solve|lia].
Defined.

(** ** [memcmp]: proofs *)

Lemma ctz_from_spec fuel v i j :
  i ≤ j < i + Z.of_nat fuel → Z.testbit v j = true →
  let r := ctz_from fuel v i in
  i ≤ r ≤ j ∧ Z.testbit v r = true ∧ ∀ k, i ≤ k < r → Z.testbit v k = false.
Proof.
  revert i. induction fuel as [|fuel IH]; intros i Hj Ht; simpl; [lia|].
  destruct (Z.testbit v i) eqn:Ei.
  - split_and!; [lia|lia|done|]. intros k Hk. lia.
  - assert (i ≠ j) by congruence.
    destruct (IH (i + 1)) as (H1 & H2 & H3); [lia|done|].
    split_and!; [lia|lia|done|]. intros k Hk. destruct (decide (k = i)) as [->|]; [done|].
    apply H3. lia.
Qed.

Definition byte_of (v : Z) (k : nat) : Z := Z.land (Z.shiftr v (8 * Z.of_nat k)) 0xFF.

Lemma testbit_byte_of v k i :
  0 ≤ i → Z.testbit (byte_of v k) i = Z.testbit v (i + 8 * Z.of_nat k) && (i <? 8).
Proof.
  intros Hi. unfold byte_of. change 0xFF with (Z.ones 8).
  rewrite Z.land_spec, Z.shiftr_spec by done. f_equal.
  destruct (Z.ltb_spec i 8); [by rewrite Z.ones_spec_low by lia|by rewrite Z.ones_spec_high by lia].
Qed.

(** [word_diff] finds the first byte in which two words differ. *)
Lemma word_diff_spec va vb :
  0 ≤ va < 4294967296 → 0 ≤ vb < 4294967296 → va ≠ vb →
  ∃ k : nat, (k < 4)%nat ∧ (∀ j, (j < k)%nat → byte_of va j = byte_of vb j) ∧
    byte_of va k ≠ byte_of vb k ∧ word_diff va vb = byte_of va k - byte_of vb k.
Proof.
  intros Ha Hb Hne. set (x := Z.lxor va vb).
  assert (0 < x) as Hx.
  { assert (0 ≤ x) by (apply Z.lxor_nonneg; lia). assert (x ≠ 0) by (by intros E%Z.lxor_eq). lia. }
  assert (Z.log2 x < 32) as Hlog.
  { pose proof (Z.log2_lxor va vb ltac:(lia) ltac:(lia)) as Hl. fold x in Hl.
    assert (∀ v, 0 ≤ v < 4294967296 → Z.log2 v < 32) as Hv.
    { intros v Hv. destruct (decide (v = 0)) as [->|]; [done|]. apply Z.log2_lt_pow2; lia. }
    pose proof (Hv va Ha). pose proof (Hv vb Hb). lia. }
  destruct (ctz_from_spec 32 x 0 (Z.log2 x)) as (Hr & Ht & Hlow).
  { pose proof (Z.log2_nonneg x). lia. }
  { by apply Z.bit_log2. }
  unfold word_diff. fold x. change (ctz_from 32 x 0) with (builtin_ctz x) in *.
  set (r := builtin_ctz x) in *. clearbody r.
  assert (Z.land r (u32 (Z.lnot 7)) = 8 * (r / 8)) as ->.
  { assert (∃ k : nat, (k < 32)%nat ∧ r = Z.of_nat k) as (k & Hk & ->) by (exists (Z.to_nat r); lia).
    do 32 (destruct k as [|k]; [reflexivity|]). lia. }
  exists (Z.to_nat (r / 8)).
  assert (Z.of_nat (Z.to_nat (r / 8)) = r / 8) as Hk by (Z.to_euclidean_division_equations; lia).
  split_and!.
  - Z.to_euclidean_division_equations; lia.
  - intros j Hj. apply Z.bits_inj'. intros i Hi. rewrite !testbit_byte_of by done.
    destruct (Z.ltb_spec i 8); [|by rewrite !andb_false_r].
    specialize (Hlow (i + 8 * Z.of_nat j)). unfold x in Hlow. rewrite Z.lxor_spec in Hlow.
    rewrite (xorb_eq _ _ (Hlow ltac:(Z.to_euclidean_division_equations; lia))). done.
  - intros Heq. apply (f_equal (λ v, Z.testbit v (r `mod` 8))) in Heq.
    pose proof (Z.mod_pos_bound r 8 ltac:(lia)).
    rewrite !testbit_byte_of in Heq by lia. rewrite (proj2 (Z.ltb_lt _ _)), !andb_true_r in Heq by lia.
    rewrite Hk in Heq. replace (r `mod` 8 + 8 * (r / 8)) with r in Heq
      by (Z.to_euclidean_division_equations; lia).
    unfold x in Ht. by rewrite Z.lxor_spec, Heq, xorb_nilpotent in Ht.
  - unfold byte_of. by rewrite Hk.
Qed.

Lemma byte_of_word4 b0 b1 b2 b3 k :
  is_u8 b0 → is_u8 b1 → is_u8 b2 → is_u8 b3 → (k < 4)%nat →
  [b0; b1; b2; b3] !! k = Some (byte_of (word4 b0 b1 b2 b3) k).
Proof.
  unfold is_u8, byte_of, word4. intros H0 H1 H2 H3 Hk. change 0xFF with (Z.ones 8).
  rewrite Z.land_ones, Z.shiftr_div_pow2 by lia. change (2 ^ 8) with 256.
  destruct k as [|[|[|[|k]]]]; [..|lia]; simpl; f_equal;
    [change (2 ^ 0) with 1|change (2 ^ 8) with 256|change (2 ^ 16) with 65536|change (2 ^ 24) with 16777216];
    Z.to_euclidean_division_equations; lia.
Qed.

Lemma memcmp_ref_first la lb la' lb' k x y :
  length la = length lb → la !! k = Some x → lb !! k = Some y → x ≠ y →
  (∀ j, (j < k)%nat → la !! j = lb !! j) → memcmp_ref (la ++ la') (lb ++ lb') = x - y.
Proof.
  revert lb k. induction la as [|a la IH]; intros [|b lb] k Hlen Hx Hy Hne Hj; try done.
  destruct k as [|k]; simpl in *.
  - simplify_eq. by rewrite (proj2 (Z.eqb_neq _ _)).
  - pose proof (Hj 0%nat ltac:(lia)). simplify_eq. rewrite Z.eqb_refl.
    apply (IH lb k); [lia|done..|]. intros j ?. apply (Hj (S j)). lia.
Qed.

(** A differing word decides the comparison. *)
Lemma word_diff_ref a0 a1 a2 a3 b0 b1 b2 b3 la lb :
  Forall is_u8 [a0; a1; a2; a3] → Forall is_u8 [b0; b1; b2; b3] →
  word4 a0 a1 a2 a3 ≠ word4 b0 b1 b2 b3 →
  word_diff (word4 a0 a1 a2 a3) (word4 b0 b1 b2 b3) =
    memcmp_ref ([a0; a1; a2; a3] ++ la) ([b0; b1; b2; b3] ++ lb).
Proof.
  rewrite !Forall_cons. intros (A0 & A1 & A2 & A3 & _) (B0 & B1 & B2 & B3 & _) Hne.
  destruct (word_diff_spec (word4 a0 a1 a2 a3) (word4 b0 b1 b2 b3)) as (k & Hk & Hlow & Hd & ->);
    [unfold is_u8, word4 in *; lia|unfold is_u8, word4 in *; lia|done|].
  pose proof (λ k, byte_of_word4 a0 a1 a2 a3 k A0 A1 A2 A3) as Ha.
  pose proof (λ k, byte_of_word4 b0 b1 b2 b3 k B0 B1 B2 B3) as Hb.
  symmetry. apply (memcmp_ref_first _ _ _ _ k); auto.
  intros j Hj. rewrite Ha, Hb by lia. f_equal. auto.
Qed.

(** The word read from four listed bytes. *)
Lemma bytes_load32 m p x0 x1 x2 x3 l :
  bytes_at m p (x0 :: x1 :: x2 :: x3 :: l) → load32 m p = Ok (word4 x0 x1 x2 x3) ∧ bytes_at m (p + 4) l.
Proof.
  rewrite !bytes_at_cons. intros (H0 & H1 & H2 & H3 & Hl).
  replace (p + 1 + 1 + 1 + 1) with (p + 4) in Hl by lia.
  replace (p + 1 + 1 + 1) with (p + 3) in H3 by lia.
  replace (p + 1 + 1) with (p + 2) in H2 by lia. split; [|done]. unfold load32.
  rewrite (load8_ok _ _ _ H0); simpl. rewrite (load8_ok _ _ _ H1); simpl.
  rewrite (load8_ok _ _ _ H2); simpl. by rewrite (load8_ok _ _ _ H3).
Qed.

Lemma bytes_load16 m p x0 x1 l :
  bytes_at m p (x0 :: x1 :: l) → load16 m p = Ok (word4 x0 x1 0 0) ∧ bytes_at m (p + 2) l.
Proof.
  rewrite !bytes_at_cons. intros (H0 & H1 & Hl).
  replace (p + 1 + 1) with (p + 2) in Hl by lia. split; [|done]. unfold load16.
  rewrite (load8_ok _ _ _ H0); simpl. rewrite (load8_ok _ _ _ H1); simpl.
  unfold word4. f_equal. lia.
Qed.

Lemma memcmp_tail_spec m a b la lb n :
  bytes_at m a la → bytes_at m b lb → zlen la = n → zlen lb = n → n < 2 →
  memcmp_tail m a b n = Ok (memcmp_ref la lb).
Proof.
  intros Ha Hb Hla Hlb Hn. unfold memcmp_tail.
  destruct la as [|x [|]], lb as [|y [|]]; simpl in Hla, Hlb; subst n; try lia; [done|].
  rewrite bytes_at_cons in Ha, Hb. destruct_and!.
  erewrite (load8_ok m a), (load8_ok m b) by eassumption. simpl. case_if; f_equal; lia.
Qed.

Lemma memcmp_words_spec w m a b la lb n :
  mem_ok m → bytes_at m a la → bytes_at m b lb → zlen la = n → zlen lb = n →
  4 * Z.of_nat w ≤ n < 4 * Z.of_nat w + 4 →
  memcmp_words w m a b n = Ok (memcmp_ref la lb).
Proof.
  intros Hok. revert a b la lb n. induction w as [|w IH]; intros a b la lb n Ha Hb Hla Hlb Hn; simpl.
  - case_if; [|by apply memcmp_tail_spec].
    destruct la as [|a0 [|a1 la]]; simpl in Hla; try lia.
    destruct lb as [|b0 [|b1 lb]]; simpl in Hlb; try lia.
    pose proof (bytes_at_u8 _ _ _ Hok Ha) as Ua. pose proof (bytes_at_u8 _ _ _ Hok Hb) as Ub.
    rewrite !Forall_cons in Ua, Ub. destruct Ua as (Ua0 & Ua1 & _), Ub as (Ub0 & Ub1 & _).
    apply bytes_load16 in Ha as [-> Ha], Hb as [-> Hb]. cbn [mbind res_bind].
    case_if.
    + f_equal. rewrite (word_diff_ref a0 a1 0 0 b0 b1 0 0 [] []);
        [|by rewrite !Forall_cons|by rewrite !Forall_cons|done].
      cbn [memcmp_ref app]. repeat case_if; try done; exfalso; unfold word4 in *; lia.
    + assert (a0 = b0 ∧ a1 = b1) as [-> ->] by (unfold is_u8, word4 in *; lia).
      cbn [memcmp_ref]. rewrite !Z.eqb_refl. apply memcmp_tail_spec; done || lia.
  - destruct la as [|a0 [|a1 [|a2 [|a3 la]]]]; simpl in Hla; try lia.
    destruct lb as [|b0 [|b1 [|b2 [|b3 lb]]]]; simpl in Hlb; try lia.
    pose proof (bytes_at_u8 _ _ _ Hok Ha) as Ua. pose proof (bytes_at_u8 _ _ _ Hok Hb) as Ub.
    apply bytes_load32 in Ha as [-> Ha], Hb as [-> Hb]. cbn [mbind res_bind]. case_if.
    + f_equal. apply word_diff_ref; [exact (Forall_take _ 4 _ Ua)|exact (Forall_take _ 4 _ Ub)|done].
    + rewrite !Forall_cons in Ua, Ub. unfold is_u8 in *.
      assert (a0 = b0 ∧ a1 = b1 ∧ a2 = b2 ∧ a3 = b3) as (-> & -> & -> & ->)
        by (unfold word4 in *; lia).
      cbn [memcmp_ref]. rewrite !Z.eqb_refl. apply IH; done || lia.
Qed.

(** [memcmp] returns the difference of the first bytes in which two
    regions of [n] bytes differ, 0 when they are equal. *)
Theorem memcmp_correct (m : mem) (a b n : Z) (la lb : list Z) :
  mem_ok m → bytes_at m a la → bytes_at m b lb → zlen la = n → zlen lb = n →
  memcmp m a b n = Ok (memcmp_ref la lb).
Proof.
  intros. apply memcmp_words_spec; try done. Z.to_euclidean_division_equations; lia.
Qed.

Lemma memcmp_correct_witness :
  memcmp (one_page [1; 2; 3; 4; 5; 6; 7; 1; 2; 3; 4; 5; 9; 7]) 4096 4103 7 = Ok (-3).
Proof.
  apply (memcmp_correct (one_page [1; 2; 3; 4; 5; 6; 7; 1; 2; 3; 4; 5; 9; 7]) 4096 4103 7
    [1; 2; 3; 4; 5; 6; 7] [1; 2; 3; 4; 5; 9; 7]); [page_solve|page_solve|page_solve|reflexivity..].
Defined.
