(* ===== verification/StringCopy.v ===== *)
(** * Bounded string copies of [src/src/lib/string.c]: [strlcpy] and [strlcat]

    The definitions are in [StringLib]; here are the proofs that both routines
    write exactly the truncated string and its terminator, never outside the
    destination, and return the length the caller needs to see truncation. *)

From S2P Require Import Prelude Memory StringLib.

(** ** The two copy loops *)

(** The unrolled block loop is the byte loop. *)
Lemma copy_blocks_bytes k m d s : copy_blocks k m d s = copy_bytes (4 * k) m d s.
Proof.
  revert m d s. induction k as [|k IH]; intros m d s; [done|].
  replace (4 * S k)%nat with (S (S (S (S (4 * k))))) by lia. cbn [copy_blocks copy_bytes].
  rewrite <- !Z.add_assoc.
  change (1 + (1 + (1 + 1))) with 4. change (1 + (1 + 1)) with 3. change (1 + 1) with 2.
  do 4 (apply res_bind_ext; intros ?; destruct (_ =? 0); [done|]; apply res_bind_ext; intros ?).
  apply IH.
Qed.

Lemma copy_bytes_add j k m d s :
  copy_bytes (j + k) m d s =
    '(m, r) ← copy_bytes j m d s;
    match r with inl s => Ok (m, inl s) | inr (d, s) => copy_bytes k m d s end.
Proof.
  revert m d s. induction j as [|j IH]; intros m d s; [done|]. cbn [copy_bytes Nat.add].
  destruct (load8 m s) as [c| | |]; try done. cbn [mbind res_bind]. destruct (c =? 0).
  - by destruct (store8 m d 0).
  - destruct (store8 m d c); try done. apply IH.
Qed.

(** Blocks of four and then the remaining bytes: one byte loop. *)
Lemma copy_phases {A} n m d s (k : mem → Z + Z * Z → res A) :
  0 ≤ n →
  ('(m, r) ← copy_blocks (Z.to_nat (n / 4)) m d s;
   match r with
   | inl s => k m (inl s)
   | inr (d, s) => '(m, r) ← copy_bytes (Z.to_nat (n `mod` 4)) m d s; k m r
   end) = '(m, r) ← copy_bytes (Z.to_nat n) m d s; k m r.
Proof.
  intros Hn. rewrite copy_blocks_bytes.
  replace (Z.to_nat n) with (4 * Z.to_nat (n / 4) + Z.to_nat (n `mod` 4))%nat
    by (Z.to_euclidean_division_equations; lia).
  rewrite copy_bytes_add. by destruct (copy_bytes (4 * _) m d s) as [[m1 [s1|[d1 s1]]]| | |].
Qed.

(** What the byte loop copies from a string into a disjoint destination. *)
Lemma copy_bytes_spec n m d s l :
  mem_ok m → cstr m s l → mapped m d (Z.of_nat n) →
  (d + Z.of_nat n ≤ s ∨ s + zlen l < d) →
  copy_bytes n m d s =
    Ok (if (n <=? length l)%nat then (mem_write m d (take n l), inr (d + Z.of_nat n, s + Z.of_nat n))
        else (mem_write m d (l ++ [0]), inl (s + zlen l))).
Proof.
  revert m d s l. induction n as [|n IH]; intros m d s l Hok Hs Hd Hdis.
  { simpl. by rewrite !Z.add_0_r. }
  cbn [copy_bytes]. assert (is_Some (m !! d)) as Hd0 by (apply Hd; lia).
  destruct l as [|x l].
  - rewrite cstr_nil in Hs. rewrite (load8_ok _ _ _ Hs). simpl.
    rewrite store8_ok by done. simpl. by rewrite Z.add_0_r.
  - rewrite cstr_cons in Hs. destruct Hs as (Hx & Hsx & Hs).
    rewrite (load8_ok _ _ _ Hsx). cbn [mbind res_bind]. rewrite (proj2 (Z.eqb_neq x 0)) by done.
    pose proof (mem_ok_lookup _ _ _ Hok Hsx) as Hx8.
    rewrite store8_ok by done. cbn [mbind res_bind]. rewrite u8_small by done.
    simpl in Hdis. change (<[d := x]> m) with (mem_write m d [x]). rewrite (IH _ (d + 1) (s + 1) l).
    + simpl. destruct (n <=? length l)%nat; [do 4 f_equal; lia|do 3 f_equal; lia].
    + by apply mem_ok_mem_write; [|constructor].
    + apply cstr_mem_write; [done|simpl; lia].
    + apply mapped_mem_write. apply (mapped_sub _ _ _ _ _ Hd); lia.
    + lia.
Qed.

(** ** [strlcpy] *)

Lemma strlcpy_rest_words_spec fuel m src s l :
  mem_ok m → page_mapped m → s `mod` 4 = 0 → cstr m s l → (length l < 4 * fuel)%nat →
  strlcpy_rest_words fuel m src s = Ok (s + zlen l - src).
Proof.
  intros Hok Hpg. revert s l. induction fuel as [|fuel IH]; intros s l Hal Hs Hf; [lia|]. simpl.
  destruct (string_word m s l Hok (cstr_word_mapped _ _ _ Hpg Hal Hs) Hs) as (v & -> & Hz & Hv).
  cbn [mbind res_bind]. rewrite Hz. case_if.
  - specialize (Hv E). repeat case_if; f_equal; lia.
  - rewrite (IH (s + 4) (drop 4 l)).
    + rewrite length_drop. f_equal. lia.
    + Z.to_euclidean_division_equations; lia.
    + apply (cstr_drop m s l 4 Hs). lia.
    + len_lia.
Qed.

(** The tail of [strlcpy] returns the distance of the terminator from [src]. *)
Lemma strlcpy_rest_spec fuel m src s l :
  mem_ok m → page_mapped m → cstr m s l → (length l < 4 * fuel)%nat →
  strlcpy_rest fuel m src s = Ok (s + zlen l - src).
Proof.
  intros Hok Hpg Hs Hf. unfold strlcpy_rest. destruct (align_up s) as (i & q & Hq & Hi).
  destruct (strlen_head_spec 3 m src s l i q Hs Hq Hi) as [-> |(j & -> & Hj & Hm)];
    cbn [mbind res_bind]; [done|].
  rewrite (strlcpy_rest_words_spec fuel m src _ (drop j l)); [|done..| |].
  - rewrite length_drop. f_equal. lia.
  - by apply cstr_drop.
  - len_lia.
Qed.

Lemma cstr_u8 m s l : mem_ok m → cstr m s l → Forall is_u8 l.
Proof. intros Hok [_ Hl]. apply (bytes_at_u8 _ _ _ Hok) in Hl. by apply Forall_app in Hl as [? _]. Qed.

(** The truncated copy and its terminator, with the source still in place. *)
Lemma truncated_write n m d s l :
  mem_ok m → page_mapped m → cstr m s l → (n ≤ length l)%nat →
  mapped m d (Z.of_nat n + 1) → (d + Z.of_nat n < s ∨ s + zlen l < d) →
  let m1 := mem_write m d (take n l ++ [0]) in
  store8 (mem_write m d (take n l)) (d + Z.of_nat n) 0 = Ok m1 ∧
  mem_ok m1 ∧ page_mapped m1 ∧ cstr m1 (s + Z.of_nat n) (drop n l).
Proof.
  intros Hok Hpg Hs Hn Hd Hdis m1.
  assert (zlen (take n l) = Z.of_nat n) as Hlen by len_lia.
  assert (zlen (take n l ++ [0]) = Z.of_nat n + 1) as Hlen' by (rewrite length_app; simpl; lia).
  split_and!.
  - rewrite <- Hlen. apply store8_mem_write; [apply Hd; lia|]. done.
  - apply mem_ok_mem_write; [done|]. apply Forall_app. split; [|by constructor].
    apply Forall_take. by eapply cstr_u8.
  - apply page_mapped_mem_write; [done|]. by rewrite Hlen'.
  - apply cstr_mem_write; [by apply cstr_drop|]. rewrite Hlen', length_drop. lia.
Qed.

(** [strlcpy] writes the first [dstsz - 1] bytes of the source and a
    terminator into the [dstsz] bytes of the destination (nothing when
    [dstsz] is 0), changes no other byte, and returns the length of the
    source. *)
Theorem strlcpy_correct (fuel : nat) (m : mem) (dst src dstsz : Z) (l : list Z) :
  mem_ok m → page_mapped m → cstr m src l → 0 ≤ dstsz → mapped m dst dstsz →
  (dst + dstsz ≤ src ∨ src + zlen l < dst) → (length l < 4 * fuel)%nat →
  strlcpy fuel m dst src dstsz =
    Ok (if dstsz =? 0 then m else mem_write m dst (take (Z.to_nat (dstsz - 1)) l ++ [0]), zlen l).
Proof.
  intros Hok Hpg Hs Hsz Hd Hdis Hf. unfold strlcpy. case_if.
  2:{ rewrite (strlcpy_rest_spec fuel m src src l) by done. replace dstsz with 0 by lia. simpl.
      do 2 f_equal. lia. }
  rewrite (proj2 (Z.eqb_neq dstsz 0)) by lia. set (n := Z.to_nat (dstsz - 1)).
  etrans; [exact (copy_phases (dstsz - 1) m dst src (λ m r, match r with
    | inl s => Ok (m, s - src)
    | inr (d, s) => m ← store8 m d 0; len ← strlcpy_rest fuel m src s; Ok (m, len)
    end) ltac:(lia))|]. fold n.
  rewrite (copy_bytes_spec n m dst src l);
    [|done|done|apply (mapped_sub _ _ _ _ _ Hd); lia|lia].
  destruct (Nat.leb_spec n (length l)) as [Hn|Hn]; cbn [mbind res_bind].
  - destruct (truncated_write n m dst src l) as (-> & Hok1 & Hpg1 & Hs1);
      [done..|apply (mapped_sub _ _ _ _ _ Hd); lia|lia|]. cbn [mbind res_bind].
    rewrite (strlcpy_rest_spec fuel _ src _ (drop n l)) by (done || len_lia). simpl.
    rewrite length_drop. do 2 f_equal. lia.
  - rewrite take_ge by lia. do 2 f_equal. lia.
Qed.

Lemma strlcpy_correct_witness :
  let m := one_page [97; 98; 99; 100; 101; 102; 0] in
  strlcpy 2 m 4200 4096 4 = Ok (mem_write m 4200 [97; 98; 99; 0], 6).
Proof.
  intros m. etrans; [apply (strlcpy_correct 2 m 4200 4096 4 [97; 98; 99; 100; 101; 102])|reflexivity]; subst m;
    [page_solve|page_solve|page_solve|lia|page_solve|simpl; lia|simpl; lia].
Defined.

(** ** [strlcat] *)

(** [l] is the part of a buffer of [n] bytes in front of its first NUL, or the
    whole buffer when it has none. *)
Record nz_run (m : mem) (d : Z) (l : list Z) (n : Z) : Prop := {
  nz_bytes : bytes_at m d l;
  nz_nz : Forall (λ b, b ≠ 0) l;
  nz_len : zlen l ≤ n;
  nz_end : zlen l < n → m !! (d + zlen l) = Some 0;
}.

Lemma nz_run_cons m d x l n :
  nz_run m d (x :: l) n → x ≠ 0 ∧ m !! d = Some x ∧ nz_run m (d + 1) l (n - 1).
Proof.
  intros [Hb Hnz Hlen Hend]. apply bytes_at_cons in Hb as [Hx Hb]. simpl in *.
  inversion_clear Hnz. split_and!; [done|done|]. split; [done|done|lia|].
  intros H'. rewrite <- Hend by lia. f_equal. lia.
Qed.

Lemma nz_run_nil m d n : 0 < n → nz_run m d [] n → m !! d = Some 0.
Proof. intros Hn [_ _ _ Hend]. specialize (Hend Hn). by rewrite Z.add_0_r in Hend. Qed.

Lemma nz_run_cstr m d l n : nz_run m d l n → zlen l < n → cstr m d l.
Proof.
  intros [Hb Hnz _ Hend] Hlt. split; [done|]. rewrite bytes_at_app, bytes_at_cons. split_and!; auto.
  by intros i Hi%Nat.nlt_0_r.
Qed.

Lemma nz_run_drop m d l n k :
  nz_run m d l n → (k ≤ length l)%nat → nz_run m (d + Z.of_nat k) (drop k l) (n - Z.of_nat k).
Proof.
  revert d l n. induction k as [|k IH]; intros d l n H Hk.
  { by rewrite Z.add_0_r, Z.sub_0_r. }
  destruct l as [|x l]; [simpl in Hk; lia|]. apply nz_run_cons in H as (_ & _ & H).
  replace (d + Z.of_nat (S k)) with (d + 1 + Z.of_nat k) by lia.
  replace (n - Z.of_nat (S k)) with (n - 1 - Z.of_nat k) by lia. apply IH; [done|simpl in Hk; lia].
Qed.

Lemma strlcat_end_bytes_spec k m d l n :
  nz_run m d l n → n ≤ Z.of_nat k →
  strlcat_end_bytes k m d n = Ok (d + zlen l, n - zlen l).
Proof.
  revert d l n. induction k as [|k IH]; intros d l n H Hk; simpl.
  { destruct H as [_ _ Hlen _]. do 2 f_equal; lia. }
  case_if. 2:{ destruct H as [_ _ Hlen _]. do 2 f_equal; lia. }
  destruct l as [|x l].
  - rewrite (load8_ok m d 0) by (by eapply nz_run_nil). simpl. do 2 f_equal; lia.
  - apply nz_run_cons in H as (Hx & Hd & H). rewrite (load8_ok _ _ _ Hd). cbn [mbind res_bind].
    rewrite (proj2 (Z.eqb_neq _ _)) by done. cbn [negb].
    rewrite (IH (d + 1) l) by (done || lia). simpl. do 2 f_equal; lia.
Qed.

(** A run of four bytes or more has no zero in its first word. *)
Lemma nz_run_word m d l n :
  mem_ok m → nz_run m d l n → 4 ≤ zlen l → ∃ v, load32 m d = Ok v ∧ has_zero v = 0.
Proof.
  intros Hok [Hb Hnz _ _] Hl.
  destruct l as [|x0 [|x1 [|x2 [|x3 l]]]]; simpl in Hl; try lia.
  pose proof (bytes_at_u8 _ _ _ Hok Hb) as Hu. rewrite !Forall_cons in Hu, Hnz. destruct_and!.
  apply bytes_load32 in Hb as [-> _]. exists (word4 x0 x1 x2 x3). split; [done|].
  by apply has_zero_word4.
Qed.

Lemma strlcat_end_words_spec k m d l n :
  mem_ok m → mapped m d n → nz_run m d l n → 4 * Z.of_nat k ≤ n →
  ∃ j : nat, (j ≤ length l)%nat ∧
    strlcat_end_words k m d n = Ok (d + Z.of_nat j, n - Z.of_nat j).
Proof.
  intros Hok. revert d l n. induction k as [|k IH]; intros d l n Hm H Hk.
  { exists 0%nat. split; [lia|]. simpl. do 2 f_equal; lia. }
  cbn [strlcat_end_words]. destruct (decide (4 ≤ zlen l)) as [Hl|Hl].
  - destruct (nz_run_word m d l n Hok H Hl) as (v & -> & Hz). cbn [mbind res_bind].
    rewrite Hz, Z.eqb_refl. cbn [negb].
    destruct (IH (d + 4) (drop 4 l) (n - 4)) as (j & Hj & ->).
    + apply (mapped_sub _ _ _ _ _ Hm); lia.
    + apply (nz_run_drop m d l n 4 H). lia.
    + lia.
    + rewrite length_drop in Hj. exists (j + 4)%nat. split; [lia|]. do 2 f_equal; lia.
  - assert (cstr m d l) as Hs by (eapply nz_run_cstr; [done|lia]).
    destruct (string_word m d l Hok (mapped_sub m d n d 4 Hm ltac:(lia) ltac:(lia)) Hs)
      as (v & -> & Hz & Hv).
    cbn [mbind res_bind]. rewrite Hz, (proj2 (Z.leb_gt _ _)) by lia. cbn [negb].
    exists (length l). split; [done|]. rewrite Hv by lia. repeat case_if; do 2 f_equal; lia.
Qed.

(** Both end searches together. *)
Lemma strlcat_end_spec {A} m d l n (k : Z * Z → res A) :
  mem_ok m → mapped m d n → 0 ≤ n → nz_run m d l n →
  ('(d, n) ← strlcat_end_words (Z.to_nat (n / 4)) m d n;
   '(d, n) ← strlcat_end_bytes (Z.to_nat n) m d n; k (d, n)) = k (d + zlen l, n - zlen l).
Proof.
  intros Hok Hm Hn H.
  destruct (strlcat_end_words_spec (Z.to_nat (n / 4)) m d l n) as (j & Hj & ->);
    [done..|Z.to_euclidean_division_equations; lia|]. cbn [mbind res_bind].
  pose proof (nz_len _ _ _ _ H).
  rewrite (strlcat_end_bytes_spec _ m _ (drop j l)) by (by apply nz_run_drop || lia).
  cbn [mbind res_bind]. rewrite length_drop. do 2 f_equal; lia.
Qed.

(** The byte loop unrolled four times that looks for the end of the source. *)
Lemma find_end_spec fuel m s l :
  cstr m s l → (length l < 4 * fuel)%nat → find_end fuel m s = Ok (s + zlen l).
Proof.
  revert s l. induction fuel as [|fuel IH]; intros s l Hs Hf; [lia|]. cbn [find_end].
  assert (∀ i : nat, (i ≤ length l)%nat →
    ∃ b, load8 m (s + Z.of_nat i) = Ok b ∧ (b =? 0) = (Z.of_nat i =? zlen l)) as Hb.
  { intros i Hi. destruct (cstr_lookup m s l i Hs Hi) as (b & Hb & Hz & _).
    exists b. rewrite (load8_ok _ _ _ Hb). split; [done|]. bool_lia. }
  destruct (Hb 0%nat) as (b0 & L0 & Z0); [lia|]. rewrite Z.add_0_r in L0.
  rewrite L0. cbn [mbind res_bind]. rewrite Z0. case_if; [f_equal; lia|].
  destruct (Hb 1%nat) as (b1 & L1 & Z1); [lia|]. change (Z.of_nat 1) with 1 in *.
  rewrite L1. cbn [mbind res_bind]. rewrite Z1. case_if; [f_equal; lia|].
  destruct (Hb 2%nat) as (b2 & L2 & Z2); [lia|]. change (Z.of_nat 2) with 2 in *.
  rewrite L2. cbn [mbind res_bind]. rewrite Z2. case_if; [f_equal; lia|].
  destruct (Hb 3%nat) as (b3 & L3 & Z3); [lia|]. change (Z.of_nat 3) with 3 in *.
  rewrite L3. cbn [mbind res_bind]. rewrite Z3. case_if; [f_equal; lia|].
  rewrite (IH (s + 4) (drop 4 l)).
  - rewrite length_drop. f_equal. lia.
  - apply (cstr_drop m s l 4 Hs). lia.
  - len_lia.
Qed.

(** [strlcat] appends as much of the source as fits in front of the last
    byte of the buffer, terminates the result and changes no other byte; a
    destination without terminator is left alone.  It returns the length of
    the string it tried to create. *)
Theorem strlcat_correct (fuel : nat) (m : mem) (dst src dstsz : Z) (dl l : list Z) :
  mem_ok m → page_mapped m → nz_run m dst dl dstsz → cstr m src l → 0 ≤ dstsz →
  mapped m dst dstsz → (dst + dstsz ≤ src ∨ src + zlen l < dst) → (length l < 4 * fuel)%nat →
  strlcat fuel m dst src dstsz =
    Ok (if dstsz =? zlen dl then m
        else mem_write m (dst + zlen dl) (take (Z.to_nat (dstsz - zlen dl - 1)) l ++ [0]),
        zlen dl + zlen l).
Proof.
  intros Hok Hpg Hrun Hs Hsz Hd Hdis Hf. pose proof (nz_len _ _ _ _ Hrun) as Hlen.
  unfold strlcat. etrans; [exact (strlcat_end_spec m dst dl dstsz (λ '(d, n), _) Hok Hd Hsz Hrun)|].
  cbn beta iota. set (d := dst + zlen dl).
  case_if.
  { rewrite (find_end_spec fuel m src l) by done. simpl. rewrite (proj2 (Z.eqb_eq _ _)) by lia.
    do 2 f_equal; lia. }
  rewrite (proj2 (Z.eqb_neq dstsz _)) by lia. set (n := Z.to_nat (dstsz - zlen dl - 1)).
  etrans; [exact (copy_phases (dstsz - zlen dl - 1) m d src (λ m r, match r with
    | inl s => Ok (m, d - dst + (s - src))
    | inr (d', s) => m ← store8 m d' 0; s ← find_end fuel m s; Ok (m, d - dst + (s - src))
    end) ltac:(lia))|]. fold n.
  rewrite (copy_bytes_spec n m d src l);
    [|done|done|apply (mapped_sub _ _ _ _ _ Hd); lia|lia].
  destruct (Nat.leb_spec n (length l)) as [Hn|Hn]; cbn [mbind res_bind].
  - destruct (truncated_write n m d src l) as (-> & Hok1 & Hpg1 & Hs1);
      [done..|apply (mapped_sub _ _ _ _ _ Hd); lia|lia|]. cbn [mbind res_bind].
    rewrite (find_end_spec fuel _ _ (drop n l)) by (done || len_lia). simpl.
    rewrite length_drop. do 2 f_equal. lia.
  - rewrite take_ge by lia. do 2 f_equal. lia.
Qed.

Lemma strlcat_correct_witness :
  let m := one_page [97; 98; 99; 100; 101; 102; 0; 120; 121; 0] in
  strlcat 2 m 4103 4096 6 = Ok (mem_write m 4105 [97; 98; 99; 0], 8).
Proof.
  intros m. etrans;
    [apply (strlcat_correct 2 m 4103 4096 6 [120; 121] [97; 98; 99; 100; 101; 102])|reflexivity]; subst m;
    [page_solve|page_solve| |page_solve|lia|page_solve|simpl; lia|simpl; lia].
  split; [page_solve|forall_lia|simpl; lia|].
  intros _. apply (one_page_bytes [97; 98; 99; 100; 101; 102; 0; 120; 121; 0] ltac:(simpl; lia) 9 [0]
    eq_refl 0%nat). simpl. lia.
Defined.
