(* ===== verification/RingBuf.v ===== *)
(** * The byte ring buffer of [src/src/lib/ringbuf.h]

    [ringbuf] is the C struct, with the memory behind [buffer_] as a list of
    [capacity_] bytes.  A pointer argument that the code tests against NULL is
    an [option].  Every index into the buffer is checked: a [Fault] is an
    access outside it.  The abstract content of a ring is the list [rb_view];
    the class [ByteRing] with [ByteRingLaws] is what a client may rely on. *)

From S2P Require Import Prelude.

Record ringbuf := RingBuf {
  buffer_ : list Z;
  capacity_ : Z;
  count_ : Z;
  head_ : Z;
  tail_ : Z
}.

#[export] Instance ringbuf_eq_dec : EqDecision ringbuf.
Proof. solve_decision. Defined.

(** ** Operations *)

(** [ringbuf_init(rb, buffer, capacity)]; [rb] holds the struct's former
    contents, [buffer] the memory it is given. *)
Definition ringbuf_init (rb : option ringbuf) (buffer : option (list Z)) (capacity : Z)
    : res (option ringbuf) :=
  match rb, buffer with
  | Some _, Some buffer =>
      if capacity =? 0 then Ok rb else
      buffer ← arr_blit buffer 0 (replicate (Z.to_nat capacity) 0);
      Ok (Some (RingBuf buffer capacity 0 0 0))
  | _, _ => Ok rb
  end.

Definition ringbuf_clear (rb : option ringbuf) : option ringbuf :=
  match rb with
  | None => None
  | Some r => Some (RingBuf (buffer_ r) (capacity_ r) 0 0 0)
  end.

Definition ringbuf_size (rb : option ringbuf) : Z :=
  match rb with None => 0 | Some r => count_ r end.

Definition ringbuf_capacity (rb : option ringbuf) : Z :=
  match rb with None => 0 | Some r => capacity_ r end.

Definition ringbuf_free_space (rb : option ringbuf) : Z :=
  match rb with None => 0 | Some r => u32 (capacity_ r - count_ r) end.

Definition ringbuf_is_empty (rb : option ringbuf) : bool :=
  match rb with None => true | Some r => count_ r =? 0 end.

Definition ringbuf_is_full (rb : option ringbuf) : bool :=
  match rb with None => true | Some r => count_ r =? capacity_ r end.

(** Result: the struct afterwards and the returned [size_t]. *)
Definition ringbuf_push (rb : option ringbuf) (data : Z) : res (option ringbuf * Z) :=
  match rb with
  | None => Ok (None, 0)
  | Some r =>
      if capacity_ r <=? count_ r then Ok (Some r, 0) else
      buf ← arr_set (buffer_ r) (head_ r) (u8 data);
      let head := u32 (head_ r + 1) in
      let head := if capacity_ r <=? head then 0 else head in
      Ok (Some (RingBuf buf (capacity_ r) (u32 (count_ r + 1)) head (tail_ r)), 1)
  end.

(** [out_data] is [Some old] for a valid pointer to a byte [old]. *)
Definition ringbuf_pop (rb : option ringbuf) (out_data : option Z)
    : res (option ringbuf * option Z * Z) :=
  match rb, out_data with
  | Some r, Some _ =>
      if count_ r =? 0 then Ok (rb, out_data, 0) else
      b ← arr_get (buffer_ r) (tail_ r);
      let tail := u32 (tail_ r + 1) in
      let tail := if capacity_ r <=? tail then 0 else tail in
      Ok (Some (RingBuf (buffer_ r) (capacity_ r) (u32 (count_ r - 1)) (head_ r) tail),
          Some b, 1)
  | _, _ => Ok (rb, out_data, 0)
  end.

(** [data] is the memory readable at the source pointer. *)
Definition ringbuf_write (rb : option ringbuf) (data : option (list Z)) (size : Z)
    : res (option ringbuf * Z) :=
  match rb, data with
  | Some r, Some data =>
      if size =? 0 then Ok (rb, 0) else
      let space := u32 (capacity_ r - count_ r) in
      let size := if space <? size then space else size in
      if size =? 0 then Ok (rb, 0) else
      let contig := u32 (capacity_ r - head_ r) in
      if size <=? contig then
        src ← arr_slice data 0 size;
        buf ← arr_blit (buffer_ r) (head_ r) src;
        let head := u32 (head_ r + size) in
        let head := if head =? capacity_ r then 0 else head in
        Ok (Some (RingBuf buf (capacity_ r) (u32 (count_ r + size)) head (tail_ r)), size)
      else
        src ← arr_slice data 0 contig;
        buf ← arr_blit (buffer_ r) (head_ r) src;
        src ← arr_slice data contig (u32 (size - contig));
        buf ← arr_blit buf 0 src;
        Ok (Some (RingBuf buf (capacity_ r) (u32 (count_ r + size))
                    (u32 (size - contig)) (tail_ r)), size)
  | _, _ => Ok (rb, 0)
  end.

(** [out_data] is the memory at the destination pointer; the result carries
    the ring, that memory afterwards and the returned count. *)
Definition ringbuf_read (rb : option ringbuf) (out_data : option (list Z)) (size : Z)
    : res (option ringbuf * option (list Z) * Z) :=
  match rb, out_data with
  | Some r, Some out =>
      if size =? 0 then Ok (rb, out_data, 0) else
      let size := if count_ r <? size then count_ r else size in
      if size =? 0 then Ok (rb, out_data, 0) else
      let contig := u32 (capacity_ r - tail_ r) in
      if size <=? contig then
        src ← arr_slice (buffer_ r) (tail_ r) size;
        out ← arr_blit out 0 src;
        let tail := u32 (tail_ r + size) in
        let tail := if tail =? capacity_ r then 0 else tail in
        Ok (Some (RingBuf (buffer_ r) (capacity_ r) (u32 (count_ r - size)) (head_ r) tail),
            Some out, size)
      else
        src ← arr_slice (buffer_ r) (tail_ r) contig;
        out ← arr_blit out 0 src;
        src ← arr_slice (buffer_ r) 0 (u32 (size - contig));
        out ← arr_blit out contig src;
        Ok (Some (RingBuf (buffer_ r) (capacity_ r) (u32 (count_ r - size)) (head_ r)
                    (u32 (size - contig))),
            Some out, size)
  | _, _ => Ok (rb, out_data, 0)
  end.

(** [out_ptr] is [Some p] for a valid pointer to a pointer [p]; the pointer
    written is an offset into [buffer_], or [None] for NULL. *)
Definition ringbuf_peek_contiguous (rb : option ringbuf) (out_ptr : option (option Z))
    : option (option Z) * Z :=
  match rb, out_ptr with
  | Some r, Some _ =>
      if count_ r =? 0 then (Some None, 0) else
      let contig := u32 (capacity_ r - tail_ r) in
      if count_ r <? contig then (Some (Some (tail_ r)), count_ r)
      else (Some (Some (tail_ r)), contig)
  | _, _ => (out_ptr, 0)
  end.

Definition ringbuf_consume (rb : option ringbuf) (size : Z) : option ringbuf :=
  match rb with
  | None => None
  | Some r =>
      if size =? 0 then rb else
      let size := if count_ r <? size then count_ r else size in
      let tail := u32 (tail_ r + size) in
      let tail := if capacity_ r <=? tail then u32 (tail - capacity_ r) else tail in
      Some (RingBuf (buffer_ r) (capacity_ r) (u32 (count_ r - size)) (head_ r) tail)
  end.

(** ** Invariant and abstract content *)

(** Position [i] of a ring of [cap] bytes, for [0 <= i < 2 * cap]. *)
Definition ridx (cap i : Z) : Z := if i <? cap then i else i - cap.

(** Capacities above [2^31] would let [tail_ + size] wrap in
    [ringbuf_consume]; the kernel's rings have 4096 bytes. *)
Record rb_ok (r : ringbuf) : Prop := {
  rb_len : zlen (buffer_ r) = capacity_ r;
  rb_cap : 0 < capacity_ r < 2147483648;
  rb_count : 0 ≤ count_ r ≤ capacity_ r;
  rb_tail : 0 ≤ tail_ r < capacity_ r;
  rb_head : head_ r = ridx (capacity_ r) (tail_ r + count_ r)
}.

Definition rb_view (r : ringbuf) : list Z :=
  (λ i, buffer_ r !!! Z.to_nat (ridx (capacity_ r) (tail_ r + Z.of_nat i)))
    <$> seq 0 (Z.to_nat (count_ r)).

(** ** What a client of a byte ring relies on *)

Class ByteRing (R : Type) := {
  br_inv : R → Prop;
  br_view : R → list Z;
  br_capacity : R → Z;
  br_clear : R → res R;
  br_size : R → Z;
  br_free : R → Z;
  br_is_empty : R → bool;
  br_push : R → Z → res (R * Z);
  br_write : R → list Z → Z → res (R * Z);
  br_read : R → list Z → Z → res (R * list Z * Z)
}.

Class ByteRingLaws (R : Type) `{ByteRing R} : Prop := {
  br_bound (r : R) : br_inv r → zlen (br_view r) ≤ br_capacity r < 2147483648;
  br_size_ok (r : R) : br_inv r → br_size r = zlen (br_view r);
  br_free_ok (r : R) : br_inv r → br_free r = br_capacity r - zlen (br_view r);
  br_is_empty_ok (r : R) : br_inv r → br_is_empty r = (br_size r =? 0);
  br_clear_ok (r : R) : br_inv r →
    ∃ r', br_clear r = Ok r' ∧ br_inv r' ∧ br_view r' = [] ∧ br_capacity r' = br_capacity r;
  br_push_full (r : R) b : br_inv r →
    zlen (br_view r) = br_capacity r → br_push r b = Ok (r, 0);
  br_push_ok (r : R) b : br_inv r → is_u8 b →
    zlen (br_view r) < br_capacity r →
    ∃ r', br_push r b = Ok (r', 1) ∧ br_inv r' ∧
          br_view r' = br_view r ++ [b] ∧ br_capacity r' = br_capacity r;
  br_write_ok (r : R) data n : br_inv r → 0 ≤ n ≤ zlen data → is_u32 n →
    let k := Z.min n (br_capacity r - zlen (br_view r)) in
    ∃ r', br_write r data n = Ok (r', k) ∧ br_inv r' ∧
          br_view r' = br_view r ++ take (Z.to_nat k) data ∧
          br_capacity r' = br_capacity r;
  br_read_ok (r : R) out n : br_inv r → 0 ≤ n ≤ zlen out → is_u32 n →
    let k := Z.min n (zlen (br_view r)) in
    ∃ r', br_read r out n =
            Ok (r', take (Z.to_nat k) (br_view r) ++ drop (Z.to_nat k) out, k) ∧
          br_inv r' ∧ br_view r' = drop (Z.to_nat k) (br_view r) ∧
          br_capacity r' = br_capacity r
}.

(** The ring buffer behind a valid pointer implements the interface. *)
Definition nonnull {A} (o : option A) : res A :=
  match o with Some a => Ok a | None => Fault end.

#[export] Instance ringbuf_ByteRing : ByteRing ringbuf := {|
  br_inv := rb_ok;
  br_view := rb_view;
  br_capacity := capacity_;
  br_clear r := nonnull (ringbuf_clear (Some r));
  br_size r := ringbuf_size (Some r);
  br_free r := ringbuf_free_space (Some r);
  br_is_empty r := ringbuf_is_empty (Some r);
  br_push r b := '(o, n) ← ringbuf_push (Some r) b; r' ← nonnull o; Ok (r', n);
  br_write r d n := '(o, k) ← ringbuf_write (Some r) (Some d) n; r' ← nonnull o; Ok (r', k);
  br_read r out n :=
    '(o, out, k) ← ringbuf_read (Some r) (Some out) n;
    r' ← nonnull o; out' ← nonnull out; Ok (r', out', k)
|}.

(** ** Facts about the view *)

Lemma length_rb_view r : rb_ok r → zlen (rb_view r) = count_ r.
Proof. intros []. unfold rb_view. rewrite length_fmap, length_seq. lia. Qed.

Lemma lookup_rb_view r i :
  rb_ok r → (i < Z.to_nat (count_ r))%nat →
  rb_view r !! i = buffer_ r !! Z.to_nat (ridx (capacity_ r) (tail_ r + Z.of_nat i)).
Proof.
  intros [] Hi. unfold rb_view. rewrite list_lookup_fmap, lookup_seq_lt by done. simpl.
  symmetry. apply list_lookup_lookup_total_lt. unfold ridx. case_if; lia.
Qed.

(** A list is the view once it has its length and its elements. *)
Lemma rb_view_eq r l :
  rb_ok r → zlen l = count_ r →
  (∀ i, (i < length l)%nat →
    l !! i = buffer_ r !! Z.to_nat (ridx (capacity_ r) (tail_ r + Z.of_nat i))) →
  rb_view r = l.
Proof.
  intros Hok Hlen Hl. apply list_eq_same_length with (length l); [done| |].
  - pose proof (length_rb_view r Hok). lia.
  - intros i x y Hi Hx Hy. rewrite lookup_rb_view in Hx by (done || lia).
    rewrite <- Hl in Hx by done. congruence.
Qed.

(** Appending [k] bytes at [head_]: enough to know the bytes stored there and
    that the [count_] bytes already in the ring are unchanged. *)
Lemma rb_append r buf k data head :
  rb_ok r → 0 ≤ k ≤ capacity_ r - count_ r → k ≤ zlen data →
  zlen buf = capacity_ r →
  (∀ j, 0 ≤ j < k →
    buf !! Z.to_nat (ridx (capacity_ r) (tail_ r + count_ r + j)) = data !! Z.to_nat j) →
  (∀ j, 0 ≤ j < count_ r →
    buf !! Z.to_nat (ridx (capacity_ r) (tail_ r + j)) =
    buffer_ r !! Z.to_nat (ridx (capacity_ r) (tail_ r + j))) →
  head = ridx (capacity_ r) (tail_ r + count_ r + k) ∨
    (k = capacity_ r - count_ r ∧ head = tail_ r) →
  let r' := RingBuf buf (capacity_ r) (count_ r + k) head (tail_ r) in
  rb_ok r' ∧ rb_view r' = rb_view r ++ take (Z.to_nat k) data.
Proof.
  intros Hok Hk Hd Hbuf Hnew Hold Hhead r'.
  pose proof (length_rb_view r Hok) as Hlen. destruct Hok as [H1 H2 H3 H4 H5] eqn:Heq.
  assert (rb_ok r') as Hok'.
  { split; simpl; [lia|lia|lia|lia|].
    destruct Hhead as [-> | [-> ->]]; [f_equal; lia|]. unfold ridx. case_if; lia. }
  split; [done|]. apply rb_view_eq; [done|simpl; rewrite length_app, length_take; lia|].
  simpl. intros i Hi. rewrite length_app, length_take in Hi.
  destruct (decide (Z.of_nat i < count_ r)).
  - rewrite lookup_app_l by lia. rewrite lookup_rb_view by (done || lia).
    symmetry. apply Hold. lia.
  - rewrite lookup_app_r by lia. rewrite lookup_take_lt by lia.
    replace (tail_ r + Z.of_nat i) with (tail_ r + count_ r + (Z.of_nat i - count_ r)) by lia.
    rewrite Hnew by lia. f_equal. lia.
Qed.

(** Removing [k] bytes at [tail_]. *)
Lemma rb_remove r k tail :
  rb_ok r → 0 ≤ k ≤ count_ r →
  tail = ridx (capacity_ r) (tail_ r + k) →
  let r' := RingBuf (buffer_ r) (capacity_ r) (count_ r - k) (head_ r) tail in
  rb_ok r' ∧ rb_view r' = drop (Z.to_nat k) (rb_view r).
Proof.
  intros Hok Hk Htail r'. pose proof (length_rb_view r Hok) as Hlen.
  destruct Hok as [H1 H2 H3 H4 H5] eqn:Heq.
  assert (rb_ok r') as Hok'.
  { split; simpl; [done|lia|lia| |]; subst tail; rewrite ?H5; unfold ridx; repeat case_if; lia. }
  split; [done|]. apply rb_view_eq; [done|simpl; rewrite length_drop; lia|].
  simpl. intros i Hi. rewrite length_drop in Hi. rewrite lookup_drop, lookup_rb_view by (done || lia).
  f_equal. f_equal. subst tail. unfold ridx. repeat case_if; lia.
Qed.

(** ** The operations on a well-formed ring *)

Lemma ringbuf_push_spec r b :
  rb_ok r → is_u8 b → count_ r < capacity_ r →
  ∃ r', ringbuf_push (Some r) b = Ok (Some r', 1) ∧ rb_ok r' ∧
        rb_view r' = rb_view r ++ [b] ∧ capacity_ r' = capacity_ r.
Proof.
  intros Hok Hb Hlt. unfold ringbuf_push. case_if; [lia|].
  pose proof Hok as [H1 H2 H3 H4 H5].
  assert (0 ≤ head_ r < capacity_ r) as Hh by (rewrite H5; unfold ridx; case_if; lia).
  rewrite arr_set_ok by lia. simpl. rewrite u8_small by done. rewrite !u32_small by lia.
  eexists. split; [done|].
  destruct (rb_append r (<[Z.to_nat (head_ r):=b]> (buffer_ r)) 1 [b]
    (if capacity_ r <=? head_ r + 1 then 0 else head_ r + 1)) as [? ->]; [done|lia|done| | | | |].
  - rewrite length_insert. done.
  - intros j Hj. replace j with 0 by lia. rewrite Z.add_0_r, <- H5.
    rewrite list_lookup_insert_eq by lia. done.
  - intros j Hj. apply list_lookup_insert_ne. rewrite H5. unfold ridx. repeat case_if; lia.
  - destruct (decide (count_ r + 1 = capacity_ r)); [right|left];
      revert H5; unfold ridx; repeat case_if; lia.
  - done.
Qed.

(** One [memcpy] of the ring, read at ring position [p] ([p < 2 * capacity]). *)
Ltac rbuf_lookup :=
  repeat first
    [ rewrite lookup_blit by len_lia
    | rewrite lookup_slice
    | rewrite decide_True by len_lia
    | rewrite decide_False by len_lia ];
  try done; try (f_equal; lia).

Lemma ringbuf_write_spec r data n :
  rb_ok r → 0 ≤ n ≤ zlen data → is_u32 n →
  let k := Z.min n (capacity_ r - count_ r) in
  ∃ r', ringbuf_write (Some r) (Some data) n = Ok (Some r', k) ∧ rb_ok r' ∧
        rb_view r' = rb_view r ++ take (Z.to_nat k) data ∧ capacity_ r' = capacity_ r.
Proof.
  intros Hok Hn Hn32 k. pose proof Hok as [H1 H2 H3 H4 H5].
  assert (0 ≤ head_ r < capacity_ r) as Hh by (rewrite H5; unfold ridx; case_if; lia).
  unfold ringbuf_write. rewrite (u32_small (capacity_ r - count_ r)) by lia.
  rewrite (u32_small (capacity_ r - head_ r)) by lia.
  replace (if capacity_ r - count_ r <? n then _ else n) with k by (unfold k; case_if; lia).
  assert (0 ≤ k ≤ n ∧ k ≤ capacity_ r - count_ r) as Hk by lia.
  destruct (decide (k = 0)) as [E0|E0].
  { exists r. rewrite E0, Z.eqb_refl. rewrite take_0, app_nil_r. by destruct (n =? 0). }
  rewrite (proj2 (Z.eqb_neq n 0)), (proj2 (Z.eqb_neq k 0)) by lia.
  clearbody k. case_if.
  - rewrite arr_slice_ok by lia. simpl. rewrite arr_blit_ok by len_lia.
    simpl. rewrite !u32_small by lia. eexists. split; [done|].
    edestruct (rb_append r) as [Ha Hv]; [..|split; [exact Ha|split; [exact Hv|done]]]; try done; try lia.
    + len_lia.
    + intros j Hj. revert H5. unfold ridx. repeat case_if; intros; rbuf_lookup.
    + intros j Hj. revert H5. unfold ridx. repeat case_if; intros; rbuf_lookup.
    + destruct (decide (k = capacity_ r - count_ r)); [right|left];
        revert H5; unfold ridx; repeat case_if; lia.
  - rewrite (arr_slice_ok data 0) by lia. simpl. rewrite arr_blit_ok by len_lia.
    simpl. rewrite !u32_small by lia. rewrite arr_slice_ok by lia. simpl.
    rewrite arr_blit_ok by len_lia.
    simpl. eexists. split; [done|].
    edestruct (rb_append r) as [Ha Hv]; [..|split; [exact Ha|split; [exact Hv|done]]]; try done; try lia.
    + len_lia.
    + intros j Hj. revert H5. unfold ridx. repeat case_if; intros; rbuf_lookup.
    + intros j Hj. revert H5. unfold ridx. repeat case_if; intros; rbuf_lookup.
    + destruct (decide (k = capacity_ r - count_ r)); [right|left];
        revert H5; unfold ridx; repeat case_if; lia.
Qed.

(** The bytes the two [memcpy]s of a read copy out. *)
Lemma slice_rb_view r k :
  rb_ok r → 0 ≤ k ≤ count_ r → k ≤ capacity_ r - tail_ r →
  slice (buffer_ r) (Z.to_nat (tail_ r)) (Z.to_nat k) = take (Z.to_nat k) (rb_view r).
Proof.
  intros Hok Hk Hc. pose proof (length_rb_view r Hok). pose proof Hok as [H1 H2 H3 H4 H5].
  apply list_eq_same_length with (Z.to_nat k); [len_lia|len_lia|].
  intros i x y Hi Hx Hy. rewrite lookup_slice, decide_True in Hx by done.
  rewrite lookup_take_lt, lookup_rb_view in Hy by (done || lia).
  unfold ridx in Hy. rewrite (proj2 (Z.ltb_lt _ _)) in Hy by lia.
  replace (Z.to_nat (tail_ r + Z.of_nat i)) with (Z.to_nat (tail_ r) + i)%nat in Hy by lia.
  congruence.
Qed.

Lemma slice_rb_view_wrap r k :
  rb_ok r → capacity_ r - tail_ r < k ≤ count_ r →
  slice (buffer_ r) (Z.to_nat (tail_ r)) (Z.to_nat (capacity_ r - tail_ r)) ++
  slice (buffer_ r) 0 (Z.to_nat (k - (capacity_ r - tail_ r))) = take (Z.to_nat k) (rb_view r).
Proof.
  intros Hok Hk. pose proof (length_rb_view r Hok). pose proof Hok as [H1 H2 H3 H4 H5].
  apply list_eq_same_length with (Z.to_nat k); [len_lia|len_lia|].
  intros i x y Hi Hx Hy.
  rewrite lookup_take_lt, lookup_rb_view in Hy by (done || lia). unfold ridx in Hy.
  destruct (_ <? _) eqn:E in Hy; bool_simpl.
  - rewrite lookup_app_l, lookup_slice, decide_True in Hx by len_lia.
    replace (Z.to_nat (tail_ r + Z.of_nat i)) with (Z.to_nat (tail_ r) + i)%nat in Hy by lia.
    congruence.
  - rewrite lookup_app_r, lookup_slice, decide_True in Hx by len_lia. rewrite length_slice in Hx.
    apply (inj Some). rewrite <- Hx, <- Hy. f_equal. lia.
Qed.

Lemma ringbuf_read_spec r out n :
  rb_ok r → 0 ≤ n ≤ zlen out → is_u32 n →
  let k := Z.min n (count_ r) in
  ∃ r', ringbuf_read (Some r) (Some out) n =
          Ok (Some r', Some (take (Z.to_nat k) (rb_view r) ++ drop (Z.to_nat k) out), k) ∧
        rb_ok r' ∧ rb_view r' = drop (Z.to_nat k) (rb_view r) ∧ capacity_ r' = capacity_ r.
Proof.
  intros Hok Hn Hn32 k. pose proof Hok as [H1 H2 H3 H4 H5].
  unfold ringbuf_read. rewrite (u32_small (capacity_ r - tail_ r)) by lia.
  replace (if count_ r <? n then _ else n) with k by (unfold k; case_if; lia).
  assert (0 ≤ k ≤ n ∧ k ≤ count_ r) as Hk by lia.
  destruct (decide (k = 0)) as [E0|E0].
  { exists r. rewrite E0, Z.eqb_refl. by destruct (n =? 0). }
  rewrite (proj2 (Z.eqb_neq n 0)), (proj2 (Z.eqb_neq k 0)) by lia.
  clearbody k. pose proof (length_rb_view r Hok) as Hlen.
  destruct (rb_remove r k _ Hok ltac:(lia) eq_refl) as [Ha Hv]. unfold ridx in Ha, Hv.
  case_if.
  - rewrite arr_slice_ok by lia. simpl. rewrite arr_blit_ok by len_lia.
    simpl. rewrite !u32_small by lia. rewrite slice_rb_view by (done || lia).
    replace (if tail_ r + k =? _ then _ else _)
      with (if tail_ r + k <? capacity_ r then tail_ r + k else tail_ r + k - capacity_ r)
      by (repeat case_if; lia).
    eexists. split; [|done]. rewrite blit_0. repeat f_equal. len_lia.
  - rewrite (arr_slice_ok _ (tail_ r)) by lia. simpl. rewrite arr_blit_ok by len_lia.
    simpl. rewrite !u32_small by lia. rewrite arr_slice_ok by lia. simpl.
    rewrite arr_blit_ok by len_lia. simpl.
    rewrite (proj2 (Z.ltb_ge _ _)) in Ha, Hv by lia.
    replace (tail_ r + k - capacity_ r) with (k - (capacity_ r - tail_ r)) in Ha, Hv by lia.
    eexists. split; [|done]. repeat f_equal.
    set (c := capacity_ r - tail_ r) in *.
    replace (Z.to_nat c) with (length (slice (buffer_ r) (Z.to_nat (tail_ r)) (Z.to_nat c))) at 2
      by len_lia.
    rewrite blit_adjacent by len_lia. unfold c. rewrite slice_rb_view_wrap by (done || lia).
    rewrite blit_0. repeat f_equal. len_lia.
Qed.

Lemma ringbuf_pop_spec r old :
  rb_ok r →
  match rb_view r with
  | [] => ringbuf_pop (Some r) (Some old) = Ok (Some r, Some old, 0)
  | b :: rest => ∃ r', ringbuf_pop (Some r) (Some old) = Ok (Some r', Some b, 1) ∧
                       rb_ok r' ∧ rb_view r' = rest ∧ capacity_ r' = capacity_ r
  end.
Proof.
  intros Hok. pose proof Hok as [H1 H2 H3 H4 H5]. pose proof (length_rb_view r Hok) as Hlen.
  unfold ringbuf_pop. destruct (rb_view r) as [|b rest] eqn:Hv; simpl in Hlen.
  - by rewrite <- Hlen.
  - rewrite (proj2 (Z.eqb_neq _ 0)) by lia.
    assert (rb_view r !! 0%nat = Some b) as Hb by by rewrite Hv.
    rewrite lookup_rb_view in Hb by (done || lia).
    erewrite arr_get_ok; [|lia|].
    2: { rewrite <- Hb. f_equal. unfold ridx. case_if; lia. }
    simpl. rewrite !u32_small by lia.
    destruct (rb_remove r 1 _ Hok ltac:(lia) eq_refl) as [Ha Hd].
    unfold ridx in Ha, Hd.
    replace (if capacity_ r <=? tail_ r + 1 then _ else _) with
      (if tail_ r + 1 <? capacity_ r then tail_ r + 1 else tail_ r + 1 - capacity_ r)
      by (repeat case_if; lia).
    eexists. split; [done|]. rewrite Hd, Hv. done.
Qed.

Lemma ringbuf_consume_spec r n :
  rb_ok r → 0 ≤ n → is_u32 n →
  ∃ r', ringbuf_consume (Some r) n = Some r' ∧ rb_ok r' ∧
        rb_view r' = drop (Z.to_nat n) (rb_view r) ∧ capacity_ r' = capacity_ r.
Proof.
  intros Hok Hn Hn32. pose proof Hok as [H1 H2 H3 H4 H5]. pose proof (length_rb_view r Hok) as Hlen.
  unfold ringbuf_consume. case_if.
  { exists r. by subst n. }
  set (k := if count_ r <? n then count_ r else n).
  assert (k = Z.min n (count_ r)) as Hk by (unfold k; case_if; lia).
  destruct (rb_remove r k _ Hok ltac:(lia) eq_refl) as [Ha Hv]. unfold ridx in Ha, Hv.
  rewrite (u32_small (tail_ r + k)), (u32_small (count_ r - k)) by lia.
  replace (if capacity_ r <=? tail_ r + k then _ else _) with
    (if tail_ r + k <? capacity_ r then tail_ r + k else tail_ r + k - capacity_ r)
    by (repeat case_if; rewrite ?u32_small; lia).
  eexists. split; [done|]. rewrite Hv. split_and!; [done| |done].
  destruct (decide (n ≤ count_ r)); [f_equal; lia|].
  rewrite !drop_ge; [done|lia..].
Qed.

Lemma ringbuf_init_spec r0 buffer cap :
  zlen buffer = cap → 0 < cap < 2147483648 →
  ∃ r, ringbuf_init (Some r0) (Some buffer) cap = Ok (Some r) ∧
       rb_ok r ∧ rb_view r = [] ∧ capacity_ r = cap.
Proof.
  intros Hlen Hcap. unfold ringbuf_init. case_if; [lia|].
  rewrite arr_blit_ok by len_lia. simpl. eexists. split; [done|].
  split_and!; [|done..]. split; simpl; [len_lia|lia|lia|lia|]. unfold ridx. case_if; lia.
Qed.

#[export] Instance ringbuf_ByteRingLaws : ByteRingLaws ringbuf.
Proof.
  split; simpl; intros r *.
  - intros Hok. rewrite length_rb_view by done. destruct Hok. lia.
  - intros Hok. by rewrite length_rb_view.
  - intros Hok. rewrite length_rb_view by done. destruct Hok. by rewrite u32_small by lia.
  - done.
  - intros Hok. eexists. split; [done|]. split_and!; [|done..].
    destruct Hok. split; simpl; try lia. unfold ridx. case_if; lia.
  - intros Hok. rewrite length_rb_view by done. intros <-. rewrite (proj2 (Z.leb_le _ _)) by lia. done.
  - intros Hok Hb. rewrite length_rb_view by done. intros Hlt.
    destruct (ringbuf_push_spec r b Hok Hb Hlt) as (r' & Hp & ?). exists r'.
    unfold ringbuf_push in Hp. rewrite Hp. done.
  - intros Hok Hn Hn32. rewrite length_rb_view by done.
    destruct (ringbuf_write_spec r data n Hok Hn Hn32) as (r' & Hp & ?). exists r'.
    unfold ringbuf_write in Hp. rewrite Hp. done.
  - intros Hok Hn Hn32. rewrite length_rb_view by done.
    destruct (ringbuf_read_spec r out n Hok Hn Hn32) as (r' & Hp & ?). exists r'.
    unfold ringbuf_read in Hp. rewrite Hp. done.
Qed.

(** ** Refinement: the ring behaves like a bounded FIFO of bytes *)

Inductive rb_op :=
| OpPush (b : Z)
| OpPop
| OpWrite (data : list Z)
| OpRead (n : Z)
| OpConsume (n : Z)
| OpClear
| OpSize
| OpFree
| OpIsEmpty
| OpIsFull.

(** One call on the C struct: the struct afterwards, and what the caller sees
    (bytes copied out, then the returned number). *)
Definition rb_call (r : ringbuf) (op : rb_op) : res (ringbuf * (list Z * Z)) :=
  match op with
  | OpPush b => '(o, n) ← ringbuf_push (Some r) b; r' ← nonnull o; Ok (r', ([], n))
  | OpPop =>
      '(o, out, n) ← ringbuf_pop (Some r) (Some 0);
      r' ← nonnull o; b ← nonnull out; Ok (r', (take (Z.to_nat n) [b], n))
  | OpWrite d => '(o, n) ← ringbuf_write (Some r) (Some d) (zlen d); r' ← nonnull o; Ok (r', ([], n))
  | OpRead n =>
      '(o, out, k) ← ringbuf_read (Some r) (Some (replicate (Z.to_nat n) 0)) n;
      r' ← nonnull o; bs ← nonnull out; Ok (r', (take (Z.to_nat k) bs, k))
  | OpConsume n => r' ← nonnull (ringbuf_consume (Some r) n); Ok (r', ([], 0))
  | OpClear => r' ← nonnull (ringbuf_clear (Some r)); Ok (r', ([], 0))
  | OpSize => Ok (r, ([], ringbuf_size (Some r)))
  | OpFree => Ok (r, ([], ringbuf_free_space (Some r)))
  | OpIsEmpty => Ok (r, ([], b2z (ringbuf_is_empty (Some r))))
  | OpIsFull => Ok (r, ([], b2z (ringbuf_is_full (Some r))))
  end.

(** The same calls on a bounded queue. *)
Definition fifo_call (cap : Z) (q : list Z) (op : rb_op) : list Z * (list Z * Z) :=
  match op with
  | OpPush b => if zlen q <? cap then (q ++ [b], ([], 1)) else (q, ([], 0))
  | OpPop => match q with [] => ([], ([], 0)) | b :: q' => (q', ([b], 1)) end
  | OpWrite d =>
      let k := Z.min (zlen d) (cap - zlen q) in (q ++ take (Z.to_nat k) d, ([], k))
  | OpRead n =>
      let k := Z.min n (zlen q) in (drop (Z.to_nat k) q, (take (Z.to_nat k) q, k))
  | OpConsume n => (drop (Z.to_nat n) q, ([], 0))
  | OpClear => ([], ([], 0))
  | OpSize => (q, ([], zlen q))
  | OpFree => (q, ([], cap - zlen q))
  | OpIsEmpty => (q, ([], b2z (zlen q =? 0)))
  | OpIsFull => (q, ([], b2z (zlen q =? cap)))
  end.

Fixpoint rb_run (r : ringbuf) (ops : list rb_op) : res (ringbuf * list (list Z * Z)) :=
  match ops with
  | [] => Ok (r, [])
  | op :: ops =>
      '(r, o) ← rb_call r op; '(r, os) ← rb_run r ops; Ok (r, o :: os)
  end.

Fixpoint fifo_run (cap : Z) (q : list Z) (ops : list rb_op) : list Z * list (list Z * Z) :=
  match ops with
  | [] => (q, [])
  | op :: ops =>
      let '(q, o) := fifo_call cap q op in
      let '(q, os) := fifo_run cap q ops in (q, o :: os)
  end.

(** Arguments a C caller can pass: bytes and 32-bit sizes. *)
Definition rb_op_ok (op : rb_op) : Prop :=
  match op with
  | OpPush b => is_u8 b
  | OpWrite d => is_u32 (zlen d)
  | OpRead n | OpConsume n => is_u32 n
  | _ => True
  end.

#[export] Instance rb_op_ok_dec op : Decision (rb_op_ok op).
Proof. destruct op; simpl; unfold is_u8, is_u32; apply _. Defined.

Lemma rb_call_refines r op :
  rb_ok r → rb_op_ok op →
  ∃ r', rb_call r op = Ok (r', (fifo_call (capacity_ r) (rb_view r) op).2) ∧
        rb_ok r' ∧ rb_view r' = (fifo_call (capacity_ r) (rb_view r) op).1 ∧
        capacity_ r' = capacity_ r.
Proof.
  intros Hok Hop. pose proof (length_rb_view r Hok) as Hlen. pose proof Hok as [H1 H2 H3 H4 H5].
  destruct op; unfold rb_call, fifo_call.
  - case_if.
    + destruct (ringbuf_push_spec r b) as (r' & -> & ? & ? & ?); [done..|lia|]. by exists r'.
    + unfold ringbuf_push. rewrite (proj2 (Z.leb_le _ _)) by lia. by exists r.
  - pose proof (ringbuf_pop_spec r 0 Hok) as Hpop. destruct (rb_view r) eqn:Hv.
    + rewrite Hpop. by exists r.
    + destruct Hpop as (r' & -> & ? & ? & ?). by exists r'.
  - destruct (ringbuf_write_spec r data (zlen data)) as (r' & -> & ? & ? & ?); [done|lia|done|].
    exists r'. by rewrite Hlen.
  - unfold rb_op_ok, is_u32 in Hop.
    destruct (ringbuf_read_spec r (replicate (Z.to_nat n) 0) n) as (r' & -> & ? & ? & ?);
      [done|len_lia|done|].
    exists r'. simpl. rewrite Hlen, take_app_le by len_lia. by rewrite take_take, Nat.min_id.
  - unfold rb_op_ok in Hop. destruct (ringbuf_consume_spec r n) as (r' & -> & ? & ? & ?);
      [done|unfold is_u32 in Hop; lia|done|]. by exists r'.
  - eexists. split; [done|]. split_and!; [|done..]. split; simpl; try lia. unfold ridx. case_if; lia.
  - exists r. simpl. by rewrite Hlen.
  - exists r. simpl. by rewrite Hlen, u32_small by lia.
  - exists r. simpl. by rewrite Hlen.
  - exists r. simpl. by rewrite Hlen.
Qed.

Lemma rb_run_refines r ops :
  rb_ok r → Forall rb_op_ok ops →
  ∃ r', rb_run r ops = Ok (r', (fifo_run (capacity_ r) (rb_view r) ops).2) ∧
        rb_ok r' ∧ rb_view r' = (fifo_run (capacity_ r) (rb_view r) ops).1.
Proof.
  intros Hok Hops. revert r Hok. induction Hops as [|op ops Hop Hops IH]; intros r Hok.
  - by exists r.
  - destruct (rb_call_refines r op Hok Hop) as (r1 & Hc & Hok1 & Hv1 & Hcap).
    destruct (IH r1 Hok1) as (r2 & Hr & Hok2 & Hv2).
    exists r2. rewrite Hcap, Hv1 in Hr, Hv2. simpl. rewrite Hc. simpl. rewrite Hr.
    destruct (fifo_call _ _ op) as [q o]. simpl in *. by destruct (fifo_run _ q ops).
Qed.

(** C11. The ring buffer refines a bounded byte FIFO: from [ringbuf_init] on
    any buffer, every sequence of push, pop, block write, block read,
    consume, clear and size queries returns exactly the bytes and counts of
    the abstract queue, without ever touching a byte outside the buffer, and
    ends in a struct whose content is the queue's. *)
Theorem ringbuf_refines_fifo (r0 : ringbuf) (buffer : list Z) (ops : list rb_op) :
  0 < zlen buffer < 2147483648 → Forall rb_op_ok ops →
  ∃ r1 r2, ringbuf_init (Some r0) (Some buffer) (zlen buffer) = Ok (Some r1) ∧
    rb_run r1 ops = Ok (r2, (fifo_run (zlen buffer) [] ops).2) ∧
    rb_ok r2 ∧ rb_view r2 = (fifo_run (zlen buffer) [] ops).1.
Proof.
  intros Hb Hops.
  destruct (ringbuf_init_spec r0 buffer (zlen buffer)) as (r1 & Hi & Hok & Hv & Hc); [done..|].
  destruct (rb_run_refines r1 ops Hok Hops) as (r2 & Hr & ? & ?).
  rewrite Hv, Hc in *. by exists r1, r2.
Qed.

Lemma ringbuf_refines_fifo_witness :
  ∃ r1 r2,
    ringbuf_init (Some (RingBuf [] 0 0 0 0)) (Some [9; 9; 9; 9]) (zlen [9; 9; 9; 9]) = Ok (Some r1) ∧
    rb_run r1 [OpWrite [1; 2; 3]; OpRead 2; OpWrite [4; 5; 6; 7]; OpRead 9; OpPop] =
      Ok (r2, [([], 3); ([1; 2], 2); ([], 3); ([3; 4; 5; 6], 4); ([], 0)]) ∧
    rb_ok r2 ∧ rb_view r2 = [].
Proof.
  apply (ringbuf_refines_fifo (RingBuf [] 0 0 0 0) [9; 9; 9; 9]
    [OpWrite [1; 2; 3]; OpRead 2; OpWrite [4; 5; 6; 7]; OpRead 9; OpPop]).
  - vm_compute. done.
  - repeat constructor; vm_compute; done.
Defined.

(** [ringbuf_peek_contiguous] returns NULL and 0 exactly on an empty
    ring; otherwise the pointer and length describe a non-empty run of the
    buffer that holds the first bytes of the content, and consuming that
    length leaves the rest, so a reader that alternates the two drains the
    ring in order. *)
Theorem ringbuf_peek_consume (r : ringbuf) (old : option Z) :
  rb_ok r →
  match ringbuf_peek_contiguous (Some r) (Some old) with
  | (Some None, n) => n = 0 ∧ rb_view r = []
  | (Some (Some p), n) =>
      0 < n ∧ 0 ≤ p ∧ p + n ≤ zlen (buffer_ r) ∧
      slice (buffer_ r) (Z.to_nat p) (Z.to_nat n) = take (Z.to_nat n) (rb_view r) ∧
      ∃ r', ringbuf_consume (Some r) n = Some r' ∧ rb_ok r' ∧
            rb_view r = slice (buffer_ r) (Z.to_nat p) (Z.to_nat n) ++ rb_view r'
  | (None, _) => False
  end.
Proof.
  intros Hok. pose proof (length_rb_view r Hok) as Hlen. pose proof Hok as [H1 H2 H3 H4 H5].
  unfold ringbuf_peek_contiguous. case_if.
  { split; [done|]. apply nil_length_inv. lia. }
  rewrite u32_small by lia.
  set (n := if count_ r <? capacity_ r - tail_ r then count_ r else capacity_ r - tail_ r).
  assert (n = Z.min (count_ r) (capacity_ r - tail_ r)) as Hn by (unfold n; case_if; lia).
  replace (if count_ r <? _ then (_, _) else (_, _)) with (Some (Some (tail_ r)), n)
    by (unfold n; by case_if).
  destruct (ringbuf_consume_spec r n) as (r' & ? & ? & Hv & ?); [done|lia|unfold is_u32; lia|].
  split_and!; [lia..|apply slice_rb_view; [done|lia..]|].
  exists r'. split_and!; [done..|]. rewrite slice_rb_view, Hv by (done || lia).
  by rewrite take_drop.
Qed.

Lemma ringbuf_peek_consume_witness :
  rb_ok (RingBuf [5; 6; 7; 8] 4 3 1 2) ∧
  ringbuf_peek_contiguous (Some (RingBuf [5; 6; 7; 8] 4 3 1 2)) (Some None) = (Some (Some 2), 2) ∧
  0 < 2.
Proof.
  assert (rb_ok (RingBuf [5; 6; 7; 8] 4 3 1 2)) as Hok by (split; vm_compute; done).
  split; [exact Hok|]. split; [reflexivity|].
  exact (proj1 (ringbuf_peek_consume (RingBuf [5; 6; 7; 8] 4 3 1 2) None Hok)).
Defined.
