(* ===== verification/Ldisc.v ===== *)
(** * The terminal line discipline of [src/src/kernel/tty/ldisc.c]

    The state is the C [struct ldisc] without its locks; what the code does to
    the outside (signals, wake-ups, work items, echo output) is recorded in
    [events_].  The two rings are any implementation of [ByteRing], the
    interface that [RingBuf] discharges for [ringbuf.h].  A blocking read takes
    the list of rounds its wait loop goes through: what it finds at each check
    and what other threads do to the discipline while the lock is released. *)

From S2P Require Import Prelude RingBuf.

Definition LDISC_RX_CAP : Z := 4096.
Definition LDISC_ECHO_CAP : Z := 4096.
Definition LDISC_LINE_CAP : Z := 1024.
Definition LDISC_MAX_LINES : Z := 128.
Definition KERNEL_TIMER_HZ : Z := 1000.

Record ldisc_config := LdiscConfig {
  canonical_ : bool; echo_ : bool; onlcr_ : bool;
  igncr_ : bool; icrnl_ : bool; inlcr_ : bool;
  opost_ : bool;
  vmin_ : Z; vtime_ : Z;
  isig_ : bool; vintr_ : Z; vquit_ : Z; vsusp_ : Z; veof_ : Z
}.

Inductive event :=
| EvSignal (sig : Z)           (* sig_emit_(sig, sig_ctx_) *)
| EvQueueWork                  (* queue_work(g_ldisc_wq, &ld->echo_work_) *)
| EvEcho (data : list Z)       (* echo_emit_(data, ..) *)
| EvWriteSem                   (* sem_signal_all(&ld->write_sem_) *)
| EvWakeReaders.               (* waitqueue_detach_all_locked and wake *)

(** [echo_emit_] and [sig_emit_] say whether the callback is set. *)
Record ldisc (R : Type) := Ldisc {
  cfg_ : ldisc_config;
  echo_emit_ : bool;
  sig_emit_ : bool;
  rx_ring_ : R;
  line_buf_ : list Z;
  line_len_ : Z;
  canon_lens_ : list Z;
  canon_head_ : Z;
  canon_tail_ : Z;
  canon_count_ : Z;
  echo_ring_ : R;
  events_ : list event
}.
Arguments Ldisc {R}.
Arguments cfg_ {R}. Arguments echo_emit_ {R}. Arguments sig_emit_ {R}.
Arguments rx_ring_ {R}. Arguments line_buf_ {R}. Arguments line_len_ {R}.
Arguments canon_lens_ {R}. Arguments canon_head_ {R}. Arguments canon_tail_ {R}.
Arguments canon_count_ {R}. Arguments echo_ring_ {R}. Arguments events_ {R}.

Definition newline : Z := 10.
Definition creturn : Z := 13.

Section Operations.
Context {R : Type} `{ByteRing R}.
(** Whether [ldisc_bootinit_wq] has created the work queue. *)
Context (g_ldisc_wq : bool).

Implicit Types ld : ldisc R.

Definition set_cfg cfg ld : ldisc R :=
  Ldisc cfg (echo_emit_ ld) (sig_emit_ ld) (rx_ring_ ld) (line_buf_ ld) (line_len_ ld)
    (canon_lens_ ld) (canon_head_ ld) (canon_tail_ ld) (canon_count_ ld) (echo_ring_ ld) (events_ ld).
Definition set_rx rx ld : ldisc R :=
  Ldisc (cfg_ ld) (echo_emit_ ld) (sig_emit_ ld) rx (line_buf_ ld) (line_len_ ld)
    (canon_lens_ ld) (canon_head_ ld) (canon_tail_ ld) (canon_count_ ld) (echo_ring_ ld) (events_ ld).
Definition set_line buf len ld : ldisc R :=
  Ldisc (cfg_ ld) (echo_emit_ ld) (sig_emit_ ld) (rx_ring_ ld) buf len
    (canon_lens_ ld) (canon_head_ ld) (canon_tail_ ld) (canon_count_ ld) (echo_ring_ ld) (events_ ld).
Definition set_canon lens head tail count ld : ldisc R :=
  Ldisc (cfg_ ld) (echo_emit_ ld) (sig_emit_ ld) (rx_ring_ ld) (line_buf_ ld) (line_len_ ld)
    lens head tail count (echo_ring_ ld) (events_ ld).
Definition set_echo echo ld : ldisc R :=
  Ldisc (cfg_ ld) (echo_emit_ ld) (sig_emit_ ld) (rx_ring_ ld) (line_buf_ ld) (line_len_ ld)
    (canon_lens_ ld) (canon_head_ ld) (canon_tail_ ld) (canon_count_ ld) echo (events_ ld).
Definition add_event e ld : ldisc R :=
  Ldisc (cfg_ ld) (echo_emit_ ld) (sig_emit_ ld) (rx_ring_ ld) (line_buf_ ld) (line_len_ ld)
    (canon_lens_ ld) (canon_head_ ld) (canon_tail_ ld) (canon_count_ ld) (echo_ring_ ld)
    (events_ ld ++ [e]).

(** ** Echo *)

(** The worker loop; the fuel bounds the number of 128-byte chunks. *)
Fixpoint echo_worker_task (fuel : nat) ld : res (ldisc R) :=
  match fuel with
  | O => Timeout
  | S fuel =>
      '(echo, buf, to_emit) ← br_read (echo_ring_ ld) (replicate 128 0) 128;
      let ld := set_echo echo ld in
      if to_emit =? 0 then Ok ld else
      let ld := if echo_emit_ ld then add_event (EvEcho (take (Z.to_nat to_emit) buf)) ld else ld in
      echo_worker_task fuel ld
  end.

Definition queue_echo_bytes_locked ld (data : list Z) (len : Z) : res (ldisc R) :=
  if negb (echo_ (cfg_ ld)) || negb (echo_emit_ ld) || (len =? 0) then Ok ld else
  '(echo, _) ← br_write (echo_ring_ ld) data len;
  let ld := set_echo echo ld in
  Ok (if g_ldisc_wq then add_event EvQueueWork ld else ld).

Definition queue_echo_char_locked ld (c : Z) : res (ldisc R) :=
  queue_echo_bytes_locked ld [c] 1.

Definition queue_echo_erase_locked ld : res (ldisc R) :=
  queue_echo_bytes_locked ld [8; 32; 8] 3.

Definition signal_seq (sig : Z) : list Z :=
  [94; (if sig =? 2 then 67 else if sig =? 3 then 92 else if sig =? 20 then 90 else 63); 10].

Definition queue_echo_signal_locked ld (sig : Z) : res (ldisc R) :=
  queue_echo_bytes_locked ld (signal_seq sig) 3.

(** ** Input *)

Definition try_isig_locked ld (b : Z) : res (ldisc R * bool) :=
  if negb (isig_ (cfg_ ld)) || negb (sig_emit_ ld) then Ok (ld, false) else
  let sig := if b =? vintr_ (cfg_ ld) then 2
             else if b =? vquit_ (cfg_ ld) then 3
             else if b =? vsusp_ (cfg_ ld) then 20 else 0 in
  if sig =? 0 then Ok (ld, false) else
  ld ← queue_echo_signal_locked ld sig;
  rx ← br_clear (rx_ring_ ld);
  let ld := set_rx rx ld in
  let ld := set_line (line_buf_ ld) 0 ld in
  let ld := set_canon (canon_lens_ ld) 0 0 0 ld in
  Ok (add_event (EvSignal sig) ld, true).

Definition receive_byte_locked ld (b : Z) : res (ldisc R * bool) :=
  if igncr_ (cfg_ ld) && (b =? creturn) then Ok (ld, true) else
  let b := if icrnl_ (cfg_ ld) && (b =? creturn) then newline
           else if inlcr_ (cfg_ ld) && (b =? newline) then creturn else b in
  '(ld, taken) ← try_isig_locked ld b;
  if taken : bool then Ok (ld, true) else
  if negb (canonical_ (cfg_ ld)) then
    if br_free (rx_ring_ ld) =? 0 then Ok (ld, false) else
    '(rx, _) ← br_push (rx_ring_ ld) b;
    ld ← queue_echo_char_locked (set_rx rx ld) b;
    Ok (ld, true)
  else if (b =? 0x08) || (b =? 0x7F) then
    if 0 <? line_len_ ld then
      ld ← queue_echo_erase_locked (set_line (line_buf_ ld) (u32 (line_len_ ld - 1)) ld);
      Ok (ld, true)
    else Ok (ld, true)
  else if (b =? veof_ (cfg_ ld)) || (b =? newline) then
    let needed := if b =? newline then u32 (line_len_ ld + 1) else line_len_ ld in
    if br_free (rx_ring_ ld) <? needed then Ok (ld, false) else
    if LDISC_MAX_LINES <=? canon_count_ ld then Ok (ld, false) else
    ld ← (if b =? newline then
            buf ← arr_set (line_buf_ ld) (line_len_ ld) b;
            Ok (set_line buf (u32 (line_len_ ld + 1)) ld)
          else Ok ld);
    '(rx, _) ← br_write (rx_ring_ ld) (line_buf_ ld) (line_len_ ld);
    let ld := set_rx rx ld in
    lens ← arr_set (canon_lens_ ld) (canon_head_ ld) (line_len_ ld);
    let ld := set_canon lens (u32 (canon_head_ ld + 1) `mod` LDISC_MAX_LINES)
                (canon_tail_ ld) (u32 (canon_count_ ld + 1)) ld in
    Ok (set_line (line_buf_ ld) 0 ld, true)
  else if LDISC_LINE_CAP <=? line_len_ ld then Ok (ld, false)
  else
    buf ← arr_set (line_buf_ ld) (line_len_ ld) b;
    ld ← queue_echo_char_locked (set_line buf (u32 (line_len_ ld + 1)) ld) b;
    Ok (ld, true).

(** The loop of [ldisc_receive]: it stops at the first refused byte. *)
Fixpoint receive_bytes ld (data : list Z) (written : Z) : res (ldisc R * Z) :=
  match data with
  | [] => Ok (ld, written)
  | b :: data =>
      '(ld, ok) ← receive_byte_locked ld b;
      if ok : bool then receive_bytes ld data (u32 (written + 1)) else Ok (ld, written)
  end.

(** [data] is [None] for NULL; [size] is the length of the list. *)
Definition ldisc_receive (ld : option (ldisc R)) (data : option (list Z))
    : res (option (ldisc R) * Z) :=
  match ld, data with
  | Some l, Some data =>
      if zlen data =? 0 then Ok (ld, 0) else
      '(l, written) ← receive_bytes l data 0;
      Ok (Some (add_event EvWakeReaders l), written)
  | _, _ => Ok (ld, 0)
  end.

Definition ldisc_set_config (ld : option (ldisc R)) (cfg : option ldisc_config)
    : option (ldisc R) :=
  match ld, cfg with
  | Some l, Some cfg => Some (set_cfg cfg l)
  | _, _ => ld
  end.

Definition ldisc_get_config (ld : option (ldisc R)) (out_cfg : option ldisc_config)
    : option ldisc_config :=
  match ld, out_cfg with
  | Some l, Some _ => Some (cfg_ l)
  | _, _ => out_cfg
  end.

Definition ldisc_set_callbacks (ld : option (ldisc R)) (echo_emit sig_emit : bool)
    : option (ldisc R) :=
  match ld with
  | None => None
  | Some l =>
      Some (Ldisc (cfg_ l) echo_emit sig_emit (rx_ring_ l) (line_buf_ l) (line_len_ l)
        (canon_lens_ l) (canon_head_ l) (canon_tail_ l) (canon_count_ l) (echo_ring_ l) (events_ l))
  end.

Definition ldisc_has_readable (ld : option (ldisc R)) : bool :=
  match ld with
  | None => false
  | Some l =>
      if canonical_ (cfg_ l) then 0 <? canon_count_ l else negb (br_is_empty (rx_ring_ l))
  end.

(** ** Blocking reads *)

(** What other threads do while a reader sleeps. *)
Inductive env_op :=
| EReceive (data : list Z)
| ESetConfig (cfg : ldisc_config).

(** One turn of the wait loop: [rd_now] is [timer_ticks] when a deadline is
    computed in front of it, [rd_ticks] when the deadline is checked,
    [rd_pending] whether a signal is pending, [rd_ops] what happens while the
    lock is released. *)
Record round := Round {
  rd_now : Z; rd_ticks : Z; rd_pending : bool; rd_ops : list env_op
}.

Definition env_step ld (op : env_op) : res (ldisc R) :=
  match op with
  | EReceive data =>
      '(o, _) ← ldisc_receive (Some ld) (Some data); nonnull o
  | ESetConfig cfg => nonnull (ldisc_set_config (Some ld) (Some cfg))
  end.

Fixpoint env_run ld (ops : list env_op) : res (ldisc R) :=
  match ops with [] => Ok ld | op :: ops => ld ← env_step ld op; env_run ld ops end.

(** The thread's view during a read: the discipline, the CPU's interrupt flag,
    the flags word [*io_flags] (its IF bit) and the rounds to come. *)
Record rstate := RState {
  r_ld : ldisc R; r_irq : bool; r_flags : bool; r_intr : bool; r_env : list round
}.

(** [spinlock_release_safe], the other threads, [spinlock_acquire_safe]. *)
Definition sleep_round (st : rstate) (r : round) (env : list round) : res rstate :=
  let irq := r_irq st || r_flags st in
  ld ← env_run (r_ld st) (rd_ops r);
  Ok (RState ld false irq (r_intr st) env).

Definition no_deadline : Z := 0xFFFFFFFF.

Definition data_ready ld (target_count : Z) : bool :=
  if canonical_ (cfg_ ld) then 0 <? canon_count_ ld else target_count <=? br_size (rx_ring_ ld).

(** [Timeout]: the rounds ended with the reader still asleep. *)
Fixpoint wait_for_data (env : list round) (st : rstate) (deadline target_count : Z)
    : res (rstate * bool) :=
  if data_ready (r_ld st) target_count
  then Ok (RState (r_ld st) (r_irq st) (r_flags st) (r_intr st) env, true) else
  match env with
  | [] => Timeout
  | r :: env =>
      if rd_pending r
      then Ok (RState (r_ld st) (r_irq st) (r_flags st) true env, false)
      else if negb (deadline =? no_deadline) && (deadline <=? rd_ticks r)
      then Ok (RState (r_ld st) (r_irq st) (r_flags st) (r_intr st) env, false)
      else st ← sleep_round st r env; wait_for_data env st deadline target_count
  end.

Definition wait_for_data_locked (st : rstate) (deadline target_count : Z) : res (rstate * bool) :=
  wait_for_data (r_env st) st deadline target_count.

(** [timer_ticks + ((uint32_t)vtime * KERNEL_TIMER_HZ) / 10u] *)
Definition vtime_deadline (st : rstate) (vtime : Z) : Z :=
  let now := match r_env st with r :: _ => rd_now r | [] => 0 end in
  u32 (now + u32 (vtime * KERNEL_TIMER_HZ) / 10).

(** [while (rx_size < vmin)]. *)
Fixpoint vmin_loop (fuel : nat) (st : rstate) (rx_size vmin vtime : Z) : res rstate :=
  match fuel with
  | O => Timeout
  | S fuel =>
      if rx_size <? vmin then
        '(st, more) ← wait_for_data_locked st (vtime_deadline st vtime) (u32 (rx_size + 1));
        if more : bool then vmin_loop fuel st (br_size (rx_ring_ (r_ld st))) vmin vtime else Ok st
      else Ok st
  end.

(** The waiting half of a raw read. *)
Definition raw_wait (fuel : nat) (st : rstate) : res rstate :=
  let vmin := vmin_ (cfg_ (r_ld st)) in
  let vtime := vtime_ (cfg_ (r_ld st)) in
  if (vmin =? 0) && (vtime =? 0) then Ok st
  else if (0 <? vmin) && (vtime =? 0) then
    '(st, _) ← wait_for_data_locked st no_deadline vmin; Ok st
  else if (vmin =? 0) && (0 <? vtime) then
    '(st, _) ← wait_for_data_locked st (vtime_deadline st vtime) 1; Ok st
  else
    '(st, _) ← wait_for_data_locked st no_deadline 1;
    let rx_size := br_size (rx_ring_ (r_ld st)) in
    if negb (r_intr st) && (0 <? rx_size) then vmin_loop fuel st rx_size vmin vtime else Ok st.

(** [(size_t)-2], the interrupted return. *)
Definition EINTR_RET : Z := 4294967294.

(** The copying half of a canonical read. *)
Definition canon_take ld (out : list Z) (size : Z) : res (ldisc R * list Z * Z) :=
  if 0 <? canon_count_ ld then
    line_len ← arr_get (canon_lens_ ld) (canon_tail_ ld);
    let to_copy := if size <? line_len then size else line_len in
    '(rx, out, _) ← br_read (rx_ring_ ld) out to_copy;
    let ld := add_event EvWriteSem (set_rx rx ld) in
    if to_copy <? line_len then
      lens ← arr_set (canon_lens_ ld) (canon_tail_ ld) (u32 (line_len - to_copy));
      Ok (set_canon lens (canon_head_ ld) (canon_tail_ ld) (canon_count_ ld) ld, out, to_copy)
    else
      Ok (set_canon (canon_lens_ ld) (canon_head_ ld)
            (u32 (canon_tail_ ld + 1) `mod` LDISC_MAX_LINES) (u32 (canon_count_ ld - 1)) ld,
          out, to_copy)
  else Ok (ld, out, 0).

(** The copying half of a raw read. *)
Definition raw_take ld (out : list Z) (size : Z) : res (ldisc R * list Z * Z) :=
  let rx_count := br_size (rx_ring_ ld) in
  let to_copy := if size <? rx_count then size else rx_count in
  '(rx, out, _) ← br_read (rx_ring_ ld) out to_copy;
  Ok (add_event EvWriteSem (set_rx rx ld), out, to_copy).

(** [ldisc_read]: the discipline, the user buffer, the CPU's interrupt flag
    and the returned [size_t].  [irq_save] clears the flag and keeps it in
    [flags]; the guard then saves the cleared flag and puts it back when the
    function returns. *)
Definition ldisc_read (fuel : nat) (env : list round) (irq : bool)
    (ld : option (ldisc R)) (out : option (list Z)) (size : Z)
    : res (option (ldisc R) * option (list Z) * bool * Z) :=
  match ld, out with
  | Some l, Some dst =>
      if size =? 0 then Ok (ld, out, irq, 0) else
      let flags := irq in
      let irq := false in
      let guard_flags := irq in
      let st := RState l false flags false env in
      if canonical_ (cfg_ l) then
        '(st, _) ← wait_for_data_locked st no_deadline 1;
        let irq := r_irq st || guard_flags in
        if r_intr st && (canon_count_ (r_ld st) =? 0)
        then Ok (Some (r_ld st), out, irq, EINTR_RET) else
        '(l, dst, n) ← canon_take (r_ld st) dst size;
        Ok (Some l, Some dst, irq, n)
      else
        st ← raw_wait fuel st;
        let irq := r_irq st || guard_flags in
        if r_intr st && br_is_empty (rx_ring_ (r_ld st))
        then Ok (Some (r_ld st), out, irq, EINTR_RET) else
        '(l, dst, n) ← raw_take (r_ld st) dst size;
        Ok (Some l, Some dst, irq, n)
  | _, _ => Ok (ld, out, irq, 0)
  end.

(** ** Output *)

(** [emit] is the caller's callback with its context [S]: it takes the bytes
    and returns how many it accepted. *)
Fixpoint transform_loop {S : Type} (emit : S → list Z → S * Z)
    (src : list Z) (pending : list Z) (ctx : S) (produced : Z) : S * Z :=
  match src with
  | [] =>
      if 0 <? zlen pending
      then let '(ctx, w) := emit ctx pending in (ctx, u32 (produced + w))
      else (ctx, produced)
  | b :: src =>
      if b =? newline then
        let '(ctx, produced) :=
          if 0 <? zlen pending
          then let '(ctx, w) := emit ctx pending in (ctx, u32 (produced + w))
          else (ctx, produced) in
        let '(ctx, w) := emit ctx [creturn; newline] in
        let produced := u32 (produced + w) in
        if negb (w =? 2) then (ctx, produced) else transform_loop emit src [] ctx produced
      else transform_loop emit src (pending ++ [b]) ctx produced
  end.

Definition ldisc_write_transform {S : Type} (ld : option (ldisc R)) (src : option (list Z))
    (emit : option (S → list Z → S * Z)) (ctx : S) : S * Z :=
  match ld, src, emit with
  | Some l, Some src, Some emit =>
      if zlen src =? 0 then (ctx, 0) else
      if negb (opost_ (cfg_ l)) || negb (onlcr_ (cfg_ l)) then emit ctx src
      else transform_loop emit src [] ctx 0
  | _, _, _ => (ctx, 0)
  end.
End Operations.

(** [ldisc_create]; [kmalloc_ok] says whether the allocation succeeds. *)
Definition ldisc_create (kmalloc_ok : bool) : res (option (ldisc ringbuf)) :=
  if negb kmalloc_ok then Ok None else
  let zero := RingBuf [] 0 0 0 0 in
  rx ← ringbuf_init (Some zero) (Some (replicate (Z.to_nat LDISC_RX_CAP) 0)) LDISC_RX_CAP;
  rx ← nonnull rx;
  echo ← ringbuf_init (Some zero) (Some (replicate (Z.to_nat LDISC_ECHO_CAP) 0)) LDISC_ECHO_CAP;
  echo ← nonnull echo;
  Ok (Some (Ldisc
    (LdiscConfig true true true false true false true 1 0 false 0x03 0x1C 0x1A 0x04)
    false false rx (replicate (Z.to_nat LDISC_LINE_CAP) 0) 0
    (replicate (Z.to_nat LDISC_MAX_LINES) 0) 0 0 0 echo [])).

(** ** Abstract specification of canonical mode

    Completed lines wait in a queue, the line being edited is separate, and
    the echo output is a bounded queue.  Nothing of the rings, of the line
    buffer or of the table of line lengths is visible here. *)

Record canon := Canon {
  a_cfg : ldisc_config;
  a_echo_set : bool;
  a_sig_set : bool;
  a_lines : list (list Z);
  a_cur : list Z;
  a_echo : list Z;
  a_events : list event
}.

Definition a_set_lines ls cur a :=
  Canon (a_cfg a) (a_echo_set a) (a_sig_set a) ls cur (a_echo a) (a_events a).
Definition a_add_event e a :=
  Canon (a_cfg a) (a_echo_set a) (a_sig_set a) (a_lines a) (a_cur a) (a_echo a) (a_events a ++ [e]).

Definition a_queue_echo (wq : bool) (data : list Z) (a : canon) : canon :=
  if echo_ (a_cfg a) && a_echo_set a then
    let room := (4096 - length (a_echo a))%nat in
    Canon (a_cfg a) (a_echo_set a) (a_sig_set a) (a_lines a) (a_cur a)
      (a_echo a ++ take room data) (a_events a ++ if wq then [EvQueueWork] else [])
  else a.

(** The byte after [IGNCR], [ICRNL] and [INLCR]; [None] is dropped. *)
Definition map_input (cfg : ldisc_config) (b : Z) : option Z :=
  if igncr_ cfg && (b =? creturn) then None
  else Some (if icrnl_ cfg && (b =? creturn) then newline
             else if inlcr_ cfg && (b =? newline) then creturn else b).

Definition signal_of (a : canon) (b : Z) : Z :=
  if isig_ (a_cfg a) && a_sig_set a then
    if b =? vintr_ (a_cfg a) then 2 else if b =? vquit_ (a_cfg a) then 3
    else if b =? vsusp_ (a_cfg a) then 20 else 0
  else 0.

(** A completed line [l] joins the queue when 4096 bytes and 128 lines are not
    exceeded.  A newline behind a full line of 1024 bytes is the one case the
    code gets wrong: it stores outside [line_buf_]. *)
Definition a_complete (l : list Z) (a : canon) : res (canon * bool) :=
  if 4096 <? zlen (concat (a_lines a)) + zlen l then Ok (a, false)
  else if 128 <=? zlen (a_lines a) then Ok (a, false)
  else if 1024 <? zlen l then Fault
  else Ok (a_set_lines (a_lines a ++ [l]) [] a, true).

Definition a_byte (wq : bool) (a : canon) (b : Z) : res (canon * bool) :=
  match map_input (a_cfg a) b with
  | None => Ok (a, true)
  | Some b =>
      if negb (signal_of a b =? 0) then
        let sig := signal_of a b in
        Ok (a_add_event (EvSignal sig) (a_set_lines [] [] (a_queue_echo wq (signal_seq sig) a)), true)
      else if (b =? 0x08) || (b =? 0x7F) then
        match a_cur a with
        | [] => Ok (a, true)
        | _ => Ok (a_queue_echo wq [8; 32; 8]
                     (a_set_lines (a_lines a) (take (length (a_cur a) - 1) (a_cur a)) a), true)
        end
      else if b =? newline then a_complete (a_cur a ++ [newline]) a
      else if b =? veof_ (a_cfg a) then a_complete (a_cur a) a
      else if 1024 <=? zlen (a_cur a) then Ok (a, false)
      else Ok (a_queue_echo wq [b] (a_set_lines (a_lines a) (a_cur a ++ [b]) a), true)
  end.

Fixpoint a_bytes (wq : bool) (a : canon) (data : list Z) (written : Z) : res (canon * Z) :=
  match data with
  | [] => Ok (a, written)
  | b :: data =>
      '(a, ok) ← a_byte wq a b;
      if ok : bool then a_bytes wq a data (u32 (written + 1)) else Ok (a, written)
  end.

(** A read returns the first line, or its first [size] bytes. *)
Definition a_read (a : canon) (size : Z) : res (canon * list Z) :=
  match a_lines a with
  | [] => Timeout
  | l :: ls =>
      let rest := drop (Z.to_nat size) l in
      let ls := match rest with [] => ls | _ => rest :: ls end in
      Ok (a_add_event EvWriteSem (a_set_lines ls (a_cur a) a), take (Z.to_nat size) l)
  end.

Fixpoint chunks (fuel n : nat) (l : list Z) : list (list Z) :=
  match fuel, l with
  | O, _ | _, [] => []
  | S fuel, _ => take n l :: chunks fuel n (drop n l)
  end.

Definition a_worker (a : canon) : canon :=
  Canon (a_cfg a) (a_echo_set a) (a_sig_set a) (a_lines a) (a_cur a) []
    (a_events a ++ if a_echo_set a then EvEcho <$> chunks 33 128 (a_echo a) else []).

(** Calls on the discipline and what the caller sees. *)
Inductive ld_op :=
| LReceive (data : list Z)
| LRead (size : Z)
| LSetConfig (cfg : ldisc_config)
| LWorker
| LReadable.

Definition ld_call {R} `{ByteRing R} (wq : bool) (ld : ldisc R) (op : ld_op)
    : res (ldisc R * (list Z * Z)) :=
  match op with
  | LReceive data =>
      '(o, n) ← ldisc_receive wq (Some ld) (Some data); ld ← nonnull o; Ok (ld, ([], n))
  | LRead size =>
      '(o, out, _, n) ← ldisc_read wq 256 [] true (Some ld)
                          (Some (replicate (Z.to_nat size) 0)) size;
      ld ← nonnull o; out ← nonnull out; Ok (ld, (take (Z.to_nat n) out, n))
  | LSetConfig cfg => ld ← nonnull (ldisc_set_config (Some ld) (Some cfg)); Ok (ld, ([], 0))
  | LWorker => ld ← echo_worker_task 33 ld; Ok (ld, ([], 0))
  | LReadable => Ok (ld, ([], b2z (ldisc_has_readable (Some ld))))
  end.

Definition a_call (wq : bool) (a : canon) (op : ld_op) : res (canon * (list Z * Z)) :=
  match op with
  | LReceive data =>
      if zlen data =? 0 then Ok (a, ([], 0)) else
      '(a, n) ← a_bytes wq a data 0; Ok (a_add_event EvWakeReaders a, ([], n))
  | LRead size =>
      if size =? 0 then Ok (a, ([], 0)) else
      '(a, l) ← a_read a size; Ok (a, (l, zlen l))
  | LSetConfig cfg =>
      Ok (Canon cfg (a_echo_set a) (a_sig_set a) (a_lines a) (a_cur a) (a_echo a) (a_events a), ([], 0))
  | LWorker => Ok (a_worker a, ([], 0))
  | LReadable => Ok (a, ([], b2z (negb (zlen (a_lines a) =? 0))))
  end.

Fixpoint ld_run {R} `{ByteRing R} (wq : bool) (ld : ldisc R) (ops : list ld_op)
    : res (list (list Z * Z)) :=
  match ops with
  | [] => Ok []
  | op :: ops => '(ld, o) ← ld_call wq ld op; os ← ld_run wq ld ops; Ok (o :: os)
  end.

Fixpoint a_run (wq : bool) (a : canon) (ops : list ld_op) : res (list (list Z * Z)) :=
  match ops with
  | [] => Ok []
  | op :: ops => '(a, o) ← a_call wq a op; os ← a_run wq a ops; Ok (o :: os)
  end.

(** Calls that stay in canonical mode. *)
Definition op_ok (op : ld_op) : Prop :=
  match op with
  | LRead size => 0 ≤ size < 2147483648
  | LSetConfig cfg => canonical_ cfg = true
  | _ => True
  end.

(** ** The refinement relation *)

Record ld_rel {R} `{ByteRing R} (ld : ldisc R) (a : canon) : Prop := {
  rel_canonical : canonical_ (cfg_ ld) = true;
  rel_cfg : a_cfg a = cfg_ ld;
  rel_echo_set : a_echo_set a = echo_emit_ ld;
  rel_sig_set : a_sig_set a = sig_emit_ ld;
  rel_events : a_events a = events_ ld;
  rel_rx : br_inv (rx_ring_ ld);
  rel_rx_cap : br_capacity (rx_ring_ ld) = LDISC_RX_CAP;
  rel_rx_view : br_view (rx_ring_ ld) = concat (a_lines a);
  rel_echo : br_inv (echo_ring_ ld);
  rel_echo_cap : br_capacity (echo_ring_ ld) = LDISC_ECHO_CAP;
  rel_echo_view : br_view (echo_ring_ ld) = a_echo a;
  rel_buf : zlen (line_buf_ ld) = LDISC_LINE_CAP;
  rel_len : line_len_ ld = zlen (a_cur a);
  rel_len_cap : zlen (a_cur a) ≤ LDISC_LINE_CAP;
  rel_cur : take (length (a_cur a)) (line_buf_ ld) = a_cur a;
  rel_lens : zlen (canon_lens_ ld) = LDISC_MAX_LINES;
  rel_tail : 0 ≤ canon_tail_ ld < LDISC_MAX_LINES;
  rel_count : canon_count_ ld = zlen (a_lines a);
  rel_count_cap : zlen (a_lines a) ≤ LDISC_MAX_LINES;
  rel_head : canon_head_ ld = (canon_tail_ ld + canon_count_ ld) `mod` LDISC_MAX_LINES;
  rel_window (i : nat) l : a_lines a !! i = Some l →
    canon_lens_ ld !! Z.to_nat ((canon_tail_ ld + Z.of_nat i) `mod` LDISC_MAX_LINES) = Some (zlen l)
}.

(** Two computations that end the same way, in related values. *)
Definition res_rel {A B} (P : A → B → Prop) (r : res A) (s : res B) : Prop :=
  match r, s with
  | Ok a, Ok b => P a b
  | Fault, Fault | Panic, Panic | Timeout, Timeout => True
  | _, _ => False
  end.

Lemma res_rel_bind {A B C D} (P : A → B → Prop) (Q : C → D → Prop) r s f g :
  res_rel P r s → (∀ a b, P a b → res_rel Q (f a) (g b)) → res_rel Q (r ≫= f) (s ≫= g).
Proof. destruct r, s; simpl; try done. auto. Qed.

Section Refinement.
Context {R : Type} `{ByteRingLaws R} (wq : bool).
Implicit Types (ld : ldisc R) (a : canon).

Lemma rel_rx_free ld a :
  ld_rel ld a → br_free (rx_ring_ ld) = 4096 - zlen (concat (a_lines a)) ∧
    zlen (concat (a_lines a)) ≤ 4096.
Proof.
  intros []. pose proof (br_bound _ rel_rx0). rewrite br_free_ok by done.
  rewrite rel_rx_cap0, rel_rx_view0 in *. unfold LDISC_RX_CAP in *. lia.
Qed.

(** Echoing bytes appends what fits to the echo queue. *)
Lemma queue_echo_rel ld a data n :
  ld_rel ld a → zlen data = n → 0 < n < 4096 →
  res_rel ld_rel (queue_echo_bytes_locked wq ld data n) (Ok (a_queue_echo wq data a)).
Proof.
  intros Hrel Hn Hn'. pose proof Hrel as []. unfold queue_echo_bytes_locked, a_queue_echo.
  rewrite rel_cfg0, rel_echo_set0. replace (n =? 0) with false by lia. rewrite orb_false_r.
  destruct (echo_ (cfg_ ld)), (echo_emit_ ld) eqn:Hemit; try exact Hrel. cbn [negb orb andb].
  destruct (br_write_ok (echo_ring_ ld) data n rel_echo0) as (r' & -> & Hinv & Hview & Hcap);
    [lia|split; lia|]. cbn [mbind res_bind].
  assert (take (Z.to_nat (n `min` (br_capacity (echo_ring_ ld) - zlen (br_view (echo_ring_ ld))))) data
          = take (4096 - length (a_echo a)) data) as Htake.
  { rewrite rel_echo_view0, rel_echo_cap0. unfold LDISC_ECHO_CAP.
    destruct (decide (n ≤ 4096 - zlen (a_echo a))); [rewrite !take_ge by lia|f_equal; lia]. done. }
  rewrite Htake, rel_echo_view0 in Hview.
  destruct wq; simpl; (split; simpl; try done; try congruence).
  by rewrite app_nil_r.
Qed.

(** Changing only what the relation says nothing about. *)
Lemma add_event_rel ld a e : ld_rel ld a → ld_rel (add_event e ld) (a_add_event e a).
Proof. intros []. split; simpl; try done. congruence. Qed.

Lemma sig_of_eq ld a b :
  ld_rel ld a →
  signal_of a b = if negb (isig_ (cfg_ ld)) || negb (sig_emit_ ld) then 0
    else if b =? vintr_ (cfg_ ld) then 2 else if b =? vquit_ (cfg_ ld) then 3
    else if b =? vsusp_ (cfg_ ld) then 20 else 0.
Proof.
  intros []. unfold signal_of. rewrite rel_cfg0, rel_sig_set0.
  by destruct (isig_ _), (sig_emit_ ld).
Qed.

(** A signal empties the input. *)
Lemma flush_rel ld a rx :
  ld_rel ld a → br_inv rx → br_view rx = [] → br_capacity rx = LDISC_RX_CAP →
  ld_rel (set_canon (canon_lens_ ld) 0 0 0 (set_line (line_buf_ ld) 0 (set_rx rx ld)))
    (a_set_lines [] [] a).
Proof. intros [] Hinv Hview Hcap. split; simpl; try done; unfold LDISC_LINE_CAP, LDISC_MAX_LINES; lia. Qed.

Lemma try_isig_rel ld a b :
  ld_rel ld a →
  res_rel (λ x y, ld_rel (x.1) (y.1) ∧ x.2 = y.2) (try_isig_locked wq ld b)
    (Ok (if negb (signal_of a b =? 0) then
           (a_add_event (EvSignal (signal_of a b))
             (a_set_lines [] [] (a_queue_echo wq (signal_seq (signal_of a b)) a)), true)
         else (a, false))).
Proof.
  intros Hrel. unfold try_isig_locked. rewrite (sig_of_eq ld a b Hrel).
  destruct (negb (isig_ (cfg_ ld)) || negb (sig_emit_ ld)); [done|].
  set (sig := if b =? vintr_ (cfg_ ld) then 2 else _).
  destruct (sig =? 0); [done|]. cbn [negb]. unfold queue_echo_signal_locked.
  destruct (queue_echo_bytes_locked wq ld (signal_seq sig) 3) as [ld1| | |] eqn:Hq;
    pose proof (queue_echo_rel ld a (signal_seq sig) 3 Hrel eq_refl ltac:(lia)) as Hq';
    rewrite Hq in Hq'; simpl in Hq'; try done.
  cbn [mbind res_bind]. destruct (br_clear_ok (rx_ring_ ld1)) as (rx & -> & Hinv & Hview & Hcap);
    [by destruct Hq'|]. simpl. split; [|done]. apply add_event_rel. apply flush_rel; try done.
  rewrite Hcap. by destruct Hq'.
Qed.

(** Editing the current line. *)
Lemma set_cur_rel ld a buf cur n :
  ld_rel ld a → zlen buf = LDISC_LINE_CAP → n = zlen cur → n ≤ LDISC_LINE_CAP →
  take (length cur) buf = cur → ld_rel (set_line buf n ld) (a_set_lines (a_lines a) cur a).
Proof. intros [] Hbuf -> Hlen Htake. by split. Qed.

Lemma take_insert_snoc {A} (l : list A) (cur : list A) n x :
  take n l = cur → length cur = n → (n < length l)%nat → take (S n) (<[n := x]> l) = cur ++ [x].
Proof.
  intros Ht Hl Hn. rewrite (take_S_r _ _ x) by (apply list_lookup_insert_eq; lia).
  f_equal. rewrite take_insert_ge by lia. done.
Qed.

(** A completed line enters the ring and the table of lengths. *)
Lemma push_line_rel ld a l :
  ld_rel ld a → zlen l ≤ LDISC_LINE_CAP → take (length l) (line_buf_ ld) = l →
  line_len_ ld = zlen l →
  zlen (concat (a_lines a)) + zlen l ≤ 4096 → zlen (a_lines a) < 128 →
  ∃ rx k lens, br_write (rx_ring_ ld) (line_buf_ ld) (line_len_ ld) = Ok (rx, k) ∧
    arr_set (canon_lens_ ld) (canon_head_ ld) (line_len_ ld) = Ok lens ∧
    ld_rel (set_line (line_buf_ ld) 0 (set_canon lens (u32 (canon_head_ ld + 1) `mod` LDISC_MAX_LINES)
              (canon_tail_ ld) (u32 (canon_count_ ld + 1)) (set_rx rx ld)))
      (a_set_lines (a_lines a ++ [l]) [] a).
Proof.
  intros Hrel Hlen Hbuf Hll Hroom Hlines. pose proof Hrel as [].
  unfold LDISC_LINE_CAP, LDISC_MAX_LINES, LDISC_RX_CAP in *.
  destruct (br_write_ok (rx_ring_ ld) (line_buf_ ld) (line_len_ ld) rel_rx0)
    as (rx & Hw & Hinv & Hview & Hcap); [lia|split; lia|].
  rewrite rel_rx_view0, rel_rx_cap0, Hll, Z.min_l, Nat2Z.id, Hbuf in Hview by lia.
  assert (0 ≤ canon_head_ ld < 128) as Hh by (rewrite rel_head0; by apply Z.mod_pos_bound).
  rewrite Hw, arr_set_ok by lia. do 3 eexists. split; [done|]. split; [done|].
  rewrite !u32_small by lia.
  split; simpl; unfold LDISC_LINE_CAP, LDISC_MAX_LINES, LDISC_RX_CAP; try done; try congruence.
  - rewrite concat_app, Hview. simpl. by rewrite app_nil_r.
  - rewrite length_insert. done.
  - rewrite length_app. simpl. lia.
  - rewrite length_app. simpl. lia.
  - rewrite rel_head0, Zplus_mod_idemp_l. f_equal. lia.
  - intros i l' Hi. rewrite list_lookup_insert. rewrite lookup_app_Some in Hi.
    destruct Hi as [Hi|[Hge Hi]].
    + apply lookup_lt_Some in Hi as Hlt. rewrite decide_False; [by apply rel_window0|].
      rewrite rel_head0, rel_count0. clear - rel_tail0 Hlt Hlines.
      intros [Heq _]. Z.to_euclidean_division_equations; lia.
    + apply list_lookup_singleton_Some in Hi as [Hi <-].
      rewrite decide_True; [by rewrite Hll|]. split; [|lia].
      rewrite rel_head0, rel_count0. do 2 f_equal. lia.
Qed.

Local Abbreviation pair_rel := (λ x y, ld_rel (x.1) (y.1) ∧ x.2 = y.2).

Lemma echo_then_true ld a data n :
  ld_rel ld a → zlen data = n → 0 < n < 4096 →
  res_rel pair_rel (ld ← queue_echo_bytes_locked wq ld data n; Ok (ld, true))
    (Ok (a_queue_echo wq data a, true)).
Proof.
  intros Hrel Hn Hn'. pose proof (queue_echo_rel ld a data n Hrel Hn Hn') as Hq.
  destruct (queue_echo_bytes_locked wq ld data n); simpl in *; try done.
Qed.

(** The part of the end-of-line branch behind the newline store. *)
Local Abbreviation finish_line ld :=
  ('(rx, _) ← br_write (rx_ring_ ld) (line_buf_ ld) (line_len_ ld);
   let ld := set_rx rx ld in
   lens ← arr_set (canon_lens_ ld) (canon_head_ ld) (line_len_ ld);
   let ld := set_canon lens (u32 (canon_head_ ld + 1) `mod` LDISC_MAX_LINES)
               (canon_tail_ ld) (u32 (canon_count_ ld + 1)) ld in
   Ok (set_line (line_buf_ ld) 0 ld, true)).

Lemma finish_line_rel ld a :
  ld_rel ld a → zlen (concat (a_lines a)) + zlen (a_cur a) ≤ 4096 → zlen (a_lines a) < 128 →
  res_rel pair_rel (finish_line ld) (Ok (a_set_lines (a_lines a ++ [a_cur a]) [] a, true)).
Proof.
  intros Hrel Hroom Hlines. pose proof Hrel as [].
  destruct (push_line_rel ld a (a_cur a) Hrel) as (rx & k & lens & -> & Hs & Hr); [done..|].
  cbn [mbind res_bind]. simpl. rewrite Hs. done.
Qed.

(** Appending a byte to the line, when [line_buf_] has room. *)
Lemma append_cur_rel ld a b :
  ld_rel ld a → zlen (a_cur a) < 1024 →
  ∃ buf, arr_set (line_buf_ ld) (line_len_ ld) b = Ok buf ∧
    ld_rel (set_line buf (u32 (line_len_ ld + 1)) ld) (a_set_lines (a_lines a) (a_cur a ++ [b]) a).
Proof.
  intros Hrel Hlt. pose proof Hrel as []. unfold LDISC_LINE_CAP in *.
  rewrite arr_set_ok by lia. eexists. split; [done|]. rewrite u32_small by lia.
  apply set_cur_rel; unfold LDISC_LINE_CAP; rewrite ?length_app, ?length_insert; simpl; [done|done|lia|lia|].
  rewrite rel_len0, Nat2Z.id, Nat.add_1_r. by apply take_insert_snoc; [|done|lia].
Qed.

Lemma complete_rel ld a (b : Z) :
  ld_rel ld a →
  res_rel pair_rel
   (let needed := if b =? newline then u32 (line_len_ ld + 1) else line_len_ ld in
    if br_free (rx_ring_ ld) <? needed then Ok (ld, false) else
    if LDISC_MAX_LINES <=? canon_count_ ld then Ok (ld, false) else
    ld ← (if b =? newline then
            buf ← arr_set (line_buf_ ld) (line_len_ ld) b;
            Ok (set_line buf (u32 (line_len_ ld + 1)) ld)
          else Ok ld);
    finish_line ld)
   (a_complete (if b =? newline then a_cur a ++ [newline] else a_cur a) a).
Proof.
  intros Hrel. destruct (rel_rx_free ld a Hrel) as [Hfree Hroom]. pose proof Hrel as [].
  unfold a_complete, LDISC_LINE_CAP, LDISC_MAX_LINES in *. cbn zeta. rewrite Hfree, rel_count0.
  destruct (Z.eqb_spec b newline) as [-> |Hb].
  - rewrite u32_small, length_app by lia. cbn [length].
    replace (4096 <? _) with (4096 - zlen (concat (a_lines a)) <? line_len_ ld + 1) by bool_lia.
    case_if; [done|]. case_if; [done|].
    destruct (decide (zlen (a_cur a) = 1024)) as [Hfull|Hfull].
    + rewrite (proj2 (Z.ltb_lt 1024 _)) by lia. unfold arr_set.
      rewrite (proj2 (Z.ltb_ge _ _)) by lia. by rewrite andb_false_r.
    + destruct (append_cur_rel ld a newline Hrel) as (buf & -> & Hrel1); [lia|].
      rewrite u32_small in Hrel1 by lia. rewrite (proj2 (Z.ltb_ge 1024 _)) by lia. cbn [mbind res_bind].
      pose proof (finish_line_rel _ _ Hrel1) as Hfin. cbn [a_set_lines a_lines a_cur] in Hfin.
      apply Hfin; [rewrite length_app; simpl; lia|lia].
  - replace (4096 <? _) with (4096 - zlen (concat (a_lines a)) <? line_len_ ld) by bool_lia.
    case_if; [done|]. case_if; [done|]. rewrite (proj2 (Z.ltb_ge 1024 _)) by lia.
    cbn [mbind res_bind]. apply finish_line_rel; [done|lia|lia].
Qed.

Lemma receive_byte_rel ld a b :
  ld_rel ld a → res_rel pair_rel (receive_byte_locked wq ld b) (a_byte wq a b).
Proof.
  intros Hrel. unfold receive_byte_locked, a_byte, map_input. rewrite (rel_cfg _ _ Hrel).
  destruct (igncr_ (cfg_ ld) && (b =? creturn)); [done|].
  set (b' := if icrnl_ (cfg_ ld) && _ then _ else _). clearbody b'. clear b.
  pose proof (try_isig_rel ld a b' Hrel) as Hsig.
  destruct (try_isig_locked wq ld b') as [[ld1 taken]| | |]; simpl in Hsig; try done.
  destruct (negb (signal_of a b' =? 0)); destruct Hsig as [Hrel1 Ht]; simpl in Hrel1, Ht; subst taken;
    cbn [mbind res_bind]; [done|]. rewrite (rel_canonical _ _ Hrel1). cbn [negb].
  rewrite <- (rel_cfg _ _ Hrel), (rel_cfg _ _ Hrel1). clear ld Hrel. pose proof Hrel1 as [].
  destruct ((b' =? 8) || (b' =? 127)).
  - rewrite rel_len0. destruct (a_cur a) as [|c cur] eqn:Hcur; [done|].
    rewrite (proj2 (Z.ltb_lt _ _)) by (simpl; lia). rewrite <- Hcur in *.
    apply echo_then_true; [|done|lia]. unfold LDISC_LINE_CAP in *.
    assert (0 < zlen (a_cur a)) by (rewrite Hcur; simpl; lia).
    rewrite u32_small by lia. apply set_cur_rel; unfold LDISC_LINE_CAP; rewrite ?length_take; try done; try lia.
    transitivity (take (length (a_cur a) - 1) (take (length (a_cur a)) (line_buf_ ld1)));
      [rewrite take_take; f_equal; lia|by rewrite rel_cur0].
  - destruct (Z.eqb_spec b' newline) as [-> |Hnl].
    + rewrite orb_true_r. apply (complete_rel ld1 a newline Hrel1).
    + rewrite orb_false_r. destruct (b' =? veof_ (cfg_ ld1)).
      * pose proof (complete_rel ld1 a b' Hrel1) as Hc. rewrite (proj2 (Z.eqb_neq _ _)) in Hc by done.
        exact Hc.
      * rewrite rel_len0. unfold LDISC_LINE_CAP at 1. case_if; [done|].
        destruct (append_cur_rel ld1 a b' Hrel1) as (buf & Hbuf & Hrel2); [lia|].
        rewrite rel_len0 in Hbuf, Hrel2. rewrite Hbuf. cbn [mbind res_bind].
        by apply echo_then_true.
Qed.

Lemma receive_bytes_rel data ld a n :
  ld_rel ld a → res_rel pair_rel (receive_bytes wq ld data n) (a_bytes wq a data n).
Proof.
  revert ld a n. induction data as [|b data IH]; intros ld a n Hrel; simpl; [done|].
  apply (res_rel_bind pair_rel); [by apply receive_byte_rel|].
  intros [ld1 ok1] [a1 ok2] [Hrel1 Hok]. simpl in *. subst ok2. destruct ok1; [by apply IH|done].
Qed.

(** A part of the first line has left the ring: its length is reduced. *)
Lemma shorten_line_rel ld a l ls rest rx :
  ld_rel ld a → a_lines a = l :: ls → br_inv rx → br_capacity rx = LDISC_RX_CAP →
  br_view rx = rest ++ concat ls →
  ld_rel (set_canon (<[Z.to_nat (canon_tail_ ld) := zlen rest]> (canon_lens_ ld))
            (canon_head_ ld) (canon_tail_ ld) (canon_count_ ld) (set_rx rx ld))
    (a_set_lines (rest :: ls) (a_cur a) a).
Proof.
  intros Hrel Hl Hinv Hcap Hview. pose proof Hrel as []. rewrite Hl in *.
  split; simpl; try done; unfold LDISC_MAX_LINES in *.
  - by rewrite length_insert.
  - intros [|i] l' Hi.
    + injection Hi as <-. rewrite Z.add_0_r, Z.mod_small by done.
      apply list_lookup_insert_eq. lia.
    + rewrite list_lookup_insert_ne; [by apply (rel_window0 (S i))|].
      apply lookup_lt_Some in Hi. simpl in *. clear - rel_tail0 Hi rel_count_cap0.
      Z.to_euclidean_division_equations; lia.
Qed.

(** The first line has left the ring: the table moves on. *)
Lemma drop_line_rel ld a l ls rx :
  ld_rel ld a → a_lines a = l :: ls → br_inv rx → br_capacity rx = LDISC_RX_CAP →
  br_view rx = concat ls →
  ld_rel (set_canon (canon_lens_ ld) (canon_head_ ld)
            (u32 (canon_tail_ ld + 1) `mod` LDISC_MAX_LINES) (u32 (canon_count_ ld - 1)) (set_rx rx ld))
    (a_set_lines ls (a_cur a) a).
Proof.
  intros Hrel Hl Hinv Hcap Hview. pose proof Hrel as []. rewrite Hl in *. simpl in *.
  unfold LDISC_MAX_LINES in *. rewrite !u32_small by lia.
  split; simpl; unfold LDISC_MAX_LINES; try done.
  - by apply Z.mod_pos_bound.
  - lia.
  - lia.
  - rewrite rel_head0, Zplus_mod_idemp_l. f_equal. lia.
  - intros i l' Hi. rewrite Zplus_mod_idemp_l, <- (rel_window0 (S i) l' Hi). do 3 f_equal. lia.
Qed.

Lemma canon_take_rel ld a l ls size :
  ld_rel ld a → a_lines a = l :: ls → 0 < size < 2147483648 →
  ∃ ld' out', canon_take ld (replicate (Z.to_nat size) 0) size = Ok (ld', out', Z.min size (zlen l)) ∧
    take (Z.to_nat (Z.min size (zlen l))) out' = take (Z.to_nat size) l ∧
    ld_rel ld' (a_add_event EvWriteSem (a_set_lines
      (match drop (Z.to_nat size) l with [] => ls | rest => rest :: ls end) (a_cur a) a)).
Proof.
  intros Hrel Hl Hsize. pose proof Hrel as []. unfold canon_take.
  rewrite rel_count0, Hl. rewrite (proj2 (Z.ltb_lt _ _)) by (simpl; lia).
  pose proof (rel_window0 0%nat l) as Hw. rewrite Hl in Hw. specialize (Hw eq_refl).
  rewrite Z.add_0_r, Z.mod_small in Hw by done.
  rewrite (arr_get_ok _ _ _ (proj1 rel_tail0) Hw). cbn [mbind res_bind].
  replace (if size <? zlen l then size else zlen l) with (Z.min size (zlen l)) by (case_if; lia).
  assert (zlen l ≤ zlen (br_view (rx_ring_ ld))) as Hlv.
  { rewrite rel_rx_view0, Hl. simpl. rewrite length_app. lia. }
  pose proof (br_bound _ rel_rx0) as Hbound.
  destruct (br_read_ok (rx_ring_ ld) (replicate (Z.to_nat size) 0) (Z.min size (zlen l)) rel_rx0)
    as (rx & -> & Hinv & Hv & Hcap); [len_lia|split; lia|]. rewrite rel_rx_cap0 in Hcap.
  rewrite (Z.min_l _ (zlen (br_view _))) in * by lia. cbn [mbind res_bind].
  rewrite rel_rx_view0, Hl in Hv |- *. cbn [concat] in *. rewrite drop_app_le in Hv by lia.
  rewrite take_app_le by lia.
  assert (∀ tl, take (Z.to_nat (size `min` zlen l)) (take (Z.to_nat (size `min` zlen l)) l ++ tl)
    = take (Z.to_nat size) l) as Hout.
  { intros tl. rewrite take_app_le, take_idemp by len_lia.
    destruct (decide (size ≤ zlen l)); [f_equal; lia|by rewrite !take_ge by lia]. }
  case_if.
  - rewrite Z.min_l in * by lia. simpl. rewrite arr_set_ok by lia. cbn [mbind res_bind].
    do 2 eexists. split; [done|]. split; [apply Hout|].
    destruct (drop (Z.to_nat size) l) as [|x rest] eqn:Hd.
    { apply (f_equal length) in Hd. rewrite length_drop in Hd. simpl in Hd. lia. }
    rewrite <- Hd in *. rewrite u32_small by (unfold LDISC_RX_CAP in *; lia).
    replace (zlen l - size) with (zlen (drop (Z.to_nat size) l)) by len_lia.
    apply (add_event_rel _ _ EvWriteSem) in Hrel.
    exact (shorten_line_rel _ _ l ls _ rx Hrel Hl Hinv Hcap Hv).
  - assert (size `min` zlen l = zlen l) as Hmin by lia. rewrite Hmin in Hv, Hout |- *. do 2 eexists. split; [done|]. split; [apply Hout|].
    rewrite drop_ge in Hv by lia. rewrite (drop_ge l (Z.to_nat size)) by lia.
    apply (add_event_rel _ _ EvWriteSem) in Hrel.
    exact (drop_line_rel _ _ l ls rx Hrel Hl Hinv Hcap Hv).
Qed.

(** The worker empties the echo queue in chunks of at most 128 bytes. *)
Lemma worker_rel fuel ld a :
  ld_rel ld a → (length (a_echo a) + 128 ≤ 128 * fuel)%nat →
  res_rel ld_rel (echo_worker_task fuel ld)
    (Ok (Canon (a_cfg a) (a_echo_set a) (a_sig_set a) (a_lines a) (a_cur a) []
       (a_events a ++ if a_echo_set a then EvEcho <$> chunks fuel 128 (a_echo a) else []))).
Proof.
  revert ld a. induction fuel as [|fuel IH]; intros ld a Hrel Hfuel; [lia|].
  pose proof Hrel as []. cbn [echo_worker_task].
  destruct (br_read_ok (echo_ring_ ld) (replicate 128 0) 128 rel_echo0)
    as (r & -> & Hinv & Hview & Hcap); [rewrite length_replicate; lia|split; lia|].
  cbn [mbind res_bind]. rewrite rel_echo_view0 in *.
  destruct (a_echo a) as [|x e] eqn:He.
  { simpl. split; simpl; try done; try congruence.
    rewrite rel_events0. destruct (a_echo_set a); by rewrite app_nil_r. }
  rewrite <- He in *. assert (0 < zlen (a_echo a)) as Hpos by (rewrite He; simpl; lia). clear He x e.
  rewrite (proj2 (Z.eqb_neq _ _)) by lia.
  assert (take (Z.to_nat (128 `min` zlen (a_echo a))) (take (Z.to_nat (128 `min` zlen (a_echo a)))
    (a_echo a) ++ drop (Z.to_nat (128 `min` zlen (a_echo a))) (replicate 128 0)) = take 128 (a_echo a))
    as Hchunk.
  { rewrite take_app_le, take_idemp by len_lia.
    destruct (decide (128 ≤ zlen (a_echo a))); [f_equal; lia|by rewrite !take_ge by lia]. }
  assert (drop (Z.to_nat (128 `min` zlen (a_echo a))) (a_echo a) = drop 128 (a_echo a)) as Hdrop.
  { destruct (decide (128 ≤ zlen (a_echo a))); [f_equal; lia|by rewrite !drop_ge by lia]. }
  rewrite Hchunk. rewrite Hdrop in Hview.
  set (a1 := Canon (a_cfg a) (a_echo_set a) (a_sig_set a) (a_lines a) (a_cur a) (drop 128 (a_echo a))
    (a_events a ++ if a_echo_set a then [EvEcho (take 128 (a_echo a))] else [])).
  assert (chunks (S fuel) 128 (a_echo a) = take 128 (a_echo a) :: chunks fuel 128 (drop 128 (a_echo a))) as ->.
  { destruct (a_echo a); [simpl in Hpos; lia|done]. }
  replace (a_events a ++ _) with (a_events a1 ++ if a_echo_set a1 then EvEcho <$> chunks fuel 128 (a_echo a1) else []).
  2:{ subst a1. simpl. destruct (a_echo_set a); by rewrite <- (assoc_L (++)). }
  apply (IH _ a1); [|subst a1; cbn [a_echo]; rewrite length_drop; lia].
  subst a1. simpl. rewrite rel_echo_set0.
  destruct (echo_emit_ ld) eqn:Hset; (split; simpl; try done; try congruence).
  by rewrite app_nil_r.
Qed.

(** One call, on related states. *)
Lemma ld_call_rel ld a op :
  ld_rel ld a → op_ok op → res_rel pair_rel (ld_call wq ld op) (a_call wq a op).
Proof.
  intros Hrel Hop. destruct op as [data|size|cfg| |]; cbn [ld_call a_call].
  - unfold ldisc_receive. case_if; [done|].
    pose proof (receive_bytes_rel data ld a 0 Hrel) as Hb.
    destruct (receive_bytes wq ld data 0) as [[]| | |], (a_bytes wq a data 0) as [[]| | |];
      simpl in *; try done.
    destruct Hb as [Hb ->]. split; [by apply add_event_rel|done].
  - unfold ldisc_read. case_if; [by subst|]. rewrite (rel_canonical _ _ Hrel).
    unfold wait_for_data_locked, a_read. simpl. unfold data_ready.
    rewrite (rel_canonical _ _ Hrel), (rel_count _ _ Hrel).
    destruct (a_lines a) as [|l ls] eqn:Hl; [done|].
    rewrite (proj2 (Z.ltb_lt _ _)) by (simpl; lia). simpl.
    destruct (canon_take_rel ld a l ls size Hrel Hl) as (ld' & out' & -> & Hout & Hrel'); [simpl in Hop; lia|].
    simpl. split; [by destruct (drop _ l)|]. rewrite Hout, length_take. simpl in Hop. f_equal. lia.
  - simpl. split; [|done]. destruct Hrel. split; simpl; done.
  - pose proof (worker_rel 33 ld a Hrel) as Hw.
    assert (length (a_echo a) + 128 ≤ 128 * 33)%nat as Hlt.
    { destruct Hrel. pose proof (br_bound _ rel_echo0). rewrite rel_echo_view0, rel_echo_cap0 in *.
      unfold LDISC_ECHO_CAP in *. lia. }
    specialize (Hw Hlt). destruct (echo_worker_task 33 ld); simpl in *; try done.
  - simpl. split; [done|]. rewrite (rel_canonical _ _ Hrel), (rel_count _ _ Hrel).
    by destruct (a_lines a).
Qed.

Lemma ld_run_rel ops ld a :
  ld_rel ld a → Forall op_ok ops → ld_run wq ld ops = a_run wq a ops.
Proof.
  revert ld a. induction ops as [|op ops IH]; intros ld a Hrel Hops; [done|].
  inversion_clear Hops as [|? ? Hop Hops']. cbn [ld_run a_run].
  pose proof (ld_call_rel ld a op Hrel Hop) as Hc.
  destruct (ld_call wq ld op) as [[ld1 o1]| | |], (a_call wq a op) as [[a1 o2]| | |]; simpl in *; try done.
  destruct Hc as [Hrel1 ->]. by rewrite (IH ld1 a1).
Qed.
End Refinement.

(** The discipline [ldisc_create] returns, with the callbacks set. *)
Definition fresh_ldisc (echo_set sig_set : bool) : res (option (ldisc ringbuf)) :=
  ld ← ldisc_create true; Ok (ldisc_set_callbacks ld echo_set sig_set).

Definition default_config : ldisc_config :=
  LdiscConfig true true true false true false true 1 0 false 0x03 0x1C 0x1A 0x04.

Lemma fresh_ldisc_rel echo_set sig_set :
  ∃ ld, fresh_ldisc echo_set sig_set = Ok (Some ld) ∧
    ld_rel ld (Canon default_config echo_set sig_set [] [] [] []).
Proof.
  assert (∀ buf, zlen buf = 4096 → rb_ok (RingBuf buf 4096 0 0 0)) as Hrb.
  { intros buf Hbuf. split; simpl; try lia. done. }
  unfold fresh_ldisc, ldisc_create, ringbuf_init.
  change (LDISC_RX_CAP =? 0) with false. change (LDISC_ECHO_CAP =? 0) with false. cbn [negb].
  unfold LDISC_RX_CAP, LDISC_ECHO_CAP. rewrite arr_blit_ok by (rewrite ?length_replicate; lia).
  cbn [mbind res_bind nonnull ldisc_set_callbacks].
  set (buf := blit _ _ _). assert (zlen buf = 4096) as Hbuf
    by (unfold buf; rewrite length_blit; rewrite !length_replicate; lia).
  clearbody buf. eexists. split; [done|].
  split; cbn -[replicate]; unfold LDISC_LINE_CAP, LDISC_MAX_LINES;
    rewrite ?length_replicate; try done; by apply Hrb.
Qed.



(** ** Where the code leaves the specification *)

(** A newline (or a carriage return mapped to one) that arrives when the
    line buffer holds its full 1024 bytes is stored outside [line_buf_]: the
    ring has room for the line, so no guard refuses it. *)
Theorem ldisc_full_line_newline_faults (wq : bool) (ld : ldisc ringbuf) (a : canon) (b : Z) :
  ld_rel ld a → zlen (a_cur a) = LDISC_LINE_CAP →
  zlen (concat (a_lines a)) + 1025 ≤ LDISC_RX_CAP → zlen (a_lines a) < LDISC_MAX_LINES →
  map_input (cfg_ ld) b = Some newline → signal_of a newline = 0 →
  receive_byte_locked wq ld b = Fault.
Proof.
  unfold LDISC_LINE_CAP, LDISC_RX_CAP, LDISC_MAX_LINES.
  intros Hrel Hfull Hroom Hlines Hmap Hsig.
  pose proof (receive_byte_rel wq ld a b Hrel) as Hb. revert Hb.
  unfold a_byte. rewrite (rel_cfg _ _ Hrel), Hmap, Hsig. cbn [Z.eqb negb orb newline].
  unfold a_complete. rewrite length_app. cbn [length].
  rewrite (proj2 (Z.ltb_ge 4096 _)), (proj2 (Z.leb_gt 128 _)), (proj2 (Z.ltb_lt 1024 _)) by lia.
  simpl. by destruct (receive_byte_locked wq ld b).
Qed.

Lemma ldisc_full_line_newline_faults_witness :
  ∃ ld ld1, fresh_ldisc true false = Ok (Some ld) ∧
    receive_bytes true ld (replicate 1024 97) 0 = Ok (ld1, 1024) ∧
    receive_byte_locked true ld1 13 = Fault.
Proof.
  destruct (fresh_ldisc_rel true false) as (ld & Hld & Hrel).
  pose proof (receive_bytes_rel true (replicate 1024 97) ld _ 0 Hrel) as Hr.
  set (a := Canon default_config true false [] (replicate 1024 97) (replicate 1024 97)
    (replicate 1024 EvQueueWork)).
  assert (a_bytes true (Canon default_config true false [] [] [] []) (replicate 1024 97) 0 = Ok (a, 1024))
    as Ha by (vm_compute; reflexivity).
  rewrite Ha in Hr. clear Ha Hrel. revert Hr.
  destruct (receive_bytes true ld (replicate 1024 97) 0) as [[ld1 n1]| | |] eqn:Hld1; [|by intros []..].
  intros [Hr Hn]. cbn [fst snd] in Hr, Hn. subst n1.
  exists ld, ld1. split_and!; [exact Hld|exact Hld1|].
  apply (ldisc_full_line_newline_faults true ld1 a 13 Hr);
    rewrite <- ?(rel_cfg _ _ Hr); vm_compute; reflexivity || discriminate.
Defined.

(** Waiting never leaves the CPU with interrupts enabled. *)
Lemma wait_irq_off {R} `{ByteRing R} wq env (st : rstate (R := R)) dl target st' ok :
  r_irq st = false → wait_for_data wq env st dl target = Ok (st', ok) → r_irq st' = false.
Proof.
  revert st. induction env as [|r env IH]; intros st Hirq; simpl.
  - case_if; [|done]. by intros [= <- <-].
  - repeat case_if; try (by intros [= <- <-]). unfold sleep_round.
    destruct (env_run wq (r_ld st) (rd_ops r)); try done. cbn [mbind res_bind]. by apply IH.
Qed.

Lemma wait_locked_irq_off {R} `{ByteRing R} wq (st : rstate (R := R)) dl target st' ok :
  r_irq st = false → wait_for_data_locked wq st dl target = Ok (st', ok) → r_irq st' = false.
Proof. apply wait_irq_off. Qed.

Lemma vmin_irq_off {R} `{ByteRing R} wq fuel (st : rstate (R := R)) n vmin vtime st' :
  r_irq st = false → vmin_loop wq fuel st n vmin vtime = Ok st' → r_irq st' = false.
Proof.
  revert st n. induction fuel as [|fuel IH]; intros st n Hirq; simpl; [done|].
  case_if; [|by intros [= <-]].
  destruct (wait_for_data_locked _ _ _ _) as [[st1 more]| | |] eqn:Hw; try done. cbn [mbind res_bind].
  apply wait_locked_irq_off in Hw; [|done]. destruct more; [by apply IH|by intros [= <-]].
Qed.

Lemma raw_wait_irq_off {R} `{ByteRing R} wq fuel (st : rstate (R := R)) st' :
  r_irq st = false → raw_wait wq fuel st = Ok st' → r_irq st' = false.
Proof.
  intros Hirq. unfold raw_wait. case_if; [by intros [= <-]|].
  repeat case_if.
  all: destruct (wait_for_data_locked _ _ _ _) as [[st1 more]| | |] eqn:Hw; try done;
    cbn [mbind res_bind]; apply wait_locked_irq_off in Hw; try done.
  1, 2: by intros [= <-].
  case_if; [by apply vmin_irq_off|by intros [= <-]].
Qed.

(** [ldisc_read] returns with interrupts disabled whatever they were on
    entry: it clears the flag with [irq_save] before the guard saves it, and
    never restores the value it saved first. *)
Theorem ldisc_read_leaves_irqs_off (wq : bool) (fuel : nat) (env : list round) (irq irq' : bool)
    (ld : ldisc ringbuf) (out : list Z) (size n : Z) o out' :
  size ≠ 0 → ldisc_read wq fuel env irq (Some ld) (Some out) size = Ok (o, out', irq', n) →
  irq' = false.
Proof.
  intros Hsize. unfold ldisc_read. rewrite (proj2 (Z.eqb_neq _ _)) by done. case_if.
  - destruct (wait_for_data_locked _ _ _ _) as [[st1 more]| | |] eqn:Hw; try done.
    apply wait_locked_irq_off in Hw; [|done]. cbn [mbind res_bind]. rewrite Hw.
    case_if; [by intros [= <- <- <- <-]|].
    destruct (canon_take _ _ _) as [[[? ?] ?]| | |]; try done. by intros [= <- <- <- <-].
  - destruct (raw_wait _ _ _) as [st1| | |] eqn:Hw; try done.
    apply raw_wait_irq_off in Hw; [|done]. cbn [mbind res_bind]. rewrite Hw.
    case_if; [by intros [= <- <- <- <-]|].
    destruct (raw_take _ _ _) as [[[? ?] ?]| | |]; try done. by intros [= <- <- <- <-].
Qed.

(** A discipline with rings of eight bytes, for examples: [rx] waits in the
    receive ring, [lens] are the lengths of the completed lines. *)
Definition small_ldisc (cfg : ldisc_config) (rx lens : list Z) : ldisc ringbuf :=
  Ldisc cfg true true (RingBuf (rx ++ replicate (8 - length rx) 0) 8 (zlen rx) (zlen rx `mod` 8) 0)
    (replicate 1024 0) 0 (lens ++ replicate (128 - length lens) 0) (zlen lens) 0 (zlen lens)
    (RingBuf (replicate 8 0) 8 0 0 0) [].

Definition raw_config (vmin vtime : Z) : ldisc_config :=
  LdiscConfig false false true false false false true vmin vtime false 0x03 0x1C 0x1A 0x04.

Lemma ldisc_read_leaves_irqs_off_witness :
  ∃ o irq', ldisc_read true 0 [] true (Some (small_ldisc default_config [104; 105; 10] [3]))
              (Some [0; 0; 0; 0]) 4 = Ok (o, Some [104; 105; 10; 0], irq', 3) ∧ irq' = false.
Proof.
  do 2 eexists. split; [vm_compute; reflexivity|].
  eapply (ldisc_read_leaves_irqs_off true 0 [] true _ (small_ldisc default_config [104; 105; 10] [3])
    [0; 0; 0; 0] 4); [lia|vm_compute; reflexivity].
Defined.

(** A canonical read reports more bytes than it delivers when the table of
    line lengths is ahead of the ring: it returns the length of the queued
    line and leaves the caller's buffer as it was.  Reading the line in raw
    mode and switching back makes this happen. *)
Theorem ldisc_read_stale_line (wq : bool) (fuel : nat) (irq : bool) (ld : ldisc ringbuf)
    (out : list Z) (size k : Z) :
  canonical_ (cfg_ ld) = true → rb_ok (rx_ring_ ld) → rb_view (rx_ring_ ld) = [] →
  0 < canon_count_ ld → zlen (canon_lens_ ld) = LDISC_MAX_LINES →
  arr_get (canon_lens_ ld) (canon_tail_ ld) = Ok k → 0 < k →
  zlen out = size → 0 < size < 2147483648 →
  ∃ ld', ldisc_read wq fuel [] irq (Some ld) (Some out) size =
           Ok (Some ld', Some out, false, Z.min size k).
Proof.
  intros Hc Hrb Hview Hcount Hlens Hk Hkpos Hout Hsize. unfold ldisc_read, wait_for_data_locked.
  rewrite (proj2 (Z.eqb_neq _ _)) by lia. rewrite Hc. simpl. unfold data_ready.
  rewrite Hc, (proj2 (Z.ltb_lt _ _)) by done. simpl. unfold canon_take.
  rewrite (proj2 (Z.ltb_lt _ _)), Hk by done. cbn [mbind res_bind].
  replace (if size <? k then size else k) with (Z.min size k) by (case_if; lia).
  change (br_inv (rx_ring_ ld)) in Hrb.
  destruct (br_read_ok (rx_ring_ ld) out (Z.min size k) Hrb) as (rx & -> & _); [lia|split; lia|].
  cbn [br_view ringbuf_ByteRing mbind res_bind]. rewrite Hview. cbn [length].
  rewrite (Z.min_r _ (Z.of_nat 0)) by lia. cbn [Z.of_nat Z.to_nat take drop app firstn].
  case_if; [|by eexists].
  apply arr_get_inv in Hk as [Ht _]. simpl. rewrite arr_set_ok by done. by eexists.
Qed.

Definition stale_script : list ld_op :=
  [LReceive [104; 105; 10]; LSetConfig (raw_config 1 0); LRead 3; LSetConfig default_config].

Fixpoint ld_exec (wq : bool) (ld : ldisc ringbuf) (ops : list ld_op) : res (ldisc ringbuf) :=
  match ops with [] => Ok ld | op :: ops => '(ld, _) ← ld_call wq ld op; ld_exec wq ld ops end.

Lemma ldisc_read_stale_line_witness :
  ∃ ld, ld_exec true (small_ldisc default_config [] []) stale_script = Ok ld ∧
    ∃ ld', ldisc_read true 0 [] true (Some ld) (Some [7; 7; 7; 7]) 4 =
             Ok (Some ld', Some [7; 7; 7; 7], false, 3).
Proof.
  eexists. split; [vm_compute; reflexivity|].
  apply (ldisc_read_stale_line true 0 true _ [7; 7; 7; 7] 4 3);
    [reflexivity| |reflexivity|simpl; lia|reflexivity|reflexivity|lia|reflexivity|lia].
  split; simpl; try lia. reflexivity.
Defined.

(** The [VMIN] loop of a raw read never ends once the configuration has
    become canonical with a line queued and fewer than [VMIN] bytes buffered:
    the wait then succeeds at once, with the lock held, and nothing changes. *)
Theorem ldisc_vmin_loop_spins (wq : bool) (fuel : nat) (ld : ldisc ringbuf) (irq flags intr : bool)
    (env : list round) (vmin vtime : Z) :
  canonical_ (cfg_ ld) = true → 0 < canon_count_ ld → br_size (rx_ring_ ld) < vmin →
  vmin_loop wq fuel (RState ld irq flags intr env) (br_size (rx_ring_ ld)) vmin vtime = Timeout.
Proof.
  intros Hc Hcount Hlt. induction fuel as [|fuel IH]; [done|]. cbn [vmin_loop].
  rewrite (proj2 (Z.ltb_lt _ _)) by done. unfold wait_for_data_locked.
  assert (∀ dl t, wait_for_data wq env (RState ld irq flags intr env) dl t =
    Ok (RState ld irq flags intr env, true)) as Hw.
  { intros dl t. destruct env; simpl; unfold data_ready;
      rewrite Hc, (proj2 (Z.ltb_lt _ _)) by done; done. }
  cbn [r_env]. rewrite Hw. cbn [mbind res_bind r_ld]. exact IH.
Qed.

Lemma ldisc_vmin_loop_spins_witness :
  vmin_loop true 1000 (RState (small_ldisc default_config [97; 98; 10] [2]) false true false []) 3 5 1
    = Timeout.
Proof.
  apply (ldisc_vmin_loop_spins true 1000 (small_ldisc default_config [97; 98; 10] [2]));
    [reflexivity|simpl; lia|simpl; lia].
Defined.

(** ** Output processing *)

(** Every newline becomes a carriage return and a newline. *)
Fixpoint expand_nl (l : list Z) : list Z :=
  match l with
  | [] => []
  | b :: l => if b =? newline then creturn :: newline :: expand_nl l else b :: expand_nl l
  end.

(** A sink with room for [cap] bytes, which takes what fits. *)
Definition bounded_emit (cap : nat) (buf data : list Z) : list Z * Z :=
  let k := (cap - length buf)%nat in (buf ++ take k data, zlen (take k data)).

Lemma bounded_emit_snd cap buf data :
  (length buf ≤ cap)%nat →
  bounded_emit cap buf data = (take cap (buf ++ data), zlen (take cap (buf ++ data)) - zlen buf).
Proof.
  intros Hb. unfold bounded_emit. rewrite take_app_ge by done. f_equal. rewrite length_app. lia.
Qed.

Lemma take_take_app {A} n (l k : list A) : take n (take n l ++ k) = take n (l ++ k).
Proof.
  destruct (decide (length l ≤ n)%nat) as [H|H]; [by rewrite (take_ge l) by done|].
  rewrite (take_app_le (take n l)), take_idemp by (rewrite length_take; lia).
  by rewrite (take_app_le l) by lia.
Qed.

(** Emitting [pending] when there is some, with the bytes [buf] already out. *)
Lemma emit_pending cap buf pending produced (base : Z) :
  (length buf ≤ cap)%nat → Z.of_nat cap < 4294967296 → 0 ≤ base → produced = zlen buf - base → 0 ≤ produced →
  (if 0 <? zlen pending
   then let '(ctx, w) := bounded_emit cap buf pending in (ctx, u32 (produced + w))
   else (buf, produced)) =
  (take cap (buf ++ pending), zlen (take cap (buf ++ pending)) - base).
Proof.
  intros Hb Hcap Hbase -> Hp. case_if.
  - rewrite bounded_emit_snd by done. f_equal.
    assert (zlen buf ≤ zlen (take cap (buf ++ pending)) ≤ Z.of_nat cap) by len_lia.
    rewrite u32_small by lia. lia.
  - destruct pending; [|simpl in E; lia]. rewrite app_nil_r, take_ge by done. done.
Qed.

Lemma transform_loop_bounded cap src pending buf produced base :
  (length buf ≤ cap)%nat → Z.of_nat cap < 4294967296 →
  Forall (λ b, b ≠ newline) pending → 0 ≤ base → produced = zlen buf - base → 0 ≤ produced →
  transform_loop (bounded_emit cap) src pending buf produced =
    let out := take cap (buf ++ pending ++ expand_nl src) in (out, zlen out - base).
Proof.
  intros Hb Hcap. revert pending buf produced Hb.
  induction src as [|b src IH]; intros pending buf produced Hb Hnl Hbase Hprod Hpos;
    cbn [transform_loop expand_nl].
  { rewrite app_nil_r. by apply emit_pending. }
  destruct (Z.eqb_spec b newline) as [-> |Hne].
  - rewrite (emit_pending cap buf pending produced base) by done.
    set (buf1 := take cap (buf ++ pending)). assert (length buf1 ≤ cap)%nat as Hb1 by (unfold buf1; len_lia).
    assert (zlen buf ≤ zlen buf1) as Hmono by (unfold buf1; len_lia).
    rewrite bounded_emit_snd by done. set (buf2 := take cap (buf1 ++ [creturn; newline])).
    assert (length buf1 ≤ length buf2 ≤ cap)%nat as Hb2 by (unfold buf2; len_lia).
    replace (zlen buf1 - base + (zlen buf2 - zlen buf1)) with (zlen buf2 - base) by lia.
    rewrite u32_small by lia.
    assert (buf2 = take cap (buf ++ pending ++ [creturn; newline])) as Hbuf2.
    { unfold buf2, buf1. by rewrite take_take_app, <- (assoc_L (++)). }
    destruct (decide (zlen buf2 - zlen buf1 = 2)) as [Hw|Hw].
    + rewrite (proj2 (Z.eqb_eq _ _)) by done. cbn [negb].
      assert (length buf1 + 2 ≤ cap)%nat as Hroom by lia.
      assert (buf1 = buf ++ pending) as Hbuf1.
      { unfold buf1. destruct (decide (length (buf ++ pending) ≤ cap)%nat); [by apply take_ge|].
        unfold buf1 in Hroom. rewrite length_take in Hroom. lia. }
      rewrite (IH [] buf2 (zlen buf2 - base)) by (done || lia || constructor).
      assert (buf2 = buf1 ++ [creturn; newline]) as ->.
      { unfold buf2. rewrite take_ge; [done|]. rewrite length_app. simpl. lia. }
      rewrite Hbuf1, <- !(assoc_L (++)). done.
    + rewrite (proj2 (Z.eqb_neq _ _)) by done. cbn [negb].
      assert (take cap (buf ++ pending ++ creturn :: newline :: expand_nl src) = buf2) as ->; [|done].
      rewrite Hbuf2. change (creturn :: newline :: expand_nl src) with ([creturn; newline] ++ expand_nl src).
      rewrite (assoc_L (++) pending), (assoc_L (++) buf). apply take_app_le.
      destruct (decide (length (buf ++ pending) ≤ cap)%nat) as [Hle|Hle]; [|len_lia].
      assert (buf1 = buf ++ pending) as Hbuf1 by (by apply take_ge).
      unfold buf2 in Hw. rewrite length_take, length_app in Hw. simpl in Hw.
      rewrite (assoc_L (++)), <- Hbuf1, length_app. simpl. lia.
  - rewrite (IH (pending ++ [b]) buf produced); [|done| |done..].
    + by rewrite <- (assoc_L (++) pending).
    + apply Forall_app. split; [done|]. by constructor.
Qed.

(** Output processing: what reaches a sink with room for [cap] bytes is
    exactly the first [cap] bytes of what it held followed by the text with
    every newline expanded to CR LF (the text itself when OPOST or ONLCR is
    off), and the returned count is the number of bytes the sink took. *)
Theorem ldisc_write_transform_expands (ld : ldisc ringbuf) (src buf : list Z) (cap : nat) :
  src ≠ [] → (length buf ≤ cap)%nat → Z.of_nat cap < 4294967296 →
  let text := if opost_ (cfg_ ld) && onlcr_ (cfg_ ld) then expand_nl src else src in
  let out := take cap (buf ++ text) in
  ldisc_write_transform (Some ld) (Some src) (Some (bounded_emit cap)) buf =
    (out, zlen out - zlen buf).
Proof.
  intros Hsrc Hb Hcap text out. unfold ldisc_write_transform.
  rewrite (proj2 (Z.eqb_neq _ _)) by (destruct src; simpl; [done|lia]).
  subst out text. destruct (opost_ (cfg_ ld)), (onlcr_ (cfg_ ld)); cbn [negb orb andb].
  - rewrite (transform_loop_bounded cap src [] buf 0 (zlen buf)) by (done || lia || constructor).
    done.
  - by rewrite bounded_emit_snd.
  - by rewrite bounded_emit_snd.
  - by rewrite bounded_emit_snd.
Qed.

Lemma ldisc_write_transform_expands_witness :
  ldisc_write_transform (Some (small_ldisc default_config [] [])) (Some [97; 10; 98; 10])
    (Some (bounded_emit 7)) [1; 2] = ([1; 2; 97; 13; 10; 98; 13], 5).
Proof.
  apply (ldisc_write_transform_expands (small_ldisc default_config [] []) [97; 10; 98; 10] [1; 2] 7);
    [done|simpl; lia|lia].
Defined.

(** ** Raw mode *)

(** Raw mode with room in the receive ring. *)
Record raw_ok {R} `{ByteRing R} (ld : ldisc R) : Prop := {
  raw_raw : canonical_ (cfg_ ld) = false;
  raw_map b : map_input (cfg_ ld) b = Some b;
  raw_nosig : isig_ (cfg_ ld) = false;
  raw_rx : br_inv (rx_ring_ ld);
  raw_echo : br_inv (echo_ring_ ld)
}.

Section Raw.
Context {R : Type} `{ByteRingLaws R} (wq : bool).
Implicit Types ld : ldisc R.

Lemma queue_echo_raw ld b :
  br_inv (echo_ring_ ld) →
  ∃ ld', queue_echo_char_locked wq ld b = Ok ld' ∧ cfg_ ld' = cfg_ ld ∧
    rx_ring_ ld' = rx_ring_ ld ∧ br_inv (echo_ring_ ld').
Proof.
  intros He. unfold queue_echo_char_locked, queue_echo_bytes_locked. case_if; [by eexists|].
  destruct (br_write_ok (echo_ring_ ld) [b] 1 He) as (r & -> & Hinv & _); [simpl; lia|split; lia|].
  cbn [mbind res_bind]. eexists. split; [done|]. by destruct wq.
Qed.

(** One byte in raw mode: appended when the ring has room, refused otherwise. *)
Lemma receive_raw ld b :
  raw_ok ld → is_u8 b → zlen (br_view (rx_ring_ ld)) < br_capacity (rx_ring_ ld) →
  ∃ ld', receive_byte_locked wq ld b = Ok (ld', true) ∧ raw_ok ld' ∧ cfg_ ld' = cfg_ ld ∧
    br_view (rx_ring_ ld') = br_view (rx_ring_ ld) ++ [b] ∧
    br_capacity (rx_ring_ ld') = br_capacity (rx_ring_ ld).
Proof.
  intros [Hraw Hmap Hsig Hrx He] Hb Hroom. pose proof (Hmap b) as Hb'.
  unfold map_input in Hb'. unfold receive_byte_locked.
  destruct (igncr_ (cfg_ ld) && (b =? creturn)); [done|]. injection Hb' as ->.
  unfold try_isig_locked. rewrite Hsig. cbn [negb orb mbind res_bind]. rewrite Hraw. cbn [negb].
  pose proof (br_bound _ Hrx). rewrite br_free_ok by done. rewrite (proj2 (Z.eqb_neq _ _)) by lia.
  destruct (br_push_ok (rx_ring_ ld) b Hrx Hb Hroom) as (rx & -> & Hinv & Hview & Hcap).
  cbn [mbind res_bind].
  destruct (queue_echo_raw (set_rx rx ld) b) as (ld' & -> & Hcfg & Hrx' & He'); [done|].
  cbn [mbind res_bind]. exists ld'. rewrite Hrx'. simpl in Hcfg.
  split_and!; try done. split; rewrite ?Hcfg, ?Hrx'; done.
Qed.

Lemma receive_raw_refused ld b :
  raw_ok ld → zlen (br_view (rx_ring_ ld)) = br_capacity (rx_ring_ ld) →
  receive_byte_locked wq ld b = Ok (ld, false).
Proof.
  intros [Hraw Hmap Hsig Hrx He] Hfull. pose proof (Hmap b) as Hb'.
  unfold map_input in Hb'. unfold receive_byte_locked.
  destruct (igncr_ (cfg_ ld) && (b =? creturn)); [done|]. injection Hb' as ->.
  unfold try_isig_locked. rewrite Hsig. cbn [negb orb mbind res_bind]. rewrite Hraw. cbn [negb].
  rewrite br_free_ok by done. by rewrite (proj2 (Z.eqb_eq _ _)) by lia.
Qed.

Lemma receive_raw_bytes data ld n :
  raw_ok ld → Forall is_u8 data → 0 ≤ n → n + zlen data < 4294967296 →
  let k := Z.min (zlen data) (br_capacity (rx_ring_ ld) - zlen (br_view (rx_ring_ ld))) in
  ∃ ld', receive_bytes wq ld data n = Ok (ld', n + k) ∧ raw_ok ld' ∧ cfg_ ld' = cfg_ ld ∧
    br_view (rx_ring_ ld') = br_view (rx_ring_ ld) ++ take (Z.to_nat k) data.
Proof.
  revert ld n. induction data as [|b data IH]; intros ld n Hok Hd Hn Hlt k; cbn [receive_bytes].
  { exists ld. pose proof (br_bound _ (raw_rx _ Hok)). subst k. rewrite Z.min_l by (simpl; lia).
    split_and!; [do 2 f_equal; simpl; lia|done|done|by rewrite app_nil_r]. }
  inversion_clear Hd as [|? ? Hb Hd']. pose proof (br_bound _ (raw_rx _ Hok)) as Hbd. simpl in Hlt.
  destruct (decide (zlen (br_view (rx_ring_ ld)) = br_capacity (rx_ring_ ld))) as [Hfull|Hfull].
  { rewrite receive_raw_refused by done. exists ld. subst k. rewrite Z.min_r by (simpl; lia).
    rewrite Hfull, Z.sub_diag. split_and!; [simpl; do 2 f_equal; lia|done|done|by rewrite app_nil_r]. }
  destruct (receive_raw ld b Hok Hb) as (ld1 & -> & Hok1 & Hcfg1 & Hv1 & Hc1); [lia|].
  cbn [mbind res_bind]. rewrite u32_small by lia.
  destruct (IH ld1 (n + 1) Hok1 Hd') as (ld2 & -> & Hok2 & Hcfg2 & Hv2); [lia|lia|].
  rewrite Hv1, Hc1, length_app in *. cbn [length] in *. exists ld2.
  split_and!; [do 2 f_equal; subst k; simpl; lia|done|congruence|].
  rewrite Hv2, <- (assoc_L (++)). f_equal.
  assert (Z.to_nat k = S (Z.to_nat (zlen data `min`
    (br_capacity (rx_ring_ ld) - Z.of_nat (length (br_view (rx_ring_ ld)) + 1))))) as ->
    by (subst k; simpl; lia).
  done.
Qed.

(** With enough bytes buffered no variant of VMIN and VTIME waits. *)
Lemma raw_wait_ready fuel ld irq flags env :
  raw_ok ld → Z.max 1 (vmin_ (cfg_ ld)) ≤ zlen (br_view (rx_ring_ ld)) →
  0 ≤ vmin_ (cfg_ ld) → 0 ≤ vtime_ (cfg_ ld) → (0 < fuel)%nat →
  raw_wait wq fuel (RState ld irq flags false env) = Ok (RState ld irq flags false env).
Proof.
  intros [Hraw Hmap Hsig Hrx He] Hready Hv Ht Hf. unfold raw_wait, wait_for_data_locked. cbn [r_ld r_env].
  assert (∀ dl t, t ≤ zlen (br_view (rx_ring_ ld)) →
    wait_for_data wq env (RState ld irq flags false env) dl t = Ok (RState ld irq flags false env, true)) as Hw.
  { intros dl t Hle. destruct env; simpl; unfold data_ready;
      rewrite Hraw, br_size_ok, (proj2 (Z.leb_le _ _)) by done; done. }
  case_if; [done|]. case_if; [by rewrite Hw by lia|]. case_if; [by rewrite Hw by lia|].
  rewrite Hw by lia. cbn [mbind res_bind r_ld r_intr negb andb].
  case_if; [|done]. destruct fuel as [|fuel]; [lia|]. cbn [vmin_loop].
  rewrite br_size_ok by done. by rewrite (proj2 (Z.ltb_ge _ _)) by lia.
Qed.
End Raw.

(** Raw mode keeps bytes in order: after input [data] a read of [size]
    bytes returns the oldest buffered bytes, then the accepted prefix of
    [data], and never more than is there.  The input reports how much of
    [data] the ring had room for. *)
Theorem ldisc_raw_roundtrip (wq : bool) (ld : ldisc ringbuf) (data out : list Z) (size : Z) :
  raw_ok ld → data ≠ [] → Forall is_u8 data → zlen data < 4294967296 →
  0 ≤ vmin_ (cfg_ ld) → 0 ≤ vtime_ (cfg_ ld) → zlen out = size → 0 < size < 2147483648 →
  let k := Z.min (zlen data) (br_capacity (rx_ring_ ld) - zlen (br_view (rx_ring_ ld))) in
  let all := br_view (rx_ring_ ld) ++ take (Z.to_nat k) data in
  Z.max 1 (vmin_ (cfg_ ld)) ≤ zlen all →
  ∃ ld1 ld2, ldisc_receive wq (Some ld) (Some data) = Ok (Some ld1, k) ∧
    ldisc_read wq 1 [] true (Some ld1) (Some out) size =
      Ok (Some ld2, Some (take (Z.to_nat size) all ++ drop (length all) out), false,
          Z.min size (zlen all)) ∧
    br_view (rx_ring_ ld2) = drop (Z.to_nat size) all.
Proof.
  intros Hok Hne Hd Hlt Hv Ht Hout Hsize k all Hall.
  destruct (receive_raw_bytes wq data ld 0 Hok Hd) as (ld1 & Hr & Hok1 & Hcfg & Hview); [lia|lia|].
  fold k all in Hr, Hview. set (ld1' := add_event EvWakeReaders ld1).
  assert (raw_ok ld1') as Hok1' by (destruct Hok1; by split).
  assert (cfg_ ld1' = cfg_ ld) as Hcfg' by done.
  assert (br_view (rx_ring_ ld1') = all) as Hview' by done.
  destruct (br_read_ok (rx_ring_ ld1') out (Z.min size (zlen all)) (raw_rx _ Hok1'))
    as (rx & Hread & _ & Hrest & _); [lia|split; lia|].
  rewrite Hview' in Hread, Hrest. rewrite (Z.min_l (Z.min size (zlen all))) in Hread, Hrest by lia.
  exists ld1', (add_event EvWriteSem (set_rx rx ld1')). split_and!.
  - unfold ldisc_receive. rewrite (proj2 (Z.eqb_neq _ _)) by (destruct data; simpl; [done|lia]).
    rewrite Hr. done.
  - unfold ldisc_read. rewrite (proj2 (Z.eqb_neq _ _)) by lia. rewrite (raw_raw _ Hok1').
    rewrite raw_wait_ready by (rewrite ?Hcfg', ?Hview'; done || lia). cbn [mbind res_bind r_intr r_ld andb].
    unfold raw_take. rewrite br_size_ok, Hview' by (by destruct Hok1').
    replace (if size <? zlen all then size else zlen all) with (Z.min size (zlen all)) by (case_if; lia).
    rewrite Hread. cbn [mbind res_bind]. do 5 f_equal. f_equal.
    + destruct (decide (size ≤ zlen all)); [f_equal; lia|by rewrite !take_ge by lia].
    + destruct (decide (size ≤ zlen all)); [by rewrite !drop_ge by lia|f_equal; lia].
  - change (br_view rx = drop (Z.to_nat size) all). rewrite Hrest. destruct (decide (size ≤ zlen all)); [f_equal; lia|by rewrite !drop_ge by lia].
Qed.

Lemma ldisc_raw_roundtrip_witness :
  ∃ ld1 ld2,
    ldisc_receive true (Some (small_ldisc (raw_config 3 2) [1; 2] [])) (Some [3; 4; 5; 6; 7; 8; 9]) =
      Ok (Some ld1, 6) ∧
    ldisc_read true 1 [] true (Some ld1) (Some [0; 0; 0]) 3 = Ok (Some ld2, Some [1; 2; 3], false, 3) ∧
    br_view (rx_ring_ ld2) = [4; 5; 6; 7; 8].
Proof.
  assert (∀ buf, zlen buf = 8 → rb_ok (RingBuf buf 8 2 2 0) ∧ rb_ok (RingBuf buf 8 0 0 0)) as Hrb.
  { intros buf Hbuf. split; (split; [exact Hbuf|simpl; lia..|reflexivity]). }
  destruct (ldisc_raw_roundtrip true (small_ldisc (raw_config 3 2) [1; 2] []) [3; 4; 5; 6; 7; 8; 9] [0; 0; 0] 3)
    as (ld1 & ld2 & H1 & H2 & H3); [|done| |simpl; lia|simpl; lia|simpl; lia|done|lia| |].
  - split; [done|done|done|by apply Hrb|by apply Hrb].
  - forall_lia.
  - vm_compute. discriminate.
  - exists ld1, ld2. rewrite H1, H2, H3. split_and!; vm_compute; reflexivity.
Defined.
