(* ===== verification/RadixTree.v ===== *)
(** * The radix tree of [src/src/lib/radixtree.c]

    Nodes live in a store of cells indexed by their address, 0 is NULL, and a
    slot holds an address (of a child node, or the caller's value at the leaf
    level).  The node allocator is a parameter: it may fail at any call, and
    what the code relies on is that it returns the address of no live node.
    [call_rcu] takes the node out of the store, so a later access by the
    writer would be a [Fault].  The tree refines a finite map from keys to
    values ([rt_rep]); [KeyMap] is the interface the ID allocator uses. *)

From S2P Require Import Prelude.

Definition RADIX_TREE_MAP_SHIFT : Z := 6.
Definition RADIX_TREE_MAP_SIZE : Z := 64.
Definition RADIX_TREE_MAP_MASK : Z := 63.

Record radix_node := RNode {
  shift_ : Z; offset_ : Z; count_ : Z; parent_ : Z; slots_ : list Z
}.

Record radix_tree := RTree { root_ : Z; max_depth_ : Z }.

(** The live nodes, whether [g_radix_node_cache] exists, and how many
    allocations were tried. *)
Record node_store := Store {
  nodes : gmap Z radix_node; g_radix_node_cache : bool; alloc_calls : nat
}.

Definition node_get (st : node_store) (p : Z) : res radix_node :=
  if p =? 0 then Fault
  else match nodes st !! p with Some n => Ok n | None => Fault end.

Definition node_put (st : node_store) (p : Z) (n : radix_node) : node_store :=
  Store (<[p := n]> (nodes st)) (g_radix_node_cache st) (alloc_calls st).

(** [call_rcu(&node->rcu_, radix_node_free_rcu_cb)] *)
Definition node_free (st : node_store) (p : Z) : node_store :=
  Store (delete p (nodes st)) (g_radix_node_cache st) (alloc_calls st).

Definition set_count c n := RNode (shift_ n) (offset_ n) c (parent_ n) (slots_ n).
Definition set_link parent off n := RNode (shift_ n) off (count_ n) parent (slots_ n).

(** [rcu_ptr_assign(&node->slots_[i], v)] *)
Definition set_slot (i v : Z) (n : radix_node) : res radix_node :=
  s ← arr_set (slots_ n) i v; Ok (RNode (shift_ n) (offset_ n) (count_ n) (parent_ n) s).

Definition max_key_for_shift (shift : Z) : Z :=
  let total_bits := u32 (shift + RADIX_TREE_MAP_SHIFT) in
  if 32 <=? total_bits then 0xFFFFFFFF else u32 (Z.shiftl 1 total_bits) - 1.

(** [(key >> shift) & RADIX_TREE_MAP_MASK] *)
Definition key_offset (key shift : Z) : Z := Z.land (Z.shiftr key shift) RADIX_TREE_MAP_MASK.

(** A tree over 32-bit keys has at most six levels. *)
Definition levels : nat := 7.

Section Operations.
(** [kmem_cache_create] and [kmem_cache_alloc]: the [n]-th allocation with
    the live nodes given. *)
Context (kmem_cache_create : bool) (kmem_cache_alloc : nat → gmap Z radix_node → option Z).

Definition ensure_cache_initialized (st : node_store) : res node_store :=
  if g_radix_node_cache st then Ok st
  else if kmem_cache_create then Ok (Store (nodes st) true (alloc_calls st))
  else Panic.

(** Returns 0 when the allocation fails. *)
Definition radix_node_alloc (st : node_store) : res (node_store * Z) :=
  st ← ensure_cache_initialized st;
  let st' := Store (nodes st) (g_radix_node_cache st) (S (alloc_calls st)) in
  match kmem_cache_alloc (alloc_calls st) (nodes st) with
  | None => Ok (st', 0)
  | Some p => Ok (node_put st' p (RNode 0 0 0 0 (replicate 64 0)), p)
  end.

Fixpoint grow_loop (fuel : nat) (st : node_store) (t : radix_tree) (root current_shift key : Z)
    : res (node_store * radix_tree * option Z) :=
  match fuel with
  | O => Timeout
  | S fuel =>
      if max_key_for_shift current_shift <? key then
        '(st, new_root) ← radix_node_alloc st;
        if new_root =? 0 then Ok (st, t, None) else
        n ← node_get st new_root;
        let n := RNode (u8 (current_shift + RADIX_TREE_MAP_SHIFT)) 0 0 0 (slots_ n) in
        let st := node_put st new_root n in
        '(st, n) ←
          (if negb (root =? 0) then
             r ← node_get st root;
             let st := node_put st root (set_link new_root 0 r) in
             n ← node_get st new_root;
             n ← set_slot 0 root n;
             let n := set_count 1 n in
             Ok (node_put st new_root n, n)
           else Ok (st, n));
        let t := RTree new_root (u32 (max_depth_ t + 1)) in
        grow_loop fuel st t new_root (shift_ n) key
      else Ok (st, t, Some root)
  end.

Definition radix_tree_grow (st : node_store) (t : radix_tree) (key : Z)
    : res (node_store * radix_tree * Z) :=
  let root := root_ t in
  current_shift ← (if negb (root =? 0) then n ← node_get st root; Ok (shift_ n) else Ok 0);
  '(st, t, r) ← grow_loop levels st t root current_shift key;
  match r with
  | None => Ok (st, t, -1)
  | Some root =>
      if root =? 0 then
        '(st, initial_root) ← radix_node_alloc st;
        if initial_root =? 0 then Ok (st, t, -1) else
        n ← node_get st initial_root;
        Ok (node_put st initial_root (RNode 0 0 0 0 (slots_ n)), RTree initial_root 1, 0)
      else Ok (st, t, 0)
  end.

Fixpoint shrink_loop (fuel : nat) (st : node_store) (t : radix_tree) : res (node_store * radix_tree) :=
  match fuel with
  | O => Timeout
  | S fuel =>
      let root := root_ t in
      if root =? 0 then Ok (st, t) else
      r ← node_get st root;
      if negb (count_ r =? 1) || (shift_ r =? 0) then Ok (st, t) else
      child ← arr_get (slots_ r) 0;
      if child =? 0 then Ok (st, t) else
      c ← node_get st child;
      let st := node_put st child (set_link 0 0 c) in
      let t := RTree child (u32 (max_depth_ t - 1)) in
      shrink_loop fuel (node_free st root) t
  end.

Definition radix_tree_shrink (st : node_store) (t : radix_tree) : res (node_store * radix_tree) :=
  shrink_loop levels st t.

Definition radix_tree_init : radix_tree := RTree 0 0.

Definition radix_tree_destroy (t : option radix_tree) : res (option radix_tree) :=
  match t with
  | None => Ok None
  | Some t => if negb (root_ t =? 0) then Panic else Ok (Some (RTree (root_ t) 0))
  end.

(** The descent of [radix_tree_insert]; [None] when an allocation fails. *)
Fixpoint insert_descend (fuel : nat) (st : node_store) (current key : Z) : res (node_store * option Z) :=
  match fuel with
  | O => Timeout
  | S fuel =>
      n ← node_get st current;
      if 0 <? shift_ n then
        let shift := shift_ n in
        let offset := u8 (key_offset key shift) in
        child ← arr_get (slots_ n) offset;
        if child =? 0 then
          '(st, child) ← radix_node_alloc st;
          if child =? 0 then Ok (st, None) else
          c ← node_get st child;
          let st := node_put st child
            (RNode (u8 (shift - RADIX_TREE_MAP_SHIFT)) offset (count_ c) current (slots_ c)) in
          n ← node_get st current;
          n ← set_slot offset child n;
          let st := node_put st current (set_count (u16 (count_ n + 1)) n) in
          insert_descend fuel st child key
        else insert_descend fuel st child key
      else Ok (st, Some current)
  end.

Definition radix_tree_insert (st : node_store) (t : option radix_tree) (key value : Z)
    : res (node_store * option radix_tree * Z) :=
  match t with
  | None => Ok (st, t, -1)
  | Some t =>
      if value =? 0 then Ok (st, Some t, -1) else
      '(st, t, rc) ← radix_tree_grow st t key;
      if negb (rc =? 0) then Ok (st, Some t, -1) else
      '(st, leaf) ← insert_descend levels st (root_ t) key;
      match leaf with
      | None => Ok (st, Some t, -1)
      | Some current =>
          let leaf_offset := u8 (Z.land key RADIX_TREE_MAP_MASK) in
          n ← node_get st current;
          existing ← arr_get (slots_ n) leaf_offset;
          if negb (existing =? 0) then Ok (st, Some t, -1) else
          n ← set_slot leaf_offset value n;
          Ok (node_put st current (set_count (u16 (count_ n + 1)) n), Some t, 0)
      end
  end.

(** The descent of [radix_tree_lookup] and [radix_tree_remove]: 0 is a
    missing node. *)
Fixpoint lookup_descend (fuel : nat) (st : node_store) (current key : Z) : res Z :=
  match fuel with
  | O => Timeout
  | S fuel =>
      n ← node_get st current;
      if 0 <? shift_ n then
        child ← arr_get (slots_ n) (u8 (key_offset key (shift_ n)));
        if child =? 0 then Ok 0 else lookup_descend fuel st child key
      else Ok current
  end.

Definition radix_tree_lookup (st : node_store) (t : option radix_tree) (key : Z) : res Z :=
  match t with
  | None => Ok 0
  | Some t =>
      if root_ t =? 0 then Ok 0 else
      r ← node_get st (root_ t);
      if max_key_for_shift (shift_ r) <? key then Ok 0 else
      current ← lookup_descend levels st (root_ t) key;
      if current =? 0 then Ok 0 else
      n ← node_get st current;
      arr_get (slots_ n) (u8 (Z.land key RADIX_TREE_MAP_MASK))
  end.

(** [for (i = start; i < RADIX_TREE_MAP_SIZE; i++)] up to the first slot that
    is not NULL. *)
Fixpoint scan_slots (k : nat) (slots : list Z) (i : Z) : res (option (Z * Z)) :=
  match k with
  | O => Ok None
  | S k =>
      if i <? RADIX_TREE_MAP_SIZE then
        v ← arr_get slots i;
        if negb (v =? 0) then Ok (Some (i, v)) else scan_slots k slots (u8 (i + 1))
      else Ok None
  end.

Inductive fn_out := FnLeaf (leaf key : Z) | FnRestart (key : Z) | FnNull.

(** One descent of [radix_tree_find_next] from the root. *)
Fixpoint find_descend (fuel : nat) (st : node_store) (current key : Z) : res fn_out :=
  match fuel with
  | O => Timeout
  | S fuel =>
      n ← node_get st current;
      if 0 <? shift_ n then
        let shift := shift_ n in
        let offset := u8 (key_offset key shift) in
        r ← scan_slots 64 (slots_ n) offset;
        match r with
        | Some (i, child) =>
            let mask := u64 (u64 (Z.shiftl 1 (shift + RADIX_TREE_MAP_SHIFT)) - 1) in
            let key := if offset <? i
                       then u32 (Z.lor (Z.land key (u64 (Z.lnot mask))) (u64 (Z.shiftl i shift)))
                       else key in
            find_descend fuel st child key
        | None =>
            let parent_shift := u8 (shift + RADIX_TREE_MAP_SHIFT) in
            if 32 <=? parent_shift then Ok FnNull else
            let step := u64 (Z.shiftl 1 parent_shift) in
            let next_key := u64 (Z.land key (u64 (Z.lnot (u64 (step - 1)))) + step) in
            if 0xFFFFFFFF <? next_key then Ok FnNull else Ok (FnRestart (u32 next_key))
        end
      else Ok (FnLeaf current key)
  end.

(** [restart:]; the result is the value and the key stored to [*inout_key]. *)
Fixpoint find_next_loop (fuel : nat) (st : node_store) (t : radix_tree) (key : Z) : res (option (Z * Z)) :=
  match fuel with
  | O => Timeout
  | S fuel =>
      if root_ t =? 0 then Ok None else
      r ← node_get st (root_ t);
      if max_key_for_shift (shift_ r) <? key then Ok None else
      o ← find_descend levels st (root_ t) key;
      match o with
      | FnNull => Ok None
      | FnRestart key => find_next_loop fuel st t key
      | FnLeaf current key =>
          n ← node_get st current;
          let leaf_offset := u8 (Z.land key RADIX_TREE_MAP_MASK) in
          r ← scan_slots 64 (slots_ n) leaf_offset;
          let base := Z.land key (u32 (Z.lnot RADIX_TREE_MAP_MASK)) in
          match r with
          | Some (i, value) => Ok (Some (value, Z.lor base i))
          | None =>
              let next_leaf_key := u64 (base + RADIX_TREE_MAP_SIZE) in
              if 0xFFFFFFFF <? next_leaf_key then Ok None
              else find_next_loop fuel st t (u32 next_leaf_key)
          end
      end
  end.

(** The returned pointer and [*inout_key] afterwards. *)
Definition radix_tree_find_next (fuel : nat) (st : node_store) (t : option radix_tree)
    (inout_key : option Z) : res (Z * option Z) :=
  match t, inout_key with
  | Some t, Some key =>
      r ← find_next_loop fuel st t key;
      match r with
      | Some (value, key) => Ok (value, Some key)
      | None => Ok (0, inout_key)
      end
  | _, _ => Ok (0, inout_key)
  end.

(** [while (current->count_ == 0u)]: empty nodes are unlinked upwards. *)
Fixpoint remove_up (fuel : nat) (st : node_store) (t : radix_tree) (current : Z)
    : res (node_store * radix_tree) :=
  match fuel with
  | O => Timeout
  | S fuel =>
      n ← node_get st current;
      if count_ n =? 0 then
        let parent := parent_ n in
        if parent =? 0 then Ok (node_free st current, RTree 0 0)
        else
          p ← node_get st parent;
          p ← set_slot (offset_ n) 0 p;
          let st := node_put st parent (set_count (u16 (count_ p - 1)) p) in
          remove_up fuel (node_free st current) t parent
      else Ok (st, t)
  end.

Definition radix_tree_remove (st : node_store) (t : option radix_tree) (key : Z)
    : res (node_store * option radix_tree * Z) :=
  match t with
  | None => Ok (st, t, 0)
  | Some t =>
      if root_ t =? 0 then Ok (st, Some t, 0) else
      r ← node_get st (root_ t);
      if max_key_for_shift (shift_ r) <? key then Ok (st, Some t, 0) else
      current ← lookup_descend levels st (root_ t) key;
      if current =? 0 then Ok (st, Some t, 0) else
      let leaf_offset := u8 (Z.land key RADIX_TREE_MAP_MASK) in
      n ← node_get st current;
      value ← arr_get (slots_ n) leaf_offset;
      if value =? 0 then Ok (st, Some t, 0) else
      n ← set_slot leaf_offset 0 n;
      let st := node_put st current (set_count (u16 (count_ n - 1)) n) in
      '(st, t) ← remove_up levels st t current;
      '(st, t) ← (if negb (root_ t =? 0) then radix_tree_shrink st t else Ok (st, t));
      Ok (st, Some t, value)
  end.
End Operations.

(** ** Keys and levels

    A node of level [l] (its [shift_] is [6 * l]) with prefix [p] covers the
    keys [k] with [k / span l = p]. *)

Definition span (l : nat) : Z := 2 ^ (6 * Z.of_nat l + 6).
Definition pre (key : Z) (l : nat) : Z := key / span l.

Lemma span_0 : span 0 = 64.
Proof. done. Qed.

Lemma span_S l : span (S l) = 64 * span l.
Proof.
  unfold span. replace (6 * Z.of_nat (S l) + 6) with (6 + (6 * Z.of_nat l + 6)) by lia.
  rewrite Z.pow_add_r by lia. done.
Qed.

Lemma span_pos l : 0 < span l.
Proof. unfold span. apply Z.pow_pos_nonneg; lia. Qed.

Lemma pre_S key l : pre key (S l) = pre key l / 64.
Proof.
  unfold pre. rewrite span_S, (Z.mul_comm 64), <- Z.div_div; [done| |lia].
  pose proof (span_pos l). lia.
Qed.

Lemma pre_0 key : pre key 0 = key / 64.
Proof. done. Qed.

Lemma pre_nonneg key l : 0 ≤ key → 0 ≤ pre key l.
Proof. intros. apply Z.div_pos; [done|apply span_pos]. Qed.

Lemma key_offset_pre key l : 0 ≤ key → u8 (key_offset key (6 * Z.of_nat (S l))) = pre key l `mod` 64.
Proof.
  intros Hk. unfold key_offset. change RADIX_TREE_MAP_MASK with (Z.ones 6).
  rewrite Z.land_ones, Z.shiftr_div_pow2 by lia. change (2 ^ 6) with 64.
  unfold pre, span. replace (6 * Z.of_nat l + 6) with (6 * Z.of_nat (S l)) by lia.
  rewrite u8_small; [done|]. pose proof (Z.mod_pos_bound (key / 2 ^ (6 * Z.of_nat (S l))) 64). lia.
Qed.

Lemma leaf_offset_mod key : u8 (Z.land key RADIX_TREE_MAP_MASK) = key `mod` 64.
Proof.
  change RADIX_TREE_MAP_MASK with (Z.ones 6). rewrite Z.land_ones by lia. change (2 ^ 6) with 64.
  rewrite u8_small; [done|]. pose proof (Z.mod_pos_bound key 64). lia.
Qed.

(** [key > max_key_for_shift(shift)] asks whether the key needs more levels. *)
Lemma max_key_spec key l :
  is_u32 key → (l ≤ 5)%nat → (max_key_for_shift (6 * Z.of_nat l) <? key) = negb (pre key l =? 0).
Proof.
  intros [Hk0 Hk] Hl. unfold max_key_for_shift, pre, RADIX_TREE_MAP_SHIFT.
  do 6 (destruct l as [|l];
    [match goal with |- context [span ?l] => let v := eval vm_compute in (span l) in change (span l) with v end;
     match goal with |- (?a <? key) = _ => let v := eval vm_compute in a in change a with v end;
     apply Bool.eq_iff_eq_true; rewrite Z.ltb_lt, negb_true_iff, Z.eqb_neq;
     Z.to_euclidean_division_equations; lia|]).
  lia.
Qed.

(** ** Counting the slots in use *)

Fixpoint nz_count (l : list Z) : Z :=
  match l with [] => 0 | x :: l => (if x =? 0 then 0 else 1) + nz_count l end.

Lemma nz_count_bound l : 0 ≤ nz_count l ≤ zlen l.
Proof. induction l as [|x l IH]; simpl; [lia|]. case_if; lia. Qed.

Lemma nz_count_insert l i x y :
  l !! i = Some y →
  nz_count (<[i := x]> l) = nz_count l - (if y =? 0 then 0 else 1) + (if x =? 0 then 0 else 1).
Proof.
  revert i. induction l as [|z l IH]; intros [|i] Hi; simpl in *; try done.
  - injection Hi as ->. repeat case_if; lia.
  - rewrite (IH i Hi). lia.
Qed.

Lemma nz_count_zero l i y : nz_count l = 0 → l !! i = Some y → y = 0.
Proof.
  revert i. induction l as [|z l IH]; intros [|i] Hc Hi; simpl in *; try done;
    pose proof (nz_count_bound l); destruct (Z.eqb_spec z 0); simplify_eq; try lia; eauto with lia.
Qed.

Lemma nz_count_one l i j x y :
  nz_count l = 1 → l !! i = Some x → l !! j = Some y → x ≠ 0 → y ≠ 0 → i = j.
Proof.
  revert i j. induction l as [|z l IH]; intros [|i] [|j] Hc Hi Hj Hx Hy; simpl in *; try done;
    pose proof (nz_count_bound l); simplify_eq.
  - rewrite (proj2 (Z.eqb_neq _ 0)) in Hc by done.
    destruct (Hy (nz_count_zero l j y ltac:(lia) Hj)).
  - rewrite (proj2 (Z.eqb_neq _ 0)) in Hc by done.
    destruct (Hx (nz_count_zero l i x ltac:(lia) Hi)).
  - f_equal. destruct (Z.eqb_spec z 0); [by apply (IH i j)|].
    destruct (Hx (nz_count_zero l i x ltac:(lia) Hi)).
Qed.

Lemma nz_count_replicate n : nz_count (replicate n 0) = 0.
Proof. induction n; simpl; lia. Qed.

(** ** The representation invariant

    [G] maps the level and prefix of every node to its address. *)

Abbreviation layout := (gmap (nat * Z) Z).

Definition gp (G : layout) (l : nat) (p : Z) : Z := default 0 (G !! (l, p)).

Record node_ok (G : layout) (top l : nat) (p : Z) (n : radix_node) : Prop := {
  no_shift : shift_ n = 6 * Z.of_nat l;
  no_offset : offset_ n = p `mod` 64;
  no_parent : parent_ n = if decide (l = top) then 0 else gp G (S l) (p / 64);
  no_len : length (slots_ n) = 64%nat;
  no_count : count_ n = nz_count (slots_ n);
  no_kids l' i : l = S l' → 0 ≤ i < 64 → slots_ n !! Z.to_nat i = Some (gp G l' (64 * p + i))
}.

Record rt_shape (ns : gmap Z radix_node) (root : Z) (top : nat) (G : layout) : Prop := {
  rs_top : (top ≤ 5)%nat;
  rs_root : root = gp G top 0;
  rs_empty : root = 0 → G = ∅;
  rs_inj x y a : G !! x = Some a → G !! y = Some a → x = y;
  rs_nonnull l p a : G !! (l, p) = Some a → a ≠ 0;
  rs_node l p a : G !! (l, p) = Some a → ∃ n, ns !! a = Some n ∧ node_ok G top l p n;
  rs_up l p a : G !! (l, p) = Some a →
    (l = top ∧ p = 0) ∨ ((l < top)%nat ∧ is_Some (G !! (S l, p / 64)));
  rs_range l p a : G !! (l, p) = Some a → 0 ≤ p ∧ p * span l < 4294967296;
  rs_dom a : is_Some (ns !! a) → ∃ l p, G !! (l, p) = Some a
}.

(** The finite map stored in the leaves. *)
Definition rt_content (ns : gmap Z radix_node) (G : layout) (M : gmap Z Z) : Prop :=
  ∀ k v, M !! k = Some v ↔
    ∃ a n, G !! (0%nat, k / 64) = Some a ∧ ns !! a = Some n ∧
           slots_ n !! Z.to_nat (k `mod` 64) = Some v ∧ v ≠ 0.

Definition rt_rep (st : node_store) (t : radix_tree) (M : gmap Z Z) : Prop :=
  ∃ top G, rt_shape (nodes st) (root_ t) top G ∧ rt_content (nodes st) G M.

Section Shape.
Context (ns : gmap Z radix_node) (root : Z) (top : nat) (G : layout) (HS : rt_shape ns root top G).

Lemma gp_some l p a : G !! (l, p) = Some a → gp G l p = a.
Proof. unfold gp. by intros ->. Qed.

Lemma gp_nonzero l p : gp G l p ≠ 0 → G !! (l, p) = Some (gp G l p).
Proof. unfold gp. by destruct (G !! (l, p)). Qed.

Lemma gp_zero l p : gp G l p = 0 → G !! (l, p) = None.
Proof.
  unfold gp. destruct (G !! (l, p)) as [a|] eqn:E; [|done].
  intros Ha. by destruct (rs_nonnull _ _ _ _ HS _ _ _ E).
Qed.

Lemma shape_level l p a : G !! (l, p) = Some a → (l ≤ top)%nat.
Proof. intros H. destruct (rs_up _ _ _ _ HS _ _ _ H) as [[-> _]|[? _]]; lia. Qed.

Lemma shape_get l p a :
  G !! (l, p) = Some a → ∃ n, (a =? 0) = false ∧ ns !! a = Some n ∧ node_ok G top l p n.
Proof.
  intros H. destruct (rs_node _ _ _ _ HS _ _ _ H) as (n & Hn & Hok). exists n.
  split; [|done]. apply Z.eqb_neq. by eapply rs_nonnull.
Qed.

(** Every node below the root hangs under one of its slots. *)
Lemma shape_ancestor l p a :
  G !! (l, p) = Some a → (l < top)%nat →
  ∃ p' a', G !! (pred top, p') = Some a' ∧ p' / 64 = 0 ∧ (l = pred top → p = p').
Proof.
  intros H Hl. remember (top - l)%nat as d eqn:Hd. revert l p a H Hl Hd.
  induction d as [|d IH]; intros l p a H Hl Hd; [lia|].
  destruct (decide (l = pred top)) as [->|Hne].
  - exists p, a. split; [done|]. split; [|done].
    destruct (rs_up _ _ _ _ HS _ _ _ H) as [[? _]|[_ [b Hb]]]; [lia|].
    destruct (rs_up _ _ _ _ HS _ _ _ Hb) as [[_ ->]|[? _]]; [done|lia].
  - destruct (rs_up _ _ _ _ HS _ _ _ H) as [[? _]|[_ [b Hb]]]; [lia|].
    destruct (IH (S l) (p / 64) b Hb) as (p' & a' & Ha' & Hp' & _); [lia|lia|].
    exists p', a'. split_and!; [done|done|]. lia.
Qed.

Lemma root_slot n i :
  (0 < top)%nat → ns !! root = Some n → root ≠ 0 → 0 ≤ i < 64 →
  slots_ n !! Z.to_nat i = Some (gp G (pred top) i).
Proof.
  intros Ht Hn Hr Hi. pose proof (rs_root _ _ _ _ HS) as Hroot.
  assert (G !! (top, 0) = Some root) as HG by (rewrite Hroot; apply gp_nonzero; congruence).
  destruct (rs_node _ _ _ _ HS _ _ _ HG) as (n' & Hn' & Hok). rewrite Hn in Hn'. injection Hn' as <-.
  rewrite (no_kids _ _ _ _ _ Hok (pred top) i) by lia. done.
Qed.
End Shape.

(** A node keeps its invariant when its relatives keep their places. *)
Lemma node_ok_ext G G' top top' l p n :
  node_ok G top l p n →
  (if decide (l = top) then 0 else gp G (S l) (p / 64)) =
    (if decide (l = top') then 0 else gp G' (S l) (p / 64)) →
  (∀ l' i, l = S l' → 0 ≤ i < 64 → gp G' l' (64 * p + i) = gp G l' (64 * p + i)) →
  node_ok G' top' l p n.
Proof.
  intros [] Hp Hk. split; try done; [congruence|]. intros l' i Hl Hi. rewrite Hk by done. by apply no_kids0.
Qed.

Lemma gp_insert_ne (G : layout) l p a l2 p2 :
  (l2, p2) ≠ (l, p) → gp (<[(l, p) := a]> G) l2 p2 = gp G l2 p2.
Proof. intros. unfold gp. by rewrite lookup_insert_ne. Qed.

Lemma gp_delete_ne (G : layout) l p l2 p2 :
  (l2, p2) ≠ (l, p) → gp (delete (l, p) G) l2 p2 = gp G l2 p2.
Proof. intros. unfold gp. by rewrite lookup_delete_ne. Qed.

Lemma child_div p i : 0 ≤ i < 64 → (64 * p + i) / 64 = p ∧ (64 * p + i) `mod` 64 = i.
Proof. intros. Z.to_euclidean_division_equations; lia. Qed.

Lemma div_child p : p = 64 * (p / 64) + p `mod` 64 ∧ 0 ≤ p `mod` 64 < 64.
Proof. Z.to_euclidean_division_equations; lia. Qed.

(** *** Changing one node *)

(** A leaf with one slot changed. *)
Lemma shape_leaf ns root top G k a n v :
  rt_shape ns root top G → G !! (0%nat, k / 64) = Some a → ns !! a = Some n →
  rt_shape (<[a := RNode (shift_ n) (offset_ n) (nz_count (<[Z.to_nat (k `mod` 64) := v]> (slots_ n)))
                     (parent_ n) (<[Z.to_nat (k `mod` 64) := v]> (slots_ n))]> ns) root top G.
Proof.
  intros HS HG Hn. destruct HS as [S1 S2 S3 S4 S5 S6 S7 S8 S9] eqn:Heq. clear Heq. split; try done.
  - intros l p b Hb. destruct (decide (b = a)) as [->|Hne].
    + rewrite lookup_insert_eq. eexists. split; [done|].
      pose proof (S4 _ _ _ HG Hb) as [= <- <-].
      destruct (S6 _ _ _ HG) as (n' & Hn' & []). rewrite Hn in Hn'. injection Hn' as <-.
      split; simpl; try done. by rewrite length_insert.
    + rewrite lookup_insert_ne by done. by apply S6.
  - intros b. rewrite lookup_insert. case_decide as Hb; [|apply S9]. intros _. subst b. eauto.
Qed.

Lemma content_leaf ns G M k a n v top root :
  rt_shape ns root top G → rt_content ns G M → G !! (0%nat, k / 64) = Some a → ns !! a = Some n →
  rt_content (<[a := RNode (shift_ n) (offset_ n) (nz_count (<[Z.to_nat (k `mod` 64) := v]> (slots_ n)))
                       (parent_ n) (<[Z.to_nat (k `mod` 64) := v]> (slots_ n))]> ns) G
    (if v =? 0 then delete k M else <[k := v]> M).
Proof.
  intros HS HM HG Hn k' v'.
  destruct (shape_get _ _ _ _ HS _ _ _ HG) as (n' & _ & Hn' & Hok). rewrite Hn in Hn'. injection Hn' as <-.
  pose proof (div_child k) as [Hk Hkm]. pose proof (div_child k') as [Hk' Hkm'].
  assert (length (slots_ n) = 64%nat) as Hlen by apply Hok.
  destruct (decide (k' = k)) as [->|Hne].
  - assert ((if v =? 0 then delete k M else <[k:=v]> M) !! k = if v =? 0 then None else Some v) as ->.
    { case_if; [by rewrite lookup_delete_eq|by rewrite lookup_insert_eq]. }
    split.
    + case_if; [done|]. intros [= <-]. eexists a, _. rewrite lookup_insert_eq. split_and!; [done|done| |done].
      simpl. apply list_lookup_insert_eq. lia.
    + intros (a' & n' & Ha' & Hn' & Hs & Hv). rewrite HG in Ha'. injection Ha' as <-.
      rewrite lookup_insert_eq in Hn'. injection Hn' as <-. simpl in Hs.
      rewrite list_lookup_insert_eq in Hs by lia. injection Hs as ->. by rewrite (proj2 (Z.eqb_neq _ _)).
  - assert ((if v =? 0 then delete k M else <[k:=v]> M) !! k' = M !! k') as ->.
    { case_if; [by rewrite lookup_delete_ne|by rewrite lookup_insert_ne]. }
    rewrite (HM k' v'). split; intros (a' & n' & Ha' & Hn' & Hs & Hv); exists a'.
    + destruct (decide (a' = a)) as [->|Hna].
      * rewrite Hn in Hn'. injection Hn' as <-. pose proof (rs_inj _ _ _ _ HS _ _ _ HG Ha') as [= Hp].
        eexists. rewrite lookup_insert_eq. split_and!; [done|done| |done].
        simpl. rewrite list_lookup_insert_ne by lia. done.
      * exists n'. by rewrite lookup_insert_ne.
    + destruct (decide (a' = a)) as [->|Hna].
      * rewrite lookup_insert_eq in Hn'. injection Hn' as <-. simpl in Hs.
        pose proof (rs_inj _ _ _ _ HS _ _ _ HG Ha') as [= Hp].
        rewrite list_lookup_insert_ne in Hs by lia. by exists n.
      * rewrite lookup_insert_ne in Hn' by done. by exists n'.
Qed.

(** Two layouts whose leaves with values agree store the same map. *)
Definition leaves_sub (ns : gmap Z radix_node) (G : layout) (ns' : gmap Z radix_node) (G' : layout) : Prop :=
  ∀ p a n, G !! (0%nat, p) = Some a → ns !! a = Some n → nz_count (slots_ n) ≠ 0 →
    G' !! (0%nat, p) = Some a ∧ ∃ n', ns' !! a = Some n' ∧ slots_ n' = slots_ n.

Lemma content_ext ns ns' G G' M :
  leaves_sub ns G ns' G' → leaves_sub ns' G' ns G → rt_content ns G M → rt_content ns' G' M.
Proof.
  intros H1 H2 HM k v. rewrite (HM k v).
  assert (∀ ns ns' G G', leaves_sub ns G ns' G' →
    (∃ a n, G !! (0%nat, k / 64) = Some a ∧ ns !! a = Some n ∧
       slots_ n !! Z.to_nat (k `mod` 64) = Some v ∧ v ≠ 0) →
    (∃ a n, G' !! (0%nat, k / 64) = Some a ∧ ns' !! a = Some n ∧
       slots_ n !! Z.to_nat (k `mod` 64) = Some v ∧ v ≠ 0)) as Hsub.
  { intros ns1 ns2 G1 G2 H (a & n & Ha & Hn & Hs & Hv).
    destruct (H _ _ _ Ha Hn) as (Ha' & n' & Hn' & Hsl).
    { intros Hz. destruct Hv. by eapply nz_count_zero. }
    exists a, n'. rewrite Hsl. done. }
  split; by apply Hsub.
Qed.

(** *** Adding a node *)

Section AddChild.
Context (ns : gmap Z radix_node) (root : Z) (top : nat) (G : layout) (HS : rt_shape ns root top G).
Context (l : nat) (p pa a : Z) (np : radix_node).
Context (Hpa : G !! (S l, p / 64) = Some pa) (Hnp : ns !! pa = Some np) (Hnone : G !! (l, p) = None).
Context (Ha0 : a ≠ 0) (Ha : ns !! a = None) (Hp : 0 ≤ p) (Hrange : p * span l < 4294967296).

Let np' := RNode (shift_ np) (offset_ np) (count_ np + 1) (parent_ np) (<[Z.to_nat (p `mod` 64) := a]> (slots_ np)).
Let nc := RNode (6 * Z.of_nat l) (p `mod` 64) 0 pa (replicate 64 0).
Let ns' := <[pa := np']> (<[a := nc]> ns).
Let G' : layout := <[(l, p) := a]> G.

Lemma add_child_fresh x : G !! x ≠ Some a.
Proof.
  destruct x as [l2 p2]. intros H. destruct (rs_node _ _ _ _ HS _ _ _ H) as (n & Hn & _). congruence.
Qed.

Lemma add_child_pa : pa ≠ a.
Proof. intros ->. by apply (add_child_fresh (S l, p / 64)). Qed.

Lemma add_child_level : (l < top)%nat.
Proof. pose proof (shape_level _ _ _ _ HS _ _ _ Hpa). lia. Qed.

Lemma add_child_parent_ok : node_ok G' top (S l) (p / 64) np'.
Proof.
  destruct (rs_node _ _ _ _ HS _ _ _ Hpa) as (n & Hn & []). rewrite Hnp in Hn. injection Hn as <-.
  pose proof (div_child p) as [Hpe Hpm].
  assert (slots_ np !! Z.to_nat (p `mod` 64) = Some 0) as Hslot.
  { rewrite (no_kids0 l) by done. rewrite <- Hpe. unfold gp. by rewrite Hnone. }
  split; unfold np'; cbn [shift_ offset_ parent_ slots_ count_]; try done.
  - rewrite no_parent0. case_decide; [done|]. unfold G'. rewrite gp_insert_ne; [done|].
    intros [= ? ?]. lia.
  - by rewrite length_insert.
  - rewrite (nz_count_insert _ _ _ _ Hslot), no_count0, (proj2 (Z.eqb_neq a 0)) by done. simpl. lia.
  - intros l' i [= <-] Hi. destruct (decide (i = p `mod` 64)) as [->|Hne].
    + rewrite list_lookup_insert_eq by lia. rewrite <- Hpe. unfold gp, G'. by rewrite lookup_insert_eq.
    + rewrite list_lookup_insert_ne by lia. rewrite (no_kids0 l) by done.
      unfold G'. rewrite gp_insert_ne; [done|]. intros [= Hq]. lia.
Qed.

Lemma add_child_new_ok : node_ok G' top l p nc.
Proof.
  pose proof add_child_level as Hl.
  split; unfold nc; cbn [shift_ offset_ parent_ slots_ count_]; try done.
  - rewrite decide_False by lia. unfold G'. rewrite gp_insert_ne by (intros [= ? ?]; lia).
    symmetry. by apply gp_some.
  - intros l' i -> Hi. rewrite lookup_replicate_2 by lia. f_equal. unfold gp, G'.
    rewrite lookup_insert_ne by (intros [= ? ?]; lia).
    destruct (G !! (l', 64 * p + i)) as [b|] eqn:Hb; [exfalso|done].
    destruct (rs_up _ _ _ _ HS _ _ _ Hb) as [[? _]|[_ Hs]]; [lia|].
    rewrite (proj1 (child_div p i Hi)), Hnone in Hs. by destruct Hs.
Qed.

Lemma shape_add_child : rt_shape ns' root top G'.
Proof.
  pose proof add_child_level as Hl. pose proof add_child_pa as Hpaa. pose proof add_child_fresh as Hfresh.
  pose proof HS as [S1 S2 S3 S4 S5 S6 S7 S8 S9]. split.
  - done.
  - unfold G'. rewrite gp_insert_ne; [done|]. intros [= ? ?]. lia.
  - intros Hr. rewrite (S3 Hr) in Hpa. done.
  - intros x y b Hx Hy. unfold G' in Hx, Hy. rewrite lookup_insert_Some in Hx, Hy.
    destruct Hx as [[<- <-]|[_ Hx]], Hy as [[<- Hy]|[_ Hy]];
      [done|by destruct (Hfresh y)|subst; by destruct (Hfresh x)|by eapply S4].
  - intros l2 p2 b. unfold G'. rewrite lookup_insert. case_decide; [by intros [= <-]|apply S5].
  - intros l2 p2 b. unfold G'. rewrite lookup_insert. case_decide as Heq.
    + injection Heq as <- <-. intros [= <-]. exists nc. unfold ns'.
      rewrite lookup_insert_ne, lookup_insert_eq by done. split; [done|apply add_child_new_ok].
    + intros Hb. destruct (decide (b = pa)) as [->|Hb'].
      { pose proof (S4 _ _ _ Hb Hpa) as [= -> ->]. exists np'. unfold ns'.
        rewrite lookup_insert_eq. split; [done|apply add_child_parent_ok]. }
      destruct (S6 _ _ _ Hb) as (n & Hn & Hok). exists n. unfold ns'.
      rewrite !lookup_insert_ne by (congruence || by intros <-; destruct (Hfresh (l2, p2))).
      split; [done|]. apply (node_ok_ext G _ top top); [done| |].
      * case_decide as Htop; [done|]. unfold G'. rewrite gp_insert_ne; [done|]. intros [= <- Hp2].
        destruct (S7 _ _ _ Hb) as [[? _]|[_ Hs]]; [done|]. rewrite Hp2, Hnone in Hs. by destruct Hs.
      * intros l' i -> Hi. unfold G'. rewrite gp_insert_ne; [done|]. intros [= -> Hq].
        rewrite <- Hq, (proj1 (child_div p2 i Hi)) in Hpa. congruence.
  - intros l2 p2 b. unfold G'. rewrite lookup_insert. case_decide as Heq.
    + injection Heq as <- <-. intros _. right. split; [done|].
      rewrite lookup_insert_ne by (intros [= ? ?]; lia). by exists pa.
    + intros Hb. destruct (S7 _ _ _ Hb) as [?|[? Hs]]; [by left|right]. split; [done|].
      rewrite lookup_insert. case_decide; [done|exact Hs].
  - intros l2 p2 b. unfold G'. rewrite lookup_insert. case_decide as Heq; [|apply S8].
    injection Heq as <- <-. done.
  - intros b Hb. unfold ns' in Hb. rewrite !lookup_insert in Hb.
    destruct (decide (b = a)) as [->|Hba]; [exists l, p; apply lookup_insert_eq|].
    assert (is_Some (ns !! b)) as Hb' by (repeat case_decide; subst; done || by eexists).
    destruct (S9 b Hb') as (l2 & p2 & Hl2). exists l2, p2. unfold G'.
    rewrite lookup_insert_ne; [done|]. intros [= <- <-]. congruence.
Qed.

Lemma content_add_child M : rt_content ns G M → rt_content ns' G' M.
Proof.
  pose proof add_child_pa as Hpaa. pose proof add_child_fresh as Hfresh. apply content_ext.
  - intros q b n Hb Hn _. assert (b ≠ a) as Hba by (intros ->; by destruct (Hfresh (0%nat, q))).
    assert (b ≠ pa) as Hbpa by (intros ->; pose proof (rs_inj _ _ _ _ HS _ _ _ Hb Hpa); done).
    unfold G', ns'. rewrite lookup_insert_ne by (intros Heq; rewrite Heq in Hnone; congruence).
    rewrite !lookup_insert_ne by done. eauto.
  - intros q b n. unfold G', ns'. rewrite lookup_insert. case_decide as Heq.
    + intros [= <-]. rewrite lookup_insert_ne, lookup_insert_eq by done. intros [= <-] Hnz.
      unfold nc in Hnz. cbn [slots_] in Hnz. by rewrite nz_count_replicate in Hnz.
    + intros Hb. assert (b ≠ a) as Hba by (intros ->; by destruct (Hfresh (0%nat, q))).
      assert (b ≠ pa) as Hbpa by (intros ->; pose proof (rs_inj _ _ _ _ HS _ _ _ Hb Hpa); done).
      rewrite !lookup_insert_ne by done. eauto.
Qed.
End AddChild.

(** The first node of an empty tree. *)
Lemma shape_first ns top G l a :
  rt_shape ns 0 top G → (l ≤ 5)%nat → a ≠ 0 →
  rt_shape (<[a := RNode (6 * Z.of_nat l) 0 0 0 (replicate 64 0)]> ns) a l {[(l, 0) := a]}.
Proof.
  intros HS Hl Ha. pose proof (rs_empty _ _ _ _ HS eq_refl) as ->. split.
  - done.
  - unfold gp. by rewrite lookup_singleton_eq.
  - done.
  - intros x y b [<- _]%lookup_singleton_Some [<- _]%lookup_singleton_Some. done.
  - intros l2 p2 b [_ <-]%lookup_singleton_Some. done.
  - intros l2 p2 b [[= <- <-] <-]%lookup_singleton_Some. rewrite lookup_insert_eq.
    eexists. split; [done|]. split; cbn [shift_ offset_ parent_ slots_ count_]; try done.
    + by rewrite decide_True.
    + intros l' i -> Hi. rewrite lookup_replicate_2 by lia. f_equal. unfold gp.
      rewrite lookup_singleton_ne; [done|]. intros [= ? ?]. lia.
  - intros l2 p2 b [[= <- <-] <-]%lookup_singleton_Some. by left.
  - intros l2 p2 b [[= <- <-] <-]%lookup_singleton_Some. lia.
  - intros b. rewrite lookup_insert. case_decide as Hb; [subst b; intros _|].
    + exists l, 0. by rewrite lookup_singleton_eq.
    + intros (l2 & p2 & H2)%(rs_dom _ _ _ _ HS). done.
Qed.

Lemma content_first ns top G l a M :
  rt_shape ns 0 top G → rt_content ns G M →
  rt_content (<[a := RNode (6 * Z.of_nat l) 0 0 0 (replicate 64 0)]> ns) {[(l, 0) := a]} M.
Proof.
  intros HS. pose proof (rs_empty _ _ _ _ HS eq_refl) as ->. apply content_ext.
  - intros q b n Hb. done.
  - intros q b n [_ <-]%lookup_singleton_Some. rewrite lookup_insert_eq. intros [= <-]. done.
Qed.

(** A new root above the old one. *)
Section NewRoot.
Context (ns : gmap Z radix_node) (root : Z) (top : nat) (G : layout) (HS : rt_shape ns root top G).
Context (Hroot : root ≠ 0) (Htop : (top < 5)%nat) (a : Z) (Ha0 : a ≠ 0) (Ha : ns !! a = None).
Context (nr : radix_node) (Hnr : ns !! root = Some nr).

Let ns' := <[a := RNode (6 * Z.of_nat (S top)) 0 1 0 (<[0%nat := root]> (replicate 64 0))]>
             (<[root := set_link a 0 nr]> ns).
Let G' : layout := <[(S top, 0) := a]> G.

Lemma new_root_old : G !! (top, 0) = Some root.
Proof.
  pose proof (rs_root _ _ _ _ HS) as Hr. rewrite Hr. apply gp_nonzero. congruence.
Qed.

Lemma new_root_fresh x : G !! x ≠ Some a.
Proof.
  destruct x as [l2 p2]. intros H. destruct (rs_node _ _ _ _ HS _ _ _ H) as (n & Hn & _). congruence.
Qed.

Lemma new_root_above p : G !! (S top, p) = None.
Proof.
  destruct (G !! (S top, p)) as [b|] eqn:E; [|done].
  pose proof (shape_level _ _ _ _ HS _ _ _ E). lia.
Qed.

Lemma new_root_node_ok l p b n :
  G !! (l, p) = Some b → node_ok G top l p n → b ≠ root → node_ok G' (S top) l p n.
Proof.
  intros Hb Hok Hne. pose proof (shape_level _ _ _ _ HS _ _ _ Hb) as Hlev.
  assert (l ≠ top) as Hl.
  { intros ->. destruct (rs_up _ _ _ _ HS _ _ _ Hb) as [[_ ->]|[? _]]; [|lia].
    rewrite new_root_old in Hb. congruence. }
  apply (node_ok_ext G _ top); [done| |].
  - rewrite !decide_False by lia. unfold G'. rewrite gp_insert_ne; [done|]. intros [= ? ?]. lia.
  - intros l' i -> Hi. unfold G'. apply gp_insert_ne. intros [= ? ?]. lia.
Qed.

Lemma new_root_child_ok n : node_ok G top top 0 n → node_ok G' (S top) top 0 (set_link a 0 n).
Proof.
  intros []. split; cbn [set_link shift_ offset_ parent_ slots_ count_]; try done.
  - rewrite decide_False by lia. unfold G', gp. by rewrite Z.div_0_l, lookup_insert_eq by lia.
  - intros l' i -> Hi. rewrite (no_kids0 l') by done. unfold G'. rewrite gp_insert_ne; [done|].
    intros [= ? ?]. lia.
Qed.

Lemma new_root_top_ok :
  node_ok G' (S top) (S top) 0 (RNode (6 * Z.of_nat (S top)) 0 1 0 (<[0%nat := root]> (replicate 64 0))).
Proof.
  split; cbn [shift_ offset_ parent_ slots_ count_]; try done.
  - by rewrite decide_True.
  - rewrite (nz_count_insert _ _ _ 0) by done. rewrite nz_count_replicate.
    rewrite (proj2 (Z.eqb_neq root 0)) by done. done.
  - intros l' i [= <-] Hi. unfold G'. rewrite gp_insert_ne by (intros [= ? ?]; lia).
    change (64 * 0 + i) with i. destruct (decide (i = 0)) as [->|Hne].
    + simpl. by rewrite (gp_some _ _ _ _ new_root_old).
    + rewrite list_lookup_insert_ne by lia. rewrite lookup_replicate_2 by lia. f_equal.
      unfold gp. destruct (G !! (top, i)) as [b|] eqn:Hb; [|done].
      destruct (rs_up _ _ _ _ HS _ _ _ Hb) as [[_ ?]|[? _]]; [done|lia].
Qed.

Lemma shape_new_root : rt_shape ns' a (S top) G'.
Proof.
  pose proof new_root_fresh as Hfresh. pose proof new_root_above as Habove.
  assert (root ≠ a) as Hra by (intros ->; congruence).
  pose proof HS as [S1 S2 S3 S4 S5 S6 S7 S8 S9]. split.
  - lia.
  - unfold G', gp. by rewrite lookup_insert_eq.
  - done.
  - intros x y b Hx Hy. unfold G' in Hx, Hy. rewrite lookup_insert_Some in Hx, Hy.
    destruct Hx as [[<- <-]|[_ Hx]], Hy as [[<- Hy]|[_ Hy]];
      [done|by destruct (Hfresh y)|subst; by destruct (Hfresh x)|by eapply S4].
  - intros l2 p2 b. unfold G'. rewrite lookup_insert. case_decide; [by intros [= <-]|apply S5].
  - intros l2 p2 b. unfold G' at 1. rewrite lookup_insert. case_decide as Heq.
    + injection Heq as <- <-. intros [= <-]. unfold ns'. rewrite lookup_insert_eq.
      eexists. split; [done|apply new_root_top_ok].
    + intros Hb. destruct (S6 _ _ _ Hb) as (n & Hn & Hok). unfold ns'.
      assert (a ≠ b) by (intros <-; by destruct (Hfresh (l2, p2))).
      rewrite lookup_insert_ne by done. destruct (decide (b = root)) as [->|Hbr].
      * pose proof (S4 _ _ _ Hb new_root_old) as [= -> ->]. rewrite lookup_insert_eq.
        rewrite Hnr in Hn. injection Hn as <-. eexists. split; [done|by apply new_root_child_ok].
      * rewrite lookup_insert_ne by done. exists n. split; [done|by eapply new_root_node_ok].
  - intros l2 p2 b. unfold G'. rewrite lookup_insert. case_decide as Heq.
    + injection Heq as <- <-. by left.
    + intros Hb. right. destruct (S7 _ _ _ Hb) as [[-> ->]|[? Hs]].
      * split; [lia|]. rewrite Z.div_0_l, lookup_insert_eq by lia. done.
      * split; [lia|]. rewrite lookup_insert. case_decide; [done|exact Hs].
  - intros l2 p2 b. unfold G'. rewrite lookup_insert. case_decide as Heq; [|apply S8].
    injection Heq as <- <-. lia.
  - intros b Hb. unfold ns' in Hb. rewrite !lookup_insert in Hb.
    destruct (decide (b = a)) as [->|Hba]; [exists (S top), 0; apply lookup_insert_eq|].
    assert (is_Some (ns !! b)) as Hb' by (repeat case_decide; subst; done || by eexists).
    destruct (S9 b Hb') as (l2 & p2 & Hl2). exists l2, p2. unfold G'.
    rewrite lookup_insert_ne; [done|]. intros [= <- <-]. rewrite Habove in Hl2. done.
Qed.

Lemma content_new_root M : rt_content ns G M → rt_content ns' G' M.
Proof.
  assert (root ≠ a) as Hra by (intros ->; congruence). pose proof new_root_fresh as Hfresh.
  apply content_ext; intros q b n; unfold G', ns'; rewrite lookup_insert_ne by done.
  - intros Hb Hn _. assert (a ≠ b) by (intros <-; by destruct (Hfresh (0%nat, q))).
    split; [done|]. rewrite lookup_insert_ne by done. rewrite lookup_insert.
    case_decide as Hbr; [subst b; eexists; split; [done|]|eauto].
    rewrite Hnr in Hn. by injection Hn as <-.
  - intros Hb. assert (a ≠ b) by (intros <-; by destruct (Hfresh (0%nat, q))).
    rewrite lookup_insert_ne by done. rewrite lookup_insert.
    case_decide as Hbr; [subst b; intros [= <-] _; eauto|eauto].
Qed.
End NewRoot.

(** *** Removing a node *)

(** An empty node has no children. *)
Lemma empty_no_child ns root top G l p a n l' q b :
  rt_shape ns root top G → G !! (l, p) = Some a → ns !! a = Some n → nz_count (slots_ n) = 0 →
  G !! (l', q) = Some b → l = S l' → q / 64 ≠ p.
Proof.
  intros HS Ha Hn Hz Hb -> Hq.
  destruct (rs_node _ _ _ _ HS _ _ _ Ha) as (n' & Hn' & Hok). rewrite Hn in Hn'. injection Hn' as <-.
  pose proof (div_child q) as [Hqe Hqm]. rewrite Hq in Hqe.
  pose proof (no_kids _ _ _ _ _ Hok l' (q `mod` 64) eq_refl Hqm) as Hk.
  rewrite <- Hqe, (gp_some _ _ _ _ Hb) in Hk.
  apply (nz_count_zero _ _ _ Hz) in Hk. by destruct (rs_nonnull _ _ _ _ HS _ _ _ Hb).
Qed.

Section DelChild.
Context (ns : gmap Z radix_node) (root : Z) (top : nat) (G : layout) (HS : rt_shape ns root top G).
Context (l : nat) (p pa a : Z) (n np : radix_node).
Context (Ha : G !! (l, p) = Some a) (Hn : ns !! a = Some n) (Hz : nz_count (slots_ n) = 0).
Context (Hl : (l < top)%nat) (Hpa : G !! (S l, p / 64) = Some pa) (Hnp : ns !! pa = Some np).

Let np' := RNode (shift_ np) (offset_ np) (count_ np - 1) (parent_ np) (<[Z.to_nat (p `mod` 64) := 0]> (slots_ np)).
Let ns' := delete a (<[pa := np']> ns).
Let G' : layout := delete (l, p) G.

Lemma del_child_pa : pa ≠ a.
Proof. intros ->. pose proof (rs_inj _ _ _ _ HS _ _ _ Ha Hpa) as [= ? ?]. lia. Qed.

Lemma del_child_parent_ok : node_ok G' top (S l) (p / 64) np'.
Proof.
  destruct (rs_node _ _ _ _ HS _ _ _ Hpa) as (n' & Hn' & []). rewrite Hnp in Hn'. injection Hn' as <-.
  pose proof (div_child p) as [Hpe Hpm].
  assert (slots_ np !! Z.to_nat (p `mod` 64) = Some a) as Hslot.
  { rewrite (no_kids0 l) by done. rewrite <- Hpe. f_equal. by apply gp_some. }
  split; unfold np'; cbn [shift_ offset_ parent_ slots_ count_]; try done.
  - rewrite no_parent0. case_decide; [done|]. unfold G'. rewrite gp_delete_ne; [done|].
    intros [= ? ?]. lia.
  - by rewrite length_insert.
  - rewrite (nz_count_insert _ _ _ _ Hslot), no_count0.
    rewrite (proj2 (Z.eqb_neq a 0)) by (by eapply rs_nonnull). simpl. lia.
  - intros l' i [= <-] Hi. destruct (decide (i = p `mod` 64)) as [->|Hne].
    + rewrite list_lookup_insert_eq by lia. rewrite <- Hpe. unfold gp, G'. by rewrite lookup_delete_eq.
    + rewrite list_lookup_insert_ne by lia. rewrite (no_kids0 l) by done.
      unfold G'. rewrite gp_delete_ne; [done|]. intros [= Hq]. lia.
Qed.

Lemma del_child_other_ok l2 p2 b n2 :
  G !! (l2, p2) = Some b → (l2, p2) ≠ (l, p) → b ≠ pa → node_ok G top l2 p2 n2 → node_ok G' top l2 p2 n2.
Proof.
  intros Hb Hne Hbpa Hok. apply (node_ok_ext G _ top top); [done| |].
  - case_decide as Htop; [done|]. unfold G'. rewrite gp_delete_ne; [done|]. intros [= Hl2 Hp2].
    by destruct (empty_no_child _ _ _ _ _ _ _ _ _ _ _ HS Ha Hn Hz Hb).
  - intros l' i -> Hi. unfold G'. apply gp_delete_ne. intros [= -> Hq].
    rewrite <- Hq, (proj1 (child_div p2 i Hi)) in Hpa. congruence.
Qed.

Lemma shape_del_child : rt_shape ns' root top G'.
Proof.
  pose proof del_child_pa as Hpaa. pose proof HS as [S1 S2 S3 S4 S5 S6 S7 S8 S9]. split.
  - done.
  - unfold G'. rewrite gp_delete_ne; [done|]. intros [= ? ?]. lia.
  - intros Hr. rewrite (S3 Hr) in Hpa. done.
  - intros x y b [_ Hx]%lookup_delete_Some [_ Hy]%lookup_delete_Some. by eapply S4.
  - intros l2 p2 b [_ Hb]%lookup_delete_Some. by eapply S5.
  - intros l2 p2 b [Hne Hb]%lookup_delete_Some. unfold ns'.
    assert (a ≠ b) as Hab by (intros <-; pose proof (S4 _ _ _ Ha Hb); congruence).
    rewrite lookup_delete_ne by done. destruct (decide (b = pa)) as [->|Hbpa].
    + pose proof (S4 _ _ _ Hb Hpa) as [= -> ->]. rewrite lookup_insert_eq.
      eexists. split; [done|apply del_child_parent_ok].
    + rewrite lookup_insert_ne by done. destruct (S6 _ _ _ Hb) as (n2 & Hn2 & Hok).
      exists n2. split; [done|]. by eapply del_child_other_ok.
  - intros l2 p2 b [Hne Hb]%lookup_delete_Some.
    destruct (S7 _ _ _ Hb) as [?|[? Hs]]; [by left|right]. split; [done|].
    unfold G'. rewrite lookup_delete_ne; [done|]. intros [= Hl2 Hp2].
    by destruct (empty_no_child _ _ _ _ _ _ _ _ _ _ _ HS Ha Hn Hz Hb).
  - intros l2 p2 b [_ Hb]%lookup_delete_Some. by eapply S8.
  - intros b Hb. unfold ns' in Hb. rewrite lookup_delete in Hb. case_decide as Hab; [by destruct Hb|].
    assert (is_Some (ns !! b)) as Hb'
      by (rewrite lookup_insert in Hb; case_decide; subst; done || by eexists).
    destruct (S9 b Hb') as (l2 & p2 & Hl2). exists l2, p2. unfold G'.
    rewrite lookup_delete_ne; [done|]. intros [= <- <-]. congruence.
Qed.

Lemma content_del_child M : rt_content ns G M → rt_content ns' G' M.
Proof.
  pose proof del_child_pa as Hpaa. apply content_ext.
  - intros q b n2 Hb Hn2 Hnz.
    assert (a ≠ b) as Hab by (intros <-; congruence).
    assert (b ≠ pa) as Hbpa by (intros ->; pose proof (rs_inj _ _ _ _ HS _ _ _ Hb Hpa); done).
    unfold G', ns'. rewrite lookup_delete_ne by (intros Heq; rewrite Heq in Ha; congruence).
    rewrite lookup_delete_ne, lookup_insert_ne by done. eauto.
  - intros q b n2 [Hne Hb]%lookup_delete_Some. unfold ns'.
    assert (a ≠ b) as Hab by (intros <-; pose proof (rs_inj _ _ _ _ HS _ _ _ Ha Hb); congruence).
    assert (b ≠ pa) as Hbpa by (intros ->; pose proof (rs_inj _ _ _ _ HS _ _ _ Hb Hpa); done).
    rewrite lookup_delete_ne, lookup_insert_ne by done. eauto.
Qed.
End DelChild.

(** An empty root is the only node. *)
Lemma empty_root_alone ns root top G n l p a :
  rt_shape ns root top G → root ≠ 0 → ns !! root = Some n → nz_count (slots_ n) = 0 →
  G !! (l, p) = Some a → l = top ∧ p = 0.
Proof.
  intros HS Hr Hn Hz Ha. destruct (rs_up _ _ _ _ HS _ _ _ Ha) as [?|[Hl _]]; [done|].
  destruct (shape_ancestor _ _ _ _ HS _ _ _ Ha Hl) as (p' & a' & Ha' & Hp' & _).
  assert (0 ≤ p' < 64) as Hp2 by (Z.to_euclidean_division_equations; lia).
  pose proof (root_slot _ _ _ _ HS n p' ltac:(lia) Hn Hr Hp2) as Hs.
  apply (nz_count_zero _ _ _ Hz) in Hs. rewrite (gp_some _ _ _ _ Ha') in Hs.
  by destruct (rs_nonnull _ _ _ _ HS _ _ _ Ha').
Qed.

Lemma shape_del_root ns root top G n :
  rt_shape ns root top G → root ≠ 0 → ns !! root = Some n → nz_count (slots_ n) = 0 →
  rt_shape (delete root ns) 0 top ∅ ∧ ∀ M, rt_content ns G M → rt_content (delete root ns) ∅ M.
Proof.
  intros HS Hr Hn Hz. pose proof (rs_root _ _ _ _ HS) as Hroot.
  assert (G !! (top, 0) = Some root) as HG by (rewrite Hroot; apply gp_nonzero; congruence).
  split.
  - split; try done; try (by apply HS). intros b [nb [Hb Hnb]%lookup_delete_Some].
    destruct (rs_dom _ _ _ _ HS b (mk_is_Some _ _ Hnb)) as (l & p & Hlp).
    destruct (empty_root_alone _ _ _ _ _ _ _ _ HS Hr Hn Hz Hlp) as [-> ->]. congruence.
  - intros M. apply content_ext; [|done]. intros q b n2 Hb Hn2 Hnz.
    destruct (empty_root_alone _ _ _ _ _ _ _ _ HS Hr Hn Hz Hb) as [<- ->]. congruence.
Qed.

(** A root whose only child is in slot 0 can go. *)
Section Shrink.
Context (ns : gmap Z radix_node) (root : Z) (top : nat) (G : layout) (HS : rt_shape ns root top G).
Context (Hr : root ≠ 0) (Ht : (0 < top)%nat) (n c : radix_node) (Hn : ns !! root = Some n).
Context (Hone : nz_count (slots_ n) = 1) (child : Z) (Hc0 : child ≠ 0) (Hslot : slots_ n !! 0%nat = Some child).
Context (Hc : ns !! child = Some c).

Let ns' := delete root (<[child := set_link 0 0 c]> ns).
Let G' : layout := delete (top, 0) G.

Lemma shrink_root : G !! (top, 0) = Some root.
Proof. pose proof (rs_root _ _ _ _ HS) as H. rewrite H. apply gp_nonzero. congruence. Qed.

Lemma shrink_child : G !! (pred top, 0) = Some child.
Proof.
  pose proof (root_slot _ _ _ _ HS n 0 Ht Hn Hr ltac:(lia)) as Hs. change (Z.to_nat 0) with 0%nat in Hs. rewrite Hslot in Hs.
  injection Hs as Hs. rewrite Hs. apply gp_nonzero. congruence.
Qed.

(** No node but the root lies outside the child's subtree. *)
Lemma shrink_only p a : G !! (pred top, p) = Some a → p = 0.
Proof.
  intros Ha. destruct (shape_ancestor _ _ _ _ HS _ _ _ Ha ltac:(lia)) as (p' & a' & Ha' & Hp' & Heq).
  rewrite <- (Heq eq_refl) in *. assert (0 ≤ p < 64) as Hp by (Z.to_euclidean_division_equations; lia).
  pose proof (root_slot _ _ _ _ HS n p Ht Hn Hr Hp) as Hs. rewrite (gp_some _ _ _ _ Ha) in Hs.
  pose proof (nz_count_one _ _ _ _ _ Hone Hs Hslot (rs_nonnull _ _ _ _ HS _ _ _ Ha) Hc0). lia.
Qed.

Lemma shrink_ne : root ≠ child.
Proof. intros Heq. pose proof shrink_root as H1. rewrite Heq in H1.
  pose proof (rs_inj _ _ _ _ HS _ _ _ H1 shrink_child) as [= ?]. lia. Qed.

Lemma shrink_node_ok l p b nb :
  G !! (l, p) = Some b → (l, p) ≠ (top, 0) → b ≠ child → node_ok G top l p nb → node_ok G' (pred top) l p nb.
Proof.
  intros Hb Hne Hbc Hok. assert (l ≠ pred top) as Hl.
  { intros ->. pose proof (shrink_only _ _ Hb) as ->. pose proof shrink_child. congruence. }
  pose proof (shape_level _ _ _ _ HS _ _ _ Hb) as Hlev.
  assert (l ≠ top) as Hlt.
  { intros ->. destruct (rs_up _ _ _ _ HS _ _ _ Hb) as [[_ ->]|[? _]]; [done|lia]. }
  apply (node_ok_ext G _ top); [done| |].
  - rewrite !decide_False by done. unfold G'. rewrite gp_delete_ne; [done|]. intros [= ? ?]. lia.
  - intros l' i -> Hi. unfold G'. apply gp_delete_ne. intros [= ? ?]. lia.
Qed.

Lemma shrink_child_ok : node_ok G top (pred top) 0 c → node_ok G' (pred top) (pred top) 0 (set_link 0 0 c).
Proof.
  intros []. split; cbn [set_link shift_ offset_ parent_ slots_ count_]; try done.
  - by rewrite decide_True.
  - intros l' i Hl Hi. rewrite (no_kids0 l') by done. unfold G'. rewrite gp_delete_ne; [done|].
    intros [= ? ?]. lia.
Qed.

Lemma shape_shrink : rt_shape ns' child (pred top) G'.
Proof.
  pose proof shrink_ne as Hrc. pose proof shrink_root as HR. pose proof shrink_child as HC.
  pose proof HS as [S1 S2 S3 S4 S5 S6 S7 S8 S9]. split.
  - lia.
  - unfold G'. rewrite gp_delete_ne by (intros [= ?]; lia). symmetry. by apply gp_some.
  - done.
  - intros x y b [_ Hx]%lookup_delete_Some [_ Hy]%lookup_delete_Some. by eapply S4.
  - intros l2 p2 b [_ Hb]%lookup_delete_Some. by eapply S5.
  - intros l2 p2 b [Hne Hb]%lookup_delete_Some. unfold ns'.
    assert (root ≠ b) as Hrb by (intros <-; pose proof (S4 _ _ _ HR Hb); congruence).
    rewrite lookup_delete_ne by done. destruct (S6 _ _ _ Hb) as (n2 & Hn2 & Hok).
    destruct (decide (b = child)) as [->|Hbc].
    + pose proof (S4 _ _ _ Hb HC) as [= -> ->]. rewrite lookup_insert_eq.
      rewrite Hc in Hn2. injection Hn2 as <-. eexists. split; [done|by apply shrink_child_ok].
    + rewrite lookup_insert_ne by done. exists n2. split; [done|by eapply shrink_node_ok].
  - intros l2 p2 b [Hne Hb]%lookup_delete_Some.
    destruct (S7 _ _ _ Hb) as [[-> ->]|[Hl Hs]]; [done|].
    destruct (decide (l2 = pred top)) as [->|Hl2]; [left; by rewrite (shrink_only _ _ Hb)|right].
    split; [lia|]. unfold G'. rewrite lookup_delete_ne; [done|]. intros [= ? ?]. lia.
  - intros l2 p2 b [_ Hb]%lookup_delete_Some. by eapply S8.
  - intros b Hb. unfold ns' in Hb. rewrite lookup_delete in Hb. case_decide as Hab; [by destruct Hb|].
    assert (is_Some (ns !! b)) as Hb'
      by (rewrite lookup_insert in Hb; case_decide; subst; done || by eexists).
    destruct (S9 b Hb') as (l2 & p2 & Hl2). exists l2, p2. unfold G'.
    rewrite lookup_delete_ne; [done|]. intros [= <- <-]. congruence.
Qed.

Lemma content_shrink M : rt_content ns G M → rt_content ns' G' M.
Proof.
  pose proof shrink_ne as Hrc. pose proof shrink_root as HR.
  apply content_ext; intros q b n2; unfold G', ns'; rewrite lookup_delete_ne by (intros [= ?]; lia).
  - intros Hb Hn2 _. assert (root ≠ b) by (intros <-; pose proof (rs_inj _ _ _ _ HS _ _ _ HR Hb) as [= ?]; lia).
    split; [done|]. rewrite lookup_delete_ne by done. rewrite lookup_insert.
    case_decide as Hbc; [subst b; eexists; split; [done|]|eauto].
    rewrite Hc in Hn2. by injection Hn2 as <-.
  - intros Hb. assert (root ≠ b) by (intros <-; pose proof (rs_inj _ _ _ _ HS _ _ _ HR Hb) as [= ?]; lia).
    rewrite lookup_delete_ne by done. rewrite lookup_insert.
    case_decide as Hbc; [subst b; intros [= <-] _; eauto|eauto].
Qed.
End Shrink.
