(* ===== verification/RadixMap.v ===== *)
(** * The radix tree as a finite map

    The operations of [RadixTree] on a tree that represents a map [M]: lookup,
    insertion, removal and the ordered search.  Every theorem says that the
    code returns (no [Fault], no [Timeout]) and what the tree represents
    afterwards, also when an allocation fails half-way. *)

From S2P Require Import Prelude RadixTree.

(** ** Descending *)

Lemma node_get_ok st a n : (a =? 0) = false → nodes st !! a = Some n → node_get st a = Ok n.
Proof. unfold node_get. by intros -> ->. Qed.

Section Descend.
Context (ns : gmap Z radix_node) (root : Z) (top : nat) (G : layout) (HS : rt_shape ns root top G).

(** A node on the path of a key has all its ancestors. *)
Lemma path_up key l m :
  is_Some (G !! (l, pre key l)) → (l ≤ m ≤ top)%nat → is_Some (G !! (m, pre key m)).
Proof.
  intros H [Hlm Hm]. induction Hlm as [|m Hlm IH]; [done|]. destruct IH as [a Ha]; [lia|].
  rewrite pre_S. destruct (rs_up _ _ _ _ HS _ _ _ Ha) as [[-> _]|[_ Hs]]; [lia|done].
Qed.

Lemma path_top key l : is_Some (G !! (l, pre key l)) → pre key top = 0.
Proof.
  intros [a Ha]. pose proof (shape_level _ _ _ _ HS _ _ _ Ha) as Hl.
  destruct (path_up key l top) as [b Hb]; [by exists a|lia|].
  destruct (rs_up _ _ _ _ HS _ _ _ Hb) as [[_ ?]|[? _]]; [done|lia].
Qed.

(** The slot a descent follows. *)
Lemma path_slot key l a n :
  0 ≤ key → G !! (S l, pre key (S l)) = Some a → node_ok G top (S l) (pre key (S l)) n →
  arr_get (slots_ n) (u8 (key_offset key (6 * Z.of_nat (S l)))) = Ok (gp G l (pre key l)).
Proof.
  intros Hk Ha Hok. rewrite key_offset_pre by done.
  pose proof (div_child (pre key l)) as [Hp Hm]. rewrite <- pre_S in Hp.
  apply arr_get_ok; [lia|]. rewrite (no_kids _ _ _ _ _ Hok l) by done. by rewrite <- Hp.
Qed.

Lemma leaf_slot key a n :
  G !! (0%nat, key / 64) = Some a → ns !! a = Some n →
  ∃ v, arr_get (slots_ n) (u8 (Z.land key RADIX_TREE_MAP_MASK)) = Ok v ∧
       slots_ n !! Z.to_nat (key `mod` 64) = Some v ∧ length (slots_ n) = 64%nat ∧
       count_ n = nz_count (slots_ n) ∧ 0 ≤ count_ n ≤ 64.
Proof.
  intros Ha Hn. destruct (rs_node _ _ _ _ HS _ _ _ Ha) as (n' & Hn' & Hok).
  rewrite Hn in Hn'. injection Hn' as <-. rewrite leaf_offset_mod.
  pose proof (no_len _ _ _ _ _ Hok) as Hlen. pose proof (Z.mod_pos_bound key 64 ltac:(lia)).
  destruct (arr_get_total (slots_ n) (key `mod` 64)) as (v & Hv & Hv'); [lia|]. exists v.
  pose proof (no_count _ _ _ _ _ Hok) as Hc. pose proof (nz_count_bound (slots_ n)).
  split_and!; done || lia.
Qed.

Lemma leaf_value M key a n v :
  rt_content ns G M → G !! (0%nat, key / 64) = Some a → ns !! a = Some n →
  slots_ n !! Z.to_nat (key `mod` 64) = Some v → default 0 (M !! key) = v.
Proof.
  intros HM Ha Hn Hv. destruct (decide (v = 0)) as [->|Hv0].
  - destruct (M !! key) as [w|] eqn:Hw; [|done]. apply HM in Hw as (a' & n' & Ha' & Hn' & Hs & Hw0).
    congruence.
  - assert (M !! key = Some v) as ->; [|done]. apply HM. by exists a, n.
Qed.

Lemma no_leaf_value M key :
  rt_content ns G M → G !! (0%nat, key / 64) = None → M !! key = None.
Proof.
  intros HM Hnone. destruct (M !! key) as [w|] eqn:Hw; [|done].
  apply HM in Hw as (a & n & Ha & _). congruence.
Qed.
End Descend.

(** ** Lookup *)

Lemma lookup_descend_spec fuel st root top G key l a :
  rt_shape (nodes st) root top G → 0 ≤ key → G !! (l, pre key l) = Some a → (l < fuel)%nat →
  lookup_descend fuel st a key = Ok (gp G 0 (key / 64)).
Proof.
  intros HS Hk. revert l a. induction fuel as [|fuel IH]; intros l a Ha Hf; [lia|].
  cbn [lookup_descend].
  destruct (shape_get _ _ _ _ HS _ _ _ Ha) as (n & Ha0 & Hn & Hok).
  rewrite (node_get_ok _ _ _ Ha0 Hn). cbn [mbind res_bind]. rewrite (no_shift _ _ _ _ _ Hok).
  destruct l as [|l].
  - simpl. f_equal. symmetry. by apply gp_some.
  - rewrite (proj2 (Z.ltb_lt _ _)) by lia. rewrite (path_slot _ _ key l a n Hk Ha Hok). cbn [mbind res_bind].
    destruct (decide (gp G l (pre key l) = 0)) as [Hz|Hz].
    + rewrite Hz. simpl. f_equal. apply (gp_zero _ _ _ _ HS) in Hz. unfold gp.
      destruct (G !! (0%nat, key / 64)) as [b|] eqn:Hb; [exfalso|done].
      destruct (path_up _ _ _ _ HS key 0 l) as [c Hc]; [by exists b| |congruence].
      pose proof (shape_level _ _ _ _ HS _ _ _ Ha). lia.
    + rewrite (proj2 (Z.eqb_neq _ _)) by done. apply (IH l); [by apply gp_nonzero|lia].
Qed.

(** The walk shared by lookup and removal: the leaf of a key, if any. *)
Lemma walk_spec st t top G M key :
  rt_shape (nodes st) (root_ t) top G → rt_content (nodes st) G M → is_u32 key → root_ t ≠ 0 →
  ∃ r, node_get st (root_ t) = Ok r ∧ (max_key_for_shift (shift_ r) <? key) = negb (pre key top =? 0) ∧
    (pre key top ≠ 0 → M !! key = None) ∧
    (pre key top = 0 → lookup_descend levels st (root_ t) key = Ok (gp G 0 (key / 64))).
Proof.
  intros HS HM Hk Hr. pose proof (rs_root _ _ _ _ HS) as Hroot. pose proof (rs_top _ _ _ _ HS) as Htop.
  assert (G !! (top, 0) = Some (root_ t)) as HG by (rewrite Hroot; apply gp_nonzero; congruence).
  destruct (shape_get _ _ _ _ HS _ _ _ HG) as (r & Hr0 & Hn & Hok).
  exists r. rewrite (node_get_ok _ _ _ Hr0 Hn), (no_shift _ _ _ _ _ Hok), max_key_spec by done.
  split_and!; [done|done| |].
  - intros Hp. eapply no_leaf_value; [done|]. destruct (G !! (0%nat, key / 64)) as [b|] eqn:Hb; [|done].
    destruct Hp. apply (path_top _ _ _ _ HS key 0). by exists b.
  - intros Hp. eapply (lookup_descend_spec _ _ _ _ _ _ top); [done|apply Hk| |unfold levels; lia].
    by rewrite Hp.
Qed.

Lemma empty_tree st t top G M key :
  rt_shape (nodes st) (root_ t) top G → rt_content (nodes st) G M → root_ t = 0 → M !! key = None.
Proof.
  intros HS HM Hr. eapply no_leaf_value; [done|]. by rewrite (rs_empty _ _ _ _ HS Hr).
Qed.

(** [radix_tree_lookup] returns the value stored under a key, NULL when
    there is none, and never follows a dangling pointer. *)
Lemma radix_lookup_spec (st : node_store) (t : radix_tree) (M : gmap Z Z) (key : Z) :
  rt_rep st t M → is_u32 key → radix_tree_lookup st (Some t) key = Ok (default 0 (M !! key)).
Proof.
  intros (top & G & HS & HM) Hk. unfold radix_tree_lookup. case_if.
  { by rewrite (empty_tree _ _ _ _ _ key HS HM E). }
  destruct (walk_spec st t top G M key HS HM Hk E) as (r & -> & Hmax & Hnone & Hwalk).
  cbn [mbind res_bind]. rewrite Hmax. case_if; [by rewrite Hnone|]. rewrite (Hwalk E0). cbn [mbind res_bind].
  destruct (decide (gp G 0 (key / 64) = 0)) as [Hz|Hz].
  - rewrite Hz. simpl. erewrite no_leaf_value; [done|done|]. by eapply gp_zero.
  - rewrite (proj2 (Z.eqb_neq _ _)) by done. apply gp_nonzero in Hz.
    destruct (shape_get _ _ _ _ HS _ _ _ Hz) as (n & Ha0 & Hn & Hok).
    rewrite (node_get_ok _ _ _ Ha0 Hn). cbn [mbind res_bind].
    destruct (leaf_slot _ _ _ _ HS key _ _ Hz Hn) as (v & -> & Hv & _).
    f_equal. symmetry. by eapply leaf_value.
Qed.

(** ** Insertion *)

Lemma insert_shadow {A} (m : gmap Z A) a r x y z w :
  a ≠ r → <[a := x]> (<[r := y]> (<[a := z]> (<[a := w]> m))) = <[a := x]> (<[r := y]> m).
Proof. intros. by rewrite insert_insert_eq, (insert_insert_ne _ r a), insert_insert_eq by done. Qed.

Section Insert.
Context (kmem_cache_create : bool) (kmem_cache_alloc : nat → gmap Z radix_node → option Z).
(** The cache can be created, and the allocator returns no live node. *)
Context (Hcreate : kmem_cache_create = true).
Context (Halloc : ∀ n ns p, kmem_cache_alloc n ns = Some p → p ≠ 0 ∧ ns !! p = None).

Local Abbreviation node_alloc := (radix_node_alloc kmem_cache_create kmem_cache_alloc).

(** Some allocation failed. *)
Definition out_of_memory : Prop := ∃ n ns, kmem_cache_alloc n ns = None.

Lemma node_alloc_spec st :
  ∃ st' p, node_alloc st = Ok (st', p) ∧
    ((p = 0 ∧ out_of_memory ∧ nodes st' = nodes st) ∨
     (p ≠ 0 ∧ nodes st !! p = None ∧
      nodes st' = <[p := RNode 0 0 0 0 (replicate 64 0)]> (nodes st))).
Proof.
  unfold radix_node_alloc, ensure_cache_initialized. rewrite Hcreate.
  destruct (g_radix_node_cache st); cbn [mbind res_bind alloc_calls nodes g_radix_node_cache];
    (destruct (kmem_cache_alloc (alloc_calls st) (nodes st)) as [p|] eqn:E;
     [apply Halloc in E as [? ?]; do 2 eexists; split; [done|]; by right
     |do 2 eexists; split; [done|]; left; split_and!; [done| |done]; by do 2 eexists]).
Qed.

(** What growing leaves: a tree for the same map, which covers the key. *)
Definition grown (key : Z) (M : gmap Z Z) (st : node_store) (t : radix_tree) (r : option Z) : Prop :=
  ∃ top G, rt_shape (nodes st) (root_ t) top G ∧ rt_content (nodes st) G M ∧
    match r with
    | None => out_of_memory
    | Some root => root = root_ t ∧ (root ≠ 0 → pre key top = 0) ∧ (root = 0 → pre key 0 = 0)
    end.

(** The state of the loop: [lvl] is the level [current_shift] stands for. *)
Lemma grow_loop_spec fuel st t top G M lvl key :
  rt_shape (nodes st) (root_ t) top G → rt_content (nodes st) G M → is_u32 key →
  (root_ t ≠ 0 → lvl = top) → (lvl ≤ 5)%nat → (5 - lvl < fuel)%nat → (root_ t = 0 → lvl = 0%nat) →
  ∃ st' t' r, grow_loop kmem_cache_create kmem_cache_alloc fuel st t (root_ t) (6 * Z.of_nat lvl) key
                = Ok (st', t', r) ∧ grown key M st' t' r.
Proof.
  intros HS HM Hk. revert st t top G lvl HS HM.
  induction fuel as [|fuel IH]; intros st t top G lvl HS HM Hlt Hl5 Hf Hl0; [lia|].
  cbn [grow_loop]. rewrite max_key_spec by done. case_if.
  2:{ do 3 eexists. split; [done|]. exists top, G. split_and!; [done|done|done| |].
      - intros Hr. by rewrite <- (Hlt Hr).
      - intros Hr. by rewrite <- (Hl0 Hr). }
  destruct (node_alloc_spec st) as (st1 & a & -> & [(-> & Hoom & Hn1)|(Ha0 & Hfree & Hn1)]); cbn [mbind res_bind].
  { do 3 eexists. split; [done|]. exists top, G. by rewrite Hn1. }
  rewrite (proj2 (Z.eqb_neq a 0)) by done.
  assert ((a =? 0) = false) as Hab by (by apply Z.eqb_neq).
  rewrite (node_get_ok st1 a (RNode 0 0 0 0 (replicate 64 0))) by (done || (rewrite Hn1; apply lookup_insert_eq)).
  cbn [mbind res_bind slots_].
  assert (lvl ≠ 5%nat) as Hl.
  { intros ->. apply E. unfold pre. change (span 5) with 68719476736. destruct Hk. apply Z.div_small. lia. }
  replace (u8 (6 * Z.of_nat lvl + RADIX_TREE_MAP_SHIFT)) with (6 * Z.of_nat (S lvl))
    by (unfold RADIX_TREE_MAP_SHIFT; rewrite u8_small; lia).
  destruct (decide (root_ t = 0)) as [Hr|Hr].
  - rewrite Hr in *. cbn [Z.eqb negb mbind res_bind shift_].
    apply (IH _ (RTree a (u32 (max_depth_ t + 1))) (S lvl) {[(S lvl, 0) := a]} (S lvl)); cbn [root_ nodes node_put].
    + rewrite Hn1, insert_insert_eq. by eapply shape_first; [done|lia|].
    + rewrite Hn1, insert_insert_eq. by eapply content_first.
    + done.
    + lia.
    + lia.
    + done.
  - rewrite (proj2 (Z.eqb_neq (root_ t) 0)) by done. cbn [negb].
    pose proof (Hlt Hr) as ->. pose proof (rs_root _ _ _ _ HS) as Hroot.
    destruct (shape_get _ _ _ _ HS top 0 (root_ t)) as (nr & Hr0 & Hnr & Hok).
    { rewrite Hroot. apply gp_nonzero. congruence. }
    assert (root_ t ≠ a) as Hra by congruence.
    rewrite (node_get_ok _ (root_ t) nr) by (done || (cbn [nodes node_put]; rewrite Hn1, !lookup_insert_ne by done; done)).
    cbn [mbind res_bind]. rewrite (node_get_ok _ a (RNode (6 * Z.of_nat (S top)) 0 0 0 (replicate 64 0)))
      by (done || (cbn [nodes node_put]; rewrite lookup_insert_ne, lookup_insert_eq by done; done)).
    unfold set_slot. cbn [mbind res_bind slots_]. rewrite arr_set_ok by (rewrite length_replicate; lia).
    cbn [mbind res_bind set_count shift_ offset_ parent_ slots_ count_].
    apply (IH _ (RTree a (u32 (max_depth_ t + 1))) (S top) (<[(S top, 0) := a]> G) (S top)); cbn [root_ nodes node_put].
    + rewrite Hn1, insert_shadow by done.
      eapply shape_new_root; done || lia.
    + rewrite Hn1, insert_shadow by done.
      eapply content_new_root; done || lia.
    + done.
    + lia.
    + lia.
    + done.
Qed.

Lemma radix_tree_grow_spec st t M key :
  rt_rep st t M → is_u32 key →
  ∃ st' t' rc, radix_tree_grow kmem_cache_create kmem_cache_alloc st t key = Ok (st', t', rc) ∧
    rt_rep st' t' M ∧ (rc = 0 ∨ (rc = -1 ∧ out_of_memory)) ∧
    (rc = 0 → root_ t' ≠ 0 ∧
      ∃ top G, rt_shape (nodes st') (root_ t') top G ∧ rt_content (nodes st') G M ∧ pre key top = 0).
Proof.
  intros (top & G & HS & HM) Hk. unfold radix_tree_grow.
  assert (∃ lvl, (if negb (root_ t =? 0) then n ← node_get st (root_ t); Ok (shift_ n) else Ok 0) =
    Ok (6 * Z.of_nat lvl) ∧ (root_ t ≠ 0 → lvl = top) ∧ (lvl ≤ 5)%nat ∧ (root_ t = 0 → lvl = 0%nat))
    as (lvl & -> & Hl1 & Hl2 & Hl3).
  { destruct (decide (root_ t = 0)) as [Hr|Hr].
    - rewrite Hr. exists 0%nat. split_and!; [done|done|lia|done].
    - rewrite (proj2 (Z.eqb_neq _ 0)) by done. exists top.
      destruct (shape_get _ _ _ _ HS top 0 (root_ t)) as (n & Hr0 & Hn & Hok).
      { rewrite (rs_root _ _ _ _ HS). apply gp_nonzero. rewrite <- (rs_root _ _ _ _ HS). done. }
      rewrite (node_get_ok _ _ _ Hr0 Hn). cbn [negb mbind res_bind]. rewrite (no_shift _ _ _ _ _ Hok).
      pose proof (rs_top _ _ _ _ HS). by split_and!. }
  cbn [mbind res_bind].
  destruct (grow_loop_spec levels st t top G M lvl key HS HM Hk Hl1 Hl2 ltac:(unfold levels; lia) Hl3)
    as (st1 & t1 & r & -> & top1 & G1 & HS1 & HM1 & Hr1). cbn [mbind res_bind].
  assert (rt_rep st1 t1 M) as Hrep1 by (by exists top1, G1).
  destruct r as [root|]; [|do 3 eexists; split; [done|]; split_and!; [done|by right|done]].
  destruct Hr1 as (-> & Hne & Hz). destruct (decide (root_ t1 = 0)) as [Hr|Hr].
  2:{ rewrite (proj2 (Z.eqb_neq _ 0)) by done. do 3 eexists. split; [done|].
      split_and!; [done|by left|]. intros _. split; [done|]. exists top1, G1. auto. }
  rewrite Hr. cbn [Z.eqb].
  destruct (node_alloc_spec st1) as (st2 & a & -> & [(-> & Hoom & Hn2)|(Ha0 & Hfree & Hn2)]); cbn [mbind res_bind].
  { do 3 eexists. split; [done|]. split_and!; [|by right|done]. exists top1, G1. by rewrite Hn2. }
  rewrite (proj2 (Z.eqb_neq a 0)) by done.
  rewrite (node_get_ok st2 a (RNode 0 0 0 0 (replicate 64 0)))
    by (by apply Z.eqb_neq || (rewrite Hn2; apply lookup_insert_eq)).
  cbn [mbind res_bind slots_]. do 3 eexists. split; [done|]. rewrite Hr in HS1.
  assert (rt_shape (nodes (node_put st2 a (RNode 0 0 0 0 (replicate 64 0)))) a 0 {[(0%nat, 0) := a]}) as HS2.
  { cbn [nodes node_put]. rewrite Hn2, insert_insert_eq. eapply (shape_first _ _ _ 0); done || lia. }
  assert (rt_content (nodes (node_put st2 a (RNode 0 0 0 0 (replicate 64 0)))) {[(0%nat, 0) := a]} M) as HM2.
  { cbn [nodes node_put]. rewrite Hn2, insert_insert_eq. by eapply (content_first _ _ _ 0). }
  split_and!; [by exists 0%nat, {[(0%nat, 0) := a]}|by left|].
  intros _. split; [done|]. exists 0%nat, {[(0%nat, 0) := a]}. auto.
Qed.

Lemma range_ok key l : is_u32 key → 0 ≤ pre key l ∧ pre key l * span l < 4294967296.
Proof.
  intros [Hk Hk']. split; [by apply pre_nonneg|]. unfold pre. pose proof (span_pos l).
  pose proof (Z.mul_div_le key (span l)). lia.
Qed.

Lemma insert_descend_spec fuel st root top G M key l a :
  rt_shape (nodes st) root top G → rt_content (nodes st) G M → is_u32 key →
  G !! (l, pre key l) = Some a → (l < fuel)%nat →
  ∃ st' r G', insert_descend kmem_cache_create kmem_cache_alloc fuel st a key = Ok (st', r) ∧
    rt_shape (nodes st') root top G' ∧ rt_content (nodes st') G' M ∧
    match r with None => out_of_memory | Some b => G' !! (0%nat, key / 64) = Some b end.
Proof.
  intros HS HM Hk. revert st G l a HS HM.
  induction fuel as [|fuel IH]; intros st G l a HS HM Ha Hf; [lia|]. cbn [insert_descend].
  destruct (shape_get _ _ _ _ HS _ _ _ Ha) as (n & Ha0 & Hn & Hok).
  rewrite (node_get_ok _ _ _ Ha0 Hn). cbn [mbind res_bind]. rewrite (no_shift _ _ _ _ _ Hok).
  destruct l as [|l].
  { simpl. do 3 eexists. split; [done|]. split_and!; [done|done|]. exact Ha. }
  rewrite (proj2 (Z.ltb_lt _ _)) by lia. rewrite (path_slot _ _ key l a n (proj1 Hk) Ha Hok).
  cbn [mbind res_bind]. destruct (decide (gp G l (pre key l) = 0)) as [Hz|Hz].
  2:{ rewrite (proj2 (Z.eqb_neq _ 0)) by done. apply (IH _ G l); [done|done|by apply gp_nonzero|lia]. }
  rewrite Hz. cbn [Z.eqb]. apply (gp_zero _ _ _ _ HS) in Hz.
  destruct (node_alloc_spec st) as (st1 & c & -> & [(-> & Hoom & Hn1)|(Hc0 & Hfree & Hn1)]); cbn [mbind res_bind].
  { do 3 eexists. split; [done|]. rewrite Hn1. by split_and!. }
  rewrite (proj2 (Z.eqb_neq c 0)) by done.
  assert (a ≠ c) as Hac by congruence.
  rewrite (node_get_ok st1 c (RNode 0 0 0 0 (replicate 64 0)))
    by (by apply Z.eqb_neq || (rewrite Hn1; apply lookup_insert_eq)).
  cbn [mbind res_bind slots_ count_].
  rewrite (node_get_ok _ a n) by (done || (cbn [nodes node_put]; rewrite Hn1, !lookup_insert_ne by done; done)).
  cbn [mbind res_bind]. rewrite (key_offset_pre key l) by apply Hk.
  pose proof (Z.mod_pos_bound (pre key l) 64 ltac:(lia)) as Hm. pose proof (no_len _ _ _ _ _ Hok) as Hlen.
  unfold set_slot. rewrite arr_set_ok by lia. cbn [mbind res_bind]. unfold set_count.
  cbn [shift_ offset_ parent_ slots_ count_].
  pose proof (nz_count_bound (slots_ n)) as Hb. pose proof (no_count _ _ _ _ _ Hok) as Hc.
  pose proof (shape_level _ _ _ _ HS _ _ _ Ha) as Hlev. pose proof (rs_top _ _ _ _ HS) as Htop.
  replace (u16 (count_ n + 1)) with (count_ n + 1) by (unfold u16; rewrite Z.mod_small; lia).
  replace (u8 (6 * Z.of_nat (S l) - RADIX_TREE_MAP_SHIFT)) with (6 * Z.of_nat l)
    by (unfold RADIX_TREE_MAP_SHIFT; rewrite u8_small; lia).
  destruct (range_ok key l Hk) as [Hr1 Hr2]. pose proof Ha as Ha'. rewrite pre_S in Ha'.
  apply (IH _ (<[(l, pre key l) := c]> G) l); cbn [nodes node_put]; rewrite ?Hn1, ?insert_insert_eq.
  - eapply shape_add_child; done.
  - eapply content_add_child; done.
  - apply lookup_insert_eq.
  - lia.
Qed.

(** Writing a leaf slot: the tree then represents the updated map. *)
Lemma write_leaf st t top G M key a n v old :
  rt_shape (nodes st) (root_ t) top G → rt_content (nodes st) G M →
  G !! (0%nat, key / 64) = Some a → nodes st !! a = Some n →
  slots_ n !! Z.to_nat (key `mod` 64) = Some old → count_ n = nz_count (slots_ n) →
  length (slots_ n) = 64%nat →
  let c := u16 (count_ n - (if old =? 0 then 0 else 1) + (if v =? 0 then 0 else 1)) in
  let st' := node_put st a (RNode (shift_ n) (offset_ n) c (parent_ n)
               (<[Z.to_nat (key `mod` 64) := v]> (slots_ n))) in
  rt_shape (nodes st') (root_ t) top G ∧
  rt_content (nodes st') G (if v =? 0 then delete key M else <[key := v]> M).
Proof.
  intros HS HM Ha Hn Hold Hc Hlen c st'. subst st' c. cbn [nodes node_put].
  replace (u16 _) with (nz_count (<[Z.to_nat (key `mod` 64) := v]> (slots_ n))).
  - split; [by apply shape_leaf|by eapply content_leaf].
  - pose proof (nz_count_bound (<[Z.to_nat (key `mod` 64) := v]> (slots_ n))) as Hb.
    rewrite length_insert, Hlen in Hb. rewrite Hc, <- (nz_count_insert _ _ v _ Hold).
    revert Hb. generalize (nz_count (<[Z.to_nat (key `mod` 64) := v]> (slots_ n))). intros c Hb.
    unfold u16. by rewrite Z.mod_small by lia.
Qed.

(** [radix_tree_insert] adds a new key and returns 0, or returns -1 and
    leaves the map alone. *)
Lemma radix_insert_spec (st : node_store) (t : radix_tree) (M : gmap Z Z) (key value : Z) :
  rt_rep st t M → is_u32 key →
  ∃ st' t' rc,
    radix_tree_insert kmem_cache_create kmem_cache_alloc st (Some t) key value = Ok (st', Some t', rc) ∧
    ((rc = 0 ∧ value ≠ 0 ∧ M !! key = None ∧ rt_rep st' t' (<[key := value]> M)) ∨
     (rc = -1 ∧ rt_rep st' t' M ∧ (value = 0 ∨ is_Some (M !! key) ∨ out_of_memory))).
Proof.
  intros Hrep Hk. unfold radix_tree_insert. case_if.
  { do 3 eexists. split; [done|]. right. auto. }
  destruct (radix_tree_grow_spec st t M key Hrep Hk) as (st1 & t1 & rc & -> & Hrep1 & Hrc & Hok1).
  cbn [mbind res_bind]. destruct Hrc as [-> |[-> Hoom]].
  2:{ do 3 eexists. split; [done|]. right. auto. }
  destruct (Hok1 eq_refl) as (Hr & top & G & HS & HM & Hp). cbn [Z.eqb negb].
  destruct (insert_descend_spec levels st1 (root_ t1) top G M key top (root_ t1) HS HM Hk)
    as (st2 & r & G2 & -> & HS2 & HM2 & Hr2).
  { rewrite Hp, (rs_root _ _ _ _ HS) at 1. apply gp_nonzero. by rewrite <- (rs_root _ _ _ _ HS). }
  { unfold levels. pose proof (rs_top _ _ _ _ HS). lia. }
  cbn [mbind res_bind]. assert (rt_rep st2 t1 M) as Hrep2 by (by exists top, G2).
  destruct r as [a|]; [|do 3 eexists; split; [done|]; right; auto].
  destruct (shape_get _ _ _ _ HS2 _ _ _ Hr2) as (n & Ha0 & Hn & Hok).
  rewrite (node_get_ok _ _ _ Ha0 Hn). cbn [mbind res_bind].
  destruct (leaf_slot _ _ _ _ HS2 key _ _ Hr2 Hn) as (old & -> & Hold & Hlen & Hc & Hcb). cbn [mbind res_bind].
  pose proof (leaf_value _ _ M key _ _ _ HM2 Hr2 Hn Hold) as HMold.
  case_if.
  { do 3 eexists. split; [done|]. right. split_and!; [done|done|]. right; left.
    destruct (M !! key) as [w|]; [by eexists|by simpl in HMold]. }
  rewrite E0 in Hold, HMold. clear E0 old. rewrite leaf_offset_mod. pose proof (Z.mod_pos_bound key 64 ltac:(lia)).
  unfold set_slot. rewrite arr_set_ok by lia. cbn [mbind res_bind]. unfold set_count.
  cbn [shift_ offset_ parent_ slots_ count_].
  do 3 eexists. split; [done|]. left. split_and!; [done|done| |].
  - destruct (M !! key) as [w|] eqn:Hw; [|done]. simpl in HMold. subst w.
    apply HM2 in Hw as (? & ? & _ & _ & _ & ?). done.
  - destruct (write_leaf st2 t1 top G2 M key a n value 0 HS2 HM2 Hr2 Hn Hold Hc Hlen) as [HS3 HM3].
    rewrite (proj2 (Z.eqb_neq value 0)) in HS3, HM3 by done.
    cbn [Z.eqb] in HS3, HM3. rewrite Z.sub_0_r in HS3, HM3. exists top, G2. done.
Qed.
End Insert.

(** ** Removal *)

(** Unlinking empty nodes upwards from a node of the path. *)
Lemma remove_up_spec fuel st t top G M l p a :
  rt_shape (nodes st) (root_ t) top G → rt_content (nodes st) G M →
  G !! (l, p) = Some a → (top - l < fuel)%nat →
  ∃ st' t' top' G', remove_up fuel st t a = Ok (st', t') ∧
    rt_shape (nodes st') (root_ t') top' G' ∧ rt_content (nodes st') G' M.
Proof.
  revert st G l p a. induction fuel as [|fuel IH]; intros st G l p a HS HM Ha Hf; [lia|].
  cbn [remove_up]. destruct (shape_get _ _ _ _ HS _ _ _ Ha) as (n & Ha0 & Hn & Hok).
  rewrite (node_get_ok _ _ _ Ha0 Hn). cbn [mbind res_bind]. case_if; [|by exists st, t, top, G].
  rewrite (no_count _ _ _ _ _ Hok) in E. rewrite (no_parent _ _ _ _ _ Hok).
  destruct (rs_up _ _ _ _ HS _ _ _ Ha) as [[-> ->]|[Hl [pa Hpa]]].
  - rewrite decide_True by done. cbn [Z.eqb].
    assert (root_ t = a) as Hroot by (rewrite (rs_root _ _ _ _ HS); by apply gp_some).
    pose proof Ha0 as Han. rewrite <- Hroot in Han, Hn.
    destruct (shape_del_root _ _ _ _ _ HS Han Hn E) as [HS1 HM1].
    rewrite <- Hroot. do 4 eexists. split; [done|]. cbn [nodes node_free root_]. split; [done|by apply HM1].
  - rewrite decide_False by lia. rewrite (gp_some _ _ _ _ Hpa).
    destruct (shape_get _ _ _ _ HS _ _ _ Hpa) as (np & Hpa0 & Hnp & Hokp). rewrite Hpa0.
    rewrite (node_get_ok _ _ _ Hpa0 Hnp). cbn [mbind res_bind]. rewrite (no_offset _ _ _ _ _ Hok).
    pose proof (Z.mod_pos_bound p 64 ltac:(lia)) as Hm. pose proof (no_len _ _ _ _ _ Hokp) as Hlen.
    unfold set_slot. rewrite arr_set_ok by lia. cbn [mbind res_bind]. unfold set_count.
  cbn [shift_ offset_ parent_ slots_ count_].
    pose proof (div_child p) as [Hpe _].
    assert (1 ≤ count_ np ≤ 64) as Hc.
    { rewrite (no_count _ _ _ _ _ Hokp). pose proof (nz_count_bound (slots_ np)).
      destruct (decide (nz_count (slots_ np) = 0)) as [Hz|]; [exfalso|lia].
      by eapply (empty_no_child _ _ _ _ (S l) (p / 64) pa np l p a HS). }
    replace (u16 (count_ np - 1)) with (count_ np - 1) by (unfold u16; rewrite Z.mod_small; lia).
    apply (IH _ (delete (l, p) G) (S l) (p / 64) pa); cbn [nodes node_put node_free].
    + by eapply shape_del_child.
    + by eapply content_del_child.
    + rewrite lookup_delete_ne; [done|]. intros [= ? ?]. lia.
    + lia.
Qed.

Lemma shrink_loop_spec fuel st t top G M :
  rt_shape (nodes st) (root_ t) top G → rt_content (nodes st) G M → (top < fuel)%nat →
  ∃ st' t', shrink_loop fuel st t = Ok (st', t') ∧ rt_rep st' t' M.
Proof.
  revert st t top G. induction fuel as [|fuel IH]; intros st t top G HS HM Hf; [lia|].
  cbn [shrink_loop]. assert (rt_rep st t M) as Hrep by (by exists top, G).
  case_if; [eauto|].
  assert (G !! (top, 0) = Some (root_ t)) as HG.
  { rewrite (rs_root _ _ _ _ HS). apply gp_nonzero. by rewrite <- (rs_root _ _ _ _ HS). }
  destruct (shape_get _ _ _ _ HS _ _ _ HG) as (n & Hr0 & Hn & Hok).
  rewrite (node_get_ok _ _ _ Hr0 Hn). cbn [mbind res_bind]. case_if; [eauto|].
  rewrite (no_shift _ _ _ _ _ Hok) in *. rewrite (no_count _ _ _ _ _ Hok) in *.
  assert (0 < top)%nat as Ht by lia.
  pose proof (root_slot _ _ _ _ HS n 0 Ht Hn E ltac:(lia)) as Hslot.
  rewrite (arr_get_ok (slots_ n) 0 _ ltac:(lia) Hslot). cbn [mbind res_bind]. case_if; [eauto|].
  pose proof (gp_nonzero _ _ _ E0) as HC.
  destruct (shape_get _ _ _ _ HS _ _ _ HC) as (c & Hc0 & Hcn & Hokc).
  rewrite (node_get_ok _ _ _ Hc0 Hcn). cbn [mbind res_bind].
  apply (IH _ (RTree (gp G (pred top) 0) (u32 (max_depth_ t - 1))) (pred top) (delete (top, 0) G));
    cbn [nodes node_put node_free root_].
  - eapply shape_shrink; try done.
  - eapply content_shrink; try done.
  - lia.
Qed.

(** [radix_tree_remove] returns the value that was stored (NULL when there
    was none) and removes the key; the nodes it empties are unlinked before
    they are freed, and the writer never touches a freed node. *)
Lemma radix_remove_spec (st : node_store) (t : radix_tree) (M : gmap Z Z) (key : Z) :
  rt_rep st t M → is_u32 key →
  ∃ st' t', radix_tree_remove st (Some t) key = Ok (st', Some t', default 0 (M !! key)) ∧
    rt_rep st' t' (delete key M).
Proof.
  intros Hrep Hk. pose proof Hrep as (top & G & HS & HM). unfold radix_tree_remove.
  assert (M !! key = None → ∃ st' t',
    Ok (st, Some t, 0) = Ok (st', Some t', default 0 (M !! key)) ∧ rt_rep st' t' (delete key M)) as Habsent.
  { intros Hnone. exists st, t. rewrite Hnone, delete_id by done. done. }
  case_if; [apply Habsent; by eapply empty_tree|].
  destruct (walk_spec st t top G M key HS HM Hk E) as (r & -> & Hmax & Hnone & Hwalk).
  cbn [mbind res_bind]. rewrite Hmax. case_if; [by apply Habsent, Hnone|].
  rewrite (Hwalk E0). cbn [mbind res_bind].
  destruct (decide (gp G 0 (key / 64) = 0)) as [Hz|Hz].
  { rewrite Hz. simpl. apply Habsent. eapply no_leaf_value; [done|]. by eapply gp_zero. }
  rewrite (proj2 (Z.eqb_neq _ 0)) by done. apply gp_nonzero in Hz.
  destruct (shape_get _ _ _ _ HS _ _ _ Hz) as (n & Ha0 & Hn & Hok).
  rewrite (node_get_ok _ _ _ Ha0 Hn). cbn [mbind res_bind].
  destruct (leaf_slot _ _ _ _ HS key _ _ Hz Hn) as (v & -> & Hv & Hlen & Hc & Hcb). cbn [mbind res_bind].
  pose proof (leaf_value _ _ M key _ _ _ HM Hz Hn Hv) as HMv.
  case_if.
  { subst v. apply Habsent. destruct (M !! key) as [w|] eqn:Hw; [|done]. simpl in E1. subst w.
    apply HM in Hw as (? & ? & _ & _ & _ & ?). done. }
  rewrite leaf_offset_mod. pose proof (Z.mod_pos_bound key 64 ltac:(lia)).
  unfold set_slot. rewrite arr_set_ok by lia. cbn [mbind res_bind]. unfold set_count.
  cbn [shift_ offset_ parent_ slots_ count_].
  destruct (write_leaf st t top G M key _ n 0 v HS HM Hz Hn Hv Hc Hlen) as [HS1 HM1].
  rewrite (proj2 (Z.eqb_neq v 0)) in HS1, HM1 by done. cbn [Z.eqb] in HS1, HM1.
  rewrite Z.add_0_r in HS1, HM1. set (st1 := node_put st _ _) in *.
  destruct (remove_up_spec levels st1 t top G (delete key M) 0 (key / 64) _ HS1 HM1 Hz)
    as (st2 & t2 & top2 & G2 & Hup & HS2 & HM2).
  { unfold levels. pose proof (rs_top _ _ _ _ HS). lia. }
  rewrite Hup. cbn [mbind res_bind].
  destruct (shrink_loop_spec levels st2 t2 top2 G2 (delete key M) HS2 HM2) as (st3 & t3 & Hsh & Hrep3).
  { unfold levels. pose proof (rs_top _ _ _ _ HS2). lia. }
  unfold radix_tree_shrink. case_if; cbn [mbind res_bind].
  - rewrite Hsh. cbn [mbind res_bind]. rewrite HMv. eauto.
  - rewrite HMv. do 2 eexists. split; [done|]. by exists top2, G2.
Qed.

(** ** Ordered search *)

(** The smallest key from [key] on, if there is one. *)
Definition next_key (M : gmap Z Z) (key : Z) (r : option (Z * Z)) : Prop :=
  match r with
  | Some (v, k) => key ≤ k ∧ M !! k = Some v ∧ ∀ j, key ≤ j < k → M !! j = None
  | None => ∀ j, key ≤ j → M !! j = None
  end.

Lemma u64_pow n : 0 ≤ n < 64 → u64 (Z.shiftl 1 n) = 2 ^ n ∧ u64 (2 ^ n - 1) = 2 ^ n - 1.
Proof.
  intros Hn. rewrite Z.shiftl_1_l. pose proof (Z.pow_pos_nonneg 2 n ltac:(lia) ltac:(lia)).
  pose proof (Z.pow_lt_mono_r 2 n 64 ltac:(lia) ltac:(lia) ltac:(lia)) as Hlt.
  change (2 ^ 64) with 18446744073709551616 in Hlt. unfold u64. rewrite !Z.mod_small by lia. done.
Qed.

Lemma scan_slots_spec k slots i :
  length slots = 64%nat → 0 ≤ i → 64 ≤ i + Z.of_nat k → i ≤ 64 →
  ∃ r, scan_slots k slots i = Ok r ∧
    match r with
    | Some (j, v) => i ≤ j < 64 ∧ slots !! Z.to_nat j = Some v ∧ v ≠ 0 ∧
                     ∀ x, i ≤ x < j → slots !! Z.to_nat x = Some 0
    | None => ∀ x, i ≤ x < 64 → slots !! Z.to_nat x = Some 0
    end.
Proof.
  intros Hlen. revert i. induction k as [|k IH]; intros i Hi Hk Hi64; cbn [scan_slots].
  { exists None. split; [done|]. intros x Hx. lia. }
  unfold RADIX_TREE_MAP_SIZE. case_if.
  2:{ exists None. split; [done|]. intros x Hx. lia. }
  destruct (arr_get_total slots i) as (v & -> & Hv); [lia|]. cbn [mbind res_bind].
  destruct (Z.eqb_spec v 0) as [-> |Hv0]; cbn [negb].
  2:{ eexists. split; [done|]. split_and!; [lia|lia|done|done|]. intros x Hx. lia. }
  rewrite u8_small by lia. destruct (IH (i + 1)) as (r & -> & Hr); [lia|lia|lia|].
  exists r. split; [done|]. destruct r as [[j w]|].
  - destruct Hr as (Hj & Hw & Hw0 & Hx). split_and!; [lia|lia|done|done|]. intros x Hx'.
    destruct (decide (x = i)) as [->|]; [done|]. apply Hx. lia.
  - intros x Hx'. destruct (decide (x = i)) as [->|]; [done|]. apply Hr. lia.
Qed.

Section FindNext.
Context (st : node_store) (root : Z) (top : nat) (G : layout) (M : gmap Z Z).
Context (HS : rt_shape (nodes st) root top G) (HM : rt_content (nodes st) G M).

(** A stored key has a node on every level of its path. *)
Lemma key_path j v l : M !! j = Some v → (l ≤ top)%nat → is_Some (G !! (l, pre j l)).
Proof.
  intros (a & n & Ha & _)%HM Hl. apply (path_up _ _ _ _ HS j 0); [by exists a|lia].
Qed.

Lemma key_u32 j v : M !! j = Some v → is_u32 j.
Proof.
  intros (a & n & Ha & _)%HM. destruct (rs_range _ _ _ _ HS _ _ _ Ha) as [H1 H2].
  change (span 0) with 64 in H2. split; Z.to_euclidean_division_equations; lia.
Qed.

(** No key lies under empty slots. *)
Lemma gap_inner l p a n lo hi j :
  G !! (S l, p) = Some a → nodes st !! a = Some n →
  (∀ x, lo ≤ x < hi → slots_ n !! Z.to_nat x = Some 0) → 0 ≤ lo → hi ≤ 64 →
  (64 * p + lo) * span l ≤ j < (64 * p + hi) * span l → M !! j = None.
Proof.
  intros Ha Hn Hx Hlo Hhi Hj. destruct (M !! j) as [v|] eqn:Hv; [exfalso|done].
  pose proof (shape_level _ _ _ _ HS _ _ _ Ha) as Hl.
  destruct (key_path j v l Hv ltac:(lia)) as [b Hb].
  destruct (rs_node _ _ _ _ HS _ _ _ Ha) as (n' & Hn' & Hok). rewrite Hn in Hn'. injection Hn' as <-.
  pose proof (span_pos l) as Hsp.
  assert (64 * p + lo ≤ pre j l < 64 * p + hi) as Hp.
  { unfold pre. split; [apply Z.div_le_lower_bound; lia|apply Z.div_lt_upper_bound; lia]. }
  specialize (Hx (pre j l - 64 * p) ltac:(lia)).
  rewrite (no_kids _ _ _ _ _ Hok l) in Hx by (done || lia). injection Hx as Hx.
  replace (64 * p + (pre j l - 64 * p)) with (pre j l) in Hx by lia.
  apply (gp_zero _ _ _ _ HS) in Hx. congruence.
Qed.

Lemma gap_leaf q a n lo hi j :
  G !! (0%nat, q) = Some a → nodes st !! a = Some n →
  (∀ x, lo ≤ x < hi → slots_ n !! Z.to_nat x = Some 0) → 0 ≤ lo → hi ≤ 64 →
  64 * q + lo ≤ j < 64 * q + hi → M !! j = None.
Proof.
  intros Ha Hn Hx Hlo Hhi Hj. destruct (M !! j) as [v|] eqn:Hv; [exfalso|done].
  apply HM in Hv as (b & n' & Hb & Hn' & Hs & Hv0).
  assert (j / 64 = q ∧ j `mod` 64 = j - 64 * q) as [Hq Hm] by (Z.to_euclidean_division_equations; lia).
  rewrite Hq, Ha in Hb. injection Hb as <-. rewrite Hn in Hn'. injection Hn' as <-.
  rewrite Hm, Hx in Hs by lia. congruence.
Qed.

(** What one descent establishes. *)
Definition fn_ok (key : Z) (out : fn_out) : Prop :=
  match out with
  | FnLeaf a k => key ≤ k ∧ is_u32 k ∧ G !! (0%nat, k / 64) = Some a ∧ ∀ j, key ≤ j < k → M !! j = None
  | FnRestart k => is_u32 k ∧ (∀ j, key ≤ j < k → M !! j = None) ∧
      ∃ l p, is_Some (G !! (l, p)) ∧ key < (p + 1) * span l ≤ k
  | FnNull => ∀ j, key ≤ j → M !! j = None
  end.

Lemma fn_ok_mono key key' out :
  key ≤ key' → (∀ j, key ≤ j < key' → M !! j = None) → fn_ok key' out → fn_ok key out.
Proof.
  intros Hle Hgap. assert (∀ k, (∀ j, key' ≤ j < k → M !! j = None) → ∀ j, key ≤ j < k → M !! j = None) as Hext.
  { intros k Hk j Hj. destruct (decide (j < key')); [apply Hgap; lia|apply Hk; lia]. }
  destruct out as [a k|k|]; simpl.
  - intros (H1 & H2 & H3 & H4). split_and!; [lia|done|done|by apply Hext].
  - intros (H1 & H2 & l & p & Hp & H3). split_and!; [done|by apply Hext|]. exists l, p. split; [done|lia].
  - intros H j Hj. destruct (decide (j < key')); [apply Hgap; lia|apply H; lia].
Qed.

(** The key of the first slot in use to the right. *)
Lemma jump_key key l i :
  is_u32 key → (S l ≤ 5)%nat → 0 ≤ i < 64 →
  (64 * pre key (S l) + i) * span l < 4294967296 →
  u32 (Z.lor (Z.land key (u64 (Z.lnot (u64 (u64 (Z.shiftl 1 (6 * Z.of_nat (S l) + RADIX_TREE_MAP_SHIFT)) - 1)))))
         (u64 (Z.shiftl i (6 * Z.of_nat (S l))))) = (64 * pre key (S l) + i) * span l.
Proof.
  intros Hk Hl Hi Hr. unfold RADIX_TREE_MAP_SHIFT.
  destruct (u64_pow (6 * Z.of_nat (S l) + 6)) as [-> ->]; [lia|].
  unfold u64 at 1. change 18446744073709551616 with (2 ^ 64). destruct Hk as [Hk1 Hk2].
  rewrite land_high by (change (2 ^ 64) with 18446744073709551616; lia).
  pose proof (span_pos l) as Hsp. pose proof (span_S l) as HspS.
  assert (2 ^ (6 * Z.of_nat (S l)) = span l) as Hpow by (unfold span; f_equal; lia).
  rewrite Z.shiftl_mul_pow2, Hpow by lia.
  assert (0 ≤ i * span l < span (S l)) as Hi2 by nia.
  assert (span (S l) ≤ 68719476736) as Hmax.
  { unfold span. change 68719476736 with (2 ^ 36). apply Z.pow_le_mono_r; lia. }
  unfold u64. rewrite (Z.mod_small (i * span l)) by lia.
  rewrite lor_low by (lia || exact Hi2). change (2 ^ (6 * Z.of_nat (S l) + 6)) with (span (S l)).
  pose proof (pre_nonneg key (S l) Hk1). fold (pre key (S l)). rewrite u32_small; nia.
Qed.

(** The key behind a node: where the search restarts. *)
Lemma restart_key key l :
  is_u32 key → (l ≤ 4)%nat →
  u64 (Z.land key (u64 (Z.lnot (u64 (u64 (Z.shiftl 1 (u8 (6 * Z.of_nat l + RADIX_TREE_MAP_SHIFT))) - 1)))) +
       u64 (Z.shiftl 1 (u8 (6 * Z.of_nat l + RADIX_TREE_MAP_SHIFT)))) = (pre key l + 1) * span l.
Proof.
  intros [Hk1 Hk2] Hl. unfold RADIX_TREE_MAP_SHIFT. rewrite u8_small by lia.
  destruct (u64_pow (6 * Z.of_nat l + 6)) as [-> ->]; [lia|].
  unfold u64 at 2. change 18446744073709551616 with (2 ^ 64).
  rewrite land_high by (change (2 ^ 64) with 18446744073709551616; lia).
  change (2 ^ (6 * Z.of_nat l + 6)) with (span l). fold (pre key l).
  assert (span l ≤ 1073741824) as Hmax.
  { unfold span. change 1073741824 with (2 ^ 30). apply Z.pow_le_mono_r; lia. }
  pose proof (span_pos l). pose proof (pre_nonneg key l Hk1).
  assert (pre key l * span l ≤ key) by (unfold pre; rewrite Z.mul_comm; apply Z.mul_div_le; lia).
  unfold u64. rewrite Z.mod_small by lia. lia.
Qed.

Lemma pre_bounds key l : pre key l * span l ≤ key < (pre key l + 1) * span l.
Proof.
  pose proof (span_pos l). unfold pre. pose proof (Z.mul_div_le key (span l) ltac:(lia)).
  pose proof (Z.mul_succ_div_gt key (span l) ltac:(lia)). lia.
Qed.

Lemma pre_mul q l : 0 ≤ q → pre (q * span l) l = q.
Proof. intros. unfold pre. apply Z.div_mul. pose proof (span_pos l). lia. Qed.

(** A node without anything to the right of the key. *)
Lemma exhausted key l a n :
  is_u32 key → G !! (S l, pre key (S l)) = Some a → nodes st !! a = Some n →
  (∀ x, pre key l `mod` 64 ≤ x < 64 → slots_ n !! Z.to_nat x = Some 0) →
  ∀ j, key ≤ j < (pre key (S l) + 1) * span (S l) → M !! j = None.
Proof.
  intros Hk Ha Hn Hx j Hj. pose proof (div_child (pre key l)) as [Hp Hm]. rewrite <- pre_S in Hp.
  eapply (gap_inner l (pre key (S l)) a n (pre key l `mod` 64) 64 j Ha Hn Hx); [lia|lia|].
  rewrite <- Hp. rewrite span_S in Hj. pose proof (pre_bounds key l). lia.
Qed.

Lemma find_descend_spec fuel key l a :
  is_u32 key → G !! (l, pre key l) = Some a → (l < fuel)%nat →
  ∃ out, find_descend fuel st a key = Ok out ∧ fn_ok key out.
Proof.
  revert key l a. induction fuel as [|fuel IH]; intros key l a Hk Ha Hf; [lia|]. cbn [find_descend].
  destruct (shape_get _ _ _ _ HS _ _ _ Ha) as (n & Ha0 & Hn & Hok).
  rewrite (node_get_ok _ _ _ Ha0 Hn). cbn [mbind res_bind]. rewrite (no_shift _ _ _ _ _ Hok).
  pose proof (shape_level _ _ _ _ HS _ _ _ Ha) as Hlev. pose proof (rs_top _ _ _ _ HS) as Htop.
  destruct l as [|l].
  { exists (FnLeaf a key). split; [done|]. split_and!; [lia|done|exact Ha|]. intros j Hj. lia. }
  rewrite (proj2 (Z.ltb_lt _ _)) by lia. cbn zeta. rewrite (key_offset_pre key l) by apply Hk.
  pose proof (div_child (pre key l)) as [Hp Hm]. rewrite <- pre_S in Hp.
  destruct (scan_slots_spec 64 (slots_ n) (pre key l `mod` 64)) as (r & -> & Hr);
    [apply Hok|lia|lia|lia|]. cbn [mbind res_bind]. destruct r as [[i c]|].
  - destruct Hr as (Hi & Hc & Hc0 & Hx). rewrite (no_kids _ _ _ _ _ Hok l i) in Hc by (done || lia).
    injection Hc as Hc. assert (G !! (l, 64 * pre key (S l) + i) = Some c) as HG.
    { rewrite <- Hc. apply gp_nonzero. by rewrite Hc. }
    destruct (rs_range _ _ _ _ HS _ _ _ HG) as [Hr1 Hr2].
    destruct (Z.ltb_spec (pre key l `mod` 64) i) as [Hlt|Hge].
    + rewrite jump_key by (done || lia). set (key' := (64 * pre key (S l) + i) * span l) in *.
      assert (is_u32 key') as Hk' by (pose proof (span_pos l); unfold key', is_u32; nia).
      destruct (IH key' l c Hk') as (out & -> & Hout); [unfold key'; by rewrite pre_mul by done|lia|].
      exists out. split; [done|]. revert Hout. apply fn_ok_mono.
      * pose proof (pre_bounds key l). unfold key'. pose proof (span_pos l). nia.
      * intros j Hj. eapply (gap_inner l _ a n _ i j Ha Hn Hx); [lia|lia|]. rewrite <- Hp.
        pose proof (pre_bounds key l). unfold key' in Hj. lia.
    + replace i with (pre key l `mod` 64) in HG by lia. rewrite <- Hp in HG. apply (IH key l); [done|done|lia].
  - pose proof (exhausted key l a n Hk Ha Hn Hr) as Hgap.
    assert (l = 4%nat → ∀ j, key ≤ j → M !! j = None) as Hlast.
    { intros -> j Hj. destruct (M !! j) as [v|] eqn:Hv; [|done]. apply key_u32 in Hv as Hj32.
      rewrite <- Hv. apply Hgap. pose proof (pre_bounds key 5). unfold is_u32 in *.
      pose proof (pre_nonneg key 5 ltac:(lia)). change (span 5) with 68719476736 in *. lia. }
    destruct (decide (l = 4%nat)) as [->|Hl4].
    { exists FnNull. split; [reflexivity|exact (Hlast eq_refl)]. }
    rewrite (proj2 (Z.leb_gt _ _)) by (unfold RADIX_TREE_MAP_SHIFT; rewrite u8_small; lia).
    rewrite restart_key by (done || lia). case_if.
    + exists FnNull. split; [done|]. intros j Hj. destruct (M !! j) as [v|] eqn:Hv; [|done].
      apply key_u32 in Hv as Hj32. rewrite <- Hv. apply Hgap. unfold is_u32 in *. lia.
    + pose proof (pre_bounds key (S l)). destruct Hk as [Hk1 Hk2].
      rewrite u32_small by lia. eexists. split; [done|]. split_and!; [split; lia|done|].
      exists (S l), (pre key (S l)). split; [by exists a|lia].
Qed.

(** The nodes the search has not passed yet; every restart passes one. *)
Definition ahead (key : Z) : layout := filter (λ x, key < (x.1.2 + 1) * span x.1.1) G.

Lemma ahead_shrinks key key' l p :
  is_Some (G !! (l, p)) → key < (p + 1) * span l → (p + 1) * span l ≤ key' →
  (size (ahead key') < size (ahead key))%nat.
Proof.
  intros [a Ha] Hlt Hle. apply map_subset_size. split.
  - apply map_subseteq_spec. intros [l2 p2] b. unfold ahead.
    rewrite !map_lookup_filter_Some. cbn [fst snd]. intros [H1 H2]. split; [done|]. simpl in *. lia.
  - intros Hsub. assert (ahead key !! (l, p) = Some a) as Hin.
    { unfold ahead. apply map_lookup_filter_Some. split; [done|]. simpl. lia. }
    apply (lookup_weaken _ _ _ _ Hin) in Hsub. unfold ahead in Hsub.
    apply map_lookup_filter_Some in Hsub as [_ Hsub]. simpl in Hsub. lia.
Qed.

Lemma layout_size : (size G ≤ size (nodes st))%nat.
Proof.
  assert (NoDup (snd <$> map_to_list G)) as Hnd.
  { apply NoDup_fmap_2_strong; [|apply NoDup_map_to_list].
    intros [x a] [y b] Hx%elem_of_map_to_list Hy%elem_of_map_to_list. simpl. intros ->.
    by rewrite (rs_inj _ _ _ _ HS _ _ _ Hx Hy). }
  rewrite <- length_map_to_list, <- (length_fmap snd), <- (size_dom (D := gset Z) (nodes st)).
  change (size (dom (nodes st))) with (length (elements (dom (nodes st)))).
  apply submseteq_length, NoDup_submseteq; [done|].
  intros a ([[l p] b] & -> & Hb%elem_of_map_to_list)%list_elem_of_fmap. simpl.
  apply elem_of_elements, elem_of_dom. destruct (rs_node _ _ _ _ HS _ _ _ Hb) as (n & Hn & _). by exists n.
Qed.

Lemma next_key_mono key key' r :
  key ≤ key' → (∀ j, key ≤ j < key' → M !! j = None) → next_key M key' r → next_key M key r.
Proof.
  intros Hle Hgap. destruct r as [[v k]|]; simpl.
  - intros (H1 & H2 & H3). split_and!; [lia|done|]. intros j Hj.
    destruct (decide (j < key')); [apply Hgap; lia|apply H3; lia].
  - intros H j Hj. destruct (decide (j < key')); [apply Hgap; lia|apply H; lia].
Qed.

(** The last step of the search, in the leaf. *)
Lemma leaf_search key a n :
  is_u32 key → G !! (0%nat, key / 64) = Some a → nodes st !! a = Some n →
  ∃ r, scan_slots 64 (slots_ n) (key `mod` 64) = Ok r ∧
    match r with
    | Some (i, v) => next_key M key (Some (v, 64 * (key / 64) + i)) ∧ 0 ≤ i < 64
    | None => ∀ j, key ≤ j < 64 * (key / 64) + 64 → M !! j = None
    end.
Proof.
  intros Hk Ha Hn. pose proof (div_child key) as [Hke Hkm].
  destruct (leaf_slot _ _ _ _ HS key _ _ Ha Hn) as (_ & _ & _ & Hlen & _).
  destruct (scan_slots_spec 64 (slots_ n) (key `mod` 64)) as (r & -> & Hr); [done|lia|lia|lia|].
  exists r. split; [done|]. destruct r as [[i v]|].
  - destruct Hr as (Hi & Hv & Hv0 & Hx). split; [|lia]. split_and!; [lia| |].
    + apply HM. exists a, n. rewrite (proj1 (child_div (key / 64) i ltac:(lia))).
      rewrite (proj2 (child_div (key / 64) i ltac:(lia))). done.
    + intros j Hj. eapply (gap_leaf (key / 64) a n _ i j Ha Hn Hx); lia.
  - intros j Hj. eapply (gap_leaf (key / 64) a n _ 64 j Ha Hn Hr); lia.
Qed.

Lemma leaf_key key i : is_u32 key → 0 ≤ i < 64 →
  Z.land key (u32 (Z.lnot RADIX_TREE_MAP_MASK)) = key / 64 * 64 ∧
  Z.lor (key / 64 * 64) i = 64 * (key / 64) + i.
Proof.
  intros Hk Hi. change RADIX_TREE_MAP_MASK with (2 ^ 6 - 1). unfold u32. change 4294967296 with (2 ^ 32).
  rewrite land_high by (change (2 ^ 32) with 4294967296; unfold is_u32 in Hk; lia).
  change (2 ^ 6) with 64. split; [done|]. change 64 with (2 ^ 6) at 2. rewrite lor_low; simpl; lia.
Qed.

Lemma find_next_loop_spec fuel t key :
  root = root_ t → is_u32 key → (size (ahead key) < fuel)%nat →
  ∃ r, find_next_loop fuel st t key = Ok r ∧ next_key M key r.
Proof.
  intros Hroot. revert key. induction fuel as [|fuel IH]; intros key Hk Hf; [lia|]. cbn [find_next_loop].
  rewrite <- Hroot. destruct (Z.eqb_spec root 0) as [Hr|Hr].
  { exists None. split; [done|]. intros j _. eapply no_leaf_value; [done|].
    by rewrite (rs_empty _ _ _ _ HS Hr). }
  assert (G !! (top, 0) = Some root) as HG.
  { rewrite (rs_root _ _ _ _ HS). apply gp_nonzero. by rewrite <- (rs_root _ _ _ _ HS). }
  destruct (shape_get _ _ _ _ HS _ _ _ HG) as (nr & Hr0 & Hnr & Hokr). pose proof (rs_top _ _ _ _ HS) as Htop.
  rewrite (node_get_ok _ _ _ Hr0 Hnr). cbn [mbind res_bind].
  rewrite (no_shift _ _ _ _ _ Hokr), max_key_spec by done.
  destruct (Z.eqb_spec (pre key top) 0) as [Hp|Hp]; cbn [negb].
  2:{ exists None. split; [done|]. intros j Hj. destruct (M !! j) as [v|] eqn:Hv; [exfalso|done].
      pose proof (path_top _ _ _ _ HS j 0 (key_path j v 0 Hv ltac:(lia))) as Hp0.
      destruct Hk as [Hk1 _]. pose proof (pre_nonneg key top Hk1).
      assert (pre key top ≤ pre j top) by (apply Z.div_le_mono; [apply span_pos|done]). lia. }
  destruct (find_descend_spec levels key top root Hk) as (out & -> & Hout); [by rewrite Hp|unfold levels; lia|].
  cbn [mbind res_bind]. destruct out as [a k|k|]; simpl in Hout.
  - destruct Hout as (Hle & Hk' & Ha & Hgap). destruct (shape_get _ _ _ _ HS _ _ _ Ha) as (n & Ha0 & Hn & Hok).
    rewrite (node_get_ok _ _ _ Ha0 Hn). cbn [mbind res_bind]. rewrite leaf_offset_mod.
    destruct (leaf_search k a n Hk' Ha Hn) as (r & -> & Hr'). cbn [mbind res_bind].
    destruct (leaf_key k 0 Hk' ltac:(lia)) as [-> _]. destruct r as [[i v]|].
    + destruct Hr' as [Hnext Hi]. destruct (leaf_key k i Hk' Hi) as [_ ->].
      eexists. split; [done|]. by apply (next_key_mono key k).
    + pose proof (div_child k) as [Hke Hkm]. unfold is_u32, RADIX_TREE_MAP_SIZE in *.
      unfold u64. rewrite Z.mod_small by lia. case_if.
      * exists None. split; [done|]. apply (next_key_mono key k); [done|done|]. intros j Hj.
        destruct (M !! j) as [v|] eqn:Hv; [|done]. pose proof (key_u32 j v Hv) as Hj32. unfold is_u32 in Hj32.
        rewrite <- Hv. apply Hr'. lia.
      * rewrite u32_small by lia.
        destruct (IH (k / 64 * 64 + 64)) as (r & -> & Hnext); [lia| |].
        { eapply Nat.lt_le_trans; [eapply (ahead_shrinks key _ 0 (k / 64)); [by exists a| |]|lia];
            change (span 0) with 64; lia. }
        eexists. split; [done|]. apply (next_key_mono key k); [done|done|].
        eapply next_key_mono; [| |exact Hnext]; [lia|]. intros j Hj. apply Hr'. lia.
  - destruct Hout as (Hk' & Hgap & l & p & Hlp & Hlt & Hle).
    destruct (IH k Hk') as (r & -> & Hnext).
    { eapply Nat.lt_le_trans; [by eapply (ahead_shrinks key _ l p)|lia]. }
    eexists. split; [done|]. eapply next_key_mono; [| |exact Hnext]; [lia|done].
  - by exists None.
Qed.
End FindNext.

(** C21. [radix_tree_find_next] returns the value of the smallest key not below
    [*inout_key] and stores that key, or returns NULL and leaves [*inout_key]
    alone when there is none; it ends after at most as many restarts as the
    tree has nodes. *)
Theorem radix_tree_find_next_correct (fuel : nat) (st : node_store) (t : radix_tree) (M : gmap Z Z) (key : Z) :
  rt_rep st t M → is_u32 key → (size (nodes st) < fuel)%nat →
  ∃ r, next_key M key r ∧
    radix_tree_find_next fuel st (Some t) (Some key) =
      Ok (match r with Some (v, k) => (v, Some k) | None => (0, Some key) end).
Proof.
  intros (top & G & HS & HM) Hk Hf. unfold radix_tree_find_next.
  destruct (find_next_loop_spec st (root_ t) top G M HS HM fuel t key eq_refl Hk) as (r & -> & Hr).
  { pose proof (layout_size st (root_ t) top G HS). pose proof (map_size_filter (λ x, key < (x.1.2 + 1) * span x.1.1) G).
    unfold ahead. lia. }
  exists r. split; [done|]. cbn [mbind res_bind]. by destruct r as [[v k]|].
Qed.

(** ** A sequential allocator, for examples *)

Definition next_addr (ns : gmap Z radix_node) : Z := map_fold (λ a _ m, Z.max m (a + 512)) 4096 ns.

Definition bump_alloc (n : nat) (ns : gmap Z radix_node) : option Z := Some (next_addr ns).

Lemma next_addr_above ns : 4096 ≤ next_addr ns ∧ ∀ a, is_Some (ns !! a) → a < next_addr ns.
Proof.
  unfold next_addr.
  apply (map_fold_weak_ind (λ r m, 4096 ≤ r ∧ ∀ a, is_Some (m !! a) → a < r)).
  - split; [lia|]. intros a [? ?]. done.
  - intros a n m r Hm [IH1 IH2]. split; [lia|]. intros b Hb. rewrite lookup_insert in Hb.
    case_decide; [lia|]. specialize (IH2 b Hb). lia.
Qed.

Lemma bump_alloc_ok n ns p : bump_alloc n ns = Some p → p ≠ 0 ∧ ns !! p = None.
Proof.
  intros [= <-]. destruct (next_addr_above ns) as [H1 H2]. split; [lia|].
  destruct (ns !! next_addr ns) as [x|] eqn:E; [|done]. specialize (H2 _ (mk_is_Some _ _ E)). lia.
Qed.

(** An allocator that works for the first [k] calls only. *)
Definition limited_alloc (k n : nat) (ns : gmap Z radix_node) : option Z :=
  if (n <? k)%nat then Some (next_addr ns) else None.

Lemma limited_alloc_ok k n ns p : limited_alloc k n ns = Some p → p ≠ 0 ∧ ns !! p = None.
Proof. unfold limited_alloc. case_if; [|done]. apply (bump_alloc_ok n). Qed.

Definition empty_store : node_store := Store ∅ false 0.

Lemma empty_rep : rt_rep empty_store radix_tree_init ∅.
Proof.
  exists 0%nat, ∅. split; [|by intros k v; split; [|intros (? & ? & ? & _)]].
  split; try done; [lia|]. intros a [? ?]. done.
Qed.

(** A tree built by insertions. *)
Fixpoint insert_all (alloc : nat → gmap Z radix_node → option Z) (st : node_store) (t : radix_tree)
    (kvs : list (Z * Z)) : res (node_store * radix_tree) :=
  match kvs with
  | [] => Ok (st, t)
  | (k, v) :: kvs =>
      '(st, t, _) ← radix_tree_insert true alloc st (Some t) k v;
      match t with Some t => insert_all alloc st t kvs | None => Fault end
  end.

Lemma insert_all_rep kvs st t M :
  rt_rep st t M → Forall (λ kv, is_u32 (kv.1)) kvs →
  ∃ st' t', insert_all bump_alloc st t kvs = Ok (st', t') ∧
    (NoDup (kvs.*1) → Forall (λ kv, kv.2 ≠ 0 ∧ M !! kv.1 = None) kvs →
     rt_rep st' t' (foldl (λ m kv, <[kv.1 := kv.2]> m) M kvs)).
Proof.
  revert st t M. induction kvs as [|[k v] kvs IH]; intros st t M Hrep Hk; [by exists st, t|].
  inversion_clear Hk as [|? ? Hk1 Hk2]. cbn [insert_all].
  destruct (radix_insert_spec true bump_alloc eq_refl bump_alloc_ok st t M k v Hrep Hk1)
    as (st1 & t1 & rc & -> & Hcase). cbn [mbind res_bind].
  destruct Hcase as [(-> & Hv & HM & Hrep1)|(-> & Hrep1 & Hwhy)];
    destruct (IH st1 t1 _ Hrep1 Hk2) as (st2 & t2 & -> & Hrest); exists st2, t2; (split; [done|]).
  - intros Hnd Hall. inversion_clear Hnd as [|? ? Hnin Hnd']. inversion_clear Hall as [|? ? [Hv1 HM1] Hall'].
    simpl. apply Hrest; [done|]. rewrite Forall_forall in Hall' |- *. intros [k' v'] Hin.
    destruct (Hall' _ Hin) as [Hv' HM']. simpl in *. split; [done|].
    rewrite lookup_insert_ne; [done|]. intros <-. apply Hnin. apply list_elem_of_fmap. by exists (k, v').
  - intros _ Hall. inversion_clear Hall as [|? ? [Hv1 HM1] Hall']. simpl in *.
    destruct Hwhy as [?|[[w Hw]|(n & ns & Hoom)]]; [done|congruence|done].
Qed.

Definition demo_pairs : list (Z * Z) := [(7, 70); (5000, 71); (4294967295, 72); (64, 73)].

(** The tree of [demo_pairs]. *)
Lemma demo_rep :
  ∃ st t, insert_all bump_alloc empty_store radix_tree_init demo_pairs = Ok (st, t) ∧
    rt_rep st t (foldl (λ m kv, <[kv.1 := kv.2]> m) ∅ demo_pairs).
Proof.
  destruct (insert_all_rep demo_pairs _ _ _ empty_rep) as (st & t & Heq & Hrep).
  { repeat constructor; simpl; lia. }
  exists st, t. split; [done|]. apply Hrep.
  - apply (bool_decide_unpack _). vm_compute. done.
  - repeat constructor; done.
Qed.

(** C22. [radix_tree_insert] adds a new key and returns 0, or returns -1 and
    leaves the stored map alone: for a NULL value, for a key that is present,
    or when an allocation fails, however far growing and descending had got.
    It always returns, and the tree stays well formed. *)
Theorem radix_tree_insert_failsafe (kmem_cache_create : bool)
    (kmem_cache_alloc : nat → gmap Z radix_node → option Z)
    (st : node_store) (t : radix_tree) (M : gmap Z Z) (key value : Z) :
  kmem_cache_create = true →
  (∀ n ns p, kmem_cache_alloc n ns = Some p → p ≠ 0 ∧ ns !! p = None) →
  rt_rep st t M → is_u32 key →
  ∃ st' t' rc,
    radix_tree_insert kmem_cache_create kmem_cache_alloc st (Some t) key value = Ok (st', Some t', rc) ∧
    ((rc = 0 ∧ value ≠ 0 ∧ M !! key = None ∧ rt_rep st' t' (<[key := value]> M)) ∨
     (rc = -1 ∧ rt_rep st' t' M ∧
      (value = 0 ∨ is_Some (M !! key) ∨ out_of_memory kmem_cache_alloc))).
Proof. intros Hcreate Halloc. by apply radix_insert_spec. Qed.

Lemma radix_tree_insert_failsafe_witness :
  ∃ st t rc, radix_tree_insert true (limited_alloc 4) empty_store (Some radix_tree_init) 5000 9 =
               Ok (st, Some t, rc) ∧
    ((rc = 0 ∧ 9 ≠ 0 ∧ (∅ : gmap Z Z) !! 5000 = None ∧ rt_rep st t (<[5000 := 9]> ∅)) ∨
     (rc = -1 ∧ rt_rep st t ∅ ∧
      (9 = 0 ∨ is_Some ((∅ : gmap Z Z) !! 5000) ∨ out_of_memory (limited_alloc 4)))).
Proof.
  apply (radix_tree_insert_failsafe true (limited_alloc 4) empty_store radix_tree_init ∅ 5000 9
    eq_refl (limited_alloc_ok 4) empty_rep). split; lia.
Defined.

Lemma radix_tree_find_next_correct_witness :
  ∃ st t, insert_all bump_alloc empty_store radix_tree_init demo_pairs = Ok (st, t) ∧
    ∃ r, next_key (foldl (λ m kv, <[kv.1 := kv.2]> m) ∅ demo_pairs) 65 r ∧
      radix_tree_find_next 100 st (Some t) (Some 65) =
        Ok (match r with Some (v, k) => (v, Some k) | None => (0, Some 65) end).
Proof.
  destruct demo_rep as (st & t & Heq & Hrep). exists st, t. split; [done|].
  apply (radix_tree_find_next_correct 100 st t _ 65 Hrep); [split; lia|].
  assert (match insert_all bump_alloc empty_store radix_tree_init demo_pairs with
          | Ok (st, _) => (size (nodes st) <? 100)%nat | _ => false end = true) as Hsz
    by (vm_compute; reflexivity).
  rewrite Heq in Hsz. by apply Nat.ltb_lt in Hsz.
Defined.

(** ** Destroying a tree *)

(** Destroying never drops an entry. *)
Lemma radix_tree_destroy_empty st t M o :
  rt_rep st t M → radix_tree_destroy (Some t) = Ok o → M = ∅.
Proof.
  intros (top & G & HS & HM). unfold radix_tree_destroy. case_if; [done|]. intros _.
  apply map_eq. intros k. rewrite lookup_empty. by eapply empty_tree.
Qed.

(** A tree that holds no entry can still make [radix_tree_destroy] panic:
    growing an empty tree for a large key chains empty nodes under slot 0 of
    the new root, and when that key is removed shrinking makes the chain the
    tree.  Here key 4096 is inserted and removed again. *)
Theorem radix_tree_destroy_panics_when_empty :
  ∃ st1 t1 st2 t2,
    radix_tree_insert true bump_alloc empty_store (Some radix_tree_init) 4096 1 = Ok (st1, Some t1, 0) ∧
    radix_tree_remove st1 (Some t1) 4096 = Ok (st2, Some t2, 1) ∧
    rt_rep st2 t2 ∅ ∧ radix_tree_destroy (Some t2) = Panic.
Proof.
  destruct (radix_insert_spec true bump_alloc eq_refl bump_alloc_ok _ _ _ 4096 1 empty_rep)
    as (st1 & t1 & rc & Hi & Hcase); [split; lia|].
  destruct Hcase as [(-> & _ & _ & Hrep1)|(_ & _ & [Hv|[[w Hw]|(n & ns & Ha)]])]; [|lia|discriminate Hw|discriminate Ha].
  destruct (radix_remove_spec st1 t1 _ 4096 Hrep1) as (st2 & t2 & Hr & Hrep2); [split; lia|].
  rewrite lookup_insert_eq in Hr. rewrite delete_insert_id in Hrep2 by done.
  exists st1, t1, st2, t2. split_and!; [done|exact Hr|done|].
  set (run := ('(st1, t1, rc) ← radix_tree_insert true bump_alloc empty_store (Some radix_tree_init) 4096 1;
    '(_, t2, _) ← radix_tree_remove st1 t1 4096; r ← Ok (radix_tree_destroy t2); Ok (rc, r))).
  assert (run = Ok (0, Panic)) as Hrun by (vm_compute; reflexivity).
  unfold run in Hrun. rewrite Hi in Hrun. cbn [mbind res_bind] in Hrun. rewrite Hr in Hrun.
  cbn [mbind res_bind] in Hrun.
  exact (f_equal (λ r, match r with Ok (_, d) => d | _ => Fault end) Hrun).
Qed.

(** ** The interface offered to clients *)

Class KeyMap (T : Type) := {
  km_rep : T → gmap Z Z → Prop;
  km_oom : Prop;
  km_lookup : T → Z → res Z;
  km_insert : T → Z → Z → res (T * Z);
  km_remove : T → Z → res (T * Z);
  km_destroy : T → res T
}.

Class KeyMapLaws (T : Type) `{KeyMap T} : Prop := {
  km_values (m : T) M k v : km_rep m M → M !! k = Some v → v ≠ 0;
  km_lookup_ok (m : T) M k : km_rep m M → is_u32 k → km_lookup m k = Ok (default 0 (M !! k));
  km_insert_ok (m : T) M k v : km_rep m M → is_u32 k →
    ∃ m' rc, km_insert m k v = Ok (m', rc) ∧
      ((rc = 0 ∧ v ≠ 0 ∧ M !! k = None ∧ km_rep m' (<[k := v]> M)) ∨
       (rc = -1 ∧ km_rep m' M ∧ (v = 0 ∨ is_Some (M !! k) ∨ km_oom)));
  km_remove_ok (m : T) M k : km_rep m M → is_u32 k →
    ∃ m', km_remove m k = Ok (m', default 0 (M !! k)) ∧ km_rep m' (delete k M);
  km_destroy_ok (m m' : T) M : km_rep m M → km_destroy m = Ok m' → M = ∅
}.

(** The radix tree with its nodes implements it, for any allocator that
    returns no live node. *)
Record tree_with_nodes (alloc : nat → gmap Z radix_node → option Z) := TreeN {
  tn_store : node_store; tn_tree : radix_tree
}.
Arguments TreeN {alloc}. Arguments tn_store {alloc}. Arguments tn_tree {alloc}.

Definition with_tree {alloc} (o : option radix_tree) (st : node_store) : res (tree_with_nodes alloc) :=
  match o with Some t => Ok (TreeN st t) | None => Fault end.

#[export] Instance radix_KeyMap alloc : KeyMap (tree_with_nodes alloc) := {|
  km_rep m M := rt_rep (tn_store m) (tn_tree m) M;
  km_oom := out_of_memory alloc;
  km_lookup m k := radix_tree_lookup (tn_store m) (Some (tn_tree m)) k;
  km_insert m k v :=
    '(st, o, rc) ← radix_tree_insert true alloc (tn_store m) (Some (tn_tree m)) k v;
    m ← with_tree o st; Ok (m, rc);
  km_remove m k :=
    '(st, o, v) ← radix_tree_remove (tn_store m) (Some (tn_tree m)) k;
    m ← with_tree o st; Ok (m, v);
  km_destroy m := o ← radix_tree_destroy (Some (tn_tree m)); with_tree o (tn_store m)
|}.

Lemma radix_KeyMapLaws alloc :
  (∀ n ns p, alloc n ns = Some p → p ≠ 0 ∧ ns !! p = None) → KeyMapLaws (tree_with_nodes alloc).
Proof.
  intros Halloc. split.
  - intros m M k v (top & G & HS & HM) Hv. apply HM in Hv as (? & ? & _ & _ & _ & ?). done.
  - intros m M k Hrep Hk. by apply radix_lookup_spec.
  - intros m M k v Hrep Hk. cbn [km_insert radix_KeyMap].
    destruct (radix_insert_spec true alloc eq_refl Halloc _ _ _ k v Hrep Hk) as (st & t & rc & -> & Hc).
    exists (TreeN st t), rc. split; [done|exact Hc].
  - intros m M k Hrep Hk. cbn [km_remove radix_KeyMap].
    destruct (radix_remove_spec _ _ _ k Hrep Hk) as (st & t & -> & Hc). exists (TreeN st t). split; [done|exact Hc].
  - intros m m' M Hrep. cbn [km_destroy radix_KeyMap].
    destruct (radix_tree_destroy (Some (tn_tree m))) as [o| | |] eqn:Hd; try done. intros _.
    exact (radix_tree_destroy_empty _ _ _ _ Hrep Hd).
Qed.

(** ** Refinement of a finite map *)

Inductive rt_op := RInsert (k v : Z) | RLookup (k : Z) | RRemove (k : Z).

Definition rt_op_key (op : rt_op) : Z := match op with RInsert k _ | RLookup k | RRemove k => k end.

Definition rt_call {T} `{KeyMap T} (m : T) (op : rt_op) : res (T * Z) :=
  match op with
  | RInsert k v => km_insert m k v
  | RLookup k => v ← km_lookup m k; Ok (m, v)
  | RRemove k => km_remove m k
  end.

Definition map_call (M : gmap Z Z) (op : rt_op) : gmap Z Z * Z :=
  match op with
  | RInsert k v =>
      if (v =? 0) || bool_decide (is_Some (M !! k)) then (M, -1) else (<[k := v]> M, 0)
  | RLookup k => (M, default 0 (M !! k))
  | RRemove k => (delete k M, default 0 (M !! k))
  end.

Fixpoint rt_run {T} `{KeyMap T} (m : T) (ops : list rt_op) : res (list Z) :=
  match ops with
  | [] => Ok []
  | op :: ops => '(m, r) ← rt_call m op; rs ← rt_run m ops; Ok (r :: rs)
  end.

Fixpoint map_run (M : gmap Z Z) (ops : list rt_op) : list Z :=
  match ops with
  | [] => []
  | op :: ops => let '(M, r) := map_call M op in r :: map_run M ops
  end.

Lemma rt_call_refines {T} `{KeyMapLaws T} (m : T) M op :
  ¬ km_oom → km_rep m M → is_u32 (rt_op_key op) →
  ∃ m', rt_call m op = Ok (m', (map_call M op).2) ∧ km_rep m' (map_call M op).1.
Proof.
  intros Hoom Hrep Hk. destruct op as [k v|k|k]; cbn [rt_call map_call rt_op_key] in *.
  - destruct (km_insert_ok m M k v Hrep Hk) as (m' & rc & -> & [(-> & Hv & HM & Hrep')|(-> & Hrep' & Hwhy)]);
      exists m'.
    + rewrite (proj2 (Z.eqb_neq v 0)), bool_decide_false by (done || (rewrite HM; by intros [? ?])). done.
    + assert ((v =? 0) || bool_decide (is_Some (M !! k)) = true) as ->; [|done].
      destruct Hwhy as [-> |[Hs|?]]; [done|by rewrite (bool_decide_true _ Hs), orb_true_r|done].
  - rewrite (km_lookup_ok m M k Hrep Hk). by exists m.
  - destruct (km_remove_ok m M k Hrep Hk) as (m' & -> & Hrep'). by exists m'.
Qed.

Lemma rt_run_refines {T} `{KeyMapLaws T} ops (m : T) M :
  ¬ km_oom → km_rep m M → Forall (λ op, is_u32 (rt_op_key op)) ops → rt_run m ops = Ok (map_run M ops).
Proof.
  intros Hoom. revert m M. induction ops as [|op ops IH]; intros m M Hrep Hops; [done|].
  inversion_clear Hops as [|? ? Hop Hops']. cbn [rt_run map_run].
  destruct (rt_call_refines m M op Hoom Hrep Hop) as (m' & -> & Hrep'). cbn [mbind res_bind].
  rewrite (IH m' _ Hrep' Hops'). cbn [mbind res_bind]. by destruct (map_call M op).
Qed.

(** C1. Any sequence of insertions, lookups and removals on a fresh radix tree
    returns exactly what a finite map from 32-bit keys to pointers returns, as
    long as the allocator does not run out; no step ever follows a NULL or a
    freed node. *)
Theorem radix_tree_refines_map (kmem_cache_alloc : nat → gmap Z radix_node → option Z) (ops : list rt_op) :
  (∀ n ns, ∃ p, kmem_cache_alloc n ns = Some p ∧ p ≠ 0 ∧ ns !! p = None) →
  Forall (λ op, is_u32 (rt_op_key op)) ops →
  rt_run (TreeN empty_store radix_tree_init : tree_with_nodes kmem_cache_alloc) ops = Ok (map_run ∅ ops).
Proof.
  intros Halloc Hops. assert (KeyMapLaws (tree_with_nodes kmem_cache_alloc)) as Hlaws.
  { apply radix_KeyMapLaws. intros n ns p Hp. destruct (Halloc n ns) as (q & Hq & ?).
    rewrite Hp in Hq. by injection Hq as <-. }
  apply rt_run_refines; [|apply empty_rep|done].
  intros (n & ns & Hn). destruct (Halloc n ns) as (q & Hq & _). congruence.
Qed.

Lemma radix_tree_refines_map_witness :
  rt_run (TreeN empty_store radix_tree_init : tree_with_nodes bump_alloc)
    [RInsert 5000 7; RInsert 5000 8; RInsert 4294967295 9; RLookup 5000; RRemove 5000; RLookup 5000;
     RLookup 4294967295] = Ok [0; -1; 0; 7; 7; 0; 9].
Proof.
  apply (radix_tree_refines_map bump_alloc).
  - intros n ns. eexists. split; [done|]. by apply (bump_alloc_ok n).
  - repeat constructor; simpl; lia.
Defined.
