(* ===== verification/Idr.v ===== *)
(** * The ID allocator of [src/src/lib/idr.c]

    [idr_t] holds a radix tree and the ID to try next.  The operations and
    their theorems are stated against [KeyMap], the interface that [RadixMap]
    discharges for the radix tree; [size_t]-like counters wrap at 32 bits and
    IDs are returned as a signed [int]. *)

From S2P Require Import Prelude RadixTree RadixMap.

Record idr (T : Type) := Idr { tree : T; next_id : Z }.
Arguments Idr {T}. Arguments tree {T}. Arguments next_id {T}.

Section Operations.
Context {T : Type} `{KeyMap T}.

(** [idr_init] with the tree [radix_tree_init] gives. *)
Definition idr_init (fresh : T) : idr T := Idr fresh 1.

Definition idr_destroy (i : option (idr T)) : res (option (idr T)) :=
  match i with
  | None => Ok None
  | Some i => t ← km_destroy (tree i); Ok (Some (Idr t (next_id i)))
  end.

(** [id++; if (id == 0) id = 1] *)
Definition next_after (id : Z) : Z := let n := u32 (id + 1) in if n =? 0 then 1 else n.

(** The search loop of [idr_alloc]. *)
Fixpoint idr_alloc_loop (fuel : nat) (i : idr T) (start_id id ptr : Z) : res (idr T * Z) :=
  match fuel with
  | O => Timeout
  | S fuel =>
      existing ← km_lookup (tree i) id;
      if existing =? 0 then
        '(t, rc) ← km_insert (tree i) id ptr;
        if rc =? 0 then Ok (Idr t (next_after id), s32 id)
        else Ok (Idr t (next_id i), -1)
      else
        let id := next_after id in
        if id =? start_id then Ok (i, -1) else idr_alloc_loop fuel i start_id id ptr
  end.

Definition idr_alloc (fuel : nat) (i : option (idr T)) (ptr : Z) : res (option (idr T) * Z) :=
  match i with
  | None => Ok (None, -1)
  | Some i =>
      if ptr =? 0 then Ok (Some i, -1) else
      '(i, r) ← idr_alloc_loop fuel i (next_id i) (next_id i) ptr; Ok (Some i, r)
  end.

Definition idr_find (i : option (idr T)) (id : Z) : res Z :=
  match i with
  | None => Ok 0
  | Some i => if id <=? 0 then Ok 0 else km_lookup (tree i) (u32 id)
  end.

Definition idr_remove (i : option (idr T)) (id : Z) : res (option (idr T)) :=
  match i with
  | None => Ok None
  | Some i =>
      if id <=? 0 then Ok (Some i) else
      '(t, _) ← km_remove (tree i) (u32 id); Ok (Some (Idr t (next_id i)))
  end.
End Operations.

(** ** Invariant *)

(** Every key is a valid ID and the next one to try is not 0. *)
Record idr_rep {T} `{KeyMap T} (i : idr T) (M : gmap Z Z) : Prop := {
  ir_tree : km_rep (tree i) M;
  ir_next : 0 < next_id i < 4294967296;
  ir_keys k v : M !! k = Some v → 0 < k < 4294967296
}.

(** The IDs tried between [start] and [id], cyclically and without 0. *)
Definition tried (start id j : Z) : Prop :=
  if start <=? id then start ≤ j < id else start ≤ j < 4294967296 ∨ 1 ≤ j < id.

#[local] Instance tried_dec start id j : Decision (tried start id j).
Proof. unfold tried. case_if; apply _. Defined.

Lemma next_after_range id : 0 < id < 4294967296 → 0 < next_after id < 4294967296.
Proof. intros. unfold next_after, u32. case_if; Z.to_euclidean_division_equations; lia. Qed.

Lemma next_after_eq id :
  0 < id < 4294967296 → next_after id = if id =? 4294967295 then 1 else id + 1.
Proof.
  intros. unfold next_after. destruct (Z.eqb_spec id 4294967295) as [-> |]; [reflexivity|].
  rewrite u32_small by lia. by rewrite (proj2 (Z.eqb_neq _ _)) by lia.
Qed.

Lemma tried_step start id j :
  0 < start < 4294967296 → 0 < id < 4294967296 → next_after id ≠ start →
  tried start (next_after id) j ↔ tried start id j ∨ j = id.
Proof.
  intros Hs Hi Hne. rewrite next_after_eq in * by done. unfold tried. revert Hne.
  destruct (Z.eqb_spec id 4294967295) as [-> |Hid]; intros Hne; repeat case_if; lia.
Qed.

(** When the search is back at its start it has tried every ID. *)
Lemma tried_all start id j :
  0 < start < 4294967296 → 0 < id < 4294967296 → next_after id = start →
  0 < j < 4294967296 → tried start id j ∨ j = id.
Proof.
  intros Hs Hi. rewrite next_after_eq by done. unfold tried.
  destruct (Z.eqb_spec id 4294967295) as [-> |Hid]; intros <- Hj; repeat case_if; lia.
Qed.

Section Spec.
Context {T : Type} `{KeyMapLaws T}.
Implicit Types i : idr T.

(** The IDs in use that the search has not passed. *)
Definition untried (M : gmap Z Z) (start id : Z) : gmap Z Z := filter (λ x, ¬ tried start id (x.1)) M.

Lemma untried_shrinks M start id :
  0 < start < 4294967296 → 0 < id < 4294967296 → is_Some (M !! id) → ¬ tried start id id →
  next_after id ≠ start → (size (untried M start (next_after id)) < size (untried M start id))%nat.
Proof.
  intros Hs Hi [v Hv] Hnt Hne. apply map_subset_size. split.
  - apply map_subseteq_spec. intros k w. unfold untried. rewrite !map_lookup_filter_Some. simpl.
    rewrite tried_step by done. intros [? ?]. split; [done|]. tauto.
  - intros Hsub. assert (untried M start id !! id = Some v) as Hin
      by (unfold untried; apply map_lookup_filter_Some; done).
    apply (lookup_weaken _ _ _ _ Hin) in Hsub. unfold untried in Hsub.
    apply map_lookup_filter_Some in Hsub as [_ Hsub]. simpl in Hsub. rewrite tried_step in Hsub by done. tauto.
Qed.

(** What a call returns, and the map it leaves. *)
Inductive alloc_result (M : gmap Z Z) (start ptr : Z) : Z → gmap Z Z → Z → Prop :=
| alloc_id id : 0 < id < 4294967296 → M !! id = None →
    (∀ j, tried start id j → is_Some (M !! j)) →
    alloc_result M start ptr (s32 id) (<[id := ptr]> M) (next_after id)
| alloc_oom : km_oom → alloc_result M start ptr (-1) M start
| alloc_full : (∀ j, 0 < j < 4294967296 → is_Some (M !! j)) → alloc_result M start ptr (-1) M start.

Lemma idr_alloc_loop_spec fuel i M id ptr :
  idr_rep i M → ptr ≠ 0 → 0 < id < 4294967296 →
  (∀ j, tried (next_id i) id j → is_Some (M !! j)) → ¬ tried (next_id i) id id →
  (size (untried M (next_id i) id) < fuel)%nat →
  ∃ i' r M', idr_alloc_loop fuel i (next_id i) id ptr = Ok (i', r) ∧ idr_rep i' M' ∧
    alloc_result M (next_id i) ptr r M' (next_id i').
Proof.
  intros Hrep Hptr. pose proof Hrep as [Ht Hn Hkeys]. revert id.
  induction fuel as [|fuel IH]; intros id Hid Hused Hnot Hf; [lia|]. cbn [idr_alloc_loop].
  assert (is_u32 id) as Hid32 by (split; lia).
  rewrite (km_lookup_ok _ M id Ht Hid32). cbn [mbind res_bind].
  destruct (M !! id) as [v|] eqn:Hv; cbn [from_option].
  - pose proof (km_values _ M id v Ht Hv) as Hv0. change (Datatypes.id v) with v.
    rewrite (proj2 (Z.eqb_neq v 0)) by done. cbn zeta.
    destruct (Z.eqb_spec (next_after id) (next_id i)) as [Heq|Hne].
    + exists i, (-1), M. split_and!; [done|done|]. apply alloc_full. intros j Hj.
      destruct (tried_all (next_id i) id j Hn Hid Heq Hj) as [?| ->]; [auto|by rewrite Hv].
    + apply IH.
      * by apply next_after_range.
      * intros j [?| ->]%tried_step; [auto|by rewrite Hv|done..].
      * rewrite tried_step by done. intros [Htr|Heq].
        -- revert Htr. rewrite next_after_eq by done. unfold tried in *. revert Hnot Hne.
           rewrite next_after_eq by done. destruct (Z.eqb_spec id 4294967295); repeat case_if; lia.
        -- rewrite next_after_eq in Heq by done. revert Heq. case_if; lia.
      * eapply Nat.lt_le_trans; [apply untried_shrinks; try done; by eexists|lia].
  - simpl. destruct (km_insert_ok _ M id ptr Ht Hid32) as (t & rc & -> & [(-> & _ & _ & Hrep')|(-> & Hrep' & Hwhy)]);
      cbn [mbind res_bind Z.eqb].
    + exists (Idr t (next_after id)), (s32 id), (<[id := ptr]> M). split_and!; [done| |by apply alloc_id].
      split; simpl; [done|by apply next_after_range|]. intros k w. rewrite lookup_insert.
      case_decide; [lia|apply Hkeys].
    + exists (Idr t (next_id i)), (-1), M. split_and!; [done|by split|]. apply alloc_oom.
      rewrite Hv in Hwhy. destruct Hwhy as [?|[[? ?]|?]]; done.
Qed.

Lemma idr_alloc_spec fuel i M ptr :
  idr_rep i M → ptr ≠ 0 → (size M < fuel)%nat →
  ∃ i' r M', idr_alloc fuel (Some i) ptr = Ok (Some i', r) ∧ idr_rep i' M' ∧
    alloc_result M (next_id i) ptr r M' (next_id i').
Proof.
  intros Hrep Hptr Hf. unfold idr_alloc. rewrite (proj2 (Z.eqb_neq ptr 0)) by done.
  destruct (idr_alloc_loop_spec fuel i M (next_id i) ptr Hrep Hptr) as (i' & r & M' & -> & ? & ?).
  - by destruct Hrep.
  - unfold tried. intros j. case_if; lia.
  - unfold tried. case_if; lia.
  - unfold untried. pose proof (map_size_filter (λ x, ¬ tried (next_id i) (next_id i) (x.1)) M). lia.
  - by exists i', r, M'.
Qed.

Lemma idr_find_spec i M id :
  idr_rep i M → id < 2147483648 →
  idr_find (Some i) id = Ok (if id <=? 0 then 0 else default 0 (M !! id)).
Proof.
  intros [Ht _ _] Hid. unfold idr_find. case_if; [done|].
  rewrite u32_small by lia. apply km_lookup_ok; [done|split; lia].
Qed.

Lemma idr_remove_spec i M id :
  idr_rep i M → id < 2147483648 →
  ∃ i', idr_remove (Some i) id = Ok (Some i') ∧ next_id i' = next_id i ∧
    idr_rep i' (if id <=? 0 then M else delete id M).
Proof.
  intros Hrep Hid. pose proof Hrep as [Ht Hn Hk]. unfold idr_remove. case_if; [by exists i|].
  rewrite u32_small by lia.
  destruct (km_remove_ok _ M id Ht ltac:(split; lia)) as (t & -> & Ht'). cbn [mbind res_bind].
  eexists. split; [done|]. split; [done|]. split; [done|done|].
  intros k v [_ Hv]%lookup_delete_Some. by eapply Hk.
Qed.

Lemma s32_pos id : 0 ≤ id < 4294967296 → 0 < s32 id → s32 id = id ∧ id < 2147483648.
Proof. intros Hid. unfold s32. rewrite u32_small by done. case_if; lia. Qed.
End Spec.

(** ** The allocator over the radix tree *)

(** C23. Life of an ID.  [idr_alloc] returns the first free ID from [next_id]
    on, cyclically and never 0, or -1 when memory or IDs ran out.  A positive
    ID was free, finds the pointer, leaves every other ID as it was, and
    removing it restores the former set.  The search ends within one step
    more than there are IDs in use. *)
Theorem idr_lifecycle (kmem_cache_alloc : nat → gmap Z radix_node → option Z) (fuel : nat)
    (i : idr (tree_with_nodes kmem_cache_alloc)) (M : gmap Z Z) (ptr : Z) :
  (∀ n ns p, kmem_cache_alloc n ns = Some p → p ≠ 0 ∧ ns !! p = None) →
  idr_rep i M → ptr ≠ 0 → (size M < fuel)%nat →
  ∃ i' r M', idr_alloc fuel (Some i) ptr = Ok (Some i', r) ∧ idr_rep i' M' ∧
    alloc_result (T := tree_with_nodes kmem_cache_alloc) M (next_id i) ptr r M' (next_id i') ∧
    (0 < r →
       M !! r = None ∧ idr_find (Some i') r = Ok ptr ∧
       (∀ j, 0 < j < 2147483648 → j ≠ r → idr_find (Some i') j = idr_find (Some i) j) ∧
       ∃ i'', idr_remove (Some i') r = Ok (Some i'') ∧ idr_rep i'' M).
Proof.
  intros Halloc Hrep Hptr Hf. pose proof (radix_KeyMapLaws _ Halloc) as Hlaws.
  destruct (idr_alloc_spec fuel i M ptr Hrep Hptr Hf) as (i' & r & M' & Heq & Hrep' & Hres).
  exists i', r, M'. split_and!; [done|done|done|]. intros Hr.
  destruct Hres as [id Hid Hnone Hused| |]; [|lia|lia].
  destruct (s32_pos id) as [Hs Hlt]; [lia|done|]. rewrite Hs.
  rewrite (idr_find_spec i' _ id Hrep' Hlt), (proj2 (Z.leb_gt id 0)), lookup_insert_eq by lia.
  split_and!; [done|done| |].
  - intros j Hj Hne. rewrite (idr_find_spec i' _ j Hrep'), (idr_find_spec i M j Hrep) by lia.
    by rewrite lookup_insert_ne by done.
  - destruct (idr_remove_spec i' _ id Hrep' Hlt) as (i2 & -> & _ & Hrep2).
    rewrite (proj2 (Z.leb_gt id 0)), delete_insert_id in Hrep2 by (done || lia). by exists i2.
Qed.

Definition bump_idr (start : Z) : idr (tree_with_nodes bump_alloc) :=
  Idr (TreeN empty_store radix_tree_init) start.

Lemma bump_idr_rep start : 0 < start < 4294967296 → idr_rep (bump_idr start) ∅.
Proof. intros Hs. split; [apply empty_rep|done|done]. Qed.

Lemma idr_lifecycle_witness :
  ∃ i' r M', idr_alloc 1 (Some (bump_idr 1)) 42 = Ok (Some i', r) ∧ idr_rep i' M' ∧
    alloc_result (T := tree_with_nodes bump_alloc) ∅ 1 42 r M' (next_id i') ∧
    (0 < r →
       (∅ : gmap Z Z) !! r = None ∧ idr_find (Some i') r = Ok 42 ∧
       (∀ j, 0 < j < 2147483648 → j ≠ r → idr_find (Some i') j = idr_find (Some (bump_idr 1)) j) ∧
       ∃ i'', idr_remove (Some i') r = Ok (Some i'') ∧ idr_rep i'' ∅).
Proof.
  apply (idr_lifecycle bump_alloc 1 (bump_idr 1) ∅ 42 bump_alloc_ok);
    [apply bump_idr_rep; lia|lia|vm_compute; lia].
Defined.

(** From 2^31 on an ID does not survive the conversion to [int]: the entry
    is stored, but the caller gets a negative number (-1, the failure value,
    for the last ID) that [idr_find] answers with NULL and [idr_remove]
    ignores. *)
Theorem idr_high_ids_lost (kmem_cache_alloc : nat → gmap Z radix_node → option Z) (fuel : nat)
    (i : idr (tree_with_nodes kmem_cache_alloc)) (M : gmap Z Z) (ptr : Z) :
  (∀ n ns, ∃ p, kmem_cache_alloc n ns = Some p ∧ p ≠ 0 ∧ ns !! p = None) →
  idr_rep i M → ptr ≠ 0 → (size M < fuel)%nat →
  2147483648 ≤ next_id i → M !! next_id i = None →
  ∃ i' r, idr_alloc fuel (Some i) ptr = Ok (Some i', r) ∧ idr_rep i' (<[next_id i := ptr]> M) ∧
    r = next_id i - 4294967296 ∧ idr_find (Some i') r = Ok 0 ∧ idr_remove (Some i') r = Ok (Some i').
Proof.
  intros Halloc Hrep Hptr Hf Hhigh Hfree.
  assert (KeyMapLaws (tree_with_nodes kmem_cache_alloc)) as Hlaws.
  { apply radix_KeyMapLaws. intros n ns p Hp. destruct (Halloc n ns) as (q & Hq & ?).
    rewrite Hp in Hq. by injection Hq as <-. }
  destruct (idr_alloc_spec fuel i M ptr Hrep Hptr Hf) as (i' & r & M' & -> & Hrep' & Hres).
  pose proof (ir_next _ _ Hrep) as Hn.
  assert (r = next_id i - 4294967296 ∧ M' = <[next_id i := ptr]> M) as [Hr ->].
  { destruct Hres as [id Hid Hnone Hused|(n & ns & Hoom)|Hfull].
    - assert (id = next_id i) as ->.
      { destruct (decide (id = next_id i)) as [|Hne]; [done|exfalso].
        destruct (Hused (next_id i)) as [v Hv]; [|congruence]. unfold tried. case_if; lia. }
      split; [|done]. unfold s32. rewrite u32_small by lia. by rewrite (proj2 (Z.ltb_ge _ _)) by lia.
    - destruct (Halloc n ns) as (q & Hq & _). congruence.
    - destruct (Hfull (next_id i) Hn). congruence. }
  exists i', r. split_and!; [done|done|done| |].
  - rewrite (idr_find_spec i' _ r Hrep') by lia. by rewrite (proj2 (Z.leb_le _ _)) by lia.
  - unfold idr_remove. by rewrite (proj2 (Z.leb_le _ _)) by lia.
Qed.

Lemma idr_high_ids_lost_witness :
  ∃ i' r, idr_alloc 1 (Some (bump_idr 4294967295)) 42 = Ok (Some i', r) ∧
    idr_rep i' (<[4294967295 := 42]> ∅) ∧ r = -1 ∧ idr_find (Some i') r = Ok 0 ∧
    idr_remove (Some i') r = Ok (Some i').
Proof.
  apply (idr_high_ids_lost bump_alloc 1 (bump_idr 4294967295) ∅ 42);
    [|apply bump_idr_rep; lia|lia|vm_compute; lia|simpl; lia|reflexivity].
  intros n ns. eexists. split; [done|]. by apply (bump_alloc_ok n).
Defined.
