(* ===== verification/RbTree.v ===== *)
(** * The red-black tree of [src/src/lib/rbtree.c]

    The pointer code as it is: nodes are cells of a heap, the parent pointer
    and the colour share the word [parent_color], links are addresses and 0 is
    NULL.  Reading or writing a cell that does not exist is a [Fault].  The
    augmentation callbacks only touch the containing object; the calls made
    are recorded in [cb_log].  [RbModel] holds the trees this code implements
    and [RbProof] the proof that it does. *)

From S2P Require Import Prelude.

Record rb_node := RbNode { parent_color : Z; rb_right : Z; rb_left : Z }.

Inductive cb_call := CbPropagate (node stop : Z) | CbCopy (old new : Z) | CbRotate (old new : Z).

(** Which callbacks are set; [callbacks == NULL] sets none. *)
Record rb_callbacks := RbCallbacks { cb_propagate : bool; cb_copy : bool; cb_rotate : bool }.
Definition no_callbacks : rb_callbacks := RbCallbacks false false false.

(** The nodes, the [rb_node] field of [struct rb_root], and the callbacks made. *)
Record rb_state := RbState { heap : gmap Z rb_node; root : Z; cb_log : list cb_call }.

Definition RB_RED : Z := 0.
Definition RB_BLACK : Z := 1.

Definition get (s : rb_state) (p : Z) : res rb_node :=
  if p =? 0 then Fault else match heap s !! p with Some n => Ok n | None => Fault end.

Definition put (p : Z) (n : rb_node) (s : rb_state) : res rb_state :=
  _ ← get s p; Ok (RbState (<[p := n]> (heap s)) (root s) (cb_log s)).

Definition set_root (p : Z) (s : rb_state) : rb_state := RbState (heap s) p (cb_log s).
Definition log_call (on : bool) (c : cb_call) (s : rb_state) : rb_state :=
  if on then RbState (heap s) (root s) (cb_log s ++ [c]) else s.

(** ** Accessors of the parent and colour word *)

Definition rb_parent_node (n : rb_node) : Z := Z.land (parent_color n) (u32 (Z.lnot 3)).
Definition rb_color (n : rb_node) : Z := Z.land (parent_color n) 1.
Definition rb_is_red (n : rb_node) : bool := rb_color n =? RB_RED.
Definition rb_is_black (n : rb_node) : bool := rb_color n =? RB_BLACK.

Definition set_pc (pc : Z) (n : rb_node) : rb_node := RbNode pc (rb_right n) (rb_left n).
Definition set_left (l : Z) (n : rb_node) : rb_node := RbNode (parent_color n) (rb_right n) l.
Definition set_right (r : Z) (n : rb_node) : rb_node := RbNode (parent_color n) r (rb_left n).

(** [node->field = ...] *)
Definition modify (p : Z) (f : rb_node → rb_node) (s : rb_state) : res rb_state :=
  n ← get s p; put p (f n) s.

Definition rb_set_parent (node parent : Z) (s : rb_state) : res rb_state :=
  modify node (λ n, set_pc (Z.lor (Z.land (parent_color n) 3) parent) n) s.

Definition rb_set_color (node color : Z) (s : rb_state) : res rb_state :=
  modify node (λ n, set_pc (Z.lor (Z.land (parent_color n) (u32 (Z.lnot 1))) color) n) s.

Definition rb_set_black (node : Z) (s : rb_state) : res rb_state :=
  modify node (λ n, set_pc (Z.lor (parent_color n) RB_BLACK) n) s.

Definition rb_set_red (node : Z) (s : rb_state) : res rb_state :=
  modify node (λ n, set_pc (Z.land (parent_color n) (u32 (Z.lnot RB_BLACK))) n) s.

(** Reads through a pointer. *)
Definition left_of (s : rb_state) (p : Z) : res Z := n ← get s p; Ok (rb_left n).
Definition right_of (s : rb_state) (p : Z) : res Z := n ← get s p; Ok (rb_right n).
Definition parent_of (s : rb_state) (p : Z) : res Z := n ← get s p; Ok (rb_parent_node n).
Definition color_of (s : rb_state) (p : Z) : res Z := n ← get s p; Ok (rb_color n).
Definition is_red (s : rb_state) (p : Z) : res bool := n ← get s p; Ok (rb_is_red n).
Definition is_black (s : rb_state) (p : Z) : res bool := n ← get s p; Ok (rb_is_black n).

(** [!p || rb_is_black(p)] and [p && rb_is_red(p)] *)
Definition null_or_black (s : rb_state) (p : Z) : res bool := if p =? 0 then Ok true else is_black s p.
Definition nonnull_red (s : rb_state) (p : Z) : res bool := if p =? 0 then Ok false else is_red s p.

Section Operations.
Context (cb : rb_callbacks).

(** ** Rotations *)

Definition rb_rotate_left (node : Z) (s : rb_state) : res rb_state :=
  right ← right_of s node;
  parent ← parent_of s node;
  rl ← left_of s right;
  s ← modify node (set_right rl) s;
  s ← (if negb (rl =? 0) then rl ← left_of s right; rb_set_parent rl node s else Ok s);
  s ← modify right (set_left node) s;
  s ← rb_set_parent right parent s;
  s ← (if negb (parent =? 0) then
         pl ← left_of s parent;
         if node =? pl then modify parent (set_left right) s
         else modify parent (set_right right) s
       else Ok (set_root right s));
  s ← rb_set_parent node right s;
  Ok (log_call (cb_rotate cb) (CbRotate node right) s).

Definition rb_rotate_right (node : Z) (s : rb_state) : res rb_state :=
  left ← left_of s node;
  parent ← parent_of s node;
  lr ← right_of s left;
  s ← modify node (set_left lr) s;
  s ← (if negb (lr =? 0) then lr ← right_of s left; rb_set_parent lr node s else Ok s);
  s ← modify left (set_right node) s;
  s ← rb_set_parent left parent s;
  s ← (if negb (parent =? 0) then
         pr ← right_of s parent;
         if node =? pr then modify parent (set_right left) s
         else modify parent (set_left left) s
       else Ok (set_root left s));
  s ← rb_set_parent node left s;
  Ok (log_call (cb_rotate cb) (CbRotate node left) s).

(** ** Insertion *)

Fixpoint insert_color_loop (fuel : nat) (node : Z) (s : rb_state) : res (rb_state * Z) :=
  match fuel with
  | O => Timeout
  | S fuel =>
      parent ← parent_of s node;
      if parent =? 0 then Ok (s, node) else
      red ← is_red s parent;
      if negb red then Ok (s, node) else
      gparent ← parent_of s parent;
      gl ← left_of s gparent;
      if parent =? gl then
        uncle ← right_of s gparent;
        ured ← nonnull_red s uncle;
        if ured : bool then
          s ← rb_set_black uncle s;
          s ← rb_set_black parent s;
          s ← rb_set_red gparent s;
          insert_color_loop fuel gparent s
        else
          pr ← right_of s parent;
          '(s, node, parent) ←
            (if pr =? node then s ← rb_rotate_left parent s; Ok (s, parent, node)
             else Ok (s, node, parent));
          s ← rb_set_black parent s;
          s ← rb_set_red gparent s;
          s ← rb_rotate_right gparent s;
          insert_color_loop fuel node s
      else
        uncle ← left_of s gparent;
        ured ← nonnull_red s uncle;
        if ured : bool then
          s ← rb_set_black uncle s;
          s ← rb_set_black parent s;
          s ← rb_set_red gparent s;
          insert_color_loop fuel gparent s
        else
          pl ← left_of s parent;
          '(s, node, parent) ←
            (if pl =? node then s ← rb_rotate_right parent s; Ok (s, parent, node)
             else Ok (s, node, parent));
          s ← rb_set_black parent s;
          s ← rb_set_red gparent s;
          s ← rb_rotate_left gparent s;
          insert_color_loop fuel node s
  end.

(** [__rb_insert_color] *)
Definition rb_insert_color (fuel : nat) (node : Z) (s : rb_state) : res rb_state :=
  '(s, node) ← insert_color_loop fuel node s;
  s ← rb_set_black (root s) s;
  Ok (log_call (cb_propagate cb) (CbPropagate node 0) s).

(** ** Removal *)

Fixpoint erase_color_loop (fuel : nat) (node parent : Z) (s : rb_state) : res (rb_state * Z) :=
  match fuel with
  | O => Timeout
  | S fuel =>
      black ← null_or_black s node;
      if negb (black && negb (node =? root s)) then Ok (s, node) else
      pl ← left_of s parent;
      if pl =? node then
        other ← right_of s parent;
        ored ← is_red s other;
        '(s, other) ←
          (if ored : bool then
             s ← rb_set_black other s;
             s ← rb_set_red parent s;
             s ← rb_rotate_left parent s;
             other ← right_of s parent; Ok (s, other)
           else Ok (s, other));
        ol ← left_of s other;
        lb ← null_or_black s ol;
        or_ ← right_of s other;
        rb ← (if lb : bool then null_or_black s or_ else Ok false);
        if lb && rb then
          s ← rb_set_red other s;
          parent' ← parent_of s parent;
          erase_color_loop fuel parent parent' s
        else
          rb ← null_or_black s or_;
          '(s, other) ←
            (if rb : bool then
               s ← rb_set_black ol s;
               s ← rb_set_red other s;
               s ← rb_rotate_right other s;
               other ← right_of s parent; Ok (s, other)
             else Ok (s, other));
          pc ← color_of s parent;
          s ← rb_set_color other pc s;
          s ← rb_set_black parent s;
          or_ ← right_of s other;
          s ← rb_set_black or_ s;
          s ← rb_rotate_left parent s;
          Ok (s, root s)
      else
        other ← left_of s parent;
        ored ← is_red s other;
        '(s, other) ←
          (if ored : bool then
             s ← rb_set_black other s;
             s ← rb_set_red parent s;
             s ← rb_rotate_right parent s;
             other ← left_of s parent; Ok (s, other)
           else Ok (s, other));
        ol ← left_of s other;
        lb ← null_or_black s ol;
        or_ ← right_of s other;
        rb ← (if lb : bool then null_or_black s or_ else Ok false);
        if lb && rb then
          s ← rb_set_red other s;
          parent' ← parent_of s parent;
          erase_color_loop fuel parent parent' s
        else
          lb ← null_or_black s ol;
          '(s, other) ←
            (if lb : bool then
               s ← rb_set_black or_ s;
               s ← rb_set_red other s;
               s ← rb_rotate_left other s;
               other ← left_of s parent; Ok (s, other)
             else Ok (s, other));
          pc ← color_of s parent;
          s ← rb_set_color other pc s;
          s ← rb_set_black parent s;
          ol ← left_of s other;
          s ← rb_set_black ol s;
          s ← rb_rotate_right parent s;
          Ok (s, root s)
  end.

(** [__rb_erase_color] *)
Definition rb_erase_color (fuel : nat) (node parent : Z) (s : rb_state) : res rb_state :=
  '(s, node) ← erase_color_loop fuel node parent s;
  if negb (node =? 0) then rb_set_black node s else Ok s.

(** [while ((left = node->rb_left) != NULL) node = left;] *)
Fixpoint leftmost (fuel : nat) (s : rb_state) (node : Z) : res Z :=
  match fuel with
  | O => Timeout
  | S fuel => l ← left_of s node; if l =? 0 then Ok node else leftmost fuel s l
  end.

Fixpoint rightmost (fuel : nat) (s : rb_state) (node : Z) : res Z :=
  match fuel with
  | O => Timeout
  | S fuel => r ← right_of s node; if r =? 0 then Ok node else rightmost fuel s r
  end.

(** Puts [new] where [old] hangs below [parent]. *)
Definition replace_child (parent old new : Z) (s : rb_state) : res rb_state :=
  if negb (parent =? 0) then
    pl ← left_of s parent;
    if pl =? old then modify parent (set_left new) s else modify parent (set_right new) s
  else Ok (set_root new s).

(** [__rb_erase] *)
Definition rb_erase (fuel : nat) (node : Z) (s : rb_state) : res rb_state :=
  nl ← left_of s node;
  nr ← right_of s node;
  '(s, child, parent, color) ←
    (if negb (nl =? 0) && negb (nr =? 0) then
       let old := node in
       node ← leftmost fuel s nr;
       op ← parent_of s old;
       s ← replace_child op old node s;
       child ← right_of s node;
       parent ← parent_of s node;
       color ← color_of s node;
       '(s, parent) ←
         (if parent =? old then Ok (s, node)
          else
            s ← (if negb (child =? 0) then rb_set_parent child parent s else Ok s);
            s ← modify parent (set_left child) s;
            or_ ← right_of s old;
            s ← modify node (set_right or_) s;
            s ← rb_set_parent or_ node s;
            Ok (s, parent));
       o ← get s old;
       s ← modify node (set_pc (parent_color o)) s;
       s ← modify node (set_left (rb_left o)) s;
       s ← rb_set_parent (rb_left o) node s;
       Ok (log_call (cb_copy cb) (CbCopy old node) s, child, parent, color)
     else
       let child := if nl =? 0 then nr else nl in
       parent ← parent_of s node;
       color ← color_of s node;
       s ← (if negb (child =? 0) then rb_set_parent child parent s else Ok s);
       s ← replace_child parent node child s;
       Ok (s, child, parent, color));
  let rebalance := parent in
  s ← (if color =? RB_BLACK then rb_erase_color fuel child parent s else Ok s);
  Ok (log_call (cb_propagate cb) (CbPropagate rebalance 0) s).
End Operations.

(** ** Linking and walking *)

(** [rb_link_node]; [side] says which link of [parent] (or the root, when
    [parent] is NULL) the pointer [rb_link] refers to. *)
Definition rb_link_node (node parent : Z) (side : bool) (s : rb_state) : res rb_state :=
  s ← modify node (λ _, RbNode parent 0 0) s;
  if parent =? 0 then Ok (set_root node s)
  else if side then modify parent (set_right node) s else modify parent (set_left node) s.

Definition rb_first (fuel : nat) (s : rb_state) : res Z :=
  if root s =? 0 then Ok 0 else leftmost fuel s (root s).

Definition rb_last (fuel : nat) (s : rb_state) : res Z :=
  if root s =? 0 then Ok 0 else rightmost fuel s (root s).

(** [while ((parent = rb_parent_node(node)) != NULL && node == parent->rb_right)] *)
Fixpoint climb_right (fuel : nat) (s : rb_state) (node : Z) : res Z :=
  match fuel with
  | O => Timeout
  | S fuel =>
      parent ← parent_of s node;
      if parent =? 0 then Ok 0 else
      pr ← right_of s parent;
      if node =? pr then climb_right fuel s parent else Ok parent
  end.

Fixpoint climb_left (fuel : nat) (s : rb_state) (node : Z) : res Z :=
  match fuel with
  | O => Timeout
  | S fuel =>
      parent ← parent_of s node;
      if parent =? 0 then Ok 0 else
      pl ← left_of s parent;
      if node =? pl then climb_left fuel s parent else Ok parent
  end.

Definition rb_next (fuel : nat) (s : rb_state) (node : Z) : res Z :=
  if node =? 0 then Ok 0 else
  parent ← parent_of s node;
  if parent =? node then Ok 0 else
  r ← right_of s node;
  if negb (r =? 0) then leftmost fuel s r else climb_right fuel s node.

Definition rb_prev (fuel : nat) (s : rb_state) (node : Z) : res Z :=
  if node =? 0 then Ok 0 else
  parent ← parent_of s node;
  if parent =? node then Ok 0 else
  l ← left_of s node;
  if negb (l =? 0) then rightmost fuel s l else climb_left fuel s node.
