(* ===== verification/RbModel.v ===== *)
(** * Red-black trees as data

    The trees the pointer code of [RbTree] works on, with the path to the node
    in focus as a list of frames.  [insert_fix] and [erase_fix] are the
    rebalancing loops of [src/src/lib/rbtree.c] on this level; the theorems
    say that they keep the red-black invariant and the in-order sequence. *)

From S2P Require Import Prelude.

Inductive color := Red | Black.

#[export] Instance color_eq_dec : EqDecision color.
Proof. solve_decision. Defined.

Inductive tree := Leaf | Node (c : color) (l : tree) (a : Z) (r : tree).

(** [FL c a r]: the hole is the left child of [a]; [FR c l a]: the right one. *)
Inductive frame := FL (c : color) (a : Z) (r : tree) | FR (c : color) (l : tree) (a : Z).
Abbreviation context := (list frame).

Definition fill (f : frame) (t : tree) : tree :=
  match f with FL c a r => Node c t a r | FR c l a => Node c l a t end.
Definition plug (k : context) (t : tree) : tree := foldl (λ t f, fill f t) t k.

Definition frame_color (f : frame) : color := match f with FL c _ _ | FR c _ _ => c end.
Definition frame_addr (f : frame) : Z := match f with FL _ a _ | FR _ _ a => a end.

Fixpoint inorder (t : tree) : list Z :=
  match t with Leaf => [] | Node _ l a r => inorder l ++ a :: inorder r end.

Definition root_of (t : tree) : Z := match t with Leaf => 0 | Node _ _ a _ => a end.
Definition is_red_tree (t : tree) : bool := match t with Node Red _ _ _ => true | _ => false end.
Definition paint (c : color) (t : tree) : tree :=
  match t with Leaf => Leaf | Node _ l a r => Node c l a r end.

Lemma plug_cons f k t : plug (f :: k) t = plug k (fill f t).
Proof. done. Qed.

Lemma plug_app k1 k2 t : plug (k1 ++ k2) t = plug k2 (plug k1 t).
Proof. unfold plug. apply foldl_app. Qed.

(** What stands left and right of the hole. *)
Fixpoint before (k : context) : list Z :=
  match k with [] => [] | FL _ _ _ :: k => before k | FR _ l a :: k => before k ++ inorder l ++ [a] end.
Fixpoint after (k : context) : list Z :=
  match k with [] => [] | FL _ a r :: k => a :: inorder r ++ after k | FR _ _ _ :: k => after k end.

Lemma inorder_plug k t : inorder (plug k t) = before k ++ inorder t ++ after k.
Proof.
  revert t. induction k as [|f k IH]; intros t; [by rewrite app_nil_r|].
  rewrite plug_cons, IH. destruct f; simpl; rewrite <- !(assoc_L (++)); done.
Qed.

Lemma inorder_paint c t : inorder (paint c t) = inorder t.
Proof. by destruct t. Qed.

(** ** The invariant *)

(** [rbt c n t]: root colour [c], [n] black nodes on every path, no red node
    with a red child. *)
Inductive rbt : color → nat → tree → Prop :=
| rbt_leaf : rbt Black 0 Leaf
| rbt_red n l a r : rbt Black n l → rbt Black n r → rbt Red n (Node Red l a r)
| rbt_black n cl cr l a r : rbt cl n l → rbt cr n r → rbt Black (S n) (Node Black l a r).

(** The hole takes a tree with root colour [c] and black height [n]. *)
Inductive ctx_rb : color → nat → context → Prop :=
| ctx_nil n : ctx_rb Black n []
| ctx_red_l n a r k : rbt Black n r → ctx_rb Red n k → ctx_rb Black n (FL Red a r :: k)
| ctx_red_r n l a k : rbt Black n l → ctx_rb Red n k → ctx_rb Black n (FR Red l a :: k)
| ctx_black_l c c' n a r k : rbt c' n r → ctx_rb Black (S n) k → ctx_rb c n (FL Black a r :: k)
| ctx_black_r c c' n l a k : rbt c' n l → ctx_rb Black (S n) k → ctx_rb c n (FR Black l a :: k).

#[export] Hint Constructors rbt ctx_rb : yula.

(** A red-black tree: black root (or empty). *)
Definition red_black (t : tree) : Prop := ∃ n, rbt Black n t.

Lemma ctx_rb_black c n k : ctx_rb c n k → ctx_rb Black n k.
Proof. destruct 1; eauto with yula. Qed.

Lemma rbt_plug c n k t : rbt c n t → ctx_rb c n k → red_black (plug k t).
Proof.
  intros Ht Hk. revert t Ht. induction Hk; intros t Ht; rewrite ?plug_cons; simpl in *; [by exists n|..];
    apply IHHk; eauto with yula.
Qed.

Lemma rbt_not_red n t : rbt Black n t → is_red_tree t = false.
Proof. inversion 1; done. Qed.

Lemma rbt_black_of c n t : rbt c n t → is_red_tree t = false → rbt Black n t.
Proof. destruct 1; done || eauto with yula. Qed.

Lemma rbt_paint_black c n t : rbt c n t → ∃ m, rbt Black m (paint Black t).
Proof. destruct 1; simpl; eauto with yula. Qed.

(** ** Insertion *)

(** The loop of [__rb_insert_color] with the red node [t] in focus; [None]
    when the code would follow a NULL grandparent. *)
Fixpoint insert_fix (fuel : nat) (k : context) (t : tree) : option tree :=
  match fuel with
  | O => None
  | S fuel =>
      match k with
      | FL Red p pr :: FL gc g u :: k =>
          if is_red_tree u
          then insert_fix fuel k (Node Red (Node Black t p pr) g (paint Black u))
          else Some (plug k (Node Black t p (Node Red pr g u)))
      | FR Red pl p :: FL gc g u :: k =>
          if is_red_tree u
          then insert_fix fuel k (Node Red (Node Black pl p t) g (paint Black u))
          else match t with
               | Node c l a r => Some (plug k (Node Black (Node Red pl p l) a (Node Red r g u)))
               | Leaf => None
               end
      | FL Red p pr :: FR gc u g :: k =>
          if is_red_tree u
          then insert_fix fuel k (Node Red (paint Black u) g (Node Black t p pr))
          else match t with
               | Node c l a r => Some (plug k (Node Black (Node Red u g l) a (Node Red r p pr)))
               | Leaf => None
               end
      | FR Red pl p :: FR gc u g :: k =>
          if is_red_tree u
          then insert_fix fuel k (Node Red (paint Black u) g (Node Black pl p t))
          else Some (plug k (Node Black (Node Red u g pl) p t))
      | [FL Red _ _] | [FR Red _ _] => None
      | _ => Some (plug k t)
      end
  end.

Lemma rbt_red_inv n t : rbt Red n t → ∃ l a r, t = Node Red l a r ∧ rbt Black n l ∧ rbt Black n r.
Proof. inversion 1; subst; eauto 8. Qed.

Lemma rbt_node_inv c n l a r cc :
  rbt cc n (Node c l a r) →
  (c = Red ∧ cc = Red ∧ rbt Black n l ∧ rbt Black n r) ∨
  (c = Black ∧ cc = Black ∧ ∃ m cl cr, n = S m ∧ rbt cl m l ∧ rbt cr m r).
Proof. inversion 1; subst; [by left|right; eauto 10]. Qed.

Lemma paint_red_uncle c n u : rbt c n u → is_red_tree u = true → rbt Black (S n) (paint Black u).
Proof. destruct 1; simpl; try done. eauto with yula. Qed.

(** Equality of in-order sequences. *)
Ltac inorder_solve :=
  rewrite ?inorder_paint, ?plug_cons, ?inorder_plug; simpl; rewrite ?inorder_paint;
  repeat (progress (rewrite <- ?(assoc_L (++)); simpl)); done.

Lemma red_black_paint_plug c n k t : rbt c n t → ctx_rb c n k → red_black (paint Black (plug k t)).
Proof.
  intros Ht Hk. destruct (rbt_plug c n k t Ht Hk) as [m Hm]. inversion Hm; subst; simpl; eexists; eauto with yula.
Qed.

(** Rebalancing after an insertion: from a red-black context with a red node of
    the right black height in the hole, the loop ends within the depth of the
    node, and the tree it leaves, with its root painted black, is red-black and
    has the same in-order sequence. *)
Lemma insert_fix_spec fuel k n t :
  rbt Red n t → ctx_rb Black n k → (length k < fuel)%nat →
  ∃ t', insert_fix fuel k t = Some t' ∧ red_black (paint Black t') ∧ inorder t' = inorder (plug k t).
Proof.
  revert k n t. induction fuel as [|fuel IH]; intros k n t Ht Hk Hf; [lia|].
  assert (∀ k2 t2, rbt Red (S n) t2 → ctx_rb Black (S n) k2 → (length k2 + 1 < length k)%nat →
    inorder (plug k2 t2) = inorder (plug k t) →
    ∃ t', insert_fix fuel k2 t2 = Some t' ∧ red_black (paint Black t') ∧ inorder t' = inorder (plug k t)) as Hrec.
  { intros k2 t2 H1 H2 H3 <-. apply (IH k2 (S n)); [done|done|lia]. }
  destruct (rbt_red_inv _ _ Ht) as (l & a & r & -> & Hl & Hr).
  inversion Hk as [n' | n' p pr k1 Hpr Hk1 | n' pl p k1 Hpl Hk1 | c c' n' p pr k1 Hpr Hk1 | c c' n' pl p k1 Hpl Hk1];
    subst; cbn [insert_fix].
  1: { exists (Node Red l a r). split_and!; [done| |done]. exists (S n). simpl. eauto with yula. }
  3, 4: eexists; split; [done|]; split; [|done]; apply (red_black_paint_plug Red n); eauto with yula.
  all: inversion Hk1 as [| | |cx cu m g u k2 Hu Hk2|cx cu m u g k2 Hu Hk2]; subst; destruct (is_red_tree u) eqn:Eu.
  all: try (apply Hrec; [|done|simpl; lia|inorder_solve];
            econstructor; first [by eapply paint_red_uncle | econstructor; eauto with yula]).
  all: eexists; split; [done|]; split; [|inorder_solve]; eapply red_black_paint_plug; [|exact Hk2];
    econstructor; first [eassumption | econstructor; eauto using rbt_black_of].
Qed.

(** ** Removal *)

(** One round of [__rb_erase_color] with the short subtree [t] on the left of
    [p], its black sibling [o] on the right, and [k] above; [rec] goes on one
    level up. *)
Definition fix_left (rec : context → tree → option tree) (c : color) (p : Z) (t o : tree) (k : context)
    : option tree :=
  match o with
  | Leaf => None
  | Node oc ol oa or_ =>
      if negb (is_red_tree ol) && negb (is_red_tree or_) then rec k (Node c t p (Node Red ol oa or_))
      else if negb (is_red_tree or_) then
        match ol with
        | Node _ x xa y =>
            Some (paint Black (plug k (Node c (Node Black t p x) xa (Node Black y oa or_))))
        | Leaf => None
        end
      else Some (paint Black (plug k (Node c (Node Black t p ol) oa (paint Black or_))))
  end.

(** The mirror image. *)
Definition fix_right (rec : context → tree → option tree) (c : color) (o : tree) (p : Z) (t : tree) (k : context)
    : option tree :=
  match o with
  | Leaf => None
  | Node oc ol oa or_ =>
      if negb (is_red_tree ol) && negb (is_red_tree or_) then rec k (Node c (Node Red ol oa or_) p t)
      else if negb (is_red_tree ol) then
        match or_ with
        | Node _ x xa y =>
            Some (paint Black (plug k (Node c (Node Black ol oa x) xa (Node Black y p t))))
        | Leaf => None
        end
      else Some (paint Black (plug k (Node c (paint Black ol) oa (Node Black or_ p t))))
  end.

(** The loop of [__rb_erase_color] and the final painting. *)
Fixpoint erase_fix (fuel : nat) (k : context) (t : tree) : option tree :=
  match fuel with
  | O => None
  | S fuel =>
      if is_red_tree t then Some (plug k (paint Black t)) else
      match k with
      | [] => Some (paint Black t)
      | FL c p o :: k =>
          match o with
          | Node Red ol oa or_ => fix_left (erase_fix fuel) Red p t ol (FL Black oa or_ :: k)
          | _ => fix_left (erase_fix fuel) c p t o k
          end
      | FR c o p :: k =>
          match o with
          | Node Red ol oa or_ => fix_right (erase_fix fuel) Red or_ p t (FR Black ol oa :: k)
          | _ => fix_right (erase_fix fuel) c o p t k
          end
      end
  end.

(** One black node short, or red and right once painted black. *)
Definition deficit (n : nat) (t : tree) : Prop :=
  rbt Black n t ∨ (is_red_tree t = true ∧ rbt Black (S n) (paint Black t)).

(** The context below which a node of colour [c] keeps black height [S n] in
    each of its subtrees. *)
Definition parent_ctx (c : color) (n : nat) (k : context) : Prop :=
  match c with Red => ctx_rb Red (S n) k | Black => ctx_rb Black (S (S n)) k end.

Lemma parent_rbt c n l a r k :
  rbt Black (S n) l → rbt Black (S n) r → parent_ctx c n k →
  red_black (paint Black (plug k (Node c l a r))).
Proof.
  intros Hl Hr Hk. destruct c; simpl in Hk; (eapply red_black_paint_plug; [|exact Hk]); eauto with yula.
Qed.

(** What the recursion must deliver, one level up. *)
Definition rec_ok (rec : context → tree → option tree) (c : color) (k : context) : Prop :=
  ∀ n t, deficit n t → ctx_rb Black (S n) k → (c = Red → is_red_tree t = true) →
    ∃ t', rec k t = Some t' ∧ red_black t' ∧ inorder t' = inorder (plug k t).

Lemma up_deficit c n l a r k :
  rbt Black (S n) (Node Black l a r) → parent_ctx c n k →
  ∃ m, deficit m (Node c l a r) ∧ ctx_rb Black (S m) k.
Proof.
  intros H Hk. destruct c; simpl in Hk.
  - exists n. split; [by right|]. by eapply ctx_rb_black.
  - exists (S n). split; [by left|done].
Qed.

Lemma red_inv c n t : rbt c n t → is_red_tree t = true →
  ∃ l a r, t = Node Red l a r ∧ rbt Black n l ∧ rbt Black n r.
Proof. destruct 1; try done. eauto 8. Qed.

Lemma fix_left_spec n rec c p t o k :
  rbt Black n t → rbt Black (S n) o → parent_ctx c n k → rec_ok rec c k →
  ∃ t', fix_left rec c p t o k = Some t' ∧ red_black t' ∧ inorder t' = inorder (plug (FL c p o :: k) t).
Proof.
  intros Ht Ho Hk Hrec. inversion Ho as [| |m cl cr ol oa or_ Hol Hor]; subst. cbn [fix_left].
  destruct (is_red_tree ol) eqn:El, (is_red_tree or_) eqn:Er; cbn [negb andb].
  1, 3: destruct (red_inv _ _ _ Hor Er) as (x & xa & y & -> & Hx & Hy);
    eexists; (split; [done|]); (split; [|inorder_solve]); eapply (parent_rbt c n); simpl; eauto with yula.
  - destruct (red_inv _ _ _ Hol El) as (x & xa & y & -> & Hx & Hy).
    eexists. split; [done|]. split; [|inorder_solve]. eapply (parent_rbt c n); eauto with yula.
  - pose proof (rbt_black_of _ _ _ Hol El). pose proof (rbt_black_of _ _ _ Hor Er).
    destruct (up_deficit c n t p (Node Red ol oa or_) k) as (m & Hm & Hkm); [eauto with yula|done|].
    destruct (Hrec m _ Hm Hkm) as (t' & -> & Hrb & Hin); [by intros ->|].
    eexists. split; [done|]. split; [done|]. rewrite Hin. inorder_solve.
Qed.

Lemma fix_right_spec n rec c o p t k :
  rbt Black n t → rbt Black (S n) o → parent_ctx c n k → rec_ok rec c k →
  ∃ t', fix_right rec c o p t k = Some t' ∧ red_black t' ∧ inorder t' = inorder (plug (FR c o p :: k) t).
Proof.
  intros Ht Ho Hk Hrec. inversion Ho as [| |m cl cr ol oa or_ Hol Hor]; subst. cbn [fix_right].
  destruct (is_red_tree ol) eqn:El, (is_red_tree or_) eqn:Er; cbn [negb andb].
  1, 2: destruct (red_inv _ _ _ Hol El) as (x & xa & y & -> & Hx & Hy);
    eexists; (split; [done|]); (split; [|inorder_solve]); eapply (parent_rbt c n); simpl; eauto with yula.
  - destruct (red_inv _ _ _ Hor Er) as (x & xa & y & -> & Hx & Hy).
    eexists. split; [done|]. split; [|inorder_solve]. eapply (parent_rbt c n); eauto with yula.
  - pose proof (rbt_black_of _ _ _ Hol El). pose proof (rbt_black_of _ _ _ Hor Er).
    destruct (up_deficit c n (Node Red ol oa or_) p t k) as (m & Hm & Hkm); [eauto with yula|done|].
    destruct (Hrec m _ Hm Hkm) as (t' & -> & Hrb & Hin); [by intros ->|].
    eexists. split; [done|]. split; [done|]. rewrite Hin. inorder_solve.
Qed.

(** The rounds [__rb_erase_color] needs at most. *)
Definition erase_rounds (k : context) (t : tree) : nat :=
  length k + (if is_red_tree t then 1 else 2).

Lemma erase_fix_spec fuel k n t :
  deficit n t → ctx_rb Black (S n) k → (erase_rounds k t ≤ fuel)%nat →
  ∃ t', erase_fix fuel k t = Some t' ∧ red_black t' ∧ inorder t' = inorder (plug k t).
Proof.
  revert k n t. induction fuel as [|fuel IH]; intros k n t Ht Hk Hf; [unfold erase_rounds in Hf; case_match; lia|].
  cbn [erase_fix]. destruct (is_red_tree t) eqn:Et.
  { destruct Ht as [Ht|[_ Ht]]; [by rewrite (rbt_not_red _ _ Ht) in Et|].
    eexists. split; [done|]. split; [by eapply rbt_plug|inorder_solve]. }
  destruct Ht as [Ht|[Hr _]]; [|congruence]. unfold erase_rounds in Hf. rewrite Et in Hf.
  assert (∀ c k', (length k' < length k)%nat → rec_ok (erase_fix fuel) c k') as Hrec.
  { intros c k' Hlen m t' Hd Hc _. apply (IH k' m t' Hd Hc). unfold erase_rounds. case_match; lia. }
  assert (∀ k', length k' = length k → rec_ok (erase_fix fuel) Red k') as Hrec'.
  { intros k' Hlen m t' Hd Hc Hred. apply (IH k' m t' Hd Hc). unfold erase_rounds. rewrite Hred by done. lia. }
  inversion Hk as [n' | n' p o k1 Ho Hk1 | n' o p k1 Ho Hk1 | c c' n' p o k1 Ho Hk1 | c c' n' o p k1 Ho Hk1]; subst.
  - eexists. split; [done|]. split; [|by rewrite inorder_paint]. exists n. inversion Ht; subst; simpl; eauto with yula.
  - inversion Ho as [| |m cl cr ol oa or_ Hol Hor]; subst.
    eapply (fix_left_spec n); eauto with yula; apply Hrec; simpl; lia.
  - inversion Ho as [| |m cl cr ol oa or_ Hol Hor]; subst.
    eapply (fix_right_spec n); eauto with yula; apply Hrec; simpl; lia.
  - inversion Ho as [|m ol oa or_ Hol Hor|m cl cr ol oa or_ Hol Hor]; subst.
    + destruct (fix_left_spec n (erase_fix fuel) Red p t ol (FL Black oa or_ :: k1)) as (t' & -> & ? & Hin);
        [done|done|simpl; eauto with yula|by apply Hrec'|].
      eexists. split; [done|]. split; [done|]. rewrite Hin. inorder_solve.
    + eapply (fix_left_spec n); eauto with yula; apply Hrec; simpl; lia.
  - inversion Ho as [|m ol oa or_ Hol Hor|m cl cr ol oa or_ Hol Hor]; subst.
    + destruct (fix_right_spec n (erase_fix fuel) Red or_ p t (FR Black ol oa :: k1)) as (t' & -> & ? & Hin);
        [done|done|simpl; eauto with yula|by apply Hrec'|].
      eexists. split; [done|]. split; [done|]. rewrite Hin. inorder_solve.
    + eapply (fix_right_spec n); eauto with yula; apply Hrec; simpl; lia.
Qed.

(** The leftmost node of a non-empty tree: its path, colour, address and right
    subtree. *)
Fixpoint split_min (k : context) (t : tree) : option (context * color * Z * tree) :=
  match t with
  | Leaf => None
  | Node c Leaf a r => Some (k, c, a, r)
  | Node c l a r => split_min (FL c a r :: k) l
  end.

Lemma split_min_some t :
  t ≠ Leaf → ∃ k1 c a r, (∀ k, split_min k t = Some (k1 ++ k, c, a, r)) ∧ t = plug k1 (Node c Leaf a r) ∧
    before k1 = [].
Proof.
  induction t as [|c l IHl a r IHr]; intros Hne; [done|]. simpl. destruct l as [|cl ll la lr].
  - by exists [], c, a, r.
  - destruct IHl as (k1 & c1 & a1 & r1 & Hsp & Heq & Hb); [done|].
    exists (k1 ++ [FL c a r]), c1, a1, r1. split; [intros k; by rewrite Hsp, <- (assoc_L (++))|].
    split; [by rewrite plug_app, <- Heq|].
    clear - Hb. induction k1 as [|f k1 IH]; [done|]. destruct f; simpl in *; [auto|].
    by apply app_eq_nil in Hb as [_ [_ ?]%app_eq_nil].
Qed.

(** Typing the leftmost node and its context. *)
Lemma rbt_unplug k1 t c n :
  rbt c n (plug k1 t) → ∀ k, ctx_rb c n k → ∃ c' n', rbt c' n' t ∧ ctx_rb c' n' (k1 ++ k).
Proof.
  revert t. induction k1 as [|f k1 IH]; intros t Ht k Hk; [by exists c, n|].
  rewrite plug_cons in Ht. destruct (IH _ Ht k Hk) as (c' & n' & Ht' & Hk').
  destruct f as [fc fa fr|fc fl fa]; simpl in Ht'; inversion Ht'; subst; do 2 eexists; (split; [eassumption|]);
    eauto with yula.
Qed.

(** [__rb_erase] on trees: the node [a] in focus is replaced by its only child,
    or by the leftmost node of its right subtree. *)
Definition erase_tree (fuel : nat) (k : context) (c : color) (l : tree) (a : Z) (r : tree) : option tree :=
  match l, r with
  | Leaf, child | child, Leaf =>
      if decide (c = Black) then erase_fix fuel k child else Some (plug k child)
  | _, _ =>
      match split_min [] r with
      | None => None
      | Some (k1, cm, m, child) =>
          let k' := k1 ++ FR c l m :: k in
          if decide (cm = Black) then erase_fix fuel k' child else Some (plug k' child)
      end
  end.

Lemma before_app k1 k2 : before (k1 ++ k2) = before k2 ++ before k1.
Proof.
  induction k1 as [|[] k1 IH]; simpl; [by rewrite app_nil_r|done|]. rewrite IH, <- !(assoc_L (++)). done.
Qed.

Lemma after_app k1 k2 : after (k1 ++ k2) = after k1 ++ after k2.
Proof. induction k1 as [|[] k1 IH]; simpl; [done| |done]. rewrite IH, <- !(assoc_L (++)). done. Qed.

Lemma context_size k t : (length k + length (inorder t) ≤ length (inorder (plug k t)))%nat.
Proof.
  rewrite inorder_plug, !length_app.
  assert (length k ≤ length (before k) + length (after k))%nat; [|lia].
  induction k as [|[] k IH]; simpl; rewrite ?length_app in *; simpl; lia.
Qed.

Lemma rbt_deficit c n t : rbt c n t → deficit n t.
Proof.
  intros H. destruct (is_red_tree t) eqn:E; [right|left; by eapply rbt_black_of].
  split; [done|]. by eapply paint_red_uncle.
Qed.

(** Removing the node between a context and its only child. *)
Lemma unlink_spec fuel k c n t :
  (c = Black → ctx_rb Black (S n) k) → (c = Red → ctx_rb Black n k ∧ rbt Black n t) → deficit n t →
  (length k + 2 ≤ fuel)%nat →
  ∃ t', (if decide (c = Black) then erase_fix fuel k t else Some (plug k t)) = Some t' ∧
    red_black t' ∧ inorder t' = inorder (plug k t).
Proof.
  intros Hb Hr Ht Hf. case_decide as Hc.
  - apply (erase_fix_spec fuel k n); [done|by apply Hb|]. unfold erase_rounds. case_match; lia.
  - destruct c; [|done]. destruct Hr as [Hk Ht']; [done|]. eexists. split; [done|]. split; [|done].
    by eapply rbt_plug.
Qed.

(** Removal keeps the invariant and takes exactly the node out. *)
Lemma erase_tree_spec fuel k c cn n l a r :
  rbt cn n (Node c l a r) → ctx_rb cn n k →
  (length (inorder (plug k (Node c l a r))) + 2 ≤ fuel)%nat →
  ∃ t', erase_tree fuel k c l a r = Some t' ∧ red_black t' ∧
    inorder t' = before k ++ inorder l ++ inorder r ++ after k.
Proof.
  intros Ht Hk Hf. pose proof (context_size k (Node c l a r)) as Hsz.
  assert (∀ t, (l = Leaf ∧ t = r) ∨ (r = Leaf ∧ t = l) →
    ∃ t', (if decide (c = Black) then erase_fix fuel k t else Some (plug k t)) = Some t' ∧
      red_black t' ∧ inorder t' = before k ++ inorder l ++ inorder r ++ after k) as Hone.
  { intros t Hlr. assert (∃ m, (c = Black → ctx_rb Black (S m) k) ∧
      (c = Red → ctx_rb Black m k ∧ rbt Black m t) ∧ deficit m t) as (m & H1 & H2 & H3).
    { destruct (rbt_node_inv _ _ _ _ _ _ Ht) as [(-> & -> & Hl & Hr)|(-> & -> & m & cl & cr & -> & Hl & Hr)].
      - exists n. split_and!; [done| |].
        + intros _. split; [by eapply ctx_rb_black|]. by destruct Hlr as [[_ ->]|[_ ->]].
        + destruct Hlr as [[_ ->]|[_ ->]]; by eapply rbt_deficit.
      - exists m. split_and!; [done|done|]. destruct Hlr as [[_ ->]|[_ ->]]; by eapply rbt_deficit. }
    destruct (unlink_spec fuel k c m t H1 H2 H3) as (t' & -> & Hrb & Hin); [lia|].
    eexists. split; [done|]. split; [done|]. rewrite Hin, inorder_plug.
    destruct Hlr as [[-> ->]|[-> ->]]; done. }
  unfold erase_tree. destruct l as [|cl ll la lr]; [apply Hone; by left|].
  destruct r as [|cr rl ra rr]; [apply Hone; by right|]. clear Hone.
  set (l := Node cl ll la lr) in *. set (r := Node cr rl ra rr) in *.
  destruct (split_min_some r) as (k1 & cm & m & child & Hsp & Hr & Hb1); [done|].
  rewrite (Hsp []), app_nil_r.
  assert (∃ c0 n0, rbt c0 n0 r ∧ ctx_rb c0 n0 (FR c l m :: k)) as (c0 & n0 & Hr0 & Hk0).
  { destruct (rbt_node_inv _ _ _ _ _ _ Ht) as [(-> & -> & Hl' & Hr')|(-> & -> & j & c1 & c2 & -> & Hl' & Hr')];
      do 2 eexists; (split; [exact Hr'|]); eauto with yula. }
  rewrite Hr in Hr0. destruct (rbt_unplug _ _ _ _ Hr0 _ Hk0) as (c3 & n3 & Hm & Hkm).
  assert (∃ j, (cm = Black → ctx_rb Black (S j) (k1 ++ FR c l m :: k)) ∧
    (cm = Red → ctx_rb Black j (k1 ++ FR c l m :: k) ∧ rbt Black j child) ∧ deficit j child) as (j & H1 & H2 & H3).
  { destruct (rbt_node_inv _ _ _ _ _ _ Hm) as [(-> & -> & Hl' & Hr')|(-> & -> & j & c1 & c2 & -> & Hl' & Hr')].
    - exists n3. split_and!; [done| |by eapply rbt_deficit]. intros _. split; [by eapply ctx_rb_black|done].
    - exists j. split_and!; [done|done|by eapply rbt_deficit]. }
  destruct (unlink_spec fuel _ cm j child H1 H2 H3) as (t' & -> & Hrb & Hin).
  { pose proof (context_size k1 (Node cm Leaf m child)) as Hs1. rewrite <- Hr in Hs1.
    rewrite length_app. simpl. simpl in Hsz, Hs1. rewrite length_app in Hsz. simpl in Hsz.
    fold l in Hsz. simpl in Hsz. rewrite ?length_app in *. simpl in *. lia. }
  eexists. split; [done|]. split; [done|]. rewrite Hin, inorder_plug, before_app, after_app, Hb1, Hr, inorder_plug, Hb1.
  inorder_solve.
Qed.
