(* ===== verification/RbProof.v ===== *)
(** * The pointer code of [RbTree] implements the trees of [RbModel]

    [tree_rep s t] says that the heap of [s] holds the tree [t].  Each pointer
    primitive is shown to act on the subtree in focus; the two rebalancing loops
    then simulate [insert_fix] and [erase_fix]. *)

From S2P Require Import Prelude RbTree RbModel.

(** ** Representation *)

Definition color_bit (c : color) : Z := match c with Red => RB_RED | Black => RB_BLACK end.
Definition pc (par : Z) (c : color) : Z := par + color_bit c.

(** Addresses of nodes are words and, like NULL, multiples of four. *)
Definition link_ok (a : Z) : Prop := 0 ≤ a < 4294967296 ∧ a `mod` 4 = 0.
Definition addr_ok (a : Z) : Prop := a ≠ 0 ∧ link_ok a.

Definition ctx_addr (k : context) : Z := match k with [] => 0 | f :: _ => frame_addr f end.
Definition ctx_addrs (k : context) : list Z := before k ++ after k.

Definition cell (par : Z) (c : color) (l r : Z) : rb_node := RbNode (pc par c) r l.

Fixpoint rep (h : gmap Z rb_node) (t : tree) (par : Z) : Prop :=
  match t with
  | Leaf => True
  | Node c l a r =>
      addr_ok a ∧ h !! a = Some (cell par c (root_of l) (root_of r)) ∧ rep h l a ∧ rep h r a
  end.

(** The path above a hole that holds the link [x]. *)
Fixpoint ctx_rep (h : gmap Z rb_node) (k : context) (x : Z) : Prop :=
  match k with
  | [] => True
  | FL c a r :: k =>
      addr_ok a ∧ h !! a = Some (cell (ctx_addr k) c x (root_of r)) ∧ rep h r a ∧ ctx_rep h k a
  | FR c l a :: k =>
      addr_ok a ∧ h !! a = Some (cell (ctx_addr k) c (root_of l) x) ∧ rep h l a ∧ ctx_rep h k a
  end.

Definition tree_rep (s : rb_state) (t : tree) : Prop :=
  NoDup (inorder t) ∧ rep (heap s) t 0 ∧ root s = root_of t.

(** The same with the subtree [t] in focus. *)
Record focus_rep (s : rb_state) (k : context) (t : tree) : Prop := FocusRep {
  focus_nodup : NoDup (inorder t ++ ctx_addrs k);
  focus_tree : rep (heap s) t (ctx_addr k);
  focus_ctx : ctx_rep (heap s) k (root_of t);
  focus_root : k = [] → root s = root_of t;
  focus_root' : k ≠ [] → root s = root_of (plug k t) }.

Lemma inorder_perm k t : inorder (plug k t) ≡ₚ inorder t ++ ctx_addrs k.
Proof. rewrite inorder_plug. unfold ctx_addrs. solve_Permutation. Qed.

Lemma rep_plug h k t :
  rep h (plug k t) 0 ↔ rep h t (ctx_addr k) ∧ ctx_rep h k (root_of t).
Proof.
  revert t. induction k as [|f k IH]; intros t; [simpl; tauto|].
  rewrite plug_cons, IH. destruct f; simpl; tauto.
Qed.

Lemma focus_iff s k t : focus_rep s k t ↔ tree_rep s (plug k t).
Proof.
  unfold tree_rep. rewrite rep_plug, inorder_perm. split.
  - intros [H1 H2 H3 H4 H5]. split_and!; try done. destruct k; [by apply H4|by apply H5].
  - intros (H1 & [H2 H3] & H4). split; try done. by intros ->.
Qed.

Lemma focus_fill s f k t : focus_rep s (f :: k) t ↔ focus_rep s k (fill f t).
Proof. by rewrite !focus_iff, plug_cons. Qed.

(** The root does not depend on what stands in the hole, as long as its address stays. *)
Lemma root_plug k t t' : k ≠ [] → root_of (plug k t) = root_of (plug k t').
Proof.
  revert t t'. induction k as [|f k IH]; intros t t' Hk; [done|]. rewrite !plug_cons.
  destruct k as [|f' k]; [by destruct f|]. by apply IH.
Qed.

Lemma root_of_0 h t par : rep h t par → (root_of t =? 0) = match t with Leaf => true | _ => false end.
Proof. destruct t; simpl; [done|]. intros ([? _] & _). by apply Z.eqb_neq. Qed.

Lemma link_ok_0 : link_ok 0.
Proof. done. Qed.

Lemma ctx_addr_ok h k x : ctx_rep h k x → link_ok (ctx_addr k).
Proof. destruct k as [|[] k]; simpl; [done|intros ([_ ?] & _); done..]. Qed.

Lemma ctx_addr_neq h f k x : ctx_rep h (f :: k) x → frame_addr f ≠ 0.
Proof. destruct f; simpl; intros ([? _] & _); done. Qed.

(** ** The parent and colour word *)

Lemma pc_split par c : link_ok par → ∃ q, par = q * 2 ^ 2 ∧ 0 ≤ q < 2 ^ 30 ∧ 0 ≤ color_bit c < 2.
Proof.
  intros [Hr Hm]. exists (par / 4). change (2 ^ 2) with 4. change (2 ^ 30) with 1073741824.
  destruct c; simpl; Z.to_euclidean_division_equations; unfold RB_RED, RB_BLACK; lia.
Qed.

Lemma pc_parent par c n : link_ok par → parent_color n = pc par c → rb_parent_node n = par.
Proof.
  intros Hp Hn. unfold rb_parent_node. rewrite Hn. unfold pc.
  destruct (pc_split par c Hp) as (q & -> & Hq & Hb).
  change (u32 (Z.lnot 3)) with (Z.lnot (2 ^ 2 - 1) `mod` 2 ^ 32). rewrite land_high; [|lia..].
  rewrite Z.div_add_l, Z.div_small by lia. lia.
Qed.

Lemma pc_mod par c : link_ok par → Z.land (pc par c) 3 = color_bit c ∧ Z.land (pc par c) 1 = color_bit c.
Proof.
  intros Hp. unfold pc. destruct (pc_split par c Hp) as (q & -> & Hq & Hb).
  change 3 with (Z.ones 2). change 1 with (Z.ones 1). rewrite !Z.land_ones by lia.
  change (2 ^ 2) with 4. change (2 ^ 1) with 2. Z.to_euclidean_division_equations; lia.
Qed.

Lemma pc_clear par c : link_ok par → Z.land (pc par c) (u32 (Z.lnot 1)) = par.
Proof.
  intros Hp. unfold pc. destruct (pc_split par c Hp) as (q & -> & Hq & Hb).
  change (u32 (Z.lnot 1)) with (Z.lnot (2 ^ 1 - 1) `mod` 2 ^ 32). rewrite land_high; [|lia..].
  change (2 ^ 2) with 4. change (2 ^ 1) with 2. Z.to_euclidean_division_equations; lia.
Qed.

Lemma pc_lor par c c' : link_ok par → Z.lor (pc par c) (color_bit c') = pc par (if decide (c = Black) then c else c').
Proof.
  intros Hp. unfold pc. destruct (pc_split par c Hp) as (q & -> & Hq & Hb).
  rewrite <- (lor_low q (color_bit c)) by lia. rewrite <- Z.lor_assoc.
  assert (∀ b : color, 0 ≤ color_bit b < 2 ^ 2) as Hbit by by intros [].
  rewrite <- lor_low by (try apply Hbit; lia). f_equal. by destruct c, c'.
Qed.

Lemma pc_set par c : link_ok par → Z.lor (color_bit c) par = pc par c.
Proof.
  intros Hp. unfold pc. destruct (pc_split par c Hp) as (q & -> & Hq & Hb).
  rewrite Z.lor_comm. apply lor_low; lia.
Qed.

(** ** Disjointness of address lists *)

(** No address in common; kept apart from [##] so that it splits in one way. *)
Definition apart (A B : list Z) : Prop := ∀ x, x ∈ A → x ∉ B.

Lemma apart_nil_l B : apart [] B ↔ True.
Proof. unfold apart. set_solver. Qed.
Lemma apart_nil_r A : apart A [] ↔ True.
Proof. unfold apart. set_solver. Qed.
Lemma apart_cons_l a A B : apart (a :: A) B ↔ (a ∉ B) ∧ apart A B.
Proof. unfold apart. set_solver. Qed.
Lemma apart_cons_r b A B : apart A (b :: B) ↔ (b ∉ A) ∧ apart A B.
Proof. unfold apart. set_solver. Qed.
Lemma apart_app_l A A' B : apart (A ++ A') B ↔ apart A B ∧ apart A' B.
Proof. unfold apart. set_solver. Qed.
Lemma apart_app_r A B B' : apart A (B ++ B') ↔ apart A B ∧ apart A B'.
Proof. unfold apart. set_solver. Qed.
Lemma apart_sym A B : apart A B → apart B A.
Proof. unfold apart. set_solver. Qed.
Lemma NoDup_app_apart (A B : list Z) : NoDup (A ++ B) ↔ NoDup A ∧ apart A B ∧ NoDup B.
Proof. apply NoDup_app. Qed.
Lemma not_elem_of_nil_iff (a : Z) : (a ∉ []) ↔ True.
Proof. set_solver. Qed.

(** Splits facts about distinct addresses down to atoms. *)
Ltac fresh_split :=
  repeat match goal with
  | H : _ ∧ _ |- _ => destruct H
  | H : NoDup (_ ++ _) |- _ => rewrite NoDup_app_apart in H
  | H : NoDup (_ :: _) |- _ => rewrite NoDup_cons in H
  | H : apart (_ ++ _) _ |- _ => rewrite apart_app_l in H
  | H : apart _ (_ ++ _) |- _ => rewrite apart_app_r in H
  | H : apart (_ :: _) _ |- _ => rewrite apart_cons_l in H
  | H : apart _ (_ :: _) |- _ => rewrite apart_cons_r in H
  | H : apart [] _ |- _ => clear H
  | H : apart _ [] |- _ => clear H
  | H : _ ∉ [] |- _ => clear H
  | H : _ ∉ _ ++ _ |- _ => rewrite not_elem_of_app in H
  | H : _ ∉ _ :: _ |- _ => rewrite not_elem_of_cons in H
  end.

Ltac fresh_addr :=
  simpl; unfold ctx_addrs in *; simpl in *;
  repeat first
    [ rewrite NoDup_app_apart | rewrite NoDup_cons | rewrite apart_app_l | rewrite apart_app_r
    | rewrite apart_cons_l | rewrite apart_cons_r | rewrite apart_nil_l | rewrite apart_nil_r
    | rewrite not_elem_of_nil_iff | rewrite not_elem_of_app | rewrite not_elem_of_cons ];
  repeat match goal with |- _ ∧ _ => split | |- True => exact I end;
  fresh_split; first [assumption | apply apart_sym; assumption | apply not_eq_sym; assumption | apply NoDup_nil_2].

(** ** Cells *)

Definition upd (a : Z) (n : rb_node) (s : rb_state) : rb_state :=
  RbState (<[a := n]> (heap s)) (root s) (cb_log s).

(** The node [a] as the code sees it. *)
Definition has_cell (s : rb_state) (a par : Z) (c : color) (l r : Z) : Prop :=
  addr_ok a ∧ link_ok par ∧ heap s !! a = Some (cell par c l r).

Lemma get_ok s a n : a ≠ 0 → heap s !! a = Some n → get s a = Ok n.
Proof. intros Ha Hn. unfold get. rewrite (proj2 (Z.eqb_neq a 0)) by done. by rewrite Hn. Qed.

Lemma modify_ok s a n f : a ≠ 0 → heap s !! a = Some n → modify a f s = Ok (upd a (f n) s).
Proof. intros Ha Hn. unfold modify, put. by rewrite !(get_ok s a n). Qed.

Section Cells.
Context (s : rb_state) (a par : Z) (c : color) (l r : Z) (H : has_cell s a par c l r).

Lemma cell_get : get s a = Ok (cell par c l r).
Proof. destruct H as ([? _] & _ & ?). by apply get_ok. Qed.

Lemma cell_reads :
  left_of s a = Ok l ∧ right_of s a = Ok r ∧ parent_of s a = Ok par ∧ color_of s a = Ok (color_bit c) ∧
  is_red s a = Ok (bool_decide (c = Red)) ∧ is_black s a = Ok (bool_decide (c = Black)).
Proof.
  destruct H as (_ & Hp & _). unfold left_of, right_of, parent_of, color_of, is_red, is_black. rewrite cell_get. simpl.
  rewrite (pc_parent par c) by done. unfold rb_is_red, rb_is_black, rb_color, cell. simpl.
  rewrite (proj2 (pc_mod par c Hp)). by destruct c.
Qed.

Lemma cell_modify f : modify a f s = Ok (upd a (f (cell par c l r)) s).
Proof. destruct H as ([? _] & _ & ?). by apply modify_ok. Qed.

Lemma cell_set_left x : modify a (set_left x) s = Ok (upd a (cell par c x r) s).
Proof. apply cell_modify. Qed.

Lemma cell_set_right x : modify a (set_right x) s = Ok (upd a (cell par c l x) s).
Proof. apply cell_modify. Qed.

Lemma cell_set_parent q : link_ok q → rb_set_parent a q s = Ok (upd a (cell q c l r) s).
Proof.
  destruct H as (_ & Hp & _). intros Hq. unfold rb_set_parent. rewrite cell_modify. unfold set_pc, cell. simpl.
  by rewrite (proj1 (pc_mod par c Hp)), pc_set.
Qed.

Lemma cell_set_black : rb_set_black a s = Ok (upd a (cell par Black l r) s).
Proof.
  destruct H as (_ & Hp & _). unfold rb_set_black. rewrite cell_modify. unfold set_pc, cell. simpl.
  change RB_BLACK with (color_bit Black). rewrite pc_lor by done. by destruct c.
Qed.

Lemma cell_set_red : rb_set_red a s = Ok (upd a (cell par Red l r) s).
Proof.
  destruct H as (_ & Hp & _). unfold rb_set_red. rewrite cell_modify. unfold set_pc, cell. simpl.
  change RB_BLACK with 1. rewrite pc_clear by done. unfold pc. simpl. unfold RB_RED. by rewrite Z.add_0_r.
Qed.

Lemma cell_set_color c' : rb_set_color a (color_bit c') s = Ok (upd a (cell par c' l r) s).
Proof.
  destruct H as (_ & Hp & _). unfold rb_set_color. rewrite cell_modify. unfold set_pc, cell. simpl.
  rewrite pc_clear by done. by rewrite Z.lor_comm, pc_set.
Qed.
End Cells.

Lemma has_cell_upd s a par c l r : addr_ok a → link_ok par → has_cell (upd a (cell par c l r) s) a par c l r.
Proof. intros Ha Hp. split_and!; [done|done|]. apply lookup_insert_eq. Qed.

Lemma has_cell_upd_ne s a b n par c l r :
  a ≠ b → has_cell s a par c l r → has_cell (upd b n s) a par c l r.
Proof. intros Hne (Ha & Hp & Hc). split_and!; [done|done|]. simpl. by rewrite lookup_insert_ne. Qed.

Lemma has_cell_root s x a par c l r : has_cell s a par c l r → has_cell (set_root x s) a par c l r.
Proof. done. Qed.

Lemma rep_upd h t par a n : a ∉ inorder t → rep h t par → rep (<[a := n]> h) t par.
Proof.
  revert par. induction t as [|c l IHl b r IHr]; intros par Ha; simpl in *; [done|].
  intros (Hb & Hc & Hl & Hr). rewrite not_elem_of_app, not_elem_of_cons in Ha. destruct Ha as (H1 & H2 & H3).
  split_and!; [done| |by apply IHl|by apply IHr]. by rewrite lookup_insert_ne.
Qed.

Lemma ctx_rep_upd h k x a n : a ∉ ctx_addrs k → ctx_rep h k x → ctx_rep (<[a := n]> h) k x.
Proof.
  unfold ctx_addrs. revert x. induction k as [|f k IH]; intros x Ha; simpl in *; [done|].
  destruct f; simpl in *; intros (Hb & Hc & Ht & Hk);
    (split_and!; [done|rewrite lookup_insert_ne by fresh_addr; done|apply rep_upd; [fresh_addr|done]|
      apply IH; [fresh_addr|done]]).
Qed.

(** ** Subtree roots, the hole *)

(** [if (t) rb_set_parent(t, q);] *)
Definition reparent (t : tree) (q : Z) (s : rb_state) : rb_state :=
  match t with
  | Leaf => s
  | Node c l a r => upd a (cell q c (root_of l) (root_of r)) s
  end.

(** The hole of [k] now holds [x]. *)
Definition relink (k : context) (x : Z) (s : rb_state) : rb_state :=
  match k with
  | [] => set_root x s
  | FL c p r :: k => upd p (cell (ctx_addr k) c x (root_of r)) s
  | FR c l p :: k => upd p (cell (ctx_addr k) c (root_of l) x) s
  end.

Lemma reparent_ok s t par q :
  rep (heap s) t par → link_ok par → link_ok q →
  (if negb (root_of t =? 0) then rb_set_parent (root_of t) q s else Ok s) = Ok (reparent t q s).
Proof.
  intros Ht Hp Hq. rewrite (root_of_0 _ _ _ Ht). destruct t as [|c l a r]; [done|]. simpl in *.
  destruct Ht as (Ha & Hc & _). by apply (cell_set_parent s a par c).
Qed.

Lemma rep_reparent s t q par :
  NoDup (inorder t) → rep (heap s) t par → rep (heap (reparent t q s)) t q.
Proof.
  destruct t as [|c l a r]; simpl; [done|]. intros Hnd (Ha & Hc & Hl & Hr).
  split_and!; [done|by rewrite lookup_insert_eq|apply rep_upd; [fresh_addr|done]..].
Qed.

Lemma rep_reparent_ne s t q t' par :
  apart (inorder t') (inorder t) → rep (heap s) t' par → rep (heap (reparent t q s)) t' par.
Proof. destruct t as [|c l a r]; simpl; [done|]. intros Hd Hr. apply rep_upd; [fresh_addr|done]. Qed.

Lemma ctx_reparent s t q k x :
  apart (ctx_addrs k) (inorder t) → ctx_rep (heap s) k x → ctx_rep (heap (reparent t q s)) k x.
Proof. destruct t as [|c l a r]; simpl; [done|]. intros Hd Hr. apply ctx_rep_upd; [fresh_addr|done]. Qed.

Lemma has_cell_reparent s t q a par c l r :
  a ∉ inorder t → has_cell s a par c l r → has_cell (reparent t q s) a par c l r.
Proof. destruct t; simpl; [done|]. intros Hd. apply has_cell_upd_ne. fresh_addr. Qed.

Lemma rep_relink s k x t par :
  apart (inorder t) (ctx_addrs k) → rep (heap s) t par → rep (heap (relink k x s)) t par.
Proof.
  unfold ctx_addrs. destruct k as [|[] k]; simpl; [done|intros Hd; apply rep_upd; fresh_addr..].
Qed.

Lemma has_cell_relink s k x a par c l r :
  a ∉ ctx_addrs k → has_cell s a par c l r → has_cell (relink k x s) a par c l r.
Proof.
  unfold ctx_addrs. destruct k as [|[] k]; simpl; [done|intros Hd; apply has_cell_upd_ne; fresh_addr..].
Qed.

Lemma ctx_relink s k x y : NoDup (ctx_addrs k) → ctx_rep (heap s) k y → ctx_rep (heap (relink k x s)) k x.
Proof.
  unfold ctx_addrs. destruct k as [|[c p t|c t p] k]; simpl; [done|..]; intros Hnd (Ha & Hc & Ht & Hk);
    (split_and!; [done|by rewrite lookup_insert_eq|apply rep_upd; [fresh_addr|done]|
      apply ctx_rep_upd; [fresh_addr|done]]).
Qed.

Lemma root_relink s k x t : (k ≠ [] → root s = root_of (plug k t)) →
  root (relink k x s) = match k with [] => x | _ => root_of (plug k t) end.
Proof. destruct k as [|[] k]; simpl; [done|auto..]. Qed.

Lemma root_of_elem t : root_of t ≠ 0 → root_of t ∈ inorder t.
Proof. destruct t; simpl; [done|]. set_solver. Qed.

Lemma root_of_ne a t : a ≠ 0 → a ∉ inorder t → (a =? root_of t) = false.
Proof. intros Ha Hn. apply Z.eqb_neq. intros ->. by apply Hn, root_of_elem. Qed.

(** The three ways the code finds which link of the parent to change. *)
Lemma relink_left_ok s k a x :
  ctx_rep (heap s) k a → a ≠ 0 → a ∉ ctx_addrs k →
  (if negb (ctx_addr k =? 0) then
     pl ← left_of s (ctx_addr k);
     if a =? pl then modify (ctx_addr k) (set_left x) s else modify (ctx_addr k) (set_right x) s
   else Ok (set_root x s)) = Ok (relink k x s).
Proof.
  unfold ctx_addrs. destruct k as [|[c p t|c t p] k]; simpl; [done|..]; intros ([Hp Hl] & Hc & Ht & Hk) Ha Hn;
    rewrite (proj2 (Z.eqb_neq p 0)) by done; simpl.
  all: match type of Hc with _ = Some (cell _ _ ?l ?r) =>
    assert (has_cell s p (ctx_addr k) c l r) as Hcell by (split_and!; [done|by eapply ctx_addr_ok|done]) end.
  all: rewrite (proj1 (cell_reads _ _ _ _ _ _ Hcell)); simpl.
  - rewrite Z.eqb_refl. by apply (cell_set_left _ _ _ _ _ _ Hcell).
  - rewrite root_of_ne by (done || fresh_addr). by apply (cell_set_right _ _ _ _ _ _ Hcell).
Qed.

Lemma relink_right_ok s k a x :
  ctx_rep (heap s) k a → a ≠ 0 → a ∉ ctx_addrs k →
  (if negb (ctx_addr k =? 0) then
     pr ← right_of s (ctx_addr k);
     if a =? pr then modify (ctx_addr k) (set_right x) s else modify (ctx_addr k) (set_left x) s
   else Ok (set_root x s)) = Ok (relink k x s).
Proof.
  unfold ctx_addrs. destruct k as [|[c p t|c t p] k]; simpl; [done|..]; intros ([Hp Hl] & Hc & Ht & Hk) Ha Hn;
    rewrite (proj2 (Z.eqb_neq p 0)) by done; simpl.
  all: match type of Hc with _ = Some (cell _ _ ?l ?r) =>
    assert (has_cell s p (ctx_addr k) c l r) as Hcell by (split_and!; [done|by eapply ctx_addr_ok|done]) end.
  all: rewrite (proj1 (proj2 (cell_reads _ _ _ _ _ _ Hcell))); simpl.
  - rewrite root_of_ne by (done || fresh_addr). by apply (cell_set_left _ _ _ _ _ _ Hcell).
  - rewrite Z.eqb_refl. by apply (cell_set_right _ _ _ _ _ _ Hcell).
Qed.

Lemma replace_child_ok s k a x :
  ctx_rep (heap s) k a → a ≠ 0 → a ∉ ctx_addrs k →
  replace_child (ctx_addr k) a x s = Ok (relink k x s).
Proof.
  intros Hk Ha Hn. rewrite <- (relink_left_ok s k a x) by done. unfold replace_child. case_if; [|done].
  apply res_bind_ext. intros l. by rewrite Z.eqb_sym.
Qed.

(** Installing a new subtree in the hole. *)
Lemma focus_install s0 s k t t' :
  focus_rep s0 k t → NoDup (inorder t' ++ ctx_addrs k) →
  rep (heap s) t' (ctx_addr k) → ctx_rep (heap s) k (root_of t') →
  root s = root (relink k (root_of t') s0) → tree_rep s (plug k t').
Proof.
  intros [Hnd Ht Hk Hr0 Hr] Hnd' Ht' Hk' Hroot. apply focus_iff. split; try done.
  - intros ->. by rewrite Hroot.
  - intros Hne. rewrite Hroot, (root_relink s0 k _ t) by done. destruct k; [done|]. by apply root_plug.
Qed.

Lemma focus_cell s k c l a r :
  tree_rep s (plug k (Node c l a r)) → has_cell s a (ctx_addr k) c (root_of l) (root_of r).
Proof.
  intros [_ (Ha & Hc & _) Hk _ _]%focus_iff. split_and!; [done| |done]. by eapply ctx_addr_ok.
Qed.

(** A representation fact through writes elsewhere. *)
Ltac rep_peel :=
  repeat first
    [ eassumption
    | apply has_cell_upd; assumption
    | apply has_cell_upd_ne; [fresh_addr|]
    | apply has_cell_reparent; [fresh_addr|]
    | apply has_cell_relink; [fresh_addr|]
    | apply rep_upd; [fresh_addr|]
    | apply rep_relink; [fresh_addr|]
    | apply rep_reparent_ne; [fresh_addr|]
    | eapply rep_reparent; [fresh_addr|]
    | apply ctx_rep_upd; [fresh_addr|]
    | apply ctx_reparent; [fresh_addr|] ].

Section Rotations.
Context (cb : rb_callbacks).

Lemma tree_rep_log s on c t : tree_rep (log_call on c s) t ↔ tree_rep s t.
Proof. by destruct on. Qed.

Lemma rotate_left_rep s k c l a c2 rl b rr :
  tree_rep s (plug k (Node c l a (Node c2 rl b rr))) →
  ∃ s', rb_rotate_left cb a s = Ok s' ∧ tree_rep s' (plug k (Node c2 (Node c l a rl) b rr)).
Proof.
  intros Hs. pose proof (proj2 (focus_iff _ _ _) Hs) as Hf.
  pose proof (focus_cell _ _ _ _ _ _ Hs) as Ca. simpl in Ca.
  assert (has_cell s b a c2 (root_of rl) (root_of rr)) as Cb by by apply (focus_cell s (FR c l a :: k)).
  destruct Hf as [Hnd (Ha & _ & Hl & Hb & _ & Hrl & Hrr) Hk _ _]. pose proof Ha as [Ha0 Hal]. pose proof Hb as [Hb0 Hbl].
  pose proof (ctx_addr_ok _ _ _ Hk) as Hp. simpl in Hnd. fresh_split.
  unfold rb_rotate_left.
  destruct (cell_reads _ _ _ _ _ _ Ca) as (_ & -> & -> & _). simpl.
  destruct (cell_reads _ _ _ _ _ _ Cb) as (-> & _). simpl.
  rewrite (cell_set_right _ _ _ _ _ _ Ca). simpl. set (s1 := upd a _ s).
  assert (has_cell s1 b a c2 (root_of rl) (root_of rr)) as Cb1 by rep_peel.
  destruct (cell_reads _ _ _ _ _ _ Cb1) as (-> & _). simpl.
  rewrite (reparent_ok s1 rl b a) by (done || rep_peel). simpl. set (s2 := reparent rl a s1).
  assert (has_cell s2 b a c2 (root_of rl) (root_of rr)) as Cb2 by rep_peel.
  rewrite (cell_set_left _ _ _ _ _ _ Cb2). simpl. set (s3 := upd b _ s2).
  rewrite (cell_set_parent s3 b a c2 a (root_of rr)) by (try apply has_cell_upd; done). simpl.
  set (s4 := upd b _ s3).
  assert (ctx_rep (heap s4) k a) as Hk4 by rep_peel.
  rewrite (relink_left_ok s4 k a b) by (done || fresh_addr). simpl. set (s5 := relink k b s4).
  assert (has_cell s5 a (ctx_addr k) c (root_of l) (root_of rl)) as Ca5 by rep_peel.
  assert (has_cell s5 b (ctx_addr k) c2 a (root_of rr)) as Cb5 by rep_peel.
  rewrite (cell_set_parent _ _ _ _ _ _ Ca5) by done. simpl. eexists. split; [done|]. apply tree_rep_log.
  eapply (focus_install s); [by apply focus_iff|fresh_addr|..].
  - cbn [rep]. split_and!;
      first [done | apply lookup_insert_eq | simpl; rewrite lookup_insert_ne by fresh_addr; apply Cb5 | rep_peel].
  - apply ctx_rep_upd; [fresh_addr|]. eapply ctx_relink; [fresh_addr|done].
  - unfold s5, s4, s3, s2, s1. destruct k as [|[] k]; simpl; [done|..]; by destruct rl.
Qed.

Lemma rotate_right_rep s k c r a c2 ll b lr :
  tree_rep s (plug k (Node c (Node c2 ll b lr) a r)) →
  ∃ s', rb_rotate_right cb a s = Ok s' ∧ tree_rep s' (plug k (Node c2 ll b (Node c lr a r))).
Proof.
  intros Hs. pose proof (proj2 (focus_iff _ _ _) Hs) as Hf.
  pose proof (focus_cell _ _ _ _ _ _ Hs) as Ca. simpl in Ca.
  assert (has_cell s b a c2 (root_of ll) (root_of lr)) as Cb by by apply (focus_cell s (FL c a r :: k)).
  destruct Hf as [Hnd (Ha & _ & (Hb & _ & Hll & Hlr) & Hr) Hk _ _]. pose proof Ha as [Ha0 Hal]. pose proof Hb as [Hb0 Hbl].
  pose proof (ctx_addr_ok _ _ _ Hk) as Hp. simpl in Hnd. fresh_split.
  unfold rb_rotate_right.
  destruct (cell_reads _ _ _ _ _ _ Ca) as (-> & _ & -> & _). simpl.
  destruct (cell_reads _ _ _ _ _ _ Cb) as (_ & -> & _). simpl.
  rewrite (cell_set_left _ _ _ _ _ _ Ca). simpl. set (s1 := upd a _ s).
  assert (has_cell s1 b a c2 (root_of ll) (root_of lr)) as Cb1 by rep_peel.
  destruct (cell_reads _ _ _ _ _ _ Cb1) as (_ & -> & _). simpl.
  rewrite (reparent_ok s1 lr b a) by (done || rep_peel). simpl. set (s2 := reparent lr a s1).
  assert (has_cell s2 b a c2 (root_of ll) (root_of lr)) as Cb2 by rep_peel.
  rewrite (cell_set_right _ _ _ _ _ _ Cb2). simpl. set (s3 := upd b _ s2).
  rewrite (cell_set_parent s3 b a c2 (root_of ll) a) by (try apply has_cell_upd; done). simpl.
  set (s4 := upd b _ s3).
  assert (ctx_rep (heap s4) k a) as Hk4 by rep_peel.
  rewrite (relink_right_ok s4 k a b) by (done || fresh_addr). simpl. set (s5 := relink k b s4).
  assert (has_cell s5 a (ctx_addr k) c (root_of lr) (root_of r)) as Ca5 by rep_peel.
  assert (has_cell s5 b (ctx_addr k) c2 (root_of ll) a) as Cb5 by rep_peel.
  rewrite (cell_set_parent _ _ _ _ _ _ Ca5) by done. simpl. eexists. split; [done|]. apply tree_rep_log.
  eapply (focus_install s); [by apply focus_iff|fresh_addr|..].
  - cbn [rep]. split_and!;
      first [done | apply lookup_insert_eq | simpl; rewrite lookup_insert_ne by fresh_addr; apply Cb5 | rep_peel].
  - apply ctx_rep_upd; [fresh_addr|]. eapply ctx_relink; [fresh_addr|done].
  - unfold s5, s4, s3, s2, s1. destruct k as [|[] k]; simpl; [done|..]; by destruct lr.
Qed.
End Rotations.

(** ** Colours and reads at the focus *)

Lemma recolor_rep s k c c' l a r :
  tree_rep s (plug k (Node c l a r)) →
  tree_rep (upd a (cell (ctx_addr k) c' (root_of l) (root_of r)) s) (plug k (Node c' l a r)).
Proof.
  intros Hs. pose proof (proj2 (focus_iff _ _ _) Hs) as Hf. destruct (Hf) as [Hnd (Ha & _ & Hl & Hr) Hk _ _].
  simpl in Hnd. fresh_split. eapply (focus_install s); [done|fresh_addr|..].
  - cbn [rep]. split_and!; first [done | apply lookup_insert_eq | rep_peel].
  - simpl. rep_peel.
  - destruct (Hf) as [_ _ _ Hr0 _]. destruct k as [|[] k]; simpl; [by apply Hr0|done..].
Qed.

Lemma set_black_rep s k c l a r :
  tree_rep s (plug k (Node c l a r)) →
  ∃ s', rb_set_black a s = Ok s' ∧ tree_rep s' (plug k (Node Black l a r)).
Proof.
  intros Hs. eexists. split; [by apply (cell_set_black _ _ _ _ _ _ (focus_cell _ _ _ _ _ _ Hs))|].
  by eapply recolor_rep.
Qed.

Lemma set_red_rep s k c l a r :
  tree_rep s (plug k (Node c l a r)) →
  ∃ s', rb_set_red a s = Ok s' ∧ tree_rep s' (plug k (Node Red l a r)).
Proof.
  intros Hs. eexists. split; [by apply (cell_set_red _ _ _ _ _ _ (focus_cell _ _ _ _ _ _ Hs))|].
  by eapply recolor_rep.
Qed.

Lemma set_color_rep s k c c' l a r :
  tree_rep s (plug k (Node c l a r)) →
  ∃ s', rb_set_color a (color_bit c') s = Ok s' ∧ tree_rep s' (plug k (Node c' l a r)).
Proof.
  intros Hs. eexists. split; [by apply (cell_set_color _ _ _ _ _ _ (focus_cell _ _ _ _ _ _ Hs))|].
  by eapply recolor_rep.
Qed.

(** The reads of a node in focus. *)
Definition focus_reads s k c l a r (H : tree_rep s (plug k (Node c l a r))) :=
  cell_reads _ _ _ _ _ _ (focus_cell s k c l a r H).

Lemma focus_null s k t : tree_rep s (plug k t) → (root_of t =? 0) = match t with Leaf => true | _ => false end.
Proof. intros [_ Ht _ _ _]%focus_iff. by eapply root_of_0. Qed.

Lemma ctx_null s k t : tree_rep s (plug k t) → (ctx_addr k =? 0) = match k with [] => true | _ => false end.
Proof.
  intros [_ _ Hk _ _]%focus_iff. destruct k as [|f k]; [done|]. apply Z.eqb_neq. by eapply ctx_addr_neq.
Qed.

Lemma nonnull_red_rep s k t : tree_rep s (plug k t) → nonnull_red s (root_of t) = Ok (is_red_tree t).
Proof.
  intros Hs. unfold nonnull_red. rewrite (focus_null _ _ _ Hs). destruct t as [|c l a r]; [done|]. simpl.
  destruct (focus_reads _ _ _ _ _ _ Hs) as (_ & _ & _ & _ & -> & _). by destruct c.
Qed.

Lemma null_or_black_rep s k t : tree_rep s (plug k t) → null_or_black s (root_of t) = Ok (negb (is_red_tree t)).
Proof.
  intros Hs. unfold null_or_black. rewrite (focus_null _ _ _ Hs). destruct t as [|c l a r]; [done|]. simpl.
  destruct (focus_reads _ _ _ _ _ _ Hs) as (_ & _ & _ & _ & _ & ->). by destruct c.
Qed.

(** A node is not the root of a subtree elsewhere. *)
Lemma focus_sibling s k c l a r x :
  tree_rep s (plug k (Node c l a r)) →
  (x ≠ 0 → x ∈ inorder l → (x =? root_of r) = false) ∧ (x ≠ 0 → x ∈ inorder r → (x =? root_of l) = false).
Proof.
  intros [Hnd _ _ _ _]%focus_iff. simpl in Hnd. fresh_split.
  split; intros Hx Hin; apply root_of_ne; try done; intros Hin';
    match goal with H : apart (inorder l) (inorder r) |- _ => by eapply H end.
Qed.

(** ** Insertion *)

Section Insertion.
Context (cb : rb_callbacks).

Lemma insert_loop_exit fuel s k c l a r :
  tree_rep s (plug k (Node c l a r)) → match k with [] => True | f :: _ => frame_color f = Black end →
  insert_color_loop cb (S fuel) a s = Ok (s, a).
Proof.
  intros Hs Hk. cbn [insert_color_loop]. destruct (focus_reads _ _ _ _ _ _ Hs) as (_ & _ & -> & _). simpl.
  rewrite (ctx_null _ _ _ Hs). destruct k as [|[pc p t|pc t p] k]; [done|..]; simpl in Hk; subst; simpl.
  - by destruct (focus_reads s k Black (Node c l a r) p t Hs) as (_ & _ & _ & _ & -> & _).
  - by destruct (focus_reads s k Black t p (Node c l a r) Hs) as (_ & _ & _ & _ & -> & _).
Qed.

Lemma root_ne s k t : tree_rep s (plug k t) → t ≠ Leaf → root_of t ≠ 0.
Proof. intros Hs Ht. apply Z.eqb_neq. rewrite (focus_null _ _ _ Hs). by destruct t. Qed.

(** One round with the parent [p] a red left child, its other reads done. *)
Lemma insert_round_left fuel s k gc A p B g u a :
  tree_rep s (plug k (Node gc (Node Red A p B) g u)) → parent_of s a = Ok p →
  insert_color_loop cb (S fuel) a s =
    (if is_red_tree u then
       s ← rb_set_black (root_of u) s; s ← rb_set_black p s; s ← rb_set_red g s; insert_color_loop cb fuel g s
     else
       '(s, node, parent) ← (if root_of B =? a then s ← rb_rotate_left cb p s; Ok (s, p, a) else Ok (s, a, p));
       s ← rb_set_black parent s; s ← rb_set_red g s; s ← rb_rotate_right cb g s; insert_color_loop cb fuel node s).
Proof.
  intros Hs Hpar. cbn [insert_color_loop]. rewrite Hpar. simpl.
  rewrite (proj2 (Z.eqb_neq p 0)) by (by apply (root_ne s (FL gc g u :: k) (Node Red A p B))).
  destruct (focus_reads s (FL gc g u :: k) Red A p B Hs) as (_ & HB & -> & _ & -> & _). simpl.
  destruct (focus_reads s k gc _ g u Hs) as (-> & -> & _). simpl. rewrite Z.eqb_refl.
  rewrite (nonnull_red_rep s (FR gc (Node Red A p B) g :: k) u Hs). simpl. rewrite HB. by destruct (is_red_tree u).
Qed.

Lemma insert_round_right fuel s k gc A p B g u a :
  tree_rep s (plug k (Node gc u g (Node Red A p B))) → parent_of s a = Ok p →
  insert_color_loop cb (S fuel) a s =
    (if is_red_tree u then
       s ← rb_set_black (root_of u) s; s ← rb_set_black p s; s ← rb_set_red g s; insert_color_loop cb fuel g s
     else
       '(s, node, parent) ← (if root_of A =? a then s ← rb_rotate_right cb p s; Ok (s, p, a) else Ok (s, a, p));
       s ← rb_set_black parent s; s ← rb_set_red g s; s ← rb_rotate_left cb g s; insert_color_loop cb fuel node s).
Proof.
  intros Hs Hpar. cbn [insert_color_loop]. rewrite Hpar. simpl.
  assert (p ≠ 0) as Hp by by apply (root_ne s (FR gc u g :: k) (Node Red A p B)).
  rewrite (proj2 (Z.eqb_neq p 0)) by done.
  destruct (focus_reads s (FR gc u g :: k) Red A p B Hs) as (HA & _ & -> & _ & -> & _). simpl.
  destruct (focus_reads s k gc _ g _ Hs) as (-> & _). simpl.
  rewrite (proj2 (focus_sibling s k gc u g _ p Hs)) by (done || set_solver+). simpl.
  rewrite (nonnull_red_rep s (FL gc g (Node Red A p B) :: k) u Hs). simpl. rewrite HA. by destruct (is_red_tree u).
Qed.

(** The red uncle: three repaintings. *)
Lemma insert_recolor_left fuel s k gc A p B g u :
  tree_rep s (plug k (Node gc (Node Red A p B) g u)) → is_red_tree u = true →
  ∃ s', (s ← rb_set_black (root_of u) s; s ← rb_set_black p s; s ← rb_set_red g s; insert_color_loop cb fuel g s) =
    insert_color_loop cb fuel g s' ∧ tree_rep s' (plug k (Node Red (Node Black A p B) g (paint Black u))).
Proof.
  intros Hs Hu. destruct u as [|uc ul ua ur]; [done|]. simpl.
  destruct (set_black_rep s (FR gc (Node Red A p B) g :: k) uc ul ua ur Hs) as (s1 & -> & H1). simpl.
  destruct (set_black_rep s1 (FL gc g (Node Black ul ua ur) :: k) Red A p B H1) as (s2 & -> & H2). simpl.
  destruct (set_red_rep s2 k gc _ g _ H2) as (s3 & -> & H3). simpl. by exists s3.
Qed.

Lemma insert_recolor_right fuel s k gc A p B g u :
  tree_rep s (plug k (Node gc u g (Node Red A p B))) → is_red_tree u = true →
  ∃ s', (s ← rb_set_black (root_of u) s; s ← rb_set_black p s; s ← rb_set_red g s; insert_color_loop cb fuel g s) =
    insert_color_loop cb fuel g s' ∧ tree_rep s' (plug k (Node Red (paint Black u) g (Node Black A p B))).
Proof.
  intros Hs Hu. destruct u as [|uc ul ua ur]; [done|]. simpl.
  destruct (set_black_rep s (FL gc g (Node Red A p B) :: k) uc ul ua ur Hs) as (s1 & -> & H1). simpl.
  destruct (set_black_rep s1 (FR gc (Node Black ul ua ur) g :: k) Red A p B H1) as (s2 & -> & H2). simpl.
  destruct (set_red_rep s2 k gc _ g _ H2) as (s3 & -> & H3). simpl. by exists s3.
Qed.

(** The black uncle: the parent [y] goes up, the grandparent down, and the loop ends. *)
Lemma insert_rotate_left fuel s k gc x y C g u :
  tree_rep s (plug k (Node gc (Node Red x y C) g u)) → x ≠ Leaf →
  ∃ s', (s ← rb_set_black y s; s ← rb_set_red g s; s ← rb_rotate_right cb g s;
         insert_color_loop cb (S fuel) (root_of x) s) = Ok (s', root_of x) ∧
    tree_rep s' (plug k (Node Black x y (Node Red C g u))).
Proof.
  intros Hs Hx. destruct (set_black_rep s (FL gc g u :: k) Red x y C Hs) as (s1 & -> & H1). cbn -[insert_color_loop].
  destruct (set_red_rep s1 k gc _ g _ H1) as (s2 & -> & H2). cbn -[insert_color_loop].
  destruct (rotate_right_rep cb s2 k Red u g Black x y C H2) as (s3 & -> & H3). cbn -[insert_color_loop].
  exists s3. split; [|done]. destruct x as [|c l a r]; [done|].
  by apply (insert_loop_exit fuel s3 (FL Black y (Node Red C g u) :: k) c l a r).
Qed.

Lemma insert_rotate_right fuel s k gc C y x g u :
  tree_rep s (plug k (Node gc u g (Node Red C y x))) → x ≠ Leaf →
  ∃ s', (s ← rb_set_black y s; s ← rb_set_red g s; s ← rb_rotate_left cb g s;
         insert_color_loop cb (S fuel) (root_of x) s) = Ok (s', root_of x) ∧
    tree_rep s' (plug k (Node Black (Node Red u g C) y x)).
Proof.
  intros Hs Hx. destruct (set_black_rep s (FR gc u g :: k) Red C y x Hs) as (s1 & -> & H1). cbn -[insert_color_loop].
  destruct (set_red_rep s1 k gc _ g _ H1) as (s2 & -> & H2). cbn -[insert_color_loop].
  destruct (rotate_left_rep cb s2 k Red u g Black C y x H2) as (s3 & -> & H3). cbn -[insert_color_loop].
  exists s3. split; [|done]. destruct x as [|c l a r]; [done|].
  by apply (insert_loop_exit fuel s3 (FR Black (Node Red u g C) y :: k) c l a r).
Qed.

Lemma insert_loop_sim fuel k l a r s t' :
  tree_rep s (plug k (Node Red l a r)) → insert_fix fuel k (Node Red l a r) = Some t' →
  ∃ s' n, insert_color_loop cb (S fuel) a s = Ok (s', n) ∧ tree_rep s' t'.
Proof.
  revert k l a r s. induction fuel as [|fuel IH]; intros k l a r s Hs Hfix; [done|].
  assert ((match k with [] => True | f :: _ => frame_color f = Black end) → Some (plug k (Node Red l a r)) = Some t' →
    ∃ s' n, insert_color_loop cb (S (S fuel)) a s = Ok (s', n) ∧ tree_rep s' t') as Hexit.
  { intros Hk [= <-]. exists s, a. split; [|done]. by eapply insert_loop_exit. }
  destruct k as [|[[] p pr|[] pl p] k]; try (by apply Hexit; [|exact Hfix]).
  all: set (t := Node Red l a r) in *; assert (t ≠ Leaf) as Ht by done.
  all: assert (a ≠ 0) as Ha by (by eapply (root_ne s _ t)).
  all: destruct k as [|[gc g u|gc u g] k]; [done|..]; cbn [insert_fix] in Hfix.
  - rewrite (insert_round_left _ s k gc t p pr g u) by (done || apply (focus_reads s _ _ _ _ _ Hs)).
    destruct (is_red_tree u) eqn:Eu.
    { destruct (insert_recolor_left (S fuel) s k gc t p pr g u Hs Eu) as (s' & -> & Hs'). by eapply IH. }
    rewrite Z.eqb_sym, (proj1 (focus_sibling s (FL gc g u :: k) Red t p pr a Hs)) by (done || set_solver+).
    injection Hfix as <-. destruct (insert_rotate_left fuel s k gc t p pr g u Hs Ht) as (s' & Heq & Hs').
    by exists s', a.
  - rewrite (insert_round_right _ s k gc t p pr g u) by (done || apply (focus_reads s _ _ _ _ _ Hs)).
    destruct (is_red_tree u) eqn:Eu.
    { destruct (insert_recolor_right (S fuel) s k gc t p pr g u Hs Eu) as (s' & -> & Hs'). by eapply IH. }
    simpl (root_of t). rewrite Z.eqb_refl. injection Hfix as <-.
    destruct (rotate_right_rep cb s (FR gc u g :: k) Red pr p Red l a r Hs) as (s1 & -> & H1).
    destruct (insert_rotate_right fuel s1 k gc l a (Node Red r p pr) g u H1) as (s' & Heq & Hs'); [done|].
    by exists s', p.
  - rewrite (insert_round_left _ s k gc pl p t g u) by (done || apply (focus_reads s _ _ _ _ _ Hs)).
    destruct (is_red_tree u) eqn:Eu.
    { destruct (insert_recolor_left (S fuel) s k gc pl p t g u Hs Eu) as (s' & -> & Hs'). by eapply IH. }
    simpl (root_of t). rewrite Z.eqb_refl. injection Hfix as <-.
    destruct (rotate_left_rep cb s (FL gc g u :: k) Red pl p Red l a r Hs) as (s1 & -> & H1).
    destruct (insert_rotate_left fuel s1 k gc (Node Red pl p l) a r g u H1) as (s' & Heq & Hs'); [done|].
    by exists s', p.
  - rewrite (insert_round_right _ s k gc pl p t g u) by (done || apply (focus_reads s _ _ _ _ _ Hs)).
    destruct (is_red_tree u) eqn:Eu.
    { destruct (insert_recolor_right (S fuel) s k gc pl p t g u Hs Eu) as (s' & -> & Hs'). by eapply IH. }
    rewrite Z.eqb_sym, (proj2 (focus_sibling s (FR gc u g :: k) Red pl p t a Hs)) by (done || set_solver+).
    injection Hfix as <-. destruct (insert_rotate_right fuel s k gc pl p t g u Hs Ht) as (s' & Heq & Hs').
    by exists s', a.
Qed.
End Insertion.

(** Which link of the parent the hole of [k] is. *)
Definition ctx_side (k : context) : bool := match k with FR _ _ _ :: _ => true | _ => false end.

Lemma link_node_rep s k a n :
  tree_rep s (plug k Leaf) → addr_ok a → a ∉ inorder (plug k Leaf) → heap s !! a = Some n →
  ∃ s', rb_link_node a (ctx_addr k) (ctx_side k) s = Ok s' ∧ tree_rep s' (plug k (Node Red Leaf a Leaf)).
Proof.
  intros Hs Ha Hin Hn. pose proof (proj2 (focus_iff _ _ _) Hs) as Hf. destruct (Hf) as [Hnd _ Hk _ _].
  rewrite inorder_perm in Hin. simpl in *. pose proof (ctx_addr_ok _ _ _ Hk) as Hp.
  unfold rb_link_node. rewrite (modify_ok s a n) by (apply Ha || done). cbn [mbind res_bind].
  replace (RbNode (ctx_addr k) 0 0) with (cell (ctx_addr k) Red 0 0)
    by (unfold cell, pc; simpl; unfold RB_RED; by rewrite Z.add_0_r).
  set (s1 := upd a _ s). assert (ctx_rep (heap s1) k 0) as Hk1 by rep_peel.
  exists (relink k a s1). split.
  - rewrite (ctx_null _ _ _ Hs). destruct k as [|[c p t|c t p] k]; [done|..]; simpl in Hk1 |- *;
      destruct Hk1 as (Hp1 & Hc1 & Ht1 & Hk1); pose proof (ctx_addr_ok _ _ _ Hk1).
    + by apply (cell_set_left s1 p (ctx_addr k) c 0 (root_of t)).
    + by apply (cell_set_right s1 p (ctx_addr k) c (root_of t) 0).
  - eapply (focus_install s); [done|fresh_addr|..].
    + cbn [rep root_of]. split_and!; try done. apply (has_cell_relink s1 k a a (ctx_addr k)); [done|].
      by apply has_cell_upd.
    + by eapply ctx_relink.
    + by destruct k as [|[] k].
Qed.

Lemma root_black_rep s t : tree_rep s t → t ≠ Leaf →
  ∃ s', rb_set_black (root s) s = Ok s' ∧ tree_rep s' (paint Black t).
Proof.
  intros Hs Ht. destruct t as [|c l a r]; [done|]. destruct (Hs) as (_ & _ & ->).
  by apply (set_black_rep s [] c).
Qed.

Lemma inorder_nil t : inorder t = [] → t = Leaf.
Proof. destruct t as [|c l a r]; [done|]. simpl. by intros [_ ?]%app_eq_nil. Qed.

(** Linking a node and rebalancing. *)
Lemma rb_insert_rep cb fuel s k a n :
  tree_rep s (plug k Leaf) → red_black (plug k Leaf) →
  addr_ok a → a ∉ inorder (plug k Leaf) → heap s !! a = Some n → (length k + 1 < fuel)%nat →
  ∃ s' t', (s ← rb_link_node a (ctx_addr k) (ctx_side k) s; rb_insert_color cb fuel a s) = Ok s' ∧
    tree_rep s' t' ∧ red_black t' ∧ inorder t' = before k ++ a :: after k.
Proof.
  intros Hs [m Hrb] Ha Hin Hn Hf.
  destruct (link_node_rep s k a n Hs Ha Hin Hn) as (s1 & -> & H1). cbn [mbind res_bind].
  destruct (rbt_unplug _ _ _ _ Hrb [] (ctx_nil m)) as (c' & n' & Hl & Hk). rewrite app_nil_r in Hk.
  inversion Hl; subst. destruct fuel as [|fuel]; [lia|].
  destruct (insert_fix_spec fuel k 0 (Node Red Leaf a Leaf)) as (t' & Hfix & Hrb' & Hino); [eauto with yula|done|lia|].
  destruct (insert_loop_sim cb fuel k _ _ _ s1 t' H1 Hfix) as (s2 & x & Hloop & H2).
  unfold rb_insert_color. rewrite Hloop. cbn [mbind res_bind]. rewrite inorder_plug in Hino. simpl in Hino.
  destruct (root_black_rep s2 t' H2) as (s3 & -> & H3).
  { intros ->. simpl in Hino. symmetry in Hino. by apply app_eq_nil in Hino as [_ ?]. }
  eexists _, (paint Black t'). split; [done|]. rewrite inorder_paint. split_and!; [by apply tree_rep_log|done|done].
Qed.

(** ** Removal *)

Lemma root_in_ctx k t : k ≠ [] → root_of (plug k t) ∈ ctx_addrs k.
Proof.
  unfold ctx_addrs. revert t. induction k as [|f k IH]; intros t Hk; [done|]. rewrite plug_cons.
  destruct k as [|f' k]; [destruct f; simpl; set_solver|].
  specialize (IH (fill f t) ltac:(done)). destruct f; simpl in *; set_solver.
Qed.

Lemma focus_not_root s k t : tree_rep s (plug k t) → k ≠ [] → (root_of t =? root s) = false.
Proof.
  intros Hs Hk. pose proof (root_in_ctx k t Hk) as Hin. destruct (Hs) as (_ & _ & ->).
  apply focus_iff in Hs as [Hnd _ Hc _ _]. apply Z.eqb_neq. intros Heq. rewrite <- Heq in Hin.
  fresh_split. destruct t as [|c l a r]; simpl in *.
  - assert (∀ x y, ctx_rep (heap s) k x → y ∈ ctx_addrs k → y ≠ 0) as Hnz; [|by eapply Hnz].
    clear. unfold ctx_addrs.
    assert (∀ h t par y, rep h t par → y ∈ inorder t → y ≠ 0) as Ht.
    { intros h t. induction t as [|c l IHl a r IHr]; simpl; [set_solver|].
      intros par y ([Ha _] & _ & Hl & Hr) [Hy|[->|Hy]%elem_of_cons]%elem_of_app; eauto. }
    induction k as [|[] k IH]; simpl; [set_solver|..]; intros x y ([Ha _] & _ & Hr & Hk);
      rewrite ?elem_of_app, ?elem_of_cons, ?elem_of_app, ?elem_of_cons; specialize (IH _ y Hk); set_solver.
  - match goal with H : apart _ _ |- _ => apply (H a) in Hin; set_solver end.
Qed.

Lemma right_of_rep s k c l a r : tree_rep s (plug k (Node c l a r)) → right_of s a = Ok (root_of r).
Proof. intros Hs. apply (focus_reads _ _ _ _ _ _ Hs). Qed.

Lemma left_of_rep s k c l a r : tree_rep s (plug k (Node c l a r)) → left_of s a = Ok (root_of l).
Proof. intros Hs. apply (focus_reads _ _ _ _ _ _ Hs). Qed.

Lemma parent_of_rep s k c l a r : tree_rep s (plug k (Node c l a r)) → parent_of s a = Ok (ctx_addr k).
Proof. intros Hs. apply (focus_reads _ _ _ _ _ _ Hs). Qed.

Lemma color_of_rep s k c l a r : tree_rep s (plug k (Node c l a r)) → color_of s a = Ok (color_bit c).
Proof. intros Hs. apply (focus_reads _ _ _ _ _ _ Hs). Qed.

Lemma is_red_rep s k c l a r : tree_rep s (plug k (Node c l a r)) → is_red s a = Ok (bool_decide (c = Red)).
Proof. intros Hs. apply (focus_reads _ _ _ _ _ _ Hs). Qed.

Section Removal.
Context (cb : rb_callbacks).

(** [if (node) rb_set_black(node);] after the loop. *)
Definition erase_finish (r : rb_state * Z) : res rb_state :=
  let '(s, node) := r in if negb (node =? 0) then rb_set_black node s else Ok s.

Lemma finish_root s t : tree_rep s t → t ≠ Leaf →
  ∃ s', erase_finish (s, root s) = Ok s' ∧ tree_rep s' (paint Black t).
Proof.
  intros Hs Ht. destruct (root_black_rep s t Hs Ht) as (s' & Heq & Hs'). exists s'. split; [|done].
  destruct (Hs) as (_ & _ & Hr). simpl. rewrite Hr in *. rewrite (focus_null s [] t Hs). by destruct t.
Qed.

(** The last case: recolour and rotate the parent. *)
Lemma erase_last_left s k c t p oc x o yc yl ya yr :
  let y := Node yc yl ya yr in
  tree_rep s (plug k (Node c t p (Node oc x o y))) →
  ∃ s', (('(s, node) ← (pc ← color_of s p; s ← rb_set_color o pc s; s ← rb_set_black p s; or_ ← right_of s o;
           s ← rb_set_black or_ s; s ← rb_rotate_left cb p s; Ok (s, root s)); erase_finish (s, node))) = Ok s' ∧
    tree_rep s' (paint Black (plug k (Node c (Node Black t p x) o (paint Black y)))).
Proof.
  intros y Hs. rewrite (color_of_rep _ _ _ _ _ _ Hs). simpl.
  destruct (set_color_rep s (FR c t p :: k) oc c x o y Hs) as (s1 & -> & H1). simpl.
  destruct (set_black_rep s1 k c t p _ H1) as (s2 & -> & H2). simpl.
  rewrite (right_of_rep s2 (FR Black t p :: k) c x o y H2). simpl.
  destruct (set_black_rep s2 (FR c x o :: FR Black t p :: k) yc yl ya yr H2) as (s3 & -> & H3). simpl.
  destruct (rotate_left_rep cb s3 k Black t p c x o (Node Black yl ya yr) H3) as (s4 & -> & H4). simpl.
  apply finish_root; [done|]. intros He. apply (f_equal inorder) in He. rewrite inorder_plug in He. simpl in He.
  by apply app_eq_nil in He as [_ [[_ ?]%app_eq_nil _]%app_eq_nil].
Qed.

Lemma erase_last_right s k c oc yc yl ya yr o x p t :
  let y := Node yc yl ya yr in
  tree_rep s (plug k (Node c (Node oc y o x) p t)) →
  ∃ s', (('(s, node) ← (pc ← color_of s p; s ← rb_set_color o pc s; s ← rb_set_black p s; ol ← left_of s o;
           s ← rb_set_black ol s; s ← rb_rotate_right cb p s; Ok (s, root s)); erase_finish (s, node))) = Ok s' ∧
    tree_rep s' (paint Black (plug k (Node c (paint Black y) o (Node Black x p t)))).
Proof.
  intros y Hs. rewrite (color_of_rep _ _ _ _ _ _ Hs). simpl.
  destruct (set_color_rep s (FL c p t :: k) oc c y o x Hs) as (s1 & -> & H1). simpl.
  destruct (set_black_rep s1 k c _ p t H1) as (s2 & -> & H2). simpl.
  rewrite (left_of_rep s2 (FL Black p t :: k) c y o x H2). simpl.
  destruct (set_black_rep s2 (FL c o x :: FL Black p t :: k) yc yl ya yr H2) as (s3 & -> & H3). simpl.
  destruct (rotate_right_rep cb s3 k Black t p c (Node Black yl ya yr) o x H3) as (s4 & -> & H4). simpl.
  apply finish_root; [done|]. intros He. apply (f_equal inorder) in He. rewrite inorder_plug in He. simpl in He.
  by apply app_eq_nil in He as [_ [[_ ?]%app_eq_nil _]%app_eq_nil].
Qed.

(** A round of the loop once the sibling [other] is black, [parent]'s short side left. *)
Definition erase_tail_left (fuel : nat) (parent other : Z) (s : rb_state) : res (rb_state * Z) :=
  ol ← left_of s other;
  lb ← null_or_black s ol;
  or_ ← right_of s other;
  rb ← (if lb : bool then null_or_black s or_ else Ok false);
  if lb && rb then
    s ← rb_set_red other s;
    parent' ← parent_of s parent;
    erase_color_loop cb fuel parent parent' s
  else
    rb ← null_or_black s or_;
    '(s, other) ←
      (if rb : bool then
         s ← rb_set_black ol s;
         s ← rb_set_red other s;
         s ← rb_rotate_right cb other s;
         other ← right_of s parent; Ok (s, other)
       else Ok (s, other));
    pc ← color_of s parent;
    s ← rb_set_color other pc s;
    s ← rb_set_black parent s;
    or_ ← right_of s other;
    s ← rb_set_black or_ s;
    s ← rb_rotate_left cb parent s;
    Ok (s, root s).

Definition erase_tail_right (fuel : nat) (parent other : Z) (s : rb_state) : res (rb_state * Z) :=
  ol ← left_of s other;
  lb ← null_or_black s ol;
  or_ ← right_of s other;
  rb ← (if lb : bool then null_or_black s or_ else Ok false);
  if lb && rb then
    s ← rb_set_red other s;
    parent' ← parent_of s parent;
    erase_color_loop cb fuel parent parent' s
  else
    lb ← null_or_black s ol;
    '(s, other) ←
      (if lb : bool then
         s ← rb_set_black or_ s;
         s ← rb_set_red other s;
         s ← rb_rotate_left cb other s;
         other ← left_of s parent; Ok (s, other)
       else Ok (s, other));
    pc ← color_of s parent;
    s ← rb_set_color other pc s;
    s ← rb_set_black parent s;
    ol ← left_of s other;
    s ← rb_set_black ol s;
    s ← rb_rotate_right cb parent s;
    Ok (s, root s).

(** The loop from [t] under [k] ends in the tree [t']. *)
Definition erases_to (fuel : nat) (k : context) (s : rb_state) (t t' : tree) : Prop :=
  ∃ s', (r ← erase_color_loop cb fuel (root_of t) (ctx_addr k) s; erase_finish r) = Ok s' ∧ tree_rep s' t'.

(** What the recursion of the model tells about the loop. *)
Definition sim_ok (fuel : nat) (k : context) : Prop :=
  ∀ s t t', tree_rep s (plug k t) → erase_fix fuel k t = Some t' → erases_to fuel k s t t'.

Lemma erase_tail_left_sim fuel s k c t p o t' :
  tree_rep s (plug k (Node c t p o)) → fix_left (erase_fix fuel) c p t o k = Some t' → sim_ok fuel k →
  ∃ s', (r ← erase_tail_left fuel p (root_of o) s; erase_finish r) = Ok s' ∧ tree_rep s' t'.
Proof.
  intros Hs Hfix Hrec. destruct o as [|oc ol oa or_]; [done|]. cbn [fix_left root_of] in *.
  set (k1 := FR c t p :: k) in *. assert (tree_rep s (plug k1 (Node oc ol oa or_))) as Ho by done.
  unfold erase_tail_left. rewrite (left_of_rep _ _ _ _ _ _ Ho). cbn [mbind res_bind].
  rewrite (null_or_black_rep s (FL oc oa or_ :: k1) ol Ho). cbn [mbind res_bind].
  rewrite (right_of_rep _ _ _ _ _ _ Ho). cbn [mbind res_bind].
  rewrite (null_or_black_rep s (FR oc ol oa :: k1) or_ Ho).
  destruct (is_red_tree or_) eqn:Er; [destruct or_ as [|yc yl ya yr]; [done|]|destruct (is_red_tree ol) eqn:El].
  - rewrite andb_false_r in Hfix. injection Hfix as <-.
    destruct (is_red_tree ol); cbn [mbind res_bind negb andb];
      destruct (erase_last_left s k c t p oc ol oa yc yl ya yr Hs) as (s' & Heq & Hs');
      (exists s'; split; [exact Heq|exact Hs']).
  - destruct ol as [|xc x xa y]; [done|]. injection Hfix as <-. cbn [mbind res_bind negb andb root_of].
    destruct (set_black_rep s (FL oc oa or_ :: k1) xc x xa y Ho) as (s1 & -> & H1). cbn [mbind res_bind].
    destruct (set_red_rep s1 k1 oc _ oa or_ H1) as (s2 & -> & H2). cbn [mbind res_bind].
    destruct (rotate_right_rep cb s2 k1 Red or_ oa Black x xa y H2) as (s3 & -> & H3). cbn [mbind res_bind].
    rewrite (right_of_rep s3 k c t p _ H3). cbn [mbind res_bind root_of].
    destruct (erase_last_left s3 k c t p Black x xa Red y oa or_ H3) as (s' & Heq & Hs').
    exists s'. split; [exact Heq|exact Hs'].
  - cbn [mbind res_bind negb andb] in *. destruct (set_red_rep s k1 oc _ oa or_ Ho) as (s1 & -> & H1).
    cbn [mbind res_bind]. rewrite (parent_of_rep s1 k c t p _ H1). cbn [mbind res_bind].
    by apply (Hrec s1 (Node c t p (Node Red ol oa or_)) t').
Qed.

Lemma erase_tail_right_sim fuel s k c o p t t' :
  tree_rep s (plug k (Node c o p t)) → fix_right (erase_fix fuel) c o p t k = Some t' → sim_ok fuel k →
  ∃ s', (r ← erase_tail_right fuel p (root_of o) s; erase_finish r) = Ok s' ∧ tree_rep s' t'.
Proof.
  intros Hs Hfix Hrec. destruct o as [|oc ol oa or_]; [done|]. cbn [fix_right root_of] in *.
  set (k1 := FL c p t :: k) in *. assert (tree_rep s (plug k1 (Node oc ol oa or_))) as Ho by done.
  unfold erase_tail_right. rewrite (left_of_rep _ _ _ _ _ _ Ho). cbn [mbind res_bind].
  rewrite (null_or_black_rep s (FL oc oa or_ :: k1) ol Ho). cbn [mbind res_bind].
  rewrite (right_of_rep _ _ _ _ _ _ Ho). cbn [mbind res_bind].
  rewrite (null_or_black_rep s (FR oc ol oa :: k1) or_ Ho).
  destruct (is_red_tree ol) eqn:El; [destruct ol as [|yc yl ya yr]; [done|]|destruct (is_red_tree or_) eqn:Er].
  - cbn [mbind res_bind negb andb] in *. injection Hfix as <-.
    destruct (erase_last_right s k c oc yc yl ya yr oa or_ p t Hs) as (s' & Heq & Hs').
    exists s'. split; [exact Heq|exact Hs'].
  - destruct or_ as [|xc x xa y]; [done|]. injection Hfix as <-. cbn [mbind res_bind negb andb root_of].
    destruct (set_black_rep s (FR oc ol oa :: k1) xc x xa y Ho) as (s1 & -> & H1). cbn [mbind res_bind].
    destruct (set_red_rep s1 k1 oc ol oa _ H1) as (s2 & -> & H2). cbn [mbind res_bind].
    destruct (rotate_left_rep cb s2 k1 Red ol oa Black x xa y H2) as (s3 & -> & H3). cbn [mbind res_bind].
    rewrite (left_of_rep s3 k c _ p t H3). cbn [mbind res_bind root_of].
    destruct (erase_last_right s3 k c Black Red ol oa x xa y p t H3) as (s' & Heq & Hs').
    exists s'. split; [exact Heq|exact Hs'].
  - cbn [mbind res_bind negb andb] in *. destruct (set_red_rep s k1 oc ol oa _ Ho) as (s1 & -> & H1).
    cbn [mbind res_bind]. rewrite (parent_of_rep s1 k c _ p t H1). cbn [mbind res_bind].
    by apply (Hrec s1 (Node c (Node Red ol oa or_) p t) t').
Qed.

(** The loop goes on below a parent as long as the node is black. *)
Lemma erase_enter s f k t : tree_rep s (plug (f :: k) t) → is_red_tree t = false →
  null_or_black s (root_of t) = Ok true ∧ (root_of t =? root s) = false.
Proof.
  intros Hs Ht. split; [|by eapply focus_not_root]. rewrite (null_or_black_rep _ _ _ Hs). by rewrite Ht.
Qed.

Lemma erase_round_left fuel s k c t p oc ol oa or_ :
  let o := Node oc ol oa or_ in
  tree_rep s (plug k (Node c t p o)) → is_red_tree t = false →
  match oc with
  | Black => erase_color_loop cb (S fuel) (root_of t) p s = erase_tail_left fuel p oa s
  | Red => ∃ s1, erase_color_loop cb (S fuel) (root_of t) p s = erase_tail_left fuel p (root_of ol) s1 ∧
             tree_rep s1 (plug (FL Black oa or_ :: k) (Node Red t p ol))
  end.
Proof.
  intros o Hs Ht. cbn [erase_color_loop]. destruct (erase_enter s (FL c p o) k t Hs Ht) as [-> ->].
  cbn [mbind res_bind andb negb]. rewrite (left_of_rep _ _ _ _ _ _ Hs). cbn [mbind res_bind]. rewrite Z.eqb_refl.
  rewrite (right_of_rep _ _ _ _ _ _ Hs). cbn [mbind res_bind root_of o].
  rewrite (is_red_rep s (FR c t p :: k) oc ol oa or_ Hs). cbn [mbind res_bind]. destruct oc; [|done].
  rewrite bool_decide_true by done.
  destruct (set_black_rep s (FR c t p :: k) Red ol oa or_ Hs) as (s1 & -> & H1). cbn [mbind res_bind].
  destruct (set_red_rep s1 k c t p _ H1) as (s2 & -> & H2). cbn [mbind res_bind].
  destruct (rotate_left_rep cb s2 k Red t p Black ol oa or_ H2) as (s3 & -> & H3). cbn [mbind res_bind].
  rewrite (right_of_rep s3 (FL Black oa or_ :: k) Red t p ol H3). by exists s3.
Qed.

Lemma erase_round_right fuel s k c t p oc ol oa or_ :
  let o := Node oc ol oa or_ in
  tree_rep s (plug k (Node c o p t)) → is_red_tree t = false →
  match oc with
  | Black => erase_color_loop cb (S fuel) (root_of t) p s = erase_tail_right fuel p oa s
  | Red => ∃ s1, erase_color_loop cb (S fuel) (root_of t) p s = erase_tail_right fuel p (root_of or_) s1 ∧
             tree_rep s1 (plug (FR Black ol oa :: k) (Node Red or_ p t))
  end.
Proof.
  intros o Hs Ht. cbn [erase_color_loop]. destruct (erase_enter s (FR c o p) k t Hs Ht) as [-> ->].
  cbn [mbind res_bind andb negb]. rewrite (left_of_rep _ _ _ _ _ _ Hs). cbn [mbind res_bind root_of o].
  rewrite (proj1 (focus_sibling s k c o p t oa Hs)) by
    ((by apply (root_ne s (FL c p t :: k) o)) || set_solver+).
  cbn [mbind res_bind]. rewrite (is_red_rep s (FL c p t :: k) oc ol oa or_ Hs). cbn [mbind res_bind].
  destruct oc; [|done]. rewrite bool_decide_true by done.
  destruct (set_black_rep s (FL c p t :: k) Red ol oa or_ Hs) as (s1 & -> & H1). cbn [mbind res_bind].
  destruct (set_red_rep s1 k c _ p t H1) as (s2 & -> & H2). cbn [mbind res_bind].
  destruct (rotate_right_rep cb s2 k Red t p Black ol oa or_ H2) as (s3 & -> & H3). cbn [mbind res_bind].
  rewrite (left_of_rep s3 (FR Black ol oa :: k) Red or_ p t H3). by exists s3.
Qed.

(** The loop of [__rb_erase_color] simulates [erase_fix]. *)
Lemma erase_loop_sim fuel k : sim_ok fuel k.
Proof.
  revert k. induction fuel as [|fuel IH]; intros k s t t' Hs Hfix; [done|]. unfold erases_to.
  cbn [erase_fix] in Hfix. destruct (is_red_tree t) eqn:Et.
  { injection Hfix as <-. destruct t as [|tc l a r]; [done|]. cbn [erase_color_loop].
    rewrite (null_or_black_rep s k _ Hs). rewrite Et. cbn [mbind res_bind negb andb erase_finish root_of].
    rewrite (proj2 (Z.eqb_neq a 0)) by by apply (root_ne s k (Node tc l a r)).
    apply (set_black_rep s k _ _ _ _ Hs). }
  destruct k as [|[c p o|c o p] k].
  - injection Hfix as <-. cbn [erase_color_loop]. rewrite (null_or_black_rep s [] _ Hs), Et.
    destruct (Hs) as (_ & _ & Hroot). rewrite Hroot, Z.eqb_refl. cbn [mbind res_bind negb andb plug foldl] in *.
    destruct t as [|tc l a r]; [by exists s|]. rewrite <- Hroot. by apply finish_root.
  - destruct o as [|[] ol oa or_]; [done|..].
    + destruct (erase_round_left fuel s k c t p Red ol oa or_ Hs Et) as (s1 & Heq & H1).
      cbn [ctx_addr frame_addr]. rewrite Heq. by apply (erase_tail_left_sim fuel s1 (FL Black oa or_ :: k) Red t p ol).
    + cbn [ctx_addr frame_addr]. rewrite (erase_round_left fuel s k c t p Black ol oa or_ Hs Et).
      by apply (erase_tail_left_sim fuel s k c t p (Node Black ol oa or_)).
  - destruct o as [|[] ol oa or_]; [done|..].
    + destruct (erase_round_right fuel s k c t p Red ol oa or_ Hs Et) as (s1 & Heq & H1).
      cbn [ctx_addr frame_addr]. rewrite Heq. by apply (erase_tail_right_sim fuel s1 (FR Black ol oa :: k) Red or_ p t).
    + cbn [ctx_addr frame_addr]. rewrite (erase_round_right fuel s k c t p Black ol oa or_ Hs Et).
      by apply (erase_tail_right_sim fuel s k c (Node Black ol oa or_) p t).
Qed.
End Removal.

(** ** Taking the node out *)

Lemma unlink_rep s k c l a r t :
  tree_rep s (plug k (Node c l a r)) → (l = Leaf ∧ t = r) ∨ (r = Leaf ∧ t = l) →
  tree_rep (relink k (root_of t) (reparent t (ctx_addr k) s)) (plug k t).
Proof.
  intros Hs Ht. pose proof (proj2 (focus_iff _ _ _) Hs) as Hf. destruct (Hf) as [Hnd (Ha & _ & Hl & Hr) Hk _ _].
  assert (rep (heap s) t a ∧ NoDup (inorder t ++ ctx_addrs k)) as [Hta Hndt].
  { simpl in Hnd. destruct Ht as [[-> ->]|[-> ->]]; (split; [done|]); fresh_split; fresh_addr. }
  assert (apart (inorder t) (ctx_addrs k)) by (fresh_split; done).
  eapply (focus_install s); [done|done|..].
  - apply rep_relink; [done|]. eapply rep_reparent; [fresh_addr|done].
  - eapply ctx_relink; [fresh_addr|]. apply ctx_reparent; [fresh_addr|done].
  - destruct k as [|[] k]; simpl; [done|by destruct t..].
Qed.

(** Taking the place of [a]: [m] gets its links and colour. *)
Lemma subst_rep s k c l a m R t0 :
  NoDup (inorder l ++ m :: inorder R ++ ctx_addrs k) → addr_ok m →
  rep (heap s) l a → rep (heap s) R m → ctx_rep (heap s) k a → (k ≠ [] → root s = root_of (plug k t0)) →
  tree_rep (reparent l m (upd m (cell (ctx_addr k) c (root_of l) (root_of R)) (relink k m s)))
    (plug k (Node c l m R)).
Proof.
  intros Hnd Hm Hl HR Hk Hroot. fresh_split. apply focus_iff. split.
  - fresh_addr.
  - cbn [rep]. split_and!; [done| |rep_peel..].
    apply (has_cell_reparent _ l m m (ctx_addr k)); [fresh_addr|]. apply has_cell_upd; [done|by eapply ctx_addr_ok].
  - apply ctx_reparent; [fresh_addr|]. apply ctx_rep_upd; [fresh_addr|]. eapply ctx_relink; [fresh_addr|done].
  - intros ->. by destruct l.
  - intros Hne. rewrite (root_plug k _ t0) by done. destruct k as [|[] k]; [done|..]; destruct l; by apply Hroot.
Qed.

(** Writes to different cells commute. *)
Lemma relink_upd s k x a n : a ∉ ctx_addrs k → relink k x (upd a n s) = upd a n (relink k x s).
Proof.
  unfold ctx_addrs. intros Ha. destruct k as [|[] k]; simpl in *; [done|..]; unfold upd; simpl; f_equal;
    apply insert_insert_ne; fresh_addr.
Qed.

Lemma relink_reparent s k x t q :
  apart (inorder t) (ctx_addrs k) → relink k x (reparent t q s) = reparent t q (relink k x s).
Proof. intros Ht. destruct t; [done|]. apply relink_upd. fresh_addr. Qed.

Lemma upd_reparent s a n t q : a ∉ inorder t → upd a n (reparent t q s) = reparent t q (upd a n s).
Proof.
  intros Ha. destruct t; [done|]. simpl in *. unfold upd. simpl. f_equal. apply insert_insert_ne. fresh_addr.
Qed.

Lemma upd_upd s a n n' : upd a n (upd a n' s) = upd a n s.
Proof. unfold upd. simpl. f_equal. apply insert_insert_eq. Qed.

(** The leftmost node. *)
Lemma leftmost_rep fuel s k t :
  tree_rep s (plug k t) → t ≠ Leaf → (length (inorder t) ≤ fuel)%nat →
  ∃ k1 c m r, split_min [] t = Some (k1, c, m, r) ∧ t = plug k1 (Node c Leaf m r) ∧ before k1 = [] ∧
    leftmost fuel s (root_of t) = Ok m.
Proof.
  intros Hs Hne Hf. destruct (split_min_some t Hne) as (k1 & c & m & r & Hsp & Ht & Hb).
  exists k1, c, m, r. split_and!; [by rewrite Hsp, app_nil_r|done|done|]. clear Hsp. revert fuel k t Hs Hne Hf Ht.
  induction k1 as [|f k1 IH] using rev_ind; intros fuel k t Hs Hne Hf ->.
  - destruct fuel as [|fuel]; [simpl in Hf; lia|]. cbn [leftmost plug foldl root_of].
    by rewrite (left_of_rep _ _ _ _ _ _ Hs).
  - rewrite before_app in Hb. apply app_eq_nil in Hb as [Hf0 Hb].
    destruct f as [fc fa fr|fc fl fa]; [|simpl in Hf0; by apply app_eq_nil in Hf0 as [_ ?]].
    rewrite plug_app in *. change (plug [FL fc fa fr] ?t) with (Node fc t fa fr) in *.
    simpl in Hf. rewrite length_app in Hf. simpl in Hf. destruct fuel as [|fuel]; [lia|].
    assert (plug k1 (Node c Leaf m r) ≠ Leaf) as Hne'.
    { intros He. apply (f_equal inorder) in He. rewrite inorder_plug in He. simpl in He.
      by apply app_eq_nil in He as [_ ?]. }
    cbn [leftmost root_of]. rewrite (left_of_rep _ _ _ _ _ _ Hs). cbn [mbind res_bind].
    rewrite (focus_null s (FL fc fa fr :: k) _ Hs). destruct (plug k1 (Node c Leaf m r)) eqn:E; [done|].
    rewrite <- E in *. apply (IH Hb fuel (FL fc fa fr :: k)); [done|done|lia|done].
Qed.

Section Erase.
Context (cb : rb_callbacks).

(** The two-children part of [__rb_erase]. *)
Definition unlink_two (fuel : nat) (old nr : Z) (s : rb_state) : res (rb_state * Z * Z * Z) :=
  node ← leftmost fuel s nr;
  op ← parent_of s old;
  s ← replace_child op old node s;
  child ← right_of s node;
  parent ← parent_of s node;
  color ← color_of s node;
  '(s, parent) ←
    (if parent =? old then Ok (s, node)
     else
       s ← (if negb (child =? 0) then rb_set_parent child parent s else Ok s);
       s ← modify parent (set_left child) s;
       or_ ← right_of s old;
       s ← modify node (set_right or_) s;
       s ← rb_set_parent or_ node s;
       Ok (s, parent));
  o ← get s old;
  s ← modify node (set_pc (parent_color o)) s;
  s ← modify node (set_left (rb_left o)) s;
  s ← rb_set_parent (rb_left o) node s;
  Ok (log_call (cb_copy cb) (CbCopy old node) s, child, parent, color).

(** What it must establish: the node [m] in the place of [a], [child] in the place of [m]. *)
Definition unlinks_to (fuel : nat) (a nr : Z) (s : rb_state) (k : context) (c : color) (t : tree) : Prop :=
  ∃ s', unlink_two fuel a nr s = Ok (s', root_of t, ctx_addr k, color_bit c) ∧ tree_rep s' (plug k t).

(** The last three writes. *)
Lemma copy_links {X} (K : rb_state → res X) s a m c par l R pm cm lm t :
  has_cell s a par c (root_of l) R → has_cell s m pm cm lm t → m ≠ a → m ∉ inorder l →
  l ≠ Leaf → rep (heap s) l a →
  (o ← get s a;
   s ← modify m (set_pc (parent_color o)) s;
   s ← modify m (set_left (rb_left o)) s;
   s ← rb_set_parent (rb_left o) m s; K s) = K (reparent l m (upd m (cell par c (root_of l) t) s)).
Proof.
  intros Ha Hm Hne Hml Hl Hrep. rewrite (cell_get _ _ _ _ _ _ Ha). cbn [mbind res_bind].
  rewrite (cell_modify _ _ _ _ _ _ Hm). cbn [mbind res_bind]. destruct (Hm) as (Hm' & _ & _).
  destruct (Ha) as ((_ & Hal) & Hp & _).
  rewrite (modify_ok _ m (cell par c lm t)) by (apply Hm' || apply lookup_insert_eq). cbn [mbind res_bind].
  rewrite upd_upd. set (s1 := upd m _ s). change (rb_left (cell par c (root_of l) R)) with (root_of l).
  assert (rep (heap s1) l a) as Hl1 by (apply rep_upd; done).
  pose proof (reparent_ok s1 l a m Hl1 Hal ltac:(apply Hm')) as Hre. rewrite (root_of_0 _ _ _ Hl1) in Hre.
  destruct l; [done|]. simpl in Hre |- *. by rewrite Hre.
Qed.

Lemma unlink_adjacent fuel s k c l a cm m child :
  let r := Node cm Leaf m child in
  tree_rep s (plug k (Node c l a r)) → l ≠ Leaf → (length (inorder r) ≤ fuel)%nat →
  unlinks_to fuel a m s (FR c l m :: k) cm child.
Proof.
  intros r Hs Hl Hf. pose proof (proj2 (focus_iff _ _ _) Hs) as Hfo.
  destruct Hfo as [Hnd (Ha & _ & Hrl & Hm & _ & _ & Hrc) Hk _ Hroot]. simpl in Hnd. fresh_split.
  assert (tree_rep s (plug (FR c l a :: k) r)) as Hr by done.
  pose proof (ctx_addr_ok _ _ _ Hk) as Hp. destruct (Ha) as [Ha0 Hal].
  unfold unlinks_to, unlink_two.
  destruct (leftmost_rep fuel s (FR c l a :: k) r Hr) as (k1 & c1 & m1 & r1 & Hsp & _ & _ & Hlm); [done|done|].
  simpl in Hsp. injection Hsp as _ _ <- _. simpl in Hlm. rewrite Hlm. cbn [mbind res_bind].
  rewrite (parent_of_rep _ _ _ _ _ _ Hs). cbn [mbind res_bind].
  rewrite replace_child_ok by (done || fresh_addr). cbn [mbind res_bind]. set (s1 := relink k m s).
  assert (has_cell s1 m a cm 0 (root_of child)) as Cm.
  { apply has_cell_relink; [fresh_addr|]. apply (focus_cell _ _ _ _ _ _ Hr). }
  assert (has_cell s1 a (ctx_addr k) c (root_of l) m) as Ca.
  { apply has_cell_relink; [fresh_addr|]. apply (focus_cell _ _ _ _ _ _ Hs). }
  destruct (cell_reads _ _ _ _ _ _ Cm) as (_ & -> & -> & -> & _). cbn [mbind res_bind]. rewrite Z.eqb_refl.
  assert (rep (heap s1) l a) as Hl1 by rep_peel.
  cbn [mbind res_bind]. rewrite (copy_links _ s1 a m c (ctx_addr k) l m a cm 0 (root_of child)) by (done || fresh_addr).
  eexists. split; [done|]. apply tree_rep_log.
  apply (subst_rep s k c l a m child (Node c l a r)); [fresh_addr|done..].
Qed.

(** The addresses of a subtree before and after its leftmost node is taken out. *)
Lemma far_perm cm m child c1 p1 r1 k1 :
  before k1 = [] →
  inorder (plug (FL c1 p1 r1 :: k1) (Node cm Leaf m child)) ≡ₚ m :: inorder (plug (FL c1 p1 r1 :: k1) child) ∧
  inorder (plug (FL c1 p1 r1 :: k1) child) ≡ₚ p1 :: inorder child ++ inorder r1 ++ after k1.
Proof. intros Hb. rewrite !inorder_plug. simpl. rewrite Hb. simpl. split; solve_Permutation. Qed.

(** The copying part, once the leftmost node [m] is out of the subtree [r]. *)
Lemma far_copy u k c l a r m pm cm rc :
  tree_rep u (plug k (Node c l a r)) → l ≠ Leaf → r ≠ Leaf → has_cell u m pm cm 0 rc →
  NoDup (inorder l ++ a :: m :: inorder r ++ ctx_addrs k) →
  ∃ s5 s6,
    (∀ X (K : rb_state → res X),
      (or_ ← right_of (relink k m u) a; s ← modify m (set_right or_) (relink k m u);
       s ← rb_set_parent or_ m s; K s) = K s5) ∧
    (∀ X (K : rb_state → res X),
      (o ← get s5 a; s ← modify m (set_pc (parent_color o)) s5; s ← modify m (set_left (rb_left o)) s;
       s ← rb_set_parent (rb_left o) m s; K s) = K s6) ∧
    tree_rep s6 (plug k (Node c l m r)).
Proof.
  intros Hu Hl Hr Cm Hnd. pose proof (focus_cell _ _ _ _ _ _ Hu) as Ca. destruct (Cm) as (Hm & Hpm & _).
  destruct (proj2 (focus_iff _ _ _) Hu) as [_ (Ha & _ & Hul & Hur) Huk _ Huroot].
  pose proof (ctx_addr_ok _ _ _ Huk) as Hp. destruct (Ha) as [Ha0 Hal]. destruct (Hm) as [Hm0 Hml]. fresh_split.
  set (s3 := relink k m u). assert (has_cell s3 a (ctx_addr k) c (root_of l) (root_of r)) as Ca3 by rep_peel.
  assert (has_cell s3 m pm cm 0 rc) as Cm3 by rep_peel. set (s4 := upd m (cell pm cm 0 (root_of r)) s3).
  assert (rep (heap s4) r a) as Hr4 by (unfold s4, s3; rep_peel). set (s5 := reparent r m s4).
  assert (rep (heap s5) l a) as Hl5 by (unfold s5, s4, s3; rep_peel).
  exists s5, (reparent l m (upd m (cell (ctx_addr k) c (root_of l) (root_of r)) s5)). split_and!.
  - intros X K. rewrite (proj1 (proj2 (cell_reads _ _ _ _ _ _ Ca3))). cbn [mbind res_bind].
    rewrite (cell_set_right _ _ _ _ _ _ Cm3). cbn [mbind res_bind]. fold s4.
    pose proof (reparent_ok s4 r a m Hr4 Hal Hml) as Hre. rewrite (root_of_0 _ _ _ Hr4) in Hre.
    destruct r; [done|]. simpl in Hre |- *. by rewrite Hre.
  - intros X K. apply (copy_links _ s5 a m c (ctx_addr k) l (root_of r) pm cm 0 (root_of r)); try (done || fresh_addr).
    + unfold s5, s4. rep_peel.
    + unfold s5. apply has_cell_reparent; [fresh_addr|]. by apply has_cell_upd.
  - unfold s5, s4. rewrite upd_reparent, upd_upd by fresh_addr. rewrite <- upd_reparent by fresh_addr. unfold s3.
    rewrite <- relink_reparent by fresh_addr.
    apply (subst_rep (reparent r m u) k c l a m r (Node c l a r)); [fresh_addr|done|rep_peel..|].
    intros Hne. rewrite <- Huroot by done. by destruct r.
Qed.

Lemma unlink_far fuel s k c l a c1 p1 r1 k1 cm m child :
  let k2 := FL c1 p1 r1 :: k1 in
  let r := plug k2 (Node cm Leaf m child) in
  tree_rep s (plug k (Node c l a r)) → l ≠ Leaf → before k1 = [] → leftmost fuel s (root_of r) = Ok m →
  unlinks_to fuel a (root_of r) s (k2 ++ FR c l m :: k) cm child.
Proof.
  intros k2 r Hs Hl Hb Hlm. set (K := k2 ++ FR c l a :: k). set (r' := plug k2 child).
  assert (tree_rep s (plug K (Node cm Leaf m child))) as HK by (unfold K; by rewrite plug_app).
  destruct (far_perm cm m child c1 p1 r1 k1 Hb) as [P1 P2]. fold k2 r in P1. fold k2 r' in P1, P2.
  pose proof (unlink_rep s K cm Leaf m child child HK ltac:(by left)) as Hu.
  set (u := relink K _ _) in Hu. assert (tree_rep u (plug k (Node c l a r'))) as Hu'.
  { unfold K in Hu. rewrite plug_app in Hu. exact Hu. }
  destruct (proj2 (focus_iff _ _ _) Hs) as [Hnd (Ha & _ & Hrl & Hrr) Hk _ Hroot].
  destruct (proj2 (focus_iff _ _ _) HK) as [_ (Hm & _ & _ & Hch) HkK _ _].
  pose proof (focus_cell _ _ _ _ _ _ HK) as Cm.
  pose proof (ctx_addr_ok _ _ _ HkK) as Hp1.
  destruct HkK as (Hp1' & Hp1c & _ & HkK'). pose proof (ctx_addr_ok _ _ _ HkK') as Hp2.
  assert (r' ≠ Leaf) as Hr'. { intros E. rewrite E in P2. simpl in P2. by apply Permutation_nil_cons in P2. }
  destruct (Ha) as [Ha0 Hal]. destruct (Hm) as [Hm0 Hml]. simpl in Hnd. rewrite P1 in Hnd. pose proof Hnd as Hnd2. rewrite P2 in Hnd2. fresh_split.
  unfold unlinks_to, unlink_two. rewrite Hlm. cbn [mbind res_bind].
  rewrite (parent_of_rep _ _ _ _ _ _ Hs). cbn [mbind res_bind].
  rewrite replace_child_ok by (done || fresh_addr). cbn [mbind res_bind]. set (s1 := relink k m s).
  assert (has_cell s1 m p1 cm 0 (root_of child)) as Cm1 by (apply has_cell_relink; [fresh_addr|done]).
  destruct (cell_reads _ _ _ _ _ _ Cm1) as (_ & -> & -> & -> & _). cbn [mbind res_bind].
  rewrite (proj2 (Z.eqb_neq p1 a)) by fresh_addr.
  rewrite (reparent_ok s1 child m p1) by (done || rep_peel). cbn [mbind res_bind]. set (s2 := reparent child p1 s1).
  assert (has_cell s2 p1 (ctx_addr (k1 ++ FR c l a :: k)) c1 m (root_of r1)) as Cp2 by (unfold s1, s2; rep_peel; done).
  rewrite (cell_set_left _ _ _ _ _ _ Cp2). cbn [mbind res_bind].
  assert (upd p1 (cell (ctx_addr (k1 ++ FR c l a :: k)) c1 (root_of child) (root_of r1)) s2 = relink k m u) as ->.
  { unfold s2, s1, u. rewrite <- relink_reparent by fresh_addr. symmetry. apply relink_upd. fresh_addr. }
  assert (has_cell u m p1 cm 0 (root_of child)) as Cmu.
  { unfold u, K. apply has_cell_upd_ne; [fresh_addr|]. apply has_cell_reparent; [fresh_addr|]. exact Cm. }
  destruct (far_copy u k c l a r' m p1 cm (root_of child)) as (s5 & s6 & Hw5 & Hw6 & Hs6); [done..|fresh_addr|].
  rewrite Hw5. cbn [mbind res_bind]. rewrite Hw6. eexists. split; [done|]. apply tree_rep_log. by rewrite plug_app.
Qed.
End Erase.

Section Theorems.
Context (cb : rb_callbacks).

(** The at most one child part of [__rb_erase]. *)
Definition unlink_one (node child : Z) (s : rb_state) : res (rb_state * Z * Z * Z) :=
  parent ← parent_of s node;
  color ← color_of s node;
  s ← (if negb (child =? 0) then rb_set_parent child parent s else Ok s);
  s ← replace_child parent node child s;
  Ok (s, child, parent, color).

(** The rebalancing part. *)
Definition erase_rest (fuel : nat) (r : rb_state * Z * Z * Z) : res rb_state :=
  let '(s, child, parent, color) := r in
  s ← (if color =? RB_BLACK then rb_erase_color cb fuel child parent s else Ok s);
  Ok (log_call (cb_propagate cb) (CbPropagate parent 0) s).

Lemma rb_erase_parts fuel a s :
  rb_erase cb fuel a s =
    (nl ← left_of s a; nr ← right_of s a;
     r ← (if negb (nl =? 0) && negb (nr =? 0) then unlink_two cb fuel a nr s
          else unlink_one a (if nl =? 0 then nr else nl) s);
     erase_rest fuel r).
Proof. reflexivity. Qed.

Lemma erase_rest_sim fuel s K c t t' :
  tree_rep s (plug K t) → (if decide (c = Black) then erase_fix fuel K t else Some (plug K t)) = Some t' →
  ∃ s', erase_rest fuel (s, root_of t, ctx_addr K, color_bit c) = Ok s' ∧ tree_rep s' t'.
Proof.
  intros Hs Hfix. destruct c; simpl in *.
  - injection Hfix as <-. eexists. split; [done|]. by apply tree_rep_log.
  - destruct (erase_loop_sim cb fuel K s t t' Hs Hfix) as (s' & Heq & Hs').
    assert (rb_erase_color cb fuel (root_of t) (ctx_addr K) s = Ok s') as ->.
    { rewrite <- Heq. unfold rb_erase_color. apply res_bind_ext. by intros []. }
    eexists. split; [done|]. by apply tree_rep_log.
Qed.

Lemma unlink_one_rep s k c l a r t :
  tree_rep s (plug k (Node c l a r)) → (l = Leaf ∧ t = r) ∨ (r = Leaf ∧ t = l) →
  ∃ s', unlink_one a (root_of t) s = Ok (s', root_of t, ctx_addr k, color_bit c) ∧ tree_rep s' (plug k t).
Proof.
  intros Hs Ht. unfold unlink_one.
  rewrite (parent_of_rep _ _ _ _ _ _ Hs), (color_of_rep _ _ _ _ _ _ Hs). cbn [mbind res_bind].
  destruct (proj2 (focus_iff _ _ _) Hs) as [Hnd (Ha & _ & Hl & Hr) Hk _ _]. simpl in Hnd.
  rewrite (reparent_ok s t a) by (first [by destruct Ht as [[_ ->]|[_ ->]] | apply Ha | by eapply ctx_addr_ok]).
  cbn [mbind res_bind]. rewrite replace_child_ok.
  - eexists. split; [done|]. by eapply unlink_rep.
  - apply ctx_reparent; [|done]. fresh_split. destruct Ht as [[_ ->]|[_ ->]]; fresh_addr.
  - apply Ha.
  - fresh_split. fresh_addr.
Qed.

Lemma unlink_two_rep fuel s k c l a r :
  tree_rep s (plug k (Node c l a r)) → l ≠ Leaf → r ≠ Leaf → (length (inorder r) ≤ fuel)%nat →
  ∃ k1 cm m child, split_min [] r = Some (k1, cm, m, child) ∧
    unlinks_to cb fuel a (root_of r) s (k1 ++ FR c l m :: k) cm child.
Proof.
  intros Hs Hl Hne Hf.
  destruct (leftmost_rep fuel s (FR c l a :: k) r Hs) as (k1 & cm & m & child & Hsp & Hr & Hb & Hlm); [done|done|].
  exists k1, cm, m, child. split; [done|]. destruct k1 as [|[c1 p1 r1|c1 l1 p1] k1].
  - subst r. by apply unlink_adjacent.
  - rewrite Hr in Hs, Hlm |- *. by apply unlink_far.
  - simpl in Hb. by apply app_eq_nil in Hb as [_ [_ ?]%app_eq_nil].
Qed.

(** [__rb_erase] simulates [erase_tree]. *)
Lemma rb_erase_sim fuel s k c l a r t' :
  tree_rep s (plug k (Node c l a r)) → (length (inorder r) ≤ fuel)%nat →
  erase_tree fuel k c l a r = Some t' → ∃ s', rb_erase cb fuel a s = Ok s' ∧ tree_rep s' t'.
Proof.
  intros Hs Hf Hfix. rewrite rb_erase_parts.
  rewrite (left_of_rep _ _ _ _ _ _ Hs), (right_of_rep _ _ _ _ _ _ Hs). cbn [mbind res_bind].
  rewrite (focus_null s (FL c a r :: k) l Hs), (focus_null s (FR c l a :: k) r Hs).
  assert (∀ t, (l = Leaf ∧ t = r) ∨ (r = Leaf ∧ t = l) →
    (if decide (c = Black) then erase_fix fuel k t else Some (plug k t)) = Some t' →
    ∃ s', (x ← unlink_one a (root_of t) s; erase_rest fuel x) = Ok s' ∧ tree_rep s' t') as Hone.
  { intros t Ht Hm. destruct (unlink_one_rep s k c l a r t Hs Ht) as (s1 & -> & H1). by apply erase_rest_sim. }
  unfold erase_tree in Hfix. destruct l as [|cl ll la lr]; [apply (Hone r); [by left|by destruct r]|].
  destruct r as [|cr rl ra rr]; [apply (Hone (Node cl ll la lr)); [by right|done]|].
  set (l := Node cl ll la lr) in *. set (r := Node cr rl ra rr) in *.
  destruct (unlink_two_rep fuel s k c l a r Hs) as (k1 & cm & m & child & Hsp & s1 & Hun & H1); [done..|].
  rewrite Hsp in Hfix. cbn [negb andb]. rewrite Hun. cbn [mbind res_bind]. by apply erase_rest_sim.
Qed.

Lemma rb_erase_rep fuel s k c l a r :
  let t := plug k (Node c l a r) in
  tree_rep s t → red_black t → (length (inorder t) + 2 ≤ fuel)%nat →
  ∃ s' t', rb_erase cb fuel a s = Ok s' ∧ tree_rep s' t' ∧ red_black t' ∧
    inorder t' = before k ++ inorder l ++ inorder r ++ after k.
Proof.
  intros t Hs [n Hrb] Hf. unfold t in *. destruct (rbt_unplug _ _ _ _ Hrb [] (ctx_nil n)) as (c' & n' & Ht & Hk).
  rewrite app_nil_r in Hk. destruct (erase_tree_spec fuel k c c' n' l a r Ht Hk Hf) as (t' & Hfix & Hrb' & Hin).
  destruct (rb_erase_sim fuel s k c l a r t' Hs) as (s' & Heq & Hs'); [|done|by exists s', t'].
  rewrite inorder_plug, !length_app in Hf. simpl in Hf. rewrite length_app in Hf. simpl in Hf. lia.
Qed.
End Theorems.
