(* ===== verification/RbWalk.v ===== *)
(** * Theorems on the red-black tree

    What the interface of [src/src/lib/rbtree.c] promises, in terms of the
    in-order sequence of the tree the heap holds: insertion, removal, the ends
    and the neighbours of a node. *)

From S2P Require Import Prelude RbTree RbModel RbProof.

(** ** Positions in the in-order sequence *)

Lemma split_unique (l1 l2 l3 l4 : list Z) a :
  l1 ++ a :: l2 = l3 ++ a :: l4 → a ∉ l1 → a ∉ l3 → l1 = l3 ∧ l2 = l4.
Proof.
  revert l3. induction l1 as [|x l1 IH]; intros [|y l3] Heq H1 H3; simpl in Heq; simplify_eq; [done|set_solver..|].
  destruct (IH l3) as [-> ->]; [done|set_solver..|done].
Qed.

Lemma inorder_find t a : a ∈ inorder t → ∃ k c l r, t = plug k (Node c l a r).
Proof.
  induction t as [|c l IHl b r IHr]; simpl; [set_solver|].
  intros [H|[->|H]%elem_of_cons]%elem_of_app.
  - destruct (IHl H) as (k & c' & l' & r' & ->). exists (k ++ [FL c b r]), c', l', r'. by rewrite plug_app.
  - by exists [], c, l, r.
  - destruct (IHr H) as (k & c' & l' & r' & ->). exists (k ++ [FR c l b]), c', l', r'. by rewrite plug_app.
Qed.

(** The node between [xs] and [ys]. *)
Lemma inorder_split t xs a ys :
  NoDup (inorder t) → inorder t = xs ++ a :: ys →
  ∃ k c l r, t = plug k (Node c l a r) ∧ xs = before k ++ inorder l ∧ ys = inorder r ++ after k.
Proof.
  intros Hnd Heq. destruct (inorder_find t a) as (k & c & l & r & ->); [rewrite Heq; set_solver|].
  exists k, c, l, r. split; [done|]. rewrite inorder_plug in Heq, Hnd. simpl in Heq, Hnd.
  rewrite <- !(assoc_L (++)) in Heq, Hnd. simpl in Heq, Hnd. rewrite (assoc_L (++)) in Heq, Hnd.
  destruct (split_unique _ _ _ _ _ Heq) as [-> ->]; [| |done].
  - apply NoDup_app in Hnd as (_ & Hd & _). intros Hin. apply (Hd a Hin). set_solver.
  - rewrite Heq in Hnd. apply NoDup_app in Hnd as (_ & Hd & _). intros Hin. apply (Hd a Hin). set_solver.
Qed.

(** ** Walking *)

Definition first_of (xs : list Z) : Z := default 0 (head xs).
Definition last_of (xs : list Z) : Z := default 0 (last xs).

Lemma leftmost_first fuel s k t :
  tree_rep s (plug k t) → t ≠ Leaf → (length (inorder t) ≤ fuel)%nat →
  leftmost fuel s (root_of t) = Ok (first_of (inorder t)).
Proof.
  intros Hs Hne Hf. destruct (leftmost_rep fuel s k t Hs Hne Hf) as (k1 & c & m & r & _ & -> & Hb & ->).
  by rewrite inorder_plug, Hb.
Qed.

Lemma rightmost_last fuel s k t :
  tree_rep s (plug k t) → t ≠ Leaf → (length (inorder t) ≤ fuel)%nat →
  rightmost fuel s (root_of t) = Ok (last_of (inorder t)).
Proof.
  revert k t. induction fuel as [|fuel IH]; intros k t Hs Hne Hf.
  { destruct t; [done|]. simpl in Hf. rewrite length_app in Hf. simpl in Hf. lia. }
  destruct t as [|c l a r]; [done|]. cbn [rightmost root_of]. rewrite (right_of_rep _ _ _ _ _ _ Hs). cbn [mbind res_bind].
  rewrite (focus_null s (FR c l a :: k) r Hs). unfold last_of. cbn [inorder]. rewrite last_app_cons.
  destruct r as [|cr rl ra rr]; [done|]. rewrite (IH (FR c l a :: k)); [|done|done|].
  - unfold last_of. cbn [inorder]. rewrite last_cons, last_app_cons. by destruct (last (ra :: inorder rr)) eqn:E; [|apply last_None in E].
  - simpl in *. rewrite !length_app in *. simpl in *. rewrite !length_app in *. simpl in *. lia.
Qed.

Lemma climb_right_rep fuel s k t :
  tree_rep s (plug k t) → t ≠ Leaf → (length k < fuel)%nat →
  climb_right fuel s (root_of t) = Ok (first_of (after k)).
Proof.
  revert t fuel. induction k as [|[pc p u|pc u p] k IH]; intros t fuel Hs Hne Hf; (destruct fuel as [|fuel]; [lia|]);
    destruct t as [|c l a r]; try done; cbn [climb_right root_of]; rewrite (parent_of_rep _ _ _ _ _ _ Hs);
    cbn [mbind res_bind]; rewrite (ctx_null _ _ _ Hs); [done|..]; cbn [ctx_addr frame_addr].
  - rewrite (right_of_rep s k pc _ p u Hs). cbn [mbind res_bind].
    rewrite (proj1 (focus_sibling s k pc (Node c l a r) p u a Hs)); [done| |set_solver].
    by apply (root_ne s (FL pc p u :: k) (Node c l a r)).
  - rewrite (right_of_rep s k pc u p _ Hs). cbn [mbind res_bind root_of]. rewrite Z.eqb_refl.
    apply (IH (Node pc u p (Node c l a r))); [done|done|]. simpl in Hf. lia.
Qed.

Lemma climb_left_rep fuel s k t :
  tree_rep s (plug k t) → t ≠ Leaf → (length k < fuel)%nat →
  climb_left fuel s (root_of t) = Ok (last_of (before k)).
Proof.
  revert t fuel. induction k as [|[pc p u|pc u p] k IH]; intros t fuel Hs Hne Hf; (destruct fuel as [|fuel]; [lia|]);
    destruct t as [|c l a r]; try done; cbn [climb_left root_of]; rewrite (parent_of_rep _ _ _ _ _ _ Hs);
    cbn [mbind res_bind]; rewrite (ctx_null _ _ _ Hs); [done|..]; cbn [ctx_addr frame_addr].
  - rewrite (left_of_rep s k pc _ p u Hs). cbn [mbind res_bind root_of]. rewrite Z.eqb_refl.
    apply (IH (Node pc (Node c l a r) p u)); [done|done|]. simpl in Hf. lia.
  - rewrite (left_of_rep s k pc u p _ Hs). cbn [mbind res_bind].
    rewrite (proj2 (focus_sibling s k pc u p (Node c l a r) a Hs)); [| |set_solver].
    + unfold last_of. simpl. by rewrite (assoc_L (++)), last_snoc.
    + by apply (root_ne s (FR pc u p :: k) (Node c l a r)).
Qed.

Lemma parent_ne_self s k c l a r : tree_rep s (plug k (Node c l a r)) → a ≠ 0 ∧ (ctx_addr k =? a) = false.
Proof.
  intros Hs. assert (a ≠ 0) as Ha by by apply (root_ne s k (Node c l a r)). split; [done|].
  apply Z.eqb_neq. intros Heq. destruct (proj2 (focus_iff _ _ _) Hs) as [Hnd _ _ _ _]. simpl in Hnd. fresh_split.
  destruct k as [|[] k]; simpl in Heq; [done|..]; unfold ctx_addrs in *; simpl in *; set_solver.
Qed.

Lemma rb_next_rep fuel s k c l a r :
  tree_rep s (plug k (Node c l a r)) → (length (inorder (plug k (Node c l a r))) < fuel)%nat →
  rb_next fuel s a = Ok (first_of (inorder r ++ after k)).
Proof.
  intros Hs Hf. destruct (parent_ne_self _ _ _ _ _ _ Hs) as [Ha Hpar].
  pose proof (context_size k (Node c l a r)) as Hsz. simpl in Hsz. rewrite length_app in Hsz. simpl in Hsz.
  unfold rb_next. rewrite (proj2 (Z.eqb_neq a 0)) by done. rewrite (parent_of_rep _ _ _ _ _ _ Hs). cbn [mbind res_bind].
  rewrite Hpar, (right_of_rep _ _ _ _ _ _ Hs). cbn [mbind res_bind]. rewrite (focus_null s (FR c l a :: k) r Hs).
  destruct r as [|cr rl ra rr]; cbn [negb].
  - apply (climb_right_rep fuel s k (Node c l a Leaf)); [done|done|lia].
  - rewrite (leftmost_first fuel s (FR c l a :: k)); [|done|done|lia]. f_equal. unfold first_of.
    simpl. by destruct (inorder rl).
Qed.

Lemma rb_prev_rep fuel s k c l a r :
  tree_rep s (plug k (Node c l a r)) → (length (inorder (plug k (Node c l a r))) < fuel)%nat →
  rb_prev fuel s a = Ok (last_of (before k ++ inorder l)).
Proof.
  intros Hs Hf. destruct (parent_ne_self _ _ _ _ _ _ Hs) as [Ha Hpar].
  pose proof (context_size k (Node c l a r)) as Hsz. simpl in Hsz. rewrite length_app in Hsz. simpl in Hsz.
  unfold rb_prev. rewrite (proj2 (Z.eqb_neq a 0)) by done. rewrite (parent_of_rep _ _ _ _ _ _ Hs). cbn [mbind res_bind].
  rewrite Hpar, (left_of_rep _ _ _ _ _ _ Hs). cbn [mbind res_bind]. rewrite (focus_null s (FL c a r :: k) l Hs).
  destruct l as [|cl ll la lr]; cbn [negb].
  - rewrite app_nil_r. apply (climb_left_rep fuel s k (Node c Leaf a r)); [done|done|lia].
  - rewrite (rightmost_last fuel s (FL c a r :: k)); [|done|done|lia]. f_equal. unfold last_of.
    cbn [inorder]. by rewrite (assoc_L (++)), !last_app_cons.
Qed.

(** ** Depth *)

Lemma rbt_size c n t : rbt c n t → (2 ^ n ≤ length (inorder t) + 1)%nat.
Proof. induction 1; simpl; rewrite ?length_app; simpl; lia. Qed.

Lemma ctx_depth c n k t :
  ctx_rb c n k → rbt c n t →
  ∃ N, rbt Black N (plug k t) ∧ (length k + (if decide (c = Red) then 1 else 0) + 2 * n ≤ 2 * N)%nat.
Proof.
  intros Hk. revert t. induction Hk as [n|n a r k Hr Hk IH|n l a k Hl Hk IH|c c' n a r k Hr Hk IH|c c' n l a k Hl Hk IH];
    intros t Ht; [exists n; split; [done|simpl; lia]|..].
  1: destruct (IH (Node Red t a r)) as (N & HN & Hlen); [by constructor|].
  2: destruct (IH (Node Red l a t)) as (N & HN & Hlen); [by constructor|].
  3: destruct (IH (Node Black t a r)) as (N & HN & Hlen); [by econstructor|].
  4: destruct (IH (Node Black l a t)) as (N & HN & Hlen); [by econstructor|].
  all: exists N; split; [done|]; simpl in *; repeat case_decide; simplify_eq; lia.
Qed.

(** A free position of a red-black tree is at most twice the binary logarithm of its size deep. *)
Lemma hole_depth k : red_black (plug k Leaf) → (length k ≤ 2 * Nat.log2 (length (inorder (plug k Leaf)) + 1))%nat.
Proof.
  intros [m Hrb]. destruct (rbt_unplug _ _ _ _ Hrb [] (ctx_nil m)) as (c & n & Hl & Hk). rewrite app_nil_r in Hk.
  destruct (ctx_depth c n k Leaf Hk Hl) as (N & HN & Hlen). apply rbt_size in HN.
  apply Nat.log2_le_mono in HN. rewrite Nat.log2_pow2 in HN by lia. lia.
Qed.

(** ** What the tree promises *)

(** C7. Linking a node at a free position and calling [rb_insert_color] leaves a
    red-black tree whose in-order sequence has the node at that position; the
    loop ends after at most 2 log2 (size + 1) + 2 rounds, and no access is out
    of the tree.  This holds for any augmentation callbacks. *)
Theorem rb_insert_color_correct cb fuel s k a n :
  tree_rep s (plug k Leaf) → red_black (plug k Leaf) →
  addr_ok a → a ∉ inorder (plug k Leaf) → heap s !! a = Some n →
  (2 * Nat.log2 (length (inorder (plug k Leaf)) + 1) + 2 ≤ fuel)%nat →
  ∃ s' t', (s ← rb_link_node a (ctx_addr k) (ctx_side k) s; rb_insert_color cb fuel a s) = Ok s' ∧
    tree_rep s' t' ∧ red_black t' ∧ inorder t' = before k ++ a :: after k.
Proof. intros Hs Hrb Ha Hin Hn Hf. pose proof (hole_depth k Hrb). eapply rb_insert_rep; eauto. lia. Qed.

(** C2. [rb_erase] takes exactly the given node out of the in-order sequence,
    and what is left is a red-black tree again. *)
Theorem rb_erase_correct cb fuel s t xs a ys :
  tree_rep s t → red_black t → inorder t = xs ++ a :: ys → (length (inorder t) + 2 ≤ fuel)%nat →
  ∃ s' t', rb_erase cb fuel a s = Ok s' ∧ tree_rep s' t' ∧ red_black t' ∧ inorder t' = xs ++ ys.
Proof.
  intros Hs Hrb Heq Hf. destruct (inorder_split t xs a ys) as (k & c & l & r & -> & -> & ->); [apply Hs|done|].
  destruct (rb_erase_rep cb fuel s k c l a r Hs Hrb Hf) as (s' & t' & He & Hs' & Hrb' & Hin).
  exists s', t'. split_and!; [done..|]. rewrite Hin. by rewrite <- (assoc_L (++)).
Qed.

(** [rb_next] and [rb_prev] go to the neighbours of a node in the in-order
    sequence, and give NULL at its ends. *)
Theorem rb_neighbours_correct fuel s t xs a ys :
  tree_rep s t → inorder t = xs ++ a :: ys → (length (inorder t) < fuel)%nat →
  rb_next fuel s a = Ok (first_of ys) ∧ rb_prev fuel s a = Ok (last_of xs).
Proof.
  intros Hs Heq Hf. destruct (inorder_split t xs a ys) as (k & c & l & r & -> & -> & ->); [apply Hs|done|].
  split; [by eapply rb_next_rep|by eapply rb_prev_rep].
Qed.

(** [rb_first] and [rb_last] give the ends of the in-order sequence, NULL
    for the empty tree. *)
Theorem rb_ends_correct fuel s t :
  tree_rep s t → (length (inorder t) ≤ fuel)%nat →
  rb_first fuel s = Ok (first_of (inorder t)) ∧ rb_last fuel s = Ok (last_of (inorder t)).
Proof.
  intros Hs Hf. destruct (Hs) as (_ & _ & Hr). unfold rb_first, rb_last. rewrite Hr, (focus_null s [] t Hs).
  destruct t as [|c l a r]; [done|]. split; [by apply (leftmost_first fuel s [])|by apply (rightmost_last fuel s [])].
Qed.

(** ** A tree for the witnesses *)

(** Nodes 16 < 32 < 48, the middle one the root. *)
Definition three : tree := Node Black (Node Red Leaf 16 Leaf) 32 (Node Red Leaf 48 Leaf).
Definition three_state : rb_state :=
  RbState (list_to_map [(16, RbNode 32 0 0); (32, RbNode 1 48 16); (48, RbNode 32 0 0); (64, RbNode 0 0 0)]) 32 [].

Lemma three_rep : tree_rep three_state three.
Proof.
  split_and!; [|repeat split; try done; lia|done].
  change (inorder three) with [16; 32; 48]. repeat (apply NoDup_cons; split; [set_solver|]). apply NoDup_nil_2.
Qed.

Lemma three_rb : red_black three.
Proof. exists 1%nat. unfold three. eauto with yula. Qed.

Lemma rb_insert_color_correct_witness : ∃ s' t',
  (s ← rb_link_node 64 48 true three_state; rb_insert_color no_callbacks 6 64 s) = Ok s' ∧
  tree_rep s' t' ∧ red_black t' ∧ inorder t' = [16; 32; 48; 64].
Proof.
  apply (rb_insert_color_correct no_callbacks 6 three_state
    [FR Red Leaf 48; FR Black (Node Red Leaf 16 Leaf) 32] 64 (RbNode 0 0 0)).
  - exact three_rep.
  - exact three_rb.
  - repeat split; lia.
  - change (inorder _) with [16; 32; 48]. set_solver.
  - reflexivity.
  - simpl. lia.
Defined.

Lemma rb_erase_correct_witness : ∃ s' t',
  rb_erase no_callbacks 5 32 three_state = Ok s' ∧ tree_rep s' t' ∧ red_black t' ∧ inorder t' = [16; 48].
Proof.
  apply (rb_erase_correct no_callbacks 5 three_state three [16] 32 [48]);
    [exact three_rep|exact three_rb|reflexivity|simpl; lia].
Defined.

Lemma rb_neighbours_correct_witness :
  rb_next 4 three_state 32 = Ok (first_of [48]) ∧ rb_prev 4 three_state 32 = Ok (last_of [16]).
Proof.
  apply (rb_neighbours_correct 4 three_state three); [exact three_rep|reflexivity|simpl; lia].
Defined.

Lemma rb_ends_correct_witness : rb_first 3 three_state = Ok 16 ∧ rb_last 3 three_state = Ok 48.
Proof. apply (rb_ends_correct 3 three_state three); [exact three_rep|simpl; lia]. Defined.
