(* ===== verification/Conc.v ===== *)
(** * Interleaved threads

    The common ground of the concurrent components: threads are a list of
    program points, a step runs one atomic access of one thread, and sums over
    the threads ([tally]) count who is where.  Invariants of the reachable
    states are proved once for every step. *)

From stdpp Require Export relations.
From S2P Require Import Prelude.

#[global] Open Scope Z_scope.

(** ** Reachability *)

Section Reachable.
Context {S : Type} (step : S → S → Prop).

Lemma invariant_rtc (I : S → Prop) s s' :
  (∀ x y, I x → step x y → I y) → I s → rtc step s s' → I s'.
Proof. intros Hstep Hs Hr. induction Hr; eauto. Qed.

End Reachable.

Section Executable.
Context {S L : Type} (exec : L → S → option S).

(** The step relation of an executable step function; the label says which
    thread runs and what it is asked to do. *)
Definition exec_step (s s' : S) : Prop := ∃ l, exec l s = Some s'.

Fixpoint run (ls : list L) (s : S) : option S :=
  match ls with [] => Some s | l :: ls => match exec l s with Some s' => run ls s' | None => None end end.

Lemma run_rtc ls s s' : run ls s = Some s' → rtc exec_step s s'.
Proof.
  revert s. induction ls as [|l ls IH]; intros s; simpl; [intros [= <-]; done|].
  destruct (exec l s) as [s1|] eqn:E; [|done]. intros H. apply rtc_l with s1; [by exists l|auto].
Qed.

(** What a run leads to, seen through [f]. *)
Lemma run_reaches {B} (f : S → B) ls s b :
  option_map f (run ls s) = Some b → ∃ s', rtc exec_step s s' ∧ f s' = b.
Proof.
  destruct (run ls s) as [s'|] eqn:E; [|done]. intros [= <-]. exists s'. split; [|done]. by eapply run_rtc.
Qed.
End Executable.

(** ** Sums over threads *)

Section Tally.
Context {A : Type}.
Implicit Types (f : A → Z) (l : list A).

Definition tally f l : Z := foldr (λ x n, f x + n) 0 l.

Lemma tally_cons f x l : tally f (x :: l) = f x + tally f l.
Proof. done. Qed.

Lemma tally_insert f l i x y : l !! i = Some x → tally f (<[i := y]> l) = tally f l - f x + f y.
Proof.
  revert i. induction l as [|z l IH]; intros [|i] H; simpl in *; simplify_eq; unfold tally in *; simpl; [lia|].
  rewrite (IH i) by done. lia.
Qed.

Lemma tally_nonneg f l : (∀ x, 0 ≤ f x) → 0 ≤ tally f l.
Proof. intros Hf. induction l as [|z l IH]; unfold tally in *; simpl; [lia|]. pose proof (Hf z). lia. Qed.

Lemma tally_le f l i x : (∀ x, 0 ≤ f x) → l !! i = Some x → f x ≤ tally f l.
Proof.
  intros Hf. revert i. induction l as [|z l IH]; intros [|i] H; simpl in *; simplify_eq.
  - pose proof (tally_nonneg f l Hf). unfold tally in *. simpl. lia.
  - pose proof (IH i H). pose proof (Hf z). unfold tally in *. simpl. lia.
Qed.

Lemma tally_two f l i j x y :
  (∀ x, 0 ≤ f x) → i ≠ j → l !! i = Some x → l !! j = Some y → f x + f y ≤ tally f l.
Proof.
  intros Hf. revert i j. induction l as [|z l IH]; intros [|i] [|j] Hij Hi Hj; simpl in *; simplify_eq.
  - pose proof (tally_le f l j y Hf Hj). unfold tally in *. simpl. lia.
  - pose proof (tally_le f l i x Hf Hi). unfold tally in *. simpl. lia.
  - pose proof (IH i j ltac:(lia) Hi Hj). pose proof (Hf z). unfold tally in *. simpl. lia.
Qed.

Lemma tally_max f l : (∀ x, f x ≤ 1) → tally f l ≤ zlen l.
Proof. intros Hf. induction l as [|z l IH]; unfold tally in *; simpl; [lia|]. pose proof (Hf z). lia. Qed.

Lemma tally_replicate f n x : tally f (replicate n x) = Z.of_nat n * f x.
Proof. induction n as [|n IH]; [done|]. rewrite replicate_S, tally_cons, IH. lia. Qed.
End Tally.

(** Rewrites every sum over an updated list of threads. *)
Ltac tally_step :=
  repeat match goal with
  | H : ?l !! ?i = Some ?x |- context [tally ?f (<[?i := ?y]> ?l)] => rewrite (tally_insert f l i x y H)
  end.

(** ** The threads at a program point *)

Section Indices.
Context {A : Type} (P : A → bool).

(** The indices of the elements that satisfy [P]. *)
Definition indices (l : list A) : list nat :=
  filter (λ i, from_option P false (l !! i) = true) (seq 0 (length l)).

Lemma elem_of_indices l i : i ∈ indices l ↔ ∃ x, l !! i = Some x ∧ P x = true.
Proof.
  unfold indices. rewrite list_elem_of_filter, elem_of_seq. split.
  - intros [H _]. destruct (l !! i) as [x|]; [by exists x|done].
  - intros (x & Hx & HP). rewrite Hx. split; [done|]. apply lookup_lt_Some in Hx. lia.
Qed.

Lemma NoDup_indices l : NoDup (indices l).
Proof. apply NoDup_filter, NoDup_seq. Qed.

Lemma indices_cons x l :
  Permutation (indices (x :: l)) ((if P x then [0%nat] else []) ++ (S <$> indices l)).
Proof.
  apply NoDup_Permutation.
  - apply NoDup_indices.
  - apply NoDup_app. split_and!.
    + destruct (P x); [apply NoDup_singleton|apply NoDup_nil_2].
    + intros i Hi (j & -> & _)%list_elem_of_fmap. destruct (P x); set_solver.
    + apply NoDup_fmap_2; [apply _|apply NoDup_indices].
  - intros i. rewrite elem_of_app, list_elem_of_fmap. setoid_rewrite elem_of_indices. destruct i as [|i]; simpl.
    + split; [intros (y & [= <-] & HP)|intros [Hi|(j & ? & _)]; [|done]].
      * left. rewrite HP. set_solver.
      * exists x. destruct (P x); [done|set_solver].
    + split; [intros H; right; by exists i|intros [Hi|(j & [= ->] & H)]; [|done]]. destruct (P x); set_solver.
Qed.

Lemma tally_indices l : tally (λ x, b2z (P x)) l = zlen (indices l).
Proof.
  induction l as [|x l IH]; [done|]. rewrite tally_cons, IH, indices_cons, length_app, length_fmap.
  destruct (P x); simpl; lia.
Qed.

Lemma tally_ge_NoDup l ws :
  NoDup ws → (∀ i, i ∈ ws → ∃ x, l !! i = Some x ∧ P x = true) → zlen ws ≤ tally (λ x, b2z (P x)) l.
Proof.
  intros Hnd Hws. rewrite tally_indices. apply inj_le, submseteq_length, NoDup_submseteq; [done|].
  intros i Hi. apply elem_of_indices. auto.
Qed.

Lemma tally_gt_exists l ws :
  zlen ws < tally (λ x, b2z (P x)) l → ∃ i x, l !! i = Some x ∧ P x = true ∧ i ∉ ws.
Proof.
  rewrite tally_indices. intros Hlt.
  destruct (Forall_Exists_dec (λ i, i ∈ ws) (λ i, i ∉ ws) (λ i, decide (i ∈ ws)) (indices l)) as [Hall|(i & Hi & Hn)%Exists_exists].
  - exfalso. assert (indices l ⊆+ ws) as Hsub%submseteq_length; [|lia].
    apply NoDup_submseteq; [apply NoDup_indices|]. by apply Forall_forall.
  - apply elem_of_indices in Hi as (x & Hx & HP). by exists i, x.
Qed.
End Indices.
