(* ===== verification/RwSpin.v ===== *)
(** * Reader-writer spinlocks: [src/src/kernel/locking/rwspinlock.c]

    Both locks as interleavings of atomic accesses by any number of threads,
    under sequential consistency.  The inner spinlock is held or free and is
    acquired in one step. *)

From S2P Require Import Prelude Conc.

Module RwSpinlock.

Definition RW_STATE_WRITER_LOCKED : Z := 0x80000000.
Definition RW_STATE_WRITER_PENDING : Z := 0x40000000.
Definition RW_STATE_READER_MASK : Z := 0x3FFFFFFF.

Record rwspinlock := RwLock { state : Z; wait_lock : bool }.

(** Program points of a thread: outside, inside each function, and the two
    critical sections. *)
Inductive pc :=
| Idle
| RdLoad | RdCas (s : Z) | Reading
| WrSpin | WrOr | WrLoad | WrCas | Writing | WrUnlock.

Definition rwspinlock_init : rwspinlock := RwLock 0 false.

Definition rwspinlock_acquire_read (p : pc) (l : rwspinlock) : option (pc * rwspinlock) :=
  match p with
  | RdLoad =>
      let s := state l in
      if negb (Z.land s (Z.lor RW_STATE_WRITER_LOCKED RW_STATE_WRITER_PENDING) =? 0)
      then Some (RdLoad, l) else Some (RdCas s, l)
  | RdCas s =>
      if state l =? s then Some (Reading, RwLock (u32 (s + 1)) (wait_lock l)) else Some (RdLoad, l)
  | _ => None
  end.

Definition rwspinlock_release_read (p : pc) (l : rwspinlock) : option (pc * rwspinlock) :=
  match p with
  | Reading => Some (Idle, RwLock (u32 (state l - 1)) (wait_lock l))
  | _ => None
  end.

Definition rwspinlock_acquire_write (p : pc) (l : rwspinlock) : option (pc * rwspinlock) :=
  match p with
  | WrSpin => if wait_lock l then None else Some (WrOr, RwLock (state l) true)
  | WrOr => Some (WrLoad, RwLock (Z.lor (state l) RW_STATE_WRITER_PENDING) (wait_lock l))
  | WrLoad => if Z.land (state l) RW_STATE_READER_MASK =? 0 then Some (WrCas, l) else Some (WrLoad, l)
  | WrCas =>
      if state l =? RW_STATE_WRITER_PENDING
      then Some (Writing, RwLock RW_STATE_WRITER_LOCKED (wait_lock l)) else Some (WrLoad, l)
  | _ => None
  end.

Definition rwspinlock_release_write (p : pc) (l : rwspinlock) : option (pc * rwspinlock) :=
  match p with
  | Writing => Some (WrUnlock, RwLock (Z.land (state l) (u32 (Z.lnot RW_STATE_WRITER_LOCKED))) (wait_lock l))
  | WrUnlock => Some (Idle, RwLock (state l) false)
  | _ => None
  end.

(** One access of one thread; an idle thread calls one of the two acquire functions. *)
Definition thread_step (write : bool) (p : pc) (l : rwspinlock) : option (pc * rwspinlock) :=
  match p with
  | Idle => Some (if write then WrSpin else RdLoad, l)
  | RdLoad | RdCas _ => rwspinlock_acquire_read p l
  | Reading => rwspinlock_release_read p l
  | WrSpin | WrOr | WrLoad | WrCas => rwspinlock_acquire_write p l
  | Writing | WrUnlock => rwspinlock_release_write p l
  end.

Record system := System { lock : rwspinlock; threads : list pc }.

Definition initial (n : nat) : system := System rwspinlock_init (replicate n Idle).

Definition exec (c : nat * bool) (s : system) : option system :=
  match threads s !! c.1 with
  | None => None
  | Some p =>
      match thread_step c.2 p (lock s) with
      | Some (p', l) => Some (System l (<[c.1 := p']> (threads s)))
      | None => None
      end
  end.

Definition step : system → system → Prop := exec_step exec.

(** ** The invariant *)

Definition reading (p : pc) : Z := match p with Reading => 1 | _ => 0 end.
Definition pending (p : pc) : Z := match p with WrLoad | WrCas => 1 | _ => 0 end.
Definition writing (p : pc) : Z := match p with Writing => 1 | _ => 0 end.
(** Holds the inner spinlock. *)
Definition queued (p : pc) : Z := match p with WrOr | WrLoad | WrCas | Writing | WrUnlock => 1 | _ => 0 end.

(** Holds it without a bit of its own in the state word. *)
Definition holding (p : pc) : Z := match p with WrOr | WrUnlock => 1 | _ => 0 end.

(** A reader's expected value has no writer bit. *)
Definition pc_ok (p : pc) : Prop := match p with RdCas s => 0 ≤ s < RW_STATE_WRITER_PENDING | _ => True end.

Record inv (s : system) : Prop := Inv {
  inv_size : zlen (threads s) < RW_STATE_WRITER_PENDING;
  inv_state : state (lock s) = tally reading (threads s)
    + RW_STATE_WRITER_PENDING * tally pending (threads s) + RW_STATE_WRITER_LOCKED * tally writing (threads s);
  inv_queued : tally queued (threads s) = b2z (wait_lock (lock s));
  inv_excl : tally writing (threads s) = 0 ∨ tally reading (threads s) = 0;
  inv_pcs : Forall pc_ok (threads s) }.

Lemma pending_queued l : 0 ≤ tally pending l ∧ 0 ≤ tally writing l ∧ 0 ≤ tally reading l ∧ tally reading l ≤ zlen l ∧
  tally holding l + tally pending l + tally writing l = tally queued l.
Proof.
  split_and!; try (apply tally_nonneg; by intros []); [apply tally_max; by intros []|].
  induction l as [|p l IH]; [done|]. rewrite !tally_cons. destruct p; simpl; lia.
Qed.

(** The bits of a state word. *)
Lemma state_bits r p w :
  0 ≤ r < RW_STATE_WRITER_PENDING → 0 ≤ p → 0 ≤ w → p + w ≤ 1 →
  let s := r + RW_STATE_WRITER_PENDING * p + RW_STATE_WRITER_LOCKED * w in
  (Z.land s (Z.lor RW_STATE_WRITER_LOCKED RW_STATE_WRITER_PENDING) = 0 ↔ p = 0 ∧ w = 0) ∧
  Z.land s RW_STATE_READER_MASK = r ∧
  (p = 0 → w = 0 → Z.lor s RW_STATE_WRITER_PENDING = s + RW_STATE_WRITER_PENDING) ∧
  (p = 0 → Z.land s (u32 (Z.lnot RW_STATE_WRITER_LOCKED)) = r).
Proof.
  intros Hr Hp Hw Hpw s. unfold RW_STATE_WRITER_PENDING, RW_STATE_WRITER_LOCKED, RW_STATE_READER_MASK in *.
  assert (Z.land s (Z.ones 30) = r) as Hmask.
  { rewrite Z.land_ones by lia. unfold s. change (2 ^ 30) with 0x40000000. Z.to_euclidean_division_equations; lia. }
  split_and!.
  - change (Z.lor 0x80000000 0x40000000) with (Z.lnot (2 ^ 30 - 1) `mod` 2 ^ 32).
    rewrite land_high by (unfold s; lia). change (2 ^ 30) with 0x40000000. unfold s.
    split; Z.to_euclidean_division_equations; lia.
  - exact Hmask.
  - intros -> ->. unfold s. rewrite Z.lor_comm, Z.mul_0_r, !Z.add_0_r.
    change 0x40000000 with (1 * 2 ^ 30). rewrite lor_low by lia. lia.
  - intros ->. change (u32 (Z.lnot 0x80000000)) with (Z.ones 31). rewrite Z.land_ones by lia.
    unfold s. change (2 ^ 31) with 0x80000000. Z.to_euclidean_division_equations; lia.
Qed.

Lemma rwspin_inv_initial n : Z.of_nat n < RW_STATE_WRITER_PENDING → inv (initial n).
Proof.
  intros Hn. split; simpl; rewrite ?tally_replicate, ?length_replicate; simpl; try lia.
  by apply Forall_replicate.
Qed.

(** An access changes one thread and the lock; the sums move accordingly. *)
Lemma rwspin_exec_inv c s s' :
  exec c s = Some s' →
  ∃ p p', threads s !! c.1 = Some p ∧ thread_step c.2 p (lock s) = Some (p', lock s') ∧
    threads s' = <[c.1 := p']> (threads s).
Proof.
  unfold exec. destruct (threads s !! c.1) as [p|]; [|done]. destruct (thread_step c.2 p (lock s)) as [[p' l]|] eqn:E; [|done].
  intros [= <-]. by exists p, p'.
Qed.

Lemma rwspin_inv_step s s' : inv s → step s s' → inv s'.
Proof.
  intros [Hsz Hst Hq Hx Hpc] [c Hc]. destruct (rwspin_exec_inv _ _ _ Hc) as (p & p' & Hp & Hstep & Hth).
  destruct (pending_queued (threads s)) as (Hp0 & Hw0 & Hr0 & Hrl & Hpw).
  assert (tally pending (threads s) + tally writing (threads s) ≤ 1) as Hpw1.
  { pose proof (tally_nonneg holding (threads s) ltac:(by intros [])). unfold b2z in Hq; case_match; lia. }
  destruct (state_bits (tally reading (threads s)) (tally pending (threads s)) (tally writing (threads s)))
    as (Hb1 & Hb2 & Hb3 & Hb4); [lia..|]. rewrite <- Hst in Hb1, Hb2, Hb3, Hb4.
  pose proof (Forall_lookup_1 _ _ _ _ Hpc Hp) as Hpok.
  pose proof (tally_le reading _ _ _ ltac:(by intros []) Hp) as Hle1.
  pose proof (tally_le writing _ _ _ ltac:(by intros []) Hp) as Hle2.
  pose proof (tally_le pending _ _ _ ltac:(by intros []) Hp) as Hle3.
  pose proof (tally_le queued _ _ _ ltac:(by intros []) Hp) as Hle4.
  pose proof (tally_le holding _ _ _ ltac:(by intros []) Hp) as Hle5.
  pose proof (tally_nonneg holding (threads s) ltac:(by intros [])) as Hh0.
  destruct s' as [l' ths']. simpl in *. subst ths'.
  assert (pc_ok p') as Hpok'.
  { destruct p; simpl in Hstep; repeat case_match; simplify_eq; try done. simpl. bool_simpl.
    apply Hb1 in H as [Hz1 Hz2]. rewrite Hz1, Hz2 in Hst. lia. }
  assert (Forall pc_ok (<[c.1 := p']> (threads s))) by by apply Forall_insert.
  split; simpl; rewrite ?length_insert; tally_step; try done; clear Hc Hp Hpc.
  all: destruct (wait_lock (lock s)) eqn:Ewl, p; simpl in Hstep; try rewrite Ewl in Hstep; repeat case_match;
    simplify_eq; simpl in *; rewrite ?Ewl; simpl in *; bool_simpl.
  all: unfold RW_STATE_WRITER_PENDING, RW_STATE_WRITER_LOCKED in *.
  all: rewrite ?u32_small by lia; try lia.
Qed.

Lemma reachable_inv n s : Z.of_nat n < RW_STATE_WRITER_PENDING → rtc step (initial n) s → inv s.
Proof. intros Hn. apply (invariant_rtc step inv); [apply rwspin_inv_step|by apply rwspin_inv_initial]. Qed.

(** C25. Mutual exclusion of [rwspinlock]: in every interleaving of fewer than
    2^30 threads, while one thread is in the write section no other thread is
    in a read or write section. *)
Theorem rwspinlock_exclusion n s i j p :
  Z.of_nat n < RW_STATE_WRITER_PENDING → rtc step (initial n) s →
  threads s !! i = Some Writing → threads s !! j = Some p → i ≠ j → p ≠ Reading ∧ p ≠ Writing.
Proof.
  intros Hn Hr Hi Hj Hij. destruct (reachable_inv n s Hn Hr) as [_ _ Hq Hx _].
  pose proof (tally_le writing _ _ _ ltac:(by intros []) Hi) as Hw. simpl in Hw.
  pose proof (tally_le reading _ _ _ ltac:(by intros []) Hj) as Hrd.
  pose proof (tally_two queued _ _ _ _ _ ltac:(by intros []) Hij Hi Hj) as Hqq.
  split; intros ->; simpl in *; unfold b2z in Hq; case_match; lia.
Qed.

(** A waiting writer is not starved by readers: once a writer has announced
    itself, no step lets another reader into the read section. *)
Theorem rwspinlock_writer_blocks_readers n s s' :
  Z.of_nat n < RW_STATE_WRITER_PENDING → rtc step (initial n) s → step s s' →
  0 < tally pending (threads s) → tally reading (threads s') ≤ tally reading (threads s).
Proof.
  intros Hn Hr [c Hc] Hpend. destruct (reachable_inv n s Hn Hr) as [Hsz Hst Hq Hx Hpc].
  destruct (rwspin_exec_inv _ _ _ Hc) as (p & p' & Hp & Hstep & ->). tally_step.
  pose proof (Forall_lookup_1 _ _ _ _ Hpc Hp) as Hpok.
  destruct (pending_queued (threads s)) as (Hp0 & Hw0 & Hr0 & _). unfold RW_STATE_WRITER_PENDING, RW_STATE_WRITER_LOCKED in *.
  destruct p; simpl in *; repeat case_match; simplify_eq; simpl in *; bool_simpl; unfold RW_STATE_WRITER_PENDING in *; lia.
Qed.

(** Thread 0 writes while thread 1 waits to read. *)
Definition write_run : list (nat * bool) :=
  [(0%nat, true); (0%nat, true); (0%nat, true); (0%nat, true); (0%nat, true); (1%nat, false); (1%nat, false)].

Lemma rwspinlock_exclusion_witness : ∃ s, rtc step (initial 2) s ∧ threads s !! 0%nat = Some Writing ∧
  RdLoad ≠ Reading ∧ RdLoad ≠ Writing.
Proof.
  assert (∃ s, run exec write_run (initial 2) = Some s ∧ threads s !! 0%nat = Some Writing ∧
    threads s !! 1%nat = Some RdLoad) as (s & Hrun & H0 & H1) by (eexists; split; [reflexivity|split; reflexivity]).
  assert (rtc step (initial 2) s) as Hr by by eapply run_rtc.
  exists s. split; [done|]. split; [done|].
  apply (rwspinlock_exclusion 2 s 0 1 RdLoad); [done|done|done|done|lia].
Defined.

Lemma rwspinlock_writer_blocks_readers_witness : ∃ s s', rtc step (initial 2) s ∧ step s s' ∧
  0 < tally pending (threads s) ∧ tally reading (threads s') ≤ tally reading (threads s).
Proof.
  assert (∃ s s', run exec [(0%nat, true); (0%nat, true); (0%nat, true); (1%nat, false)] (initial 2) = Some s ∧
    exec (1%nat, false) s = Some s' ∧ 0 < tally pending (threads s)) as (s & s' & Hrun & Hs & Hp)
    by (do 2 eexists; split; [reflexivity|split; [reflexivity|done]]).
  assert (rtc step (initial 2) s) as Hr by by eapply run_rtc.
  assert (step s s') as Hst by by exists (1%nat, false).
  exists s, s'. split_and!; [done..|]. by apply (rwspinlock_writer_blocks_readers 2 s s').
Defined.
End RwSpinlock.

Module PercpuRwSpinlock.

Definition MAX_CPUS : nat := 32.

Record percpu_rwspinlock := PercpuLock { writer_active : Z; writer_mutex : bool; readers : list Z }.

(** Program points; a thread stays on its CPU while it uses the lock. *)
Inductive pc :=
| Idle
| RdWait | RdInc | RdCheck | RdBackoff | RdSpin | Reading
| WrSpin | WrStore | WrScan (i : nat) | Writing | WrUnlock.

Definition percpu_rwspinlock_init : percpu_rwspinlock := PercpuLock 0 false (replicate MAX_CPUS 0).

(** [__atomic_fetch_add(&rw->readers[cpu].count, d)] *)
Definition add_count (cpu : nat) (d : Z) (l : percpu_rwspinlock) : option percpu_rwspinlock :=
  match readers l !! cpu with
  | Some n => Some (PercpuLock (writer_active l) (writer_mutex l) (<[cpu := u32 (n + d)]> (readers l)))
  | None => None
  end.

Definition goto (p : pc) (l : option percpu_rwspinlock) : option (pc * percpu_rwspinlock) :=
  match l with Some l => Some (p, l) | None => None end.

Definition percpu_rwspinlock_acquire_read (cpu : nat) (p : pc) (l : percpu_rwspinlock)
    : option (pc * percpu_rwspinlock) :=
  match p with
  | RdWait => Some (if negb (writer_active l =? 0) then RdWait else RdInc, l)
  | RdInc => goto RdCheck (add_count cpu 1 l)
  | RdCheck => Some (if writer_active l =? 0 then Reading else RdBackoff, l)
  | RdBackoff => goto RdSpin (add_count cpu (-1) l)
  | RdSpin => Some (if negb (writer_active l =? 0) then RdSpin else RdWait, l)
  | _ => None
  end.

Definition percpu_rwspinlock_release_read (cpu : nat) (p : pc) (l : percpu_rwspinlock)
    : option (pc * percpu_rwspinlock) :=
  match p with Reading => goto Idle (add_count cpu (-1) l) | _ => None end.

Definition percpu_rwspinlock_acquire_write (p : pc) (l : percpu_rwspinlock) : option (pc * percpu_rwspinlock) :=
  match p with
  | WrSpin =>
      if writer_mutex l then None else Some (WrStore, PercpuLock (writer_active l) true (readers l))
  | WrStore => Some (WrScan 0, PercpuLock 1 (writer_mutex l) (readers l))
  | WrScan i =>
      if (i <? MAX_CPUS)%nat then
        match readers l !! i with
        | Some n => Some (if negb (n =? 0) then WrScan i else WrScan (S i), l)
        | None => None
        end
      else Some (Writing, l)
  | _ => None
  end.

Definition percpu_rwspinlock_release_write (p : pc) (l : percpu_rwspinlock) : option (pc * percpu_rwspinlock) :=
  match p with
  | Writing => Some (WrUnlock, PercpuLock 0 (writer_mutex l) (readers l))
  | WrUnlock => Some (Idle, PercpuLock (writer_active l) false (readers l))
  | _ => None
  end.

Definition thread_step (write : bool) (cpu : nat) (p : pc) (l : percpu_rwspinlock)
    : option (pc * percpu_rwspinlock) :=
  match p with
  | Idle => Some (if write then WrSpin else RdWait, l)
  | RdWait | RdInc | RdCheck | RdBackoff | RdSpin => percpu_rwspinlock_acquire_read cpu p l
  | Reading => percpu_rwspinlock_release_read cpu p l
  | WrSpin | WrStore | WrScan _ => percpu_rwspinlock_acquire_write p l
  | Writing | WrUnlock => percpu_rwspinlock_release_write p l
  end.

Record system := System { lock : percpu_rwspinlock; threads : list (nat * pc) }.

(** One idle thread per entry of [cpus]. *)
Definition initial (cpus : list nat) : system := System percpu_rwspinlock_init ((λ c, (c, Idle)) <$> cpus).

Definition exec (c : nat * bool) (s : system) : option system :=
  match threads s !! c.1 with
  | None => None
  | Some (cpu, p) =>
      match thread_step c.2 cpu p (lock s) with
      | Some (p', l) => Some (System l (<[c.1 := (cpu, p')]> (threads s)))
      | None => None
      end
  end.

Definition step : system → system → Prop := exec_step exec.

(** ** The invariant *)

(** Counted on CPU [c]. *)
Definition counted (c : nat) (t : nat * pc) : Z :=
  if decide (t.1 = c) then match t.2 with RdCheck | RdBackoff | Reading => 1 | _ => 0 end else 0.
Definition active (t : nat * pc) : Z := match t.2 with WrScan _ | Writing => 1 | _ => 0 end.
Definition queued (t : nat * pc) : Z := match t.2 with WrStore | WrScan _ | Writing | WrUnlock => 1 | _ => 0 end.
(** Holds the mutex but has not raised the flag. *)
Definition holding (t : nat * pc) : Z := match t.2 with WrStore | WrUnlock => 1 | _ => 0 end.

(** The CPUs a writer has found without readers. *)
Definition scanned (p : pc) : nat := match p with WrScan i => i | Writing => MAX_CPUS | _ => 0 end.

Record inv (s : system) : Prop := Inv {
  inv_size : zlen (threads s) < 4294967296;
  inv_cpus : Forall (λ t, (t.1 < MAX_CPUS)%nat) (threads s);
  inv_len : length (readers (lock s)) = MAX_CPUS;
  inv_count : ∀ c n, readers (lock s) !! c = Some n → n = tally (counted c) (threads s);
  inv_active : writer_active (lock s) = tally active (threads s);
  inv_queued : tally queued (threads s) = b2z (writer_mutex (lock s));
  inv_scan : ∀ i j c p c' p', threads s !! i = Some (c, p) → threads s !! j = Some (c', p') →
    (c' < scanned p)%nat → p' ≠ Reading }.

Lemma counted_range c t : 0 ≤ counted c t ≤ 1.
Proof. destruct t as [c' []]; unfold counted; simpl; case_decide; lia. Qed.

Lemma queued_split l : 0 ≤ tally holding l ∧ 0 ≤ tally active l ∧ tally holding l + tally active l = tally queued l.
Proof.
  split_and!; try (apply tally_nonneg; by intros [? []]).
  induction l as [|[c p] l IH]; [done|]. rewrite !tally_cons. destruct p; cbn; lia.
Qed.

Lemma percpu_inv_initial cpus :
  zlen cpus < 4294967296 → Forall (λ c, (c < MAX_CPUS)%nat) cpus → inv (initial cpus).
Proof.
  intros Hlen Hcpus.
  assert (∀ f, (∀ c, f (c, Idle) = 0) → tally f ((λ c, (c, Idle)) <$> cpus) = 0) as Hz.
  { intros f Hf. clear - Hf. induction cpus as [|c cpus IH]; [done|]. rewrite fmap_cons, tally_cons, Hf, IH. done. }
  split; cbn [initial threads lock readers writer_active writer_mutex percpu_rwspinlock_init].
  - by rewrite length_fmap.
  - apply Forall_fmap. exact Hcpus.
  - by rewrite length_replicate.
  - intros c n [-> _]%lookup_replicate. rewrite Hz; [done|]. intros c'. unfold counted. simpl. by case_decide.
  - by rewrite Hz.
  - by rewrite Hz.
  - intros i j c p c' p' Hi Hj Hlt. apply list_lookup_fmap_Some in Hi as (? & ? & ?), Hj as (? & ? & ?). by simplify_eq.
Qed.

Lemma percpu_exec_inv c s s' :
  exec c s = Some s' →
  ∃ cpu p p', threads s !! c.1 = Some (cpu, p) ∧ thread_step c.2 cpu p (lock s) = Some (p', lock s') ∧
    threads s' = <[c.1 := (cpu, p')]> (threads s).
Proof.
  unfold exec. destruct (threads s !! c.1) as [[cpu p]|]; [|done].
  destruct (thread_step c.2 cpu p (lock s)) as [[p' l]|] eqn:E; [|done]. intros [= <-]. by exists cpu, p, p'.
Qed.

(** How one access changes the counters. *)
Lemma step_readers w cpu p l p' l' :
  thread_step w cpu p l = Some (p', l') →
  ∃ d, counted cpu (cpu, p') = counted cpu (cpu, p) + d ∧
    (readers l' = readers l ∧ d = 0 ∨
     ∃ n, readers l !! cpu = Some n ∧ readers l' = <[cpu := u32 (n + d)]> (readers l)).
Proof.
  unfold counted. simpl. rewrite decide_True by done. unfold thread_step.
  destruct p; simpl; unfold goto, add_count; repeat case_match; intros; simplify_eq; simpl;
    eexists; (split; [|first [left; split; [done|reflexivity] | right; eexists; split; reflexivity]]); done.
Qed.

Lemma counted_other c cpu p p' : c ≠ cpu → counted c (cpu, p) = counted c (cpu, p').
Proof. intros Hne. unfold counted. simpl. rewrite !decide_False; done. Qed.

Lemma inv_count_step s s' :
  inv s → step s s' → length (readers (lock s')) = MAX_CPUS ∧
  ∀ c n, readers (lock s') !! c = Some n → n = tally (counted c) (threads s').
Proof.
  intros [Hsz _ Hlen Hcnt _ _ _] [cc Hc]. destruct (percpu_exec_inv _ _ _ Hc) as (cpu & p & p' & Hp & Hstep & Hth).
  destruct (step_readers _ _ _ _ _ _ Hstep) as (d & Hd & Hrd). rewrite Hth. split.
  { destruct Hrd as [[-> _]|(n & _ & ->)]; [done|by rewrite length_insert]. }
  intros c n Hn. rewrite (tally_insert _ _ _ _ _ Hp). destruct (decide (c = cpu)) as [->|Hne].
  - rewrite Hd. destruct Hrd as [[Heq ->]|(m & Hm & Heq)]; rewrite Heq in Hn.
    + rewrite (Hcnt _ _ Hn). lia.
    + rewrite list_lookup_insert_eq in Hn by (by eapply lookup_lt_Some). injection Hn as <-.
      pose proof (Hcnt _ _ Hm) as ->. pose proof (tally_le (counted cpu) _ _ _ ltac:(intros; apply counted_range) Hp).
      pose proof (tally_max (counted cpu) (<[cc.1:=(cpu, p')]> (threads s)) ltac:(intros; apply counted_range)) as Hmax.
      rewrite length_insert, (tally_insert _ _ _ _ _ Hp) in Hmax.
      pose proof (counted_range cpu (cpu, p')). rewrite u32_small by lia. lia.
  - rewrite (counted_other c cpu p p' Hne). transitivity (tally (counted c) (threads s)); [|lia]. apply Hcnt.
    destruct Hrd as [[Heq _]|(m & Hm & Heq)]; rewrite Heq in Hn; [done|]. by rewrite list_lookup_insert_ne in Hn.
Qed.

(** Raising the flag, and the mutex. *)
Lemma inv_flag_step s s' :
  inv s → step s s' →
  writer_active (lock s') = tally active (threads s') ∧ tally queued (threads s') = b2z (writer_mutex (lock s')).
Proof.
  intros [_ _ _ _ Ha Hq _] [cc Hc]. destruct (percpu_exec_inv _ _ _ Hc) as (cpu & p & p' & Hp & Hstep & Hth).
  destruct (queued_split (threads s)) as (Hh0 & Ha0 & Hsplit).
  pose proof (tally_le active _ _ _ ltac:(by intros [? []]) Hp) as Hle1.
  pose proof (tally_le queued _ _ _ ltac:(by intros [? []]) Hp) as Hle2.
  pose proof (tally_le holding _ _ _ ltac:(by intros [? []]) Hp) as Hle3.
  destruct s as [[wa0 [] rd0] ths], s' as [[wa wm rd] ths']; simpl in *; subst ths'; tally_step;
    destruct p; simpl in Hstep; unfold goto, add_count in Hstep; repeat case_match; simplify_eq; cbn in *; lia.
Qed.

(** While the flag is up nobody enters the read section. *)
Lemma enters_reading w cpu p l l' : thread_step w cpu p l = Some (Reading, l') → writer_active l = 0.
Proof. destruct p; simpl; unfold goto, add_count; intros; repeat case_match; simplify_eq; bool_simpl; done. Qed.

Lemma scanned_active p : (0 < scanned p)%nat → active (0%nat, p) = 1.
Proof. destruct p; simpl; try lia; done. Qed.

Lemma scanned_step w cpu p l p' l' c :
  thread_step w cpu p l = Some (p', l') → (c < scanned p')%nat → (c < MAX_CPUS)%nat →
  (c < scanned p)%nat ∨ readers l !! c = Some 0.
Proof.
  destruct p; simpl; unfold goto, add_count; intros; repeat case_match; simplify_eq; bool_simpl; simpl in *; try lia.
  - destruct (decide (c = i)) as [->|]; [by right; subst|left; lia].
  - match goal with E : (_ <? _)%nat = false |- _ => apply Nat.ltb_ge in E end. left. lia.
Qed.

Lemma inv_scan_step s s' i j c p c' p' :
  inv s → step s s' → threads s' !! i = Some (c, p) → threads s' !! j = Some (c', p') →
  (c' < scanned p)%nat → p' ≠ Reading.
Proof.
  intros Hinv [cc Hc] Hi Hj Hlt ->. destruct (Hinv) as [_ Hcpu _ Hcnt Ha _ Hscan].
  destruct (percpu_exec_inv _ _ _ Hc) as (cpu & q & q' & Hq & Hstep & Hth). rewrite Hth in Hi, Hj.
  apply list_lookup_insert_Some in Hi as [(? & ? & _)|[Hne Hi]];
    apply list_lookup_insert_Some in Hj as [(? & ? & _)|[Hne' Hj]]; simplify_eq.
  - simpl in Hlt. lia.
  - pose proof (Forall_lookup_1 _ _ _ _ Hcpu Hj) as Hc'. simpl in Hc'.
    destruct (scanned_step _ _ _ _ _ _ c' Hstep Hlt Hc') as [Hlt'|Hz]; [exact (Hscan _ _ _ _ _ _ Hq Hj Hlt' eq_refl)|].
    apply Hcnt in Hz. pose proof (tally_le (counted c') _ _ _ ltac:(intros; apply counted_range) Hj) as Hle.
    unfold counted in Hle at 1. simpl in Hle. rewrite decide_True in Hle by done. lia.
  - pose proof (enters_reading _ _ _ _ _ Hstep) as Hz. rewrite Ha in Hz.
    pose proof (tally_le active _ _ _ ltac:(by intros [? []]) Hi) as Hle.
    pose proof (scanned_active p ltac:(lia)) as Hact. unfold active in *. simpl in *. lia.
  - exact (Hscan _ _ _ _ _ _ Hi Hj Hlt eq_refl).
Qed.

Lemma percpu_inv_step s s' : inv s → step s s' → inv s'.
Proof.
  intros Hinv Hst. destruct (inv_count_step s s' Hinv Hst) as [Hl Hc]. destruct (inv_flag_step s s' Hinv Hst) as [Hf Hm].
  destruct (Hinv) as [Hsz Hcpu _ _ _ _ _]. destruct (Hst) as [cc Hcc].
  destruct (percpu_exec_inv _ _ _ Hcc) as (cpu & q & q' & Hq & Hstep & Hth).
  split; [| |done|done|done|done|exact (λ i j c p c' p', inv_scan_step s s' i j c p c' p' Hinv Hst)].
  - by rewrite Hth, length_insert.
  - rewrite Hth. apply Forall_insert; [done|]. by apply (Forall_lookup_1 _ _ _ _ Hcpu Hq).
Qed.

(** C26. Mutual exclusion of [percpu_rwspinlock]: in every interleaving of
    threads that stay on their CPU, while one thread is in the write section no
    other thread, on whatever CPU, is in a read or write section. *)
Theorem percpu_rwspinlock_exclusion cpus s i j c c' p :
  zlen cpus < 4294967296 → Forall (λ c, (c < MAX_CPUS)%nat) cpus → rtc step (initial cpus) s →
  threads s !! i = Some (c, Writing) → threads s !! j = Some (c', p) → i ≠ j → p ≠ Reading ∧ p ≠ Writing.
Proof.
  intros Hlen Hcpus Hr Hi Hj Hij.
  assert (inv s) as [_ Hcpu _ _ _ Hq Hscan].
  { eapply (invariant_rtc step inv); [apply percpu_inv_step|by apply percpu_inv_initial|done]. }
  pose proof (tally_two queued _ _ _ _ _ ltac:(by intros [? []]) Hij Hi Hj) as Hqq.
  pose proof (Forall_lookup_1 _ _ _ _ Hcpu Hj) as Hc'. split.
  - exact (Hscan _ _ _ _ _ _ Hi Hj Hc').
  - intros ->. cbn in Hqq. unfold b2z in Hq. case_match; lia.
Qed.

(** Thread 0 writes; thread 1 on the same CPU and thread 2 on another wait. *)
Lemma percpu_rwspinlock_exclusion_witness : ∃ s, rtc step (initial [0; 0; 31]%nat) s ∧
  threads s !! 0%nat = Some (0%nat, Writing) ∧ RdBackoff ≠ Reading ∧ RdBackoff ≠ Writing.
Proof.
  destruct (run_reaches exec threads ([(2, false); (2, false); (0, true); (0, true); (0, true)]%nat
      ++ replicate 33 (0%nat, true) ++ [(2, false); (2, false)]%nat) (initial [0; 0; 31]%nat)
      [(0, Writing); (0, Idle); (31, RdBackoff)]%nat) as (s & Hr & Hth); [vm_compute; reflexivity|].
  assert (threads s !! 0%nat = Some (0%nat, Writing)) as H0 by by rewrite Hth.
  assert (threads s !! 2%nat = Some (31%nat, RdBackoff)) as H2 by by rewrite Hth.
  exists s. split; [done|]. split; [done|].
  apply (percpu_rwspinlock_exclusion [0; 0; 31]%nat s 0 2 0 31 RdBackoff); [done| |done|done|done|lia].
  repeat (apply Forall_cons_2; [unfold MAX_CPUS; lia|]). apply Forall_nil_2.
Defined.
End PercpuRwSpinlock.
