(* ===== verification/Semaphore.v ===== *)
(** * The counting semaphore: [src/src/kernel/locking/sem.cpp]

    The token count and the queue of sleeping tasks.  The operations done under
    the semaphore's spinlock are one step each; the compare-and-swap loop of the
    fast path is one step as well.  [sem_wait] is a sequence of steps that other
    threads interleave with.  The wait queue is the list of the sleeping
    threads, oldest first ([src/src/kernel/waitq/waitqueue.c]). *)

From S2P Require Import Prelude Conc.

Record semaphore := Sem { count : Z; waiters : list nat }.

Definition sem_init (init_count : Z) : semaphore := Sem init_count [].

(** [sem_try_acquire_fast]: a token is taken or nothing changes. *)
Definition sem_try_acquire (s : semaphore) : bool * semaphore :=
  if 0 <? count s then (true, Sem (count s - 1) (waiters s)) else (false, s).

Definition sem_signal (s : semaphore) : semaphore := Sem (s32 (count s + 1)) (tail (waiters s)).

(** One token per queued task; the queue is emptied. *)
Definition sem_signal_all (s : semaphore) : semaphore := Sem (s32 (count s + zlen (waiters s))) [].

(** Inside [sem_wait]: attempts left (the fast path and 256 spins), the check
    under the lock, and asleep until taken off the queue. *)
Inductive sem_pc := SWait (tries : nat) | SSlow | SAsleep.

Definition SEM_TRIES : nat := 257.

(** One step of [sem_wait] by thread [tid]; [None] in the first component when
    it returns, no step while the thread is queued. *)
Definition sem_wait_step (tid : nat) (p : sem_pc) (s : semaphore) : option (option sem_pc * semaphore) :=
  match p with
  | SWait tries =>
      let '(ok, s') := sem_try_acquire s in
      if ok : bool then Some (None, s')
      else match tries with S (S n) => Some (Some (SWait (S n)), s) | _ => Some (Some SSlow, s) end
  | SSlow =>
      if 0 <? count s then Some (None, Sem (count s - 1) (waiters s))
      else Some (Some SAsleep, Sem (count s) (waiters s ++ [tid]))
  | SAsleep =>
      if decide (tid ∈ waiters s) then None
      else
        let '(ok, s') := sem_try_acquire s in
        if ok : bool then Some (None, s') else Some (Some SSlow, s)
  end.

(** ** Threads that use one semaphore *)

Inductive sem_call := CallWait | CallTry | CallSignal | CallSignalAll.

(** [acquired] counts the tokens handed out, [issued] the initial tokens and
    the signals. *)
Record sem_system := SemSystem {
  sem : semaphore; sem_threads : list (option sem_pc); acquired : Z; issued : Z }.

Definition sem_initial (init_count : Z) (n : nat) : sem_system :=
  SemSystem (sem_init init_count) (replicate n None) 0 init_count.

Definition sem_exec (c : nat * sem_call) (s : sem_system) : option sem_system :=
  match sem_threads s !! c.1 with
  | None => None
  | Some (Some p) =>
      match sem_wait_step c.1 p (sem s) with
      | Some (p', m) =>
          Some (SemSystem m (<[c.1 := p']> (sem_threads s))
                  (acquired s + match p' with Some _ => 0 | None => 1 end) (issued s))
      | None => None
      end
  | Some None =>
      match c.2 with
      | CallWait => Some (SemSystem (sem s) (<[c.1 := Some (SWait SEM_TRIES)]> (sem_threads s)) (acquired s) (issued s))
      | CallTry =>
          let '(ok, m) := sem_try_acquire (sem s) in
          Some (SemSystem m (sem_threads s) (acquired s + b2z ok) (issued s))
      | CallSignal => Some (SemSystem (sem_signal (sem s)) (sem_threads s) (acquired s) (issued s + 1))
      | CallSignalAll =>
          Some (SemSystem (sem_signal_all (sem s)) (sem_threads s) (acquired s) (issued s + zlen (waiters (sem s))))
      end
  end.

Definition sem_step : sem_system → sem_system → Prop := exec_step sem_exec.

(** ** The invariant *)

Definition asleep (t : option sem_pc) : bool := match t with Some SAsleep => true | _ => false end.
Definition on_slow_path (t : option sem_pc) : bool := match t with Some SSlow => true | _ => false end.

(** Threads asleep, still queued or not, and threads about to check under the lock. *)
Abbreviation sleepers l := (tally (λ t, b2z (asleep t)) l).
Abbreviation checkers l := (tally (λ t, b2z (on_slow_path t)) l).

(** Queued threads sleep, each is queued once, and a token that is free while
    somebody is queued has a thread awake that will try to take it. *)
Record sem_inv (s : sem_system) : Prop := SemInv {
  sem_nodup : NoDup (waiters (sem s));
  sem_queued : ∀ i, i ∈ waiters (sem s) → sem_threads s !! i = Some (Some SAsleep);
  sem_awake : waiters (sem s) ≠ [] →
    count (sem s) ≤ sleepers (sem_threads s) - zlen (waiters (sem s)) + checkers (sem_threads s);
  sem_tokens : acquired s + count (sem s) ≤ issued s;
  sem_range : -2147483648 ≤ count (sem s) < 2147483648 }.

Lemma s32_range z : -2147483648 ≤ s32 z < 2147483648.
Proof. unfold s32. pose proof (u32_range z). case_if; lia. Qed.

Lemma s32_le z : -2147483648 ≤ z → s32 z ≤ z.
Proof. intros Hz. unfold s32, u32. case_if; Z.to_euclidean_division_equations; lia. Qed.

Lemma sleepers_ge s : sem_inv s → zlen (waiters (sem s)) ≤ sleepers (sem_threads s) ∧ 0 ≤ checkers (sem_threads s).
Proof.
  intros [Hnd Hq _ _ _]. split; [|apply tally_nonneg; by intros [[]|]].
  apply (tally_ge_NoDup asleep); [done|]. intros i Hi. exists (Some SAsleep). auto.
Qed.

Lemma sem_inv_initial c n : -2147483648 ≤ c < 2147483648 → sem_inv (sem_initial c n).
Proof. intros Hc. split; simpl; first [done | apply NoDup_nil_2 | lia | set_solver]. Qed.

(** A step of [sem_wait]. *)
Lemma wait_step_inv s i p p' m :
  sem_inv s → sem_threads s !! i = Some (Some p) → sem_wait_step i p (sem s) = Some (p', m) →
  sem_inv (SemSystem m (<[i := p']> (sem_threads s)) (acquired s + match p' with Some _ => 0 | None => 1 end) (issued s)).
Proof.
  intros Hinv Hi Hst. destruct (sleepers_ge s Hinv) as [Hsl Hch]. destruct Hinv as [Hnd Hq Haw Htok Hrg].
  pose proof (tally_le (λ t, b2z (asleep t)) _ _ _ ltac:(by intros [[]|]) Hi) as Hle1.
  pose proof (tally_le (λ t, b2z (on_slow_path t)) _ _ _ ltac:(by intros [[]|]) Hi) as Hle2.
  assert (p ≠ SAsleep → i ∉ waiters (sem s)) as Hni.
  { intros Hne Hin. apply Hq in Hin. congruence. }
  assert (∀ q, i ∉ waiters (sem s) → ∀ j, j ∈ waiters (sem s) → <[i := q]> (sem_threads s) !! j = Some (Some SAsleep)) as Hkeep.
  { intros q Hn j Hj. rewrite list_lookup_insert_ne by congruence. auto. }
  unfold sem_wait_step, sem_try_acquire in Hst.
  destruct p; repeat case_match; simplify_eq; bool_simpl; (split; simpl; tally_step; simpl in *; try lia; try done;
    try (by apply Hkeep; auto); try (intros Hne; specialize (Haw Hne); lia)).
  - apply NoDup_app. split_and!; [done|set_solver|apply NoDup_singleton].
  - intros j [Hj| ->%list_elem_of_singleton]%elem_of_app; [by apply Hkeep; auto|].
    apply list_lookup_insert_eq. by eapply lookup_lt_Some.
  - intros _. rewrite length_app. simpl. lia.
Qed.

Lemma sem_inv_step s s' : sem_inv s → sem_step s s' → sem_inv s'.
Proof.
  intros Hinv [[i c] Hc]. unfold sem_exec in Hc. simpl in Hc.
  destruct (sem_threads s !! i) as [[p|]|] eqn:Hi; [|destruct (sleepers_ge s Hinv) as [Hsl Hch]|done].
  { destruct (sem_wait_step i p (sem s)) as [[p' m]|] eqn:Hst; [|done]. injection Hc as <-. by eapply wait_step_inv. }
  destruct (Hinv) as [Hnd Hq Haw Htok Hrg]. destruct c; [| | |].
  - injection Hc as <-. split; simpl; tally_step; simpl; try done; [|intros Hne; specialize (Haw Hne); lia].
    intros j Hj. rewrite list_lookup_insert_ne; [auto|]. intros ->. apply Hq in Hj. congruence.
  - unfold sem_try_acquire in Hc. repeat case_match; simplify_eq; bool_simpl; split; simpl; try done; try lia.
    intros Hne. specialize (Haw Hne). lia.
  - injection Hc as <-. pose proof (s32_le (count (sem s) + 1)). pose proof (s32_range (count (sem s) + 1)).
    unfold sem_signal. destruct (waiters (sem s)) as [|w ws]; split; simpl in *; try done; try lia; try set_solver.
    + by apply NoDup_cons in Hnd as [_ ?].
    + intros _. specialize (Haw ltac:(done)). lia.
  - injection Hc as <-. pose proof (s32_le (count (sem s) + zlen (waiters (sem s)))).
    pose proof (s32_range (count (sem s) + zlen (waiters (sem s)))).
    split; simpl; first [done | lia | apply NoDup_nil_2 | set_solver].
Qed.

Lemma sem_reachable c n s : -2147483648 ≤ c < 2147483648 → rtc sem_step (sem_initial c n) s → sem_inv s.
Proof. intros Hc. apply (invariant_rtc sem_step sem_inv); [apply sem_inv_step|by apply sem_inv_initial]. Qed.

(** Tokens are neither invented nor handed out twice: in every
    interleaving, the tokens taken plus those left never exceed the initial
    count plus the signals, even when the [int] counter wraps around. *)
Theorem sem_tokens_conserved c n s :
  -2147483648 ≤ c < 2147483648 → rtc sem_step (sem_initial c n) s → acquired s + count (sem s) ≤ issued s.
Proof. intros Hc Hr. apply (sem_reachable c n s Hc Hr). Qed.


(** Threads 0 and 1 fall asleep on an empty semaphore, thread 2 signals: a
    token is free, thread 1 is queued and thread 0 is on its way. *)
Definition two_sleepers : list (nat * sem_call) :=
  replicate 259 (0%nat, CallWait) ++ replicate 259 (1%nat, CallWait) ++ [(2%nat, CallSignal)].

Lemma two_sleepers_run : ∃ s, rtc sem_step (sem_initial 0 3) s ∧ sem s = Sem 1 [1%nat].
Proof. apply (run_reaches sem_exec sem two_sleepers). vm_compute. reflexivity. Qed.

Lemma sem_tokens_conserved_witness : ∃ s, sem s = Sem 1 [1%nat] ∧ acquired s + count (sem s) ≤ issued s.
Proof.
  destruct two_sleepers_run as (s & Hr & Hs). exists s. split; [done|].
  apply (sem_tokens_conserved 0 3 s); [lia|done].
Defined.

