(* ===== verification/Spinlock.v ===== *)
(** * The queue spinlock: [src/src/kernel/locking/spinlock.c], [spinlock.h]

    Locks are words with the locked byte and the tail of the queue of waiting
    contexts; queue nodes are per CPU and nesting level and shared by all locks.
    A CPU runs the context on top of its stack; an interrupt puts another one on
    top, which runs to its end before the one below goes on.  Every step is one
    atomic access to shared memory. *)

From stdpp Require Import functions.
From S2P Require Import Prelude Conc.

Definition QNODE_DEPTH : nat := 4.
Definition MAX_CPUS : nat := 32.
Definition SPINLOCK_LOCKED_VAL : Z := 1.

(** A node is [g_qnodes[cpu][idx]]. *)
Definition slot : Type := nat * nat.

Record qnode := QNode { next : option slot; node_locked : bool }.

Definition encode_tail (cpu idx : Z) : Z :=
  let cpu_part := u32 (cpu + 1) in
  let tail_16 := Z.lor cpu_part (Z.shiftl idx 14) in
  u32 (Z.shiftl tail_16 16).

(** [None] is the panic. *)
Definition decode_tail (val : Z) : option slot :=
  let tail_16 := Z.shiftr val 16 in
  let cpu := u32 (Z.land tail_16 16383 - 1) in
  let idx := Z.shiftr tail_16 14 in
  if (Z.of_nat MAX_CPUS <=? cpu) || (Z.of_nat QNODE_DEPTH <=? idx) then None else Some (Z.to_nat cpu, Z.to_nat idx).

(** The [locked] byte of the union. *)
Definition locked_byte (val : Z) : Z := Z.land val 255.
Definition store_locked (b val : Z) : Z := Z.lor (Z.land val (u32 (Z.lnot 255))) b.

(** Where a context is in [spinlock_acquire_slowpath], after the node is taken. *)
Inductive slow_pc :=
| PNext | PLocked | PRead | PCas (old_val : Z) | PLink (prev_tail : Z) | PSpin | PByte | PGrab | PWrite
| PWaitNext | PHand (nx : slot) | PDec.

#[global] Instance slow_pc_eq_dec : EqDecision slow_pc.
Proof. solve_decision. Defined.

Inductive spin_pc :=
| FRun
| FCas (l : nat)
| FInc (l : nat)
| FSlow (l i : nat) (p : slow_pc)
| FPanic.

(** A context with the locks it holds. *)
Record frame := Frame { held : list nat; pc : spin_pc }.

Record spin_system := SpinSystem {
  word : nat → Z; nodes : slot → qnode; qnode_idx : nat → Z; stacks : list (list frame) }.

(** ** One access *)

Definition set_next (nx : option slot) (n : qnode) : qnode := QNode nx (node_locked n).
Definition set_node_locked (b : bool) (n : qnode) : qnode := QNode (next n) b.

(** The step of the context on CPU [c] with node [i] for lock [l]: the next point,
    the word, the nodes. *)
Definition slow_step (c i : nat) (p : slow_pc) (val : Z) (nd : slot → qnode) : option (option slow_pc * Z * (slot → qnode)) :=
  let node := (c, i) in
  let tail := encode_tail (Z.of_nat c) (Z.of_nat i) in
  match p with
  | PNext => Some (Some PLocked, val, <[node := set_next None (nd node)]> nd)
  | PLocked => Some (Some PRead, val, <[node := set_node_locked true (nd node)]> nd)
  | PRead => Some (Some (PCas val), val, nd)
  | PCas old_val =>
      let new_val := Z.lor (Z.land old_val 65535) tail in
      if val =? old_val then
        let prev_tail := Z.land old_val 4294901760 in
        Some (Some (if prev_tail =? 0 then PByte else PLink prev_tail), new_val, nd)
      else Some (Some (PCas val), val, nd)
  | PLink prev_tail =>
      match decode_tail prev_tail with
      | None => Some (None, val, nd)
      | Some prev => Some (Some PSpin, val, <[prev := set_next (Some node) (nd prev)]> nd)
      end
  | PSpin => Some (Some (if node_locked (nd node) then PSpin else PByte), val, nd)
  | PByte => Some (Some (if negb (locked_byte val =? 0) then PByte else PGrab), val, nd)
  | PGrab =>
      if val =? tail then Some (Some PDec, SPINLOCK_LOCKED_VAL, nd) else Some (Some PWrite, val, nd)
  | PWrite => Some (Some PWaitNext, store_locked 1 val, nd)
  | PWaitNext => Some (Some (match next (nd node) with None => PWaitNext | Some nx => PHand nx end), val, nd)
  | PHand nx => Some (Some PDec, val, <[nx := set_node_locked false (nd nx)]> nd)
  | PDec => None
  end.

(** What a CPU does: go on with the context on top, or let it call
    [spinlock_acquire], [spinlock_try_acquire] or [spinlock_release], take an
    interrupt (up to the nesting the kernel allows), return from one. *)
Inductive spin_act := ARun | AAcquire (l : nat) | ATry (l : nat) | ARelease (l : nat) | AInterrupt | AReturn.

Definition with_top (c : nat) (st : list frame) (s : spin_system) : spin_system :=
  SpinSystem (word s) (nodes s) (qnode_idx s) (<[c := st]> (stacks s)).

Definition spinlock_acquire (l : nat) (h : list nat) (val : Z) : frame * Z :=
  if val =? 0 then (Frame (l :: h) FRun, SPINLOCK_LOCKED_VAL) else (Frame h (FInc l), val).

Definition spinlock_try_acquire (l : nat) (h : list nat) (val : Z) : frame * Z :=
  if val =? 0 then (Frame (l :: h) FRun, SPINLOCK_LOCKED_VAL) else (Frame h FRun, val).

Definition spinlock_release (val : Z) : Z := store_locked 0 val.

Definition spinlock_acquire_slowpath (c : nat) (f : frame) (rest : list frame) (s : spin_system) : option spin_system :=
  match pc f with
  | FInc l =>
      let idx := qnode_idx s c in
      let p := if (Z.of_nat MAX_CPUS <=? Z.of_nat c) || (Z.of_nat QNODE_DEPTH <=? idx) then FPanic else FSlow l (Z.to_nat idx) PNext in
      Some (SpinSystem (word s) (nodes s) (<[c := u32 (idx + 1)]> (qnode_idx s)) (<[c := Frame (held f) p :: rest]> (stacks s)))
  | FSlow l _ PDec =>
      Some (SpinSystem (word s) (nodes s) (<[c := u32 (qnode_idx s c - 1)]> (qnode_idx s))
                       (<[c := Frame (l :: held f) FRun :: rest]> (stacks s)))
  | FSlow l i p =>
      match slow_step c i p (word s l) (nodes s) with
      | Some (p', val, nd) =>
          let p' := match p' with Some p' => FSlow l i p' | None => FPanic end in
          Some (SpinSystem (<[l := val]> (word s)) nd (qnode_idx s) (<[c := Frame (held f) p' :: rest]> (stacks s)))
      | None => None
      end
  | _ => None
  end.

Definition remove_lock (l : nat) (h : list nat) : list nat := filter (λ k, k ≠ l) h.

Definition spin_exec (lab : nat * spin_act) (s : spin_system) : option spin_system :=
  let '(c, a) := lab in
  match stacks s !! c with
  | None => None
  | Some st =>
      match a, st with
      | AInterrupt, _ => if (length st <? QNODE_DEPTH)%nat then Some (with_top c (Frame [] FRun :: st) s) else None
      | AReturn, Frame [] FRun :: rest => Some (with_top c rest s)
      | AAcquire l, Frame h FRun :: rest => Some (with_top c (Frame h (FCas l) :: rest) s)
      | ARun, Frame h (FCas l) :: rest =>
          let '(f, val) := spinlock_acquire l h (word s l) in
          Some (SpinSystem (<[l := val]> (word s)) (nodes s) (qnode_idx s) (<[c := f :: rest]> (stacks s)))
      | ATry l, Frame h FRun :: rest =>
          let '(f, val) := spinlock_try_acquire l h (word s l) in
          Some (SpinSystem (<[l := val]> (word s)) (nodes s) (qnode_idx s) (<[c := f :: rest]> (stacks s)))
      | ARelease l, Frame h FRun :: rest =>
          if decide (l ∈ h) then
            Some (SpinSystem (<[l := spinlock_release (word s l)]> (word s)) (nodes s) (qnode_idx s)
                             (<[c := Frame (remove_lock l h) FRun :: rest]> (stacks s)))
          else None
      | ARun, f :: rest => spinlock_acquire_slowpath c f rest s
      | _, _ => None
      end
  end.

Definition spin_step : spin_system → spin_system → Prop := exec_step spin_exec.

(** [ncpu] processors, all locks as [spinlock_init] leaves them. *)
Definition spin_initial (ncpu : nat) : spin_system :=
  SpinSystem (λ _, 0) (λ _, QNode None false) (λ _, 0) (replicate ncpu []).

(** ** The word *)

(** The tail part of the word for a slot. *)
Definition tail_word (s : slot) : Z := encode_tail (Z.of_nat s.1) (Z.of_nat s.2).

Definition slot_ok (s : slot) : Prop := (s.1 < MAX_CPUS)%nat ∧ (s.2 < QNODE_DEPTH)%nat.

Lemma tail_word_facts s :
  slot_ok s → decode_tail (tail_word s) = Some s ∧ 0 < tail_word s < 4294967296 ∧ tail_word s `mod` 65536 = 0.
Proof.
  assert (forallb (λ c, forallb (λ i,
    bool_decide (decode_tail (tail_word (c, i)) = Some (c, i)) && (0 <? tail_word (c, i)) && (tail_word (c, i) <? 4294967296)
    && (tail_word (c, i) `mod` 65536 =? 0)) (seq 0 QNODE_DEPTH)) (seq 0 MAX_CPUS) = true) as H by (by vm_compute).
  destruct s as [c i]. intros [Hc Hi]. simpl in Hc, Hi. rewrite forallb_forall in H.
  assert (In c (seq 0 MAX_CPUS)) as Hc' by (apply in_seq; lia). assert (In i (seq 0 QNODE_DEPTH)) as Hi' by (apply in_seq; lia).
  specialize (H c Hc'). rewrite forallb_forall in H. specialize (H i Hi').
  apply andb_true_iff in H as [H H4]. apply andb_true_iff in H as [H H3]. apply andb_true_iff in H as [H1 H2].
  apply bool_decide_eq_true in H1. bool_simpl. done.
Qed.

(** A tail is zero or a tail word. *)
Definition tail_part (t : Z) : Prop := 0 ≤ t < 4294967296 ∧ t `mod` 65536 = 0.

Lemma land_high_bits x n : 0 ≤ n ≤ 32 → 0 ≤ x < 4294967296 → Z.land x (2 ^ 32 - 2 ^ n) = x / 2 ^ n * 2 ^ n.
Proof.
  intros Hn Hx. assert (2 ^ 32 - 2 ^ n = Z.ldiff (Z.ones 32) (Z.ones n)) as ->.
  { rewrite Z.ldiff_ones_r, Z.shiftr_div_pow2, Z.shiftl_mul_pow2, Z.ones_equiv by lia. pose proof (Z.pow_pos_nonneg 2 n).
    replace (Z.pred (2 ^ 32)) with ((2 ^ n - 1) + (2 ^ (32 - n) - 1) * 2 ^ n).
    - rewrite Z.div_add, Z.div_small by lia. rewrite Z.mul_add_distr_r, Z.mul_sub_distr_r, <- Z.pow_add_r by lia.
      replace (32 - n + n) with 32 by lia. lia.
    - rewrite Z.mul_sub_distr_r, <- Z.pow_add_r by lia. replace (32 - n + n) with 32 by lia. lia. }
  rewrite Z.ldiff_land, Z.land_assoc, Z.land_ones, Z.mod_small, <- Z.ldiff_land by (change (2 ^ 32) with 4294967296; lia).
  by rewrite Z.ldiff_ones_r, Z.shiftr_div_pow2, Z.shiftl_mul_pow2 by lia.
Qed.

Lemma lor_low_half t b : t `mod` 65536 = 0 → 0 ≤ b < 65536 → Z.lor t b = t + b.
Proof.
  intros Ht Hb. symmetry. apply Z.add_nocarry_lor.
  rewrite <- (Z.mod_small b 65536) by done. change 65536 with (2 ^ 16) in *. rewrite <- Z.land_ones by lia.
  rewrite (Z.land_comm b), Z.land_assoc, Z.land_ones, Ht by lia. done.
Qed.

Lemma word_parts t b :
  tail_part t → 0 ≤ b ≤ 1 →
  Z.land (t + b) 65535 = b ∧ Z.land (t + b) 4294901760 = t ∧ locked_byte (t + b) = b ∧
  store_locked 1 (t + b) = t + 1 ∧ store_locked 0 (t + b) = t.
Proof.
  intros [Ht Hm] Hb. unfold locked_byte, store_locked. change (u32 (Z.lnot 255)) with (2 ^ 32 - 2 ^ 8).
  change 4294901760 with (2 ^ 32 - 2 ^ 16). change 65535 with (Z.ones 16). change 255 with (Z.ones 8).
  assert (∀ n, n = 8 ∨ n = 16 → t `mod` 2 ^ n = 0 ∧ t + b < 4294967296 ∧ (t + b) `mod` 2 ^ n = b ∧ (t + b) / 2 ^ n * 2 ^ n = t) as H.
  { intros n [->| ->]; [change (2 ^ 8) with 256|change (2 ^ 16) with 65536]; Z.to_euclidean_division_equations; lia. }
  destruct (H 8 ltac:(auto)) as (H1 & Hlt & H2 & H3), (H 16 ltac:(auto)) as (H4 & _ & H5 & H6).
  rewrite !Z.land_ones, !land_high_bits by lia. rewrite H2, H3, H5, H6. split_and!; try done; [by rewrite lor_low_half|apply Z.lor_0_r].
Qed.

(** ** The queue of a lock

    The queue lists the slots of the contexts that wait, the head first.  It is
    not in memory; what is there is its last element in the word, a link from
    each element to the next one once that has stored it, and the flag on which
    all but the head spin. *)

(** Which lock the context with the given node acquires, and where it is. *)
Notation view := (slot → option (nat * slow_pc)).

Definition queued (p : slow_pc) : bool :=
  match p with PLink _ | PSpin | PByte | PGrab | PWrite | PWaitNext | PHand _ => true | _ => false end.

(** The context has set the locked byte. *)
Definition owns_byte (p : slow_pc) : bool := match p with PWaitNext | PHand _ | PDec => true | _ => false end.

Definition tail_of (Q : list slot) : Z := match last Q with Some s => tail_word s | None => 0 end.

Section Queue.
Context (l : nat) (vw : view) (nd : slot → qnode).

(** The elements behind [a]. *)
Fixpoint chain (a : slot) (Q : list slot) : Prop :=
  match Q with
  | [] => next (nd a) = None
  | b :: Q =>
      node_locked (nd b) = true ∧
      ((∃ t, vw b = Some (l, PLink t) ∧ decode_tail t = Some a ∧ next (nd a) = None) ∨
       (vw b = Some (l, PSpin) ∧ next (nd a) = Some b)) ∧ chain b Q
  end.

Definition head_ok (hold : Z) (a : slot) (Q : list slot) : Prop :=
  ∃ p, vw a = Some (l, p) ∧
  match p with
  | PSpin => node_locked (nd a) = false
  | PByte => True
  | PGrab => hold = 0
  | PWrite => hold = 0 ∧ Q ≠ []
  | PWaitNext => Q ≠ []
  | PHand nx => ∃ Q', Q = nx :: Q' ∧ vw nx = Some (l, PSpin)
  | _ => False
  end.

Record lock_inv (w hold : Z) (Q : list slot) : Prop := LockInv {
  li_nodup : NoDup Q;
  li_mem : ∀ s, s ∈ Q ↔ ∃ p, vw s = Some (l, p) ∧ queued p = true;
  li_slots : Forall slot_ok Q;
  li_hold : 0 ≤ hold ≤ 1;
  li_word : w = tail_of Q + hold;
  li_queue : match Q with [] => True | a :: Q' => head_ok hold a Q' ∧ chain a Q' end }.

Lemma chain_mem a Q b :
  chain a Q → b ∈ Q → node_locked (nd b) = true ∧ ((∃ t, vw b = Some (l, PLink t)) ∨ vw b = Some (l, PSpin)).
Proof.
  revert a. induction Q as [|c Q IH]; intros a Hc Hb; [by apply not_elem_of_nil in Hb|].
  destruct Hc as (Hl & Hd & Hc). apply elem_of_cons in Hb as [->|Hb]; [|by eapply IH]. split; [done|].
  destruct Hd as [(t & ? & _)|[? _]]; eauto.
Qed.

(** A context that is not waiting for its predecessor is the head. *)
Lemma queue_head w hold Q s p :
  lock_inv w hold Q → vw s = Some (l, p) → queued p = true →
  match p with PLink _ => False | PSpin => node_locked (nd s) = false | _ => True end →
  ∃ Q', Q = s :: Q' ∧ head_ok hold s Q' ∧ chain s Q'.
Proof.
  intros [_ Hm _ _ _ Hq] Hs Hp Hn. assert (s ∈ Q) as Hin by (apply Hm; eauto). destruct Q as [|a Q]; [by apply not_elem_of_nil in Hin|].
  apply elem_of_cons in Hin as [->|Hin]; [by exists Q|]. exfalso. destruct Hq as [_ Hc].
  destruct (chain_mem a Q s Hc Hin) as [Hl [[t Ht]|Ht]]; rewrite Hs in Ht; injection Ht as ->; [done|congruence].
Qed.

Lemma tail_of_part Q : Forall slot_ok Q → tail_part (tail_of Q) ∧ (tail_of Q = 0 → Q = []).
Proof.
  intros HQ. unfold tail_of. destruct (last Q) as [s|] eqn:E.
  - assert (slot_ok s) as Hs by (eapply Forall_forall; [exact HQ|by apply last_Some_elem_of]).
    destruct (tail_word_facts s Hs) as (_ & ? & ?). split; [split; lia|]. lia.
  - apply last_None in E. split; [split; [lia|done]|done].
Qed.

Lemma last_tail_word Q s : Forall slot_ok Q → slot_ok s → tail_of Q = tail_word s → last Q = Some s.
Proof.
  intros HQ Hs. unfold tail_of. destruct (last Q) as [t|] eqn:E; intros Ht.
  - assert (slot_ok t) as Hok by (eapply Forall_forall; [exact HQ|by apply last_Some_elem_of]).
    destruct (tail_word_facts s Hs) as (Hd & _), (tail_word_facts t Hok) as (Hd' & _). congruence.
  - destruct (tail_word_facts s Hs) as (_ & ? & _). lia.
Qed.
End Queue.

Section QueueSteps.
Context (l : nat) (vw vw' : view) (nd nd' : slot → qnode).

Lemma chain_ext a Q :
  (∀ b, b ∈ Q → vw' b = vw b) → (∀ b, b ∈ a :: Q → next (nd' b) = next (nd b)) →
  (∀ b, b ∈ Q → node_locked (nd' b) = node_locked (nd b)) → chain l vw nd a Q → chain l vw' nd' a Q.
Proof.
  revert a. induction Q as [|b Q IH]; intros a Hv Hn Hl; simpl; [rewrite Hn; [done|by left]|].
  intros (H1 & H2 & H3). rewrite Hv, Hn, Hl by (by left || by left). split_and!; [done|done|].
  apply IH; [intros; apply Hv; by right|intros; apply Hn; by right|intros; apply Hl; by right|done].
Qed.

(** Steps for other locks, or outside of the queue, do not matter. *)
Lemma lock_inv_frame w hold Q :
  lock_inv l vw nd w hold Q →
  (∀ s p, vw s = Some (l, p) → queued p = true → vw' s = vw s ∧ nd' s = nd s) →
  (∀ s p, vw' s = Some (l, p) → queued p = true → vw s = Some (l, p)) →
  lock_inv l vw' nd' w hold Q.
Proof.
  intros [Hnd Hm Hs Hh Hw Hq] H1 H2.
  assert (∀ s, s ∈ Q → vw' s = vw s ∧ nd' s = nd s) as HQ by (intros s (p & Hp & Hqp)%Hm; eauto).
  split; try done.
  - intros s. rewrite Hm. split; intros (p & Hp & Hqp).
    + destruct (H1 s p Hp Hqp) as [E _]. exists p. by rewrite E.
    + exists p. eauto.
  - destruct Q as [|a Q]; [done|]. destruct Hq as [(p & Ha & Hp) Hc]. destruct (HQ a (list_elem_of_here _ _)) as [Eva Ena]. split.
    + exists p. rewrite Eva, Ena. split; [done|]. destruct p; try done. destruct Hp as (Q' & -> & Hv). exists Q'. split; [done|].
      rewrite (proj1 (HQ nx ltac:(right; left))). done.
    + refine (chain_ext a Q _ _ _ Hc); intros b Hb; destruct (HQ b) as [? ?]; try (by right); congruence.
Qed.
End QueueSteps.

(** *** The steps of a context with node [s] *)

Section Transitions.
Context (l : nat) (vw : view) (nd : slot → qnode) (w hold : Z) (Q : list slot) (s : slot).
Context (Hinv : lock_inv l vw nd w hold Q).

Lemma vw_ne p b : b ≠ s → <[s := p]> vw b = vw b.
Proof. intros Hb. by rewrite fn_lookup_insert_ne. Qed.

Lemma mem_keep p p' :
  vw s = Some (l, p) → queued p = queued p' →
  ∀ t, t ∈ Q ↔ ∃ x, <[s := Some (l, p')]> vw t = Some (l, x) ∧ queued x = true.
Proof.
  intros Hs Hp t. rewrite (li_mem _ _ _ _ _ _ Hinv). destruct (decide (t = s)) as [->|Hne]; [|by rewrite vw_ne].
  rewrite fn_lookup_insert, Hs. split; intros (x & [= <-] & Hx); eexists; (split; [done|]); congruence.
Qed.

(** A step of the head that changes neither the queue nor the nodes. *)
Lemma head_moves p p' w' hold' :
  vw s = Some (l, p) → queued p = true → queued p' = true →
  match p with PLink _ => False | PSpin => node_locked (nd s) = false | _ => True end →
  0 ≤ hold' ≤ 1 → w' = tail_of Q + hold' →
  (∀ Q', Q = s :: Q' → head_ok l vw nd hold s Q' → chain l vw nd s Q' → head_ok l (<[s := Some (l, p')]> vw) nd hold' s Q') →
  lock_inv l (<[s := Some (l, p')]> vw) nd w' hold' Q.
Proof.
  intros Hs Hp Hp' Hn Hh Hw Hhead. destruct (queue_head l vw nd w hold Q s p Hinv Hs Hp Hn) as (Q' & HQ & Hho & Hc).
  destruct Hinv as [Hnd _ Hsl _ _ _]. split; try done.
  - apply (mem_keep p); [done|congruence].
  - rewrite HQ. rewrite HQ in Hnd. apply NoDup_cons in Hnd as [Hns _]. split; [by apply Hhead|].
    refine (chain_ext l vw _ nd nd s Q' _ _ _ Hc); [|done|done]. intros b Hb. apply vw_ne. by intros ->.
Qed.

Lemma vw_at p' : <[s := Some (l, p')]> vw s = Some (l, p').
Proof. by rewrite fn_lookup_insert. Qed.

Lemma spin_done : vw s = Some (l, PSpin) → node_locked (nd s) = false → lock_inv l (<[s := Some (l, PByte)]> vw) nd w hold Q.
Proof.
  intros Hs Hl. apply (head_moves PSpin); try done; [apply Hinv|apply Hinv|]. intros Q' _ _ _. exists PByte. by rewrite vw_at.
Qed.

Lemma byte_seen : vw s = Some (l, PByte) → locked_byte w = 0 → lock_inv l (<[s := Some (l, PGrab)]> vw) nd w hold Q.
Proof.
  intros Hs Hb. pose proof Hinv as [_ _ Hsl Hh Hw _]. destruct (tail_of_part Q Hsl) as [Ht _].
  destruct (word_parts _ _ Ht Hh) as (_ & _ & Hby & _). rewrite <- Hw, Hb in Hby.
  apply (head_moves PByte); try done. intros Q' _ _ _. exists PGrab. by rewrite vw_at.
Qed.

Lemma grab_fails :
  vw s = Some (l, PGrab) → slot_ok s → w ≠ tail_word s → lock_inv l (<[s := Some (l, PWrite)]> vw) nd w hold Q.
Proof.
  intros Hs Hok Hne. apply (head_moves PGrab); try done; [apply Hinv|apply Hinv|].
  intros Q' HQ (p & Hp & Hhd) _. rewrite Hs in Hp. injection Hp as <-. exists PWrite. rewrite vw_at. split; [done|]. split; [done|].
  intros ->. apply Hne. rewrite (li_word _ _ _ _ _ _ Hinv), HQ, Hhd. unfold tail_of. simpl. lia.
Qed.

Lemma write_locked :
  vw s = Some (l, PWrite) → hold = 0 ∧ lock_inv l (<[s := Some (l, PWaitNext)]> vw) nd (store_locked 1 w) 1 Q.
Proof.
  intros Hs. destruct (queue_head l vw nd w hold Q s PWrite Hinv Hs ltac:(done) ltac:(done)) as (Q1 & HQ & (p & Hp & Hhd) & _).
  rewrite Hs in Hp. injection Hp as <-. destruct Hhd as [H0 Hn]. split; [done|].
  pose proof Hinv as [_ _ Hsl Hh Hw _]. destruct (tail_of_part Q Hsl) as [Ht _].
  destruct (word_parts _ _ Ht Hh) as (_ & _ & _ & Hst & _).
  apply (head_moves PWrite); try done; [rewrite Hw, Hst; lia|]. intros Q' HQ' _ _. exists PWaitNext. rewrite vw_at. split; [done|]. congruence.
Qed.

Lemma next_seen nx :
  vw s = Some (l, PWaitNext) → next (nd s) = Some nx → lock_inv l (<[s := Some (l, PHand nx)]> vw) nd w hold Q.
Proof.
  intros Hs Hn. apply (head_moves PWaitNext); try done; [apply Hinv|apply Hinv|]. intros Q' HQ _ Hc. exists (PHand nx). rewrite vw_at. split; [done|].
  destruct Q' as [|b Q']; simpl in Hc; [congruence|]. destruct Hc as (_ & [(t & _ & _ & ?)|[Hb Hnb]] & _); [congruence|].
  assert (b = nx) as -> by congruence. exists Q'. split; [done|]. rewrite vw_ne; [done|]. intros ->. congruence.
Qed.

(** The exchange of the tail puts the context at the end of the queue. *)
Lemma chain_snoc vw' a Q' t z :
  chain l vw nd a Q' → (∀ b, b ∈ Q' → vw' b = vw b) → vw' s = Some (l, PLink t) →
  last (a :: Q') = Some z → decode_tail t = Some z → next (nd s) = None → node_locked (nd s) = true →
  chain l vw' nd a (Q' ++ [s]).
Proof.
  intros Hc Hv Hs Hl Hd Hn Hk. revert a Hc Hl. induction Q' as [|b Q' IH]; intros a Hc Hl; simpl in *.
  - split_and!; [done| |done]. left. exists t. split_and!; [done|congruence|done].
  - destruct Hc as (H1 & H2 & H3). rewrite Hv by (by left). split_and!; [done|done|]. apply IH; auto. intros c Hc. apply Hv. by right.
Qed.

Lemma enqueue p :
  vw s = Some (l, p) → queued p = false → slot_ok s → next (nd s) = None → node_locked (nd s) = true →
  let prev := Z.land w 4294901760 in
  lock_inv l (<[s := Some (l, if prev =? 0 then PByte else PLink prev)]> vw) nd (Z.lor (Z.land w 65535) (tail_word s)) hold (Q ++ [s]).
Proof.
  intros Hs Hp Hok Hn Hk. pose proof Hinv as [Hnd Hm Hsl Hh Hw Hq]. destruct (tail_of_part Q Hsl) as [Ht Hz].
  destruct (word_parts _ _ Ht Hh) as (Hlo & Hhi & _). rewrite Hw, Hlo, Hhi. cbv zeta.
  destruct (tail_word_facts s Hok) as (_ & Hsw & Hmod).
  assert (s ∉ Q) as Hns. { intros (x & Hx & Hqx)%Hm. rewrite Hs in Hx. injection Hx as <-. congruence. }
  split; try done.
  - apply NoDup_app. split_and!; [done| |apply NoDup_singleton]. intros x Hx Hxs. apply list_elem_of_singleton in Hxs. by subst x.
  - intros x. rewrite elem_of_app, list_elem_of_singleton. destruct (decide (x = s)) as [->|Hne].
    + rewrite vw_at. split; [|by right]. intros _. eexists. split; [done|]. by destruct (_ =? 0).
    + rewrite vw_ne by done. rewrite Hm. naive_solver.
  - apply Forall_app. split; [done|by apply Forall_singleton].
  - unfold tail_of. rewrite last_snoc. rewrite Z.lor_comm, lor_low_half by lia. done.
  - destruct Q as [|a Q'].
    + simpl. split; [|done]. eexists. rewrite vw_at. by split.
    + destruct (tail_of (a :: Q') =? 0) eqn:E; bool_simpl; [by specialize (Hz E)|]. destruct Hq as [(p' & Hpa & Hhd) Hc].
      apply not_elem_of_cons in Hns as [Hsa HsQ]. simpl. split.
      * exists p'. rewrite vw_ne by done. split; [done|]. destruct p'; try done.
        { destruct Hhd as [? ?]. split; [done|]. by destruct Q'. }
        { by destruct Q'. }
        { destruct Hhd as (Q2 & -> & Hnx). exists (Q2 ++ [s]). split; [done|]. rewrite vw_ne; [done|]. intros ->. apply HsQ. by left. }
      * assert (is_Some (last (a :: Q'))) as [z Hzl] by (rewrite last_cons; destruct (last Q'); by eexists).
        eapply (chain_snoc _ a Q' (tail_of (a :: Q')) z); try done.
        -- intros b Hb. apply vw_ne. by intros ->.
        -- apply vw_at.
        -- unfold tail_of. rewrite Hzl. assert (slot_ok z) as Hzok by (eapply Forall_forall; [exact Hsl|by apply last_Some_elem_of]).
           by destruct (tail_word_facts z Hzok).
Qed.

(** Linking the node of the predecessor. *)
Lemma chain_link a Q' t :
  NoDup (a :: Q') → chain l vw nd a Q' → s ∈ Q' → vw s = Some (l, PLink t) →
  ∃ z, decode_tail t = Some z ∧ z ∈ a :: Q' ∧
    chain l (<[s := Some (l, PSpin)]> vw) (<[z := set_next (Some s) (nd z)]> nd) a Q'.
Proof.
  revert a. induction Q' as [|b Q' IH]; intros a Hnd Hc Hin Hs; [by apply not_elem_of_nil in Hin|].
  apply NoDup_cons in Hnd as [Ha Hnd]. pose proof Hnd as [Hb _]%NoDup_cons. destruct Hc as (Hk & Hd & Hc).
  apply not_elem_of_cons in Ha as [Hab HaQ]. apply elem_of_cons in Hin as [<-|Hin].
  - destruct Hd as [(t' & Ht & Hdec & Hn)|[Ht _]]; [|congruence]. assert (t' = t) as -> by congruence. exists a.
    split_and!; [done|by left|]. simpl. rewrite vw_at, fn_lookup_insert, fn_lookup_insert_ne by done.
    split_and!; [done|by right|]. refine (chain_ext l vw _ nd _ s Q' _ _ _ Hc).
    + intros c Hcin. apply vw_ne. intros ->. done.
    + intros c Hcin. rewrite fn_lookup_insert_ne; [done|]. intros ->. apply elem_of_cons in Hcin as [?|?]; done.
    + intros c Hcin. rewrite fn_lookup_insert_ne; [done|]. intros ->. done.
  - destruct (IH b Hnd Hc Hin Hs) as (z & Hz & Hzin & Hc'). exists z. split_and!; [done|by right|]. simpl.
    assert (b ≠ s) as Hbs by (intros ->; done). rewrite vw_ne by done.
    assert (a ≠ z) as Haz by (intros ->; apply elem_of_cons in Hzin as [?|?]; done). rewrite (fn_lookup_insert_ne _ _ a) by done.
    split_and!; [|done|done]. destruct (decide (z = b)) as [->|?]; [by rewrite fn_lookup_insert|by rewrite fn_lookup_insert_ne].
Qed.

Lemma link_prev t :
  vw s = Some (l, PLink t) →
  ∃ z, decode_tail t = Some z ∧ z ∈ Q ∧
    lock_inv l (<[s := Some (l, PSpin)]> vw) (<[z := set_next (Some s) (nd z)]> nd) w hold Q.
Proof.
  intros Hs. pose proof Hinv as [Hnd Hm Hsl Hh Hw Hq]. assert (s ∈ Q) as Hin by (apply Hm; eauto).
  destruct Q as [|a Q']; [by apply not_elem_of_nil in Hin|]. destruct Hq as [(p & Hpa & Hhd) Hc].
  apply elem_of_cons in Hin as [<-|Hin]; [rewrite Hs in Hpa; injection Hpa as <-; done|].
  destruct (chain_link a Q' t Hnd Hc Hin Hs) as (z & Hz & Hzin & Hc'). exists z. split_and!; [done|done|]. split; try done.
  - intros x. rewrite Hm. destruct (decide (x = s)) as [->|Hne]; [|by rewrite vw_ne].
    rewrite vw_at, Hs. split; intros (y & [= <-] & ?); by eexists.
  - split; [|done]. apply NoDup_cons in Hnd as [Ha _]. assert (a ≠ s) by (by intros ->). exists p. rewrite vw_ne by done. split; [done|].
    destruct p; try done.
    + destruct (decide (z = a)) as [->|?]; [by rewrite fn_lookup_insert|by rewrite fn_lookup_insert_ne].
    + destruct Hhd as (Q2 & -> & Hnx). exists Q2. split; [done|]. rewrite vw_ne; [done|]. intros ->. congruence.
Qed.

Lemma grab_succeeds :
  vw s = Some (l, PGrab) → slot_ok s → w = tail_word s →
  hold = 0 ∧ lock_inv l (<[s := Some (l, PDec)]> vw) nd SPINLOCK_LOCKED_VAL 1 [].
Proof.
  intros Hs Hok Hw. destruct (queue_head l vw nd w hold Q s PGrab Hinv Hs ltac:(done) ltac:(done)) as (Q' & HQ & (p & Hp & Hhd) & _).
  rewrite Hs in Hp. injection Hp as <-. split; [done|]. pose proof Hinv as [Hnd Hm Hsl Hh Hw' _].
  assert (Q' = []) as ->.
  { assert (last Q = Some s) as Hl by (apply last_tail_word; [done|done|lia]). rewrite HQ, last_cons in Hl.
    destruct (last Q') as [z|] eqn:E; [|by apply last_None in E]. injection Hl as ->.
    rewrite HQ in Hnd. apply NoDup_cons in Hnd as [Hn _]. by apply last_Some_elem_of in E. }
  split; try done; [apply NoDup_nil_2|]. intros x. split; [by intros ?%not_elem_of_nil|]. intros (y & Hy & Hqy).
  destruct (decide (x = s)) as [->|Hne]; [rewrite vw_at in Hy; by injection Hy as <-|]. rewrite vw_ne in Hy by done.
  assert (x ∈ Q) as Hx by (apply Hm; eauto). rewrite HQ in Hx. apply elem_of_cons in Hx as [?|?%not_elem_of_nil]; done.
Qed.

Lemma hand_over nx :
  vw s = Some (l, PHand nx) →
  nx ∈ Q ∧ lock_inv l (<[s := Some (l, PDec)]> vw) (<[nx := set_node_locked false (nd nx)]> nd) w hold (tail Q).
Proof.
  intros Hs. destruct (queue_head l vw nd w hold Q s (PHand nx) Hinv Hs ltac:(done) ltac:(done)) as (Q' & HQ & (p & Hp & Hhd) & Hc).
  rewrite Hs in Hp. injection Hp as <-. destruct Hhd as (Q2 & HQ2 & Hnx). subst Q'. pose proof Hinv as [Hnd Hm Hsl Hh Hw _].
  rewrite HQ in *. split; [right; left|]. simpl. apply NoDup_cons in Hnd as [Hns Hnd]. apply Forall_cons in Hsl as [_ Hsl].
  destruct Hc as (_ & _ & Hc). apply NoDup_cons in Hnd as [Hnn Hnd']. split; try done.
  - by apply NoDup_cons.
  - intros x. destruct (decide (x = s)) as [->|Hne].
    + rewrite vw_at. split; [done|]. by intros (y & [= <-] & ?).
    + rewrite vw_ne by done. rewrite <- Hm, !elem_of_cons. tauto.
  - split.
    + exists PSpin. rewrite vw_ne, fn_lookup_insert; [done|]. intros ->. apply Hns. by left.
    + refine (chain_ext l vw _ nd _ nx Q2 _ _ _ Hc).
      * intros b Hb. apply vw_ne. intros ->. apply Hns. by right.
      * intros b Hb. destruct (decide (b = nx)) as [->|?]; [by rewrite fn_lookup_insert|by rewrite fn_lookup_insert_ne].
      * intros b Hb. rewrite fn_lookup_insert_ne; [done|]. by intros ->.
Qed.
End Transitions.

(** ** All locks *)

Definition prepared (vw : view) (nd : slot → qnode) : Prop :=
  ∀ s l p, vw s = Some (l, p) →
    match p with PLocked => next (nd s) = None | PRead | PCas _ => next (nd s) = None ∧ node_locked (nd s) = true | _ => True end.

Section SlowStep.
Context (vw : view) (nd : slot → qnode) (wd : nat → Z) (hold : nat → Z) (Q : nat → list slot) (l : nat) (s : slot) (p : slow_pc).
Context (Hall : ∀ k, lock_inv k vw nd (wd k) (hold k) (Q k)) (Hprep : prepared vw nd).
Context (Hs : vw s = Some (l, p)) (Hok : slot_ok s).

(** What is proved of a step to [p'] that writes [val] and the nodes [nd']. *)
Definition step_ok (p' : slow_pc) (val : Z) (nd' : slot → qnode) : Prop :=
  prepared (<[s := Some (l, p')]> vw) nd' ∧
  ∃ Q', ∀ k, lock_inv k (<[s := Some (l, p')]> vw) nd' (<[l := val]> wd k)
    (if decide (k = l) then hold l + b2z (owns_byte p') - b2z (owns_byte p) else hold k) (Q' k).

(** It is enough to look at the lock itself and the nodes written. *)
Lemma step_intro p' val nd' hold' Ql :
  (∀ t, t ≠ s → nd' t = nd t ∨ t ∈ Q l) →
  match p' with PLocked => next (nd' s) = None | PRead | PCas _ => next (nd' s) = None ∧ node_locked (nd' s) = true | _ => True end →
  hold' = hold l + b2z (owns_byte p') - b2z (owns_byte p) →
  lock_inv l (<[s := Some (l, p')]> vw) nd' val hold' Ql → step_ok p' val nd'.
Proof.
  intros Hnd Hp' -> Hl. split.
  - intros t k x Ht. destruct (decide (t = s)) as [->|Hne]; [rewrite fn_lookup_insert in Ht; by injection Ht as <- <-|].
    rewrite fn_lookup_insert_ne in Ht by done. destruct (Hnd t Hne) as [->|Hin]; [by apply (Hprep t k)|].
    apply (li_mem _ _ _ _ _ _ (Hall l)) in Hin as (y & Hy & Hq). assert (x = y) as -> by congruence. by destruct y.
  - exists (<[l := Ql]> Q). intros k. destruct (decide (k = l)) as [->|Hkl]; [by rewrite !fn_lookup_insert|].
    rewrite !fn_lookup_insert_ne by done. apply (lock_inv_frame k vw _ nd _ _ _ _ (Hall k)).
    + intros t x Ht Hx. assert (t ≠ s) as Hne by (intros ->; congruence). rewrite fn_lookup_insert_ne by done. split; [done|].
      destruct (Hnd t Hne) as [->|Hin]; [done|]. apply (li_mem _ _ _ _ _ _ (Hall l)) in Hin as (y & Hy & _). congruence.
    + intros t x Ht Hx. destruct (decide (t = s)) as [->|Hne]; [rewrite fn_lookup_insert in Ht; congruence|].
      by rewrite fn_lookup_insert_ne in Ht.
Qed.

(** Before the context is in the queue it only writes its own node. *)
Lemma step_outside p' nd' :
  queued p = false → queued p' = false → owns_byte p = owns_byte p' → (∀ t, t ≠ s → nd' t = nd t) →
  match p' with PLocked => next (nd' s) = None | PRead | PCas _ => next (nd' s) = None ∧ node_locked (nd' s) = true | _ => True end →
  step_ok p' (wd l) nd'.
Proof.
  intros Hq Hq' Ho Hnd Hp'. eapply (step_intro p' (wd l) nd' (hold l) (Q l)); [auto|done|rewrite Ho; lia|].
  apply (lock_inv_frame l vw _ nd _ _ _ _ (Hall l)).
  - intros t x Ht Hx. assert (t ≠ s) as Hne by (intros ->; congruence). by rewrite fn_lookup_insert_ne, Hnd.
  - intros t x Ht Hx. destruct (decide (t = s)) as [->|Hne]; [rewrite fn_lookup_insert in Ht; congruence|].
    by rewrite fn_lookup_insert_ne in Ht.
Qed.

(** In the queue, without writing a node. *)
Lemma step_inside p' val hold' Ql :
  match p' with PLocked | PRead | PCas _ => False | _ => True end →
  hold' = hold l + b2z (owns_byte p') - b2z (owns_byte p) →
  lock_inv l (<[s := Some (l, p')]> vw) nd val hold' Ql → step_ok p' val nd.
Proof. intros Hp' Hh Hl. eapply step_intro; [auto| |done|done]. by destruct p'. Qed.

Lemma step_stays : step_ok p (wd l) nd.
Proof.
  eapply (step_intro p (wd l) nd (hold l) (Q l)); [auto|by apply (Hprep s l)|lia|].
  apply (lock_inv_frame l vw _ nd _ _ _ _ (Hall l)).
  - intros t x Ht Hx. split; [|done]. destruct (decide (t = s)) as [->|?]; [by rewrite fn_lookup_insert|by rewrite fn_lookup_insert_ne].
  - intros t x Ht Hx. destruct (decide (t = s)) as [->|?]; [rewrite fn_lookup_insert in Ht; congruence|by rewrite fn_lookup_insert_ne in Ht].
Qed.
End SlowStep.

Lemma slow_step_ok vw nd wd hold Q l s p p' val nd' :
  (∀ k, lock_inv k vw nd (wd k) (hold k) (Q k)) → prepared vw nd → vw s = Some (l, p) → slot_ok s →
  slow_step s.1 s.2 p (wd l) nd = Some (p', val, nd') → ∃ p1, p' = Some p1 ∧ step_ok vw wd hold l s p p1 val nd'.
Proof.
  intros Hall Hprep Hs Hok.
  pose proof (Hall l) as Hl. pose proof (Hprep s l p Hs) as Hpre. unfold slow_step. rewrite <- surjective_pairing.
  destruct p as [| | |old|t| | | | | |nx|]; intros Hstep; try (injection Hstep as <- <- <-); try done.
  - exists PLocked. split; [done|]. eapply step_outside; try done; [by intros; apply fn_lookup_insert_ne|by rewrite fn_lookup_insert].
  - exists PRead. split; [done|]. eapply step_outside; try done; [by intros; apply fn_lookup_insert_ne|by rewrite fn_lookup_insert].
  - exists (PCas (wd l)). split; [done|]. by eapply step_outside.
  - destruct (wd l =? old) eqn:E; bool_simpl; injection Hstep as <- <- <-.
    + eexists. split; [done|]. subst old. destruct Hpre as [Hn Hk].
      pose proof (enqueue l vw nd _ _ _ s Hl _ Hs eq_refl Hok Hn Hk) as He. cbv zeta in He.
      destruct (Z.land (wd l) 4294901760 =? 0); (eapply step_inside; [done..| |exact He]); simpl; lia.
    + exists (PCas (wd l)). split; [done|]. by eapply step_outside.
  - destruct (link_prev l vw nd _ _ _ s Hl t Hs) as (z & Hz & Hzin & Hi). rewrite Hz in Hstep. injection Hstep as <- <- <-.
    exists PSpin. split; [done|]. eapply step_intro; [done..| |done| |exact Hi]; [|simpl; lia].
    intros x _. destruct (decide (x = z)) as [->|?]; [by right|left; by apply fn_lookup_insert_ne].
  - destruct (node_locked (nd s)) eqn:E; eexists; (split; [done|]).
    + by eapply step_stays.
    + eapply step_inside; [done..| |by apply (spin_done l vw nd _ (hold l) (Q l))]. simpl. lia.
  - destruct (negb (locked_byte (wd l) =? 0)) eqn:E; bool_simpl; eexists; (split; [done|]).
    + by eapply step_stays.
    + eapply step_inside; [done..| |by apply (byte_seen l vw nd _ (hold l) (Q l))]. simpl. lia.
  - destruct (wd l =? encode_tail _ _) eqn:E; bool_simpl; injection Hstep as <- <- <-; eexists; (split; [done|]).
    + destruct (grab_succeeds l vw nd _ _ _ s Hl Hs Hok E) as [H0 Hi]. eapply step_inside; [done..| |exact Hi]. simpl. lia.
    + eapply step_inside; [done..| |by apply (grab_fails l vw nd _ (hold l) (Q l))]. simpl. lia.
  - destruct (write_locked l vw nd _ _ _ s Hl Hs) as [H0 Hi]. eexists. split; [done|]. eapply step_inside; [done..| |exact Hi]. simpl. lia.
  - destruct (next (nd s)) as [nx|] eqn:E; eexists; (split; [done|]).
    + eapply step_inside; [done..| |by apply (next_seen l vw nd _ (hold l) (Q l))]. simpl. lia.
    + by eapply step_stays.
  - destruct (hand_over l vw nd _ _ _ s Hl nx Hs) as [Hin Hi]. eexists. split; [done|].
    eapply step_intro; [done..| |done| |exact Hi]; [|simpl; lia].
    intros x _. destruct (decide (x = nx)) as [->|?]; [by right|left; by apply fn_lookup_insert_ne].
Qed.

(** ** The contexts of a CPU *)

Definition slow (f : frame) : option (nat * (nat * slow_pc)) :=
  match pc f with FSlow l i p => Some (i, (l, p)) | _ => None end.

(** The contexts in the slow path, the interrupted ones first. *)
Definition slow_frames (st : list frame) : list (nat * (nat * slow_pc)) := omap slow (reverse st).

Definition view_of (stks : list (list frame)) : view :=
  λ s, match stks !! s.1 with Some st => snd <$> (slow_frames st !! s.2) | None => None end.

Definition has (l : nat) (f : frame) : Z :=
  zlen (filter (λ k, k = l) (held f)) +
  match pc f with FSlow k _ p => if decide (k = l) then b2z (owns_byte p) else 0 | _ => 0 end.

Definition holders (l : nat) (stks : list (list frame)) : Z := tally (tally (has l)) stks.

Definition stack_ok (q : Z) (st : list frame) : Prop :=
  (length st ≤ QNODE_DEPTH)%nat ∧ fst <$> slow_frames st = seq 0 (length (slow_frames st)) ∧
  q = zlen (slow_frames st) ∧ Forall (λ f, pc f ≠ FPanic) st.

Definition spin_inv (s : spin_system) : Prop :=
  (length (stacks s) ≤ MAX_CPUS)%nat ∧
  (∀ c st, stacks s !! c = Some st → stack_ok (qnode_idx s c) st) ∧
  prepared (view_of (stacks s)) (nodes s) ∧
  ∃ Q, ∀ l, lock_inv l (view_of (stacks s)) (nodes s) (word s l) (holders l (stacks s)) (Q l).

Lemma slow_frames_cons f st : slow_frames (f :: st) = slow_frames st ++ match slow f with Some x => [x] | None => [] end.
Proof. unfold slow_frames. rewrite reverse_cons, omap_app. simpl. by destruct (slow f). Qed.

Lemma slow_frames_len st : (length (slow_frames st) ≤ length st)%nat.
Proof. induction st as [|f st IH]; [done|]. rewrite slow_frames_cons, length_app. simpl. destruct (slow f); simpl; lia. Qed.

(** The context on top changes. *)
Lemma view_top stks c f f' rest s :
  stks !! c = Some (f :: rest) →
  view_of (<[c := f' :: rest]> stks) s = (<[(c, length (slow_frames rest)) := snd <$> slow f']> (view_of stks)) s.
Proof.
  intros Hc. destruct s as [c' j]. unfold view_of. simpl. destruct (decide (c' = c)) as [->|Hne].
  - rewrite list_lookup_insert_eq by (by eapply lookup_lt_Some). rewrite slow_frames_cons.
    destruct (decide (j = length (slow_frames rest))) as [->|Hj].
    + rewrite fn_lookup_insert, lookup_app_r, Nat.sub_diag by lia. by destruct (slow f').
    + rewrite fn_lookup_insert_ne by congruence. simpl. rewrite Hc, slow_frames_cons.
      destruct (decide (j < length (slow_frames rest))%nat); [by rewrite !lookup_app_l|].
      rewrite !lookup_app_r by lia. destruct (j - length (slow_frames rest))%nat as [|k] eqn:E; [lia|]. by destruct (slow f), (slow f').
  - rewrite list_lookup_insert_ne by done. rewrite fn_lookup_insert_ne by congruence. done.
Qed.

(** A context outside of the slow path comes or goes. *)
Lemma view_push stks c f st s :
  stks !! c = Some st → slow f = None → view_of (<[c := f :: st]> stks) s = view_of stks s.
Proof.
  intros Hc Hf. destruct s as [c' j]. unfold view_of. simpl. destruct (decide (c' = c)) as [->|Hne].
  - rewrite list_lookup_insert_eq by (by eapply lookup_lt_Some). by rewrite Hc, slow_frames_cons, Hf, app_nil_r.
  - by rewrite list_lookup_insert_ne.
Qed.

Lemma view_pop stks c f st s :
  stks !! c = Some (f :: st) → slow f = None → view_of (<[c := st]> stks) s = view_of stks s.
Proof.
  intros Hc Hf. destruct s as [c' j]. unfold view_of. simpl. destruct (decide (c' = c)) as [->|Hne].
  - rewrite list_lookup_insert_eq by (by eapply lookup_lt_Some). by rewrite Hc, slow_frames_cons, Hf, app_nil_r.
  - by rewrite list_lookup_insert_ne.
Qed.

Lemma holders_top l stks c st st' :
  stks !! c = Some st → holders l (<[c := st']> stks) = holders l stks - tally (has l) st + tally (has l) st'.
Proof. intros Hc. unfold holders. by rewrite (tally_insert _ _ _ _ _ Hc). Qed.

Lemma lock_inv_ext l vw vw' nd w w' h h' Q :
  lock_inv l vw nd w h Q → (∀ s, vw' s = vw s) → w' = w → h' = h → lock_inv l vw' nd w' h' Q.
Proof.
  intros Hl Hv -> ->. apply (lock_inv_frame l vw _ nd _ _ _ _ Hl); [auto|]. intros s p Hs Hp. by rewrite <- Hv.
Qed.

Lemma prepared_ext vw vw' nd : prepared vw nd → (∀ s, vw' s = vw s) → prepared vw' nd.
Proof. intros Hp Hv s l p Hs. rewrite Hv in Hs. by apply (Hp s l). Qed.

(** The node of the context on top. *)
Lemma top_slot stks q c f rest i l p :
  stks !! c = Some (f :: rest) → stack_ok q (f :: rest) → slow f = Some (i, (l, p)) →
  i = length (slow_frames rest) ∧ view_of stks (c, i) = Some (l, p) ∧ (i < QNODE_DEPTH)%nat ∧ q = Z.of_nat i + 1.
Proof.
  intros Hc (Hlen & Hseq & Hq & _) Hf. rewrite slow_frames_cons, Hf in Hseq, Hq. rewrite length_app in Hseq, Hq. simpl in Hseq, Hq.
  rewrite seq_app, fmap_app in Hseq. simpl in Hseq.
  apply app_inj_2 in Hseq as [_ [= ->]]; [|done]. pose proof (slow_frames_len rest). simpl in Hlen.
  split_and!; [done| |lia|lia]. unfold view_of. simpl. rewrite Hc, slow_frames_cons, Hf, lookup_app_r, Nat.sub_diag by lia. done.
Qed.

Lemma rest_ok q f rest :
  stack_ok q (f :: rest) → fst <$> slow_frames rest = seq 0 (length (slow_frames rest)) ∧
    (length rest < QNODE_DEPTH)%nat ∧ Forall (λ f, pc f ≠ FPanic) rest ∧ q = zlen (slow_frames rest) + match slow f with Some _ => 1 | None => 0 end.
Proof.
  intros (Hlen & Hseq & Hq & Hp). rewrite slow_frames_cons in Hseq, Hq. rewrite length_app in Hseq, Hq. simpl in Hlen.
  apply Forall_cons in Hp as [_ Hp]. destruct (slow f) as [x|]; simpl in *.
  - rewrite seq_app, fmap_app in Hseq. apply app_inj_1 in Hseq as [? _]; [|by rewrite length_fmap, length_seq]. split_and!; [done|lia|done|lia].
  - rewrite app_nil_r, Nat.add_0_r in Hseq. split_and!; [done|lia|done|lia].
Qed.

Lemma stack_ok_cons q f rest :
  fst <$> slow_frames rest = seq 0 (length (slow_frames rest)) → (length rest < QNODE_DEPTH)%nat →
  Forall (λ f, pc f ≠ FPanic) rest → pc f ≠ FPanic →
  match slow f with Some (i, _) => i = length (slow_frames rest) ∧ q = zlen (slow_frames rest) + 1 | None => q = zlen (slow_frames rest) end →
  stack_ok q (f :: rest).
Proof.
  intros Hseq Hlen Hp Hf Hq. unfold stack_ok. rewrite slow_frames_cons, length_app, fmap_app, seq_app, Hseq. simpl.
  destruct (slow f) as [[i x]|]; simpl.
  - destruct Hq as [-> ->]. split_and!; [lia|done|lia|by constructor].
  - rewrite !app_nil_r. split_and!; [lia|done|lia|by constructor].
Qed.

(** ** Preservation *)

(** The word and the contexts change, the queues do not. *)
Lemma spin_inv_intro s s' c st st' :
  spin_inv s → stacks s !! c = Some st → stacks s' = <[c := st']> (stacks s) → stack_ok (qnode_idx s' c) st' →
  (∀ k, k ≠ c → qnode_idx s' k = qnode_idx s k) → prepared (view_of (stacks s')) (nodes s') →
  (∃ Q, ∀ l, lock_inv l (view_of (stacks s')) (nodes s') (word s' l) (holders l (stacks s')) (Q l)) → spin_inv s'.
Proof.
  intros (Hlen & Hst & _) Hc Hs' Hok Hq Hp HQ. split_and!; [by rewrite Hs', length_insert| |done|done].
  intros k x Hk. rewrite Hs' in Hk. destruct (decide (k = c)) as [->|Hne].
  - rewrite list_lookup_insert_eq in Hk by (by eapply lookup_lt_Some). by injection Hk as <-.
  - rewrite list_lookup_insert_ne in Hk by done. rewrite Hq by done. by apply Hst.
Qed.

(** Steps outside of the slow path. *)
Lemma spin_inv_top s c f f' rest l val :
  spin_inv s → stacks s !! c = Some (f :: rest) → slow f = None → slow f' = None → pc f' ≠ FPanic →
  (∀ k, k ≠ l → has k f' = has k f) →
  (∀ Q, lock_inv l (view_of (stacks s)) (nodes s) (word s l) (holders l (stacks s)) Q →
    lock_inv l (view_of (stacks s)) (nodes s) val (holders l (stacks s) - has l f + has l f') Q) →
  spin_inv (SpinSystem (<[l := val]> (word s)) (nodes s) (qnode_idx s) (<[c := f' :: rest]> (stacks s))).
Proof.
  intros Hinv Hc Hf Hf' Hp Hhas Hl. pose proof Hinv as (_ & Hst & Hprep & Q & HQ).
  assert (∀ x, view_of (<[c := f' :: rest]> (stacks s)) x = view_of (stacks s) x) as Hv.
  { intros x. rewrite (view_top _ c f f' rest x Hc), Hf'. simpl. destruct (decide (x = (c, length (slow_frames rest)))) as [->|Hne].
    - rewrite fn_lookup_insert. unfold view_of. simpl. rewrite Hc, slow_frames_cons, Hf, app_nil_r.
      by rewrite lookup_ge_None_2 by lia.
    - by rewrite fn_lookup_insert_ne. }
  destruct (rest_ok _ _ _ (Hst c _ Hc)) as (Hseq & Hlen & Hpan & Hq). rewrite Hf in Hq.
  eapply (spin_inv_intro s _ c (f :: rest) (f' :: rest)); try done; simpl.
  - apply stack_ok_cons; try done. rewrite Hf'. lia.
  - by eapply prepared_ext.
  - exists Q. intros k. rewrite (holders_top k _ c _ (f' :: rest) Hc), !tally_cons. destruct (decide (k = l)) as [->|Hkl].
    + eapply lock_inv_ext; [apply Hl, HQ|done|by rewrite fn_lookup_insert|lia].
    + eapply lock_inv_ext; [apply HQ|done|by rewrite fn_lookup_insert_ne|rewrite Hhas by done; lia].
Qed.

Lemma has_cons k l h : has k (Frame (l :: h) FRun) = (if decide (l = k) then 1 else 0) + has k (Frame h FRun).
Proof. unfold has. simpl. rewrite filter_cons. case_decide; simpl; lia. Qed.

Lemma has_free k h p : (∀ l i q, p ≠ FSlow l i q) → has k (Frame h p) = has k (Frame h FRun).
Proof. intros Hp. unfold has. simpl. destruct p; try done. by destruct (Hp l i p). Qed.

Lemma acquire_free l vw nd h Q : lock_inv l vw nd 0 h Q → h = 0 ∧ Q = [].
Proof.
  intros [_ _ Hs Hh Hw _]. destruct (tail_of_part Q Hs) as [[? _] Hz]. split; [lia|]. apply Hz. lia.
Qed.

Lemma fast_acquire l vw nd h Q : lock_inv l vw nd 0 h Q → lock_inv l vw nd SPINLOCK_LOCKED_VAL (h + 1) Q.
Proof.
  intros Hl. destruct (acquire_free _ _ _ _ _ Hl) as [-> ->]. destruct Hl as [? ? ? ? ? ?]. by split.
Qed.

Lemma release_inv l vw nd w Q : lock_inv l vw nd w 1 Q → lock_inv l vw nd (spinlock_release w) 0 Q.
Proof.
  intros [Hn Hm Hs Hh Hw Hq]. destruct (tail_of_part Q Hs) as [Ht _]. destruct (word_parts _ _ Ht Hh) as (_ & _ & _ & _ & Hr).
  split; try done; [unfold spinlock_release; rewrite Hw, Hr; lia|]. destruct Q as [|a Q]; [done|]. destruct Hq as [(p & Ha & Hp) Hc].
  split; [|done]. exists p. split; [done|]. destruct p; try done. by destruct Hp.
Qed.

Lemma has_nonneg k f : 0 ≤ has k f.
Proof. unfold has. destruct (pc f) as [| | |l i p|]; try lia. case_decide; [|lia]. destruct (owns_byte p); simpl; lia. Qed.

Lemma holders_le l stks c st k f : stks !! c = Some st → st !! k = Some f → has l f ≤ holders l stks.
Proof.
  intros Hc Hk. unfold holders. etrans; [|apply (tally_le (tally (has l)) stks c st); [|done]].
  - apply (tally_le (has l) st k f); [apply has_nonneg|done].
  - intros x. apply tally_nonneg, has_nonneg.
Qed.

Lemma remove_lock_has k l h :
  has k (Frame (remove_lock l h) FRun) = if decide (k = l) then 0 else has k (Frame h FRun).
Proof.
  unfold has, remove_lock. simpl. rewrite list_filter_filter. case_decide as Hkl; simpl.
  - subst k. assert (filter (λ x, x = l ∧ x ≠ l) h = []) as ->; [|done].
    induction h as [|x h IH]; [done|]. rewrite filter_cons. case_decide as Hx; [by destruct Hx|done].
  - do 3 f_equal. apply list_filter_iff. intros x. split; [by intros []|]. intros ->. done.
Qed.

Lemma has_held l h : l ∈ h → 1 ≤ has l (Frame h FRun).
Proof.
  intros Hl. unfold has. simpl. assert (l ∈ filter (λ k, k = l) h) as Hin by (by apply list_elem_of_filter).
  destruct (filter _ h); [by apply not_elem_of_nil in Hin|]. simpl. lia.
Qed.

(** A context takes or gives back a node. *)
Lemma spin_inv_node s c f f' rest q' :
  spin_inv s → stacks s !! c = Some (f :: rest) → (∀ k, has k f' = has k f) →
  stack_ok q' (f' :: rest) →
  match slow f with Some (_, (_, p)) => queued p = false | None => True end →
  match slow f' with Some (_, (_, p)) => p = PNext | None => True end →
  spin_inv (SpinSystem (word s) (nodes s) (<[c := q']> (qnode_idx s)) (<[c := f' :: rest]> (stacks s))).
Proof.
  intros Hinv Hc Hhas Hok Hf Hf'. set (n := length (slow_frames rest)). pose proof Hinv as (_ & Hst & Hprep & Q & HQ).
  assert (view_of (stacks s) (c, n) = snd <$> slow f) as Hn.
  { unfold view_of. simpl. rewrite Hc, slow_frames_cons, lookup_app_r, Nat.sub_diag by lia. by destruct (slow f). }
  eapply (spin_inv_intro s _ c (f :: rest) (f' :: rest)); try done; simpl.
  - by rewrite fn_lookup_insert.
  - intros k Hk. by rewrite fn_lookup_insert_ne.
  - intros x l p. rewrite (view_top _ c f f' rest x Hc). fold n. destruct (decide (x = (c, n))) as [->|Hne].
    + rewrite fn_lookup_insert. destruct (slow f') as [[i [k y]]|]; [|done]. simpl. intros [= <- <-]. by rewrite Hf'.
    + rewrite fn_lookup_insert_ne by done. apply Hprep.
  - exists Q. intros l. rewrite (holders_top l _ c _ (f' :: rest) Hc), !tally_cons, Hhas.
    replace (holders l (stacks s) - _ + _) with (holders l (stacks s)) by lia. apply (lock_inv_frame l _ _ _ _ _ _ _ (HQ l)).
    + intros x p Hx Hp. split; [|done]. rewrite (view_top _ c f f' rest x Hc). fold n. destruct (decide (x = (c, n))) as [->|Hne].
      * rewrite Hn in Hx. destruct (slow f) as [[i [k y]]|]; [|done]. simpl in Hx. injection Hx as -> ->. congruence.
      * by rewrite fn_lookup_insert_ne.
    + intros x p. rewrite (view_top _ c f f' rest x Hc). fold n. destruct (decide (x = (c, n))) as [->|Hne].
      * rewrite fn_lookup_insert. destruct (slow f') as [[i [k y]]|]; [|done]. simpl. intros [= <- <-]. by rewrite Hf'.
      * by rewrite fn_lookup_insert_ne.
Qed.

Lemma u32_count (n : nat) : (n ≤ QNODE_DEPTH)%nat → u32 (Z.of_nat n) = Z.of_nat n.
Proof. unfold QNODE_DEPTH. intros Hn. apply u32_small. lia. Qed.

Lemma spin_take_node s c h l rest s' :
  spin_inv s → stacks s !! c = Some (Frame h (FInc l) :: rest) →
  spinlock_acquire_slowpath c (Frame h (FInc l)) rest s = Some s' → spin_inv s'.
Proof.
  intros Hinv Hc Hstep. pose proof Hinv as (Hlen & Hst & _). destruct (rest_ok _ _ _ (Hst c _ Hc)) as (Hseq & Hr & Hpan & Hq). simpl in Hq.
  pose proof (slow_frames_len rest) as Hsl. apply lookup_lt_Some in Hc as Hcl. unfold QNODE_DEPTH, MAX_CPUS in *.
  unfold spinlock_acquire_slowpath in Hstep. simpl in Hstep. rewrite Hq in Hstep.
  replace (zlen (slow_frames rest) + 0) with (zlen (slow_frames rest)) in Hstep by lia.
  destruct (_ || _) eqn:E in Hstep; [apply orb_true_iff in E as [E|E]; apply Z.leb_le in E; unfold QNODE_DEPTH, MAX_CPUS in E; lia|]. clear E. rewrite Nat2Z.id in Hstep.
  replace (zlen (slow_frames rest) + 1) with (Z.of_nat (S (length (slow_frames rest)))) in Hstep by lia.
  rewrite u32_count in Hstep by (unfold QNODE_DEPTH; lia). injection Hstep as <-.
  eapply spin_inv_node; try done.
  - intros k. unfold has. simpl. by case_decide.
  - apply stack_ok_cons; try done. simpl. split; [done|lia].
Qed.

Lemma spin_slow_step s c h l i p rest s' :
  spin_inv s → stacks s !! c = Some (Frame h (FSlow l i p) :: rest) →
  spinlock_acquire_slowpath c (Frame h (FSlow l i p)) rest s = Some s' → spin_inv s'.
Proof.
  intros Hinv Hc Hstep. pose proof Hinv as (Hlen & Hst & Hprep & Q & HQ). pose proof (Hst c _ Hc) as Hok.
  destruct (top_slot _ _ c _ rest i l p Hc Hok eq_refl) as (Hi & Hv & Hid & Hq).
  destruct (rest_ok _ _ _ Hok) as (Hseq & Hr & Hpan & _). apply lookup_lt_Some in Hc as Hcl.
  destruct (decide (p = PDec)) as [->|Hnd].
  - unfold spinlock_acquire_slowpath in Hstep. simpl in Hstep. injection Hstep as <-.
    rewrite Hq. replace (Z.of_nat i + 1 - 1) with (Z.of_nat i) by lia. rewrite u32_count by lia.
    eapply (spin_inv_node s c (Frame h (FSlow l i PDec))); try done.
    + intros k. rewrite has_cons. unfold has. simpl. case_decide; simpl; lia.
    + apply stack_ok_cons; try done. simpl. lia.
  - assert (∃ p' val nd, slow_step c i p (word s l) (nodes s) = Some (p', val, nd) ∧
      s' = SpinSystem (<[l := val]> (word s)) nd (qnode_idx s)
             (<[c := Frame h (match p' with Some p' => FSlow l i p' | None => FPanic end) :: rest]> (stacks s))) as (p' & val & nd & Hss & ->).
    { unfold spinlock_acquire_slowpath in Hstep. simpl in Hstep.
      destruct p; try done; destruct (slow_step _ _ _ _ _) as [[[p' val] nd]|]; try done; injection Hstep as <-; by exists p', val, nd. }
    assert (slot_ok (c, i)) as Hsok by (split; simpl; lia).
    destruct (slow_step_ok _ _ (word s) (λ k, holders k (stacks s)) Q l (c, i) p p' val nd HQ Hprep Hv Hsok Hss) as (p1 & -> & Hp1 & Q' & HQ').
    assert (∀ x, view_of (<[c := Frame h (FSlow l i p1) :: rest]> (stacks s)) x = (<[(c, i) := Some (l, p1)]> (view_of (stacks s))) x) as Hv'.
    { intros x. by rewrite (view_top _ c _ (Frame h (FSlow l i p1)) rest x Hc), Hi. }
    eapply (spin_inv_intro s _ c _ (Frame h (FSlow l i p1) :: rest)); try done; simpl.
    + apply stack_ok_cons; try done. simpl. split; [done|lia].
    + by eapply prepared_ext.
    + exists Q'. intros k. eapply lock_inv_ext; [apply HQ'|done|done|].
      rewrite (holders_top k _ c _ (Frame h (FSlow l i p1) :: rest) Hc), !tally_cons. unfold has. simpl.
      case_decide as Hkl; [subst k; rewrite decide_True by done; lia|]. rewrite decide_False by congruence. lia.
Qed.

Lemma spin_slow s c f rest s' :
  spin_inv s → stacks s !! c = Some (f :: rest) → spinlock_acquire_slowpath c f rest s = Some s' → spin_inv s'.
Proof.
  intros Hinv Hc Hstep. destruct f as [h [|l|l|l i p|]]; try done; [by eapply spin_take_node|by eapply spin_slow_step].
Qed.

Lemma spin_fast s c h l rest f :
  spin_inv s → stacks s !! c = Some (f :: rest) → slow f = None → held f = h → word s l = 0 →
  spin_inv (SpinSystem (<[l := SPINLOCK_LOCKED_VAL]> (word s)) (nodes s) (qnode_idx s) (<[c := Frame (l :: h) FRun :: rest]> (stacks s))).
Proof.
  intros Hinv Hc Hf Hh Hw. assert (∀ k, has k f = has k (Frame h FRun)) as Hhas.
  { intros k. destruct f as [h' p]. simpl in Hh. subst h'. apply has_free. intros l' i q ->. done. }
  eapply spin_inv_top; try done.
  - intros k Hk. rewrite has_cons, decide_False, Hhas by done. lia.
  - intros Q HQ. rewrite Hw in HQ. rewrite has_cons, decide_True, Hhas by done.
    eapply lock_inv_ext; [by apply fast_acquire|done|done|lia].
Qed.

(** Writing a word back does not change it. *)
Lemma spin_same s c f f' rest l :
  spin_inv s → stacks s !! c = Some (f :: rest) → slow f = None → slow f' = None → pc f' ≠ FPanic → held f' = held f →
  spin_inv (SpinSystem (<[l := word s l]> (word s)) (nodes s) (qnode_idx s) (<[c := f' :: rest]> (stacks s))).
Proof.
  intros Hinv Hc Hf Hf' Hp Hh. assert (∀ k, has k f' = has k f) as Hhas.
  { intros k. destruct f as [h p], f' as [h' p']. simpl in Hh. subst h'. rewrite (has_free k h p), (has_free k h p'); [done|..];
      intros l' i q ->; done. }
  eapply spin_inv_top; try done. intros Q HQ. eapply lock_inv_ext; [done|done|done|rewrite Hhas; lia].
Qed.

Lemma spin_inv_words s w' :
  spin_inv s → (∀ l, w' l = word s l) → spin_inv (SpinSystem w' (nodes s) (qnode_idx s) (stacks s)).
Proof.
  intros (H1 & H2 & H3 & Q & HQ) Hw. split_and!; [done|done|done|]. exists Q. intros l. simpl. rewrite Hw. apply HQ.
Qed.

Lemma spin_quiet s c f f' rest :
  spin_inv s → stacks s !! c = Some (f :: rest) → slow f = None → slow f' = None → pc f' ≠ FPanic → held f' = held f →
  spin_inv (with_top c (f' :: rest) s).
Proof.
  intros Hinv Hc Hf Hf' Hp Hh. apply (spin_inv_words _ (word s) (spin_same s c f f' rest 0%nat Hinv Hc Hf Hf' Hp Hh)).
  intros l. simpl. destruct (decide (l = 0%nat)) as [->|?]; [by rewrite fn_lookup_insert|by rewrite fn_lookup_insert_ne].
Qed.

Lemma spin_release s c h l rest :
  spin_inv s → stacks s !! c = Some (Frame h FRun :: rest) → l ∈ h →
  spin_inv (SpinSystem (<[l := spinlock_release (word s l)]> (word s)) (nodes s) (qnode_idx s)
                       (<[c := Frame (remove_lock l h) FRun :: rest]> (stacks s))).
Proof.
  intros Hinv Hc Hl. pose proof (holders_le l (stacks s) c _ 0 (Frame h FRun) Hc eq_refl) as Hle. pose proof (has_held l h Hl) as H1.
  eapply spin_inv_top; try done.
  - intros k Hk. by rewrite remove_lock_has, decide_False.
  - intros Q HQ. rewrite remove_lock_has, decide_True by done. pose proof (li_hold _ _ _ _ _ _ HQ) as Hh.
    assert (holders l (stacks s) = 1) as E by lia. rewrite E in *. eapply lock_inv_ext; [by apply release_inv|done|done|lia].
Qed.

Lemma spin_interrupt s c f st :
  spin_inv s → stacks s !! c = Some st → (length st < QNODE_DEPTH)%nat → f = Frame [] FRun → spin_inv (with_top c (f :: st) s).
Proof.
  intros Hinv Hc Hlen ->. pose proof Hinv as (_ & Hst & Hprep & Q & HQ). destruct (Hst c st Hc) as (_ & Hseq & Hq & Hp).
  eapply (spin_inv_intro s _ c st); try done; simpl.
  - by apply stack_ok_cons.
  - eapply prepared_ext; [done|]. intros x. by apply view_push.
  - exists Q. intros l. eapply lock_inv_ext; [apply HQ|intros x; by apply view_push|done|].
    rewrite (holders_top l _ c _ (Frame [] FRun :: st) Hc), tally_cons. change (has l (Frame [] FRun)) with 0. lia.
Qed.

Lemma spin_return s c rest :
  spin_inv s → stacks s !! c = Some (Frame [] FRun :: rest) → spin_inv (with_top c rest s).
Proof.
  intros Hinv Hc. pose proof Hinv as (_ & Hst & Hprep & Q & HQ). destruct (rest_ok _ _ _ (Hst c _ Hc)) as (Hseq & Hlen & Hp & Hq). simpl in Hq.
  eapply (spin_inv_intro s _ c); try done; simpl.
  - split_and!; [lia|done|lia|done].
  - eapply prepared_ext; [done|]. intros x. by eapply view_pop.
  - exists Q. intros l. eapply lock_inv_ext; [apply HQ|intros x; by eapply view_pop|done|].
    rewrite (holders_top l _ c _ rest Hc), tally_cons. change (has l (Frame [] FRun)) with 0. lia.
Qed.

Lemma spin_inv_step s s' : spin_inv s → spin_step s s' → spin_inv s'.
Proof.
  intros Hinv [[c a] He]. unfold spin_exec in He. destruct (stacks s !! c) as [st|] eqn:Hc; [|done].
  destruct a as [|l|l|l| |].
  - destruct st as [|[h p] rest]; [done|]. destruct p as [|l|l|l i p|]; try (by eapply spin_slow; [done|done|exact He]).
    unfold spinlock_acquire in He. destruct (word s l =? 0) eqn:E; bool_simpl; injection He as <-.
    + by eapply spin_fast.
    + by eapply spin_same.
  - destruct st as [|[h p] rest]; [done|]. destruct p; try done. injection He as <-. by eapply spin_quiet.
  - destruct st as [|[h p] rest]; [done|]. destruct p; try done. unfold spinlock_try_acquire in He.
    destruct (word s l =? 0) eqn:E; bool_simpl; injection He as <-; [by eapply spin_fast|by eapply spin_same].
  - destruct st as [|[h p] rest]; [done|]. destruct p; try done. case_decide as Hl; [|done]. injection He as <-. by apply spin_release.
  - destruct (length st <? QNODE_DEPTH)%nat eqn:E; [|done]. apply Nat.ltb_lt in E. injection He as <-. by apply spin_interrupt.
  - destruct st as [|[h p] rest]; [done|]. destruct h, p; try done. injection He as <-. by apply spin_return.
Qed.

Lemma spin_inv_initial ncpu : (ncpu ≤ MAX_CPUS)%nat → spin_inv (spin_initial ncpu).
Proof.
  intros Hn. assert (∀ s, view_of (stacks (spin_initial ncpu)) s = None) as Hv.
  { intros [c i]. unfold view_of. simpl. destruct (replicate ncpu [] !! c) as [st|] eqn:E; [|done].
    by apply lookup_replicate in E as [-> _]. }
  split_and!; simpl.
  - by rewrite length_replicate.
  - intros c st [-> _]%lookup_replicate. split_and!; simpl; [lia|done|done|done].
  - intros s l p Hs. by rewrite Hv in Hs.
  - exists (λ _, []). intros l. assert (holders l (replicate ncpu []) = 0) as ->.
    { unfold holders. rewrite tally_replicate. change (tally (has l) []) with 0. lia. }
    split; try done; [apply NoDup_nil_2|]. intros s. split; [by intros ?%not_elem_of_nil|]. intros (p & Hs & _). by rewrite Hv in Hs.
Qed.

Lemma spin_reachable ncpu s : (ncpu ≤ MAX_CPUS)%nat → rtc spin_step (spin_initial ncpu) s → spin_inv s.
Proof. intros Hn Hr. eapply invariant_rtc; [apply spin_inv_step|by apply spin_inv_initial|done]. Qed.

(** ** Theorems *)

(** C28. The queue spinlock excludes: in every interleaving of the CPUs, with
    interrupts nested up to the depth the nodes allow and any number of locks
    that share the nodes, no two contexts hold the same lock. *)
Theorem spinlock_exclusion ncpu s l c1 k1 st1 f1 c2 k2 st2 f2 :
  (ncpu ≤ MAX_CPUS)%nat → rtc spin_step (spin_initial ncpu) s →
  stacks s !! c1 = Some st1 → st1 !! k1 = Some f1 → l ∈ held f1 →
  stacks s !! c2 = Some st2 → st2 !! k2 = Some f2 → l ∈ held f2 → c1 = c2 ∧ k1 = k2.
Proof.
  intros Hn Hr Hs1 Hf1 Hl1 Hs2 Hf2 Hl2. destruct (spin_reachable ncpu s Hn Hr) as (_ & _ & _ & Q & HQ).
  pose proof (li_hold _ _ _ _ _ _ (HQ l)) as Hh. unfold holders in Hh.
  assert (∀ f, l ∈ held f → 1 ≤ has l f) as Hge.
  { intros f Hf. pose proof (has_held l (held f) Hf) as Hx. unfold has in *. simpl in Hx.
    destruct (pc f) as [| | |k i p|]; try lia. case_decide; [|lia]. destruct (owns_byte p); simpl; lia. }
  assert (∀ x, 0 ≤ tally (has l) x) as Hnn by (intros; apply tally_nonneg, has_nonneg).
  pose proof (Hge f1 Hl1). pose proof (Hge f2 Hl2).
  pose proof (tally_le (has l) st1 k1 f1 (has_nonneg l) Hf1). pose proof (tally_le (has l) st2 k2 f2 (has_nonneg l) Hf2).
  destruct (decide (c1 = c2)) as [->|Hc].
  - assert (st1 = st2) as -> by congruence. split; [done|]. destruct (decide (k1 = k2)); [done|].
    pose proof (tally_two (has l) st2 k1 k2 f1 f2 (has_nonneg l) ltac:(done) Hf1 Hf2).
    pose proof (tally_le (tally (has l)) (stacks s) c2 st2 Hnn Hs2). lia.
  - pose proof (tally_two (tally (has l)) (stacks s) c1 c2 st1 st2 Hnn Hc Hs1 Hs2). lia.
Qed.

(** No panic: the node array is never indexed out of range and every tail
    word decodes to the node that was encoded in it. *)
Theorem spinlock_no_panic ncpu s c st f :
  (ncpu ≤ MAX_CPUS)%nat → rtc spin_step (spin_initial ncpu) s → stacks s !! c = Some st → f ∈ st → pc f ≠ FPanic.
Proof.
  intros Hn Hr Hc Hf. destruct (spin_reachable ncpu s Hn Hr) as (_ & Hst & _). destruct (Hst c st Hc) as (_ & _ & _ & Hp).
  exact (proj1 (Forall_forall _ _) Hp f Hf).
Qed.

(** The context leaves its program point when it runs. *)
Definition advances (s : spin_system) (c : nat) (f : frame) (l : nat) : Prop :=
  ∃ i p, pc f = FSlow l i p ∧
    (p = PDec ∨ ∃ p' val nd, slow_step c i p (word s l) (nodes s) = Some (p', val, nd) ∧ p' ≠ Some p).

Lemma view_frame s x l p :
  spin_inv s → view_of (stacks s) x = Some (l, p) →
  ∃ st f, stacks s !! x.1 = Some st ∧ f ∈ st ∧ pc f = FSlow l x.2 p.
Proof.
  intros (_ & Hst & _) Hx. destruct x as [c i]. unfold view_of in Hx. simpl in *. destruct (stacks s !! c) as [st|] eqn:Hc; [|done].
  destruct (slow_frames st !! i) as [[j [k y]]|] eqn:Hi; [|done]. simpl in Hx. injection Hx as -> ->.
  destruct (Hst c st Hc) as (_ & Hseq & _). assert (j = i) as ->.
  { assert ((fst <$> slow_frames st) !! i = Some j) as Hj by (by rewrite list_lookup_fmap, Hi). rewrite Hseq in Hj.
    by apply lookup_seq in Hj as [-> _]. }
  apply list_elem_of_lookup_2, list_elem_of_omap in Hi as (f & Hf & Hsf). rewrite elem_of_reverse in Hf. exists st, f. split_and!; [done|done|].
  unfold slow in Hsf. destruct (pc f); try done. by injection Hsf as -> -> ->.
Qed.

Lemma tally_pos {A} (g : A → Z) xs : (∀ x, 0 ≤ g x) → 0 < tally g xs → ∃ i x, xs !! i = Some x ∧ 0 < g x.
Proof.
  intros Hg. induction xs as [|x xs IH]; unfold tally in *; simpl; [lia|]. intros Hp.
  destruct (decide (0 < g x)); [by exists 0%nat, x|]. pose proof (Hg x). destruct IH as (i & y & Hi & Hy); [lia|]. by exists (S i), y.
Qed.

(** Someone has the locked byte. *)
Lemma holder_exists s l :
  0 < holders l (stacks s) →
  ∃ c st f, stacks s !! c = Some st ∧ f ∈ st ∧ (l ∈ held f ∨ ∃ i p, pc f = FSlow l i p ∧ owns_byte p = true).
Proof.
  intros Hh. destruct (tally_pos _ _ (λ x, tally_nonneg _ x (has_nonneg l)) Hh) as (c & st & Hc & Hst).
  destruct (tally_pos _ _ (has_nonneg l) Hst) as (k & f & Hk & Hf). exists c, st, f. split; [done|]. split; [by eapply list_elem_of_lookup_2|].
  unfold has in Hf. destruct (filter (λ k, k = l) (held f)) as [|y h] eqn:E.
  - right. simpl in Hf. destruct (pc f) as [| | |k' i p|]; try lia. case_decide; [|lia]. subst k'. exists i, p. split; [done|].
    by destruct (owns_byte p).
  - left. assert (y ∈ filter (λ k, k = l) (held f)) as Hy by (rewrite E; by left). apply list_elem_of_filter in Hy as [-> ?]. done.
Qed.

Lemma frame_view s c st f l i p :
  spin_inv s → stacks s !! c = Some st → f ∈ st → pc f = FSlow l i p → view_of (stacks s) (c, i) = Some (l, p).
Proof.
  intros (_ & Hst & _) Hc Hf Hp. destruct (Hst c st Hc) as (_ & Hseq & _).
  assert ((i, (l, p)) ∈ slow_frames st) as [j Hj]%list_elem_of_lookup_1.
  { apply list_elem_of_omap. exists f. rewrite elem_of_reverse. unfold slow. by rewrite Hp. }
  assert ((fst <$> slow_frames st) !! j = Some i) as Hi by (by rewrite list_lookup_fmap, Hj). rewrite Hseq in Hi.
  apply lookup_seq in Hi as [-> _]. unfold view_of. simpl in *. by rewrite Hc, Hj.
Qed.

Section Progress.
Context (s : spin_system) (l : nat) (Q : list slot) (Hinv : spin_inv s).
Context (Hl : lock_inv l (view_of (stacks s)) (nodes s) (word s l) (holders l (stacks s)) Q).

Definition busy : Prop := ∃ c st f, stacks s !! c = Some st ∧ f ∈ st ∧ (l ∈ held f ∨ advances s c f l).

Lemma can_step x p p' val nd :
  view_of (stacks s) x = Some (l, p) → slow_step x.1 x.2 p (word s l) (nodes s) = Some (p', val, nd) → p' ≠ Some p → busy.
Proof.
  intros Hx Hs Hne. destruct (view_frame s x l p Hinv Hx) as (st & f & Hst & Hf & Hp).
  exists x.1, st, f. split; [done|]. split; [done|]. right. exists x.2, p. split; [done|]. right. by exists p', val, nd.
Qed.

(** The head waits for the link of its successor, which can store it. *)
Lemma wait_next_busy x : view_of (stacks s) x = Some (l, PWaitNext) → busy.
Proof.
  intros Hx. destruct (queue_head l _ _ _ _ _ _ _ Hl Hx eq_refl I) as (Q' & HQ & (p & Hp & Hhd) & Hc).
  rewrite Hx in Hp. injection Hp as <-. destruct Q' as [|b Q']; [done|]. destruct Hc as (_ & [(t & Hb & Hdec & _)|[_ Hn]] & _).
  - eapply (can_step b (PLink t)); [done|simpl; by rewrite Hdec|done].
  - eapply (can_step x PWaitNext); [done|simpl; rewrite <- surjective_pairing, Hn; done|done].
Qed.

Lemma held_busy : 0 < holders l (stacks s) → busy.
Proof.
  intros Hh. destruct (holder_exists s l Hh) as (c & st & f & Hst & Hf & [Hin|(i & p & Hp & Ho)]); [exists c, st, f; eauto|].
  pose proof (frame_view s c st f l i p Hinv Hst Hf Hp) as Hv. destruct p; try done.
  - by eapply wait_next_busy.
  - by eapply (can_step (c, i) (PHand nx)).
  - exists c, st, f. split; [done|]. split; [done|]. right. exists i, PDec. auto.
Qed.

Lemma head_busy a Q' : Q = a :: Q' → busy.
Proof.
  intros EQ. pose proof Hl as [_ _ Hsl Hh Hw Hq]. rewrite EQ in Hq. destruct Hq as [(p & Ha & Hp) _].
  destruct p as [| | | | | | | | | |nx|]; try done.
  - eapply (can_step a PSpin); [done|simpl; rewrite <- surjective_pairing, Hp; done|done].
  - destruct (decide (holders l (stacks s) = 0)) as [H0|H1]; [|apply held_busy; lia].
    destruct (tail_of_part _ Hsl) as [Ht _]. destruct (word_parts _ _ Ht Hh) as (_ & _ & Hb & _). rewrite <- Hw in Hb.
    eapply (can_step a PByte); [done|simpl; by rewrite Hb, H0|done].
  - destruct (word s l =? encode_tail (Z.of_nat a.1) (Z.of_nat a.2)) eqn:E;
      (eapply (can_step a PGrab); [done|simpl; by rewrite E|done]).
  - by eapply (can_step a PWrite).
  - by eapply wait_next_busy.
  - by eapply (can_step a (PHand nx)).
Qed.
End Progress.

(** C29. The queue never gets stuck: while a lock is not free, some context holds
    it, or some context in the slow path for it can leave its program point, be
    it the head of the queue or the one the head waits for. *)
Theorem spinlock_progress ncpu s l :
  (ncpu ≤ MAX_CPUS)%nat → rtc spin_step (spin_initial ncpu) s → word s l ≠ 0 →
  ∃ c st f, stacks s !! c = Some st ∧ f ∈ st ∧ (l ∈ held f ∨ advances s c f l).
Proof.
  intros Hn Hr Hw. pose proof (spin_reachable ncpu s Hn Hr) as Hinv. pose proof Hinv as (_ & _ & _ & Q & HQ).
  destruct (Q l) as [|a Q'] eqn:EQ; [|by eapply (head_busy s l (Q l))].
  apply (held_busy s l (Q l)); [done|done|]. destruct (HQ l) as [_ _ _ Hh Hwd _]. rewrite EQ in Hwd. unfold tail_of in Hwd. simpl in Hwd. lia.
Qed.

(** *** Instances *)

(** CPU 0 holds lock 7, an interrupt on CPU 1 queues for it. *)
Definition spin_demo : list (nat * spin_act) :=
  [(0, AInterrupt); (0, AAcquire 7); (0, ARun); (1, AInterrupt); (1, AInterrupt); (1, AAcquire 7); (1, ARun); (1, ARun); (1, ARun);
   (1, ARun); (1, ARun); (1, ARun)]%nat.

Lemma spin_demo_ends :
  ∃ s, rtc spin_step (spin_initial 2) s ∧
    (stacks s, word s 7%nat) = ([[Frame [7%nat] FRun]; [Frame [] (FSlow 7 0 PByte); Frame [] FRun]], 131073).
Proof. apply (run_reaches spin_exec _ spin_demo). by vm_compute. Qed.

Lemma spinlock_exclusion_witness :
  ∃ s, rtc spin_step (spin_initial 2) s ∧ ∀ c k st f, stacks s !! c = Some st → st !! k = Some f → 7%nat ∈ held f → c = 0%nat ∧ k = 0%nat.
Proof.
  destruct spin_demo_ends as (s & Hr & Hs). exists s. split; [exact Hr|]. intros c k st f Hst Hf Hin.
  destruct (spinlock_exclusion 2 s 7 c k st f 0 0 [Frame [7%nat] FRun] (Frame [7%nat] FRun)) as [-> ->];
    [unfold MAX_CPUS; lia|exact Hr|exact Hst|exact Hf|exact Hin|injection Hs as -> _; reflexivity|reflexivity|left|]. split; reflexivity.
Defined.

Lemma spinlock_no_panic_witness : ∃ s, rtc spin_step (spin_initial 2) s ∧ pc (Frame [] (FSlow 7 0 PByte)) ≠ FPanic.
Proof.
  destruct spin_demo_ends as (s & Hr & Hs). exists s. split; [exact Hr|].
  apply (spinlock_no_panic 2 s 1 [Frame [] (FSlow 7 0 PByte); Frame [] FRun]);
    [unfold MAX_CPUS; lia|exact Hr|injection Hs as -> _; reflexivity|left].
Defined.

Lemma spinlock_progress_witness :
  ∃ s, rtc spin_step (spin_initial 2) s ∧ ∃ c st f, stacks s !! c = Some st ∧ f ∈ st ∧ (7%nat ∈ held f ∨ advances s c f 7).
Proof.
  destruct spin_demo_ends as (s & Hr & Hs). exists s. split; [exact Hr|].
  apply (spinlock_progress 2 s 7); [unfold MAX_CPUS; lia|exact Hr|injection Hs as _ ->; lia].
Defined.
