(* ===== verification/RwLock.v ===== *)
(** * The sleeping reader-writer lock: [src/src/kernel/locking/rwlock.c]

    The state word (writer bit, two bits for waiting writers and readers, the
    number of readers), the two wait queues and the spinlock that protects them,
    used by any number of threads that make one atomic access per step.
    [waiting] is the set of tasks in state [TASK_WAITING]: entered by
    [waitqueue_wait_prepare_locked], left by [proc_wake], which here only
    [rwlock_wake_waiters] calls.  The label of a step says what an idle thread
    asks for and whether a spinning thread sees the owner running. *)

From S2P Require Import Prelude Conc.

Definition RWLOCK_WRITER : Z := 2147483648.
Definition RWLOCK_WAITING_WRITER : Z := 1073741824.
Definition RWLOCK_WAITING_READER : Z := 536870912.
Definition RWLOCK_READER_MASK : Z := 536870911.

Record rwlock := RwLock {
  state_ : Z; writer_owner_ : Z; wait_lock_ : bool; read_waitq_ : list nat; write_waitq_ : list nat }.

Definition rwlock_init : rwlock := RwLock 0 0 false [] [].

Inductive rw_pc :=
| Idle
(** [rwlock_acquire_read] and its slow path *)
| RLoad | RCas (s : Z) | RSpin (i : Z) | RSpinOwner (i : Z) | RTry | RTryCas (s : Z) | RAcq | RCheck | RUnl | ROr | REnq | RRel
| RSleep | RReAcq | RCancel | RRel2
| Reading
(** [rwlock_acquire_write] and its slow path *)
| WCas | WSpin (i : Z) | WSpinOwner (i : Z) | WTry | WTryCas (s : Z) | WAcq | WCheck | WUnl | WOr | WEnq | WRel
| WSleep | WReAcq | WCancel | WRel2
| WOwner
| Writing
(** [rwlock_release_write] *)
| XState
(** [rwlock_wake_waiters] *)
| KAcq | KDeq | KClearW (t : nat) | KRel (t : option nat) (l : list nat) | KClearR (l : list nat) | KWake (l : list nat)
| RwPanic.

#[global] Instance rw_pc_eq_dec : EqDecision rw_pc.
Proof. solve_decision. Defined.

Definition has_bits (s bits : Z) : bool := negb (Z.land s bits =? 0).

Definition set_state (s : Z) (rw : rwlock) : rwlock :=
  RwLock s (writer_owner_ rw) (wait_lock_ rw) (read_waitq_ rw) (write_waitq_ rw).
Definition set_writer_owner (o : Z) (rw : rwlock) : rwlock :=
  RwLock (state_ rw) o (wait_lock_ rw) (read_waitq_ rw) (write_waitq_ rw).
Definition set_wait_lock (b : bool) (rw : rwlock) : rwlock :=
  RwLock (state_ rw) (writer_owner_ rw) b (read_waitq_ rw) (write_waitq_ rw).
Definition set_read_waitq (q : list nat) (rw : rwlock) : rwlock :=
  RwLock (state_ rw) (writer_owner_ rw) (wait_lock_ rw) q (write_waitq_ rw).
Definition set_write_waitq (q : list nat) (rw : rwlock) : rwlock :=
  RwLock (state_ rw) (writer_owner_ rw) (wait_lock_ rw) (read_waitq_ rw) q.

Section RwLock.
Context (n : nat) (task : nat → Z).

Definition out : Type := rw_pc * rwlock * gset nat.
Definition goto (p : rw_pc) (rw : rwlock) (w : gset nat) : option out := Some (p, rw, w).

(** [__atomic_compare_exchange_n(&rw->state_, ...)] *)
Definition cas (rw : rwlock) (w : gset nat) (expected desired : Z) (yes no : rw_pc) : option out :=
  if state_ rw =? expected then goto yes (set_state desired rw) w else goto no rw w.

(** The loop test of [rwlock_acquire_read] with [s]. *)
Definition read_again (s : Z) : rw_pc :=
  if has_bits s (Z.lor RWLOCK_WRITER RWLOCK_WAITING_WRITER) then RSpin 0 else RCas s.

Definition rwlock_acquire_read (p : rw_pc) (rw : rwlock) (w : gset nat) : option out :=
  match p with
  | RLoad => goto (read_again (state_ rw)) rw w
  | RCas s => cas rw w s (u32 (s + 1)) Reading (read_again (state_ rw))
  | _ => None
  end.

(** One access of [rwlock_spin_on_writer]: the state, or the owner and the state
    of its task; [yes] and [no] are where the result 1 or 0 leads. *)
Definition rwlock_spin_on_writer (not_running : bool) (i : Z) (own : bool) (yes no : rw_pc) (spin spin_owner : Z → rw_pc)
    (rw : rwlock) (w : gset nat) : option out :=
  if own then
    if negb (writer_owner_ rw =? 0) && not_running then goto no rw w else goto (spin (i + 1)) rw w
  else if i <? 1024 then
    if negb (has_bits (state_ rw) RWLOCK_WRITER) then goto yes rw w else goto (spin_owner i) rw w
  else goto no rw w.

Definition rwlock_acquire_read_slowpath (i : nat) (b : bool) (p : rw_pc) (rw : rwlock) (w : gset nat) : option out :=
  let free s := negb (has_bits s (Z.lor RWLOCK_WRITER RWLOCK_WAITING_WRITER)) in
  match p with
  | RSpin k => rwlock_spin_on_writer b k false RTry RAcq RSpin RSpinOwner rw w
  | RSpinOwner k => rwlock_spin_on_writer b k true RTry RAcq RSpin RSpinOwner rw w
  | RTry => goto (if free (state_ rw) then RTryCas (state_ rw) else RAcq) rw w
  | RTryCas s => cas rw w s (u32 (s + 1)) Reading (RSpin 0)
  | RAcq => if wait_lock_ rw then None else goto RCheck (set_wait_lock true rw) w
  | RCheck =>
      let s := state_ rw in
      goto (if free s then RUnl else if negb (has_bits s RWLOCK_WAITING_READER) then ROr else REnq) rw w
  | RUnl => goto (RSpin 0) (set_wait_lock false rw) w
  | ROr => goto REnq (set_state (Z.lor (state_ rw) RWLOCK_WAITING_READER) rw) w
  | REnq =>
      if decide (i ∈ read_waitq_ rw ++ write_waitq_ rw) then goto RwPanic rw w
      else goto RRel (set_read_waitq (read_waitq_ rw ++ [i]) rw) ({[i]} ∪ w)
  | RRel => goto RSleep (set_wait_lock false rw) w
  | RSleep => if decide (i ∈ w) then None else goto RReAcq rw w
  | RReAcq => if wait_lock_ rw then None else goto RCancel (set_wait_lock true rw) w
  | RCancel => goto RRel2 (set_read_waitq (filter (λ j, j ≠ i) (read_waitq_ rw)) rw) w
  | RRel2 => goto (RSpin 0) (set_wait_lock false rw) w
  | _ => None
  end.

Definition rwlock_release_read (rw : rwlock) (w : gset nat) : option out :=
  let s := state_ rw in
  goto (if Z.land s RWLOCK_READER_MASK =? 1 then if has_bits s RWLOCK_WAITING_WRITER then KAcq else Idle else Idle)
       (set_state (u32 (s - 1)) rw) w.

Definition rwlock_acquire_write (rw : rwlock) (w : gset nat) : option out := cas rw w 0 RWLOCK_WRITER WOwner (WSpin 0).

Definition rwlock_acquire_write_slowpath (i : nat) (b : bool) (p : rw_pc) (rw : rwlock) (w : gset nat) : option out :=
  let free s := negb (has_bits s RWLOCK_WRITER) && (Z.land s RWLOCK_READER_MASK =? 0) in
  match p with
  | WSpin k => rwlock_spin_on_writer b k false WTry WAcq WSpin WSpinOwner rw w
  | WSpinOwner k => rwlock_spin_on_writer b k true WTry WAcq WSpin WSpinOwner rw w
  | WTry => goto (if free (state_ rw) then WTryCas (state_ rw) else WAcq) rw w
  | WTryCas s => cas rw w s (Z.lor s RWLOCK_WRITER) WOwner (WSpin 0)
  | WAcq => if wait_lock_ rw then None else goto WCheck (set_wait_lock true rw) w
  | WCheck =>
      let s := state_ rw in
      goto (if free s then WUnl else if negb (has_bits s RWLOCK_WAITING_WRITER) then WOr else WEnq) rw w
  | WUnl => goto (WSpin 0) (set_wait_lock false rw) w
  | WOr => goto WEnq (set_state (Z.lor (state_ rw) RWLOCK_WAITING_WRITER) rw) w
  | WEnq =>
      if decide (i ∈ read_waitq_ rw ++ write_waitq_ rw) then goto RwPanic rw w
      else goto WRel (set_write_waitq (write_waitq_ rw ++ [i]) rw) ({[i]} ∪ w)
  | WRel => goto WSleep (set_wait_lock false rw) w
  | WSleep => if decide (i ∈ w) then None else goto WReAcq rw w
  | WReAcq => if wait_lock_ rw then None else goto WCancel (set_wait_lock true rw) w
  | WCancel => goto WRel2 (set_write_waitq (filter (λ j, j ≠ i) (write_waitq_ rw)) rw) w
  | WRel2 => goto (WSpin 0) (set_wait_lock false rw) w
  | _ => None
  end.

(** The stores to the owner are accesses of their own. *)
Definition rwlock_release_write (p : rw_pc) (rw : rwlock) (w : gset nat) : option out :=
  match p with
  | Writing => goto XState (set_writer_owner 0 rw) w
  | XState =>
      let s := state_ rw in
      goto (if has_bits s (Z.lor RWLOCK_WAITING_WRITER RWLOCK_WAITING_READER) then KAcq else Idle)
           (set_state (Z.land s (u32 (Z.lnot RWLOCK_WRITER))) rw) w
  | _ => None
  end.

Definition rwlock_wake_waiters (p : rw_pc) (rw : rwlock) (w : gset nat) : option out :=
  match p with
  | KAcq => if wait_lock_ rw then None else goto KDeq (set_wait_lock true rw) w
  | KDeq =>
      match write_waitq_ rw with
      | t :: q => goto (match q with [] => KClearW t | _ => KRel (Some t) [] end) (set_write_waitq q rw) w
      | [] => let l := read_waitq_ rw in goto (match l with [] => KRel None [] | _ => KClearR l end) (set_read_waitq [] rw) w
      end
  | KClearW t => goto (KRel (Some t) []) (set_state (Z.land (state_ rw) (u32 (Z.lnot RWLOCK_WAITING_WRITER))) rw) w
  | KClearR l => goto (KRel None l) (set_state (Z.land (state_ rw) (u32 (Z.lnot RWLOCK_WAITING_READER))) rw) w
  | KRel t l => goto (KWake (match t with Some t => [t] | None => l end)) (set_wait_lock false rw) w
  | KWake l => match l with [] => goto Idle rw w | t :: l => goto (KWake l) rw (w ∖ {[t]}) end
  | _ => None
  end.

(** An idle thread calls [rwlock_acquire_read] or [rwlock_acquire_write]. *)
Definition thread_step (i : nat) (b : bool) (p : rw_pc) (rw : rwlock) (w : gset nat) : option out :=
  match p with
  | Idle => goto (if b then RLoad else WCas) rw w
  | RLoad | RCas _ => rwlock_acquire_read p rw w
  | Reading => rwlock_release_read rw w
  | WCas => rwlock_acquire_write rw w
  | WOwner => goto Writing (set_writer_owner (task i) rw) w
  | Writing | XState => rwlock_release_write p rw w
  | KAcq | KDeq | KClearW _ | KRel _ _ | KClearR _ | KWake _ => rwlock_wake_waiters p rw w
  | WSpin _ | WSpinOwner _ | WTry | WTryCas _ | WAcq | WCheck | WUnl | WOr | WEnq | WRel | WSleep | WReAcq | WCancel | WRel2 =>
      rwlock_acquire_write_slowpath i b p rw w
  | RwPanic => None
  | _ => rwlock_acquire_read_slowpath i b p rw w
  end.

Record system := System { lock : rwlock; waiting : gset nat; pcs : list rw_pc }.

Definition initial : system := System rwlock_init ∅ (replicate n Idle).

Definition rw_exec (l : nat * bool) (s : system) : option system :=
  match pcs s !! l.1 with
  | None => None
  | Some p =>
      match thread_step l.1 l.2 p (lock s) (waiting s) with
      | Some (p', rw, w) => Some (System rw w (<[l.1 := p']> (pcs s)))
      | None => None
      end
  end.

Definition rw_step : system → system → Prop := exec_step rw_exec.
End RwLock.

(** ** The word *)

(** Three flag bits above 29 bits that count the readers. *)
Definition word_of (h r : Z) : Z := h * 536870912 + r.

Lemma word_bits h r i :
  0 ≤ r < 536870912 → 0 ≤ i → Z.testbit (word_of h r) i = if decide (i < 29) then Z.testbit r i else Z.testbit h (i - 29).
Proof.
  intros Hr Hi. unfold word_of. change 536870912 with (2 ^ 29) in *. case_decide.
  - rewrite <- (Z.mod_pow2_bits_low (h * 2 ^ 29 + r) 29 i) by lia. rewrite Z.add_comm, Z.mod_add, Z.mod_small by lia. done.
  - assert (i = (i - 29) + 29) as Ei by lia. rewrite Ei at 1. rewrite <- Z.shiftr_spec by lia.
    rewrite Z.shiftr_div_pow2, Z.div_add_l, Z.div_small by lia. f_equal. lia.
Qed.

Lemma word_lor h r m : 0 ≤ r < 536870912 → Z.lor (word_of h r) (word_of m 0) = word_of (Z.lor h m) r.
Proof.
  intros Hr. apply Z.bits_inj'. intros i Hi. rewrite Z.lor_spec, !word_bits by lia.
  case_decide; [rewrite Z.bits_0; apply orb_false_r|by rewrite Z.lor_spec].
Qed.

Lemma word_land h r m q :
  0 ≤ r < 536870912 → 0 ≤ q < 536870912 → Z.land (word_of h r) (word_of m q) = word_of (Z.land h m) (Z.land r q).
Proof.
  intros Hr Hq. apply Z.bits_inj'. intros i Hi. rewrite Z.land_spec, !word_bits; try lia.
  - case_decide; by rewrite Z.land_spec.
  - split; [apply Z.land_nonneg; lia|]. destruct (decide (r = 0)) as [->|]; [by rewrite Z.land_0_l|].
    destruct (decide (q = 0)) as [->|]; [by rewrite Z.land_0_r|].
    change 536870912 with (2 ^ 29) in *. destruct (decide (Z.land r q = 0)) as [->|]; [lia|].
    apply Z.log2_lt_pow2; [pose proof (Z.land_nonneg r q); lia|].
    pose proof (Z.log2_land r q ltac:(lia) ltac:(lia)) as Hl. pose proof (proj1 (Z.log2_lt_pow2 r 29 ltac:(lia)) ltac:(lia)). lia.
Qed.

Lemma word_masked h r m : 0 ≤ r < 536870912 → Z.land (word_of h r) (word_of m 536870911) = word_of (Z.land h m) r.
Proof.
  intros Hr. rewrite word_land by lia. change 536870911 with (Z.ones 29). rewrite Z.land_ones by lia.
  by rewrite Z.mod_small by (change (2 ^ 29) with 536870912; lia).
Qed.

Lemma word_flags h r m : 0 ≤ r < 536870912 → Z.land (word_of h r) (word_of m 0) = word_of (Z.land h m) 0.
Proof. intros Hr. rewrite word_land by lia. by rewrite Z.land_0_r. Qed.

Definition word_ok (s readers writers : Z) : Prop :=
  ∃ h, 0 ≤ h < 8 ∧ s = word_of h readers ∧ 0 ≤ readers < 536870912 ∧ writers = h / 4 ∧ (writers = 1 → readers = 0).

(** Facts about the eight flag combinations, by computation. *)
Ltac flags h :=
  match goal with H : 0 ≤ h < 8 |- _ =>
    let Hc := fresh in
    assert (h = 0 ∨ h = 1 ∨ h = 2 ∨ h = 3 ∨ h = 4 ∨ h = 5 ∨ h = 6 ∨ h = 7) as Hc by lia;
    destruct Hc as [->|[->|[->|[->|[->|[->|[->| ->]]]]]]]
  end.

Lemma word_ok_facts s r w :
  word_ok s r w →
  has_bits s RWLOCK_WRITER = negb (w =? 0) ∧ Z.land s RWLOCK_READER_MASK = r ∧ 0 ≤ w ≤ 1 ∧ 0 ≤ r < 536870912 ∧ (w = 1 → r = 0) ∧
  (has_bits s (Z.lor RWLOCK_WRITER RWLOCK_WAITING_WRITER) = false → w = 0).
Proof.
  intros (h & Hh & -> & Hr & -> & Hw). unfold has_bits.
  change RWLOCK_WRITER with (word_of 4 0). change RWLOCK_READER_MASK with (word_of 0 536870911).
  change (Z.lor (word_of 4 0) RWLOCK_WAITING_WRITER) with (word_of 6 0).
  rewrite !word_flags, word_masked, Z.land_0_r by lia.
  split; [by flags h|]. split; [by unfold word_of|]. split; [Z.to_euclidean_division_equations; lia|]. split; [lia|].
  split; [done|]. by flags h.
Qed.

(** Setting and clearing the waiting bits. *)
Lemma word_ok_or s r w m : word_ok s r w → m = RWLOCK_WAITING_READER ∨ m = RWLOCK_WAITING_WRITER → word_ok (Z.lor s m) r w.
Proof.
  intros (h & Hh & -> & Hr & -> & Hw) [->| ->];
    [change RWLOCK_WAITING_READER with (word_of 1 0)|change RWLOCK_WAITING_WRITER with (word_of 2 0)];
    rewrite word_lor by lia; (eexists; split; [|split; [reflexivity|split; [exact Hr|]]]); by flags h.
Qed.

Lemma word_ok_clear s r w m :
  word_ok s r w → m = RWLOCK_WAITING_READER ∨ m = RWLOCK_WAITING_WRITER → word_ok (Z.land s (u32 (Z.lnot m))) r w.
Proof.
  intros (h & Hh & -> & Hr & -> & Hw) [->| ->];
    [change (u32 (Z.lnot RWLOCK_WAITING_READER)) with (word_of 6 536870911)
    |change (u32 (Z.lnot RWLOCK_WAITING_WRITER)) with (word_of 5 536870911)];
    rewrite word_masked by lia; (eexists; split; [|split; [reflexivity|split; [exact Hr|]]]); by flags h.
Qed.

Lemma word_ok_write s w : word_ok s 0 w → w = 0 → word_ok (Z.lor s RWLOCK_WRITER) 0 1.
Proof.
  intros (h & Hh & -> & Hr & E & Hw) ->. change RWLOCK_WRITER with (word_of 4 0). rewrite word_lor by lia.
  eexists. split; [|split; [reflexivity|split; [exact Hr|]]]; by flags h.
Qed.

Lemma word_ok_unwrite s r : word_ok s r 1 → word_ok (Z.land s (u32 (Z.lnot RWLOCK_WRITER))) r 0.
Proof.
  intros (h & Hh & -> & Hr & E & Hw). change (u32 (Z.lnot RWLOCK_WRITER)) with (word_of 3 536870911). rewrite word_masked by lia.
  eexists. split; [|split; [reflexivity|split; [exact Hr|]]]; by flags h.
Qed.

Lemma word_ok_read s r d : word_ok s r 0 → 0 ≤ r + d < 536870912 → word_ok (u32 (s + d)) (r + d) 0.
Proof.
  intros (h & Hh & -> & Hr & E & Hw) Hd. assert (h < 4) by (Z.to_euclidean_division_equations; lia).
  exists h. unfold word_of. rewrite u32_small by lia. split_and!; try lia.
Qed.

(** ** The invariant *)

Definition reads (p : rw_pc) : Z := match p with Reading => 1 | _ => 0 end.
Definition writes (p : rw_pc) : Z := match p with WOwner | Writing | XState => 1 | _ => 0 end.

(** What a thread knows of the value it wants to exchange. *)
Definition pc_ok (p : rw_pc) : Prop :=
  match p with
  | RCas s | RTryCas s => has_bits s (Z.lor RWLOCK_WRITER RWLOCK_WAITING_WRITER) = false
  | WTryCas s => has_bits s RWLOCK_WRITER = false ∧ Z.land s RWLOCK_READER_MASK = 0
  | _ => True
  end.

Definition moved (p p' : rw_pc) (s r w : Z) : Prop :=
  pc_ok p' ∧ word_ok s (r + reads p' - reads p) (w + writes p' - writes p).

Lemma moved_same p p' s r w : word_ok s r w → pc_ok p' → reads p' = reads p → writes p' = writes p → moved p p' s r w.
Proof.
  intros Hw Hp Hr Hwr. split; [done|]. rewrite Hr, Hwr.
  replace (r + reads p - reads p) with r by lia. by replace (w + writes p - writes p) with w by lia.
Qed.

Lemma moved_read s r w p : word_ok s r w → reads p = 0 → writes p = 0 → r + 1 < 536870912 →
  has_bits s (Z.lor RWLOCK_WRITER RWLOCK_WAITING_WRITER) = false → moved p Reading (u32 (s + 1)) r w.
Proof.
  intros Hw Hp Hp' Hr Hs. destruct (word_ok_facts _ _ _ Hw) as (_ & _ & _ & ? & _ & H0). specialize (H0 Hs). subst w.
  split; [done|]. rewrite Hp, Hp'. change (reads Reading) with 1. change (writes Reading) with 0.
  replace (r + 1 - 0) with (r + 1) by lia. replace (0 + 0 - 0) with 0 by lia. apply word_ok_read; [done|lia].
Qed.

Lemma moved_write s r w p : word_ok s r w → reads p = 0 → writes p = 0 →
  has_bits s RWLOCK_WRITER = false → Z.land s RWLOCK_READER_MASK = 0 → moved p WOwner (Z.lor s RWLOCK_WRITER) r w.
Proof.
  intros Hw Hp Hp' Hs Hm. destruct (word_ok_facts _ _ _ Hw) as (E & Er & Hw1 & _ & _ & _). rewrite Hs in E. rewrite Hm in Er. subst r.
  assert (w = 0) as -> by (destruct (Z.eqb_spec w 0); done).
  split; [done|]. rewrite Hp, Hp'. change (writes WOwner) with 1. change (reads WOwner) with 0.
  replace (0 + 0 - 0) with 0 by lia. replace (0 + 1 - 0) with 1 by lia. by eapply word_ok_write.
Qed.

(** Splits a step along its tests; what is left are the accesses to the state word. *)
Ltac rw_cases H :=
  simpl in H; cbv [cas goto rwlock_spin_on_writer] in H;
  repeat match type of H with context [if ?c then _ else _] => destruct c eqn:? end; try discriminate H;
  injection H as <- <- <-.

Lemma read_again_ok s : pc_ok (read_again s) ∧ reads (read_again s) = 0 ∧ writes (read_again s) = 0.
Proof. unfold read_again. by destruct (has_bits s _) eqn:E. Qed.

Lemma step_read p p' rw rw' wt wt' r w :
  word_ok (state_ rw) r w → pc_ok p → r + 1 < 536870912 → rwlock_acquire_read p rw wt = Some (p', rw', wt') → moved p p' (state_ rw') r w.
Proof.
  intros Hw Hp Hroom H. destruct p; try discriminate H; rw_cases H; bool_simpl; subst; try (by apply moved_read).
  - destruct (read_again_ok (state_ rw)) as (? & ? & ?). by apply moved_same.
  - destruct (read_again_ok (state_ rw)) as (? & ? & ?). by apply moved_same.
Qed.

Lemma step_read_slow i b p p' rw rw' wt wt' r w :
  word_ok (state_ rw) r w → pc_ok p → r + 1 < 536870912 → rwlock_acquire_read_slowpath i b p rw wt = Some (p', rw', wt') → moved p p' (state_ rw') r w.
Proof.
  intros Hw Hp Hroom H. destruct p; try discriminate H; rw_cases H; bool_simpl; subst; try (by apply moved_same); try (by apply moved_read).
  all: apply moved_same; try done; apply word_ok_or; auto.
Qed.

Lemma step_write_slow i b p p' rw rw' wt wt' r w :
  word_ok (state_ rw) r w → pc_ok p → r + 1 < 536870912 → rwlock_acquire_write_slowpath i b p rw wt = Some (p', rw', wt') → moved p p' (state_ rw') r w.
Proof.
  intros Hw Hp Hroom H. destruct p; try discriminate H; rw_cases H; bool_simpl; subst; try (by apply moved_same).
  - destruct Hp as [? ?]. by apply moved_write.
  - apply moved_same; try done. apply word_ok_or; auto.
Qed.

Lemma step_wake p p' rw rw' wt wt' r w :
  word_ok (state_ rw) r w → rwlock_wake_waiters p rw wt = Some (p', rw', wt') → moved p p' (state_ rw') r w.
Proof.
  intros Hw H. destruct p as [| | | | | | | | | | | | | | | | | | | | | | | | | | | | | | | | | | | | | |t|t l|l|l|]; try discriminate H; simpl in H; cbv [goto] in H.
  - destruct (wait_lock_ rw); [done|]. injection H as <- <- <-. by apply moved_same.
  - destruct (write_waitq_ rw) as [|t q]; [destruct (read_waitq_ rw)|destruct q]; injection H as <- <- <-; by apply moved_same.
  - injection H as <- <- <-. apply moved_same; try done. apply word_ok_clear; auto.
  - injection H as <- <- <-. by apply moved_same.
  - injection H as <- <- <-. apply moved_same; try done. apply word_ok_clear; auto.
  - destruct l; injection H as <- <- <-; by apply moved_same.
Qed.

Lemma step_moved task i b p p' rw rw' wt wt' r w :
  word_ok (state_ rw) r w → pc_ok p → reads p ≤ r → writes p ≤ w → r + 1 - reads p < 536870912 →
  thread_step task i b p rw wt = Some (p', rw', wt') → moved p p' (state_ rw') r w.
Proof.
  intros Hw Hp Hr Hwr Hroom H.
  destruct p; simpl in Hroom; try rewrite Z.sub_0_r in Hroom; try discriminate H;
    try (by eapply step_read; [..|exact H]); try (by eapply (step_read_slow i b); [..|exact H]);
    try (by eapply (step_write_slow i b); [..|exact H]); try (by eapply step_wake; [..|exact H]); cbn [thread_step] in H.
  - destruct b; injection H as <- <- <-; by apply moved_same.
  - simpl in Hr. cbv [rwlock_release_read goto] in H. simpl in H. injection H as <- <- <-.
    destruct (word_ok_facts _ _ _ Hw) as (_ & _ & ? & ? & H1 & _). assert (w = 0) as -> by lia.
    assert (∀ q, q = Idle ∨ q = KAcq → moved Reading q (u32 (state_ rw - 1)) r 0) as Hm.
    { intros q Hq. split; [by destruct Hq as [->| ->]|]. assert (reads q = 0 ∧ writes q = 0) as [-> ->] by (by destruct Hq as [->| ->]).
      change (reads Reading) with 1. change (writes Reading) with 0. replace (r + 0 - 1) with (r + -1) by lia. replace (0 + 0 - 0) with 0 by lia.
      apply word_ok_read; [done|lia]. }
    apply Hm. repeat case_match; auto.
  - cbv [rwlock_acquire_write cas goto] in H. destruct (state_ rw =? 0) eqn:E; bool_simpl; injection H as <- <- <-; [|by apply moved_same].
    rewrite E in Hw. simpl. change RWLOCK_WRITER with (Z.lor 0 RWLOCK_WRITER). by apply moved_write.
  - injection H as <- <- <-. by apply moved_same.
  - cbv [rwlock_release_write goto] in H. injection H as <- <- <-. by apply moved_same.
  - simpl in Hwr. cbv [rwlock_release_write goto] in H. simpl in H. injection H as <- <- <-.
    destruct (word_ok_facts _ _ _ Hw) as (_ & _ & ? & ? & H1 & _). assert (w = 1) as -> by lia.
    assert (∀ q, q = Idle ∨ q = KAcq → moved XState q (Z.land (state_ rw) (u32 (Z.lnot RWLOCK_WRITER))) r 1) as Hm.
    { intros q Hq. split; [by destruct Hq as [->| ->]|]. assert (reads q = 0 ∧ writes q = 0) as [-> ->] by (by destruct Hq as [->| ->]).
      change (reads XState) with 0. change (writes XState) with 1. replace (r + 0 - 0) with r by lia. replace (1 + 0 - 1) with 0 by lia.
      by apply word_ok_unwrite. }
    apply Hm. case_match; auto.
Qed.

Definition rw_inv (s : system) : Prop :=
  zlen (pcs s) < 536870912 ∧ Forall pc_ok (pcs s) ∧ word_ok (state_ (lock s)) (tally reads (pcs s)) (tally writes (pcs s)).

Lemma reads_range p : 0 ≤ reads p ≤ 1.
Proof. destruct p; simpl; lia. Qed.

Lemma writes_range p : 0 ≤ writes p ≤ 1.
Proof. destruct p; simpl; lia. Qed.

Lemma rw_inv_step task s s' : rw_inv s → rw_step task s s' → rw_inv s'.
Proof.
  intros (Hn & Hpc & Hw) [[i b] He]. unfold rw_exec in He. simpl in He. destruct (pcs s !! i) as [p|] eqn:Hi; [|done].
  destruct (thread_step task i b p (lock s) (waiting s)) as [[[p' rw'] w']|] eqn:Hs; [|done]. injection He as <-.
  assert (pc_ok p) as Hp by (eapply Forall_lookup_1; eauto).
  destruct (step_moved task i b p p' (lock s) rw' (waiting s) w' _ _ Hw Hp) as [Hp' Hw']; [..|exact Hs|].
  - apply (tally_le reads _ i); [apply reads_range|done].
  - apply (tally_le writes _ i); [apply writes_range|done].
  - pose proof (tally_max reads (<[i := Reading]> (pcs s)) (λ x, proj2 (reads_range x))) as Hmax.
    rewrite length_insert, (tally_insert _ _ _ _ _ Hi) in Hmax. simpl in Hmax. lia.
  - split_and!; simpl; [by rewrite length_insert|by apply Forall_insert|].
    rewrite !(tally_insert _ _ _ _ _ Hi).
    replace (tally reads (pcs s) - reads p + reads p') with (tally reads (pcs s) + reads p' - reads p) by lia.
    by replace (tally writes (pcs s) - writes p + writes p') with (tally writes (pcs s) + writes p' - writes p) by lia.
Qed.

Lemma rw_inv_initial n : Z.of_nat n < 536870912 → rw_inv (initial n).
Proof.
  intros Hn. split_and!; simpl; [by rewrite length_replicate|by apply Forall_replicate|]. rewrite !tally_replicate. simpl.
  rewrite Z.mul_0_r. exists 0. by split_and!.
Qed.

(** ** Theorems *)

(** C30. The sleeping reader-writer lock excludes: while a thread is in a write
    section, no other thread is in a read or write section, in any interleaving
    of fewer than 2^29 threads. *)
Theorem rwlock_exclusion n task s i j p q :
  Z.of_nat n < 536870912 → rtc (rw_step task) (initial n) s → pcs s !! i = Some p → pcs s !! j = Some q → i ≠ j →
  p = Writing → q ≠ Writing ∧ q ≠ Reading.
Proof.
  intros Hn Hr Hi Hj Hij ->.
  assert (rw_inv s) as (_ & _ & Hw) by (eapply invariant_rtc; [apply rw_inv_step|by apply rw_inv_initial|done]).
  destruct (word_ok_facts _ _ _ Hw) as (_ & _ & Hw1 & _ & H1 & _).
  pose proof (tally_two writes _ i j Writing q (λ x, proj1 (writes_range x)) Hij Hi Hj) as H2. simpl in H2.
  pose proof (tally_le reads _ j q (λ x, proj1 (reads_range x)) Hj) as H3. pose proof (writes_range q).
  assert (tally writes (pcs s) = 1) as E by lia. specialize (H1 E). split; intros ->; simpl in *; lia.
Qed.

(** A reader leaves between the test and the announcement of a writer; then the
    reader comes back. *)
Definition lost_wakeup_run : list (nat * bool) :=
  ((λ b, (0%nat, b)) <$> [true; true; true]) ++ ((λ b, (1%nat, b)) <$> [false; false; false; false; false; false]) ++
  [(0%nat, true)] ++ ((λ b, (1%nat, b)) <$> [false; false; false]) ++
  ((λ b, (0%nat, b)) <$> [true; false; false; false; false; false; false; false; false]).

(** C31. A wakeup is lost: the last reader leaves after a writer has seen it but
    before the writer has set its waiting bit, so the reader wakes nobody; the
    writer goes to sleep with the lock free, and so does every reader that comes
    later, because the waiting bit is set.  From there no thread can run. *)
Theorem rwlock_lost_wakeup task :
  ∃ s, rtc (rw_step task) (initial 2) s ∧ pcs s = [RSleep; WSleep] ∧
    has_bits (state_ (lock s)) RWLOCK_WRITER = false ∧ Z.land (state_ (lock s)) RWLOCK_READER_MASK = 0 ∧
    ∀ l, rw_exec task l s = None.
Proof.
  destruct (run_reaches (rw_exec task) (λ s, (pcs s, state_ (lock s), bool_decide (0%nat ∈ waiting s), bool_decide (1%nat ∈ waiting s)))
    lost_wakeup_run (initial 2) ([RSleep; WSleep], 1610612736, true, true)) as (s & Hr & Hs); [by vm_compute|].
  injection Hs as Hp Hst H0 H1. apply bool_decide_eq_true in H0, H1. exists s. rewrite Hst. split_and!; [done|done|done|done|].
  intros [i b]. unfold rw_exec. simpl. rewrite Hp. destruct i as [|[|i]]; simpl; [by rewrite decide_True|by rewrite decide_True|done].
Qed.

Lemma rwlock_exclusion_witness :
  ∃ s, rtc (rw_step (λ _, 4096)) (initial 2) s ∧ pcs s !! 0%nat = Some Writing ∧ (WSpin 0 ≠ Writing ∧ WSpin 0 ≠ Reading).
Proof.
  destruct (run_reaches (rw_exec (λ _, 4096)) pcs [(0%nat, false); (0%nat, false); (0%nat, false); (1%nat, false); (1%nat, false)] (initial 2)
    [Writing; WSpin 0]) as (s & Hr & Hs); [by vm_compute|]. exists s. split; [exact Hr|]. rewrite Hs. split; [reflexivity|].
  apply (rwlock_exclusion 2 (λ _, 4096) s 0 1 Writing (WSpin 0)); [lia|exact Hr|rewrite Hs; reflexivity|rewrite Hs; reflexivity|lia|reflexivity].
Defined.
