(* ===== verification/Pipe.v ===== *)
(** * Pipes: [src/src/kernel/ipc/pipe.c]

    A pipe is shared by any number of calls of [pipe_read_impl],
    [pipe_write_impl] and [pipe_close], each a thread that makes one atomic
    access per step (sequential consistency).  [memcpy] and the user copies move
    one byte per step, so the other side runs in the middle of a copy.  A user
    copy may fail at any byte; the label of the step says so.  The mutexes are
    held or free, the semaphores are those of [Semaphore].  The log records, in
    order, the bytes published by writers and those taken by readers. *)

From S2P Require Import Prelude Conc Semaphore.

Definition PIPE_SIZE : Z := 32768.

Definition VFS_FLAG_PIPE_READ : Z := 1.
Definition VFS_FLAG_PIPE_WRITE : Z := 2.

Record pipe := Pipe {
  read_lock : bool; read_ptr : Z; readers : Z;
  write_lock : bool; write_ptr : Z; writers : Z;
  sem_read : semaphore; sem_write : semaphore;
  buffer : list Z; size : Z;
  (** streams, for the theorems only *)
  published : list (nat * list Z); taken : list (nat * list Z) }.

Definition set_read_lock (b : bool) (p : pipe) : pipe :=
  Pipe b (read_ptr p) (readers p) (write_lock p) (write_ptr p) (writers p) (sem_read p) (sem_write p)
    (buffer p) (size p) (published p) (taken p).
Definition set_write_lock (b : bool) (p : pipe) : pipe :=
  Pipe (read_lock p) (read_ptr p) (readers p) b (write_ptr p) (writers p) (sem_read p) (sem_write p)
    (buffer p) (size p) (published p) (taken p).
Definition set_sem_read (s : semaphore) (p : pipe) : pipe :=
  Pipe (read_lock p) (read_ptr p) (readers p) (write_lock p) (write_ptr p) (writers p) s (sem_write p)
    (buffer p) (size p) (published p) (taken p).
Definition set_sem_write (s : semaphore) (p : pipe) : pipe :=
  Pipe (read_lock p) (read_ptr p) (readers p) (write_lock p) (write_ptr p) (writers p) (sem_read p) s
    (buffer p) (size p) (published p) (taken p).
Definition set_buffer (b : list Z) (p : pipe) : pipe :=
  Pipe (read_lock p) (read_ptr p) (readers p) (write_lock p) (write_ptr p) (writers p) (sem_read p) (sem_write p)
    b (size p) (published p) (taken p).
(** [read_ptr] moves on; thread [t] has taken the bytes [d]. *)
Definition store_read_ptr (rp : Z) (t : nat) (d : list Z) (p : pipe) : pipe :=
  Pipe (read_lock p) rp (readers p) (write_lock p) (write_ptr p) (writers p) (sem_read p) (sem_write p)
    (buffer p) (size p) (published p) (taken p ++ [(t, d)]).
Definition store_write_ptr (wp : Z) (t : nat) (d : list Z) (p : pipe) : pipe :=
  Pipe (read_lock p) (read_ptr p) (readers p) (write_lock p) wp (writers p) (sem_read p) (sem_write p)
    (buffer p) (size p) (published p ++ [(t, d)]) (taken p).
Definition set_counts (r w : Z) (p : pipe) : pipe :=
  Pipe (read_lock p) (read_ptr p) r (write_lock p) (write_ptr p) w (sem_read p) (sem_write p)
    (buffer p) (size p) (published p) (taken p).

(** ** Reading *)

(** What follows the end of the scope of the guard. *)
Inductive next := Return (r : Z) | Wait | EndFor.

Inductive read_pc :=
| RLock (waited : bool) | RDrain | RLoad | RWriters
| RCopy (rp take i : Z)
| RFail (rp : Z)
| RStore (rp n : Z) (ok : bool) | RSignal (e : Z) (ok : bool) | RAgain (e : Z) (ok : bool)
| RUnlock (n : next)
| RSem (q : sem_pc)
| RDone (r : Z)
| RFault.

(** The arguments, and the bytes copied out so far. *)
Record read_call := ReadCall { rd_size : Z; rd_block : bool; rd_user : bool; got : list Z }.

Definition with_got (d : list Z) (c : read_call) : read_call := ReadCall (rd_size c) (rd_block c) (rd_user c) d.

(** The length of the part up to the end of the buffer, and the index of byte [i]. *)
Definition part1 (p : pipe) (ptr take : Z) : Z := let contig := size p - ptr `mod` size p in if take <? contig then take else contig.
Definition byte_index (p : pipe) (ptr take i : Z) : Z :=
  let n1 := part1 p ptr take in if i <? n1 then ptr `mod` size p + i else i - n1.

(** The guards before the loop of [pipe_read_impl]. *)
Definition pipe_read_enter (node buf : bool) (flags : Z) (private : bool) (c : read_call) : read_pc :=
  if negb node || negb buf || (rd_size c =? 0) then RDone 0
  else if negb (rd_block c) && (Z.land flags VFS_FLAG_PIPE_READ =? 0) then RDone (-1)
  else if negb private then RDone (-1)
  else if 0 <? rd_size c then RLock false else RDone 0.

(** One step of [pipe_read_impl] by thread [t]; [fault] makes a user copy fail.
    [read_count] is 0 until the store of [read_ptr] and the number of bytes
    taken after it; the loop then ends. *)
Definition pipe_read_step (t : nat) (fault : bool) (c : read_call) (q : read_pc) (p : pipe)
    : option (read_call * read_pc * pipe) :=
  match q with
  | RLock waited =>
      if read_lock p then None
      else Some (c, if waited then RDrain else RLoad, set_read_lock true p)
  | RDrain =>
      let '(ok, s) := sem_try_acquire (sem_read p) in
      if ok : bool then Some (c, RDrain, set_sem_read s p) else Some (c, RLoad, p)
  | RLoad =>
      let wp := write_ptr p in
      let rp := read_ptr p in
      let available := u32 (wp - rp) in
      if 0 <? available then
        let want := rd_size c in
        Some (c, RCopy rp (if want <? available then want else available) 0, p)
      else Some (c, RWriters, p)
  | RCopy rp take i =>
      if i <? take then
        if rd_user c && fault then
          if i <? part1 p rp take then Some (c, RFail rp, p)
          else Some (c, RStore rp (part1 p rp take) false, p)
        else
          match arr_get (buffer p) (byte_index p rp take i) with
          | Ok b => Some (with_got (got c ++ [b]) c, RCopy rp take (i + 1), p)
          | _ => Some (c, RFault, p)
          end
      else Some (c, RStore rp take true, p)
  | RFail rp =>
      let p := if rp <? write_ptr p then set_sem_read (sem_signal_all (sem_read p)) p else p in
      Some (c, RUnlock (Return (-1)), p)
  | RStore rp n ok =>
      Some (c, RSignal (u32 (rp + n)) ok, store_read_ptr (u32 (rp + n)) t (take (Z.to_nat n) (got c)) p)
  | RSignal e ok => Some (c, RAgain e ok, set_sem_write (sem_signal_all (sem_write p)) p)
  | RAgain e ok =>
      let p := if e <? write_ptr p then set_sem_read (sem_signal_all (sem_read p)) p else p in
      Some (c, RUnlock (if ok then EndFor else Return (-1)), p)
  | RWriters =>
      if writers p =? 0 then Some (c, RUnlock (Return (if negb (rd_block c) then -1 else 0)), p)
      else if negb (rd_block c) then Some (c, RUnlock (Return 0), p)
      else Some (c, RUnlock Wait, p)
  | RUnlock n =>
      Some (c, match n with Return r => RDone r | Wait => RSem (SWait SEM_TRIES) | EndFor => RDone (s32 (zlen (got c))) end,
            set_read_lock false p)
  | RSem s =>
      match sem_wait_step t s (sem_read p) with
      | Some (Some s', m) => Some (c, RSem s', set_sem_read m p)
      | Some (None, m) => Some (c, RLock true, set_sem_read m p)
      | None => None
      end
  | RDone _ | RFault => None
  end.

(** ** Writing *)

Inductive write_pc :=
| WLock (waited : bool) | WDrain | WLoad | WReaders (wp space : Z)
| WCopy (wp take i : Z)
| WFail (wp : Z)
| WStore (wp n : Z) (ok : bool) | WSignal (e : Z) (ok : bool) | WAgain (e : Z) (ok : bool)
| WUnlock (n : next)
| WSem (q : sem_pc)
| WDone (r : Z)
| WFault.

(** The arguments and [written_count]. *)
Record write_call := WriteCall { wr_data : list Z; wr_block : bool; wr_user : bool; written : Z }.

Definition with_written (n : Z) (c : write_call) : write_call := WriteCall (wr_data c) (wr_block c) (wr_user c) n.
Abbreviation wr_size c := (zlen (wr_data c)).

Definition require_space (p : pipe) (c : write_call) : Z :=
  if negb (wr_block c) || (wr_size c <=? size p) then wr_size c else 1.

(** [p->size - (wp - rp)] in 32 bits. *)
Definition room (p : pipe) (wp rp : Z) : Z := u32 (size p - u32 (wp - rp)).

Definition pipe_write_enter (node buf : bool) (flags : Z) (private : bool) (p : pipe) (c : write_call) : write_pc :=
  if negb node || negb buf || (wr_size c =? 0) then WDone 0
  else if negb private then WDone (-1)
  else if negb (wr_block c) && (Z.land flags VFS_FLAG_PIPE_WRITE =? 0) then WDone (-1)
  else if negb (wr_block c) && (size p <? wr_size c) then WDone 0
  else WLock false.

Definition pipe_write_step (t : nat) (fault : bool) (c : write_call) (q : write_pc) (p : pipe)
    : option (write_call * write_pc * pipe) :=
  let failed := if written c =? 0 then -1 else s32 (written c) in
  match q with
  | WLock waited =>
      if write_lock p then None
      else Some (c, if waited then WDrain else WLoad, set_write_lock true p)
  | WDrain =>
      let '(ok, s) := sem_try_acquire (sem_write p) in
      if ok : bool then Some (c, WDrain, set_sem_write s p) else Some (c, WLoad, p)
  | WLoad => Some (c, WReaders (write_ptr p) (room p (write_ptr p) (read_ptr p)), p)
  | WReaders wp space =>
      if readers p =? 0 then Some (c, WUnlock (Return failed), p)
      else if require_space p c <=? space then
        let want := wr_size c - written c in
        Some (c, WCopy wp (if negb (wr_block c) then want else if want <? space then want else space) 0, p)
      else if negb (wr_block c) then Some (c, WUnlock (Return 0), p)
      else Some (c, WUnlock Wait, p)
  | WCopy wp take i =>
      if i <? take then
        if wr_user c && fault then
          if i <? part1 p wp take then Some (c, WFail wp, p)
          else Some (c, WStore wp (part1 p wp take) false, p)
        else
          match arr_get (wr_data c) (written c + i) with
          | Ok b =>
              match arr_set (buffer p) (byte_index p wp take i) b with
              | Ok l => Some (c, WCopy wp take (i + 1), set_buffer l p)
              | _ => Some (c, WFault, p)
              end
          | _ => Some (c, WFault, p)
          end
      else Some (c, WStore wp take true, p)
  | WFail wp =>
      let p := if 0 <? room p wp (read_ptr p) then set_sem_write (sem_signal_all (sem_write p)) p else p in
      Some (c, WUnlock (Return failed), p)
  | WStore wp n ok =>
      Some (if ok then with_written (written c + n) c else c, WSignal (u32 (wp + n)) ok,
            store_write_ptr (u32 (wp + n)) t (slice (wr_data c) (Z.to_nat (written c)) (Z.to_nat n)) p)
  | WSignal e ok => Some (c, WAgain e ok, set_sem_read (sem_signal_all (sem_read p)) p)
  | WAgain e ok =>
      let p := if 0 <? room p e (read_ptr p) then set_sem_write (sem_signal_all (sem_write p)) p else p in
      Some (c, WUnlock (if ok then EndFor else Return (-1)), p)
  | WUnlock n =>
      Some (c, match n with
               | Return r => WDone r
               | Wait => WSem (SWait SEM_TRIES)
               | EndFor =>
                   if negb (wr_block c) then WDone (s32 (written c))
                   else if written c <? wr_size c then WLock false else WDone (s32 (written c))
               end, set_write_lock false p)
  | WSem s =>
      match sem_wait_step t s (sem_write p) with
      | Some (Some s', m) => Some (c, WSem s', set_sem_write m p)
      | Some (None, m) => Some (c, WLock true, set_sem_write m p)
      | None => None
      end
  | WDone _ | WFault => None
  end.

(** ** Closing an end *)

Inductive close_pc := CSub | CSignal | CDone.

(** [node->flags] of the end that is closed. *)
Definition pipe_close_step (flags : Z) (q : close_pc) (p : pipe) : option (close_pc * pipe) :=
  let is_read := negb (Z.land flags VFS_FLAG_PIPE_READ =? 0) in
  let is_write := negb (Z.land flags VFS_FLAG_PIPE_WRITE =? 0) in
  match q with
  | CSub =>
      if is_read then Some (CSignal, set_counts (s32 (readers p - 1)) (writers p) p)
      else if is_write then Some (CSignal, set_counts (readers p) (s32 (writers p - 1)) p)
      else Some (CDone, p)
  | CSignal =>
      if is_read then Some (CDone, set_sem_write (sem_signal_all (sem_write p)) p)
      else Some (CDone, set_sem_read (sem_signal_all (sem_read p)) p)
  | CDone => None
  end.

(** ** The system *)

Inductive thread :=
| TRead (c : read_call) (q : read_pc)
| TWrite (c : write_call) (q : write_pc)
| TClose (flags : Z) (q : close_pc).

Record system := System { shared : pipe; threads : list thread }.

Definition thread_step (t : nat) (fault : bool) (th : thread) (p : pipe) : option (thread * pipe) :=
  match th with
  | TRead c q => match pipe_read_step t fault c q p with Some (c, q, p) => Some (TRead c q, p) | None => None end
  | TWrite c q => match pipe_write_step t fault c q p with Some (c, q, p) => Some (TWrite c q, p) | None => None end
  | TClose f q => match pipe_close_step f q p with Some (q, p) => Some (TClose f q, p) | None => None end
  end.

Definition pipe_exec (l : nat * bool) (s : system) : option system :=
  match threads s !! l.1 with
  | None => None
  | Some th =>
      match thread_step l.1 l.2 th (shared s) with
      | Some (th, p) => Some (System p (<[l.1 := th]> (threads s)))
      | None => None
      end
  end.

Definition pipe_step : system → system → Prop := exec_step pipe_exec.

(** ** The stream invariant *)

(** The streams, and what is in the pipe. *)
Definition sent (p : pipe) : list Z := mjoin ((published p).*2).
Definition received (p : pipe) : list Z := mjoin ((taken p).*2).
Definition content (p : pipe) : list Z := drop (length (received p)) (sent p).

(** The bytes [d] stand in the buffer from stream position [x] on. *)
Definition holds (p : pipe) (x : Z) (d : list Z) : Prop :=
  ∀ k, (k < length d)%nat → buffer p !! Z.to_nat ((x + Z.of_nat k) `mod` size p) = d !! k.

Record pipe_inv (p : pipe) : Prop := PipeInv {
  inv_size : 0 < size p < 4294967296;
  inv_div : (size p | 4294967296);
  inv_buffer : zlen (buffer p) = size p;
  inv_prefix : received p `prefix_of` sent p;
  inv_content : zlen (content p) ≤ size p;
  inv_wptr : write_ptr p = u32 (zlen (sent p));
  inv_rptr : read_ptr p = u32 (zlen (received p));
  inv_holds : holds p (zlen (received p)) (content p) }.

Definition read_ok (p : pipe) (c : read_call) (q : read_pc) : Prop :=
  0 ≤ rd_size c ∧
  match q with
  | RCopy rp n i =>
      rp = read_ptr p ∧ 0 ≤ i ≤ n ∧ n ≤ zlen (content p) ∧ got c = take (Z.to_nat i) (content p)
  | RStore rp n _ =>
      rp = read_ptr p ∧ 0 ≤ n ≤ zlen (content p) ∧ take (Z.to_nat n) (got c) = take (Z.to_nat n) (content p)
  | RLock _ | RDrain | RLoad | RWriters | RSem _ | RUnlock Wait => got c = []
  | RFault => False
  | _ => True
  end.

Definition write_ok (p : pipe) (c : write_call) (q : write_pc) : Prop :=
  0 ≤ written c ≤ wr_size c ∧
  match q with
  | WReaders wp space => wp = write_ptr p ∧ 0 ≤ space ≤ size p - zlen (content p)
  | WCopy wp n i =>
      wp = write_ptr p ∧ 0 ≤ i ≤ n ∧ n ≤ size p - zlen (content p) ∧ written c + n ≤ wr_size c ∧
      holds p (zlen (sent p)) (slice (wr_data c) (Z.to_nat (written c)) (Z.to_nat i))
  | WStore wp n _ =>
      wp = write_ptr p ∧ 0 ≤ n ≤ size p - zlen (content p) ∧ written c + n ≤ wr_size c ∧
      holds p (zlen (sent p)) (slice (wr_data c) (Z.to_nat (written c)) (Z.to_nat n))
  | WFault => False
  | _ => True
  end.

Definition thread_ok (p : pipe) (th : thread) : Prop :=
  match th with TRead c q => read_ok p c q | TWrite c q => write_ok p c q | TClose _ _ => True end.

(** Inside the guard of [read_lock], of [write_lock]. *)
Definition reading (th : thread) : Z :=
  match th with
  | TRead _ (RDrain | RLoad | RWriters | RCopy _ _ _ | RFail _ | RStore _ _ _ | RSignal _ _ | RAgain _ _ | RUnlock _) => 1
  | _ => 0
  end.
Definition writing (th : thread) : Z :=
  match th with
  | TWrite _ (WDrain | WLoad | WReaders _ _ | WCopy _ _ _ | WFail _ | WStore _ _ _ | WSignal _ _ | WAgain _ _ | WUnlock _) => 1
  | _ => 0
  end.

Record sys_inv (s : system) : Prop := SysInv {
  sys_pipe : pipe_inv (shared s);
  sys_read : tally reading (threads s) = b2z (read_lock (shared s));
  sys_write : tally writing (threads s) = b2z (write_lock (shared s));
  sys_threads : Forall (thread_ok (shared s)) (threads s) }.

(** *** Positions in the ring *)

Lemma mod_shift x i n : 0 < n → 0 ≤ i < n →
  (x + i) `mod` n = if x `mod` n + i <? n then x `mod` n + i else x `mod` n + i - n.
Proof.
  intros Hn Hi. pose proof (Z.mod_pos_bound x n Hn). rewrite <- Zplus_mod_idemp_l. case_if.
  - apply Z.mod_small. lia.
  - symmetry. apply (Z.mod_unique _ _ 1); lia.
Qed.

Lemma mod_ne x i j n : 0 < n → 0 ≤ i → i < j → j - i < n → (x + i) `mod` n ≠ (x + j) `mod` n.
Proof.
  intros Hn Hi Hij Hlt. replace (x + j) with (x + i + (j - i)) by lia. pose proof (Z.mod_pos_bound (x + i) n Hn).
  rewrite (mod_shift (x + i) (j - i)) by lia. case_if; lia.
Qed.

(** Where the code's two-part copy puts byte [i]. *)
Lemma byte_index_mod p ptr n i :
  0 < size p → 0 ≤ i < n → n ≤ size p → byte_index p ptr n i = (ptr + i) `mod` size p.
Proof.
  intros Hs Hi Hn. rewrite mod_shift by lia. unfold byte_index, part1.
  pose proof (Z.mod_pos_bound ptr (size p) Hs). set (r := ptr `mod` size p) in *. simpl.
  destruct (n <? size p - r) eqn:E1, (r + i <? size p) eqn:E2; case_if; bool_simpl; lia.
Qed.

Lemma part1_le p ptr n : 0 < size p → 0 ≤ n → 0 ≤ part1 p ptr n ≤ n.
Proof. intros Hs Hn. pose proof (Z.mod_pos_bound ptr (size p) Hs). unfold part1. case_if; lia. Qed.

Lemma u32_position p x i : 0 < size p → (size p | 4294967296) → (u32 x + i) `mod` size p = (x + i) `mod` size p.
Proof.
  intros Hs Hd. rewrite <- Zplus_mod_idemp_l. unfold u32. rewrite Z.mod_mod_divide by done. apply Zplus_mod_idemp_l.
Qed.

Lemma u32_sub x y : 0 ≤ x - y < 4294967296 → u32 (u32 x - u32 y) = x - y.
Proof. intros H. unfold u32. rewrite <- Zminus_mod. by apply Z.mod_small. Qed.

Section Facts.
Context (p : pipe) (Hp : pipe_inv p).

Lemma sent_content : sent p = received p ++ content p.
Proof.
  destruct Hp as [_ _ _ [d Hd] _ _ _ _]. unfold content. rewrite Hd, drop_app_length. done.
Qed.

Lemma content_length : zlen (content p) = zlen (sent p) - zlen (received p).
Proof. pose proof (f_equal length sent_content) as H. rewrite length_app in H. lia. Qed.

Lemma available_content : u32 (write_ptr p - read_ptr p) = zlen (content p).
Proof.
  pose proof content_length. destruct Hp as [Hs _ _ _ Hc Hw Hr _]. rewrite Hw, Hr, u32_sub; lia.
Qed.

Lemma room_content : room p (write_ptr p) (read_ptr p) = size p - zlen (content p).
Proof. unfold room. rewrite available_content. destruct Hp. apply u32_small. lia. Qed.

(** The index the reader uses. *)
Lemma read_byte n i :
  0 ≤ i < n → n ≤ zlen (content p) →
  ∃ b, arr_get (buffer p) (byte_index p (read_ptr p) n i) = Ok b ∧
    take (Z.to_nat (i + 1)) (content p) = take (Z.to_nat i) (content p) ++ [b].
Proof.
  intros Hi Hn. destruct Hp as [Hs Hd Hb _ Hc _ Hr Hh].
  destruct (lookup_lt_is_Some_2 (content p) (Z.to_nat i)) as [b Hl]; [lia|]. exists b. split.
  - rewrite byte_index_mod, Hr, u32_position by (done || lia). apply arr_get_ok; [apply Z.mod_pos_bound; lia|].
    rewrite <- Hl, <- Hh by lia. by rewrite Z2Nat.id by lia.
  - rewrite Z2Nat.inj_add, Nat.add_1_r by lia. by apply take_S_r.
Qed.
End Facts.

(** *** What the steps do to the streams *)

(** Everything but locks, semaphores and end counters is the same. *)
Definition same_ring (p p' : pipe) : Prop :=
  read_ptr p' = read_ptr p ∧ write_ptr p' = write_ptr p ∧ buffer p' = buffer p ∧ size p' = size p ∧
  published p' = published p ∧ taken p' = taken p.

Lemma same_ring_inv p p' : same_ring p p' → pipe_inv p → pipe_inv p'.
Proof.
  destruct p, p'. unfold same_ring. simpl. intros (-> & -> & -> & -> & -> & ->) [? ? ? ? ? ? ? ?]. by split.
Qed.

Lemma same_ring_thread p p' th : same_ring p p' → thread_ok p th → thread_ok p' th.
Proof.
  destruct p, p'. unfold same_ring. simpl. intros (-> & -> & -> & -> & -> & ->). by destruct th.
Qed.

Lemma holds_app p x d e : holds p x (d ++ e) ↔ holds p x d ∧ holds p (x + zlen d) e.
Proof.
  unfold holds. rewrite length_app. split.
  - intros H. split; intros k Hk.
    + rewrite H by lia. by rewrite lookup_app_l.
    + replace (x + zlen d + Z.of_nat k) with (x + Z.of_nat (length d + k)) by lia. rewrite H by lia.
      rewrite lookup_app_r by lia. f_equal. lia.
  - intros [H1 H2] k Hk. destruct (decide (k < length d)%nat) as [Hlt|Hge].
    + rewrite H1 by done. by rewrite lookup_app_l.
    + replace (x + Z.of_nat k) with (x + zlen d + Z.of_nat (k - length d)) by lia. rewrite H2 by lia.
      by rewrite lookup_app_r by lia.
Qed.

(** A write outside the span of [d]. *)
Lemma holds_set_buffer p x d y b :
  0 < size p → (∀ k, (k < length d)%nat → (x + Z.of_nat k) `mod` size p ≠ y `mod` size p) →
  holds p x d → holds (set_buffer (<[Z.to_nat (y `mod` size p) := b]> (buffer p)) p) x d.
Proof.
  intros Hs Hne Hh k Hk. simpl. rewrite list_lookup_insert_ne; [by apply Hh|].
  specialize (Hne k Hk). pose proof (Z.mod_pos_bound (x + Z.of_nat k) (size p) Hs).
  pose proof (Z.mod_pos_bound y (size p) Hs). lia.
Qed.

Lemma store_read_inv p t n :
  pipe_inv p → 0 ≤ n ≤ zlen (content p) →
  let p' := store_read_ptr (u32 (read_ptr p + n)) t (take (Z.to_nat n) (content p)) p in
  pipe_inv p' ∧ sent p' = sent p ∧ content p' = drop (Z.to_nat n) (content p).
Proof.
  intros Hp Hn p'. pose proof (sent_content p Hp) as Hsc.
  assert (received p' = received p ++ take (Z.to_nat n) (content p)) as Hrec.
  { unfold received, p'. simpl. rewrite fmap_app, join_app. simpl. by rewrite app_nil_r. }
  assert (sent p' = sent p) as Hsent by done.
  assert (content p' = drop (Z.to_nat n) (content p)) as Hcon.
  { unfold content at 1. rewrite Hsent, Hsc, Hrec, length_app, <- drop_drop, drop_app_length.
    rewrite length_take, Nat.min_l by lia. done. }
  split; [|done]. destruct (Hp) as [Hs Hd Hb Hpre Hc Hw Hr Hh]. split; try done.
  - rewrite Hrec, Hsent, Hsc. apply prefix_app. apply prefix_take.
  - rewrite Hcon, length_drop. change (size p') with (size p). lia.
  - rewrite Hrec, length_app, length_take, Nat.min_l by lia. change (read_ptr p') with (u32 (read_ptr p + n)).
    rewrite Hr. unfold u32. rewrite Zplus_mod_idemp_l. f_equal. lia.
  - rewrite Hcon, Hrec. rewrite <- (take_drop (Z.to_nat n) (content p)) in Hh. apply holds_app in Hh as [_ Hh].
    rewrite length_app, Nat2Z.inj_add. exact Hh.
Qed.

Lemma store_write_inv p t d :
  pipe_inv p → zlen d ≤ size p - zlen (content p) → holds p (zlen (sent p)) d →
  let p' := store_write_ptr (u32 (write_ptr p + zlen d)) t d p in
  pipe_inv p' ∧ received p' = received p ∧ content p' = content p ++ d.
Proof.
  intros Hp Hn Hd p'. pose proof (sent_content p Hp) as Hsc. pose proof (content_length p Hp) as Hlen.
  assert (sent p' = sent p ++ d) as Hsent.
  { unfold sent, p'. simpl. rewrite fmap_app, join_app. simpl. by rewrite app_nil_r. }
  assert (received p' = received p) as Hrec by done.
  assert (content p' = content p ++ d) as Hcon.
  { unfold content at 1. rewrite Hsent, Hrec, Hsc, <- (assoc_L (++)), drop_app_length. done. }
  split; [|done]. destruct (Hp) as [Hs Hdv Hb Hpre Hc Hw Hr Hh]. split; try done.
  - rewrite Hrec, Hsent. by apply prefix_app_r.
  - rewrite Hcon, length_app. change (size p') with (size p). lia.
  - rewrite Hsent, length_app. change (write_ptr p') with (u32 (write_ptr p + zlen d)).
    rewrite Hw. unfold u32. rewrite Zplus_mod_idemp_l. f_equal. lia.
  - rewrite Hcon, Hrec. apply holds_app. split; [exact Hh|].
    replace (zlen (received p) + zlen (content p)) with (zlen (sent p)) by lia. exact Hd.
Qed.

(** The writer puts one byte behind the content. *)
Lemma write_byte p c wp n i :
  pipe_inv p → write_ok p c (WCopy wp n i) → i < n →
  ∃ b l, arr_get (wr_data c) (written c + i) = Ok b ∧
    arr_set (buffer p) (byte_index p wp n i) b = Ok l ∧
    pipe_inv (set_buffer l p) ∧ write_ok (set_buffer l p) c (WCopy wp n (i + 1)).
Proof.
  intros Hp (Hwr & -> & Hi & Hn & Hsz & Hh) Hlt. pose proof (content_length p Hp) as Hlen.
  destruct (Hp) as [Hs Hdv Hb Hpre Hc Hw Hr Hcon].
  destruct (arr_get_total (wr_data c) (written c + i)) as (b & Hget & Hlook); [lia|].
  assert (byte_index p (write_ptr p) n i = (zlen (sent p) + i) `mod` size p) as Hidx.
  { rewrite byte_index_mod, Hw, u32_position by (done || lia). done. }
  pose proof (Z.mod_pos_bound (zlen (sent p) + i) (size p) ltac:(lia)) as Hrange.
  exists b, (<[Z.to_nat ((zlen (sent p) + i) `mod` size p) := b]> (buffer p)). split_and!; [done| | |].
  - rewrite Hidx. apply arr_set_ok. lia.
  - split; try done.
    + simpl. by rewrite length_insert.
    + apply holds_set_buffer; [lia| |done]. intros k Hk. change (content (set_buffer _ p)) with (content p) in Hk.
      replace (zlen (sent p) + i) with (zlen (received p) + (zlen (content p) + i)) by lia. apply mod_ne; lia.
  - split; [done|]. cbn [write_ptr set_buffer size]. split_and!; try done; try lia.
    rewrite Z2Nat.inj_add by lia. change (Z.to_nat 1) with 1%nat. rewrite Nat.add_1_r. unfold slice.
    rewrite (take_S_r _ _ b) by (rewrite lookup_drop, <- Hlook; f_equal; lia). apply holds_app.
    assert (length (take (Z.to_nat i) (drop (Z.to_nat (written c)) (wr_data c))) = Z.to_nat i) as Hti.
    { rewrite length_take, length_drop. lia. }
    split.
    + apply holds_set_buffer; [lia| |exact Hh]. intros k Hk. rewrite Hti in Hk. apply mod_ne; lia.
    + intros k Hk. simpl in Hk. assert (k = 0%nat) as -> by lia. simpl. rewrite Hti.
      rewrite Z2Nat.id, Z.add_0_r by lia. apply list_lookup_insert_eq. lia.
Qed.

(** *** Every step keeps the invariant *)

Ltac same_ring_done := repeat split; try done.

Lemma read_step_cases t f c q p c' q' p' :
  pipe_inv p → read_ok p c q → reading (TRead c q) ≤ b2z (read_lock p) →
  pipe_read_step t f c q p = Some (c', q', p') →
  read_ok p' c' q' ∧ write_lock p' = write_lock p ∧
  reading (TRead c' q') - reading (TRead c q) = b2z (read_lock p') - b2z (read_lock p) ∧
  (same_ring p p' ∨
   ∃ n, reading (TRead c q) = 1 ∧ 0 ≤ n ≤ zlen (content p) ∧
        p' = store_read_ptr (u32 (read_ptr p + n)) t (take (Z.to_nat n) (content p)) p).
Proof.
  intros Hp [Hsz Hok] Hlk Hst. pose proof (available_content p Hp) as Hav. destruct (Hp) as [Hs _ _ _ _ _ _ _].
  unfold pipe_read_step in Hst. destruct q; simpl in Hst.
  - destruct (read_lock p) eqn:E; [done|]. simplify_eq. split_and!; [|done| |left; same_ring_done].
    + split; [done|]. by destruct waited.
    + by destruct waited.
  - unfold sem_try_acquire in Hst. repeat case_match; simplify_eq; (split_and!; [done|done|simpl; lia|left; same_ring_done]).
  - rewrite Hav in Hst. case_match; simplify_eq; bool_simpl; (split_and!; [|done|simpl; lia|left; same_ring_done]); [|done].
    split; [done|]. split; [done|]. rewrite Hok. case_if; (split_and!; [lia|lia|lia|done]).
  - repeat case_match; simplify_eq; (split_and!; [done|done|simpl; lia|left; same_ring_done]).
  - destruct Hok as (-> & Hi & Hn & Hgot). pose proof (part1_le p (read_ptr p) take ltac:(lia) ltac:(lia)) as Hp1.
    destruct (i <? take) eqn:E; bool_simpl.
    + destruct (rd_user c && f); [case_match; bool_simpl|]; simplify_eq.
      * split_and!; [done|done|simpl; lia|left; same_ring_done].
      * split_and!; [|done|simpl; lia|left; same_ring_done]. split; [done|]. split_and!; [done|lia|lia|].
        rewrite Hgot, take_take, Nat.min_l by lia. done.
      * destruct (read_byte p Hp take i) as (b & Hb & Htk); [lia|lia|]. rewrite Hb in Hst. simplify_eq.
        split_and!; [|done|simpl; lia|left; same_ring_done]. split; [done|]. simpl. split_and!; [done|lia|lia|done|].
        by rewrite Hgot, <- Htk.
    + simplify_eq. split_and!; [|done|simpl; lia|left; same_ring_done]. split; [done|]. split_and!; [done|lia|lia|].
      rewrite Hgot, take_take, Nat.min_l by lia. done.
  - simplify_eq. case_if; (split_and!; [done|done|simpl; lia|left; same_ring_done]).
  - destruct Hok as (-> & Hn & Hgot). rewrite Hgot in Hst. simplify_eq.
    split_and!; [done|done|simpl; lia|right; by exists n].
  - simplify_eq. split_and!; [done|done|simpl; lia|left; same_ring_done].
  - simplify_eq. destruct ok; case_if; (split_and!; [done|done|simpl; lia|left; same_ring_done]).
  - simplify_eq. split_and!; [|done| |left; same_ring_done].
    + split; [done|]. by destruct n.
    + simpl in *. destruct (read_lock p); simpl in *; destruct n; lia.
  - destruct (sem_wait_step t q (sem_read p)) as [[[s'|] m]|]; simplify_eq;
      (split_and!; [done|done|simpl; lia|left; same_ring_done]).
  - done.
  - done.
Qed.

Lemma slice_length (c : write_call) n :
  0 ≤ written c → 0 ≤ n → written c + n ≤ wr_size c →
  zlen (slice (wr_data c) (Z.to_nat (written c)) (Z.to_nat n)) = n.
Proof. intros. rewrite length_slice. lia. Qed.

Lemma holds_slice_le p x d off n m :
  (m ≤ n)%nat → holds p x (slice d off n) → holds p x (slice d off m).
Proof.
  intros Hm Hh. unfold slice in *.
  assert (take n (drop off d) = take m (drop off d) ++ drop m (take n (drop off d))) as Heq.
  { rewrite <- (take_drop m (take n (drop off d))) at 1. by rewrite take_take, Nat.min_l by lia. }
  rewrite Heq in Hh. by apply holds_app in Hh as [? _].
Qed.

(** The store of [write_ptr], or one byte, or nothing in the ring. *)
Definition write_effect (t : nat) (c : write_call) (p p' : pipe) : Prop :=
  same_ring p p' ∨
  (∃ l, p' = set_buffer l p) ∨
  (∃ n, 0 ≤ n ≤ size p - zlen (content p) ∧ written c + n ≤ wr_size c ∧
     holds p (zlen (sent p)) (slice (wr_data c) (Z.to_nat (written c)) (Z.to_nat n)) ∧
     p' = store_write_ptr (u32 (write_ptr p + n)) t (slice (wr_data c) (Z.to_nat (written c)) (Z.to_nat n)) p).

Lemma write_copy_case t f c wp n i p c' q' p' :
  pipe_inv p → write_ok p c (WCopy wp n i) →
  pipe_write_step t f c (WCopy wp n i) p = Some (c', q', p') →
  pipe_inv p' ∧ write_ok p' c' q' ∧ writing (TWrite c' q') = 1 ∧ read_lock p' = read_lock p ∧
  write_lock p' = write_lock p ∧ write_effect t c p p'.
Proof.
  intros Hp Hok Hst. destruct (Hok) as (Hwr & -> & Hi & Hn & Hsz & Hh). destruct (Hp) as [Hs _ _ _ _ _ _ _].
  pose proof (part1_le p (write_ptr p) n ltac:(lia) ltac:(lia)) as Hp1. cbn [pipe_write_step] in Hst.
  destruct (i <? n) eqn:E; bool_simpl; [destruct (wr_user c && f); [case_match; bool_simpl|]|]; simplify_eq.
  - split_and!; try done. left. same_ring_done.
  - split_and!; try done; [|left; same_ring_done]. split; [done|]. split_and!; [done|lia|lia|lia|].
    eapply holds_slice_le; [|exact Hh]. lia.
  - destruct (write_byte p c (write_ptr p) n i Hp Hok E) as (b & l & Hg & Hset & Hp' & Hok').
    rewrite Hg, Hset in Hst. simplify_eq. split_and!; try done. right. left. by exists l.
  - split_and!; try done; [|left; same_ring_done]. split; [done|]. split_and!; [done|lia|lia|lia|].
    replace n with i by lia. exact Hh.
Qed.

Lemma write_step_cases t f c q p c' q' p' :
  pipe_inv p → write_ok p c q → writing (TWrite c q) ≤ b2z (write_lock p) →
  pipe_write_step t f c q p = Some (c', q', p') →
  pipe_inv p' ∧ write_ok p' c' q' ∧ read_lock p' = read_lock p ∧
  writing (TWrite c' q') - writing (TWrite c q) = b2z (write_lock p') - b2z (write_lock p) ∧
  (same_ring p p' ∨ writing (TWrite c q) = 1 ∧ write_effect t c p p').
Proof.
  intros Hp Hok Hlk Hst. pose proof (room_content p Hp) as Hroom. pose proof (inv_size p Hp) as Hs.
  pose proof (inv_content p Hp) as Hct.
  assert (same_ring p p' → pipe_inv p') as Hsame by (intros; by eapply same_ring_inv).
  destruct q; try (destruct Hok as [Hwr Hok]); try (cbn [pipe_write_step] in Hst).
  - destruct (write_lock p) eqn:E; [done|]. simplify_eq. split_and!; [apply Hsame; same_ring_done| |done| |left; same_ring_done].
    + split; [done|]. by destruct waited.
    + by destruct waited.
  - unfold sem_try_acquire in Hst.
    repeat case_match; simplify_eq; (split_and!; [apply Hsame; same_ring_done|done|done|simpl; lia|left; same_ring_done]).
  - simplify_eq. split_and!; [done| |done|simpl; lia|left; same_ring_done]. split; [done|]. rewrite Hroom. split; [done|lia].
  - destruct Hok as [-> Hsp]. unfold require_space in Hst.
    assert (∀ n, 0 ≤ n ≤ space → written c + n ≤ wr_size c → write_ok p c (WCopy (write_ptr p) n 0)) as Hcopy.
    { intros n Hn Hw. split; [done|]. split_and!; [done|lia|lia|lia|lia|]. intros k Hk. simpl in Hk. unfold slice in Hk. simpl in Hk. lia. }
    destruct (readers p =? 0); [simplify_eq; split_and!; try done; [simpl; lia|left; same_ring_done]|].
    destruct (wr_block c), (wr_size c <=? size p) eqn:El; simpl in Hst; bool_simpl; repeat case_match; simplify_eq; bool_simpl;
      (split_and!; [done| |done|simpl; lia|left; same_ring_done]); try done; apply Hcopy; lia.
  - destruct (write_copy_case t f c wp take i p c' q' p' Hp (conj Hwr Hok) Hst) as (H1 & H2 & H3 & H4 & H5 & H6).
    split_and!; try done; [rewrite H3, H5; simpl; lia|]. right. by split.
  - simplify_eq. case_if; (split_and!; [apply Hsame; same_ring_done|done|done|simpl; lia|left; same_ring_done]).
  - destruct Hok as (-> & Hn & Hle & Hh). pose proof (slice_length c n ltac:(lia) ltac:(lia) Hle) as Hsl.
    destruct (store_write_inv p t (slice (wr_data c) (Z.to_nat (written c)) (Z.to_nat n)) Hp) as (Hp' & _ & _); [lia|done|].
    rewrite Hsl in Hp'. simplify_eq. split_and!; [done| |done|simpl; lia|right; split; [done|]].
    + split; [|done]. destruct ok; simpl; lia.
    + right. right. exists n. split_and!; done || lia.
  - simplify_eq. split_and!; [apply Hsame; same_ring_done|done|done|simpl; lia|left; same_ring_done].
  - simplify_eq. destruct ok; case_if; (split_and!; [apply Hsame; same_ring_done|done|done|simpl; lia|left; same_ring_done]).
  - simplify_eq. split_and!; [apply Hsame; same_ring_done| |done| |left; same_ring_done].
    + split; [done|]. destruct n; try done. repeat case_if; done.
    + simpl in *. destruct (write_lock p); simpl in *; destruct n; repeat case_if; simpl; lia.
  - destruct (sem_wait_step t q (sem_write p)) as [[[s'|] m]|]; simplify_eq;
      (split_and!; [apply Hsame; same_ring_done|done|done|simpl; lia|left; same_ring_done]).
  - done.
  - done.
Qed.

(** Threads outside both guards do not depend on the ring. *)
Lemma outside_ok p p' th : reading th = 0 → writing th = 0 → thread_ok p th → thread_ok p' th.
Proof. destruct th as [c q|c q|f q]; [|destruct q|]; try done. by destruct q as [| | | | | | | | |[]| | |]. Qed.

Lemma writer_after_take p n t th :
  pipe_inv p → 0 ≤ n ≤ zlen (content p) → reading th = 0 → thread_ok p th →
  thread_ok (store_read_ptr (u32 (read_ptr p + n)) t (take (Z.to_nat n) (content p)) p) th.
Proof.
  intros Hp Hn Hr Hok. destruct (store_read_inv p t n Hp Hn) as (_ & Hsent & Hcon). set (p' := store_read_ptr _ _ _ _) in *.
  assert (zlen (content p') ≤ zlen (content p)) as Hle by (rewrite Hcon, length_drop; lia).
  destruct th as [c q|c q|f q]; [by apply (outside_ok p)| |done]. destruct Hok as [Hwr Hok].
  destruct q; (split; [done|]); try done.
  - destruct Hok as [-> Hsp]. split; [done|]. change (size p') with (size p). lia.
  - destruct Hok as (-> & Hi & Hsp & Hw & Hh). split_and!; [done|lia|lia|change (size p') with (size p); lia|lia|exact Hh].
  - destruct Hok as (-> & Hi & Hw & Hh). split_and!; [done|lia|change (size p') with (size p); lia|lia|exact Hh].
Qed.

Lemma reader_after_write p t c th p' :
  pipe_inv p → write_effect t c p p' → 0 ≤ written c → writing th = 0 → thread_ok p th → thread_ok p' th.
Proof.
  intros Hp Heff Hwr Hw Hok. destruct th as [rc q|wc q|f q]; [|by apply (outside_ok p)|done].
  destruct Heff as [Hsame|[[l ->]|(n & Hn & Hle & Hh & ->)]]; [by eapply (same_ring_thread p p' (TRead rc q))|done|].
  pose proof (slice_length c n ltac:(lia) ltac:(lia) Hle) as Hsl.
  destruct (store_write_inv p t (slice (wr_data c) (Z.to_nat (written c)) (Z.to_nat n)) Hp) as (_ & _ & Hcon); [lia|done|].
  rewrite Hsl in Hcon. set (p' := store_write_ptr _ _ _ _) in *. destruct Hok as [Hsz Hok]. destruct q; (split; [done|]); try done.
  - destruct Hok as (-> & Hi & Htk & Hg). rewrite Hcon, length_app. split_and!; [done|lia|lia|lia|].
    rewrite take_app_le by lia. done.
  - destruct Hok as (-> & Hi & Hg). rewrite Hcon, length_app. split_and!; [done|lia|lia|].
    rewrite take_app_le by lia. done.
Qed.

Lemma sys_build s i th th' p' :
  sys_inv s → threads s !! i = Some th → pipe_inv p' → thread_ok p' th' →
  (∀ j t, j ≠ i → threads s !! j = Some t → thread_ok (shared s) t → thread_ok p' t) →
  reading th' - reading th = b2z (read_lock p') - b2z (read_lock (shared s)) →
  writing th' - writing th = b2z (write_lock p') - b2z (write_lock (shared s)) →
  sys_inv (System p' (<[i := th']> (threads s))).
Proof.
  intros [Hp Hr Hw Hth] Hi Hp' Hok Hoth H1 H2. split; simpl; tally_step; try done; [lia|lia|].
  apply Forall_lookup_2. intros j t Hj. apply list_lookup_insert_Some in Hj as [(_ & <- & _)|[Hne Hj]]; [done|].
  apply (Hoth j); [done|done|]. by apply (Forall_lookup_1 _ _ _ _ Hth Hj).
Qed.

(** Two threads are not inside the same guard. *)
Lemma guard_exclusive f s b i j th t :
  (∀ x, 0 ≤ f x) → tally f (threads s) = b2z b → threads s !! i = Some th → threads s !! j = Some t →
  j ≠ i → f th = 1 → f t = 0.
Proof.
  intros Hf Htal Hi Hj Hne H1. pose proof (tally_two f _ _ _ _ _ Hf Hne Hj Hi). pose proof (Hf t).
  unfold b2z in Htal. case_match; lia.
Qed.

Lemma reading_nonneg th : 0 ≤ reading th.
Proof. by destruct th as [c []|c q|f q]. Qed.
Lemma writing_nonneg th : 0 ≤ writing th.
Proof. by destruct th as [c q|c []|f q]. Qed.

Lemma sys_inv_step s s' : sys_inv s → pipe_step s s' → sys_inv s'.
Proof.
  intros Hinv [[i f] Hst]. unfold pipe_exec in Hst. simpl in Hst. destruct (threads s !! i) as [th|] eqn:Hi; [|done].
  destruct (Hinv) as [Hp Hr Hw Hth]. pose proof (Forall_lookup_1 _ _ _ _ Hth Hi) as Hok.
  pose proof (tally_le reading _ _ _ reading_nonneg Hi) as Hlr. pose proof (tally_le writing _ _ _ writing_nonneg Hi) as Hlw.
  destruct th as [c q|c q|fl q]; simpl in Hst.
  - destruct (pipe_read_step i f c q (shared s)) as [[[c' q'] p']|] eqn:E; [|done]. injection Hst as <-.
    destruct (read_step_cases i f c q (shared s) c' q' p' Hp Hok ltac:(lia) E) as (Hok' & Hwl & Hd & Heff).
    eapply sys_build; [done|exact Hi| |exact Hok'| |exact Hd|rewrite Hwl; simpl; lia].
    + destruct Heff as [Hsame|(n & _ & Hn & ->)]; [by eapply same_ring_inv|by apply store_read_inv].
    + intros j t Hne Hj Ht. destruct Heff as [Hsame|(n & H1 & Hn & ->)]; [by eapply same_ring_thread|].
      apply writer_after_take; try done. by eapply (guard_exclusive reading s _ i j); eauto using reading_nonneg.
  - destruct (pipe_write_step i f c q (shared s)) as [[[c' q'] p']|] eqn:E; [|done]. injection Hst as <-.
    destruct (write_step_cases i f c q (shared s) c' q' p' Hp Hok ltac:(lia) E) as (Hp' & Hok' & Hrl & Hd & Heff).
    eapply sys_build; [done|exact Hi|exact Hp'|exact Hok'| |rewrite Hrl; simpl; lia|exact Hd].
    intros j t Hne Hj Ht. destruct Heff as [Hsame|[H1 Heff]]; [by eapply same_ring_thread|].
    apply (reader_after_write (shared s) i c t p'); [done|done|apply (proj1 Hok)| |done].
    by eapply (guard_exclusive writing s _ i j); eauto using writing_nonneg.
  - destruct (pipe_close_step fl q (shared s)) as [[q' p']|] eqn:E; [|done]. injection Hst as <-.
    assert (same_ring (shared s) p' ∧ read_lock p' = read_lock (shared s) ∧ write_lock p' = write_lock (shared s)) as (Hsame & H1 & H2).
    { unfold pipe_close_step in E. destruct q; repeat case_match; simplify_eq; (split; [same_ring_done|done]). }
    eapply sys_build; [done|exact Hi|by eapply same_ring_inv|done| |rewrite H1; simpl; lia|rewrite H2; simpl; lia].
    intros j t Hne Hj Ht. by eapply same_ring_thread.
Qed.

(** ** Creation, polling *)

(** The pipe [vfs_create_pipe] sets up; [buf] is the fresh memory of the buffer. *)
Definition new_pipe (buf : list Z) : pipe :=
  Pipe false 0 1 false 0 1 (sem_init 0) (sem_init 0) buf PIPE_SIZE [] [].

Inductive object := OPipe | OBuffer | OReadNode | OWriteNode.

#[export] Instance object_eq_dec : EqDecision object.
Proof. solve_decision. Defined.

Definition kfree (o : object) (live : list object) : list object := filter (λ x, x ≠ o) live.

(** [vfs_create_pipe] with the outcomes of its four [kmalloc] calls: the result
    and the objects that are allocated afterwards. *)
Definition vfs_create_pipe (read_node write_node : bool) (m1 m2 m3 m4 : bool) : Z * list object :=
  if negb read_node || negb write_node then (-1, [])
  else if negb m1 then (-1, [])
  else if negb m2 then (-1, kfree OPipe [OPipe])
  else if negb m3 || negb m4 then
    let live := [OPipe; OBuffer] ++ (if m3 then [OReadNode] else []) ++ (if m4 then [OWriteNode] else []) in
    let live := if m3 then kfree OReadNode live else live in
    let live := if m4 then kfree OWriteNode live else live in
    (-1, kfree OPipe (kfree OBuffer live))
  else (0, [OPipe; OBuffer; OReadNode; OWriteNode]).

Definition VFS_POLLIN : Z := 1.
Definition VFS_POLLOUT : Z := 4.
Definition VFS_POLLERR : Z := 8.
Definition VFS_POLLHUP : Z := 16.

Record poll_info := PollInfo { pi_ret : Z; pi_available : Z; pi_space : Z; pi_readers : Z; pi_writers : Z }.

Definition pipe_poll_info (node : bool) (flags : Z) (private : bool) (p : pipe) : poll_info :=
  if negb node then PollInfo (-1) 0 0 0 0
  else if Z.land flags (Z.lor VFS_FLAG_PIPE_READ VFS_FLAG_PIPE_WRITE) =? 0 then PollInfo (-1) 0 0 0 0
  else if negb private then PollInfo (-1) 0 0 0 0
  else
    let available := u32 (write_ptr p - read_ptr p) in
    PollInfo 0 available (u32 (size p - available)) (readers p) (writers p).

Definition pipe_vfs_poll_status (node : bool) (flags : Z) (private : bool) (events : Z) (p : pipe) : Z :=
  if negb node then 0
  else if Z.land flags (Z.lor VFS_FLAG_PIPE_READ VFS_FLAG_PIPE_WRITE) =? 0 then 0
  else if negb private then VFS_POLLHUP
  else
    let i := pipe_poll_info node flags private p in
    if negb (pi_ret i =? 0) then VFS_POLLERR
    else
      let rev := 0 in
      let rev :=
        if negb (Z.land flags VFS_FLAG_PIPE_READ =? 0) then
          let rev := if negb (Z.land events VFS_POLLIN =? 0) && (0 <? pi_available i) then Z.lor rev VFS_POLLIN else rev in
          if pi_writers i =? 0 then Z.lor rev VFS_POLLHUP else rev
        else rev in
      if negb (Z.land flags VFS_FLAG_PIPE_WRITE =? 0) then
        let rev := if negb (Z.land events VFS_POLLOUT =? 0) && (0 <? pi_readers i) && (0 <? pi_space i)
                   then Z.lor rev VFS_POLLOUT else rev in
        if pi_readers i =? 0 then Z.lor rev VFS_POLLHUP else rev
      else rev.

(** ** Runs *)

(** The calls made on one pipe: the node, its flags and [private_data], then the arguments. *)
Inductive call :=
| Read (node buf : bool) (flags : Z) (private : bool) (size : Z) (block user : bool)
| Write (node buf : bool) (flags : Z) (private : bool) (data : list Z) (block user : bool)
| Close (flags : Z).

Definition start (p : pipe) (c : call) : thread :=
  match c with
  | Read node buf flags private sz block user =>
      let rc := ReadCall sz block user [] in TRead rc (pipe_read_enter node buf flags private rc)
  | Write node buf flags private data block user =>
      let wc := WriteCall data block user 0 in TWrite wc (pipe_write_enter node buf flags private p wc)
  | Close flags => TClose flags CSub
  end.

(** The functions behind the file operations and the non-blocking system calls. *)
Definition pipe_read (sz : Z) : call := Read true true VFS_FLAG_PIPE_READ true sz true false.
Definition pipe_read_nonblock (sz : Z) : call := Read true true VFS_FLAG_PIPE_READ true sz false true.
Definition pipe_write (data : list Z) : call := Write true true VFS_FLAG_PIPE_WRITE true data true false.
Definition pipe_write_nonblock (data : list Z) : call := Write true true VFS_FLAG_PIPE_WRITE true data false true.

Definition call_ok (c : call) : Prop := match c with Read _ _ _ _ sz _ _ => 0 ≤ sz | _ => True end.

Definition initial (buf : list Z) (calls : list call) : system :=
  System (new_pipe buf) (start (new_pipe buf) <$> calls).

Lemma sys_inv_initial buf calls : zlen buf = PIPE_SIZE → Forall call_ok calls → sys_inv (initial buf calls).
Proof.
  intros Hbuf Hcalls.
  assert (Forall (λ th, reading th = 0 ∧ writing th = 0 ∧ thread_ok (new_pipe buf) th) (start (new_pipe buf) <$> calls)) as Hall.
  { apply Forall_fmap. eapply Forall_impl; [exact Hcalls|]. intros [] Hc; simpl in *.
    - unfold pipe_read_enter, read_ok. repeat case_if; done.
    - unfold pipe_write_enter, write_ok. repeat case_if; simpl; split_and!; try done; lia.
    - done. }
  assert (∀ f, Forall (λ th, f th = 0) (start (new_pipe buf) <$> calls) → tally f (start (new_pipe buf) <$> calls) = 0) as Hz.
  { intros f Hf. induction (start (new_pipe buf) <$> calls) as [|th ths IH] in Hf |- *; [done|].
    apply Forall_cons in Hf as [Hth Hf]. rewrite tally_cons, Hth, IH by done. done. }
  split; simpl.
  - split; try done; [by exists 131072|]. intros k Hk. unfold content, sent in Hk. simpl in Hk. lia.
  - apply Hz. eapply Forall_impl; [exact Hall|]. by intros th (? & _).
  - apply Hz. eapply Forall_impl; [exact Hall|]. by intros th (_ & ? & _).
  - eapply Forall_impl; [exact Hall|]. by intros th (_ & _ & ?).
Qed.

Lemma pipe_reachable buf calls s :
  zlen buf = PIPE_SIZE → Forall call_ok calls → rtc pipe_step (initial buf calls) s → sys_inv s.
Proof.
  intros Hb Hc. apply (invariant_rtc pipe_step sys_inv); [apply sys_inv_step|by apply sys_inv_initial].
Qed.

(** ** Small writes are atomic *)

(** A kernel-buffer write that fits the pipe: it waits for room for all of its data. *)
Definition small (psize : Z) (c : write_call) : Prop := wr_user c = false ∧ wr_size c ≤ psize.

Definition phase_ok (c : write_call) (q : write_pc) : Prop :=
  match q with
  | WCopy _ n _ => written c = 0 ∧ n = wr_size c
  | WStore _ n ok => ok = true ∧ written c = 0 ∧ n = wr_size c
  | WSignal _ ok | WAgain _ ok => ok = true ∧ written c = wr_size c
  | WUnlock EndFor => written c = wr_size c
  | WLock _ | WDrain | WLoad | WReaders _ _ | WSem _ | WUnlock Wait => written c = 0
  | _ => True
  end.

Record atomic_inv (s : system) : Prop := AtomicInv {
  at_phase : ∀ i c q, threads s !! i = Some (TWrite c q) → small (size (shared s)) c → phase_ok c q;
  at_log : ∀ i d c q, (i, d) ∈ published (shared s) → threads s !! i = Some (TWrite c q) →
    small (size (shared s)) c → d = wr_data c;
  at_writers : ∀ i d, (i, d) ∈ published (shared s) → ∃ c q, threads s !! i = Some (TWrite c q) }.

(** A step of a small write. *)
Lemma phase_step t f c q p c' q' p' :
  small (size p) c → phase_ok c q → pipe_write_step t f c q p = Some (c', q', p') →
  phase_ok c' q' ∧ (∀ d, published p' = published p ++ [(t, d)] → d = wr_data c).
Proof.
  intros [Hu Hsz] Hph Hst.
  assert (∀ p2 : pipe, published p2 = published p → ∀ d, published p2 = published p ++ [(t, d)] → d = wr_data c) as Hno.
  { intros p2 H2 d Hd. rewrite H2 in Hd. apply (f_equal length) in Hd. rewrite length_app in Hd. simpl in Hd. lia. }
  destruct q; cbn [pipe_write_step phase_ok] in *; rewrite ?Hu in Hst.
  7: { destruct Hph as (-> & Hw & ->). simplify_eq. split; [split; [done|simpl; lia]|]. simpl. intros d Hd.
       apply app_inj_2 in Hd as [_ Hd]; [|done]. simplify_eq. rewrite Hw, Nat2Z.id. unfold slice. by rewrite take_ge. }
  all: unfold require_space, sem_try_acquire in Hst.
  all: repeat case_match; simplify_eq; (split; [|by apply Hno]); simpl in *; bool_simpl; intuition (try congruence; try lia).
  all: rewrite (proj2 (Z.leb_le _ _)) in * by lia; rewrite ?orb_true_r in *; bool_simpl; simpl in *; try congruence; lia.
Qed.

Lemma write_args t f c q p c' q' p' :
  pipe_write_step t f c q p = Some (c', q', p') →
  wr_data c' = wr_data c ∧ wr_user c' = wr_user c ∧ size p' = size p ∧
  (published p' = published p ∨ ∃ d, published p' = published p ++ [(t, d)]).
Proof.
  intros Hst. destruct q; cbn [pipe_write_step] in Hst; repeat case_match; simplify_eq; simpl; eauto 6.
Qed.

(** Readers and closers publish nothing. *)
Lemma other_args t f th p th' p' :
  thread_step t f th p = Some (th', p') → (∀ c q, th ≠ TWrite c q) →
  (∀ c q, th' ≠ TWrite c q) ∧ size p' = size p ∧ published p' = published p.
Proof.
  intros Hst Hne. destruct th as [c q|c q|fl q]; simpl in Hst; [|by destruct (Hne c q)|].
  - destruct q; cbn [pipe_read_step] in Hst; repeat case_match; simplify_eq; done.
  - destruct q; cbn [pipe_close_step] in Hst; repeat case_match; simplify_eq; done.
Qed.

Lemma atomic_step s s' : atomic_inv s → pipe_step s s' → atomic_inv s'.
Proof.
  intros [Hph Hlog Hwr] [[t f] Hst]. unfold pipe_exec in Hst. simpl in Hst.
  destruct (threads s !! t) as [th|] eqn:Ht; [|done].
  destruct (thread_step t f th (shared s)) as [[th' p']|] eqn:E; [|done]. injection Hst as <-.
  pose proof (lookup_lt_Some _ _ _ Ht) as Hlt.
  assert ((∃ c q, th = TWrite c q) ∨ (∀ c q, th ≠ TWrite c q)) as [(c & q & ->)|Hno]
    by (destruct th; [by right|left; eauto|by right]).
  - simpl in E. destruct (pipe_write_step t f c q (shared s)) as [[[c' q'] p2]|] eqn:E2; [|done]. simplify_eq.
    destruct (write_args _ _ _ _ _ _ _ _ E2) as (Hd & Hu & Hsz & Hpub).
    assert (small (size p') c' → small (size (shared s)) c) as Hsm by (unfold small; by rewrite Hd, Hu, Hsz).
    split; simpl.
    + intros i ci qi Hi Hs. apply list_lookup_insert_Some in Hi as [(-> & ? & _)|[Hne Hi]]; simplify_eq.
      * exact (proj1 (phase_step _ _ _ _ _ _ _ _ (Hsm Hs) (Hph _ _ _ Ht (Hsm Hs)) E2)).
      * eapply Hph; [exact Hi|by rewrite <- Hsz].
    + intros i d ci qi Hin Hi Hs. apply list_lookup_insert_Some in Hi as [(-> & ? & _)|[Hne Hi]]; simplify_eq.
      * rewrite Hd. destruct Hpub as [Hpub|[d' Hpub]]; rewrite Hpub in Hin; [by eapply Hlog; eauto|].
        apply elem_of_app in Hin as [Hin|[= ->]%list_elem_of_singleton]; [by eapply Hlog; eauto|].
        eapply (proj2 (phase_step _ _ _ _ _ _ _ _ (Hsm Hs) (Hph _ _ _ Ht (Hsm Hs)) E2)). exact Hpub.
      * eapply Hlog; [|exact Hi|by rewrite <- Hsz]. destruct Hpub as [Hpub|[d' Hpub]]; rewrite Hpub in Hin; [done|].
        apply elem_of_app in Hin as [Hin|[= -> ->]%list_elem_of_singleton]; done.
    + intros i d Hin. destruct (decide (i = t)) as [->|Hne]; [rewrite list_lookup_insert_eq by done; eauto|].
      rewrite list_lookup_insert_ne by done. apply (Hwr i d). destruct Hpub as [Hpub|[d' Hpub]]; rewrite Hpub in Hin; [done|].
      apply elem_of_app in Hin as [Hin|[= -> ->]%list_elem_of_singleton]; done.
  - destruct (other_args _ _ _ _ _ _ E) as (Hno' & Hsz & Hpub); [done|].
    split; simpl; rewrite ?Hsz, ?Hpub.
    + intros i ci qi Hi. apply list_lookup_insert_Some in Hi as [(-> & ? & _)|[Hne Hi]]; [by destruct (Hno' ci qi)|by eapply Hph].
    + intros i d ci qi Hin Hi. apply list_lookup_insert_Some in Hi as [(-> & ? & _)|[Hne Hi]]; [by destruct (Hno' ci qi)|by eapply Hlog].
    + intros i d Hin. destruct (Hwr i d Hin) as (c & q & Hi). destruct (decide (i = t)) as [->|Hne].
      * rewrite Ht in Hi. simplify_eq. by destruct (Hno c q).
      * exists c, q. by rewrite list_lookup_insert_ne.
Qed.

(** ** What the pipe promises *)


(** A write from kernel memory that fits the pipe is atomic: whatever runs
    in between, all of its bytes are published at once and stay together. *)
Theorem pipe_small_write_atomic buf calls s i d c q :
  zlen buf = PIPE_SIZE → Forall call_ok calls → rtc pipe_step (initial buf calls) s →
  (i, d) ∈ published (shared s) → threads s !! i = Some (TWrite c q) →
  wr_user c = false → wr_size c ≤ size (shared s) → d = wr_data c.
Proof.
  intros Hb Hc Hr Hin Hi Hu Hsz.
  assert (atomic_inv s) as [_ Hlog _]; [|by eapply Hlog; eauto].
  eapply (invariant_rtc pipe_step atomic_inv); [apply atomic_step| |exact Hr]. split; [|set_solver..].
  intros j cj qj Hj _. apply list_lookup_fmap_Some in Hj as (call & Heq & _). destruct call; simpl in Heq; simplify_eq.
  unfold pipe_write_enter. repeat case_if; done.
Qed.

(** [poll] on the read end reports data exactly when the pipe holds some and
    hangup when no writer is left; on the write end it reports room exactly when
    a reader is left and a byte fits, and hangup when no reader is left. *)
Theorem pipe_poll_correct buf calls s events :
  zlen buf = PIPE_SIZE → Forall call_ok calls → rtc pipe_step (initial buf calls) s →
  let p := shared s in
  let asked e := negb (Z.land events e =? 0) in
  pipe_vfs_poll_status true VFS_FLAG_PIPE_READ true events p =
    Z.lor (if asked VFS_POLLIN && negb (bool_decide (content p = [])) then VFS_POLLIN else 0)
          (if writers p =? 0 then VFS_POLLHUP else 0) ∧
  pipe_vfs_poll_status true VFS_FLAG_PIPE_WRITE true events p =
    Z.lor (if asked VFS_POLLOUT && (0 <? readers p) && (zlen (content p) <? size p) then VFS_POLLOUT else 0)
          (if readers p =? 0 then VFS_POLLHUP else 0).
Proof.
  intros Hb Hc Hr p asked. destruct (pipe_reachable buf calls s Hb Hc Hr) as [Hp _ _ _]. fold p in Hp.
  unfold pipe_vfs_poll_status, pipe_poll_info. simpl. rewrite (available_content p Hp).
  destruct (Hp) as [Hs _ _ _ Hct _ _ _]. rewrite (u32_small (size p - _)) by lia.
  assert (negb (bool_decide (content p = [])) = (0 <? zlen (content p))) as ->.
  { destruct (content p); [done|]. rewrite bool_decide_false by done. symmetry. apply Z.ltb_lt. simpl. lia. }
  assert ((0 <? size p - zlen (content p)) = (zlen (content p) <? size p)) as -> by bool_lia. fold (asked VFS_POLLIN) (asked VFS_POLLOUT).
  split; [destruct (asked VFS_POLLIN), (0 <? zlen (content p)), (writers p =? 0); done|].
  destruct (asked VFS_POLLOUT), (0 <? readers p), (zlen (content p) <? size p), (readers p =? 0); done.
Qed.

(** A failed creation leaks nothing: whichever allocation fails,
    [vfs_create_pipe] returns -1 with every object freed; it returns 0 exactly
    when all four allocations succeed. *)
Theorem vfs_create_pipe_no_leak rn wn m1 m2 m3 m4 :
  vfs_create_pipe rn wn m1 m2 m3 m4 =
    if rn && wn && m1 && m2 && m3 && m4 then (0, [OPipe; OBuffer; OReadNode; OWriteNode]) else (-1, []).
Proof. by destruct rn, wn, m1, m2, m3, m4. Qed.

(** ** A lost wakeup *)

Definition empty_buffer : list Z := replicate (Z.to_nat PIPE_SIZE) 0.

Lemma empty_buffer_length : zlen empty_buffer = PIPE_SIZE.
Proof. unfold empty_buffer. rewrite length_replicate. done. Qed.

(** Thread 0 reads, thread 1 writes the byte 7: the reader finds the pipe empty
    and leaves the guard, the writer does all of its call, the reader goes on to
    sleep. *)
Definition lost_run : list (nat * bool) :=
  replicate 4 (0%nat, false) ++ replicate 9 (1%nat, false) ++ replicate 258 (0%nat, false).

Definition lost_calls : list call := [pipe_read 4; pipe_write [7]].

(** C27. A wakeup can be lost: a reader that has seen the pipe empty but is not
    yet queued on [sem_read] misses the [sem_signal_all] of the writer, which
    only counts queued tasks.  In the state that is reached the write has
    returned 1, the byte is in the pipe, the reader sleeps and nothing can run. *)
Theorem pipe_lost_wakeup :
  ∃ s, rtc pipe_step (initial empty_buffer lost_calls) s ∧
    threads s = [TRead (ReadCall 4 true false []) (RSem SAsleep); TWrite (WriteCall [7] true false 1) (WDone 1)] ∧
    content (shared s) = [7] ∧ ∀ s', ¬ pipe_step s s'.
Proof.
  destruct (run_reaches pipe_exec (λ s, (threads s, content (shared s), waiters (sem_read (shared s)))) lost_run
    (initial empty_buffer lost_calls)
    ([TRead (ReadCall 4 true false []) (RSem SAsleep); TWrite (WriteCall [7] true false 1) (WDone 1)], [7], [0%nat]))
    as (s & Hr & Heq); [vm_compute; reflexivity|].
  injection Heq as Hth Hcon Hw. exists s. split_and!; [done|done|done|]. intros s' [[i f] Hst].
  unfold pipe_exec in Hst. rewrite Hth in Hst. destruct i as [|[|i]]; simpl in Hst; try done.
  rewrite Hw, decide_True in Hst by set_solver. done.
Qed.

(** ** Witnesses: a write of two bytes, then a read of one of them *)

Definition two_calls : list call := [pipe_read_nonblock 1; pipe_write [7; 8]].

Definition two_run : list (nat * bool) := replicate 10 (1%nat, false) ++ replicate 6 (0%nat, false).

Lemma two_calls_ok : Forall call_ok two_calls.
Proof. apply Forall_cons_2; [done|]. by apply Forall_cons_2. Qed.

Lemma two_reach : ∃ s, rtc pipe_step (initial empty_buffer two_calls) s ∧
  threads s !! 1%nat = Some (TWrite (WriteCall [7; 8] true false 2) (WDone 2)) ∧
  published (shared s) = [(1%nat, [7; 8])] ∧ taken (shared s) = [(0%nat, [7])] ∧ size (shared s) = PIPE_SIZE.
Proof.
  destruct (run_reaches pipe_exec
    (λ s, (threads s !! 1%nat, published (shared s), taken (shared s), size (shared s))) two_run
    (initial empty_buffer two_calls)
    (Some (TWrite (WriteCall [7; 8] true false 2) (WDone 2)), [(1%nat, [7; 8])], [(0%nat, [7])], PIPE_SIZE))
    as (s & Hr & Heq); [vm_compute; reflexivity|].
  injection Heq as H1 H2 H3 H4. by exists s.
Qed.


Lemma pipe_small_write_atomic_witness : ∃ s, (1%nat, [7; 8]) ∈ published (shared s) ∧ [7; 8] = [7; 8].
Proof.
  destruct two_reach as (s & Hr & Hth & Hp & _ & Hsz). exists s.
  assert ((1%nat, [7; 8]) ∈ published (shared s)) as Hin by (rewrite Hp; set_solver). split; [done|].
  apply (pipe_small_write_atomic empty_buffer two_calls s 1 [7; 8] (WriteCall [7; 8] true false 2) (WDone 2));
    [exact empty_buffer_length|exact two_calls_ok|done|done|done|done|by rewrite Hsz].
Defined.

Lemma pipe_poll_correct_witness : ∃ s, content (shared s) = [8] ∧
  pipe_vfs_poll_status true VFS_FLAG_PIPE_READ true VFS_POLLIN (shared s) =
    Z.lor VFS_POLLIN (if writers (shared s) =? 0 then VFS_POLLHUP else 0).
Proof.
  destruct two_reach as (s & Hr & _ & Hp & Ht & _). exists s.
  assert (content (shared s) = [8]) as Hc by (unfold content, received, sent; by rewrite Ht, Hp). split; [done|].
  destruct (pipe_poll_correct empty_buffer two_calls s VFS_POLLIN empty_buffer_length two_calls_ok Hr) as [H _].
  rewrite H, Hc. done.
Defined.
