(* ===== verification/Mutex.v ===== *)
(** * The mutex: [src/src/kernel/locking/mutex.c]

    The owner word (the address of the owning task and the waiters flag in bit
    0), the wait queue and the spinlock that protects it, used by any number of
    threads that make one atomic access per step.  [waiting] is the set of
    tasks in state [TASK_WAITING]: entered by [waitqueue_wait_prepare_locked],
    left by [proc_wake], or by a wakeup from elsewhere, which the label of the
    step decides.  Another label says whether a spinning thread sees the owner
    running. *)

From S2P Require Import Prelude Conc.

Definition MUTEX_FLAG_WAITERS : Z := 1.

Record mutex := Mutex { owner : Z; wait_lock : bool; waitq : list nat }.

Definition mutex_init : mutex := Mutex 0 false [].

Inductive mutex_pc :=
| MIdle
(** [mutex_lock], [mutex_spin_on_owner], [mutex_lock_slowpath] *)
| LCas | LSpin (i backoff : Z) | LSpinCas | LAcq | LLoad | LTake | LFlag (o : Z) | LEnq | LRel | LSleep
| LReAcq | LCancel | LUnl
| Locked
(** [mutex_unlock], [mutex_unlock_slowpath] *)
| UCheck | UAcq | UStore | UDeq | URel (t : option nat) | UWake (t : nat)
| TryLock
| MPanic.

#[global] Instance mutex_pc_eq_dec : EqDecision mutex_pc.
Proof. solve_decision. Defined.

Definition flagged (o : Z) : bool := negb (Z.land o MUTEX_FLAG_WAITERS =? 0).

Definition set_owner (o : Z) (m : mutex) : mutex := Mutex o (wait_lock m) (waitq m).
Definition set_wait_lock (b : bool) (m : mutex) : mutex := Mutex (owner m) b (waitq m).
Definition set_waitq (q : list nat) (m : mutex) : mutex := Mutex (owner m) (wait_lock m) q.

(** [__atomic_compare_exchange_n(&m->owner, ...)]: where to go on success and failure. *)
Definition cas {A} (m : mutex) (expected desired : Z) (yes no : A) : A * mutex :=
  if owner m =? expected then (yes, set_owner desired m) else (no, m).

Section Mutex.
(** The number of threads and the addresses of their task structures. *)
Context (n : nat) (task : nat → Z).

Definition out : Type := mutex_pc * mutex * gset nat.
Definition stay (w : gset nat) (r : mutex_pc * mutex) : option out := Some (r.1, r.2, w).
Definition goto (p : mutex_pc) (m : mutex) (w : gset nat) : option out := Some (p, m, w).

Definition mutex_lock (i : nat) (m : mutex) (w : gset nat) : option out :=
  stay w (cas m 0 (task i) Locked (LSpin 0 1)).

(** One round of [mutex_spin_on_owner]. *)
Definition mutex_spin_on_owner (not_running : bool) (n backoff : Z) (m : mutex) (w : gset nat) : option out :=
  if n <? 1024 then
    if owner m =? 0 then goto LSpinCas m w
    else if negb (Z.land (owner m) (u32 (Z.lnot MUTEX_FLAG_WAITERS)) =? 0) && not_running then goto LAcq m w
    else let backoff := if backoff <? 64 then 2 * backoff else backoff in goto (LSpin (n + backoff) backoff) m w
  else goto LAcq m w.

Definition mutex_lock_slowpath (i : nat) (spurious : bool) (p : mutex_pc) (m : mutex) (w : gset nat) : option out :=
  match p with
  | LSpinCas => stay w (cas m 0 (task i) Locked LAcq)
  | LAcq => if wait_lock m then None else goto LLoad (set_wait_lock true m) w
  | LLoad =>
      let o := owner m in
      if o =? 0 then goto LTake m w else if negb (flagged o) then goto (LFlag o) m w else goto LEnq m w
  | LTake =>
      let new_owner := match waitq m with [] => task i | _ => Z.lor (task i) MUTEX_FLAG_WAITERS end in
      stay w (cas m 0 new_owner LUnl LLoad)
  | LFlag o => stay w (cas m o (Z.lor o MUTEX_FLAG_WAITERS) LEnq LLoad)
  | LEnq =>
      if decide (i ∈ waitq m) then goto MPanic m w
      else goto LRel (set_waitq (waitq m ++ [i]) m) ({[i]} ∪ w)
  | LRel => goto LSleep (set_wait_lock false m) w
  | LSleep => if decide (i ∈ w) then (if spurious then goto LReAcq m (w ∖ {[i]}) else None) else goto LReAcq m w
  | LReAcq => if wait_lock m then None else goto LCancel (set_wait_lock true m) w
  | LCancel => goto LLoad (set_waitq (filter (λ j, j ≠ i) (waitq m)) m) w
  | LUnl => goto Locked (set_wait_lock false m) w
  | _ => None
  end.

Definition mutex_unlock (i : nat) (m : mutex) (w : gset nat) : option out :=
  stay w (cas m (task i) 0 MIdle UCheck).

Definition mutex_unlock_slowpath (i : nat) (p : mutex_pc) (m : mutex) (w : gset nat) : option out :=
  match p with
  | UCheck =>
      if negb (Z.land (owner m) (u32 (Z.lnot MUTEX_FLAG_WAITERS)) =? task i) then goto MPanic m w else goto UAcq m w
  | UAcq => if wait_lock m then None else goto UStore (set_wait_lock true m) w
  | UStore => goto UDeq (set_owner 0 m) w
  | UDeq => goto (URel (head (waitq m))) (set_waitq (tail (waitq m)) m) w
  | URel t => goto (match t with Some t => UWake t | None => MIdle end) (set_wait_lock false m) w
  | UWake t => goto MIdle m (w ∖ {[t]})
  | _ => None
  end.

Definition mutex_try_lock (i : nat) (m : mutex) (w : gset nat) : option out :=
  stay w (cas m 0 (task i) Locked MIdle).

(** An idle thread calls [mutex_lock] or [mutex_try_lock]; an owner unlocks at any time. *)
Definition thread_step (i : nat) (b : bool) (p : mutex_pc) (m : mutex) (w : gset nat) : option out :=
  match p with
  | MIdle => goto (if b then LCas else TryLock) m w
  | LCas => mutex_lock i m w
  | LSpin n backoff => mutex_spin_on_owner b n backoff m w
  | Locked => mutex_unlock i m w
  | UCheck | UAcq | UStore | UDeq | URel _ | UWake _ => mutex_unlock_slowpath i p m w
  | TryLock => mutex_try_lock i m w
  | MPanic => None
  | _ => mutex_lock_slowpath i b p m w
  end.

Record system := System { mtx : mutex; waiting : gset nat; pcs : list mutex_pc }.

Definition initial : system := System mutex_init ∅ (replicate n MIdle).

Definition mutex_exec (l : nat * bool) (s : system) : option system :=
  match pcs s !! l.1 with
  | None => None
  | Some p =>
      match thread_step l.1 l.2 p (mtx s) (waiting s) with
      | Some (p', m, w) => Some (System m w (<[l.1 := p']> (pcs s)))
      | None => None
      end
  end.

Definition mutex_step : system → system → Prop := exec_step mutex_exec.

(** ** The invariant *)

(** Task structures are distinct objects at even addresses that fit a word. *)
Definition tasks_ok : Prop :=
  (∀ i j, (i < n)%nat → (j < n)%nat → task i = task j → i = j) ∧
  ∀ i, (i < n)%nat → 0 < task i < 4294967296 ∧ task i `mod` 2 = 0.

(** Owns the mutex. *)
Definition owns (p : mutex_pc) : bool :=
  match p with LUnl | Locked | UCheck | UAcq | UStore => true | _ => false end.

(** Holds [wait_lock]. *)
Definition holds (p : mutex_pc) : Z :=
  match p with LLoad | LTake | LFlag _ | LEnq | LRel | LCancel | LUnl | UStore | UDeq | URel _ => 1 | _ => 0 end.

(** May be linked in the wait queue. *)
Definition linked (p : mutex_pc) : bool :=
  match p with LRel | LSleep | LReAcq | LCancel => true | _ => false end.

(** Will look at the owner word again before it sleeps. *)
Definition in_transit (q : list nat) (i : nat) (p : mutex_pc) : Prop :=
  match p with UDeq | LReAcq | LCancel | LLoad | LTake | LFlag _ => True | LSleep => i ∉ q | _ => False end.

Definition pc_ok (o : Z) (q : list nat) (i : nat) (p : mutex_pc) : Prop :=
  match p with
  | LEnq => flagged o = true
  | LFlag o' => o' ≠ 0 ∧ flagged o' = false
  | LRel => i ∈ q
  | MPanic => False
  | _ => True
  end.

Definition owned_by (o : Z) (i : nat) : Prop := (i < n)%nat ∧ (o = task i ∨ o = task i + 1).

Record mutex_inv (s : system) : Prop := MutexInv {
  mi_len : length (pcs s) = n;
  mi_owner : owner (mtx s) = 0 ∨ ∃ j p, pcs s !! j = Some p ∧ owns p = true ∧ owned_by (owner (mtx s)) j;
  mi_owns : ∀ i p, pcs s !! i = Some p → owns p = true → owned_by (owner (mtx s)) i;
  mi_lock : tally holds (pcs s) = b2z (wait_lock (mtx s));
  mi_pcs : ∀ i p, pcs s !! i = Some p → pc_ok (owner (mtx s)) (waitq (mtx s)) i p;
  mi_nodup : NoDup (waitq (mtx s));
  mi_linked : ∀ i, i ∈ waitq (mtx s) → ∃ p, pcs s !! i = Some p ∧ linked p = true;
  mi_transit : waitq (mtx s) ≠ [] → flagged (owner (mtx s)) = false →
    ∃ j p, pcs s !! j = Some p ∧ in_transit (waitq (mtx s)) j p;
  mi_woken : ∀ i, pcs s !! i = Some LSleep → i ∈ waiting s → i ∉ waitq (mtx s) →
    ∃ k p, pcs s !! k = Some p ∧ (p = URel (Some i) ∨ p = UWake i) }.

(** ** The owner word *)

Context (Htask : tasks_ok).

Lemma task_even i : (i < n)%nat → ∃ p, task i = Z.pos (p~0).
Proof.
  intros Hi. destruct Htask as [_ H]. destruct (H i Hi) as [Hr Hm]. destruct (task i) as [|[p|p|]|]; try done; try lia; [|eauto].
  rewrite Pos2Z.inj_xI in Hm. rewrite Z.add_comm, Z.mul_comm, Z.mod_add in Hm by lia. done.
Qed.

Lemma task_bits i : (i < n)%nat →
  flagged (task i) = false ∧ flagged (task i + 1) = true ∧ Z.lor (task i) MUTEX_FLAG_WAITERS = task i + 1.
Proof. intros Hi. destruct (task_even i Hi) as [p ->]. done. Qed.

Lemma task_masked i o : owned_by o i → Z.land o (u32 (Z.lnot MUTEX_FLAG_WAITERS)) = task i.
Proof.
  intros [Hi Ho]. assert (Z.land (task i) 4294967294 = task i) as Ht.
  { destruct Htask as [_ H]. destruct (H i Hi) as [Hr Hm].
    rewrite <- (Z.mod_small (task i) (2 ^ 32)) at 2 by lia. rewrite <- Z.land_ones by lia.
    change (Z.ones 32) with (Z.lor 4294967294 (Z.ones 1)). rewrite Z.land_lor_distr_r, (Z.land_ones _ 1) by lia.
    change (2 ^ 1) with 2. by rewrite Hm, Z.lor_0_r. }
  change (u32 (Z.lnot MUTEX_FLAG_WAITERS)) with 4294967294. destruct Ho as [->| ->]; [done|].
  rewrite <- Ht at 2. by destruct (task_even i Hi) as [p ->].
Qed.

Lemma owned_by_inj o i j : owned_by o i → owned_by o j → i = j.
Proof. intros Hi Hj. apply Htask; [apply Hi|apply Hj|]. by rewrite <- (task_masked i o), <- (task_masked j o). Qed.

Lemma owned_by_nonzero o i : owned_by o i → o ≠ 0.
Proof. intros [Hi Ho]. destruct (task_even i Hi) as [p E], Ho as [->| ->]; rewrite E; lia. Qed.

(** ** One step *)

Section Step.
Context (s : system) (i : nat) (b : bool) (p p' : mutex_pc) (m' : mutex) (w' : gset nat).
Context (Hinv : mutex_inv s) (Hi : pcs s !! i = Some p).
Context (Hst : thread_step i b p (mtx s) (waiting s) = Some (p', m', w')).

Ltac step_cases :=
  unfold thread_step, mutex_lock, mutex_spin_on_owner, mutex_lock_slowpath, mutex_unlock, mutex_unlock_slowpath,
    mutex_try_lock, stay, goto, cas, set_owner, set_wait_lock, set_waitq in Hst;
  destruct p; repeat case_match; simplify_eq; bool_simpl.

Lemma thread_lt : (i < n)%nat.
Proof. rewrite <- (mi_len s Hinv). by eapply lookup_lt_Some. Qed.

Lemma other_not_holder j q : holds p = 1 → pcs s !! j = Some q → j ≠ i → holds q = 0.
Proof.
  intros Hp Hj Hne. pose proof (tally_two holds _ i j p q ltac:(by intros []) ltac:(done) Hi Hj).
  rewrite (mi_lock s Hinv) in *. assert (0 ≤ holds q) by by destruct q. destruct (wait_lock (mtx s)); simpl in *; lia.
Qed.

Lemma threads_after j q :
  <[i := p']> (pcs s) !! j = Some q ↔ (j = i ∧ q = p') ∨ (j ≠ i ∧ pcs s !! j = Some q).
Proof.
  rewrite list_lookup_insert_Some. apply lookup_lt_Some in Hi. naive_solver.
Qed.

(** What a step does to the owner word: nothing, acquire, release, set the flag. *)
Lemma step_owner :
  (owner m' = owner (mtx s) ∧ owns p' = owns p) ∨
  (owner (mtx s) = 0 ∧ owns p = false ∧ owns p' = true ∧ owned_by (owner m') i) ∨
  (owns p = true ∧ owns p' = false ∧ owner m' = 0 ∧ (flagged (owner (mtx s)) = true → p = UStore)) ∨
  (owns p = false ∧ owns p' = false ∧ flagged (owner (mtx s)) = false ∧ owner (mtx s) ≠ 0 ∧
    owner m' = Z.lor (owner (mtx s)) MUTEX_FLAG_WAITERS).
Proof.
  pose proof (mi_pcs s Hinv i p Hi) as Hok. pose proof (task_bits i thread_lt) as (Hf & Hf1 & Hlor).
  pose proof thread_lt as Hlt.
  step_cases; simpl in *; try (by left);
    try (right; left; split_and!; unfold owned_by; simpl; auto; fail); try (right; right; left; split_and!; simpl; congruence).
  - right; right; right. destruct Hok. by subst.
  - destruct H. apply task_masked. by apply (mi_owns s Hinv i UCheck).
Qed.

Lemma flagged_lor o : flagged (Z.lor o MUTEX_FLAG_WAITERS) = true.
Proof.
  unfold flagged. rewrite Z.land_lor_distr_l. change (Z.land MUTEX_FLAG_WAITERS _) with 1.
  apply negb_true_iff, Z.eqb_neq. rewrite Z.lor_eq_0_iff. lia.
Qed.

Lemma lor_owned_by o j : flagged o = false → owned_by o j → owned_by (Z.lor o MUTEX_FLAG_WAITERS) j.
Proof.
  intros Ho [Hj Hoj]. destruct (task_bits j Hj) as (Hf & Hf1 & Hl). split; [done|].
  destruct Hoj as [->| ->]; [by right|congruence].
Qed.

(** The flag is only dropped with the mutex, by the slow path of unlock. *)
Lemma step_flag : flagged (owner (mtx s)) = true → flagged (owner m') = false → p = UStore.
Proof.
  intros Hf Hf'. destruct step_owner as [[E _]|[(E & _)|[(_ & _ & _ & H)|(_ & _ & E & _)]]]; try congruence; auto.
  rewrite E in Hf. done.
Qed.

Definition after : system := System m' w' (<[i := p']> (pcs s)).

Lemma step_mi_owns j q : pcs after !! j = Some q → owns q = true → owned_by (owner m') j.
Proof.
  intros [[-> ->]|[Hne Hj]]%threads_after Hq.
  - destruct step_owner as [[-> E]|[(_ & _ & _ & E)|[(_ & E & _)|(_ & E & _)]]]; [|done|congruence..].
    apply (mi_owns s Hinv i p); congruence.
  - pose proof (mi_owns s Hinv j q Hj Hq) as Ho.
    destruct step_owner as [[-> _]|[(E & _)|[(E & _)|(_ & _ & Hf & _ & ->)]]]; [done| | |by apply lor_owned_by].
    + by apply owned_by_nonzero in Ho.
    + destruct Hne. eapply owned_by_inj; [done|]. by apply (mi_owns s Hinv i p).
Qed.

Lemma step_mi_owner : owner m' = 0 ∨ ∃ j q, pcs after !! j = Some q ∧ owns q = true ∧ owned_by (owner m') j.
Proof.
  destruct step_owner as [[E Ep]|[(_ & _ & Ep & Eo)|[(_ & _ & E & _)|(Ep & _ & Hf & Hn & E)]]];
    [|right; exists i, p'; split_and!; [apply threads_after; auto|done..]|by left|].
  - rewrite E. destruct (mi_owner s Hinv) as [H0|(j & q & Hj & Hq & Ho)]; [by left|right].
    destruct (decide (j = i)) as [->|Hne]; [exists i, p'|exists j, q]; (split_and!; [apply threads_after; auto|congruence|done]).
  - destruct (mi_owner s Hinv) as [H0|(j & q & Hj & Hq & Ho)]; [done|right].
    exists j, q. rewrite E. split_and!; [|done|by apply lor_owned_by]. apply threads_after. right. split; congruence.
Qed.

Lemma not_queued : linked p = false → i ∉ waitq (mtx s).
Proof. intros Hl (q & Hq & Hlq)%(mi_linked s Hinv). congruence. Qed.

Lemma step_mi_lock : tally holds (pcs after) = b2z (wait_lock m').
Proof.
  pose proof (mi_lock s Hinv) as Hl. pose proof (tally_le holds _ i p ltac:(by intros []) Hi) as Hle.
  pose proof (mi_pcs s Hinv i p Hi) as Hok. simpl. rewrite (tally_insert _ _ _ _ _ Hi), Hl.
  pose proof not_queued as Hnq.
  step_cases; simpl in *; try done; try (destruct (wait_lock (mtx s)); simpl in *; lia). by destruct Hnq.
Qed.

(** What a step does to the queue: nothing, append itself, leave it, dequeue the first. *)
Lemma step_waitq :
  (waitq m' = waitq (mtx s) ∧ p ≠ LCancel ∧ p ≠ UDeq) ∨
  (p = LEnq ∧ p' = LRel ∧ waitq m' = waitq (mtx s) ++ [i]) ∨
  (p = LCancel ∧ waitq m' = filter (λ j, j ≠ i) (waitq (mtx s))) ∨
  (p = UDeq ∧ p' = URel (head (waitq (mtx s))) ∧ waitq m' = tail (waitq (mtx s))).
Proof. step_cases; simpl; auto 10. Qed.

Lemma step_queue_incl j : p ≠ LEnq ∨ j ≠ i → j ∈ waitq m' → j ∈ waitq (mtx s).
Proof.
  destruct step_waitq as [[-> _]|[(-> & _ & ->)|[(_ & ->)|(_ & _ & ->)]]]; [done| | |].
  - rewrite elem_of_app, list_elem_of_singleton. naive_solver.
  - by intros _ [_ ?]%list_elem_of_filter.
  - intros _. destruct (waitq (mtx s)); [done|]. simpl. by right.
Qed.

Lemma step_mi_nodup : NoDup (waitq m').
Proof.
  pose proof (mi_nodup s Hinv) as Hnd. pose proof not_queued as Hnq.
  destruct step_waitq as [[-> _]|[(E & _ & ->)|[(_ & ->)|(_ & _ & ->)]]]; [done| | |].
  - apply NoDup_app. split_and!; [done|intros j Hj ->%list_elem_of_singleton; revert Hj; apply Hnq; by rewrite E|apply NoDup_singleton].
  - by apply NoDup_filter.
  - destruct (waitq (mtx s)); [done|]. by apply NoDup_cons in Hnd as [_ ?].
Qed.

Lemma linked_step : linked p = true → p ≠ LCancel → linked p' = true.
Proof. intros Hl Hne. step_cases; simpl in *; congruence. Qed.

Lemma step_mi_linked j : j ∈ waitq m' → ∃ q, pcs after !! j = Some q ∧ linked q = true.
Proof.
  intros Hj. destruct (decide (j = i)) as [->|Hne].
  - exists p'. split; [by apply threads_after; auto|].
    destruct step_waitq as [(E & Hc & _)|[(_ & -> & _)|[(_ & E)|(Ep & _ & E)]]]; [|done| |].
    + rewrite E in Hj. apply (mi_linked s Hinv) in Hj as (q & Hq & Hl). apply linked_step; congruence.
    + rewrite E, list_elem_of_filter in Hj. naive_solver.
    + destruct not_queued; [by rewrite Ep|]. apply (step_queue_incl i); [left; congruence|done].
  - apply step_queue_incl in Hj; [|by right]. apply (mi_linked s Hinv) in Hj as (q & Hq & Hl).
    exists q. split; [|done]. apply threads_after. auto.
Qed.

Lemma step_mi_pcs j q : pcs after !! j = Some q → pc_ok (owner m') (waitq m') j q.
Proof.
  intros [[-> ->]|[Hne Hj]]%threads_after.
  - pose proof (mi_pcs s Hinv i p Hi) as Hok. pose proof not_queued as Hnq. pose proof (mi_owns s Hinv i p Hi) as Ho.
    pose proof (task_masked i) as Hm.
    step_cases; simpl in *; rewrite ?flagged_lor; try done; auto.
    + by destruct Hnq.
    + set_solver.
  - pose proof (mi_pcs s Hinv j q Hj) as Hok.
    assert (holds q = 1 → holds p = 0) as Hex.
    { intros Hq. destruct (decide (holds p = 1)) as [E|E]; [|by destruct p].
      pose proof (other_not_holder j q E Hj Hne). congruence. }
    destruct q; simpl in *; try done.
    + destruct (flagged (owner m')) eqn:E; [done|]. rewrite (step_flag Hok E) in Hex. naive_solver.
    + destruct step_waitq as [[-> _]|[(-> & _)|[(-> & _)|(-> & _)]]]; naive_solver.
Qed.

(** The task that is dequeued will look at the owner word again. *)
Lemma dequeued_in_transit j : p = UDeq → head (waitq (mtx s)) = Some j →
  ∃ q, pcs after !! j = Some q ∧ in_transit (tail (waitq (mtx s))) j q.
Proof.
  intros Ep Hh. pose proof (mi_nodup s Hinv) as Hnd. destruct (waitq (mtx s)) as [|j' q'] eqn:Eq; [done|].
  injection Hh as ->. apply NoDup_cons in Hnd as [Hn _].
  destruct (mi_linked s Hinv j) as (q & Hq & Hl); [rewrite Eq; by left|].
  assert (j ≠ i) as Hne by (intros ->; assert (q = UDeq) by congruence; by subst q).
  exists q. split; [apply threads_after; auto|].
  pose proof (other_not_holder j q ltac:(by rewrite Ep) Hq Hne). destruct q; simpl in *; done.
Qed.

Lemma in_transit_step : in_transit (waitq (mtx s)) i p → p ≠ UDeq → waitq m' ≠ [] → flagged (owner m') = false →
  in_transit (waitq m') i p'.
Proof.
  intros Ht Hne Hq Hf. step_cases; simpl in *; rewrite ?flagged_lor in Hf; try done. congruence.
Qed.

Lemma step_mi_transit : waitq m' ≠ [] → flagged (owner m') = false →
  ∃ j q, pcs after !! j = Some q ∧ in_transit (waitq m') j q.
Proof.
  intros Hq Hf. destruct (flagged (owner (mtx s))) eqn:Hf0.
  { exists i, p'. split; [apply threads_after; auto|]. pose proof (step_flag Hf0 Hf) as ->. by injection Hst as <- <- <-. }
  assert (p ≠ LEnq) as Hne.
  { intros Ep. pose proof (mi_pcs s Hinv i p Hi) as Hok. rewrite Ep in Hok. simpl in Hok. congruence. }
  assert (waitq (mtx s) ≠ []) as Hq0.
  { intros E. destruct (waitq m') as [|j ?] eqn:E'; [done|].
    pose proof (step_queue_incl j (or_introl Hne)) as Hin. rewrite E, E' in Hin. set_solver. }
  destruct (mi_transit s Hinv Hq0 Hf0) as (j & q & Hj & Ht).
  destruct (decide (p = UDeq)) as [Ep|Hnd].
  - destruct step_waitq as [(_ & _ & ?)|[(? & _)|[(? & _)|(_ & _ & ->)]]]; [congruence..|].
    destruct (waitq (mtx s)) as [|j' q'] eqn:E; [done|].
    destruct (dequeued_in_transit j' Ep) as (r & Hr & Hrt); [by rewrite E|]. rewrite E in Hrt. by exists j', r.
  - destruct (decide (j = i)) as [->|Hji].
    + exists i, p'. split; [apply threads_after; auto|]. apply in_transit_step; [congruence|done..].
    + exists j, q. split; [apply threads_after; auto|]. destruct q; simpl in *; try done.
      intros Hin. apply step_queue_incl in Hin; auto.
Qed.

Lemma step_waiting j : j ≠ i → j ∈ w' → j ∈ waiting s ∧ p ≠ UWake j.
Proof. intros Hne Hj. step_cases; split; try done; set_solver. Qed.

Lemma waker_step j : p = URel (Some j) → p' = UWake j.
Proof. intros Ep. pose proof Hst as H. rewrite Ep in H. by injection H as <- _ _. Qed.

Lemma step_mi_woken j : pcs after !! j = Some LSleep → j ∈ w' → j ∉ waitq m' →
  ∃ k q, pcs after !! k = Some q ∧ (q = URel (Some j) ∨ q = UWake j).
Proof.
  intros [[-> Ep]|[Hne Hj]]%threads_after Hw Hq.
  { destruct Hq. assert (p = LRel) as E by (step_cases; done).
    pose proof (mi_pcs s Hinv i p Hi) as Hok. rewrite E in Hok. simpl in Hok.
    destruct step_waitq as [[-> _]|[(? & _)|[(? & _)|(? & _)]]]; congruence. }
  destruct (step_waiting j Hne Hw) as [Hw0 Hnw]. destruct (decide (j ∈ waitq (mtx s))) as [Hin|Hout].
  - exists i, p'. split; [apply threads_after; auto|]. left.
    destruct step_waitq as [(E & _)|[(_ & _ & E)|[(_ & E)|(_ & -> & E)]]]; rewrite E in Hq; [done|set_solver| |].
    + destruct Hq. by apply list_elem_of_filter.
    + destruct (waitq (mtx s)); [done|]. simpl in *. set_solver.
  - destruct (mi_woken s Hinv j Hj Hw0 Hout) as (k & q & Hk & Hkq). destruct (decide (k = i)) as [->|Hki].
    + exists i, p'. split; [apply threads_after; auto|]. right. apply waker_step. destruct Hkq; congruence.
    + exists k, q. split; [apply threads_after; auto|done].
Qed.

Lemma mutex_inv_after : mutex_inv after.
Proof.
  split; [simpl; rewrite length_insert; apply (mi_len s Hinv)|apply step_mi_owner|apply step_mi_owns|apply step_mi_lock|apply step_mi_pcs|apply step_mi_nodup|
    apply step_mi_linked|apply step_mi_transit|apply step_mi_woken].
Qed.
End Step.

Lemma mutex_inv_initial : mutex_inv initial.
Proof.
  assert (∀ i p, replicate n MIdle !! i = Some p → p = MIdle) as Hidle by (by intros i p [-> _]%lookup_replicate).
  split; simpl; try (intros i p ->%Hidle; done); try (intros i Hi%Hidle; done); try done.
  - apply length_replicate.
  - by left.
  - rewrite tally_replicate. simpl. lia.
  - apply NoDup_nil_2.
  - set_solver.
Qed.

Lemma mutex_reachable s : rtc mutex_step initial s → mutex_inv s.
Proof.
  apply (invariant_rtc mutex_step mutex_inv); [|apply mutex_inv_initial].
  intros x y Hx [[i b] Hl]. unfold mutex_exec in Hl. simpl in Hl.
  destruct (pcs x !! i) as [p|] eqn:Hi; [|done]. destruct (thread_step i b p (mtx x) (waiting x)) as [[[p' m] w]|] eqn:Hst; [|done].
  injection Hl as <-. by eapply mutex_inv_after.
Qed.

(** ** Properties *)

(** The thread can run its next access, without a wakeup from elsewhere. *)
Definition can_step (s : system) (j : nat) (p : mutex_pc) : Prop :=
  pcs s !! j = Some p ∧ is_Some (thread_step j false p (mtx s) (waiting s)).

Lemma holder_steps s j p : pcs s !! j = Some p → holds p = 1 → can_step s j p.
Proof.
  intros Hj Hp. split; [done|]. destruct p; try done; simpl; unfold mutex_lock_slowpath, mutex_unlock_slowpath, stay, goto;
    repeat case_match; eauto.
Qed.

Lemma waker_steps s j p i : pcs s !! j = Some p → p = URel (Some i) ∨ p = UWake i → can_step s j p.
Proof. intros Hj [->| ->]; split; eauto. Qed.

Lemma owner_steps s j p : wait_lock (mtx s) = false → pcs s !! j = Some p → owns p = true → can_step s j p.
Proof.
  intros Hw Hj Ho. split; [done|]. destruct p; try done; simpl; unfold mutex_unlock, stay, goto; rewrite ?Hw;
    repeat case_match; eauto.
Qed.

Lemma transit_steps s j p :
  mutex_inv s → wait_lock (mtx s) = false → pcs s !! j = Some p → in_transit (waitq (mtx s)) j p →
  ∃ k q, can_step s k q ∧ q ≠ MIdle.
Proof.
  intros Hinv Hw Hj Ht. destruct (decide (p = LSleep)) as [->|Hne].
  - destruct (decide (j ∈ waiting s)) as [Hin|Hout].
    + destruct (mi_woken s Hinv j Hj Hin Ht) as (k & q & Hk & Hq). exists k, q. split; [by eapply waker_steps|].
      destruct Hq; congruence.
    + exists j, LSleep. split; [|done]. split; [done|]. simpl. case_decide; [done|eauto].
  - exists j, p. split; [|by destruct p]. split; [done|].
    destruct p; try done; simpl; unfold mutex_lock_slowpath, stay, goto; rewrite ?Hw; repeat case_match; eauto.
Qed.

(** C32. The mutex is a mutual exclusion lock: in every interleaving at most one
    thread is between the access that gives it the mutex and the one that
    releases it, no unlock panics for a wrong owner, and no thread is queued twice. *)
Theorem mutex_exclusion s :
  rtc mutex_step initial s →
  (∀ i j p q, pcs s !! i = Some p → pcs s !! j = Some q → owns p = true → owns q = true → i = j) ∧
  (∀ i, pcs s !! i ≠ Some MPanic) ∧ NoDup (waitq (mtx s)).
Proof.
  intros Hr%mutex_reachable. split_and!; [|intros i Hi|apply (mi_nodup s Hr)].
  - intros i j p q Hi Hj Hp Hq. apply (owned_by_inj (owner (mtx s))); by eapply mi_owns.
  - exact (mi_pcs s Hr i MPanic Hi).
Qed.

(** C33. No wakeup is lost: while a thread sleeps in the mutex's queue, the owner's
    word carries the waiters flag (so that the unlock takes the slow path and
    wakes somebody) or another thread is about to look at the word; and some
    thread inside a mutex operation, or the owner, can always run. *)
Theorem mutex_no_lost_wakeup s i :
  rtc mutex_step initial s → pcs s !! i = Some LSleep → i ∈ waiting s →
  (∃ j p, can_step s j p ∧ p ≠ MIdle) ∧
  (i ∈ waitq (mtx s) →
    (flagged (owner (mtx s)) = true ∧ ∃ j p, pcs s !! j = Some p ∧ owns p = true ∧ owned_by (owner (mtx s)) j) ∨
    ∃ j p, pcs s !! j = Some p ∧ in_transit (waitq (mtx s)) j p).
Proof.
  intros Hr%mutex_reachable Hi Hw.
  assert (i ∈ waitq (mtx s) →
    (flagged (owner (mtx s)) = true ∧ ∃ j p, pcs s !! j = Some p ∧ owns p = true ∧ owned_by (owner (mtx s)) j) ∨
    ∃ j p, pcs s !! j = Some p ∧ in_transit (waitq (mtx s)) j p) as Hq.
  { intros Hin. destruct (flagged (owner (mtx s))) eqn:Hf; [left|right].
    - split; [done|]. destruct (mi_owner s Hr) as [E|H]; [by rewrite E in Hf|done].
    - apply (mi_transit s Hr); [|done]. intros E. rewrite E in Hin. set_solver. }
  split; [|done]. destruct (wait_lock (mtx s)) eqn:Hwl.
  { destruct (tally_gt_exists (λ p, holds p =? 1) (pcs s) []) as (j & p & Hj & Hp & _).
    - pose proof (mi_lock s Hr) as Hl. rewrite Hwl in Hl. simpl in *.
      replace (tally _ _) with (tally holds (pcs s)); [lia|]. clear. unfold tally.
      induction (pcs s) as [|p l IH]; [done|]. simpl. rewrite IH. by destruct p.
    - apply Z.eqb_eq in Hp. exists j, p. split; [by apply holder_steps|by destruct p]. }
  destruct (decide (i ∈ waitq (mtx s))) as [Hin|Hout].
  - destruct (Hq Hin) as [[_ (j & p & Hj & Hp & _)]|(j & p & Hj & Ht)]; [|by eapply transit_steps].
    exists j, p. split; [by apply owner_steps|by destruct p].
  - destruct (mi_woken s Hr i Hi Hw Hout) as (j & p & Hj & Hp). exists j, p.
    split; [by eapply waker_steps|destruct Hp; congruence].
Qed.
End Mutex.


(** ** Thread 0 owns the mutex, thread 1 sleeps in its queue *)

Definition slab_task (i : nat) : Z := 8 * (Z.of_nat i + 1).

Lemma slab_tasks_ok : tasks_ok 2 slab_task.
Proof.
  unfold tasks_ok, slab_task. split; [lia|]. intros i Hi. split; [lia|].
  replace (8 * (Z.of_nat i + 1)) with ((4 * (Z.of_nat i + 1)) * 2) by lia. by apply Z.mod_mul.
Qed.

Lemma contended_run : ∃ s, rtc (mutex_step slab_task) (initial 2) s ∧
  (mtx s, waiting s, pcs s) = (Mutex 9 false [1%nat], {[1%nat]}, [Locked; LSleep]).
Proof.
  apply (run_reaches (mutex_exec slab_task) (λ s, (mtx s, waiting s, pcs s))
    (replicate 2 (0%nat, true) ++ replicate 8 (1%nat, true))).
  vm_compute. reflexivity.
Qed.

Lemma mutex_exclusion_witness : ∃ s, pcs s = [Locked; LSleep] ∧
  (∀ i j p q, pcs s !! i = Some p → pcs s !! j = Some q → owns p = true → owns q = true → i = j) ∧
  (∀ i, pcs s !! i ≠ Some MPanic) ∧ NoDup (waitq (mtx s)).
Proof.
  destruct contended_run as (s & Hr & Hs). exists s. split; [congruence|].
  exact (mutex_exclusion 2 slab_task slab_tasks_ok s Hr).
Defined.

Lemma mutex_no_lost_wakeup_witness : ∃ s, mtx s = Mutex 9 false [1%nat] ∧
  ∃ j p, can_step slab_task s j p ∧ p ≠ MIdle.
Proof.
  destruct contended_run as (s & Hr & Hs). exists s. injection Hs as Hm Hw Hp. split; [done|].
  apply (mutex_no_lost_wakeup 2 slab_task slab_tasks_ok s 1 Hr); [by rewrite Hp|rewrite Hw; set_solver].
Defined.
