(* ===== verification/Pmm.v ===== *)
(** * The physical memory manager: [src/src/mm/pmm.cpp]

    The buddy allocator over the array of page descriptors, with its intrusive
    free lists, the bitmap of non-empty orders and the counters.  A page is
    named by its frame number, an address is a multiple of 4096; page pointers
    in the descriptors are frame numbers with [None] for NULL.  What runs under
    a zone's lock, or with interrupts off on one CPU, is one operation. *)

From stdpp Require Import functions.
From S2P Require Import Prelude.

Definition PAGE_SIZE : Z := 4096.
Definition PMM_MAX_ORDER : Z := 11.
Definition PMM_FLAG_FREE : Z := 0.
Definition PMM_FLAG_USED : Z := 1.
Definition PMM_FLAG_KERNEL : Z := 2.
Definition PMM_FLAG_DMA : Z := 4.
Definition PMM_ZONE_DMA : Z := 0.
Definition PMM_ZONE_NORMAL : Z := 1.
Definition PMM_ZONE_COUNT : Z := 2.
Definition k_dma_limit : Z := 16 * 1024 * 1024.

(** [order] shares its storage with [slab_cache]: NULL there is 0 here. *)
Record page := Page {
  flags : Z; ref_count : Z; order : Z; freelist : Z; objects : Z; prev : option Z; next : option Z }.

Record free_area := FreeArea { area_head : option Z; area_count : Z }.

Record pmm_zone := PmmZone { free_areas : Z → free_area; free_bitmap : Z }.

Record pmm := Pmm { mem_map : gmap Z page; total_pages : Z; zones : Z → pmm_zone; cpu_used_pages : Z → Z }.

Definition with_map (mm : gmap Z page) (s : pmm) : pmm := Pmm mm (total_pages s) (zones s) (cpu_used_pages s).
Definition with_zone (z : Z) (zn : pmm_zone) (s : pmm) : pmm :=
  Pmm (mem_map s) (total_pages s) (<[z := zn]> (zones s)) (cpu_used_pages s).
Definition with_used (u : Z → Z) (s : pmm) : pmm := Pmm (mem_map s) (total_pages s) (zones s) u.

(** Accesses to the arrays. *)
Definition page_at (mm : gmap Z page) (i : Z) : res page := match mm !! i with Some p => Ok p | None => Fault end.
Definition page_upd (f : page → page) (i : Z) (mm : gmap Z page) : res (gmap Z page) :=
  p ← page_at mm i; Ok (<[i := f p]> mm).
Definition zone_at (s : pmm) (z : Z) : res pmm_zone :=
  if (0 <=? z) && (z <? PMM_ZONE_COUNT) then Ok (zones s z) else Fault.
Definition area_at (zn : pmm_zone) (o : Z) : res free_area :=
  if (0 <=? o) && (o <=? PMM_MAX_ORDER) then Ok (free_areas zn o) else Fault.

(** Stores to the fields of a descriptor. *)
Definition set_links (pv nx : option Z) (p : page) : page :=
  Page (flags p) (ref_count p) (order p) (freelist p) (objects p) pv nx.
Definition set_next (nx : option Z) (p : page) : page := set_links (prev p) nx p.
Definition set_prev (pv : option Z) (p : page) : page := set_links pv (next p) p.
Definition set_order (o : Z) (p : page) : page :=
  Page (flags p) (ref_count p) o (freelist p) (objects p) (prev p) (next p).
Definition set_flags (f : Z) (p : page) : page :=
  Page f (ref_count p) (order p) (freelist p) (objects p) (prev p) (next p).
Definition set_ref_count (r : Z) (p : page) : page :=
  Page (flags p) r (order p) (freelist p) (objects p) (prev p) (next p).
(** [slab_cache = nullptr; freelist = nullptr; objects = 0; list.prev = nullptr; list.next = nullptr] *)
Definition clear_fields (p : page) : page := Page (flags p) (ref_count p) 0 0 0 None None.

(** ** Addresses, zones *)

Definition align_up (addr : Z) : Z := Z.land (u32 (addr + (PAGE_SIZE - 1))) (u32 (Z.lnot (PAGE_SIZE - 1))).
Definition align_down (addr : Z) : Z := Z.land addr (u32 (Z.lnot (PAGE_SIZE - 1))).

Definition zone_flags_for_addr (addr : Z) : Z := if addr <? k_dma_limit then PMM_FLAG_DMA else 0.

Definition zone_for_flags (f : Z) : Z :=
  if negb (Z.land f PMM_FLAG_DMA =? 0) then PMM_ZONE_DMA else PMM_ZONE_NORMAL.

(** The frame number of the descriptor, [None] for NULL. *)
Definition phys_to_page (s : pmm) (phys_addr : Z) : option Z :=
  let idx := phys_addr / PAGE_SIZE in if total_pages s <=? idx then None else Some idx.

Definition page_to_phys (idx : Z) : Z := u32 (idx * PAGE_SIZE).

(** ** Free lists *)

Definition list_add (head : option Z) (p : Z) (mm : gmap Z page) : res (option Z * gmap Z page) :=
  mm ← page_upd (set_links None head) p mm;
  mm ← match head with Some h => page_upd (set_prev (Some p)) h mm | None => Ok mm end;
  Ok (Some p, mm).

Definition list_remove (head : option Z) (p : Z) (mm : gmap Z page) : res (option Z * gmap Z page) :=
  pg ← page_at mm p;
  r ← match prev pg with
      | Some q => mm ← page_upd (set_next (next pg)) q mm; Ok (head, mm)
      | None => Ok (next pg, mm)
      end;
  pg ← page_at r.2 p;
  mm ← match next pg with Some q => page_upd (set_prev (prev pg)) q r.2 | None => Ok r.2 end;
  mm ← page_upd (set_links None None) p mm;
  Ok (r.1, mm).

Definition free_area_push (z o p : Z) (s : pmm) : res pmm :=
  zn ← zone_at s z;
  area ← area_at zn o;
  let prev_count := area_count area in
  r ← list_add (area_head area) p (mem_map s);
  let bitmap := if prev_count =? 0 then Z.lor (free_bitmap zn) (Z.shiftl 1 o) else free_bitmap zn in
  Ok (with_zone z (PmmZone (<[o := FreeArea r.1 (u32 (prev_count + 1))]> (free_areas zn)) bitmap) (with_map r.2 s)).

Definition free_area_remove (z o p : Z) (s : pmm) : res pmm :=
  zn ← zone_at s z;
  area ← area_at zn o;
  r ← list_remove (area_head area) p (mem_map s);
  let count := u32 (area_count area - 1) in
  let bitmap := if count =? 0 then Z.land (free_bitmap zn) (u32 (Z.lnot (Z.shiftl 1 o))) else free_bitmap zn in
  Ok (with_zone z (PmmZone (<[o := FreeArea r.1 count]> (free_areas zn)) bitmap) (with_map r.2 s)).

Definition free_area_pop (z o : Z) (s : pmm) : res (option Z * pmm) :=
  zn ← zone_at s z;
  area ← area_at zn o;
  match area_head area with
  | None => Ok (None, s)
  | Some p => s ← free_area_remove z o p s; Ok (Some p, s)
  end.

(** ** The buddy allocator *)

(** [__builtin_ctz] *)
Fixpoint ctz (n : nat) (x : Z) : Z :=
  match n with O => 0 | S n => if Z.testbit x 0 then 0 else 1 + ctz n (Z.shiftr x 1) end.

Definition mark_used (p : page) : page :=
  set_ref_count 1 (set_flags (Z.land (Z.lor (flags p) PMM_FLAG_USED) (u32 (Z.lnot PMM_FLAG_FREE))) p).

Definition mark_free (o : Z) (p : page) : page :=
  set_ref_count 0 (set_order o (set_flags (Z.land (Z.lor (flags p) PMM_FLAG_FREE) (u32 (Z.lnot PMM_FLAG_USED))) p)).

(** [while (current_order > order)]: carve out the upper half. *)
Fixpoint split_loop (fuel : nat) (z p current_order o : Z) (s : pmm) : res pmm :=
  if o <? current_order then
    match fuel with
    | O => Timeout
    | S fuel =>
        let current_order := current_order - 1 in
        let buddy_pfn := u32 (p + Z.shiftl 1 current_order) in
        mm ← page_upd (mark_free current_order) buddy_pfn (mem_map s);
        s ← free_area_push z current_order buddy_pfn (with_map mm s);
        split_loop fuel z p current_order o s
    end
  else Ok s.

(** The result is the address, 0 for NULL. *)
Definition alloc_pages_zone_unlocked (cpu o z : Z) (s : pmm) : res (Z * pmm) :=
  if PMM_MAX_ORDER <? o then Ok (0, s) else
  if PMM_ZONE_COUNT <=? z then Ok (0, s) else
  zn ← zone_at s z;
  let order_mask := if o =? 0 then 0 else Z.shiftl 1 o - 1 in
  let available := Z.land (free_bitmap zn) (u32 (Z.lnot order_mask)) in
  if available =? 0 then Ok (0, s) else
  let current_order := ctz 32 available in
  r ← free_area_pop z current_order s;
  match r.1 with
  | None => Ok (0, r.2)
  | Some p =>
      mm ← page_upd (λ pg, clear_fields (mark_used pg)) p (mem_map r.2);
      s ← split_loop 12 z p current_order o (with_map mm r.2);
      mm ← page_upd (set_order o) p (mem_map s);
      Ok (page_to_phys p,
          with_used (<[cpu := u32 (cpu_used_pages s cpu + Z.shiftl 1 o)]> (cpu_used_pages s)) (with_map mm s))
  end.

(** [while (order < PMM_MAX_ORDER)]: merge with the buddy. *)
Fixpoint merge_loop (fuel : nat) (z pfn o : Z) (s : pmm) : res (Z * Z * pmm) :=
  if o <? PMM_MAX_ORDER then
    let buddy_pfn := Z.lxor pfn (Z.shiftl 1 o) in
    if total_pages s <=? buddy_pfn then Ok (pfn, o, s) else
    buddy ← page_at (mem_map s) buddy_pfn;
    if negb (Z.land (flags buddy) PMM_FLAG_USED =? 0) then Ok (pfn, o, s) else
    if negb (order buddy =? o) then Ok (pfn, o, s) else
    if negb (zone_for_flags (flags buddy) =? z) then Ok (pfn, o, s) else
    match fuel with
    | O => Timeout
    | S fuel =>
        s ← free_area_remove z o buddy_pfn s;
        mm ← page_upd (set_order 0) buddy_pfn (mem_map s);
        merge_loop fuel z (Z.land pfn buddy_pfn) (o + 1) (with_map mm s)
    end
  else Ok (pfn, o, s).

Definition free_pages_unlocked (cpu addr o : Z) (s : pmm) : res pmm :=
  match phys_to_page s addr with
  | None => Ok s
  | Some pfn =>
      pg ← page_at (mem_map s) pfn;
      if Z.land (flags pg) PMM_FLAG_USED =? 0 then Ok s else
      if negb (Z.land (flags pg) PMM_FLAG_KERNEL =? 0) then Ok s else
      let s := with_used (<[cpu := u32 (cpu_used_pages s cpu - Z.shiftl 1 o)]> (cpu_used_pages s)) s in
      let z := zone_for_flags (flags pg) in
      r ← merge_loop 12 z pfn o s;
      let '(pfn, o, s) := r in
      mm ← page_upd (λ pg, mark_free o (clear_fields pg)) pfn (mem_map s);
      free_area_push z o pfn (with_map mm s)
  end.

(** ** Counters *)

Definition MAX_CPUS : nat := 32.
Definition get_used_blocks (s : pmm) : Z :=
  foldl (λ total i, u32 (total + cpu_used_pages s (Z.of_nat i))) 0 (seq 0 MAX_CPUS).
Definition get_free_blocks (s : pmm) : Z := u32 (total_pages s - get_used_blocks s).
Definition get_total_blocks (s : pmm) : Z := total_pages s.

(** ** Batches *)

(** [for (; n < cap; n++)]: allocate until NULL. *)
Fixpoint alloc_up_to (n : nat) (cpu o z : Z) (s : pmm) : res (list Z * pmm) :=
  match n with
  | O => Ok ([], s)
  | S n =>
      r ← alloc_pages_zone_unlocked cpu o z s;
      if r.1 =? 0 then Ok ([], r.2) else
      t ← alloc_up_to n cpu o z r.2;
      Ok (r.1 :: t.1, t.2)
  end.

(** The result is the used part of [out]. *)
Definition alloc_pages_batch (cpu o preferred : Z) (cap : nat) (s : pmm) : res (list Z * pmm) :=
  if (Z.of_nat cap =? 0) || (PMM_MAX_ORDER <? o) then Ok ([], s) else
  let preferred := if PMM_ZONE_COUNT <=? preferred then PMM_ZONE_NORMAL else preferred in
  let fallback := if preferred =? PMM_ZONE_NORMAL then PMM_ZONE_DMA else PMM_ZONE_NORMAL in
  r ← alloc_up_to cap cpu o preferred s;
  if (length r.1 <? cap)%nat then
    t ← alloc_up_to (cap - length r.1) cpu o fallback r.2;
    Ok (r.1 ++ t.1, t.2)
  else Ok r.

(** Sorts addresses into the pages of the two zones, in arrays of 256. *)
Fixpoint sort_zones (s : pmm) (pages : list Z) : res (list Z * list Z) :=
  match pages with
  | [] => Ok ([], [])
  | a :: pages =>
      r ← sort_zones s pages;
      if a =? 0 then Ok r else
      match phys_to_page s a with
      | None => Ok r
      | Some i =>
          pg ← page_at (mem_map s) i;
          let '(dma, normal) := r in
          if zone_for_flags (flags pg) =? PMM_ZONE_DMA
          then if 256 <=? zlen dma then Fault else Ok (a :: dma, normal)
          else if 256 <=? zlen normal then Fault else Ok (dma, a :: normal)
      end
  end.

Fixpoint free_all (cpu o : Z) (pages : list Z) (s : pmm) : res pmm :=
  match pages with [] => Ok s | a :: pages => s ← free_pages_unlocked cpu a o s; free_all cpu o pages s end.

Definition free_pages_batch (cpu o : Z) (pages : list Z) (s : pmm) : res pmm :=
  if (zlen pages =? 0) || (PMM_MAX_ORDER <? o) then Ok s else
  r ← sort_zones s pages;
  s ← free_all cpu o r.1 s;
  free_all cpu o r.2 s.

(** ** Per-CPU page caches *)

Definition k_pcp_max_order : Z := 3.
Definition pcp_capacity (o : Z) : nat := nth (Z.to_nat o) [256; 128; 64; 32]%nat 0%nat.
Definition pcp_refill_batch (o : Z) : nat := nth (Z.to_nat o) [32; 16; 8; 4]%nat 0%nat.
Definition pcp_drain_batch (o : Z) : nat := nth (Z.to_nat o) [128; 64; 32; 16]%nat 0%nat.

(** [pcp_caches[cpu][zone].lists[order]] by its first [count] entries, the last one first. *)
Record pmm_state := PmmState { buddy : pmm; pcp : Z * Z * Z → list Z }.

Definition pcp_cache_drain (cpu o : Z) (l : list Z) (s : pmm) : res (list Z * pmm) :=
  if (length l <? pcp_capacity o)%nat then Ok (l, s) else
  let drain := (length l `min` pcp_drain_batch o)%nat in
  s ← free_pages_batch cpu o (take drain l) s;
  Ok (drop drain l, s).

Definition pcp_alloc_from_cache (cpu z o : Z) (st : pmm_state) : res (Z * pmm_state) :=
  match pcp st (cpu, z, o) with
  | a :: l => Ok (a, PmmState (buddy st) (<[(cpu, z, o) := l]> (pcp st)))
  | [] =>
      r ← alloc_pages_batch cpu o z (pcp_refill_batch o) (buddy st);
      match r.1 with
      | [] => Ok (0, PmmState r.2 (pcp st))
      | a :: rest => Ok (a, PmmState r.2 (<[(cpu, z, o) := reverse (take (pcp_capacity o) rest)]> (pcp st)))
      end
  end.

Definition pcp_free_to_cache (cpu z o a : Z) (st : pmm_state) : res pmm_state :=
  let l := pcp st (cpu, z, o) in
  r ← (if (pcp_capacity o <=? length l)%nat then pcp_cache_drain cpu o l (buddy st) else Ok (l, buddy st));
  if (length r.1 <? pcp_capacity o)%nat
  then Ok (PmmState r.2 (<[(cpu, z, o) := a :: r.1]> (pcp st)))
  else s ← free_pages_batch cpu o [a] r.2; Ok (PmmState s (<[(cpu, z, o) := r.1]> (pcp st))).

(** ** The interface *)

Definition lift (st : pmm_state) (r : res (Z * pmm)) : res (Z * pmm_state) :=
  x ← r; Ok (x.1, PmmState x.2 (pcp st)).

Definition alloc_pages_zone (cpu o z : Z) (st : pmm_state) : res (Z * pmm_state) :=
  if o <=? k_pcp_max_order then
    if PMM_ZONE_COUNT <=? z then Ok (0, st) else pcp_alloc_from_cache cpu z o st
  else
    _ ← zone_at (buddy st) z;
    lift st (alloc_pages_zone_unlocked cpu o z (buddy st)).

Definition alloc_pages (cpu o : Z) (st : pmm_state) : res (Z * pmm_state) :=
  if o <=? k_pcp_max_order then
    r ← pcp_alloc_from_cache cpu PMM_ZONE_NORMAL o st;
    if negb (r.1 =? 0) then Ok r else pcp_alloc_from_cache cpu PMM_ZONE_DMA o r.2
  else
    r ← alloc_pages_zone cpu o PMM_ZONE_NORMAL st;
    if negb (r.1 =? 0) then Ok r else alloc_pages_zone cpu o PMM_ZONE_DMA r.2.

Definition free_pages (cpu addr o : Z) (st : pmm_state) : res pmm_state :=
  if (addr =? 0) || (PMM_MAX_ORDER <? o) then Ok st else
  match phys_to_page (buddy st) addr with
  | None => Ok st
  | Some i =>
      pg ← page_at (mem_map (buddy st)) i;
      if o <=? k_pcp_max_order then
        if negb (Z.land (flags pg) PMM_FLAG_KERNEL =? 0) || (Z.land (flags pg) PMM_FLAG_USED =? 0) then Ok st
        else pcp_free_to_cache cpu (zone_for_flags (flags pg)) o addr st
      else
        _ ← zone_at (buddy st) (zone_for_flags (flags pg));
        s ← free_pages_unlocked cpu addr o (buddy st);
        Ok (PmmState s (pcp st))
  end.

(** The loops over zones and orders of [pmm_drain_local_pcp_caches]. *)
Definition drain_list (cpu z o : Z) (st : pmm_state) : res pmm_state :=
  let l := pcp st (cpu, z, o) in
  if (0 <? length l)%nat then
    s ← free_pages_batch cpu o (reverse l) (buddy st);
    Ok (PmmState s (<[(cpu, z, o) := []]> (pcp st)))
  else Ok st.

Fixpoint drain_lists (keys : list (Z * Z)) (cpu : Z) (st : pmm_state) : res pmm_state :=
  match keys with [] => Ok st | (z, o) :: keys => st ← drain_list cpu z o st; drain_lists keys cpu st end.

Definition pmm_drain_local_pcp_caches (cpu : Z) (st : pmm_state) : res pmm_state :=
  drain_lists [(0, 0); (0, 1); (0, 2); (0, 3); (1, 0); (1, 1); (1, 2); (1, 3)] cpu st.

(** ** Setting up *)

Definition PMM_REGION_AVAILABLE : Z := 1.

Record region := Region { reg_base : Z; reg_size : Z; reg_type : Z }.
Record reserved_region := Reserved { res_base : Z; res_size : Z }.

(** NULL with count 0 is the empty list. *)
Definition range_is_reserved (start end_ : Z) (reserved : list reserved_region) : bool :=
  existsb (λ r,
    if res_size r =? 0 then false else
    let r_start := align_down (res_base r) in
    let r_end := u32 (res_base r + res_size r) in
    let r_end := if r_end <? res_base r then 4294967295 else r_end in
    let r_end := align_up r_end in
    if r_end <=? start then false else if end_ <=? r_start then false else true) reserved.

(** [while (max_order > 0u)]: the largest order that fits at [cur]. *)
Fixpoint pick_order (max_order : nat) (cur end_aligned zone_flags : Z) (reserved : list reserved_region) : Z :=
  match max_order with
  | O => 0
  | S lower =>
      let block_size := u32 (Z.shiftl PAGE_SIZE (Z.of_nat max_order)) in
      let block_end := u32 (cur + block_size) in
      if (block_end <? cur) || (end_aligned <? block_end) then pick_order lower cur end_aligned zone_flags reserved else
      let cur_zone_flags := if negb (zone_flags =? 0) then zone_flags else zone_flags_for_addr cur in
      if (if negb (Z.land cur_zone_flags PMM_FLAG_DMA =? 0) then k_dma_limit <? block_end
          else (cur <? k_dma_limit) && (k_dma_limit <? block_end))
      then pick_order lower cur end_aligned zone_flags reserved
      else if range_is_reserved cur block_end reserved then pick_order lower cur end_aligned zone_flags reserved
      else Z.of_nat max_order
  end.

Fixpoint free_range_loop (fuel : nat) (cpu cur end_aligned zone_flags : Z) (reserved : list reserved_region) (s : pmm) : res pmm :=
  if cur <? end_aligned then
    match fuel with
    | O => Timeout
    | S fuel =>
        if negb (zone_flags =? 0) && negb (Z.land zone_flags PMM_FLAG_DMA =? 0) && (k_dma_limit <=? cur) then Ok s else
        let max_order := pick_order 11 cur end_aligned zone_flags reserved in
        let block_end := u32 (cur + u32 (Z.shiftl PAGE_SIZE max_order)) in
        if (block_end <=? cur) || (end_aligned <? block_end) then Ok s else
        if range_is_reserved cur block_end reserved
        then free_range_loop fuel cpu (u32 (cur + PAGE_SIZE)) end_aligned zone_flags reserved s
        else
          s ← free_pages_unlocked cpu cur max_order s;
          free_range_loop fuel cpu block_end end_aligned zone_flags reserved s
    end
  else Ok s.

Definition free_range (cpu start end_ zone_flags : Z) (reserved : list reserved_region) (s : pmm) : res pmm :=
  if end_ <=? start then Ok s else
  let cur := align_up start in
  let end_aligned := align_down end_ in
  if end_aligned <=? cur then Ok s else
  let cur := if negb (zone_flags =? 0) && (Z.land zone_flags PMM_FLAG_DMA =? 0) && (cur <? k_dma_limit)
             then k_dma_limit else cur in
  free_range_loop (Z.to_nat (end_aligned / PAGE_SIZE)) cpu cur end_aligned zone_flags reserved s.

Definition init_page (kernel_end i : Z) : page :=
  let addr := u32 (i * PAGE_SIZE) in
  let f := Z.lor PMM_FLAG_USED (zone_flags_for_addr addr) in
  Page (if addr <? kernel_end then Z.lor f PMM_FLAG_KERNEL else f) 1 0 0 0 None None.

Definition init_used_pages (total kernel_end_addr : Z) (s : pmm) : pmm :=
  let kernel_end := align_up kernel_end_addr in
  Pmm (list_to_map ((λ i, (i, init_page kernel_end i)) <$> seqZ 0 total)) (total_pages s) (zones s)
      (<[0 := total]> (cpu_used_pages s)).

Definition empty_pmm (total : Z) : pmm := Pmm ∅ total (λ _, PmmZone (λ _, FreeArea None 0) 0) (λ _, 0).

(** The end of the highest available region. *)
Definition max_end (regions : list region) : Z :=
  foldl (λ m r,
    if negb (reg_type r =? PMM_REGION_AVAILABLE) || (reg_size r =? 0) then m else
    let end_ := u32 (reg_base r + reg_size r) in
    let end_ := if end_ <? reg_base r then 4294967295 else end_ in
    if m <? end_ then end_ else m) 0 regions.

(** The second loop over the regions. *)
Definition free_region (cpu mem_map_end : Z) (reserved : list reserved_region) (r : region) (s : pmm) : res pmm :=
  if negb (reg_type r =? PMM_REGION_AVAILABLE) then Ok s else
  let start := align_up (reg_base r) in
  let end_ := align_down (u32 (reg_base r + reg_size r)) in
  if end_ <=? start then Ok s else
  let start := if start <? mem_map_end then mem_map_end else start in
  if end_ <=? start then Ok s else
  free_range cpu start end_ 0 reserved s.

Fixpoint free_regions (cpu mem_map_end : Z) (regions : list region) (reserved : list reserved_region) (s : pmm) : res pmm :=
  match regions with
  | [] => Ok s
  | r :: regions => s ← free_region cpu mem_map_end reserved r s; free_regions cpu mem_map_end regions reserved s
  end.

Definition init_regions (cpu : Z) (regions : list region) (reserved : list reserved_region) (kernel_end_addr : Z) : res pmm :=
  let total := align_down (max_end regions) / PAGE_SIZE in
  if total =? 0 then Ok (empty_pmm 0) else
  let mem_map_phys := align_up kernel_end_addr in
  let mem_map_size := u32 (total * 32) in
  let mem_map_end := align_up (u32 (mem_map_phys + mem_map_size)) in
  if mem_map_end <? mem_map_phys then Ok (empty_pmm 0) else
  free_regions cpu mem_map_end regions reserved (init_used_pages total mem_map_end (empty_pmm total)).

Definition init (cpu mem_size kernel_end_addr : Z) : res pmm :=
  init_regions cpu [Region 0 mem_size PMM_REGION_AVAILABLE] [] kernel_end_addr.
