(* ===== verification/PmmBuddy.v ===== *)
(** * The buddy allocator refines a map of blocks

    The free lists as doubly linked lists in the descriptors, the invariant that
    ties descriptors, lists, bitmap and counts to a map from frame numbers to
    blocks, and the refinement of allocation and release.  Blocks need not be
    aligned to their size: [PmmInit] shows that the ones set up at boot are not. *)

From stdpp Require Import functions.
From S2P Require Import Prelude Pmm.

(** ** Doubly linked lists in the page descriptors *)

(** The links are the only difference. *)
Definition strip (pg : page) : page := set_links None None pg.
Definition same_pages (mm mm' : gmap Z page) : Prop := strip <$> mm' = strip <$> mm.

Lemma same_pages_insert mm p pg pv nx : mm !! p = Some pg → same_pages mm (<[p := set_links pv nx pg]> mm).
Proof.
  intros Hp. unfold same_pages. rewrite fmap_insert. apply insert_id. by rewrite lookup_fmap, Hp.
Qed.

Lemma same_pages_lookup mm mm' p pg' :
  same_pages mm mm' → mm' !! p = Some pg' → ∃ pg, mm !! p = Some pg ∧ strip pg' = strip pg.
Proof.
  intros Hs Hp. apply (f_equal (lookup p)) in Hs. rewrite !lookup_fmap, Hp in Hs.
  destruct (mm !! p) as [pg|]; [|done]. exists pg. split; [done|]. by apply (inj Some) in Hs.
Qed.

Lemma same_pages_sym mm mm' : same_pages mm mm' → same_pages mm' mm.
Proof. unfold same_pages. auto. Qed.

Lemma same_pages_trans mm1 mm2 mm3 : same_pages mm1 mm2 → same_pages mm2 mm3 → same_pages mm1 mm3.
Proof. unfold same_pages. congruence. Qed.

(** [hd] starts a list with the elements [l] whose last link is [nx]. *)
Fixpoint seg (mm : gmap Z page) (pv hd : option Z) (l : list Z) (nx : option Z) : Prop :=
  match l with
  | [] => hd = nx
  | p :: l => hd = Some p ∧ ∃ pg, mm !! p = Some pg ∧ prev pg = pv ∧ seg mm (Some p) (next pg) l nx
  end.

Definition last_of (pv : option Z) (l : list Z) : option Z := foldl (λ _ p, Some p) pv l.

Lemma seg_app mm pv hd l1 l2 nx :
  seg mm pv hd (l1 ++ l2) nx ↔ ∃ mid, seg mm pv hd l1 mid ∧ seg mm (last_of pv l1) mid l2 nx.
Proof.
  revert pv hd. induction l1 as [|p l1 IH]; intros pv hd; simpl; [naive_solver|].
  setoid_rewrite IH. naive_solver.
Qed.

Lemma seg_frame mm mm' pv hd l nx :
  (∀ p, p ∈ l → mm' !! p = mm !! p) → seg mm pv hd l nx → seg mm' pv hd l nx.
Proof.
  revert pv hd. induction l as [|p l IH]; intros pv hd Hf; simpl; [done|].
  intros [-> (pg & Hp & <- & Hs)]. split; [done|]. exists pg. rewrite Hf by (by left). split_and!; try done.
  apply IH; [|done]. intros q Hq. apply Hf. by right.
Qed.

Lemma seg_lookup mm pv hd l nx p : seg mm pv hd l nx → p ∈ l → is_Some (mm !! p).
Proof.
  revert pv hd. induction l as [|q l IH]; intros pv hd; simpl; [by intros _ ?%not_elem_of_nil|].
  intros [-> (pg & Hp & <- & Hs)] [->|Hin]%elem_of_cons; eauto.
Qed.

Lemma seg_insert_ne mm pv hd l nx p pg : p ∉ l → seg mm pv hd l nx → seg (<[p := pg]> mm) pv hd l nx.
Proof. intros Hp. apply seg_frame. intros q Hq. apply lookup_insert_ne. congruence. Qed.

(** Another last link. *)
Lemma seg_set_next mm pv hd l q nx nx' pg :
  q ∉ l → mm !! q = Some pg → seg mm pv hd (l ++ [q]) nx →
  seg (<[q := set_next nx' pg]> mm) pv hd (l ++ [q]) nx'.
Proof.
  intros Hq Hpg. rewrite !seg_app. intros (mid & H1 & -> & pg' & Hpg' & Hpv & _).
  exists (Some q). split; [by apply seg_insert_ne|]. split; [done|].
  exists (set_next nx' pg). rewrite lookup_insert_eq. simpl. naive_solver.
Qed.

(** Another first link. *)
Lemma seg_set_prev mm pv pv' hd l q nx pg :
  q ∉ l → mm !! q = Some pg → seg mm pv hd (q :: l) nx → seg (<[q := set_prev pv' pg]> mm) pv' hd (q :: l) nx.
Proof.
  intros Hq Hpg [-> (pg' & Hpg' & Hpv & Hs)]. split; [done|]. exists (set_prev pv' pg).
  rewrite lookup_insert_eq. split_and!; [done|done|]. apply seg_insert_ne; [done|]. simpl. congruence.
Qed.

Lemma page_at_ok mm p pg : mm !! p = Some pg → page_at mm p = Ok pg.
Proof. intros Hp. unfold page_at. by rewrite Hp. Qed.

Lemma page_upd_ok f mm p pg : mm !! p = Some pg → page_upd f p mm = Ok (<[p := f pg]> mm).
Proof. intros Hp. unfold page_upd. by rewrite (page_at_ok _ _ _ Hp). Qed.

Lemma list_add_ok mm hd l p :
  seg mm None hd l None → NoDup l → p ∉ l → is_Some (mm !! p) →
  ∃ mm', list_add hd p mm = Ok (Some p, mm') ∧ seg mm' None (Some p) (p :: l) None ∧ same_pages mm mm' ∧
         ∀ q, q ≠ p → q ∉ l → mm' !! q = mm !! q.
Proof.
  intros Hs Hnd Hp [pg Hpg]. unfold list_add. rewrite (page_upd_ok _ _ _ _ Hpg). simpl.
  pose proof (same_pages_insert mm p pg None hd Hpg) as Hsame.
  apply (seg_insert_ne _ _ _ _ _ p (set_links None hd pg) Hp) in Hs as Hs1.
  destruct l as [|h l]; simpl in Hs.
  - subst hd. eexists. split; [done|]. split; [|split; [done|]].
    + split; [done|]. eexists. by rewrite lookup_insert_eq.
    + intros q Hq _. by apply lookup_insert_ne.
  - destruct Hs as [-> (hg & Hhg & _)]. apply NoDup_cons in Hnd as [Hh Hnd].
    assert (p ≠ h ∧ p ∉ l) as [Hph Hpl] by set_solver.
    rewrite (page_upd_ok _ _ h hg) by (by rewrite lookup_insert_ne). simpl. eexists. split; [done|]. split; [|split].
    + split; [done|]. exists (set_links None (Some h) pg). rewrite lookup_insert_ne, lookup_insert_eq by done.
      split; [done|]. split; [done|]. eapply seg_set_prev; [done|by rewrite lookup_insert_ne|exact Hs1].
    + eapply same_pages_trans; [done|]. apply same_pages_insert. by rewrite lookup_insert_ne.
    + intros q Hq Hql. rewrite !lookup_insert_ne by set_solver. done.
Qed.

Lemma last_of_app pv l p : last_of pv (l ++ [p]) = Some p.
Proof. unfold last_of. by rewrite foldl_app. Qed.

Lemma seg_last mm pv hd l q nx : seg mm pv hd (l ++ [q]) nx → ∃ pg, mm !! q = Some pg ∧ next pg = nx.
Proof. rewrite seg_app. intros (mid & _ & _ & pg & Hpg & _ & H). by exists pg. Qed.

(** Unlinking the successor side, once the predecessor side is done. *)
Lemma unlink_next mm pv p pg l :
  p ∉ l → NoDup l → mm !! p = Some pg → prev pg = pv → seg mm (Some p) (next pg) l None →
  ∃ mm', (mm ← match next pg with Some q => page_upd (set_prev (prev pg)) q mm | None => Ok mm end;
          page_upd (set_links None None) p mm) = Ok mm' ∧
         seg mm' pv (next pg) l None ∧ same_pages mm mm' ∧ ∀ q, q ≠ p → q ∉ l → mm' !! q = mm !! q.
Proof.
  intros Hpl Hnd Hp <- Hs. destruct l as [|q l]; simpl in Hs.
  - rewrite Hs. simpl. rewrite (page_upd_ok _ _ _ _ Hp). eexists. split; [done|]. split; [done|]. split; [by apply same_pages_insert|].
    intros q Hq _. by apply lookup_insert_ne.
  - destruct Hs as [Hn (qg & Hqg & Hqp & Hs)]. rewrite Hn, (page_upd_ok _ _ _ _ Hqg). cbn [mbind res_bind].
    apply NoDup_cons in Hnd as [Hql _].
    rewrite (page_upd_ok _ _ p pg) by (rewrite lookup_insert_ne by set_solver; done).
    eexists. split; [done|]. split; [|split].
    + apply seg_insert_ne; [done|]. eapply seg_set_prev; [done|done|]. split; [done|]. by exists qg.
    + eapply same_pages_trans; [by apply same_pages_insert|]. apply same_pages_insert.
      by rewrite lookup_insert_ne by set_solver.
    + intros r Hr Hrl. rewrite !lookup_insert_ne by set_solver. done.
Qed.

Lemma list_remove_ok mm hd l1 p l2 :
  seg mm None hd (l1 ++ p :: l2) None → NoDup (l1 ++ p :: l2) →
  ∃ hd' mm', list_remove hd p mm = Ok (hd', mm') ∧ seg mm' None hd' (l1 ++ l2) None ∧ same_pages mm mm' ∧
             (l1 = [] → hd = Some p) ∧ ∀ q, q ∉ l1 ++ p :: l2 → mm' !! q = mm !! q.
Proof.
  rewrite seg_app. intros (mid & H1 & Hmid & pg & Hp & Hprev & H2) Hnd. simpl in Hmid. subst mid.
  apply NoDup_app in Hnd as (Hnd1 & Hd12 & [Hp2 Hnd2]%NoDup_cons).
  assert (p ∉ l1) as Hp1 by (intros H; apply (Hd12 p H); by left).
  unfold list_remove. rewrite (page_at_ok _ _ _ Hp). simpl. rewrite Hprev.
  destruct l1 as [|q l1] using rev_ind.
  - simpl in *. rewrite (page_at_ok _ _ _ Hp). simpl.
    destruct (unlink_next mm None p pg l2 Hp2 Hnd2 Hp Hprev H2) as (mm' & Hm & Hs & Hsame & Hf).
    exists (next pg), mm'. split; [|split; [done|split; [done|split; [done|set_solver]]]].
    destruct (next pg) as [q|]; [destruct (page_upd (set_prev (prev pg)) q mm)|]; simpl in *; try done; by rewrite Hm.
  - clear IHl1. rewrite last_of_app. simpl.
    destruct (seg_last _ _ _ _ _ _ H1) as (qg & Hqg & Hqn). rewrite (page_upd_ok _ _ _ _ Hqg). simpl.
    apply NoDup_app in Hnd1 as (Hnd1 & Hd1 & _).
    assert (q ∉ l1) as Hq1 by (intros H; apply (Hd1 q H); by left).
    assert (p ≠ q ∧ q ∉ l2) as [Hpq Hq2] by set_solver.
    assert (<[q := set_next (next pg) qg]> mm !! p = Some pg) as Hp' by (by rewrite lookup_insert_ne).
    rewrite (page_at_ok _ _ _ Hp'). simpl.
    destruct (unlink_next (<[q := set_next (next pg) qg]> mm) (Some q) p pg l2 Hp2 Hnd2 Hp') as (mm' & Hm & Hs & Hsame & Hf).
    { by rewrite Hprev, last_of_app. }
    { by apply seg_insert_ne. }
    exists hd, mm'. split; [|split; [|split; [|split]]].
    + destruct (next pg) as [r|]; [destruct (page_upd (set_prev (prev pg)) r _)|]; simpl in *; try done; by rewrite Hm.
    + apply seg_app. exists (next pg). rewrite last_of_app. split; [|done].
      apply (seg_frame (<[q := set_next (next pg) qg]> mm)).
      * intros r Hr. apply Hf; set_solver.
      * by eapply seg_set_next.
    + eapply same_pages_trans; [by apply same_pages_insert|done].
    + by destruct l1.
    + intros r Hr. rewrite Hf by set_solver. apply lookup_insert_ne. set_solver.
Qed.

(** ** Blocks *)

(** A block of [2^o] pages is on a free list, handed out, or in the hands of
    the operation that runs. *)
Inductive block := FreeBlock (o : Z) | TakenBlock (o : Z) | HandBlock (o : Z).

#[global] Instance block_eq_dec : EqDecision block.
Proof. solve_decision. Defined.

Definition block_order (k : block) : Z := match k with FreeBlock o | TakenBlock o | HandBlock o => o end.

Definition used (pg : page) : bool := negb (Z.land (flags pg) PMM_FLAG_USED =? 0).

Definition zone_of (p : Z) : Z := if p <? 4096 then PMM_ZONE_DMA else PMM_ZONE_NORMAL.

Definition block_ok (total p o : Z) : Prop :=
  0 ≤ o ≤ PMM_MAX_ORDER ∧ 0 < p ∧ p + 2 ^ o ≤ total ∧ zone_of (p + 2 ^ o - 1) = zone_of p.

Definition apart (p o q k : Z) : Prop := p + 2 ^ o ≤ q ∨ q + 2 ^ k ≤ p.

Definition area_ok (mm : gmap Z page) (B : gmap Z block) (z o : Z) (a : free_area) : Prop :=
  ∃ l, NoDup l ∧ (∀ p, p ∈ l ↔ B !! p = Some (FreeBlock o) ∧ zone_of p = z) ∧
       seg mm None (area_head a) l None ∧ area_count a = zlen l.

(** A page inside a block that a merge left unmarked: the test for a free buddy
    must not mistake it for the head of a free block. *)
Definition stale (B : gmap Z block) (b : Z) (pg : page) : Prop :=
  (order pg = 0 ∨ PMM_MAX_ORDER < order pg) ∧
  ∃ P k, B !! P = Some k ∧ P < b < P + 2 ^ block_order k ∧ (Z.Odd b ∨ Z.Even P).

(** The blocks lie in memory, apart from each other, and hold no kernel pages. *)
Record blocks_ok (total : Z) (mm : gmap Z page) (B : gmap Z block) : Prop := BlocksOk {
  bi_total : 0 ≤ total ≤ 1048576;
  bi_map : ∀ i, is_Some (mm !! i) ↔ 0 ≤ i < total;
  bi_block : ∀ p k, B !! p = Some k → block_ok total p (block_order k);
  bi_apart : ∀ p k q j, B !! p = Some k → B !! q = Some j → p ≠ q → apart p (block_order k) q (block_order j);
  bi_zone : ∀ i pg, mm !! i = Some pg → zone_for_flags (flags pg) = zone_of i;
  bi_kernel : ∀ p k b pg, B !! p = Some k → p ≤ b < p + 2 ^ block_order k → mm !! b = Some pg →
    Z.land (flags pg) PMM_FLAG_KERNEL = 0 }.

(** What the descriptors say about the blocks. *)
Record marks_ok (mm : gmap Z page) (B : gmap Z block) : Prop := MarksOk {
  bi_free : ∀ p o pg, B !! p = Some (FreeBlock o) → mm !! p = Some pg → used pg = false ∧ order pg = o;
  bi_taken : ∀ p o pg, B !! p = Some (TakenBlock o) → mm !! p = Some pg → used pg = true;
  bi_stale : ∀ b pg, mm !! b = Some pg → used pg = false →
    (∃ o, B !! b = Some (FreeBlock o) ∨ B !! b = Some (HandBlock o)) ∨ stale B b pg }.

(** The free lists and the bitmap. *)
Record lists_ok (mm : gmap Z page) (zn : Z → pmm_zone) (B : gmap Z block) : Prop := ListsOk {
  bi_areas : ∀ z o, 0 ≤ z < PMM_ZONE_COUNT → 0 ≤ o ≤ PMM_MAX_ORDER → area_ok mm B z o (free_areas (zn z) o);
  bi_bitmap : ∀ z o, 0 ≤ z < PMM_ZONE_COUNT → 0 ≤ o →
    Z.testbit (free_bitmap (zn z)) o = true ↔ o ≤ PMM_MAX_ORDER ∧ area_head (free_areas (zn z) o) ≠ None }.

Definition buddy_inv (s : pmm) (B : gmap Z block) : Prop :=
  blocks_ok (total_pages s) (mem_map s) B ∧ marks_ok (mem_map s) B ∧ lists_ok (mem_map s) (zones s) B.

(** ** Buddies *)

Lemma lxor_bit_clear p o : 0 ≤ o → Z.testbit p o = false → Z.lxor p (2 ^ o) = p + 2 ^ o ∧ Z.land p (p + 2 ^ o) = p.
Proof.
  intros Ho Hb. assert (Z.land p (2 ^ o) = 0) as Hl.
  { apply Z.bits_inj'. intros i Hi. rewrite Z.land_spec, Z.pow2_bits_eqb, Z.bits_0 by done.
    destruct (Z.eqb_spec o i) as [->|]; [by rewrite Hb|apply andb_false_r]. }
  assert (Z.lxor p (2 ^ o) = p + 2 ^ o) as Hx by (symmetry; by apply Z.add_nocarry_lxor).
  split; [done|]. rewrite <- Hx. apply Z.bits_inj'. intros i Hi.
  rewrite Z.land_spec, Z.lxor_spec, Z.pow2_bits_eqb by done.
  destruct (Z.eqb_spec o i) as [->|]; [by rewrite Hb|rewrite xorb_false_r; apply andb_diag].
Qed.

Lemma lxor_bit_set p o :
  0 ≤ o → Z.testbit p o = true → Z.lxor p (2 ^ o) = p - 2 ^ o ∧ Z.land p (p - 2 ^ o) = p - 2 ^ o ∧ Z.testbit (p - 2 ^ o) o = false.
Proof.
  intros Ho Hb. set (q := Z.lxor p (2 ^ o)).
  assert (Z.testbit q o = false) as Hq by (unfold q; rewrite Z.lxor_spec, Z.pow2_bits_true, Hb; done).
  assert (Z.lxor q (2 ^ o) = p) as Hqp by (unfold q; rewrite Z.lxor_assoc, Z.lxor_nilpotent, Z.lxor_0_r; done).
  destruct (lxor_bit_clear q o Ho Hq) as [H1 H2]. rewrite Hqp in H1.
  replace (p - 2 ^ o) with q by lia. split_and!; [done| |done]. rewrite Z.land_comm. by rewrite <- H1 in H2.
Qed.

(** The two halves of a merge: the lower one and the page numbers. *)
Lemma buddy_cases p o :
  0 ≤ o →
  let b := Z.lxor p (Z.shiftl 1 o) in
  (b = p + 2 ^ o ∧ Z.land p b = p ∧ (o = 0 → Z.Even p)) ∨ (b = p - 2 ^ o ∧ Z.land p b = b ∧ (o = 0 → Z.Even b)).
Proof.
  intros Ho. rewrite Z.shiftl_1_l. destruct (Z.testbit p o) eqn:Hb.
  - destruct (lxor_bit_set p o Ho Hb) as (-> & Hl & Hz). right. split_and!; [done|done|]. intros ->.
    apply Z.even_spec. rewrite Z.bit0_odd in Hz. rewrite <- Z.negb_odd. by rewrite Hz.
  - destruct (lxor_bit_clear p o Ho Hb) as [-> Hl]. left. split_and!; [done|done|]. intros ->.
    apply Z.even_spec. rewrite Z.bit0_odd in Hb. rewrite <- Z.negb_odd. by rewrite Hb.
Qed.

Lemma zone_of_buddy p o : 0 ≤ p → 0 ≤ o < 12 → zone_of (Z.lxor p (Z.shiftl 1 o)) = zone_of p.
Proof.
  intros Hp Ho. rewrite Z.shiftl_1_l. pose proof (Z.pow_pos_nonneg 2 o ltac:(lia) ltac:(lia)).
  assert (Z.shiftr (Z.lxor p (2 ^ o)) 12 = Z.shiftr p 12) as Hs.
  { rewrite Z.shiftr_lxor, (Z.shiftr_div_pow2 (2 ^ o)), Z.div_small, Z.lxor_0_r; [done| |lia].
    split; [lia|]. apply Z.pow_lt_mono_r; lia. }
  assert (0 ≤ Z.lxor p (2 ^ o)) by (apply Z.lxor_nonneg; lia).
  rewrite !Z.shiftr_div_pow2 in Hs by lia. change (2 ^ 12) with 4096 in Hs. unfold zone_of.
  pose proof (Z.div_mod p 4096 ltac:(lia)). pose proof (Z.mod_pos_bound p 4096 ltac:(lia)).
  pose proof (Z.div_mod (Z.lxor p (2 ^ o)) 4096 ltac:(lia)). pose proof (Z.mod_pos_bound (Z.lxor p (2 ^ o)) 4096 ltac:(lia)).
  repeat case_if; try done; nia.
Qed.

Lemma pow2_pos o : 0 ≤ o → 0 < 2 ^ o.
Proof. intros. by apply Z.pow_pos_nonneg. Qed.

Lemma pow2_succ o : 0 ≤ o → 2 ^ (o + 1) = 2 ^ o + 2 ^ o.
Proof. intros. rewrite Z.pow_add_r by lia. lia. Qed.

(** Halves that are larger than a page start on frames of the same parity. *)
Lemma parity_shift p o : 0 < o → Z.Even p ↔ Z.Even (p + 2 ^ o).
Proof.
  intros Ho. rewrite <- !Z.even_spec, Z.even_add. rewrite (Z.even_pow 2 o) by lia.
  by destruct (Z.even p).
Qed.

(** ** Changing the status of a block *)

Lemma strip_fields pg pg' : strip pg = strip pg' → flags pg = flags pg' ∧ order pg = order pg' ∧ used pg = used pg'.
Proof. intros H. injection H as H1 _ H3 _ _. unfold used. by rewrite H1. Qed.

Lemma zone_of_range p : 0 ≤ zone_of p < PMM_ZONE_COUNT.
Proof. unfold zone_of. case_if; done. Qed.

Lemma relabel_lookup (B : gmap Z block) p k k' q j :
  B !! p = Some k → block_order k' = block_order k → <[p := k']> B !! q = Some j →
  ∃ j', B !! q = Some j' ∧ block_order j' = block_order j.
Proof.
  intros Hp Ho [[-> <-]|[_ H]]%lookup_insert_Some; [by exists k|by exists j].
Qed.

Lemma same_pages_dom mm mm' i : same_pages mm mm' → is_Some (mm' !! i) ↔ is_Some (mm !! i).
Proof.
  intros Hs. apply (f_equal (lookup i)) in Hs. rewrite !lookup_fmap in Hs.
  destruct (mm !! i), (mm' !! i); try done; split; by intros [? ?].
Qed.

Lemma relabel_blocks_ok total mm mm' B p k k' :
  blocks_ok total mm B → same_pages mm mm' → B !! p = Some k → block_order k' = block_order k →
  blocks_ok total mm' (<[p := k']> B).
Proof.
  intros [Ht Hm Hb Ha Hz Hk] Hs Hp Ho. pose proof (λ q j, relabel_lookup B p k k' q j Hp Ho) as HL.
  split; [done| | | | |].
  - intros i. rewrite <- Hm. by apply same_pages_dom.
  - intros q j (j' & Hj & <-)%HL; eauto.
  - intros q j q' i (j' & Hj & <-)%HL (i' & Hi & <-)%HL; eauto.
  - intros i pg' Hpg. destruct (same_pages_lookup _ _ _ _ Hs Hpg) as (pg & Hpg0 & E). apply strip_fields in E as [-> _]; eauto.
  - intros q j b pg' (j' & Hj & <-)%HL Hr Hpg.
    destruct (same_pages_lookup _ _ _ _ Hs Hpg) as (pg & Hpg0 & E). apply strip_fields in E as [-> _]; eauto.
Qed.

Lemma relabel_stale B p k k' b pg pg' :
  B !! p = Some k → block_order k' = block_order k → order pg' = order pg → stale B b pg → stale (<[p := k']> B) b pg'.
Proof.
  intros Hp Ho E [Hor (P & j & HP & Hr & Hpar)]. split; [by rewrite E|]. destruct (decide (P = p)) as [->|Hne].
  - exists p, k'. rewrite lookup_insert_eq. rewrite Ho. split_and!; try done; congruence || (replace k with j by congruence; lia).
  - exists P, j. rewrite lookup_insert_ne by done. done.
Qed.

(** Which mark a block of the given kind needs. *)
Definition mark_fits (k : block) (pg : page) : Prop :=
  match k with FreeBlock o => used pg = false ∧ order pg = o | TakenBlock _ => used pg = true | HandBlock _ => True end.

Lemma relabel_marks_ok mm mm' B p k k' pg :
  marks_ok mm B → same_pages mm mm' → B !! p = Some k → block_order k' = block_order k →
  mm !! p = Some pg → mark_fits k' pg → marks_ok mm' (<[p := k']> B).
Proof.
  intros [Hf Ht Hst] Hs Hp Ho Hpg Hfit.
  assert (∀ q pg', mm' !! q = Some pg' → ∃ pg0, mm !! q = Some pg0 ∧ order pg' = order pg0 ∧ used pg' = used pg0) as HL.
  { intros q pg' Hq. destruct (same_pages_lookup _ _ _ _ Hs Hq) as (pg0 & Hq0 & E). apply strip_fields in E. naive_solver. }
  split.
  - intros q o pg' Hq (pg0 & Hq0 & -> & ->)%HL. apply lookup_insert_Some in Hq as [[<- ->]|[_ Hq]]; [|eauto].
    by replace pg0 with pg by congruence.
  - intros q o pg' Hq (pg0 & Hq0 & _ & ->)%HL. apply lookup_insert_Some in Hq as [[<- ->]|[_ Hq]]; [|eauto].
    by replace pg0 with pg by congruence.
  - intros b pg' (pg0 & Hb0 & Eo & ->)%HL Hu. destruct (decide (b = p)) as [->|Hne].
    + replace pg0 with pg in * by congruence. left. rewrite lookup_insert_eq. exists (block_order k').
      destruct k'; simpl in *; auto. congruence.
    + rewrite lookup_insert_ne by done. destruct (Hst b pg0 Hb0 Hu) as [?|Hstale]; [by left|right].
      by eapply relabel_stale.
Qed.

(** ** The free lists under push and remove *)

Lemma area_len total mm B z o l :
  blocks_ok total mm B → NoDup l → (∀ p, p ∈ l ↔ B !! p = Some (FreeBlock o) ∧ zone_of p = z) → zlen l ≤ 1048576.
Proof.
  intros Hb Hnd Hl. assert (l ⊆+ seqZ 0 1048576) as Hsub.
  { apply NoDup_submseteq; [done|]. intros p [Hp _]%Hl. apply elem_of_seqZ.
    pose proof (bi_block _ _ _ Hb p _ Hp) as (Ho & Hp0 & Hend & _). pose proof (bi_total _ _ _ Hb).
    simpl in *. pose proof (pow2_pos o ltac:(lia)). lia. }
  apply submseteq_length in Hsub. rewrite length_seqZ in Hsub. lia.
Qed.

(** The lists of the other zones and orders do not see the change. *)
Lemma area_frame mm mm' B p k k' z o z' o' a (l : list Z) :
  area_ok mm B z' o' a → (z', o') ≠ (z, o) → B !! p = Some k → zone_of p = z →
  (∀ j, k = FreeBlock j → j = o) → (∀ j, k' = FreeBlock j → j = o) →
  (∀ q, q ∈ l → q = p ∨ (B !! q = Some (FreeBlock o) ∧ zone_of q = z)) →
  (∀ q, q ≠ p → q ∉ l → mm' !! q = mm !! q) → area_ok mm' (<[p := k']> B) z' o' a.
Proof.
  intros (l' & Hnd & Hl' & Hs & Hc) Hne Hp Hzp Hk Hk' Hl Hf. exists l'.
  assert (∀ q, q ∈ l' → q ≠ p ∧ q ∉ l) as Hout.
  { intros q [Hq Hz]%Hl'. split.
    - intros ->. rewrite Hp in Hq. injection Hq as ->. specialize (Hk o' eq_refl). congruence.
    - intros [->|[Hq' Hz']]%Hl; [rewrite Hp in Hq; injection Hq as ->; specialize (Hk o' eq_refl)|]; congruence. }
  split_and!; [done| |eapply seg_frame; [|done]; intros q Hq; apply Hf; by apply Hout|done].
  intros q. rewrite Hl'. destruct (decide (q = p)) as [->|Hqp].
  - rewrite lookup_insert_eq. split.
    + intros [Hq Hz]. rewrite Hp in Hq. injection Hq as ->. specialize (Hk o' eq_refl). congruence.
    + intros [[= ->] Hz]. specialize (Hk' o' eq_refl). congruence.
  - by rewrite lookup_insert_ne.
Qed.

Lemma zone_at_ok s z : 0 ≤ z < PMM_ZONE_COUNT → zone_at s z = Ok (zones s z).
Proof. intros Hz. unfold zone_at. by rewrite (proj2 (Z.leb_le _ _)), (proj2 (Z.ltb_lt _ _)) by lia. Qed.

Lemma area_at_ok zn o : 0 ≤ o ≤ PMM_MAX_ORDER → area_at zn o = Ok (free_areas zn o).
Proof. intros Ho. unfold area_at. by rewrite !(proj2 (Z.leb_le _ _)) by lia. Qed.

(** What stays when links and lists change. *)
Definition frame (s s' : pmm) : Prop :=
  total_pages s' = total_pages s ∧ cpu_used_pages s' = cpu_used_pages s ∧ same_pages (mem_map s) (mem_map s').

Lemma lookup_zone s z zn z' : zones (with_zone z zn s) z' = if decide (z' = z) then zn else zones s z'.
Proof. simpl. case_decide; [subst; apply fn_lookup_insert|by apply fn_lookup_insert_ne]. Qed.

Lemma push_lists mm zn B p o :
  lists_ok mm zn B → B !! p = Some (HandBlock o) → 0 ≤ o ≤ PMM_MAX_ORDER → is_Some (mm !! p) →
  (∀ l, NoDup l → (∀ q, q ∈ l ↔ B !! q = Some (FreeBlock o) ∧ zone_of q = zone_of p) → zlen l ≤ 1048576) →
  let a := free_areas (zn (zone_of p)) o in
  ∃ mm', list_add (area_head a) p mm = Ok (Some p, mm') ∧ same_pages mm mm' ∧
    lists_ok mm' (<[zone_of p := PmmZone (<[o := FreeArea (Some p) (u32 (area_count a + 1))]> (free_areas (zn (zone_of p))))
      (if area_count a =? 0 then Z.lor (free_bitmap (zn (zone_of p))) (Z.shiftl 1 o) else free_bitmap (zn (zone_of p)))]> zn)
      (<[p := FreeBlock o]> B).
Proof.
  intros [Ha Hbm] Hp Ho Hin Hlen a. pose proof (zone_of_range p) as Hz. set (z := zone_of p) in *.
  destruct (Ha z o Hz Ho) as (l & Hnd & Hl & Hs & Hc). fold a in Hs, Hc. specialize (Hlen l Hnd Hl).
  assert (p ∉ l) as Hpl by (intros [H _]%Hl; congruence).
  destruct (list_add_ok mm (area_head a) l p Hs Hnd Hpl Hin) as (mm' & Hadd & Hs' & Hsame & Hf).
  exists mm'. split_and!; [done|done|]. split.
  - intros z' o' Hz' Ho'. destruct (decide ((z', o') = (z, o))) as [[= -> ->]|Hne].
    + rewrite fn_lookup_insert. simpl. rewrite fn_lookup_insert. exists (p :: l). split_and!.
      * by apply NoDup_cons.
      * intros q. rewrite elem_of_cons, Hl. destruct (decide (q = p)) as [->|Hq]; [rewrite lookup_insert_eq; naive_solver|].
        rewrite lookup_insert_ne by done. naive_solver.
      * exact Hs'.
      * simpl. rewrite u32_small by lia. lia.
    + assert (area_ok mm' (<[p := FreeBlock o]> B) z' o' (free_areas (zn z') o')) as Hok.
      { eapply (area_frame mm mm' B p (HandBlock o) (FreeBlock o) z o z' o' _ l); try done; [by apply Ha|naive_solver|].
        intros q Hq. right. by apply Hl. }
      destruct (decide (z' = z)) as [->|Hzz]; [rewrite fn_lookup_insert; simpl|by rewrite fn_lookup_insert_ne].
      rewrite fn_lookup_insert_ne; [done|congruence].
  - intros z' o' Hz' Ho'. destruct (decide (z' = z)) as [->|Hzz]; [|rewrite fn_lookup_insert_ne by done; by apply Hbm].
    rewrite fn_lookup_insert. simpl. destruct (decide (o' = o)) as [->|Hoo].
    + rewrite fn_lookup_insert. simpl. split; [naive_solver|intros _]. case_if.
      * rewrite Z.lor_spec, Z.shiftl_1_l, Z.pow2_bits_true by lia. apply orb_true_r.
      * apply Hbm; [done|done|]. split; [lia|]. fold a. destruct l as [|q l]; simpl in *; [lia|]. by destruct Hs as [-> _].
    + rewrite fn_lookup_insert_ne by done. rewrite <- Hbm by done. case_if; [|done].
      rewrite Z.lor_spec, Z.shiftl_1_l, Z.pow2_bits_false by lia. by rewrite orb_false_r.
Qed.

Lemma push_ok s B p o pg :
  buddy_inv s B → B !! p = Some (HandBlock o) → mem_map s !! p = Some pg → used pg = false → order pg = o →
  ∃ s', free_area_push (zone_of p) o p s = Ok s' ∧ buddy_inv s' (<[p := FreeBlock o]> B) ∧ frame s s'.
Proof.
  intros (Hb & Hm & Hl) Hp Hpg Hu Hor. pose proof (bi_block _ _ _ Hb p _ Hp) as (Ho & _ & _ & _). simpl in Ho.
  unfold free_area_push. rewrite zone_at_ok by apply zone_of_range. simpl. rewrite area_at_ok by done. simpl.
  destruct (push_lists (mem_map s) (zones s) B p o Hl Hp Ho) as (mm' & -> & Hsame & Hl').
  { by exists pg. }
  { intros l Hnd Hll. by eapply (area_len _ _ B (zone_of p) o l). }
  simpl. eexists. split; [done|]. split; [split; [|split]|done].
  - by eapply relabel_blocks_ok.
  - by eapply relabel_marks_ok.
  - exact Hl'.
Qed.

Lemma clear_bit bm o o' : 0 ≤ o' → 0 ≤ o < 32 →
  Z.testbit (Z.land bm (u32 (Z.lnot (Z.shiftl 1 o)))) o' = (Z.testbit bm o' && (o' <? 32) && negb (o' =? o)).
Proof.
  intros Ho' Ho. unfold u32. change 4294967296 with (2 ^ 32). rewrite <- Z.land_ones by lia.
  rewrite !Z.land_spec, Z.lnot_spec, Z.shiftl_1_l, Z.pow2_bits_eqb, (Z.eqb_sym o o') by lia.
  destruct (Z.ltb_spec o' 32); [rewrite Z.ones_spec_low by lia|rewrite Z.ones_spec_high by lia];
    by destruct (Z.testbit bm o'), (o' =? o).
Qed.

Lemma remove_lists mm zn B p o :
  lists_ok mm zn B → B !! p = Some (FreeBlock o) → 0 ≤ o ≤ PMM_MAX_ORDER →
  (∀ l, NoDup l → (∀ q, q ∈ l ↔ B !! q = Some (FreeBlock o) ∧ zone_of q = zone_of p) → zlen l ≤ 1048576) →
  let a := free_areas (zn (zone_of p)) o in
  let c := u32 (area_count a - 1) in
  ∃ hd' mm', list_remove (area_head a) p mm = Ok (hd', mm') ∧ same_pages mm mm' ∧
    lists_ok mm' (<[zone_of p := PmmZone (<[o := FreeArea hd' c]> (free_areas (zn (zone_of p))))
      (if c =? 0 then Z.land (free_bitmap (zn (zone_of p))) (u32 (Z.lnot (Z.shiftl 1 o))) else free_bitmap (zn (zone_of p)))]> zn)
      (<[p := HandBlock o]> B).
Proof.
  intros [Ha Hbm] Hp Ho Hlen a c. pose proof (zone_of_range p) as Hz. set (z := zone_of p) in *.
  destruct (Ha z o Hz Ho) as (l & Hnd & Hl & Hs & Hc). fold a in Hs, Hc. specialize (Hlen l Hnd Hl).
  assert (p ∈ l) as Hpl by (by apply Hl). apply list_elem_of_split in Hpl as (l1 & l2 & ->).
  destruct (list_remove_ok mm (area_head a) l1 p l2 Hs Hnd) as (hd' & mm' & Hrem & Hs' & Hsame & _ & Hf).
  assert (c = zlen (l1 ++ l2)) as Hc'.
  { unfold c. rewrite Hc. rewrite !length_app in *. simpl in *. rewrite u32_small by lia. lia. }
  pose proof Hnd as (Hnd1 & Hd12 & [Hp2 Hnd2]%NoDup_cons)%NoDup_app.
  assert (p ∉ l1) as Hp1 by (intros H; apply (Hd12 p H); by left).
  exists hd', mm'. split_and!; [done|done|]. split.
  - intros z' o' Hz' Ho'. destruct (decide ((z', o') = (z, o))) as [[= -> ->]|Hne].
    + rewrite fn_lookup_insert. simpl. rewrite fn_lookup_insert. exists (l1 ++ l2). split_and!; [| |done|done].
      * apply NoDup_app. split_and!; [done|set_solver|done].
      * intros q. destruct (decide (q = p)) as [->|Hq]; [rewrite lookup_insert_eq; set_solver|].
        rewrite lookup_insert_ne, <- Hl by done. set_solver.
    + assert (area_ok mm' (<[p := HandBlock o]> B) z' o' (free_areas (zn z') o')) as Hok.
      { eapply (area_frame mm mm' B p (FreeBlock o) (HandBlock o) z o z' o' _ (l1 ++ p :: l2)); try done; [by apply Ha|naive_solver| |].
        - intros q Hq. right. by apply Hl.
        - intros q _. apply Hf. }
      destruct (decide (z' = z)) as [->|Hzz]; [rewrite fn_lookup_insert; simpl|by rewrite fn_lookup_insert_ne].
      rewrite fn_lookup_insert_ne; [done|congruence].
  - intros z' o' Hz' Ho'. destruct (decide (z' = z)) as [->|Hzz]; [|rewrite fn_lookup_insert_ne by done; by apply Hbm].
    rewrite fn_lookup_insert. simpl. destruct (decide (o' = o)) as [->|Hoo].
    + rewrite fn_lookup_insert. simpl. rewrite Hc'. destruct (l1 ++ l2) as [|q l]; simpl in *.
      * subst hd'. rewrite clear_bit, Z.eqb_refl, andb_false_r by (unfold PMM_MAX_ORDER in *; lia). naive_solver.
      * destruct Hs' as [-> _]. assert (Z.testbit (free_bitmap (zn z)) o = true) as ->; [|naive_solver lia].
        apply Hbm; [done|done|]. split; [lia|]. fold a. destruct l1; simpl in Hs; by destruct Hs as [-> _].
    + rewrite fn_lookup_insert_ne by done. rewrite <- Hbm by done. case_if; [|done].
      rewrite clear_bit by (unfold PMM_MAX_ORDER in *; lia). rewrite !andb_true_iff, negb_true_iff, Z.ltb_lt, Z.eqb_neq.
      split; [naive_solver|]. intros Hbit. split_and!; [done| |done].
      apply Hbm in Hbit as [Hle _]; [|done..]. unfold PMM_MAX_ORDER in *. lia.
Qed.

Lemma remove_ok s B p o :
  buddy_inv s B → B !! p = Some (FreeBlock o) →
  ∃ s', free_area_remove (zone_of p) o p s = Ok s' ∧ buddy_inv s' (<[p := HandBlock o]> B) ∧ frame s s'.
Proof.
  intros (Hb & Hm & Hl) Hp. pose proof (bi_block _ _ _ Hb p _ Hp) as (Ho & Hp0 & Hend & _). simpl in *.
  unfold free_area_remove. rewrite zone_at_ok by apply zone_of_range. simpl. rewrite area_at_ok by done. simpl.
  destruct (remove_lists (mem_map s) (zones s) B p o Hl Hp Ho) as (hd' & mm' & -> & Hsame & Hl').
  { intros l Hnd Hll. by eapply (area_len _ _ B (zone_of p) o l). }
  destruct (proj2 (bi_map _ _ _ Hb p)) as [pg Hpg]; [pose proof (pow2_pos o); lia|].
  simpl. eexists. split; [done|]. split; [split; [|split]|done].
  - by eapply relabel_blocks_ok.
  - by eapply relabel_marks_ok.
  - exact Hl'.
Qed.

(** ** Blocks in hand *)

Lemma block_page s B p k : buddy_inv s B → B !! p = Some k → ∃ pg, mem_map s !! p = Some pg.
Proof.
  intros (Hb & _ & _) Hp. destruct (bi_block _ _ _ Hb p k Hp) as (Ho & Hp0 & Hend & _).
  apply (bi_map _ _ _ Hb). pose proof (pow2_pos (block_order k)). lia.
Qed.

Definition is_free (k : block) : bool := match k with FreeBlock _ => true | _ => false end.

(** The lists do not see pages and blocks that are not free. *)
Lemma lists_ok_ext mm mm' zn B B' :
  lists_ok mm zn B → (∀ p o, B' !! p = Some (FreeBlock o) ↔ B !! p = Some (FreeBlock o)) →
  (∀ p o, B !! p = Some (FreeBlock o) → mm' !! p = mm !! p) → lists_ok mm' zn B'.
Proof.
  intros [Ha Hbm] HB Hm. split; [|done]. intros z o Hz Ho. destruct (Ha z o Hz Ho) as (l & Hnd & Hl & Hs & Hc).
  exists l. split_and!; [done| |eapply seg_frame; [|done]|done].
  - intros p. by rewrite Hl, HB.
  - intros p [Hp _]%Hl. eauto.
Qed.

Lemma hand_upd s B p o pg f :
  buddy_inv s B → B !! p = Some (HandBlock o) → mem_map s !! p = Some pg →
  zone_for_flags (flags (f pg)) = zone_for_flags (flags pg) →
  Z.land (flags (f pg)) PMM_FLAG_KERNEL = Z.land (flags pg) PMM_FLAG_KERNEL →
  buddy_inv (with_map (<[p := f pg]> (mem_map s)) s) B.
Proof.
  intros ([Ht Hm Hb Ha Hz Hk] & [Hf Htk Hst] & Hl) Hp Hpg Hzf Hkf. split; [split|split; [split|]]; simpl; try done.
  - intros i. rewrite <- Hm. destruct (decide (i = p)) as [->|Hne]; [rewrite lookup_insert_eq|by rewrite lookup_insert_ne].
    by rewrite Hpg.
  - intros i pg' [[<- <-]|[Hne Hi]]%lookup_insert_Some; [rewrite Hzf|]; eauto.
  - intros q k b pg' Hq Hr [[<- <-]|[Hne Hi]]%lookup_insert_Some; [rewrite Hkf|]; eauto.
  - intros q j pg' Hq [[<- <-]|[Hne Hi]]%lookup_insert_Some; [congruence|eauto].
  - intros q j pg' Hq [[<- <-]|[Hne Hi]]%lookup_insert_Some; [congruence|eauto].
  - intros b pg' [[<- <-]|[Hne Hi]]%lookup_insert_Some Hu; [left; eauto|eauto].
  - eapply lists_ok_ext; [done|done|]. intros q j Hq. apply lookup_insert_ne. congruence.
Qed.

Lemma relabel_ok s B p k k' pg :
  buddy_inv s B → B !! p = Some k → mem_map s !! p = Some pg → is_free k = false → is_free k' = false →
  block_order k' = block_order k → mark_fits k' pg → buddy_inv s (<[p := k']> B).
Proof.
  intros (Hb & Hm & Hl) Hp Hpg Hk Hk' Ho Hfit. split; [|split].
  - by eapply relabel_blocks_ok.
  - by eapply relabel_marks_ok.
  - eapply lists_ok_ext; [done| |done]. intros q o. destruct (decide (q = p)) as [->|Hne]; [|by rewrite lookup_insert_ne].
    rewrite lookup_insert_eq, Hp. split; intros [= ->]; done.
Qed.

(** Two adjacent blocks become one. *)
Lemma merge_hands s B l o pg :
  buddy_inv s B → B !! l = Some (HandBlock o) → B !! (l + 2 ^ o) = Some (HandBlock o) →
  o < PMM_MAX_ORDER → zone_of (l + 2 ^ o) = zone_of l → (o = 0 → Z.Even l) →
  mem_map s !! (l + 2 ^ o) = Some pg → used pg = true ∨ order pg = 0 ∨ PMM_MAX_ORDER < order pg →
  buddy_inv s (<[l := HandBlock (o + 1)]> (delete (l + 2 ^ o) B)).
Proof.
  intros ([Ht Hm Hb Ha Hz Hk] & [Hf Htk Hst] & Hl) Hlo Hup Ho11 Hzu Hev Hpg Hpgu.
  destruct (Hb l _ Hlo) as (Ho & Hl0 & _ & Hzl). destruct (Hb _ _ Hup) as (_ & _ & Hend & Hzue). simpl in *.
  pose proof (pow2_pos o ltac:(lia)) as Hpos. pose proof (pow2_succ o ltac:(lia)) as Hsucc.
  set (u := l + 2 ^ o) in *. assert (u ≠ l) as Hul by lia.
  assert (∀ q k, <[l := HandBlock (o + 1)]> (delete u B) !! q = Some k →
    (q = l ∧ k = HandBlock (o + 1)) ∨ (q ≠ l ∧ q ≠ u ∧ B !! q = Some k)) as HL.
  { intros q k [[<- <-]|[Hne Hq]]%lookup_insert_Some; [by left|right]. apply lookup_delete_Some in Hq. naive_solver. }
  split; [split|split; [split|]]; try done.
  - intros q k [[-> ->]|(_ & _ & Hq)]%HL; [|eauto]. split_and!; simpl; [lia..|].
    rewrite Hsucc. replace (l + (2 ^ o + 2 ^ o) - 1) with (u + 2 ^ o - 1) by lia. congruence.
  - intros q k q' k' [[-> ->]|(Hql & Hqu & Hq)]%HL [[-> ->]|(Hql' & Hqu' & Hq')]%HL Hne; unfold apart; simpl; try done.
    + pose proof (Ha l _ q' _ Hlo Hq' ltac:(done)). pose proof (Ha u _ q' _ Hup Hq' ltac:(done)). unfold apart in *. simpl in *.
      pose proof (pow2_pos (block_order k')). destruct (Hb _ _ Hq'). lia.
    + pose proof (Ha l _ q _ Hlo Hq ltac:(done)). pose proof (Ha u _ q _ Hup Hq ltac:(done)). unfold apart in *. simpl in *.
      pose proof (pow2_pos (block_order k)). destruct (Hb _ _ Hq). lia.
    + exact (Ha _ _ _ _ Hq Hq' Hne).
  - intros q k b pg' [[-> ->]|(_ & _ & Hq)]%HL Hr; [|eauto]. simpl in Hr.
    destruct (decide (b < u)) as [Hbu|Hbu]; [apply (Hk l _ b pg' Hlo)|apply (Hk u _ b pg' Hup)]; simpl; lia.
  - intros q j pg' [[_ ?]|(_ & _ & Hq)]%HL; [done|eauto].
  - intros q j pg' [[_ ?]|(_ & _ & Hq)]%HL; [done|eauto].
  - intros b pg' Hbp Hu. destruct (decide (b = l)) as [->|Hbl]; [left; exists (o + 1); right; apply lookup_insert_eq|].
    rewrite lookup_insert_ne by done. destruct (decide (b = u)) as [->|Hbu].
    + right. assert (pg' = pg) as -> by congruence. split; [destruct Hpgu as [E|E]; [congruence|done]|]. exists l, (HandBlock (o + 1)). rewrite lookup_insert_eq. split_and!; simpl; [done|lia..|].
      destruct (decide (o = 0)) as [->|Hne]; [right; auto|].
      destruct (Z.Even_or_Odd l) as [?|Hodd]; [by right|left]. unfold u.
      destruct (Z.Even_or_Odd (l + 2 ^ o)) as [He|]; [|done]. apply parity_shift in He; [|lia].
      destruct (Z.Even_Odd_False l); done.
    + rewrite lookup_delete_ne by done. destruct (Hst b pg' Hbp Hu) as [?|[Hor (P & k & HP & Hr & Hpar)]]; [by left|right].
      split; [done|]. destruct (decide (P = l)) as [->|HPl]; [|destruct (decide (P = u)) as [->|HPu]].
      * exists l, (HandBlock (o + 1)). rewrite lookup_insert_eq. replace k with (HandBlock o) in * by congruence. simpl in *.
        split_and!; [done|lia..|done].
      * exists l, (HandBlock (o + 1)). rewrite lookup_insert_eq. replace k with (HandBlock o) in * by congruence. simpl in *.
        split_and!; [done|lia..|]. destruct (decide (o = 0)) as [->|Hne]; [simpl in Hr; lia|].
        destruct Hpar as [?|He]; [by left|right]. by apply parity_shift in He; [|lia].
      * exists P, k. rewrite lookup_insert_ne, lookup_delete_ne by done. done.
  - eapply lists_ok_ext; [done| |done]. intros q j. split.
    + intros [[_ ?]|(_ & _ & Hq)]%HL; done.
    + intros Hq. rewrite lookup_insert_ne, lookup_delete_ne by congruence. done.
Qed.

(** A block becomes its two halves. *)
Lemma split_hand s B p c :
  buddy_inv s B → B !! p = Some (HandBlock (c + 1)) → 0 ≤ c →
  buddy_inv s (<[p + 2 ^ c := HandBlock c]> (<[p := HandBlock c]> B)).
Proof.
  intros ([Ht Hm Hb Ha Hz Hk] & [Hf Htk Hst] & Hl) Hp Hc.
  destruct (Hb p _ Hp) as (Ho & Hp0 & Hend & Hzp). simpl in *.
  pose proof (pow2_pos c Hc) as Hpos. pose proof (pow2_succ c Hc) as Hsucc.
  set (m := p + 2 ^ c) in *. assert (m ≠ p) as Hmp by lia.
  assert (B !! m = None) as Hmn.
  { destruct (B !! m) as [k|] eqn:E; [|done]. pose proof (Ha p _ m k Hp E ltac:(done)) as H. unfold apart in H. simpl in H.
    destruct (Hb m k E). pose proof (pow2_pos (block_order k)). lia. }
  assert (∀ q k, <[m := HandBlock c]> (<[p := HandBlock c]> B) !! q = Some k →
    ((q = p ∨ q = m) ∧ k = HandBlock c) ∨ (q ≠ p ∧ q ≠ m ∧ B !! q = Some k)) as HL.
  { intros q k [[<- <-]|[Hne [[<- <-]|[Hne' Hq]]%lookup_insert_Some]]%lookup_insert_Some; auto. }
  assert (∀ q k, q ≠ p → B !! q = Some k → apart p (c + 1) q (block_order k)) as Hap.
  { intros q k Hne Hq. exact (Ha p _ q k Hp Hq ltac:(done)). }
  split; [split|split; [split|]]; try done.
  - intros q k [[Hq ->]|(_ & _ & Hq)]%HL; [|eauto]. unfold block_ok, zone_of in *. simpl.
    assert (m = p + 2 ^ c) by done. clearbody m. repeat case_match; bool_simpl; split_and!; first [done | lia].
  - intros q k q' k' Hq Hq' Hne. apply HL in Hq as [[Hq ->]|(Hqp & _ & Hq)], Hq' as [[Hq' ->]|(Hqp' & _ & Hq')].
    + unfold apart. simpl. lia.
    + specialize (Hap q' k' Hqp' Hq'). unfold apart in *. simpl. lia.
    + specialize (Hap q k Hqp Hq). unfold apart in *. simpl. lia.
    + exact (Ha _ _ _ _ Hq Hq' Hne).
  - intros q k b pg' [[Hq ->]|(_ & _ & Hq)]%HL Hr; [|eauto]. apply (Hk p _ b pg' Hp). simpl in *. lia.
  - intros q j pg' [[_ ?]|(_ & _ & Hq)]%HL; [done|eauto].
  - intros q j pg' [[_ ?]|(_ & _ & Hq)]%HL; [done|eauto].
  - intros b pg' Hbp Hu. destruct (decide (b = m)) as [->|Hbm]; [left; exists c; right; apply lookup_insert_eq|].
    rewrite lookup_insert_ne by done. destruct (decide (b = p)) as [->|Hbl]; [left; exists c; right; apply lookup_insert_eq|].
    rewrite lookup_insert_ne by done. destruct (Hst b pg' Hbp Hu) as [?|[Hor (P & k & HP & Hr & Hpar)]]; [by left|right].
    split; [done|]. destruct (decide (P = p)) as [->|HPp].
    + replace k with (HandBlock (c + 1)) in * by congruence. simpl in Hr. destruct (decide (b < m)) as [Hlt|Hge].
      * exists p, (HandBlock c). rewrite lookup_insert_ne, lookup_insert_eq by done. split_and!; simpl; [done|lia..|done].
      * exists m, (HandBlock c). rewrite lookup_insert_eq. split_and!; simpl; [done|lia..|].
        destruct (decide (c = 0)) as [->|Hne]; [simpl in *; lia|].
        destruct Hpar as [?|He]; [by left|right]. unfold m. by apply parity_shift; [lia|].
    + exists P, k. rewrite !lookup_insert_ne by congruence. done.
  - eapply lists_ok_ext; [done| |done]. intros q j. split.
    + intros [[_ ?]|(_ & _ & Hq)]%HL; done.
    + intros Hq. rewrite !lookup_insert_ne by congruence. done.
Qed.

(** Pages that belong to no block yet and are marked used become a block in hand. *)
Lemma claim_hand s B p o :
  buddy_inv s B → block_ok (total_pages s) p o → (∀ q k, B !! q = Some k → apart p o q (block_order k)) →
  (∀ b pg, p ≤ b < p + 2 ^ o → mem_map s !! b = Some pg → Z.land (flags pg) PMM_FLAG_KERNEL = 0) →
  buddy_inv s (<[p := HandBlock o]> B).
Proof.
  intros ([Ht Hm Hb Ha Hz Hk] & [Hf Htk Hst] & Hl) Hok Hap Hker.
  pose proof Hok as (Ho & Hp0 & _). pose proof (pow2_pos o ltac:(lia)) as Hpos.
  assert (B !! p = None) as Hpn.
  { destruct (B !! p) as [k|] eqn:E; [|done]. pose proof (Hap p k E) as H. unfold apart in H.
    destruct (Hb p k E). pose proof (pow2_pos (block_order k)). lia. }
  assert (∀ q k, <[p := HandBlock o]> B !! q = Some k → (q = p ∧ k = HandBlock o) ∨ (q ≠ p ∧ B !! q = Some k)) as HL.
  { intros q k [[<- <-]|[Hne Hq]]%lookup_insert_Some; auto. }
  split; [split|split; [split|]]; try done.
  - intros q k [[-> ->]|(_ & Hq)]%HL; [done|eauto].
  - intros q k q' k' Hq Hq' Hne. apply HL in Hq as [[-> ->]|(_ & Hq)], Hq' as [[-> ->]|(_ & Hq')]; try done.
    + exact (Hap _ _ Hq').
    + pose proof (Hap _ _ Hq) as H. unfold apart in *. simpl. lia.
    + exact (Ha _ _ _ _ Hq Hq' Hne).
  - intros q k b pg' [[-> ->]|(_ & Hq)]%HL Hr; [by apply Hker|eauto].
  - intros q j pg' [[_ ?]|(_ & Hq)]%HL; [done|eauto].
  - intros q j pg' [[_ ?]|(_ & Hq)]%HL; [done|eauto].
  - intros b pg' Hbp Hu. destruct (decide (b = p)) as [->|Hbm]; [left; exists o; right; apply lookup_insert_eq|].
    rewrite lookup_insert_ne by done. destruct (Hst b pg' Hbp Hu) as [?|[Hor (P & k & HP & Hr & Hpar)]]; [by left|right].
    split; [done|]. exists P, k. rewrite lookup_insert_ne by congruence. done.
  - eapply lists_ok_ext; [done| |done]. intros q j. split.
    + intros [[_ ?]|(_ & Hq)]%HL; done.
    + intros Hq. rewrite lookup_insert_ne by congruence. done.
Qed.

(** The buddy test of the merge loop finds exactly the free buddies. *)
Lemma buddy_test s B p o pg :
  buddy_inv s B → B !! p = Some (HandBlock o) → o < PMM_MAX_ORDER →
  let b := Z.lxor p (Z.shiftl 1 o) in
  mem_map s !! b = Some pg → used pg = false → order pg = o → B !! b = Some (FreeBlock o) ∨ ∃ j, B !! b = Some (HandBlock j).
Proof.
  intros (Hb & Hm & _) Hp Ho11 b Hpg Hu Hor.
  destruct (bi_block _ _ _ Hb p _ Hp) as (Ho & Hp0 & _). simpl in *.
  destruct (bi_stale _ _ Hm b pg Hpg Hu) as [(j & [Hj|Hj])|[Hor' (P & k & HP & Hr & Hpar)]]; [left|eauto|exfalso].
  - destruct (bi_free _ _ Hm b j pg Hj Hpg). congruence.
  - assert (o = 0) as -> by lia. simpl in *. assert (P ≠ p) as HPp.
    { intros ->. replace k with (HandBlock 0) in Hr by congruence. simpl in Hr. lia. }
    pose proof (bi_apart _ _ _ Hb p _ P k Hp HP ltac:(done)) as Hap. unfold apart in Hap. simpl in Hap.
    destruct (buddy_cases p 0 ltac:(lia)) as [(E & _)|(E & _ & He)]; fold b in E; simpl in E; [lia|]. fold b in He.
    specialize (He eq_refl). destruct Hpar as [Hodd|HeP]; [by destruct (Z.Even_Odd_False b)|].
    destruct (bi_block _ _ _ Hb P k HP) as (Hk & _).
    assert (block_order k ≠ 0) as Hk0 by (intros E0; rewrite E0 in Hr; simpl in Hr; lia).
    apply (parity_shift P (block_order k)) in HeP; [|lia]. destruct He as [x Hx], HeP as [y Hy]. lia.
Qed.

(** ** The block map the allocator refines *)

(** Merge a block with its free buddies, as long as there are any. *)
Fixpoint coalesce (fuel : nat) (B : gmap Z block) (p o : Z) : Z * Z * gmap Z block :=
  match fuel with
  | O => (p, o, B)
  | S fuel =>
      let b := Z.lxor p (2 ^ o) in
      if decide (o < PMM_MAX_ORDER ∧ B !! b = Some (FreeBlock o))
      then coalesce fuel (delete b B) (Z.min p b) (o + 1) else (p, o, B)
  end.

Definition free_block (B : gmap Z block) (p o : Z) : gmap Z block :=
  let '(p', o', B') := coalesce 12 (delete p B) p o in <[p' := FreeBlock o']> B'.

(** The upper halves that are left when a block of order [o + n] is cut down to order [o]. *)
Fixpoint carve (n : nat) (B : gmap Z block) (p o : Z) : gmap Z block :=
  match n with
  | O => B
  | S n => carve n (<[p + 2 ^ (o + Z.of_nat n) := FreeBlock (o + Z.of_nat n)]> B) p o
  end.

Definition alloc_block (B : gmap Z block) (p c o : Z) : gmap Z block :=
  <[p := TakenBlock o]> (carve (Z.to_nat (c - o)) (delete p B) p o).

Definition no_hand (B : gmap Z block) : Prop := ∀ p o, B !! p ≠ Some (HandBlock o).

(** Not to be mistaken for the head of a free block. *)
Definition inert (mm : gmap Z page) (p : Z) : Prop :=
  ∀ pg, mm !! p = Some pg → used pg = true ∨ order pg = 0 ∨ PMM_MAX_ORDER < order pg.

Lemma inert_same mm mm' p : same_pages mm mm' → inert mm p → inert mm' p.
Proof.
  intros Hs Hi pg' Hp. destruct (same_pages_lookup _ _ _ _ Hs Hp) as (pg & Hpg & E).
  apply strip_fields in E as (_ & -> & ->). eauto.
Qed.

(** One round of the merge loop. *)
Lemma merge_round s B p o :
  buddy_inv s (<[p := HandBlock o]> B) → B !! p = None → inert (mem_map s) p → o < PMM_MAX_ORDER →
  let b := Z.lxor p (Z.shiftl 1 o) in
  B !! b = Some (FreeBlock o) →
  ∃ s1 mm, free_area_remove (zone_of p) o b s = Ok s1 ∧ page_upd (set_order 0) b (mem_map s1) = Ok mm ∧
    buddy_inv (with_map mm s1) (<[Z.min p b := HandBlock (o + 1)]> (delete b B)) ∧ Z.land p b = Z.min p b ∧
    zone_of (Z.min p b) = zone_of p ∧ delete b B !! Z.min p b = None ∧ inert mm (Z.min p b) ∧
    total_pages s1 = total_pages s ∧ cpu_used_pages s1 = cpu_used_pages s.
Proof.
  intros Hinv Hpn Hin Ho11 b Hb.
  assert (0 ≤ o ∧ 0 < p) as [Ho Hp0].
  { destruct Hinv as (Hbl & _). destruct (bi_block _ _ _ Hbl p _ (lookup_insert_eq _ _ _)) as ((? & _) & ? & _). done. }
  assert (b ≠ p) as Hbp by congruence.
  assert (zone_of b = zone_of p) as Hzb by (apply zone_of_buddy; unfold PMM_MAX_ORDER in *; lia).
  destruct (remove_ok s (<[p := HandBlock o]> B) b o) as (s1 & Hrem & Hinv1 & Ht & Hc & Hsame);
    [done|by rewrite lookup_insert_ne|]. rewrite Hzb in Hrem.
  destruct (block_page s1 _ b _ Hinv1 (lookup_insert_eq _ _ _)) as [bg Hbg].
  exists s1, (<[b := set_order 0 bg]> (mem_map s1)). rewrite (page_upd_ok _ _ _ _ Hbg).
  apply (hand_upd _ _ b o bg (set_order 0)) in Hinv1 as Hinv2; [|apply lookup_insert_eq|done..].
  pose proof (pow2_pos o Ho) as Hpos.
  assert (inert (<[b := set_order 0 bg]> (mem_map s1)) b) as Hib.
  { intros pg Hpg. rewrite lookup_insert_eq in Hpg. injection Hpg as <-. simpl. auto. }
  assert (inert (<[b := set_order 0 bg]> (mem_map s1)) p) as Hip.
  { intros pg Hpg. rewrite lookup_insert_ne in Hpg by done. by apply (inert_same _ _ _ Hsame Hin). }
  destruct (buddy_cases p o Ho) as [(E & Hl & Hev)|(E & Hl & Hev)]; fold b in E, Hl, Hev.
  - rewrite Hl. replace (Z.min p b) with p by lia.
    split_and!; try done; [|rewrite lookup_delete_ne by done; done].
    destruct (block_page _ _ b _ Hinv2 (lookup_insert_eq _ _ _)) as [bg' Hbg'].
    apply (merge_hands _ _ p o bg') in Hinv2; rewrite <- ?E; try done.
    + rewrite <- E in Hinv2. by rewrite delete_insert_eq, delete_insert_ne, insert_insert_eq in Hinv2 by done.
    + by rewrite lookup_insert_ne, lookup_insert_eq.
    + apply lookup_insert_eq.
    + by apply Hib.
  - rewrite Hl. replace (Z.min p b) with b by lia.
    split_and!; try done; [|by rewrite lookup_delete_eq].
    destruct (block_page _ _ p (HandBlock o) Hinv2) as [pg Hpg]; [by rewrite lookup_insert_ne, lookup_insert_eq|].
    assert (p = b + 2 ^ o) as Ep by lia.
    apply (merge_hands _ _ b o pg) in Hinv2; rewrite <- ?Ep; try done.
    + rewrite <- Ep in Hinv2.
      rewrite delete_insert_ne, delete_insert_eq, (delete_id B p) in Hinv2 by done.
      rewrite insert_insert_eq in Hinv2. by rewrite insert_delete_eq.
    + apply lookup_insert_eq.
    + by rewrite lookup_insert_ne, lookup_insert_eq.
    + by apply Hip.
Qed.

Lemma merge_loop_ok fuel s B p o :
  buddy_inv s (<[p := HandBlock o]> B) → B !! p = None → no_hand B → inert (mem_map s) p →
  PMM_MAX_ORDER - o ≤ Z.of_nat fuel →
  ∃ s', let '(p', o', B') := coalesce fuel B p o in
    merge_loop fuel (zone_of p) p o s = Ok (p', o', s') ∧ buddy_inv s' (<[p' := HandBlock o']> B') ∧
    zone_of p' = zone_of p ∧ total_pages s' = total_pages s ∧ cpu_used_pages s' = cpu_used_pages s.
Proof.
  revert s B p o. induction fuel as [|fuel IH]; intros s B p o Hinv Hpn Hnh Hin Hfuel.
  { exists s. simpl. case_if; [lia|done]. }
  assert (0 ≤ o ∧ 0 < p) as [Ho Hp0].
  { destruct Hinv as (Hbl & _). destruct (bi_block _ _ _ Hbl p _ (lookup_insert_eq _ _ _)) as ((? & _) & ? & _). done. }
  cbn [coalesce merge_loop]. set (b := Z.lxor p (Z.shiftl 1 o)).
  replace (Z.lxor p (2 ^ o)) with b by (unfold b; by rewrite Z.shiftl_1_l).
  destruct (o <? PMM_MAX_ORDER) eqn:E; bool_simpl; [|exists s; rewrite decide_False by lia; done].
  assert (B !! b = Some (FreeBlock o) → b ≠ p) as Hne by (intros ? ->; congruence).
  assert (0 ≤ b) as Hb0.
  { unfold b. rewrite Z.shiftl_1_l. apply Z.lxor_nonneg. pose proof (pow2_pos o Ho). lia. }
  case_decide as Hdec.
  - destruct Hdec as [_ Hb]. specialize (Hne Hb).
    destruct (block_page s _ b (FreeBlock o) Hinv) as [bg Hbg]; [by rewrite lookup_insert_ne|].
    pose proof Hinv as (Hbl & Hmk & _).
    destruct (bi_free _ _ Hmk b o bg) as [Hu Hor]; [by rewrite lookup_insert_ne|done|].
    assert (b < total_pages s) as Hbt by (apply (bi_map _ _ _ Hbl); by exists bg).
    destruct (merge_round s B p o Hinv Hpn Hin E Hb) as (s1 & mm & Hrem & Hupd & Hinv' & Hland & Hz & Hpn' & Hin' & Ht & Hc).
    fold b in Hrem, Hupd, Hinv', Hland, Hz, Hpn', Hin'.
    destruct (IH (with_map mm s1) (delete b B) (Z.min p b) (o + 1) Hinv' Hpn') as (s' & Hs'); [|done|lia|].
    { intros q j Hq. apply lookup_delete_Some in Hq as [_ Hq]. by eapply Hnh. }
    exists s'. destruct (coalesce fuel (delete b B) (Z.min p b) (o + 1)) as [[p' o'] B'].
    destruct Hs' as (Hml & Hinv2 & Hz2 & Ht2 & Hc2). rewrite Hz in Hml, Hz2. simpl in Ht2, Hc2.
    split_and!; [|done..|congruence|congruence].
    case_if; [lia|]. rewrite (page_at_ok _ _ _ Hbg). simpl. unfold used in Hu. rewrite Hu, Hor, Z.eqb_refl. simpl.
    assert (zone_for_flags (flags bg) = zone_of p) as ->.
    { rewrite (bi_zone _ _ _ Hbl b bg Hbg). apply zone_of_buddy; unfold PMM_MAX_ORDER in *; lia. }
    rewrite Z.eqb_refl. simpl. rewrite Hrem. simpl. rewrite Hupd. simpl. by rewrite Hland.
  - exists s. split_and!; [|done..]. case_if; [done|]. pose proof Hinv as (Hbl & _).
    destruct (proj2 (bi_map _ _ _ Hbl b)) as [bg Hbg]; [lia|]. rewrite (page_at_ok _ _ _ Hbg). simpl.
    repeat (case_if; [done|]). exfalso. assert (o < PMM_MAX_ORDER) as Ho11 by lia.
    destruct (buddy_test s (<[p := HandBlock o]> B) p o bg Hinv (lookup_insert_eq _ _ _) Ho11 Hbg) as [H|[j H]]; [| |fold b in H..].
    + unfold used. by rewrite E1.
    + lia.
    + apply lookup_insert_Some in H as [[_ ?]|[_ H]]; [done|]. apply Hdec. split; [lia|done].
    + apply lookup_insert_Some in H as [[Hpb _]|[_ H]]; [|by eapply Hnh].
      destruct (buddy_cases p o Ho) as [(E4 & _)|(E4 & _)]; fold b in E4; pose proof (pow2_pos o Ho); lia.
Qed.

#[local] Arguments merge_loop : simpl never.
#[local] Arguments coalesce : simpl never.

(** ** Marks *)

Lemma mark_free_flags o pg :
  let f := flags (mark_free o pg) in
  Z.land f PMM_FLAG_USED = 0 ∧ zone_for_flags f = zone_for_flags (flags pg) ∧
  Z.land f PMM_FLAG_KERNEL = Z.land (flags pg) PMM_FLAG_KERNEL.
Proof.
  simpl. unfold zone_for_flags, PMM_FLAG_FREE. rewrite Z.lor_0_r, <- !Z.land_assoc.
  change (Z.land (u32 (Z.lnot PMM_FLAG_USED)) PMM_FLAG_USED) with 0.
  change (Z.land (u32 (Z.lnot PMM_FLAG_USED)) PMM_FLAG_DMA) with PMM_FLAG_DMA.
  change (Z.land (u32 (Z.lnot PMM_FLAG_USED)) PMM_FLAG_KERNEL) with PMM_FLAG_KERNEL. by rewrite Z.land_0_r.
Qed.

Lemma mark_used_flags pg :
  let f := flags (mark_used pg) in
  Z.land f PMM_FLAG_USED = 1 ∧ zone_for_flags f = zone_for_flags (flags pg) ∧
  Z.land f PMM_FLAG_KERNEL = Z.land (flags pg) PMM_FLAG_KERNEL.
Proof.
  simpl. unfold zone_for_flags. rewrite <- !Z.land_assoc.
  change (Z.land (u32 (Z.lnot PMM_FLAG_FREE)) PMM_FLAG_USED) with PMM_FLAG_USED.
  change (Z.land (u32 (Z.lnot PMM_FLAG_FREE)) PMM_FLAG_DMA) with PMM_FLAG_DMA.
  change (Z.land (u32 (Z.lnot PMM_FLAG_FREE)) PMM_FLAG_KERNEL) with PMM_FLAG_KERNEL.
  rewrite !Z.land_lor_distr_l. change (Z.land PMM_FLAG_USED PMM_FLAG_DMA) with 0.
  change (Z.land PMM_FLAG_USED PMM_FLAG_KERNEL) with 0. rewrite !Z.lor_0_r. split_and!; [|done..].
  change (Z.land PMM_FLAG_USED PMM_FLAG_USED) with 1. change PMM_FLAG_USED with (Z.ones 1).
  rewrite Z.land_ones by lia. change (2 ^ 1) with 2. pose proof (Z.mod_pos_bound (flags pg) 2 ltac:(lia)).
  assert (flags pg `mod` 2 = 0 ∨ flags pg `mod` 2 = 1) as [->| ->] by lia; done.
Qed.

(** ** Release *)

Definition charge (cpu n : Z) (s : pmm) : Z → Z := <[cpu := u32 (cpu_used_pages s cpu + n)]> (cpu_used_pages s).

Lemma buddy_inv_used s B u : buddy_inv s B → buddy_inv (with_used u s) B.
Proof. done. Qed.

Lemma free_hand cpu s B p o pg :
  buddy_inv s (<[p := HandBlock o]> B) → B !! p = None → no_hand B → mem_map s !! p = Some pg → used pg = true →
  ∃ s', free_pages_unlocked cpu (p * PAGE_SIZE) o s = Ok s' ∧ buddy_inv s' (free_block (<[p := HandBlock o]> B) p o) ∧
        total_pages s' = total_pages s ∧ cpu_used_pages s' = charge cpu (- 2 ^ o) s.
Proof.
  intros Hinv Hpn Hnh Hpg Hu. pose proof Hinv as (Hbl & _).
  pose proof (bi_block _ _ _ Hbl p _ (lookup_insert_eq _ _ _)) as (Ho & Hp0 & Hend & _). simpl in Ho.
  pose proof (pow2_pos o ltac:(lia)) as Hpos. simpl in Hend.
  unfold free_pages_unlocked, phys_to_page. unfold PAGE_SIZE. rewrite Z.div_mul by lia. case_if; [lia|].
  rewrite (page_at_ok _ _ _ Hpg). simpl. unfold used in Hu. bool_simpl. rewrite (proj2 (Z.eqb_neq _ _)) by done.
  rewrite (bi_kernel _ _ _ Hbl p _ p pg (lookup_insert_eq _ _ _)); [|simpl; lia|done]. simpl.
  rewrite (bi_zone _ _ _ Hbl p pg Hpg), Z.shiftl_1_l.
  set (s0 := with_used _ s).
  destruct (merge_loop_ok 12 s0 B p o) as (s1 & Hs1); [done|done|done| |unfold PMM_MAX_ORDER in *; lia|].
  { intros pg' Hpg'. left. simpl in Hpg'. assert (pg' = pg) as -> by congruence. unfold used.
    by rewrite (proj2 (Z.eqb_neq _ _)). }
  unfold free_block. rewrite delete_insert_id by done.
  destruct (coalesce 12 B p o) as [[p' o'] B']. destruct Hs1 as (-> & Hinv1 & Hz & Ht & Hc). simpl.
  destruct (block_page _ _ p' _ Hinv1 (lookup_insert_eq _ _ _)) as [pg1 Hpg1].
  rewrite (page_upd_ok _ _ _ _ Hpg1). simpl.
  pose proof (mark_free_flags o' (clear_fields pg1)) as (Hfu & Hfz & Hfk).
  apply (hand_upd _ _ p' o' pg1 (λ pg, mark_free o' (clear_fields pg))) in Hinv1; [|apply lookup_insert_eq|done..].
  destruct (push_ok _ _ p' o' (mark_free o' (clear_fields pg1)) Hinv1) as (s2 & Hpush & Hinv2 & Ht2 & Hc2 & _);
    [apply lookup_insert_eq|apply lookup_insert_eq| |done|].
  { unfold used. by rewrite Hfu. }
  rewrite Hz in Hpush. exists s2. rewrite insert_insert_eq in Hinv2. split_and!; [done|done|simpl in *; congruence|].
  rewrite Hc2. simpl. rewrite Hc. done.
Qed.

Lemma free_taken cpu s B p o :
  buddy_inv s B → no_hand B → B !! p = Some (TakenBlock o) →
  ∃ s', free_pages_unlocked cpu (p * PAGE_SIZE) o s = Ok s' ∧ buddy_inv s' (free_block B p o) ∧
        total_pages s' = total_pages s ∧ cpu_used_pages s' = charge cpu (- 2 ^ o) s.
Proof.
  intros Hinv Hnh Hp. destruct (block_page s B p _ Hinv Hp) as [pg Hpg].
  pose proof Hinv as (_ & Hm & _). pose proof (bi_taken _ _ Hm p o pg Hp Hpg) as Hu.
  apply (relabel_ok s B p (TakenBlock o) (HandBlock o) pg) in Hinv; try done.
  destruct (free_hand cpu s (delete p B) p o pg) as (s' & Hf & Hinv' & Hr); [by rewrite insert_delete_eq|by rewrite lookup_delete_eq| |done|done|].
  { intros q j Hq. apply lookup_delete_Some in Hq as [_ Hq]. by eapply Hnh. }
  exists s'. split; [done|]. split; [|done]. rewrite insert_delete_eq in Hinv'. unfold free_block in *.
  by rewrite delete_insert_eq in Hinv'.
Qed.

(** ** Allocation *)

Lemma ctz_spec n x :
  0 < x < 2 ^ Z.of_nat n →
  0 ≤ ctz n x < Z.of_nat n ∧ Z.testbit x (ctz n x) = true ∧ ∀ i, 0 ≤ i < ctz n x → Z.testbit x i = false.
Proof.
  revert x. induction n as [|n IH]; intros x Hx; [simpl in Hx; lia|]. cbn [ctz].
  destruct (Z.testbit x 0) eqn:E0; [split_and!; [lia|lia|done|lia]|].
  assert (Z.shiftr x 1 = x / 2) as Hsh by (by rewrite Z.shiftr_div_pow2).
  rewrite Nat2Z.inj_succ, Z.pow_succ_r in Hx by lia.
  rewrite Z.bit0_odd in E0. assert (x = 2 * (x / 2)) as Hx2.
  { rewrite (Z.div_mod x 2) at 1 by lia. rewrite Zmod_odd, E0. lia. }
  destruct (IH (Z.shiftr x 1)) as (Hr & Hb & Hlow); [rewrite Hsh; lia|].
  rewrite Z.shiftr_spec in Hb by lia. split_and!; [lia..|by rewrite Z.add_comm|].
  intros i Hi. destruct (decide (i = 0)) as [->|Hne]; [by rewrite Z.bit0_odd|].
  specialize (Hlow (i - 1) ltac:(lia)). rewrite Z.shiftr_spec in Hlow by lia. by rewrite Z.sub_add in Hlow.
Qed.

#[local] Arguments ctz : simpl never.

Lemma available_bits bm o i : 0 ≤ o < 32 → 0 ≤ i →
  Z.testbit (Z.land bm (u32 (Z.lnot (if o =? 0 then 0 else Z.shiftl 1 o - 1)))) i =
  (Z.testbit bm i && (i <? 32) && (o <=? i)).
Proof.
  intros Ho Hi. replace (if o =? 0 then 0 else Z.shiftl 1 o - 1) with (Z.ones o).
  2: { rewrite Z.ones_equiv, Z.shiftl_1_l. destruct (Z.eqb_spec o 0) as [->|]; [done|lia]. }
  unfold u32. change 4294967296 with (2 ^ 32). rewrite <- Z.land_ones by lia.
  rewrite !Z.land_spec, Z.lnot_spec by lia.
  destruct (Z.ltb_spec i 32); [rewrite (Z.ones_spec_low 32) by lia|rewrite (Z.ones_spec_high 32) by lia; rewrite !andb_false_r; done].
  destruct (Z.leb_spec o i); [rewrite (Z.ones_spec_high o) by lia|rewrite (Z.ones_spec_low o) by lia];
    by destruct (Z.testbit bm i).
Qed.

Lemma nonempty_order s B z o :
  buddy_inv s B → 0 ≤ z < PMM_ZONE_COUNT → 0 ≤ o →
  Z.testbit (free_bitmap (zones s z)) o = true ↔
  ∃ p, area_head (free_areas (zones s z) o) = Some p ∧ B !! p = Some (FreeBlock o) ∧ zone_of p = z.
Proof.
  intros (Hb & _ & [Ha Hbm]) Hz Ho. rewrite Hbm by done. split.
  - intros [Ho11 Hne]. destruct (Ha z o Hz ltac:(lia)) as (l & _ & Hl & Hs & _). destruct l as [|p l]; simpl in Hs; [done|].
    destruct Hs as [Hh _]. exists p. split; [done|]. apply Hl. by left.
  - intros (p & Hh & Hp & _). destruct (bi_block _ _ _ Hb p _ Hp) as (Ho' & _). simpl in Ho'. split; [lia|congruence].
Qed.

Lemma free_order_bit s B p o :
  buddy_inv s B → B !! p = Some (FreeBlock o) → Z.testbit (free_bitmap (zones s (zone_of p))) o = true ∧ 0 ≤ o ≤ PMM_MAX_ORDER.
Proof.
  intros (Hb & _ & [Ha Hbm]) Hp. destruct (bi_block _ _ _ Hb p _ Hp) as (Ho & _). simpl in Ho.
  split; [|done]. apply Hbm; [apply zone_of_range|lia|]. split; [lia|].
  destruct (Ha (zone_of p) o (zone_of_range p) Ho) as (l & _ & Hl & Hs & _).
  assert (p ∈ l) as Hin by (by apply Hl). destruct l as [|q l]; [by apply not_elem_of_nil in Hin|].
  by destruct Hs as [-> _].
Qed.

Lemma split_loop_ok fuel n s B p o pg :
  buddy_inv s (<[p := HandBlock (o + Z.of_nat n)]> B) → B !! p = None → 0 ≤ o → (n ≤ fuel)%nat →
  mem_map s !! p = Some pg →
  ∃ s' pg', split_loop fuel (zone_of p) p (o + Z.of_nat n) o s = Ok s' ∧ buddy_inv s' (<[p := HandBlock o]> (carve n B p o)) ∧
    mem_map s' !! p = Some pg' ∧ strip pg' = strip pg ∧
    total_pages s' = total_pages s ∧ cpu_used_pages s' = cpu_used_pages s.
Proof.
  revert fuel s B pg. induction n as [|n IH]; intros fuel s B pg Hinv Hpn Ho Hn Hpg.
  { exists s, pg. replace (o + Z.of_nat 0) with o in * by lia. destruct fuel; simpl; rewrite Z.ltb_irrefl; done. }
  destruct fuel as [|fuel]; [lia|]. cbn [split_loop carve]. case_if; [|lia].
  replace (o + Z.of_nat (S n) - 1) with (o + Z.of_nat n) by lia. set (c := o + Z.of_nat n).
  replace (o + Z.of_nat (S n)) with (c + 1) in * by lia.
  pose proof Hinv as (Hbl & _). pose proof (bi_block _ _ _ Hbl p _ (lookup_insert_eq _ _ _)) as (Hc & Hp0 & Hend & Hzu).
  pose proof (bi_total _ _ _ Hbl) as Htot. simpl in Hc, Hend, Hzu.
  pose proof (pow2_pos c ltac:(lia)) as Hpos. pose proof (pow2_succ c ltac:(lia)) as Hsucc.
  rewrite Z.shiftl_1_l, u32_small by lia. set (m := p + 2 ^ c). assert (m ≠ p) as Hmp by lia.
  assert (zone_of m = zone_of p) as Hzm.
  { unfold zone_of in *. repeat case_match; bool_simpl; try done; lia. }
  apply (split_hand s _ p c) in Hinv; [|apply lookup_insert_eq|lia]. fold m in Hinv. rewrite insert_insert_eq in Hinv.
  destruct (block_page _ _ m _ Hinv (lookup_insert_eq _ _ _)) as [mg Hmg]. rewrite (page_upd_ok _ _ _ _ Hmg). simpl.
  pose proof (mark_free_flags c mg) as (Hfu & Hfz & Hfk).
  apply (hand_upd _ _ m c mg (mark_free c)) in Hinv; [|apply lookup_insert_eq|done..].
  destruct (push_ok _ _ m c (mark_free c mg) Hinv) as (s1 & Hpush & Hinv1 & Ht & Hcp & Hsame);
    [apply lookup_insert_eq|apply lookup_insert_eq| |done|].
  { unfold used. by rewrite Hfu. }
  rewrite Hzm in Hpush. rewrite Hpush. simpl. rewrite insert_insert_eq in Hinv1.
  rewrite insert_insert_ne in Hinv1 by done.
  destruct (block_page _ _ p _ Hinv1 (lookup_insert_eq _ _ _)) as [pg1 Hpg1].
  destruct (same_pages_lookup _ _ _ _ Hsame Hpg1) as (pg0 & Hpg0 & Hst). simpl in Hpg0.
  rewrite lookup_insert_ne in Hpg0 by done. assert (pg0 = pg) as -> by congruence.
  destruct (IH fuel s1 _ pg1 Hinv1) as (s' & pg' & Hs' & Hinv' & Hpg' & Hst' & Ht' & Hc'); [by rewrite lookup_insert_ne|done|lia|done|].
  exists s', pg'. simpl in Ht, Hcp. split_and!; [done|done|done|congruence..].
Qed.

#[local] Arguments split_loop : simpl never.
#[local] Arguments carve : simpl never.

Lemma alloc_fails cpu s B o z :
  buddy_inv s B → 0 ≤ z → 0 ≤ o →
  (PMM_MAX_ORDER < o ∨ PMM_ZONE_COUNT ≤ z ∨ ∀ p c, B !! p = Some (FreeBlock c) → zone_of p = z → c < o) →
  alloc_pages_zone_unlocked cpu o z s = Ok (0, s).
Proof.
  intros Hinv Hz Ho Hno. unfold alloc_pages_zone_unlocked. case_if; [done|]. case_if; [done|].
  destruct Hno as [?|[?|Hno]]; [lia..|]. rewrite zone_at_ok by lia. simpl.
  assert (0 ≤ o < 32) as Ho32 by (unfold PMM_MAX_ORDER in *; lia).
  rewrite (proj2 (Z.eqb_eq _ 0)); [done|]. apply Z.bits_inj'. intros i Hi. rewrite Z.bits_0, available_bits by done.
  destruct (Z.testbit (free_bitmap (zones s z)) i) eqn:Hb; [|done]. simpl.
  apply (nonempty_order s B z i Hinv) in Hb as (p & _ & Hp & Hzp); [|lia|done].
  specialize (Hno p i Hp Hzp). rewrite (proj2 (Z.leb_gt o i)) by lia. apply andb_false_r.
Qed.

Lemma alloc_ok cpu s B o z q k :
  buddy_inv s B → no_hand B → 0 ≤ o → B !! q = Some (FreeBlock k) → zone_of q = z → o ≤ k →
  ∃ p c s', alloc_pages_zone_unlocked cpu o z s = Ok (p * PAGE_SIZE, s') ∧
    B !! p = Some (FreeBlock c) ∧ zone_of p = z ∧ o ≤ c ∧
    (∀ q k, B !! q = Some (FreeBlock k) → zone_of q = z → o ≤ k → c ≤ k) ∧
    buddy_inv s' (alloc_block B p c o) ∧ total_pages s' = total_pages s ∧ cpu_used_pages s' = charge cpu (2 ^ o) s.
Proof.
  intros Hinv Hnh Ho Hq <- Hk. destruct (free_order_bit s B q k Hinv Hq) as [Hbit Hk11]. pose proof (zone_of_range q) as Hz.
  set (z := zone_of q) in *. unfold alloc_pages_zone_unlocked. case_if; [lia|]. case_if; [lia|].
  rewrite zone_at_ok by done. simpl. set (av := Z.land _ _).
  assert (0 ≤ o < 32) as Ho32 by (unfold PMM_MAX_ORDER in *; lia).
  assert (∀ i, 0 ≤ i → Z.testbit av i = true ↔ Z.testbit (free_bitmap (zones s z)) i = true ∧ i < 32 ∧ o ≤ i) as Hav.
  { intros i Hi. unfold av. rewrite available_bits, !andb_true_iff, Z.ltb_lt, Z.leb_le by done. naive_solver. }
  assert (0 < av < 2 ^ 32) as Havr.
  { assert (0 ≤ av < 2 ^ 32) as Hr.
    { unfold av, u32. change 4294967296 with (2 ^ 32). rewrite <- (Z.land_ones _ 32), Z.land_assoc, Z.land_ones by lia.
      apply Z.mod_pos_bound. lia. }
    assert (av ≠ 0); [|lia]. intros E1. assert (Z.testbit av k = true) as H by (apply Hav; [lia|unfold PMM_MAX_ORDER in *; split_and!; [done|lia..]]).
    rewrite E1, Z.bits_0 in H. done. }
  rewrite (proj2 (Z.eqb_neq av 0)) by lia. destruct (ctz_spec 32 av Havr) as (Hcr & Hcb & Hclow). set (c := ctz 32 av) in *.
  apply Hav in Hcb as (Hcb & _ & Hoc); [|lia].
  apply (nonempty_order s B z c Hinv) in Hcb as (p & Hh & Hp & Hzp); [|lia..].
  pose proof Hinv as (Hbl & _). destruct (bi_block _ _ _ Hbl p _ Hp) as (Hc & Hp0 & Hend & _). simpl in Hc, Hend.
  unfold free_area_pop. rewrite zone_at_ok by done. simpl. rewrite area_at_ok by lia. simpl. rewrite Hh.
  destruct (remove_ok s B p c Hinv Hp) as (s1 & Hrem & Hinv1 & Ht1 & Hc1 & _). rewrite Hzp in Hrem. rewrite Hrem. simpl.
  destruct (block_page _ _ p _ Hinv1 (lookup_insert_eq _ _ _)) as [pg Hpg]. rewrite (page_upd_ok _ _ _ _ Hpg). simpl.
  pose proof (mark_used_flags pg) as (Hfu & Hfz & Hfk).
  apply (hand_upd _ _ p c pg (λ pg, clear_fields (mark_used pg))) in Hinv1 as Hinv2; [|apply lookup_insert_eq|done..].
  destruct (split_loop_ok 12 (Z.to_nat (c - o)) (with_map (<[p := clear_fields (mark_used pg)]> (mem_map s1)) s1) (delete p B) p o (clear_fields (mark_used pg))) as
    (s2 & pg2 & Hs2 & Hinv3 & Hpg2 & Hst2 & Ht2 & Hc2).
  { rewrite insert_delete_eq. replace (o + Z.of_nat (Z.to_nat (c - o))) with c by lia. exact Hinv2. }
  { apply lookup_delete_eq. }
  { done. }
  { unfold PMM_MAX_ORDER in *. lia. }
  { apply lookup_insert_eq. }
  replace (o + Z.of_nat (Z.to_nat (c - o))) with c in Hs2 by lia. rewrite Hzp in Hs2. rewrite Hs2. simpl.
  rewrite (page_upd_ok _ _ _ _ Hpg2). simpl. apply strip_fields in Hst2 as (Hfl2 & _).
  change (flags (clear_fields (mark_used pg))) with (flags (mark_used pg)) in Hfl2.
  apply (hand_upd _ _ p o pg2 (set_order o)) in Hinv3; [|apply lookup_insert_eq|done..].
  apply (relabel_ok _ _ p (HandBlock o) (TakenBlock o) (set_order o pg2)) in Hinv3; try done;
    [|apply lookup_insert_eq|apply lookup_insert_eq|unfold mark_fits, used; change (flags (set_order o pg2)) with (flags pg2); by rewrite Hfl2, Hfu].
  rewrite insert_insert_eq in Hinv3. exists p, c. eexists.
  refine (conj _ (conj Hp (conj Hzp (conj Hoc (conj _ (conj (buddy_inv_used _ _ _ Hinv3) (conj _ _))))))).
  - unfold page_to_phys. rewrite u32_small; [done|]. pose proof (bi_total _ _ _ Hbl). unfold PAGE_SIZE.
    pose proof (pow2_pos c ltac:(lia)). lia.
  - intros q' k' Hq' Hz' Hk'. destruct (free_order_bit s B q' k' Hinv Hq') as [Hb' Hk'11]. rewrite Hz' in Hb'.
    destruct (decide (c ≤ k')) as [?|Hgt]; [done|]. assert (Z.testbit av k' = false) as H by (apply Hclow; lia).
    assert (Z.testbit av k' = true) by (apply Hav; [lia|unfold PMM_MAX_ORDER in *; split_and!; [done|lia..]]). congruence.
  - simpl in *. congruence.
  - simpl in *. rewrite Hc2, Hc1. unfold charge. by rewrite Z.shiftl_1_l.
Qed.
