(* ===== verification/PmmMap.v ===== *)
(** * The block map of the buddy allocator

    What allocation and release do to the map of blocks: which blocks there are
    afterwards, how many pages are free, that aligned blocks stay aligned and
    that no two free buddies are left apart. *)

From stdpp Require Import functions.
From S2P Require Import Prelude Pmm PmmBuddy.

(** ** The blocks after an allocation *)

Lemma carve_lookup n B p o q k :
  0 ≤ o →
  carve n B p o !! q = Some k ↔
    (∃ i, o ≤ i < o + Z.of_nat n ∧ q = p + 2 ^ i ∧ k = FreeBlock i) ∨
    ((∀ i, o ≤ i < o + Z.of_nat n → q ≠ p + 2 ^ i) ∧ B !! q = Some k).
Proof.
  intros Ho. revert B. induction n as [|n IH]; intros B.
  { cbn [carve]. split; [intros H; right; split; [lia|done]|intros [(i & ? & _)|[_ ?]]; [lia|done]]. }
  cbn [carve]. rewrite IH. clear IH. set (m := o + Z.of_nat n). replace (o + Z.of_nat (S n)) with (m + 1) by lia. split.
  - intros [(i & Hi & -> & ->)|[Hne H]]; [left; exists i; split_and!; [lia..|done|done]|].
    apply lookup_insert_Some in H as [[<- <-]|[Hn H]]; [left; exists m; split_and!; [lia..|done|done]|].
    right. split; [|done]. intros i Hi. destruct (decide (i = m)) as [->|]; [congruence|apply Hne; lia].
  - intros [(i & Hi & -> & ->)|[Hne H]].
    + destruct (decide (i = m)) as [->|Hin]; [right|left; exists i; split_and!; [lia..|done|done]].
      split; [|apply lookup_insert_eq]. intros i Hi' E. assert (2 ^ m = 2 ^ i) as E' by lia. apply Z.pow_inj_r in E'; lia.
    + right. split; [intros i Hi; apply Hne; lia|]. rewrite lookup_insert_ne; [done|]. intros E. apply (Hne m); [lia|done].
Qed.

(** Nothing else lies inside a block. *)
Lemma inside_none total mm B p k q :
  blocks_ok total mm B → B !! p = Some k → p < q < p + 2 ^ block_order k → B !! q = None.
Proof.
  intros Hb Hp Hq. destruct (B !! q) as [j|] eqn:E; [|done].
  pose proof (bi_apart _ _ _ Hb p k q j Hp E ltac:(lia)) as Ha. unfold apart in Ha.
  destruct (bi_block _ _ _ Hb q j E) as ((? & _) & _). pose proof (pow2_pos (block_order j)). lia.
Qed.

Lemma pow2_le a b : 0 ≤ a ≤ b → 2 ^ a ≤ 2 ^ b.
Proof. intros. apply Z.pow_le_mono_r; lia. Qed.

Lemma pow2_lt a b : 0 ≤ a < b → 2 ^ a < 2 ^ b.
Proof. intros. apply Z.pow_lt_mono_r; lia. Qed.

Lemma alloc_block_lookup total mm B p c o q k :
  blocks_ok total mm B → B !! p = Some (FreeBlock c) → 0 ≤ o ≤ c →
  alloc_block B p c o !! q = Some k ↔
    (q = p ∧ k = TakenBlock o) ∨ (∃ i, o ≤ i < c ∧ q = p + 2 ^ i ∧ k = FreeBlock i) ∨ (q ≠ p ∧ B !! q = Some k).
Proof.
  intros Hb Hp Hoc. unfold alloc_block. rewrite lookup_insert_Some, carve_lookup by lia.
  replace (o + Z.of_nat (Z.to_nat (c - o))) with c by lia.
  assert (∀ i, o ≤ i < c → p + 2 ^ i ≠ p ∧ B !! (p + 2 ^ i) = None) as Hin.
  { intros i Hi. pose proof (pow2_pos i ltac:(lia)). split; [lia|].
    apply (inside_none total mm B p (FreeBlock c)); [done|done|]. simpl. pose proof (pow2_lt i c ltac:(lia)). lia. }
  rewrite lookup_delete_Some. split.
  - intros [[<- <-]|[Hne [(i & Hi & -> & ->)|(_ & _ & H)]]]; [auto|right; left; eauto|right; right; auto].
  - intros [[-> ->]|[(i & Hi & -> & ->)|[Hne H]]]; [auto|right|right].
    + split; [by apply not_eq_sym, Hin|]. left. eauto.
    + split; [done|]. right. split; [|done]. intros i Hi ->. destruct (Hin i Hi). congruence.
Qed.

(** ** The blocks after a release *)

Lemma coalesce_spec fuel B p o p' o' B' :
  coalesce fuel B p o = (p', o', B') → 0 ≤ o →
  (∀ q k, B' !! q = Some k → B !! q = Some k) ∧
  (∀ q k, B !! q = Some k → B' !! q = Some k ∨ ∃ j, k = FreeBlock j ∧ o ≤ j ∧ p' ≤ q ∧ q + 2 ^ j ≤ p' + 2 ^ o') ∧
  o ≤ o' ∧ p' ≤ p ∧ p + 2 ^ o ≤ p' + 2 ^ o' ∧
  (∀ b, p' ≤ b < p' + 2 ^ o' → p ≤ b < p + 2 ^ o ∨ ∃ q j, B !! q = Some (FreeBlock j) ∧ q ≤ b < q + 2 ^ j).
Proof.
  revert B p o. induction fuel as [|fuel IH]; intros B p o Hco Ho; cbn [coalesce] in Hco.
  { injection Hco as <- <- <-. split_and!; auto with lia. }
  set (b := Z.lxor p (2 ^ o)) in *. case_decide as Hd; [|injection Hco as <- <- <-; split_and!; auto with lia].
  destruct Hd as [_ Hbf]. destruct (IH _ _ _ Hco ltac:(lia)) as (H1 & H2 & H3 & H4 & H5 & H6). clear IH.
  pose proof (pow2_pos o Ho) as Hpos. pose proof (pow2_succ o Ho) as Hsucc.
  assert ((b = p + 2 ^ o ∧ Z.min p b = p) ∨ (b = p - 2 ^ o ∧ Z.min p b = b)) as Hc.
  { pose proof (buddy_cases p o Ho) as Hbc. rewrite Z.shiftl_1_l in Hbc. fold b in Hbc. simpl in Hbc. lia. }
  split_and!; try lia.
  - intros q k Hq. apply H1, lookup_delete_Some in Hq. naive_solver.
  - intros q k Hq. destruct (decide (q = b)) as [->|Hne].
    + right. exists o. assert (k = FreeBlock o) as -> by congruence. split_and!; [done|lia..].
    + destruct (H2 q k) as [?|(j & -> & Hj & Hr)]; [by rewrite lookup_delete_ne|by left|right].
      exists j. split_and!; [done|lia..].
  - intros x Hx. destruct (H6 x Hx) as [Hr|(q & j & Hq & Hr)].
    + destruct (decide (b ≤ x < b + 2 ^ o)); [right; by exists b, o|left; lia].
    + right. exists q, j. apply lookup_delete_Some in Hq. naive_solver.
Qed.

Lemma coalesce_fresh fuel B p o p' o' B' : coalesce fuel B p o = (p', o', B') → B !! p = None → B' !! p' = None.
Proof.
  revert B p o. induction fuel as [|fuel IH]; intros B p o Hco Hp; cbn [coalesce] in Hco; [by injection Hco as <- <- <-|].
  case_decide; [|by injection Hco as <- <- <-]. apply (IH _ _ _ Hco). apply lookup_delete_None.
  destruct (Z.min_spec p (Z.lxor p (2 ^ o))) as [[_ ->]|[_ ->]]; auto.
Qed.

(** The loop only stops at the largest order or at a buddy that is not free. *)
Lemma coalesce_done fuel B p o p' o' B' :
  coalesce fuel B p o = (p', o', B') → PMM_MAX_ORDER - o ≤ Z.of_nat fuel →
  PMM_MAX_ORDER ≤ o' ∨ B' !! Z.lxor p' (2 ^ o') ≠ Some (FreeBlock o').
Proof.
  revert B p o. induction fuel as [|fuel IH]; intros B p o Hco Hf; cbn [coalesce] in Hco; [injection Hco as <- <- <-; left; lia|].
  case_decide as Hd; [apply (IH _ _ _ Hco); lia|]. injection Hco as <- <- <-.
  destruct (decide (PMM_MAX_ORDER ≤ o)); [by left|right]. intros H. apply Hd. split; [lia|done].
Qed.

(** ** The map after a release *)

Section Release.
Context (B : gmap Z block) (p o : Z) (Ho : 0 ≤ o).

(** A page in a free block. *)
Definition free_page (B : gmap Z block) (b : Z) : Prop := ∃ q k, B !! q = Some (FreeBlock k) ∧ q ≤ b < q + 2 ^ k.

(** The pages of the released block become free, and no others. *)
Lemma free_block_pages b :
  (∀ j, B !! p ≠ Some (FreeBlock j)) → free_page (free_block B p o) b ↔ free_page B b ∨ p ≤ b < p + 2 ^ o.
Proof.
  intros Hp. unfold free_block. destruct (coalesce 12 (delete p B) p o) as [[p' o'] B'] eqn:Hco.
  pose proof (coalesce_fresh _ _ _ _ _ _ _ Hco (lookup_delete_eq _ _)) as Hfr.
  destruct (coalesce_spec _ _ _ _ _ _ _ Hco Ho) as (H1 & H2 & H3 & H4 & H5 & H6). split.
  - intros (q & j & Hq & Hr). apply lookup_insert_Some in Hq as [[<- [= <-]]|[_ Hq]].
    + destruct (H6 b Hr) as [?|(q & j & Hq & Hb)]; [by right|left]. apply lookup_delete_Some in Hq as [_ Hq]. by exists q, j.
    + left. apply H1, lookup_delete_Some in Hq as [_ Hq]. by exists q, j.
  - intros [(q & j & Hq & Hr)|Hr].
    + destruct (H2 q (FreeBlock j)) as [Hq'|(j' & [= <-] & _ & Hr')]; [rewrite lookup_delete_ne by congruence; done| |].
      * exists q, j. rewrite lookup_insert_ne by congruence. done.
      * exists p', o'. rewrite lookup_insert_eq. split; [done|lia].
    + exists p', o'. rewrite lookup_insert_eq. split; [done|lia].
Qed.

(** The other blocks that are not free stay. *)
Lemma free_block_others q k :
  is_free k = false → free_block B p o !! q = Some k ↔ q ≠ p ∧ B !! q = Some k.
Proof.
  intros Hk. unfold free_block. destruct (coalesce 12 (delete p B) p o) as [[p' o'] B'] eqn:Hco.
  pose proof (coalesce_fresh _ _ _ _ _ _ _ Hco (lookup_delete_eq _ _)) as Hfr.
  destruct (coalesce_spec _ _ _ _ _ _ _ Hco Ho) as (H1 & H2 & _). rewrite lookup_insert_Some. split.
  - intros [[_ <-]|[_ Hq]]; [done|]. apply H1, lookup_delete_Some in Hq as [? ?]. auto.
  - intros [Hne Hq]. right. destruct (H2 q k) as [Hq'|(j & -> & _)]; [by rewrite lookup_delete_ne| |done].
    split; [congruence|done].
Qed.

(** A free block of the result is an old one or the merged one. *)
Lemma free_block_aligned :
  (2 ^ o | p) → (∀ q k, B !! q = Some k → 0 ≤ block_order k ∧ (2 ^ block_order k | q)) →
  ∀ q k, free_block B p o !! q = Some k → (2 ^ block_order k | q).
Proof.
  intros Hp HB. unfold free_block. destruct (coalesce 12 (delete p B) p o) as [[p' o'] B'] eqn:Hco.
  destruct (coalesce_spec _ _ _ _ _ _ _ Hco Ho) as (H1 & _). intros q k [[<- <-]|[_ Hq]]%lookup_insert_Some.
  - simpl. clear H1 HB. generalize dependent (delete p B). intros B0 Hco. revert B0 Hco. generalize 12%nat as fuel.
    intros fuel. revert p o Ho Hp. induction fuel as [|fuel IH]; intros p o Ho Hp B0 Hco; cbn [coalesce] in Hco;
      [by injection Hco as <- <- <-|]. case_decide; [|by injection Hco as <- <- <-].
    refine (IH _ _ _ _ _ Hco); [lia|]. rewrite pow2_succ by done. destruct Hp as [m ->].
    pose proof (pow2_pos o Ho) as Hpos. destruct (Z.testbit (m * 2 ^ o) o) eqn:Hb.
    + destruct (lxor_bit_set _ o Ho Hb) as (-> & _ & Hclr). rewrite Z.min_r by lia.
      replace (m * 2 ^ o - 2 ^ o) with ((m - 1) * 2 ^ o) in * by lia. rewrite Z.mul_pow2_bits, Z.sub_diag, Z.bit0_odd in Hclr by lia.
      assert (Z.even (m - 1) = true) as [h Hh]%Z.even_spec by (by rewrite <- Z.negb_odd, Hclr). exists h. rewrite Hh. lia.
    + destruct (lxor_bit_clear _ o Ho Hb) as (-> & _). rewrite Z.min_l by lia.
      rewrite Z.mul_pow2_bits, Z.sub_diag, Z.bit0_odd in Hb by lia.
      assert (Z.even m = true) as [h Hh]%Z.even_spec by (by rewrite <- Z.negb_odd, Hb). exists h. rewrite Hh. lia.
  - apply H1, lookup_delete_Some in Hq as [_ Hq]. by apply HB.
Qed.

(** No two free buddies of an order below the largest. *)
Definition coalesced (B : gmap Z block) : Prop :=
  ∀ q k, B !! q = Some (FreeBlock k) → k < PMM_MAX_ORDER → B !! Z.lxor q (2 ^ k) ≠ Some (FreeBlock k).

Lemma free_block_coalesced : coalesced B → coalesced (free_block B p o).
Proof.
  intros HB. unfold free_block. destruct (coalesce 12 (delete p B) p o) as [[p' o'] B'] eqn:Hco.
  pose proof (coalesce_done _ _ _ _ _ _ _ Hco) as Hd. destruct (coalesce_spec _ _ _ _ _ _ _ Hco Ho) as (H1 & _).
  assert (PMM_MAX_ORDER - o ≤ Z.of_nat 12) as Hf by (unfold PMM_MAX_ORDER; lia). specialize (Hd Hf).
  intros q k Hq Hk Hb.
  apply lookup_insert_Some in Hq as [[<- [= <-]]|[Hqn Hq]], Hb as [[Hb Ek]|[Hbn Hb]]; [|destruct Hd; [lia|done]| |].
  - assert (Z.lxor (Z.lxor p' (2 ^ o')) p' = 0) as H by (rewrite <- Hb; apply Z.lxor_nilpotent).
    rewrite Z.lxor_comm, <- Z.lxor_assoc, Z.lxor_nilpotent, Z.lxor_0_l in H. destruct Hd as [?|_]; [lia|].
    revert H. apply Z.pow_nonzero; [lia|]. destruct (coalesce_spec _ _ _ _ _ _ _ Hco Ho) as (_ & _ & ? & _). lia.
  - injection Ek as <-. destruct Hd as [?|Hd]; [lia|]. apply Hd. rewrite Hb, Z.lxor_assoc, Z.lxor_nilpotent, Z.lxor_0_r. done.
  - apply H1, lookup_delete_Some in Hq as [_ Hq]. apply H1, lookup_delete_Some in Hb as [_ Hb]. by apply (HB q k).
Qed.
End Release.

(** ** The map after an allocation *)

(** The upper halves cover what is above the block that is handed out. *)
Lemma halves_cover p o c b :
  0 ≤ o ≤ c → p + 2 ^ o ≤ b < p + 2 ^ c → ∃ i, o ≤ i < c ∧ p + 2 ^ i ≤ b < p + 2 ^ i + 2 ^ i.
Proof.
  intros Ho Hb. pose proof (pow2_pos o ltac:(lia)). exists (Z.log2 (b - p)).
  pose proof (Z.log2_spec (b - p) ltac:(lia)) as [Hl Hu]. rewrite Z.pow_succ_r in Hu by apply Z.log2_nonneg.
  split; [|lia]. split.
  - apply Z.log2_le_pow2; lia.
  - apply Z.log2_lt_pow2; lia.
Qed.

Section Allocate.
Context (total : Z) (mm : gmap Z page) (B : gmap Z block) (p c o : Z).
Context (Hb : blocks_ok total mm B) (Hp : B !! p = Some (FreeBlock c)) (Ho : 0 ≤ o ≤ c).

Lemma alloc_block_pages b : free_page (alloc_block B p c o) b ↔ free_page B b ∧ ¬ p ≤ b < p + 2 ^ o.
Proof.
  pose proof (pow2_le o c Ho) as Hle. unfold free_page. setoid_rewrite (alloc_block_lookup total mm B p c o _ _ Hb Hp Ho). split.
  - intros (q & k & [[_ ?]|[(i & Hi & -> & [= ->])|[Hne Hq]]] & Hr); [done| |].
    + pose proof (pow2_le o i ltac:(lia)). pose proof (pow2_le (i + 1) c ltac:(lia)) as Hic. rewrite pow2_succ in Hic by lia.
      split; [|lia]. exists p, c. split; [done|]. pose proof (pow2_pos i). lia.
    + split; [by exists q, k|]. pose proof (bi_apart _ _ _ Hb p _ q _ Hp Hq ltac:(done)) as Ha. unfold apart in Ha. simpl in Ha. lia.
  - intros [(q & k & Hq & Hr) Hn]. destruct (decide (q = p)) as [->|Hne].
    + assert (k = c) as -> by congruence. destruct (halves_cover p o c b Ho ltac:(lia)) as (i & Hi & Hbi).
      exists (p + 2 ^ i), i. split; [|done]. right; left. by exists i.
    + exists q, k. split; [|done]. auto.
Qed.

Lemma alloc_block_others q k :
  is_free k = false → alloc_block B p c o !! q = Some k ↔ (q = p ∧ k = TakenBlock o) ∨ B !! q = Some k.
Proof.
  intros Hk. rewrite (alloc_block_lookup total mm) by done. split.
  - intros [?|[(i & _ & _ & ->)|[_ ?]]]; [by left|done|by right].
  - intros [?|Hq]; [by left|]. right; right. split; [|done]. intros ->. assert (k = FreeBlock c) as -> by congruence. done.
Qed.

Lemma alloc_block_aligned :
  (∀ q k, B !! q = Some k → (2 ^ block_order k | q)) →
  ∀ q k, alloc_block B p c o !! q = Some k → (2 ^ block_order k | q).
Proof.
  intros Hal q k. rewrite (alloc_block_lookup total mm) by done. pose proof (Hal p _ Hp) as Hpc. simpl in Hpc.
  assert (∀ i, 0 ≤ i ≤ c → (2 ^ i | p)) as Hdiv.
  { intros i Hi. etrans; [|exact Hpc]. exists (2 ^ (c - i)). rewrite <- Z.pow_add_r by lia. f_equal. lia. }
  intros [[-> ->]|[(i & Hi & -> & ->)|[_ Hq]]]; simpl; [by apply Hdiv| |by apply Hal].
  apply Z.divide_add_r; [apply Hdiv; lia|done].
Qed.

Lemma alloc_block_coalesced :
  (∀ q k, B !! q = Some k → (2 ^ block_order k | q)) → coalesced B → coalesced (alloc_block B p c o).
Proof.
  intros Hal HB. pose proof (Hal p _ Hp) as Hpc. simpl in Hpc.
  assert (∀ i, o ≤ i < c → Z.lxor p (2 ^ i) = p + 2 ^ i ∧ Z.lxor (p + 2 ^ i) (2 ^ i) = p) as Hx.
  { intros i Hi. destruct Hpc as [m Hm]. assert (Z.testbit p i = false) as Hbit by (rewrite Hm; apply Z.mul_pow2_bits_low; lia).
    destruct (lxor_bit_clear p i ltac:(lia) Hbit) as [E _]. split; [done|].
    rewrite <- E, Z.lxor_assoc, Z.lxor_nilpotent. apply Z.lxor_0_r. }
  intros q k Hq Hk Hbd. apply (alloc_block_lookup total mm) in Hq; [|done..]. apply (alloc_block_lookup total mm) in Hbd; [|done..].
  destruct Hq as [[_ ?]|[(i & Hi & -> & [= ->])|[Hne Hq]]]; [done| |].
  - rewrite (proj2 (Hx i Hi)) in Hbd. destruct Hbd as [[_ ?]|[(j & Hj & E & _)|[? _]]]; [done| |done].
    pose proof (pow2_pos j ltac:(lia)). lia.
  - destruct Hbd as [[_ ?]|[(i & Hi & E & [= ->])|[_ Hbd]]]; [done| |by apply (HB q k)].
    apply Hne. rewrite <- (proj2 (Hx i Hi)), <- E, Z.lxor_assoc, Z.lxor_nilpotent. by rewrite Z.lxor_0_r.
Qed.
End Allocate.

(** ** How many pages are free *)

Definition free_size (k : block) : Z := match k with FreeBlock o => 2 ^ o | _ => 0 end.
Definition free_count (B : gmap Z block) : Z := map_fold (λ _ k n, free_size k + n) 0 B.

Lemma free_count_insert B p k : B !! p = None → free_count (<[p := k]> B) = free_size k + free_count B.
Proof. intros Hp. unfold free_count. rewrite map_fold_insert_L; [done|intros; lia|done]. Qed.

Lemma free_count_delete B p k : B !! p = Some k → free_count B = free_size k + free_count (delete p B).
Proof.
  intros Hp. rewrite <- (free_count_insert _ p) by apply lookup_delete_eq. by rewrite insert_delete_id.
Qed.

Lemma coalesce_count fuel B p o p' o' B' :
  coalesce fuel B p o = (p', o', B') → 0 ≤ o → free_count B' + 2 ^ o' = free_count B + 2 ^ o.
Proof.
  revert B p o. induction fuel as [|fuel IH]; intros B p o Hco Ho; cbn [coalesce] in Hco; [by injection Hco as <- <- <-|].
  case_decide as Hd; [|by injection Hco as <- <- <-]. destruct Hd as [_ Hb].
  rewrite (IH _ _ _ Hco) by lia. rewrite (free_count_delete B _ _ Hb), pow2_succ by done. simpl. lia.
Qed.

Lemma free_block_count B p o :
  0 ≤ o → (∀ j, B !! p ≠ Some (FreeBlock j)) → free_count (free_block B p o) = free_count B + 2 ^ o.
Proof.
  intros Ho Hp. unfold free_block. destruct (coalesce 12 (delete p B) p o) as [[p' o'] B'] eqn:Hco.
  pose proof (coalesce_fresh _ _ _ _ _ _ _ Hco (lookup_delete_eq _ _)) as Hfr.
  rewrite free_count_insert by done. simpl. rewrite Z.add_comm, (coalesce_count _ _ _ _ _ _ _ Hco Ho). f_equal.
  destruct (B !! p) as [k|] eqn:E; [rewrite (free_count_delete B p k E)|by rewrite delete_id].
  destruct k; simpl; [by destruct (Hp o0)|done|done].
Qed.

Lemma carve_count n B p o :
  0 ≤ o → (∀ i, o ≤ i < o + Z.of_nat n → B !! (p + 2 ^ i) = None) →
  free_count (carve n B p o) = free_count B + 2 ^ (o + Z.of_nat n) - 2 ^ o.
Proof.
  intros Ho. revert B. induction n as [|n IH]; intros B HB; cbn [carve]; [rewrite Z.add_0_r; lia|].
  rewrite IH.
  - rewrite free_count_insert by (apply HB; lia). replace (o + Z.of_nat (S n)) with (o + Z.of_nat n + 1) by lia.
    rewrite pow2_succ by lia. simpl. lia.
  - intros i Hi. rewrite lookup_insert_ne; [apply HB; lia|]. intros E. assert (2 ^ (o + Z.of_nat n) = 2 ^ i) as E' by lia.
    apply Z.pow_inj_r in E'; lia.
Qed.

Lemma alloc_block_count total mm B p c o :
  blocks_ok total mm B → B !! p = Some (FreeBlock c) → 0 ≤ o ≤ c → free_count (alloc_block B p c o) = free_count B - 2 ^ o.
Proof.
  intros Hb Hp Ho. unfold alloc_block.
  assert (∀ i, o ≤ i < c → p + 2 ^ i ≠ p ∧ B !! (p + 2 ^ i) = None) as Hin.
  { intros i Hi. pose proof (pow2_pos i ltac:(lia)). split; [lia|].
    apply (inside_none total mm B p (FreeBlock c)); [done|done|]. simpl. pose proof (pow2_lt i c ltac:(lia)). lia. }
  rewrite free_count_insert, carve_count; [|lia| |].
  - rewrite (free_count_delete B p _ Hp). replace (o + Z.of_nat (Z.to_nat (c - o))) with c by lia. simpl. lia.
  - intros i Hi. apply lookup_delete_None. right. apply Hin. lia.
  - apply eq_None_not_Some. intros [k Hk]. apply carve_lookup in Hk as [(i & Hi & E & _)|[_ Hk]]; [|rewrite lookup_delete_eq in Hk; done|lia].
    pose proof (pow2_pos i ltac:(lia)). lia.
Qed.

(** ** The counters *)

(** The pages that are not free are the ones accounted as used. *)
Definition acct (s : pmm) (B : gmap Z block) : Prop := get_used_blocks s = u32 (total_pages s - free_count B).

Lemma u32_add a b : u32 (u32 a + b) = u32 (a + b).
Proof. unfold u32. by rewrite Zplus_mod_idemp_l. Qed.

Lemma u32_minus a b : u32 (a - u32 b) = u32 (a - b).
Proof. unfold u32. by rewrite Zminus_mod_idemp_r. Qed.

Definition usum (g : Z → Z) (l : list nat) : Z := foldr (λ i n, g (Z.of_nat i) + n) 0 l.

Lemma used_sum g l a : foldl (λ t i, u32 (t + g (Z.of_nat i))) (u32 a) l = u32 (a + usum g l).
Proof.
  revert a. induction l as [|i l IH]; intros a; simpl; [by rewrite Z.add_0_r|].
  rewrite u32_add, IH. f_equal. lia.
Qed.

Lemma used_sum_0 g l : l ≠ [] → foldl (λ t i, u32 (t + g (Z.of_nat i))) 0 l = u32 (usum g l).
Proof. intros Hl. destruct l as [|i l]; [done|]. simpl. by rewrite used_sum. Qed.

Lemma usum_zero l : usum (λ _, 0) l = 0.
Proof. induction l as [|i l IH]; [done|]. simpl. by rewrite IH. Qed.

Lemma usum_insert g l (i : nat) x :
  NoDup l → usum (<[Z.of_nat i := x]> g) l = usum g l + if decide (i ∈ l) then x - g (Z.of_nat i) else 0.
Proof.
  intros Hnd. induction l as [|j l IH]; [done|]. apply NoDup_cons in Hnd as [Hj Hnd]. simpl. rewrite (IH Hnd).
  destruct (decide (j = i)) as [->|Hne].
  - rewrite fn_lookup_insert. rewrite (decide_False (P := i ∈ l)), decide_True by (done || by left). lia.
  - rewrite fn_lookup_insert_ne by lia. repeat case_decide; try lia; set_solver.
Qed.

Lemma get_used_charge s s' cpu n :
  0 ≤ cpu < 32 → cpu_used_pages s' = charge cpu n s → get_used_blocks s' = u32 (get_used_blocks s + n).
Proof.
  intros Hcpu Hc. unfold get_used_blocks. rewrite Hc. change 0 with (u32 0). rewrite !used_sum. unfold charge.
  rewrite <- (Z2Nat.id cpu) by lia. rewrite usum_insert by apply NoDup_seq.
  rewrite decide_True by (apply elem_of_seq; unfold MAX_CPUS; lia). rewrite u32_add.
  change (u32 0) with 0. set (g := cpu_used_pages s). set (c := Z.of_nat (Z.to_nat cpu)).
  replace (0 + (usum g (seq 0 MAX_CPUS) + (u32 (g c + n) - g c))) with (u32 (g c + n) + (usum g (seq 0 MAX_CPUS) - g c)) by lia.
  rewrite u32_add. f_equal. lia.
Qed.

Lemma acct_alloc s s' B B' cpu o :
  acct s B → 0 ≤ cpu < 32 → total_pages s' = total_pages s → cpu_used_pages s' = charge cpu (2 ^ o) s →
  free_count B' = free_count B - 2 ^ o → acct s' B'.
Proof.
  unfold acct. intros Ha Hcpu Ht Hc Hf. rewrite (get_used_charge s s' cpu (2 ^ o)), Ha, u32_add, Ht, Hf by done. f_equal. lia.
Qed.

Lemma acct_free s s' B B' cpu o :
  acct s B → 0 ≤ cpu < 32 → total_pages s' = total_pages s → cpu_used_pages s' = charge cpu (- 2 ^ o) s →
  free_count B' = free_count B + 2 ^ o → acct s' B'.
Proof.
  unfold acct. intros Ha Hcpu Ht Hc Hf. rewrite (get_used_charge s s' cpu (- 2 ^ o)), Ha, u32_add, Ht, Hf by done. f_equal. lia.
Qed.

(** The set of all free pages. *)
Definition block_pages (p : Z) (k : block) : gset Z := match k with FreeBlock o => list_to_set (seqZ p (2 ^ o)) | _ => ∅ end.
Definition all_free (B : gmap Z block) : gset Z := map_fold (λ p k l, block_pages p k ∪ l) ∅ B.

Lemma elem_of_block_pages p k b : b ∈ block_pages p k ↔ ∃ o, k = FreeBlock o ∧ p ≤ b < p + 2 ^ o.
Proof.
  destruct k; simpl; [rewrite elem_of_list_to_set, elem_of_seqZ; naive_solver|..];
    (split; [by intros ?%not_elem_of_empty|by intros (? & ? & _)]).
Qed.

Lemma all_free_insert B p k : B !! p = None → all_free (<[p := k]> B) = block_pages p k ∪ all_free B.
Proof. intros Hp. unfold all_free. rewrite map_fold_insert_L; [done|intros; set_solver|done]. Qed.

Lemma all_free_spec B b : b ∈ all_free B ↔ free_page B b.
Proof.
  induction B as [|p k B Hp IH] using map_ind; unfold free_page in *.
  - split; [by intros ?%not_elem_of_empty|]. intros (q & o & Hq & _). by rewrite lookup_empty in Hq.
  - rewrite all_free_insert, elem_of_union, IH, elem_of_block_pages by done. split.
    + intros [(o & -> & Hr)|(q & o & Hq & Hr)]; [exists p, o; by rewrite lookup_insert_eq|].
      exists q, o. rewrite lookup_insert_ne by congruence. done.
    + intros (q & o & [[<- ->]|[_ Hq]]%lookup_insert_Some & Hr); [left; eauto|right; eauto].
Qed.

Lemma all_free_size B :
  (∀ p k, B !! p = Some k → 0 ≤ block_order k) →
  (∀ p k q j, B !! p = Some k → B !! q = Some j → p ≠ q → apart p (block_order k) q (block_order j)) →
  Z.of_nat (size (all_free B)) = free_count B.
Proof.
  induction B as [|p k B Hp IH] using map_ind; intros Ho Ha; [done|].
  rewrite all_free_insert, free_count_insert by done.
  rewrite size_union; [|].
  - rewrite Nat2Z.inj_add, IH.
    + f_equal. specialize (Ho p k (lookup_insert_eq _ _ _)). destruct k; simpl in *; [|done..].
      rewrite size_list_to_set by apply NoDup_seqZ. rewrite length_seqZ. pose proof (pow2_pos o Ho). lia.
    + intros q j Hq. apply (Ho q). rewrite lookup_insert_ne by congruence. done.
    + intros q j q' j' Hq Hq'. apply Ha; rewrite lookup_insert_ne by congruence; done.
  - intros b (o & -> & Hr)%elem_of_block_pages (q & j & Hq & Hr')%all_free_spec.
    assert (apart p o q j) as Hap; [|unfold apart in Hap; lia].
    apply (Ha p (FreeBlock o) q (FreeBlock j)); [apply lookup_insert_eq|rewrite lookup_insert_ne by congruence; done|congruence].
Qed.

Lemma free_count_le total mm B : blocks_ok total mm B → 0 ≤ free_count B ≤ total.
Proof.
  intros Hb. rewrite <- all_free_size.
  - assert (all_free B ⊆ list_to_set (seqZ 0 total)) as Hsub%subseteq_size.
    { intros b (p & o & Hp & Hr)%all_free_spec. apply elem_of_list_to_set, elem_of_seqZ.
      destruct (bi_block _ _ _ Hb p _ Hp) as (_ & ? & ? & _). simpl in *. lia. }
    rewrite size_list_to_set, length_seqZ in Hsub by apply NoDup_seqZ. pose proof (bi_total _ _ _ Hb). lia.
  - intros p k Hp. by destruct (bi_block _ _ _ Hb p k Hp) as ((? & _) & _).
  - apply (bi_apart _ _ _ Hb).
Qed.

(** ** The pages of all blocks *)

Definition covered (B : gmap Z block) (b : Z) : Prop := ∃ p k, B !! p = Some k ∧ p ≤ b < p + 2 ^ block_order k.

(** Allocation only cuts blocks up. *)
Lemma alloc_block_covered total mm B p c o b :
  blocks_ok total mm B → B !! p = Some (FreeBlock c) → 0 ≤ o ≤ c → covered (alloc_block B p c o) b → covered B b.
Proof.
  intros Hb Hp Ho (q & k & Hq & Hr). apply (alloc_block_lookup total mm) in Hq; [|done..].
  destruct Hq as [[-> ->]|[(i & Hi & -> & ->)|[_ Hq]]]; simpl in Hr; [exists p, (FreeBlock c)..|by exists q, k]; (split; [done|]); simpl.
  - pose proof (pow2_le o c ltac:(lia)). lia.
  - pose proof (pow2_le (i + 1) c ltac:(lia)) as Hic. rewrite pow2_succ in Hic by lia. pose proof (pow2_pos i ltac:(lia)). lia.
Qed.

(** Release only joins them. *)
Lemma free_block_covered B p o b : 0 ≤ o → B !! p = Some (TakenBlock o) → covered (free_block B p o) b → covered B b.
Proof.
  intros Ho Hp (q & k & Hq & Hr). destruct k as [j|j|j].
  - assert (free_page (free_block B p o) b) as H by (by exists q, j).
    apply free_block_pages in H as [(q' & j' & Hq' & Hr')|Hr']; [by exists q', (FreeBlock j')|by exists p, (TakenBlock o)|done|congruence].
  - apply free_block_others in Hq as [_ Hq]; [by exists q, (TakenBlock j)|done|done].
  - apply free_block_others in Hq as [_ Hq]; [by exists q, (HandBlock j)|done|done].
Qed.
