(* ===== verification/PmmCache.v ===== *)
(** * Per-CPU caches and the interface of the memory manager

    Every block the buddy allocator has handed out is held exactly once: by a
    client, by one of the per-CPU caches, or by the operation that runs. *)

From stdpp Require Import functions.
From S2P Require Import Prelude Pmm PmmBuddy PmmMap.

#[local] Arguments alloc_pages_zone_unlocked : simpl never.
#[local] Arguments free_pages_unlocked : simpl never.
#[local] Arguments alloc_block : simpl never.
#[local] Arguments free_block : simpl never.

(** ** Who holds the blocks *)

(** The list of frame numbers and orders of all blocks that are handed out. *)
Definition holds (B : gmap Z block) (X : list (Z * Z)) : Prop :=
  NoDup (fst <$> X) ∧ ∀ p o, (p, o) ∈ X ↔ B !! p = Some (TakenBlock o).

#[global] Instance holds_proper B : Proper ((≡ₚ) ==> iff) (holds B).
Proof. intros X Y HXY. unfold holds. setoid_rewrite HXY. done. Qed.

Section Held.
(** The pages the memory map gave to the allocator. *)
Context (U : Z → Prop).

(** The buddy allocator with what it has handed out. *)
Definition heap_inv (s : pmm) (X : list (Z * Z)) : Prop :=
  ∃ B, buddy_inv s B ∧ no_hand B ∧ holds B X ∧ acct s B ∧ ∀ b, covered B b → U b.

Definition tag (o : Z) (ps : list Z) : list (Z * Z) := (λ p, (p, o)) <$> ps.
Definition addr (p : Z) : Z := p * PAGE_SIZE.

Lemma tag_fst o ps : fst <$> tag o ps = ps.
Proof. unfold tag. rewrite <- list_fmap_compose. apply list_fmap_id. Qed.

Lemma holds_alloc total mm B X p c o :
  blocks_ok total mm B → holds B X → B !! p = Some (FreeBlock c) → 0 ≤ o ≤ c → holds (alloc_block B p c o) ((p, o) :: X).
Proof.
  intros Hb [Hnd HX] Hp Ho. split; simpl.
  - apply NoDup_cons. split; [|done]. intros ([q k] & -> & Hq)%list_elem_of_fmap. apply HX in Hq. simpl in *. congruence.
  - intros q k. rewrite elem_of_cons, HX, (alloc_block_others total mm) by done. naive_solver.
Qed.

Lemma holds_free B X p o : holds B ((p, o) :: X) → 0 ≤ o → holds (free_block B p o) X.
Proof.
  intros [Hnd HX] Ho. simpl in Hnd. apply NoDup_cons in Hnd as [Hp Hnd]. split; [done|]. intros q k.
  rewrite free_block_others by done. rewrite <- HX, elem_of_cons. split.
  - intros Hq. split; [|by right]. intros ->. apply Hp. apply list_elem_of_fmap. by exists (p, k).
  - intros [Hne [[= -> ->]|?]]; done.
Qed.

Lemma no_hand_alloc total mm B p c o :
  blocks_ok total mm B → no_hand B → B !! p = Some (FreeBlock c) → 0 ≤ o ≤ c → no_hand (alloc_block B p c o).
Proof. intros Hb Hn Hp Ho q k. rewrite (alloc_block_others total mm) by done. intros [[_ ?]|Hq]; [done|by eapply Hn]. Qed.

Lemma no_hand_free B p o : no_hand B → 0 ≤ o → no_hand (free_block B p o).
Proof. intros Hn Ho q k. rewrite free_block_others by done. intros [_ Hq]. by eapply Hn. Qed.

(** ** One block *)

(** A free block of the zone that is large enough. *)
Definition fits (z o p : Z) (k : block) : bool :=
  match k with FreeBlock c => (zone_of p =? z) && (o <=? c) | _ => false end.

(** The zone has no free block of the order or above. *)
Definition exhausted (B : gmap Z block) (o z : Z) : Prop :=
  ∀ p c, B !! p = Some (FreeBlock c) → zone_of p = z → c < o.

Definition none_left (s : pmm) (o z : Z) : Prop := ∀ B, buddy_inv s B → exhausted B o z.

Lemma exhausted_none_left s B o z : buddy_inv s B → exhausted B o z → none_left s o z.
Proof.
  intros HB Hex B' HB' p c Hp Hz. destruct (free_order_bit s B' p c HB' Hp) as [Hbit Hc].
  apply (nonempty_order s B _ c HB) in Hbit as (q & _ & Hq & Hzq); [|apply zone_of_range|lia].
  apply (Hex q c Hq). congruence.
Qed.

Lemma heap_block s X p o : heap_inv s X → (p, o) ∈ X → block_ok (total_pages s) p o.
Proof. intros (B & (Hb & _) & _ & [_ HX] & _) Hp. apply HX in Hp. exact (bi_block _ _ _ Hb p _ Hp). Qed.

Lemma heap_alloc cpu s X o z :
  0 ≤ cpu < 32 → heap_inv s X → 0 ≤ o ≤ PMM_MAX_ORDER → 0 ≤ z < PMM_ZONE_COUNT →
  (alloc_pages_zone_unlocked cpu o z s = Ok (0, s) ∧ none_left s o z) ∨
  ∃ p s', alloc_pages_zone_unlocked cpu o z s = Ok (addr p, s') ∧ 0 < p ∧ zone_of p = z ∧
    heap_inv s' ((p, o) :: X) ∧ total_pages s' = total_pages s.
Proof.
  intros Hcpu (B & Hinv & Hn & HX & Hac & HU) Ho Hz.
  destruct (decide (map_Exists (λ p k, fits z o p k = true) B)) as [He|He].
  - destruct He as (q & k & Hq & Hk). destruct k as [k| |]; try done. simpl in Hk. bool_simpl.
    destruct (alloc_ok cpu s B o z q k) as (p & c & s' & Ha & Hp & Hzp & Hoc & _ & Hinv' & Ht & Hc); try done; [lia|].
    pose proof Hinv as (Hb & _). right. exists p, s'. split_and!; try done.
    + by destruct (bi_block _ _ _ Hb p _ Hp) as (_ & ? & _).
    + exists (alloc_block B p c o). split; [done|]. split; [by eapply no_hand_alloc; eauto; lia|].
      split; [eapply holds_alloc; eauto; lia|]. split; [eapply acct_alloc; eauto; eapply alloc_block_count; eauto; lia|].
      intros b Hcov. apply HU. eapply alloc_block_covered; eauto. lia.
  - assert (exhausted B o z) as Hno.
    { intros p c Hp Hzp. destruct (decide (c < o)); [done|]. destruct He. exists p, (FreeBlock c).
      split; [done|]. simpl. rewrite Hzp, Z.eqb_refl. simpl. apply Z.leb_le. lia. }
    left. split; [|by eapply exhausted_none_left]. apply (alloc_fails cpu s B); [done|lia|lia|auto].
Qed.

Lemma heap_free cpu s X p o :
  0 ≤ cpu < 32 → heap_inv s ((p, o) :: X) →
  ∃ s', free_pages_unlocked cpu (addr p) o s = Ok s' ∧ heap_inv s' X ∧ total_pages s' = total_pages s.
Proof.
  intros Hcpu (B & Hinv & Hn & HX & Hac & HU). pose proof HX as [_ HX']. assert (B !! p = Some (TakenBlock o)) as Hp by (apply HX'; by left).
  pose proof Hinv as (Hb & _). destruct (bi_block _ _ _ Hb p _ Hp) as ((Ho & _) & _). simpl in Ho.
  destruct (free_taken cpu s B p o Hinv Hn Hp) as (s' & Hf & Hinv' & Ht & Hc). exists s'. split_and!; try done.
  exists (free_block B p o). split; [done|]. split; [by apply no_hand_free|]. split; [by apply holds_free|].
  split; [eapply acct_free; eauto; apply free_block_count; [done|intros j; congruence]|].
  intros b Hcov. apply HU. by eapply free_block_covered.
Qed.

#[global] Instance heap_inv_proper s : Proper ((≡ₚ) ==> iff) (heap_inv s).
Proof. intros X Y HXY. unfold heap_inv. by setoid_rewrite HXY. Qed.

(** ** Batches *)

Lemma addr_ne p : 0 < p → (addr p =? 0) = false.
Proof. intros Hp. apply Z.eqb_neq. unfold addr, PAGE_SIZE. lia. Qed.

Lemma addr_page s p : 0 ≤ p < total_pages s → phys_to_page s (addr p) = Some p.
Proof. intros Hp. unfold phys_to_page, addr, PAGE_SIZE. rewrite Z.div_mul by lia. case_if; [lia|done]. Qed.

Lemma heap_page s X p o :
  heap_inv s X → (p, o) ∈ X →
  ∃ pg, mem_map s !! p = Some pg ∧ zone_for_flags (flags pg) = zone_of p ∧ used pg = true ∧
        Z.land (flags pg) PMM_FLAG_KERNEL = 0 ∧ 0 < p < total_pages s.
Proof.
  intros (B & Hinv & _ & [_ HX] & _) Hp%HX. destruct (block_page _ _ _ _ Hinv Hp) as [pg Hpg]. exists pg.
  destruct Hinv as (Hb & Hm & _). destruct (bi_block _ _ _ Hb p _ Hp) as (Ho & Hp0 & _).
  assert (p < total_pages s) by (apply (bi_map _ _ _ Hb); by exists pg).
  split_and!; [done| | | |lia|done]; [by apply (bi_zone _ _ _ Hb)|by apply (bi_taken _ _ Hm p o)|].
  apply (bi_kernel _ _ _ Hb p _ p pg Hp); [|done]. pose proof (pow2_pos o ltac:(simpl in Ho; lia)). simpl. lia.
Qed.

Lemma heap_alloc_up_to n cpu s X o z :
  0 ≤ cpu < 32 → heap_inv s X → 0 ≤ o ≤ PMM_MAX_ORDER → 0 ≤ z < PMM_ZONE_COUNT →
  ∃ ps s', alloc_up_to n cpu o z s = Ok (addr <$> ps, s') ∧ (length ps ≤ n)%nat ∧ Forall (λ p, 0 < p ∧ zone_of p = z) ps ∧
    heap_inv s' (tag o ps ++ X) ∧ total_pages s' = total_pages s ∧
    ((length ps < n)%nat → none_left s' o z) ∧ (ps = [] → s' = s).
Proof.
  intros Hcpu. revert s X. induction n as [|n IH]; intros s X Hinv Ho Hz; cbn [alloc_up_to].
  { exists [], s. simpl. split_and!; [done|lia|by apply Forall_nil|done|done|lia|done]. }
  destruct (heap_alloc cpu s X o z Hcpu Hinv Ho Hz) as [[-> HB]|(p & s1 & -> & Hp0 & Hzp & Hinv1 & Ht)]; simpl.
  { exists [], s. simpl. split_and!; [done|lia|by apply Forall_nil|done..]. }
  rewrite addr_ne by done. destruct (IH s1 ((p, o) :: X) Hinv1 Ho Hz) as (ps & s2 & -> & Hlen & Hall & Hinv2 & Ht2 & Hex & _). simpl.
  exists (p :: ps), s2. split_and!; [done|simpl; lia|by apply Forall_cons| |congruence| |done].
  - revert Hinv2. simpl. by rewrite <- Permutation_middle.
  - intros Hlt. apply Hex. simpl in Hlt. lia.
Qed.

Lemma heap_alloc_batch cpu s X o z cap :
  0 ≤ cpu < 32 → heap_inv s X → 0 ≤ o ≤ PMM_MAX_ORDER → 0 ≤ z < PMM_ZONE_COUNT →
  ∃ ps s', alloc_pages_batch cpu o z cap s = Ok (addr <$> ps, s') ∧ (length ps ≤ cap)%nat ∧ Forall (λ p, 0 < p) ps ∧
    heap_inv s' (tag o ps ++ X) ∧ total_pages s' = total_pages s ∧
    (ps = [] → cap ≠ 0%nat → none_left s' o z ∧ none_left s' o (1 - z)).
Proof.
  intros Hcpu Hinv Ho Hz. unfold alloc_pages_batch.
  destruct ((Z.of_nat cap =? 0) || (PMM_MAX_ORDER <? o)) eqn:E.
  { apply orb_true_iff in E as [E|E]; bool_simpl; [|lia]. exists [], s. split_and!; simpl; first [done | lia | by apply Forall_nil]. }
  rewrite (proj2 (Z.leb_gt PMM_ZONE_COUNT z)) by lia.
  replace (if z =? PMM_ZONE_NORMAL then PMM_ZONE_DMA else PMM_ZONE_NORMAL) with (1 - z).
  2: { unfold PMM_ZONE_NORMAL, PMM_ZONE_DMA, PMM_ZONE_COUNT in *. case_if; lia. }
  destruct (heap_alloc_up_to cap cpu s X o z Hcpu Hinv Ho Hz) as (ps & s1 & -> & Hlen & Hall & Hinv1 & Ht & Hex1 & _). simpl.
  rewrite length_fmap. destruct (length ps <? cap)%nat eqn:El.
  - apply Nat.ltb_lt in El.
    destruct (heap_alloc_up_to (cap - length ps) cpu s1 _ o (1 - z) Hcpu Hinv1 Ho) as (qs & s2 & -> & Hlen2 & Hall2 & Hinv2 & Ht2 & Hex & Hnil).
    { unfold PMM_ZONE_COUNT in *. lia. }
    simpl. exists (ps ++ qs), s2. rewrite fmap_app, length_app. split_and!; [done|lia| | |congruence|].
    + apply Forall_app. split; eapply Forall_impl; eauto; naive_solver.
    + unfold tag. rewrite fmap_app, (Permutation_app_comm (_ <$> ps)), <- app_assoc. exact Hinv2.
    + intros [-> ->]%app_nil _. simpl in *. split; [|apply Hex; lia]. rewrite Hnil by done. apply Hex1. lia.
  - apply Nat.ltb_ge in El. exists ps, s1. split_and!; [done|done| |done|done|intros ->; simpl in El; lia].
    eapply Forall_impl; [done|]. naive_solver.
Qed.

(** Sorting by zones is a permutation of the pages that are held. *)
Lemma sort_zones_ok s X o ps :
  heap_inv s X → (∀ p, p ∈ ps → (p, o) ∈ X) → (length ps ≤ 256)%nat →
  ∃ ds ns, sort_zones s (addr <$> ps) = Ok (addr <$> ds, addr <$> ns) ∧ ds ++ ns ≡ₚ ps.
Proof.
  intros Hinv. induction ps as [|p ps IH]; intros Hps Hlen; [by exists [], []|]. rewrite fmap_cons. cbn [sort_zones].
  destruct IH as (ds & ns & -> & Hperm); [intros q Hq; apply Hps; by right|simpl in Hlen; lia|]. simpl.
  destruct (heap_page s X p o Hinv) as (pg & Hpg & Hz & _ & _ & Hp); [apply Hps; by left|].
  rewrite addr_ne, addr_page, (page_at_ok _ _ _ Hpg) by lia. simpl. rewrite Hz, !length_fmap.
  assert (length ds + length ns = length ps)%nat as Hl by (rewrite <- length_app; by apply Permutation_length).
  simpl in Hlen. repeat case_if; try lia.
  - exists (p :: ds), ns. split; [done|]. simpl. by rewrite Hperm.
  - exists ds, (p :: ns). split; [done|]. by rewrite <- Permutation_middle, Hperm.
Qed.

Lemma heap_free_all cpu s X o ps :
  0 ≤ cpu < 32 → heap_inv s (tag o ps ++ X) →
  ∃ s', free_all cpu o (addr <$> ps) s = Ok s' ∧ heap_inv s' X ∧ total_pages s' = total_pages s.
Proof.
  intros Hcpu. revert s. induction ps as [|p ps IH]; intros s Hinv; [by exists s|]. rewrite fmap_cons. cbn [free_all].
  destruct (heap_free cpu s (tag o ps ++ X) p o Hcpu Hinv) as (s1 & -> & Hinv1 & Ht). simpl.
  destruct (IH s1 Hinv1) as (s2 & -> & Hinv2 & Ht2). exists s2. split_and!; [done|done|congruence].
Qed.

Lemma heap_free_batch cpu s X o ps :
  0 ≤ cpu < 32 → heap_inv s (tag o ps ++ X) → (length ps ≤ 256)%nat → 0 ≤ o ≤ PMM_MAX_ORDER →
  ∃ s', free_pages_batch cpu o (addr <$> ps) s = Ok s' ∧ heap_inv s' X ∧ total_pages s' = total_pages s.
Proof.
  intros Hcpu Hinv Hlen Ho. unfold free_pages_batch. rewrite length_fmap.
  destruct ((zlen ps =? 0) || (PMM_MAX_ORDER <? o)) eqn:E.
  { apply orb_true_iff in E as [E|E]; bool_simpl; [|lia]. destruct ps; [|done]. by exists s. }
  destruct (sort_zones_ok s (tag o ps ++ X) o ps Hinv) as (ds & ns & -> & Hperm); [|done|].
  { intros p Hp. apply elem_of_app. left. apply list_elem_of_fmap. by exists p. }
  simpl. assert (heap_inv s (tag o ds ++ tag o ns ++ X)) as Hinv0.
  { rewrite app_assoc. unfold tag in *. rewrite <- fmap_app. by rewrite Hperm. }
  destruct (heap_free_all cpu s _ o ds Hcpu Hinv0) as (s1 & -> & Hinv1 & Ht1). simpl.
  destruct (heap_free_all cpu s1 _ o ns Hcpu Hinv1) as (s2 & -> & Hinv2 & Ht2). exists s2. split_and!; [done|done|congruence].
Qed.

(** ** The caches *)

Definition keys : list (Z * Z * Z) :=
  c ← seqZ 0 32; z ← seqZ 0 2; o ← seqZ 0 4; [(c, z, o)].

Lemma NoDup_keys : NoDup keys.
Proof. apply (bool_decide_unpack _). vm_compute. exact I. Qed.

Lemma elem_of_keys c z o : (c, z, o) ∈ keys ↔ 0 ≤ c < 32 ∧ 0 ≤ z < PMM_ZONE_COUNT ∧ 0 ≤ o ≤ k_pcp_max_order.
Proof.
  unfold keys. rewrite list_elem_of_bind. setoid_rewrite list_elem_of_bind. setoid_rewrite list_elem_of_bind.
  setoid_rewrite elem_of_seqZ. setoid_rewrite list_elem_of_singleton. unfold PMM_ZONE_COUNT, k_pcp_max_order. split.
  - intros (c' & (z' & (o' & [= -> -> ->] & ?) & ?) & ?). lia.
  - intros (? & ? & ?). exists c. split; [|lia]. exists z. split; [|lia]. exists o. split; [done|lia].
Qed.

(** The blocks in the caches whose frame numbers are [C]. *)
Definition cached (C : Z * Z * Z → list Z) : list (Z * Z) := keys ≫= λ k, tag k.2 (C k).

Lemma cached_update C k l : k ∈ keys → cached (<[k := l]> C) ++ tag k.2 (C k) ≡ₚ tag k.2 l ++ cached C.
Proof.
  intros Hk. pose proof NoDup_keys as Hnd. apply elem_of_Permutation in Hk as [ks Hks]. unfold cached.
  rewrite Hks in Hnd. apply NoDup_cons in Hnd as [Hk _].
  rewrite Hks, !bind_cons, fn_lookup_insert.
  assert ((ks ≫= λ k', tag k'.2 (<[k := l]> C k')) = ks ≫= λ k', tag k'.2 (C k')) as ->.
  { clear Hks. induction ks as [|k' ks IH]; [done|]. simpl. rewrite fn_lookup_insert_ne by set_solver. f_equal. apply IH. set_solver. }
  rewrite <- app_assoc, (Permutation_app_comm _ (tag k.2 (C k))). done.
Qed.

(** The state of the memory manager when the blocks in [X] are held outside of it. *)
Definition state_inv (st : pmm_state) (X : list (Z * Z)) : Prop :=
  ∃ C, (∀ k, k ∈ keys → pcp st k = addr <$> C k ∧ (length (C k) ≤ pcp_capacity k.2)%nat) ∧
       heap_inv (buddy st) (X ++ cached C).

#[global] Instance state_inv_proper st : Proper ((≡ₚ) ==> iff) (state_inv st).
Proof. intros X Y HXY. unfold state_inv. by setoid_rewrite HXY. Qed.

(** One cache list becomes [l]. *)
Lemma state_change s' st C k l X Z0 :
  (∀ k, k ∈ keys → pcp st k = addr <$> C k ∧ (length (C k) ≤ pcp_capacity k.2)%nat) →
  k ∈ keys → (length l ≤ pcp_capacity k.2)%nat →
  heap_inv s' Z0 → Z0 ++ tag k.2 (C k) ≡ₚ X ++ tag k.2 l ++ cached C →
  state_inv (PmmState s' (<[k := addr <$> l]> (pcp st))) X.
Proof.
  intros HC Hk Hl Hinv Hp. exists (<[k := l]> C). split.
  - intros k' Hk'. simpl. destruct (decide (k' = k)) as [->|Hne]; [by rewrite !fn_lookup_insert|].
    rewrite !fn_lookup_insert_ne by done. auto.
  - simpl. assert (Z0 ≡ₚ X ++ cached (<[k := l]> C)) as <-; [|done].
    apply (Permutation_app_inv_r (tag k.2 (C k))). by rewrite Hp, <- app_assoc, cached_update.
Qed.

Lemma pcp_order o : 0 ≤ o ≤ k_pcp_max_order → 0 ≤ o ≤ PMM_MAX_ORDER.
Proof. unfold k_pcp_max_order, PMM_MAX_ORDER. lia. Qed.

Lemma pcp_sizes o : 0 ≤ o ≤ k_pcp_max_order →
  (0 < pcp_refill_batch o ≤ pcp_capacity o)%nat ∧ (0 < pcp_drain_batch o ≤ pcp_capacity o)%nat ∧ (pcp_capacity o ≤ 256)%nat.
Proof.
  unfold k_pcp_max_order. intros Ho. assert (o = 0 ∨ o = 1 ∨ o = 2 ∨ o = 3) as [->|[->|[->| ->]]] by lia; vm_compute; lia.
Qed.

#[local] Arguments alloc_pages_batch : simpl never.
#[local] Arguments free_pages_batch : simpl never.
#[local] Arguments pcp_capacity : simpl never.
#[local] Arguments pcp_drain_batch : simpl never.
#[local] Arguments pcp_refill_batch : simpl never.

(** What an allocation gives. *)
Definition alloc_result (st : pmm_state) (X : list (Z * Z)) (o : Z) (r : res (Z * pmm_state)) : Prop :=
  (∃ st', r = Ok (0, st') ∧ state_inv st' X ∧ total_pages (buddy st') = total_pages (buddy st) ∧
          ∀ z, 0 ≤ z < PMM_ZONE_COUNT → none_left (buddy st') o z) ∨
  ∃ p st', r = Ok (addr p, st') ∧ 0 < p ∧ state_inv st' ((p, o) :: X) ∧ total_pages (buddy st') = total_pages (buddy st).

Lemma pcp_alloc_ok cpu z o st X :
  state_inv st X → (cpu, z, o) ∈ keys → alloc_result st X o (pcp_alloc_from_cache cpu z o st).
Proof.
  intros (C & HC & Hinv) Hk. pose proof Hk as (Hcpu & Hz & Ho)%elem_of_keys.
  destruct (HC _ Hk) as [Hl Hcap]. unfold pcp_alloc_from_cache. rewrite Hl.
  destruct (C (cpu, z, o)) as [|p l] eqn:EC.
  - cbn [fmap list_fmap].
    destruct (heap_alloc_batch cpu (buddy st) _ o z (pcp_refill_batch o) Hcpu Hinv (pcp_order o Ho) Hz) as (ps & s' & -> & Hlen & Hall & Hinv' & Ht & Hex).
    destruct (pcp_sizes o Ho) as (Hrf & _). simpl. destruct ps as [|p ps]; simpl.
    + left. eexists. split; [done|]. simpl. split; [by exists C|]. split; [done|]. intros z' Hz'.
      destruct (Hex eq_refl ltac:(lia)) as [H1 H2].
      destruct (decide (z' = z)) as [->|Hne]; [done|]. replace z' with (1 - z); [done|]. unfold PMM_ZONE_COUNT in *. lia.
    + right. apply Forall_cons in Hall as [Hp _]. exists p. eexists. split; [done|]. split; [done|]. simpl in *. split; [|done].
      rewrite take_ge by (rewrite length_fmap; lia). rewrite <- fmap_reverse.
      eapply (state_change s' st C (cpu, z, o) (reverse ps)); [done|done|rewrite length_reverse; simpl; lia|done|].
      rewrite EC. simpl. rewrite app_nil_r. apply perm_skip. unfold tag. rewrite (reverse_Permutation ps), !app_assoc.
      by rewrite (Permutation_app_comm (_ <$> ps)).
  - right. exists p. eexists. split; [done|].
    assert ((p, o) ∈ X ++ cached C) as Hin.
    { apply elem_of_app. right. unfold cached. apply list_elem_of_bind. exists (cpu, z, o). split; [|done].
      rewrite EC. simpl. by left. }
    pose proof (heap_block _ _ _ _ Hinv Hin) as (_ & Hp & _). split; [done|]. split; [|done].
    eapply (state_change (buddy st) st C (cpu, z, o) l); [done|done|simpl in *; lia|done|].
    rewrite EC. simpl. unfold tag. simpl. rewrite <- Permutation_middle. apply perm_skip.
    rewrite <- app_assoc. apply Permutation_app_head, Permutation_app_comm.
Qed.

Lemma pcp_free_ok cpu z o p st X :
  state_inv st ((p, o) :: X) → (cpu, z, o) ∈ keys →
  ∃ st', pcp_free_to_cache cpu z o (addr p) st = Ok st' ∧ state_inv st' X ∧ total_pages (buddy st') = total_pages (buddy st).
Proof.
  intros (C & HC & Hinv) Hk. pose proof Hk as (Hcpu & Hz & Ho)%elem_of_keys. destruct (HC _ Hk) as [Hl Hcap].
  destruct (pcp_sizes o Ho) as (_ & Hdr & H256). unfold pcp_free_to_cache. rewrite Hl, length_fmap. simpl in Hcap.
  destruct (pcp_capacity o <=? length (C (cpu, z, o)))%nat eqn:Efull.
  - apply Nat.leb_le in Efull. set (l := C (cpu, z, o)) in *. set (d := (length l `min` pcp_drain_batch o)%nat).
    unfold pcp_cache_drain. rewrite length_fmap, (proj2 (Nat.ltb_ge _ _)) by done. fold d. rewrite <- fmap_take, <- fmap_drop.
    assert (∃ Y, cached C ≡ₚ tag o l ++ Y) as [Y HY].
    { pose proof Hk as [ks Hks]%elem_of_Permutation. exists (ks ≫= λ k, tag k.2 (C k)). unfold cached. by rewrite Hks, bind_cons. }
    destruct (heap_free_batch cpu (buddy st) ((p, o) :: X ++ tag o (drop d l) ++ Y) o (take d l) Hcpu) as (s' & -> & Hinv' & Ht).
    { revert Hinv. simpl. rewrite HY. unfold tag. rewrite <- (take_drop d l) at 1. rewrite fmap_app.
      intros Hinv. rewrite <- Permutation_middle. rewrite app_assoc, (Permutation_app_comm _ X), <- app_assoc.
      by rewrite <- app_assoc in Hinv. }
    { rewrite length_take. lia. }
    { by apply pcp_order. }
    simpl. rewrite length_fmap, length_drop, (proj2 (Nat.ltb_lt _ _)) by lia. eexists. split; [done|]. split; [|done].
    eapply (state_change s' st C (cpu, z, o) (p :: drop d l)); [done|done|simpl; rewrite length_drop; lia|exact Hinv'|].
    simpl. fold l. rewrite HY. unfold tag. rewrite <- Permutation_middle. simpl. apply perm_skip.
    rewrite <- !app_assoc. apply Permutation_app_head, Permutation_app_head, Permutation_app_comm.
  - apply Nat.leb_gt in Efull. cbn [mbind res_bind fst snd]. rewrite length_fmap, (proj2 (Nat.ltb_lt _ _)) by done.
    eexists. split; [done|]. split; [|done].
    eapply (state_change (buddy st) st C (cpu, z, o) (p :: C (cpu, z, o))); [done|done|simpl; lia|exact Hinv|].
    unfold tag. simpl. rewrite <- Permutation_middle. apply perm_skip. rewrite <- app_assoc.
    apply Permutation_app_head, Permutation_app_comm.
Qed.

Lemma drain_list_ok cpu z o st X :
  state_inv st X → (cpu, z, o) ∈ keys →
  ∃ st', drain_list cpu z o st = Ok st' ∧ state_inv st' X ∧ total_pages (buddy st') = total_pages (buddy st).
Proof.
  intros (C & HC & Hinv) Hk. pose proof Hk as (Hcpu & Hz & Ho)%elem_of_keys. destruct (HC _ Hk) as [Hl Hcap].
  destruct (pcp_sizes o Ho) as (_ & _ & H256). unfold drain_list. rewrite Hl, length_fmap. simpl in Hcap.
  case_if; [|exists st; split_and!; [done|by exists C|done]]. set (l := C (cpu, z, o)) in *. rewrite <- fmap_reverse.
  assert (∃ Y, cached C ≡ₚ tag o l ++ Y) as [Y HY].
  { pose proof Hk as [ks Hks]%elem_of_Permutation. exists (ks ≫= λ k, tag k.2 (C k)). unfold cached. by rewrite Hks, bind_cons. }
  destruct (heap_free_batch cpu (buddy st) (X ++ Y) o (reverse l) Hcpu) as (s' & -> & Hinv' & Ht).
  { revert Hinv. rewrite HY. unfold tag. rewrite (reverse_Permutation l). by rewrite !app_assoc, (Permutation_app_comm X). }
  { rewrite length_reverse. lia. }
  { by apply pcp_order. }
  simpl. eexists. split; [done|]. split; [|done].
  eapply (state_change s' st C (cpu, z, o) []); [done|done|simpl; lia|exact Hinv'|].
  simpl. fold l. rewrite HY, <- !app_assoc. apply Permutation_app_head, Permutation_app_comm.
Qed.

(** ** The interface *)

#[local] Arguments pcp_alloc_from_cache : simpl never.
#[local] Arguments pcp_free_to_cache : simpl never.

Lemma state_heap st X : state_inv st X → ∃ Y, heap_inv (buddy st) (X ++ Y).
Proof. intros (C & _ & Hinv). by exists (cached C). Qed.

Lemma state_buddy st s' X Y :
  state_inv st X → (∀ Z0, heap_inv (buddy st) (X ++ Z0) → heap_inv s' (Y ++ Z0)) → state_inv (PmmState s' (pcp st)) Y.
Proof. intros (C & HC & Hinv) H. exists C. split; [done|]. by apply H. Qed.

Lemma none_left_large s o z : PMM_MAX_ORDER < o → none_left s o z.
Proof.
  intros Ho B (Hb & _) p c Hp _. destruct (bi_block _ _ _ Hb p _ Hp) as ((_ & Hc) & _). simpl in Hc. lia.
Qed.

(** Large blocks come straight from the buddy allocator of the zone. *)
Lemma alloc_large cpu o z st X :
  0 ≤ cpu < 32 → state_inv st X → k_pcp_max_order < o → 0 ≤ z < PMM_ZONE_COUNT →
  (alloc_pages_zone cpu o z st = Ok (0, st) ∧ none_left (buddy st) o z) ∨
  ∃ p st', alloc_pages_zone cpu o z st = Ok (addr p, st') ∧ 0 < p ∧ zone_of p = z ∧ state_inv st' ((p, o) :: X) ∧
           total_pages (buddy st') = total_pages (buddy st).
Proof.
  intros Hcpu Hst Ho Hz. unfold alloc_pages_zone, lift. rewrite (proj2 (Z.leb_gt _ _)) by done. rewrite zone_at_ok by done. simpl.
  destruct (decide (PMM_MAX_ORDER < o)) as [Hbig|Hsmall].
  { left. unfold alloc_pages_zone_unlocked. rewrite (proj2 (Z.ltb_lt _ _)) by done. simpl.
    split; [by destruct st|by apply none_left_large]. }
  destruct (state_heap _ _ Hst) as [Y Hinv]. unfold k_pcp_max_order in *.
  destruct (heap_alloc cpu (buddy st) _ o z Hcpu Hinv ltac:(lia) Hz) as [[-> Hn]|(p & s' & Ha & Hp & Hzp & _ & Ht)].
  { left. split; [by destruct st|done]. }
  right. rewrite Ha. simpl. exists p. eexists. split; [done|]. split_and!; [done|done| |done].
  eapply state_buddy; [done|]. intros Z0 HZ.
  destruct (heap_alloc cpu (buddy st) _ o z Hcpu HZ ltac:(lia) Hz) as [[E _]|(p2 & s2 & E & _ & _ & Hinv2 & _)];
    rewrite E in Ha; injection Ha as Hap <-.
  { pose proof (addr_ne p Hp) as Hne. rewrite <- Hap in Hne. done. }
  replace p with p2; [done|]. unfold addr, PAGE_SIZE in *. lia.
Qed.

Lemma alloc_zone_ok cpu o z st X :
  state_inv st X → 0 ≤ cpu < 32 → 0 ≤ o → 0 ≤ z < PMM_ZONE_COUNT →
  (∃ st', alloc_pages_zone cpu o z st = Ok (0, st') ∧ state_inv st' X ∧ total_pages (buddy st') = total_pages (buddy st) ∧
          none_left (buddy st') o z) ∨
  ∃ p st', alloc_pages_zone cpu o z st = Ok (addr p, st') ∧ 0 < p ∧ state_inv st' ((p, o) :: X) ∧
           total_pages (buddy st') = total_pages (buddy st).
Proof.
  intros Hst Hcpu Ho Hz. destruct (decide (o ≤ k_pcp_max_order)) as [Hle|Hgt].
  - unfold alloc_pages_zone. rewrite (proj2 (Z.leb_le _ _)), (proj2 (Z.leb_gt _ _)) by lia.
    assert ((cpu, z, o) ∈ keys) as Hk by (apply elem_of_keys; lia).
    destruct (pcp_alloc_ok cpu z o st X Hst Hk) as [(st' & ? & ? & ? & Hn)|?]; [left|by right]. exists st'. split_and!; auto.
  - destruct (alloc_large cpu o z st X Hcpu Hst ltac:(lia) Hz) as [[? ?]|(p & st' & ? & ? & _ & ? & ?)]; [left; by exists st|right; by exists p, st'].
Qed.

Lemma alloc_pages_ok cpu o st X :
  state_inv st X → 0 ≤ cpu < 32 → 0 ≤ o → alloc_result st X o (alloc_pages cpu o st).
Proof.
  intros Hst Hcpu Ho. unfold alloc_pages.
  destruct (decide (o ≤ k_pcp_max_order)) as [Hle|Hgt].
  - rewrite (proj2 (Z.leb_le _ _)) by lia.
    assert (∀ z, 0 ≤ z < PMM_ZONE_COUNT → (cpu, z, o) ∈ keys) as Hk by (intros z Hz; apply elem_of_keys; lia).
    destruct (pcp_alloc_ok cpu PMM_ZONE_NORMAL o st X Hst (Hk PMM_ZONE_NORMAL ltac:(done))) as [(st1 & -> & Hst1 & Ht1 & _)|(p & st1 & -> & Hp & Hst1 & Ht1)]; simpl.
    + destruct (pcp_alloc_ok cpu PMM_ZONE_DMA o st1 X Hst1 (Hk PMM_ZONE_DMA ltac:(done))) as [(st2 & ? & ? & ? & ?)|(p & st2 & ? & ? & ? & ?)].
      * left. exists st2. split_and!; [done|done|congruence|done].
      * right. exists p, st2. split_and!; [done|done|done|congruence].
    + rewrite addr_ne by done. right. by exists p, st1.
  - rewrite (proj2 (Z.leb_gt _ _)) by lia.
    destruct (alloc_large cpu o PMM_ZONE_NORMAL st X Hcpu Hst ltac:(lia) ltac:(done)) as [[-> Hn]|(p & st1 & -> & Hp & _ & Hst1 & Ht1)]; simpl.
    + destruct (alloc_large cpu o PMM_ZONE_DMA st X Hcpu Hst ltac:(lia) ltac:(done)) as [[-> Hd]|(p & st2 & -> & Hp & _ & Hst2 & Ht2)].
      * left. exists st. split_and!; [done..|]. intros z Hz.
        assert (z = PMM_ZONE_NORMAL ∨ z = PMM_ZONE_DMA) as [->| ->]; [|done..].
        unfold PMM_ZONE_NORMAL, PMM_ZONE_DMA, PMM_ZONE_COUNT in *. lia.
      * right. by exists p, st2.
    + rewrite addr_ne by done. right. by exists p, st1.
Qed.

Lemma free_pages_ok cpu p o st X :
  state_inv st ((p, o) :: X) → 0 ≤ cpu < 32 →
  ∃ st', free_pages cpu (addr p) o st = Ok st' ∧ state_inv st' X ∧ total_pages (buddy st') = total_pages (buddy st).
Proof.
  intros Hst Hcpu. destruct (state_heap _ _ Hst) as [Y Hinv].
  destruct (heap_block _ _ p o Hinv) as ([Ho Ho11] & Hp & Hend & _); [by left|].
  destruct (heap_page _ _ p o Hinv) as (pg & Hpg & Hz & Hu & Hk & Hpt); [by left|].
  unfold free_pages. rewrite addr_ne, (proj2 (Z.ltb_ge _ _)) by done. simpl. rewrite addr_page by lia.
  rewrite (page_at_ok _ _ _ Hpg). simpl. rewrite Hz, Hk. unfold used in Hu. bool_simpl.
  rewrite (proj2 (Z.eqb_neq _ _) Hu). simpl. pose proof (zone_of_range p) as Hzr. case_if.
  - apply pcp_free_ok; [done|]. apply elem_of_keys. lia.
  - rewrite zone_at_ok by done. simpl. destruct (heap_free cpu (buddy st) _ p o Hcpu Hinv) as (s' & Hf & _ & Ht). rewrite Hf. simpl.
    eexists. split; [done|]. split; [|done]. eapply state_buddy; [done|]. intros Z0 HZ.
    destruct (heap_free cpu (buddy st) _ p o Hcpu HZ) as (s2 & Hf2 & Hinv2 & _).
    by assert (s2 = s') as <- by congruence.
Qed.

Lemma drain_ok cpu st X :
  state_inv st X → 0 ≤ cpu < 32 →
  ∃ st', pmm_drain_local_pcp_caches cpu st = Ok st' ∧ state_inv st' X ∧ total_pages (buddy st') = total_pages (buddy st).
Proof.
  intros Hst Hcpu. unfold pmm_drain_local_pcp_caches.
  assert (Forall (λ k, (cpu, k.1, k.2) ∈ keys) [(0, 0); (0, 1); (0, 2); (0, 3); (1, 0); (1, 1); (1, 2); (1, 3)]) as Hall.
  { rewrite !Forall_cons. split_and!; try (apply elem_of_keys; simpl; unfold PMM_ZONE_COUNT, k_pcp_max_order; lia). by apply Forall_nil. }
  revert st Hst. induction Hall as [|[z o] ks Hk Hall IH]; intros st Hst; simpl; [by exists st|].
  destruct (drain_list_ok cpu z o st X Hst Hk) as (st1 & -> & Hst1 & Ht1). simpl.
  destruct (IH st1 Hst1) as (st2 & -> & Hst2 & Ht2). exists st2. split_and!; [done|done|congruence].
Qed.
End Held.
