(* ===== verification/PmmInit.v ===== *)
(** * Setting up the physical memory manager

    What [init_regions] leaves: the invariant of the buddy allocator holds and
    the free pages are exactly those of the available regions that are above
    the page descriptors and not reserved.  The blocks are not aligned to their
    size, a region that ends at 4 GiB is lost, and a reserved region that ends
    in the last page is ignored. *)

From stdpp Require Import functions.
From S2P Require Import Prelude Pmm PmmBuddy PmmMap PmmCache.

(** ** Page alignment *)

Lemma align_down_spec a : is_u32 a → align_down a = a / 4096 * 4096.
Proof.
  intros Ha. unfold align_down, u32, PAGE_SIZE. change 4294967296 with (2 ^ 32). change (4096 - 1) with (2 ^ 12 - 1).
  rewrite land_high by (unfold is_u32 in Ha; lia). done.
Qed.

Lemma align_up_spec a : 0 ≤ a → a ≤ 4294963200 → align_up a = (a + 4095) / 4096 * 4096.
Proof.
  intros Ha Hb. unfold align_up, u32 at 1, PAGE_SIZE. change 4294967296 with (2 ^ 32). rewrite Z.mod_small by lia.
  unfold u32. change (4096 - 1) with (2 ^ 12 - 1). change 4294967296 with (2 ^ 32).
  rewrite land_high by lia. done.
Qed.

(** Rounding up an address in the last page wraps around. *)
Lemma align_up_wraps a : 4294963200 < a < 4294967296 → align_up a = 0.
Proof.
  intros Ha. unfold align_up, u32 at 1, PAGE_SIZE.
  replace (a + (4096 - 1)) with (a + 4095 - 4294967296 + 1 * 4294967296) by lia. rewrite Z.mod_add, Z.mod_small by lia.
  unfold u32. change (4096 - 1) with (2 ^ 12 - 1). change 4294967296 with (2 ^ 32).
  rewrite land_high by lia. rewrite Z.div_small; lia.
Qed.

(** ** Gathering single pages into a block *)

(** The pages of the block leave the map as single pages and come back as one block in hand. *)
Definition gather (B : gmap Z block) (p o : Z) : gmap Z block :=
  <[p := HandBlock o]> (filter (λ x : Z * block, ¬ p ≤ x.1 < p + 2 ^ o) B).

Lemma gather_lookup B p o q k :
  gather B p o !! q = Some k ↔ (q = p ∧ k = HandBlock o) ∨ (q ≠ p ∧ ¬ p ≤ q < p + 2 ^ o ∧ B !! q = Some k).
Proof.
  unfold gather. rewrite lookup_insert_Some, map_lookup_filter_Some. simpl. naive_solver.
Qed.

Lemma gather_ok s B p o :
  buddy_inv s B → block_ok (total_pages s) p o → (∀ b, p ≤ b < p + 2 ^ o → B !! b = Some (TakenBlock 0)) →
  buddy_inv s (gather B p o).
Proof.
  intros ([Ht Hm Hb Ha Hz Hk] & [Hf Htk Hst] & Hl) Hok Hin. pose proof Hok as (Ho & Hp0 & Hend & _).
  pose proof (pow2_pos o ltac:(lia)) as Hpos.
  assert (∀ q k, ¬ p ≤ q < p + 2 ^ o → B !! q = Some k → apart p o q (block_order k)) as Hap.
  { intros q k Hnq Hq. unfold apart. destruct (decide (q < p)) as [Hlt|Hge]; [right|left; lia].
    pose proof (Ha q k p _ Hq (Hin p ltac:(lia)) ltac:(lia)) as H. unfold apart in H. simpl in H.
    destruct (Hb q k Hq) as ((? & _) & _). pose proof (pow2_pos (block_order k)). lia. }
  split; [split|split; [split|]]; try done; [..|eapply lists_ok_ext; [done| |done]].
  - intros q k [[-> ->]|(_ & _ & Hq)]%gather_lookup; [done|eauto].
  - intros q k q' k' [[-> ->]|(_ & Hq & Hqk)]%gather_lookup [[-> ->]|(_ & Hq' & Hqk')]%gather_lookup Hne; [done| | |eauto].
    + by apply Hap.
    + pose proof (Hap q k Hq Hqk) as H. unfold apart in *. simpl. lia.
  - intros q k b pg [[-> ->]|(_ & _ & Hq)]%gather_lookup Hr Hpg; [|eauto]. simpl in Hr.
    apply (Hk b _ b pg (Hin b Hr)); [simpl; lia|done].
  - intros q j pg [[_ ?]|(_ & _ & Hq)]%gather_lookup; [done|eauto].
  - intros q j pg [[_ ?]|(_ & _ & Hq)]%gather_lookup; [done|eauto].
  - intros b pg Hbp Hu. assert (¬ p ≤ b < p + 2 ^ o) as Hnb.
    { intros Hr. rewrite (Htk b 0 pg (Hin b Hr) Hbp) in Hu. done. }
    destruct (Hst b pg Hbp Hu) as [(j & Hj)|[Hor (P & k & HP & Hr & Hpar)]].
    + left. exists j. rewrite !gather_lookup. naive_solver lia.
    + right. split; [done|]. exists P, k. rewrite gather_lookup. split; [|done]. right.
      assert (¬ p ≤ P < p + 2 ^ o) as HnP.
      { intros HPr. assert (k = TakenBlock 0) as -> by (pose proof (Hin P HPr); congruence). simpl in Hr. lia. }
      split_and!; [lia|done|done].
  - intros q j. rewrite gather_lookup. split; [by intros [[_ ?]|(_ & _ & ?)]|]. intros Hq. right.
    assert (¬ p ≤ q < p + 2 ^ o) by (intros Hr; rewrite (Hin q Hr) in Hq; done). split_and!; [lia|done|done].
Qed.

(** Single pages that are never freed can be forgotten. *)
Lemma forget_pages s B :
  buddy_inv s B → (∀ p k, B !! p = Some k → is_free k = true ∨ k = TakenBlock 0) →
  buddy_inv s (filter (λ x : Z * block, is_free x.2 = true) B).
Proof.
  intros ([Ht Hm Hb Ha Hz Hk] & [Hf Htk Hst] & Hl) HB.
  assert (∀ q k, filter (λ x : Z * block, is_free x.2 = true) B !! q = Some k ↔ B !! q = Some k ∧ is_free k = true) as HL.
  { intros q k. apply map_lookup_filter_Some. }
  split; [split|split; [split|]]; try done; [..|eapply lists_ok_ext; [done| |done]].
  - intros q k [Hq _]%HL. eauto.
  - intros q k q' k' [Hq _]%HL [Hq' _]%HL. eauto.
  - intros q k b pg [Hq _]%HL. eauto.
  - intros q j pg [Hq _]%HL. eauto.
  - intros q j pg [Hq _]%HL. eauto.
  - intros b pg Hbp Hu. destruct (Hst b pg Hbp Hu) as [(j & Hj)|[Hor (P & k & HP & Hr & Hpar)]].
    + left. exists j. destruct Hj as [Hj|Hj]; [left; by apply HL|]. destruct (HB b _ Hj); done.
    + right. split; [done|]. exists P, k. rewrite HL. split; [|done]. split; [done|].
      destruct (HB P k HP) as [?| ->]; [done|]. simpl in Hr. lia.
  - intros q j. rewrite HL. naive_solver.
Qed.

(** ** Reserved ranges *)

Lemma reserved_sub s e s' e' rs : s ≤ s' → e' ≤ e → range_is_reserved s' e' rs = true → range_is_reserved s e rs = true.
Proof.
  intros Hs He. unfold range_is_reserved. rewrite !existsb_exists. intros (r & Hr & H). exists r. split; [done|].
  repeat case_match; bool_simpl; try done; lia.
Qed.

(** ** The initial state *)

(** Every page from frame [m] on as a block of its own. *)
Definition singles (m total : Z) : gmap Z block := list_to_map ((λ i, (i, TakenBlock 0)) <$> seqZ m (total - m)).

Lemma lookup_indexed {A} (f : Z → A) m n i x :
  list_to_map (M := gmap Z A) ((λ j, (j, f j)) <$> seqZ m n) !! i = Some x ↔ m ≤ i < m + n ∧ x = f i.
Proof.
  rewrite <- elem_of_list_to_map.
  - rewrite list_elem_of_fmap. setoid_rewrite elem_of_seqZ. naive_solver.
  - rewrite <- list_fmap_compose. simpl. rewrite list_fmap_id. apply NoDup_seqZ.
Qed.

Lemma singles_lookup m total i k : singles m total !! i = Some k ↔ m ≤ i < total ∧ k = TakenBlock 0.
Proof. unfold singles. rewrite (lookup_indexed (λ _, TakenBlock 0)). naive_solver lia. Qed.

Lemma init_page_flags ke i :
  0 ≤ i < 1048576 → zone_for_flags (flags (init_page ke i)) = zone_of i ∧ used (init_page ke i) = true ∧
  (ke ≤ i * 4096 → Z.land (flags (init_page ke i)) PMM_FLAG_KERNEL = 0).
Proof.
  intros Hi. unfold init_page, used, zone_for_flags, zone_of, zone_flags_for_addr, k_dma_limit, PAGE_SIZE. rewrite u32_small by lia.
  simpl. repeat case_if; split_and!; intros; first [done | lia].
Qed.

Lemma init_used total ke s0 : cpu_used_pages s0 = (λ _, 0) → get_used_blocks (init_used_pages total ke s0) = u32 total.
Proof.
  intros H0. unfold get_used_blocks, init_used_pages. cbn [cpu_used_pages]. rewrite H0, used_sum_0 by done.
  change 0 with (Z.of_nat 0) at 1. rewrite usum_insert by apply NoDup_seq.
  rewrite decide_True by (apply elem_of_seq; unfold MAX_CPUS; lia). rewrite usum_zero. f_equal. lia.
Qed.

Lemma init_state_ok m total :
  0 < m → 0 ≤ total ≤ 1048576 → m * 4096 ≤ 4294963200 →
  buddy_inv (init_used_pages total (m * 4096) (empty_pmm total)) (singles m total).
Proof.
  intros Hm Ht Hmt. assert (align_up (m * 4096) = m * 4096) as Hal.
  { rewrite align_up_spec by lia. f_equal. replace (m * 4096 + 4095) with (4095 + m * 4096) by lia. by rewrite Z.div_add. }
  unfold init_used_pages. rewrite Hal. set (ke := m * 4096).
  assert (∀ i pg, list_to_map (M := gmap Z page) ((λ i, (i, init_page ke i)) <$> seqZ 0 total) !! i = Some pg ↔
    0 ≤ i < total ∧ pg = init_page ke i) as HL by (intros i pg; rewrite lookup_indexed; naive_solver lia).
  set (mm := list_to_map _) in *. split; [split|split; [split|split]]; simpl.
  - done.
  - intros i. split; [intros [pg Hi%HL]; naive_solver|]. intros Hi. exists (init_page ke i). by apply HL.
  - intros p k [Hp ->]%singles_lookup. unfold block_ok, PMM_MAX_ORDER. simpl.
    change (2 ^ 0) with 1. replace (p + 1 - 1) with p by lia. split_and!; first [done | lia].
  - intros p k q j [Hp ->]%singles_lookup [Hq ->]%singles_lookup Hne. unfold apart. simpl. lia.
  - intros i pg [Hi ->]%HL. apply init_page_flags. lia.
  - intros p k b pg [Hp ->]%singles_lookup Hr [Hb ->]%HL. simpl in Hr. apply init_page_flags; unfold ke; lia.
  - intros p o pg [_ ?]%singles_lookup. done.
  - intros p o pg [Hp [= ->]]%singles_lookup [Hi ->]%HL. by apply init_page_flags; lia.
  - intros b pg [Hi ->]%HL Hu. destruct (init_page_flags ke b ltac:(lia)) as (_ & E & _). congruence.
  - intros z o Hz Ho. exists []. split_and!; [apply NoDup_nil_2| |done|done].
    intros p. split; [by intros ?%not_elem_of_nil|]. intros [[_ ?]%singles_lookup _]. done.
  - intros z o Hz Ho. rewrite Z.bits_0. naive_solver.
Qed.

Lemma init_state_acct m total ke :
  acct (init_used_pages total ke (empty_pmm total)) (singles m total).
Proof.
  unfold acct. assert (free_count (singles m total) = 0) as ->; [|by rewrite Z.sub_0_r, init_used].
  assert (∀ B, (∀ p k, B !! p = Some k → free_size k = 0) → free_count B = 0) as H0.
  { intros B. induction B as [|p k B Hp IH] using map_ind; intros HB; [done|]. rewrite free_count_insert by done.
    rewrite (HB p k) by apply lookup_insert_eq. rewrite IH; [done|]. intros q j Hq. apply (HB q). by rewrite lookup_insert_ne by congruence. }
  apply H0. intros p k [_ ->]%singles_lookup. done.
Qed.

(** ** The block at the cursor *)

Lemma block_bytes o : 0 ≤ o ≤ PMM_MAX_ORDER → u32 (Z.shiftl PAGE_SIZE o) = 4096 * 2 ^ o ∧ 0 < 2 ^ o ≤ 2048.
Proof.
  intros Ho. rewrite Z.shiftl_mul_pow2 by lia. unfold PAGE_SIZE. pose proof (pow2_pos o ltac:(lia)).
  assert (2 ^ o ≤ 2 ^ PMM_MAX_ORDER) by (apply pow2_le; lia). change (2 ^ PMM_MAX_ORDER) with 2048 in *.
  split; [apply u32_small; lia|lia].
Qed.

(** The test against the limit keeps blocks inside one zone. *)
Lemma same_zone c n :
  0 < n →
  (if negb (Z.land (zone_flags_for_addr (c * 4096)) PMM_FLAG_DMA =? 0) then k_dma_limit <? (c + n) * 4096
   else (c * 4096 <? k_dma_limit) && (k_dma_limit <? (c + n) * 4096)) = false →
  zone_of (c + n - 1) = zone_of c.
Proof.
  intros Hn. change k_dma_limit with (4096 * 4096). unfold zone_flags_for_addr, zone_of. change k_dma_limit with (4096 * 4096).
  destruct (Z.ltb_spec (c * 4096) (4096 * 4096)).
  - change (negb (Z.land PMM_FLAG_DMA PMM_FLAG_DMA =? 0)) with true. intros H1. cbv iota in H1. bool_simpl.
    rewrite !(proj2 (Z.ltb_lt _ _)) by lia. done.
  - intros _. rewrite !(proj2 (Z.ltb_ge _ _)) by lia. done.
Qed.

(** The chosen block lies below the end, in one zone, and holds no reserved page, unless it is a single page. *)
Lemma pick_order_ok n c m rs :
  0 < c < m → m ≤ 1048575 → Z.of_nat n ≤ PMM_MAX_ORDER →
  let o := pick_order n (c * 4096) (m * 4096) 0 rs in
  0 ≤ o ≤ Z.of_nat n ∧ c + 2 ^ o ≤ m ∧ zone_of (c + 2 ^ o - 1) = zone_of c ∧
  (o = 0 ∨ range_is_reserved (c * 4096) ((c + 2 ^ o) * 4096) rs = false).
Proof.
  intros Hc Hm. induction n as [|n IH]; intros Hn.
  { simpl. change (2 ^ 0) with 1. replace (c + 1 - 1) with c by lia. split_and!; first [done | lia | by left]. }
  specialize (IH ltac:(lia)). cbn [pick_order]. set (k := Z.of_nat (S n)) in *.
  destruct (block_bytes k ltac:(lia)) as [-> Hk]. remember (u32 (c * 4096 + 4096 * 2 ^ k)) as be eqn:Ebe.
  remember (pick_order n (c * 4096) (m * 4096) 0 rs) as next eqn:Enext. clear Enext.
  assert (0 ≤ next ≤ k ∧ c + 2 ^ next ≤ m ∧ zone_of (c + 2 ^ next - 1) = zone_of c ∧
    (next = 0 ∨ range_is_reserved (c * 4096) ((c + 2 ^ next) * 4096) rs = false)) as Hnext.
  { destruct IH as (H1 & H2 & H3 & H4). split_and!; first [done | lia]. }
  destruct ((be <? c * 4096) || (m * 4096 <? be)) eqn:E1; [exact Hnext|]. bool_simpl.
  assert (be = (c + 2 ^ k) * 4096) as Hbe.
  { destruct (decide (c * 4096 + 4096 * 2 ^ k < 4294967296)) as [Hlt|Hge]; [rewrite Ebe, u32_small; lia|].
    exfalso. assert (be = c * 4096 + 4096 * 2 ^ k - 4294967296); [|lia]. rewrite Ebe. unfold u32.
    replace (c * 4096 + 4096 * 2 ^ k) with (c * 4096 + 4096 * 2 ^ k - 4294967296 + 1 * 4294967296) at 1 by lia.
    by rewrite Z.mod_add, Z.mod_small by lia. }
  match goal with |- context [if ?x then next else _] => destruct x eqn:E2; [exact Hnext|] end.
  destruct (range_is_reserved (c * 4096) be rs) eqn:E3; [exact Hnext|]. rewrite Hbe in *.
  split_and!; [lia..| |by right]. apply same_zone; [lia|exact E2].
Qed.

#[local] Arguments pick_order : simpl never.
#[local] Arguments free_pages_unlocked : simpl never.

(** ** Freeing a range *)

(** While memory is set up: the pages in [F] are free, the others from frame [m] on are single blocks. *)
Definition boot_inv (m : Z) (s : pmm) (F : Z → Prop) : Prop :=
  ∃ B, buddy_inv s B ∧ acct s B ∧ (∀ p k, B !! p = Some k → is_free k = true ∨ k = TakenBlock 0) ∧
       (∀ b, m ≤ b < total_pages s → ¬ F b → B !! b = Some (TakenBlock 0)) ∧ (∀ b, free_page B b ↔ F b).

Lemma boot_inv_ext m s F F' : (∀ b, F b ↔ F' b) → boot_inv m s F → boot_inv m s F'.
Proof.
  intros HF (B & H1 & H2 & H3 & H4 & H5). exists B. split_and!; try done.
  - intros b Hb Hn. apply H4; [done|]. by rewrite HF.
  - intros b. by rewrite <- HF.
Qed.

Lemma free_count_ext t mm B B' :
  blocks_ok t mm B → blocks_ok t mm B' → (∀ b, free_page B b ↔ free_page B' b) → free_count B = free_count B'.
Proof.
  intros HB HB' Hf. assert (all_free B = all_free B') as E by (apply set_eq; intros b; by rewrite !all_free_spec).
  rewrite <- !all_free_size, E; [done| | | |].
  all: first [intros p k Hp; first [by destruct (bi_block _ _ _ HB p k Hp) as ((? & _) & _)|by destruct (bi_block _ _ _ HB' p k Hp) as ((? & _) & _)]
             | by apply (bi_apart _ _ _ HB) | by apply (bi_apart _ _ _ HB')].
Qed.

(** One block of single pages becomes free. *)
Lemma boot_free cpu m s F c o :
  0 ≤ cpu < 32 → boot_inv m s F → 0 < m ≤ c → block_ok (total_pages s) c o → (∀ b, c ≤ b < c + 2 ^ o → ¬ F b) →
  ∃ s', free_pages_unlocked cpu (c * 4096) o s = Ok s' ∧ total_pages s' = total_pages s ∧
        boot_inv m s' (λ b, F b ∨ c ≤ b < c + 2 ^ o).
Proof.
  intros Hcpu (B & Hinv & Hac & Hkinds & Hsing & Hfree) Hm Hok Hnew. pose proof Hok as (Ho & Hc0 & Hend & _).
  pose proof (pow2_pos o ltac:(lia)) as Hpos.
  assert (∀ b, c ≤ b < c + 2 ^ o → B !! b = Some (TakenBlock 0)) as Hin by (intros b Hb; apply Hsing; [lia|auto]).
  pose proof (gather_ok s B c o Hinv Hok Hin) as Hg.
  assert (∀ q k, is_free k = true → gather B c o !! q = Some k ↔ B !! q = Some k) as Hgf.
  { intros q k Hk. rewrite gather_lookup. split; [by intros [[_ ->]|(_ & _ & ?)]|]. intros Hq. right.
    assert (¬ c ≤ q < c + 2 ^ o) by (intros Hr; rewrite (Hin q Hr) in Hq; injection Hq as <-; done). split_and!; [lia|done|done]. }
  assert (∀ b, free_page (gather B c o) b ↔ free_page B b) as Hgp.
  { intros b. unfold free_page. split; intros (q & k & Hq & Hr); exists q, k; (split; [|done]); by apply Hgf. }
  destruct (proj2 (bi_map _ _ _ (proj1 Hinv) c)) as [pg Hpg]; [lia|].
  destruct (free_hand cpu s (filter (λ x : Z * block, ¬ c ≤ x.1 < c + 2 ^ o) B) c o pg Hg) as (s' & Hf & Hinv' & Ht & Hc).
  { apply map_lookup_filter_None. right. intros k Hk. simpl. lia. }
  { intros q j [Hq _]%map_lookup_filter_Some. destruct (Hkinds q _ Hq); done. }
  { done. }
  { apply (bi_taken _ _ (proj1 (proj2 Hinv)) c 0 pg); [apply Hin; lia|done]. }
  fold (gather B c o) in Hinv'. exists s'. split_and!; [done|done|]. exists (free_block (gather B c o) c o).
  assert (∀ j, gather B c o !! c ≠ Some (FreeBlock j)) as Hgc by (intros j; unfold gather; rewrite lookup_insert_eq; done).
  refine (conj Hinv' (conj _ (conj _ (conj _ _)))).
  - eapply acct_free; eauto. rewrite free_block_count by (done || lia). f_equal.
    by eapply free_count_ext; [apply Hg|apply Hinv|].
  - intros q k Hq. destruct (is_free k) eqn:Ek; [by left|right]. apply free_block_others in Hq as [Hne Hq]; [|lia|done].
    apply gather_lookup in Hq as [[-> _]|(_ & _ & Hq)]; [done|]. destruct (Hkinds q k Hq); congruence.
  - intros b Hb Hn. rewrite Ht in Hb. apply free_block_others; [lia|done|]. split; [naive_solver lia|].
    apply gather_lookup. right. split_and!; [naive_solver lia|naive_solver|apply Hsing; [lia|naive_solver]].
  - intros b. rewrite free_block_pages by (done || lia). by rewrite Hgp, Hfree.
Qed.

(** A page the memory map lets the allocator have. *)
Definition unreserved (rs : list reserved_region) (b : Z) : Prop := range_is_reserved (b * 4096) ((b + 1) * 4096) rs = false.

Lemma free_range_loop_ok fuel cpu m s F c e rs :
  0 ≤ cpu < 32 → boot_inv m s F → 0 < m ≤ c → e ≤ total_pages s → total_pages s ≤ 1048575 →
  (∀ b, c ≤ b < e → ¬ F b) → e - c ≤ Z.of_nat fuel →
  ∃ s', free_range_loop fuel cpu (c * 4096) (e * 4096) 0 rs s = Ok s' ∧ total_pages s' = total_pages s ∧
        boot_inv m s' (λ b, F b ∨ (c ≤ b < e ∧ unreserved rs b)).
Proof.
  intros Hcpu. revert s F c. induction fuel as [|fuel IH]; intros s F c Hb Hm He Ht Hnew Hfuel; cbn [free_range_loop].
  { case_if; [lia|]. exists s. split_and!; [done..|]. eapply boot_inv_ext; [|done]. intros b. split; [auto|intros [?|[? _]]; [done|lia]]. }
  destruct (Z.ltb_spec (c * 4096) (e * 4096)) as [Hlt|Hge].
  2: { exists s. split_and!; [done..|]. eapply boot_inv_ext; [|done]. intros b. split; [auto|intros [?|[? _]]; [done|lia]]. }
  simpl. destruct (pick_order_ok 11 c e rs ltac:(lia) ltac:(lia) ltac:(done)) as (Ho & Hoe & Hzone & Hres).
  set (o := pick_order 11 (c * 4096) (e * 4096) 0 rs) in *.
  destruct (block_bytes o Ho) as [-> Hbs]. rewrite u32_small by lia.
  replace (c * 4096 + 4096 * 2 ^ o) with ((c + 2 ^ o) * 4096) by lia.
  rewrite (proj2 (Z.leb_gt _ _)), (proj2 (Z.ltb_ge _ _)) by lia. simpl.
  destruct (range_is_reserved (c * 4096) ((c + 2 ^ o) * 4096) rs) eqn:Er.
  - assert (o = 0) as E0 by (destruct Hres; [done|congruence]). rewrite E0 in *. clear E0. change (2 ^ 0) with 1 in *.
    unfold PAGE_SIZE. rewrite u32_small by lia. replace (c * 4096 + 4096) with ((c + 1) * 4096) by lia.
    destruct (IH s F (c + 1) Hb ltac:(lia) He Ht) as (s' & Hs' & Ht' & Hb'); [intros b Hbr; apply Hnew; lia|lia|].
    exists s'. split_and!; [done|done|]. eapply boot_inv_ext; [|done]. intros b. unfold unreserved.
    destruct (decide (b = c)) as [->|Hne]; [rewrite Er; naive_solver lia|]. split; (intros [?|[? ?]]; [by left|right; split; [lia|done]]).
  - assert (block_ok (total_pages s) c o) as Hok by (split_and!; [unfold PMM_MAX_ORDER; lia..|lia|lia|done]).
    destruct (boot_free cpu m s F c o Hcpu Hb ltac:(lia) Hok) as (s1 & -> & Ht1 & Hb1); [intros b Hbr; apply Hnew; lia|]. simpl.
    destruct (IH s1 _ (c + 2 ^ o) Hb1 ltac:(lia)) as (s' & Hs' & Ht' & Hb'); [congruence|congruence| |lia|].
    { intros b Hbr [HF|?]; [by apply (Hnew b); [lia|]|lia]. }
    exists s'. split_and!; [done|congruence|]. eapply boot_inv_ext; [|done]. intros b.
    assert (c ≤ b < c + 2 ^ o → unreserved rs b) as Hunr.
    { intros Hbr. unfold unreserved. destruct (range_is_reserved (b * 4096) _ rs) eqn:E; [|done].
      rewrite (reserved_sub (c * 4096) ((c + 2 ^ o) * 4096) (b * 4096) ((b + 1) * 4096) rs) in Er; [done|lia|lia|exact E]. }
    split.
    + intros [[?|?]|[? ?]]; [by left|right; split; [lia|auto]|right; split; [lia|done]].
    + intros [?|[? ?]]; [by do 2 left|]. destruct (decide (b < c + 2 ^ o)); [left; right; lia|right; split; [lia|done]].
Qed.

(** ** The regions of the memory map *)

(** The page lies inside an available region. *)
Definition page_in (r : region) (b : Z) : Prop :=
  reg_type r = PMM_REGION_AVAILABLE ∧ reg_base r ≤ b * 4096 ∧ (b + 1) * 4096 ≤ reg_base r + reg_size r.

(** Regions that do not reach the end of the address space. *)
Definition region_ok (r : region) : Prop :=
  0 ≤ reg_base r ≤ 4294963200 ∧ 0 ≤ reg_size r ∧ reg_base r + reg_size r < 4294967296.

Fixpoint disjoint_regions (rs : list region) : Prop :=
  match rs with [] => True | r :: rs => (∀ r' b, r' ∈ rs → page_in r b → ¬ page_in r' b) ∧ disjoint_regions rs end.

Lemma region_pages r :
  region_ok r →
  ∃ sp ep, align_up (reg_base r) = sp * 4096 ∧ align_down (u32 (reg_base r + reg_size r)) = ep * 4096 ∧ 0 ≤ sp ∧
    reg_base r ≤ sp * 4096 ∧ ep * 4096 ≤ reg_base r + reg_size r ∧
    ∀ b, sp ≤ b < ep ↔ reg_base r ≤ b * 4096 ∧ (b + 1) * 4096 ≤ reg_base r + reg_size r.
Proof.
  intros (Hb & Hs & He). rewrite align_up_spec, u32_small, align_down_spec by (unfold is_u32; lia).
  exists ((reg_base r + 4095) / 4096), ((reg_base r + reg_size r) / 4096).
  split_and!; try done; Z.to_euclidean_division_equations; lia.
Qed.

Lemma align_page c : 0 ≤ c * 4096 ≤ 4294963200 → align_up (c * 4096) = c * 4096 ∧ align_down (c * 4096) = c * 4096.
Proof.
  intros Hc. rewrite align_up_spec, align_down_spec by (unfold is_u32; lia). split; Z.to_euclidean_division_equations; lia.
Qed.

Lemma free_range_ok cpu m s F c e rs :
  0 ≤ cpu < 32 → boot_inv m s F → 0 < m ≤ c → c < e → e ≤ total_pages s → total_pages s ≤ 1048575 → (∀ b, c ≤ b < e → ¬ F b) →
  ∃ s', free_range cpu (c * 4096) (e * 4096) 0 rs s = Ok s' ∧ total_pages s' = total_pages s ∧
        boot_inv m s' (λ b, F b ∨ (c ≤ b < e ∧ unreserved rs b)).
Proof.
  intros Hcpu Hb Hm Hce He Ht Hnew. unfold free_range.
  rewrite (proj1 (align_page c ltac:(lia))), (proj2 (align_page e ltac:(lia))), !(proj2 (Z.leb_gt _ _)) by lia. simpl.
  unfold PAGE_SIZE. rewrite Z.div_mul by lia. apply free_range_loop_ok; try done. lia.
Qed.

Lemma free_regions_ok cpu m s F regions rs :
  0 ≤ cpu < 32 → boot_inv m s F → 0 < m → total_pages s ≤ 1048575 →
  Forall region_ok regions → disjoint_regions regions →
  (∀ r, r ∈ regions → reg_type r = PMM_REGION_AVAILABLE → reg_size r ≠ 0 →
    reg_base r + reg_size r < (total_pages s + 1) * 4096) →
  (∀ r b, r ∈ regions → page_in r b → ¬ F b) →
  ∃ s', free_regions cpu (m * 4096) regions rs s = Ok s' ∧ total_pages s' = total_pages s ∧
        boot_inv m s' (λ b, F b ∨ (m ≤ b ∧ unreserved rs b ∧ ∃ r, r ∈ regions ∧ page_in r b)).
Proof.
  intros Hcpu Hb Hm Ht Hall. revert s F Hb Ht. induction Hall as [|r regions Hr Hall IH]; intros s F Hb Ht Hdis Hend Hnew; cbn [free_regions].
  { exists s. split_and!; [done..|]. eapply boot_inv_ext; [|done]. intros b. split; [auto|]. intros [?|(_ & _ & r & Hr & _)]; [done|].
    by apply not_elem_of_nil in Hr. }
  destruct Hdis as [Hd Hdis].
  assert (∃ s1, free_region cpu (m * 4096) rs r s = Ok s1 ∧ total_pages s1 = total_pages s ∧
      boot_inv m s1 (λ b, F b ∨ (m ≤ b ∧ unreserved rs b ∧ page_in r b))) as (s1 & -> & Ht1 & Hb1).
  { assert ((∀ b, m ≤ b → ¬ page_in r b) → boot_inv m s (λ b, F b ∨ (m ≤ b ∧ unreserved rs b ∧ page_in r b))) as Hskip.
    { intros Hno. eapply boot_inv_ext; [|done]. intros b. split; [auto|]. intros [?|(? & _ & ?)]; [done|]. by destruct (Hno b). }
    unfold free_region. destruct (Z.eqb_spec (reg_type r) PMM_REGION_AVAILABLE) as [Hty|Hty]; simpl.
    2: { exists s. split_and!; [done..|]. apply Hskip. by intros b _ [? _]. }
    destruct (region_pages r Hr) as (sp & ep & -> & -> & Hsp & Hlo & Hhi & Hpages).
    destruct (Z.leb_spec (ep * 4096) (sp * 4096)).
    { exists s. split_and!; [done..|]. apply Hskip. intros b _ [_ Hp]. apply Hpages in Hp. lia. }
    set (c := Z.max sp m).
    assert ((if sp * 4096 <? m * 4096 then m * 4096 else sp * 4096) = c * 4096) as ->.
    { unfold c. destruct (Z.ltb_spec (sp * 4096) (m * 4096)); [rewrite Z.max_r by lia|rewrite Z.max_l by lia]; done. }
    destruct (Z.leb_spec (ep * 4096) (c * 4096)).
    { exists s. split_and!; [done..|]. apply Hskip. intros b Hbm [_ Hp]. apply Hpages in Hp. lia. }
    specialize (Hend r ltac:(by left) Hty ltac:(lia)).
    destruct (free_range_ok cpu m s F c ep rs) as (s1 & Hs1 & Ht1 & Hb1); try done; [lia|lia|lia| |].
    { intros b Hbr. apply (Hnew r b); [by left|]. split; [done|]. apply Hpages. lia. }
    exists s1. split_and!; [done|done|]. eapply boot_inv_ext; [|done]. intros b. unfold page_in. rewrite <- Hpages. unfold c.
    split; (intros [?|H1]; [by left|right]); [destruct H1 as (? & ?)|destruct H1 as (? & ? & _ & ?)]; split_and!; first [done | lia]. }
  simpl. destruct (IH s1 _ Hb1 ltac:(congruence) Hdis) as (s' & Hs' & Ht' & Hb').
  { intros r' Hr'. rewrite Ht1. apply Hend. by right. }
  { intros r' b Hr' Hp [HF|(_ & _ & Hp')]; [by apply (Hnew r' b); [right|..]|]. by apply (Hd r' b). }
  exists s'. split_and!; [done|congruence|]. eapply boot_inv_ext; [|done]. intros b. setoid_rewrite elem_of_cons. naive_solver.
Qed.

(** ** The whole set-up *)

(** The first frame above the page descriptors. *)
Definition first_page (kernel_end_addr total : Z) : Z :=
  align_up (u32 (align_up kernel_end_addr + u32 (total * 32))) / 4096.

(** The pages the memory map gives to the allocator. *)
Definition usable (m : Z) (regions : list region) (rs : list reserved_region) (b : Z) : Prop :=
  m ≤ b ∧ unreserved rs b ∧ ∃ r, r ∈ regions ∧ page_in r b.

Lemma align_up_mult a : ∃ c, align_up a = c * 4096 ∧ 0 ≤ c * 4096 ≤ 4294963200.
Proof.
  pose proof (u32_range (a + 4095)) as Hr. unfold align_up, PAGE_SIZE. change (a + (4096 - 1)) with (a + 4095).
  assert (∀ x, is_u32 x → Z.land x (u32 (Z.lnot (4096 - 1))) = x / 4096 * 4096) as Hl.
  { intros x Hx. rewrite <- (align_down_spec x Hx). reflexivity. }
  rewrite Hl by exact Hr. exists (u32 (a + 4095) / 4096). split; [done|]. Z.to_euclidean_division_equations; lia.
Qed.

Lemma max_end_spec regions :
  0 ≤ max_end regions ≤ 4294967295 ∧
  ∀ r, r ∈ regions → region_ok r → reg_type r = PMM_REGION_AVAILABLE → reg_base r + reg_size r ≤ max_end regions ∨ reg_size r = 0.
Proof.
  unfold max_end. match goal with |- context [foldl ?g 0 regions] => set (f := g) end.
  assert (∀ l a, a ≤ foldl f a l) as Hmono.
  { induction l as [|r l IH]; intros a; simpl; [lia|]. etrans; [|apply IH]. unfold f. repeat case_match; bool_simpl; lia. }
  enough (∀ acc, 0 ≤ acc ≤ 4294967295 → 0 ≤ foldl f acc regions ≤ 4294967295 ∧
    ∀ r, r ∈ regions → region_ok r → reg_type r = PMM_REGION_AVAILABLE → reg_base r + reg_size r ≤ foldl f acc regions ∨ reg_size r = 0)
    as H by (apply H; lia).
  induction regions as [|r regions IH]; intros acc Hacc; simpl.
  { split; [done|]. intros r Hr. by apply not_elem_of_nil in Hr. }
  destruct (IH (f acc r)) as [IH1 IH2].
  { unfold f. pose proof (u32_range (reg_base r + reg_size r)). repeat case_match; bool_simpl; lia. }
  split; [done|]. intros r' [->|Hr']%elem_of_cons Hok Hty; [|auto].
  destruct (decide (reg_size r = 0)) as [?|Hne]; [by right|left]. etrans; [|apply Hmono].
  destruct Hok as (H1 & H2 & H3). unfold f. rewrite Hty, Z.eqb_refl, (proj2 (Z.eqb_neq _ _) Hne), u32_small by lia. simpl.
  rewrite (proj2 (Z.ltb_ge (reg_base r + reg_size r) (reg_base r))) by lia. destruct (Z.ltb_spec acc (reg_base r + reg_size r)); lia.
Qed.

Lemma first_page_ok ke total :
  0 < total ≤ 1048575 → align_up ke ≤ first_page ke total * 4096 →
  align_up (u32 (align_up ke + u32 (total * 32))) = first_page ke total * 4096 ∧
  0 < first_page ke total ∧ first_page ke total * 4096 ≤ 4294963200.
Proof.
  intros Ht Hle. unfold first_page in *. destruct (align_up_mult (u32 (align_up ke + u32 (total * 32)))) as (c & Ec & Hc).
  destruct (align_up_mult ke) as (d & Ed & Hd). rewrite Ec, Z.div_mul in * by lia. split_and!; [done| |lia].
  rewrite (u32_small (total * 32)) in Ec by lia. destruct (decide (c = 0)) as [->|]; [|lia]. exfalso.
  assert (d = 0) as -> by lia. rewrite Ed in Ec. simpl in Ec. rewrite u32_small, align_up_spec in Ec by lia.
  Z.to_euclidean_division_equations; lia.
Qed.

(** What the memory manager starts with. *)
Lemma init_boot cpu regions rs ke :
  0 ≤ cpu < 32 → Forall region_ok regions → disjoint_regions regions →
  let total := align_down (max_end regions) / 4096 in
  let m := first_page ke total in
  0 < total → align_up ke ≤ m * 4096 →
  ∃ s, init_regions cpu regions rs ke = Ok s ∧ total_pages s = total ∧ boot_inv m s (usable m regions rs).
Proof.
  intros Hcpu Hok Hdis total m Htot Hfit. destruct (max_end_spec regions) as [Hmax Hreg].
  assert (total ≤ 1048575 ∧ max_end regions < (total + 1) * 4096) as [Ht Hme].
  { unfold total. rewrite align_down_spec, Z.div_mul by (unfold is_u32; lia). Z.to_euclidean_division_equations; lia. }
  destruct (first_page_ok ke total ltac:(lia) Hfit) as (Em & Hm & Hm2). fold m in Em, Hm, Hm2.
  unfold init_regions, PAGE_SIZE. fold total. rewrite (proj2 (Z.eqb_neq total 0)) by lia. rewrite Em, (proj2 (Z.ltb_ge _ _)) by lia.
  pose proof (init_state_ok m total Hm ltac:(lia) ltac:(lia)) as Hinv. pose proof (init_state_acct m total (m * 4096)) as Hac.
  set (s0 := init_used_pages total (m * 4096) (empty_pmm total)) in *. assert (total_pages s0 = total) as Hs0 by done.
  destruct (free_regions_ok cpu m s0 (λ _, False) regions rs) as (s & Hs & Hts & Hb); try done; [| |auto|].
  - exists (singles m total). refine (conj Hinv (conj Hac (conj _ (conj _ _)))).
    + intros p k [_ ->]%singles_lookup. by right.
    + intros b Hb _. apply singles_lookup. split; [lia|done].
    + intros b. split; [|done]. intros (p & o & [_ ?]%singles_lookup & _). done.
  - intros r Hr Hty Hsz. assert (region_ok r) by (by apply (proj1 (Forall_forall _ _) Hok)).
    destruct (Hreg r Hr) as [?|?]; [done|done|lia|done].
  - exists s. split_and!; [done|congruence|]. eapply boot_inv_ext; [|done]. unfold usable. naive_solver.
Qed.

(** All blocks of the boot state are free. *)
Lemma boot_blocks m s F :
  boot_inv m s F → ∃ B, buddy_inv s B ∧ acct s B ∧ (∀ p k, B !! p = Some k → is_free k = true) ∧ ∀ b, free_page B b ↔ F b.
Proof.
  intros (B & Hinv & Hac & Hk & _ & HF). exists (filter (λ x : Z * block, is_free x.2 = true) B).
  pose proof (forget_pages s B Hinv Hk) as Hinv'.
  assert (∀ b, free_page (filter (λ x : Z * block, is_free x.2 = true) B) b ↔ free_page B b) as Hfp.
  { intros b. unfold free_page. setoid_rewrite map_lookup_filter_Some. simpl. naive_solver. }
  refine (conj Hinv' (conj _ (conj _ _))).
  - unfold acct in *. rewrite (free_count_ext _ _ _ B (proj1 Hinv') (proj1 Hinv) Hfp). done.
  - by intros p k [_ ?]%map_lookup_filter_Some.
  - intros b. by rewrite Hfp.
Qed.

Lemma free_blocks_count s B : buddy_inv s B → acct s B → get_free_blocks s = free_count B.
Proof.
  intros (Hb & _) Hac. unfold get_free_blocks. rewrite Hac, u32_minus. pose proof (free_count_le _ _ _ Hb).
  pose proof (bi_total _ _ _ Hb). rewrite u32_small; lia.
Qed.


(** C39. The top of the address space: a region that reaches 4 GiB contributes to
    the size of the descriptor array but none of its pages is freed, and a reserved
    region that ends in the last page of the address space protects nothing. *)
Theorem pmm_top_of_memory cpu mem_map_end s rs r base size start end_ :
  0 ≤ reg_base r ≤ 4294963200 → reg_size r < 4294967296 → 4294967296 ≤ reg_base r + reg_size r →
  0 ≤ base < 4294967296 → 0 < size < 4294967296 → 4294963200 < base + size → 0 ≤ start →
  free_region cpu mem_map_end rs r s = Ok s ∧ 4294967295 ≤ max_end (Region (reg_base r) (reg_size r) PMM_REGION_AVAILABLE :: []) ∧
  range_is_reserved start end_ [Reserved base size] = false.
Proof.
  intros Hb Hs Hw Hb2 Hs2 Hw2 Hst.
  assert (u32 (reg_base r + reg_size r) = reg_base r + reg_size r - 4294967296) as Eu.
  { unfold u32. replace (reg_base r + reg_size r) with (reg_base r + reg_size r - 4294967296 + 1 * 4294967296) at 1 by lia.
    by rewrite Z.mod_add, Z.mod_small by lia. }
  split_and!.
  - unfold free_region. case_if; [done|]. rewrite Eu, align_up_spec, align_down_spec by (unfold is_u32; lia).
    rewrite (proj2 (Z.leb_le _ _)); [done|]. Z.to_euclidean_division_equations; lia.
  - unfold max_end. simpl. rewrite Eu. destruct (Z.eqb_spec (reg_size r) 0); [lia|]. simpl.
    destruct (Z.ltb_spec (reg_base r + reg_size r - 4294967296) (reg_base r)); [done|lia].
  - unfold range_is_reserved. simpl. rewrite orb_false_r, (proj2 (Z.eqb_neq size 0)) by lia.
    rewrite align_up_wraps; [by rewrite (proj2 (Z.leb_le 0 start))|].
    destruct (Z.ltb_spec (u32 (base + size)) base) as [?|Hge]; [lia|].
    destruct (decide (base + size < 4294967296)) as [?|Hge2]; [rewrite u32_small by lia; lia|].
    exfalso. revert Hge. unfold u32. replace (base + size) with (base + size - 4294967296 + 1 * 4294967296) by lia.
    rewrite Z.mod_add, Z.mod_small; lia.
Qed.

(** Blocks are not aligned to their size, although the header promises it:
    on a machine with 1 MiB of memory and a kernel that ends at 64 KiB, the first
    allocation of 16 pages returns an address that is no multiple of 64 KiB. *)
Theorem pmm_unaligned_block :
  ∃ a, (s ← init 0 1048576 65536; r ← alloc_pages_zone_unlocked 0 4 PMM_ZONE_DMA s; Ok r.1) = Ok a ∧
       a ≠ 0 ∧ a `mod` (16 * PAGE_SIZE) ≠ 0.
Proof. exists 860160. split; [by vm_compute|]. split; done. Qed.
