(* ===== verification/PmmSpec.v ===== *)
(** * What the memory manager promises its clients

    Clients on several CPUs allocate, use and free blocks in any order, starting
    from a memory map.  A client may store what it likes in the [slab_cache],
    [freelist] and [objects] fields of its pages, as the slab allocator does. *)

From stdpp Require Import functions.
From S2P Require Import Prelude Conc Pmm PmmBuddy PmmMap PmmCache PmmInit.

(** ** Clients *)

Inductive pmm_call :=
| CallAlloc (o : Z)
| CallAllocZone (o z : Z)
| CallFree (p : Z)
| CallDrain
| CallStore (b slab_cache freelist objects : Z).

(** The memory manager and the blocks its clients hold. *)
Record pmm_system := PmmSystem { mgr : pmm_state; owned : gmap Z Z }.

Definition store_fields (slab fl ob : Z) (pg : page) : page :=
  Page (flags pg) (ref_count pg) slab fl ob (prev pg) (next pg).

Definition own_block (a o : Z) (ow : gmap Z Z) : gmap Z Z := if a =? 0 then ow else <[a / PAGE_SIZE := o]> ow.

Definition pmm_exec (cpu : Z) (c : pmm_call) (s : pmm_system) : res pmm_system :=
  match c with
  | CallAlloc o => r ← alloc_pages cpu o (mgr s); Ok (PmmSystem r.2 (own_block r.1 o (owned s)))
  | CallAllocZone o z => r ← alloc_pages_zone cpu o z (mgr s); Ok (PmmSystem r.2 (own_block r.1 o (owned s)))
  | CallFree p =>
      match owned s !! p with
      | Some o => st ← free_pages cpu (addr p) o (mgr s); Ok (PmmSystem st (delete p (owned s)))
      | None => Ok s
      end
  | CallDrain => st ← pmm_drain_local_pcp_caches cpu (mgr s); Ok (PmmSystem st (owned s))
  | CallStore b slab fl ob =>
      mm ← page_upd (store_fields slab fl ob) b (mem_map (buddy (mgr s)));
      Ok (PmmSystem (PmmState (with_map mm (buddy (mgr s))) (pcp (mgr s))) (owned s))
  end.

(** Calls a correct client makes: on an existing CPU, freeing what it holds,
    storing pointers or NULL in its own pages. *)
Definition legal (cpu : Z) (c : pmm_call) (s : pmm_system) : Prop :=
  0 ≤ cpu < 32 ∧
  match c with
  | CallAlloc o => 0 ≤ o
  | CallAllocZone o z => 0 ≤ o ∧ 0 ≤ z < PMM_ZONE_COUNT
  | CallFree p => is_Some (owned s !! p)
  | CallDrain => True
  | CallStore b slab _ _ =>
      (slab = 0 ∨ PMM_MAX_ORDER < slab) ∧ ∃ p o, owned s !! p = Some o ∧ p ≤ b < p + 2 ^ o
  end.

Definition pmm_step (s s' : pmm_system) : Prop := ∃ cpu c, legal cpu c s ∧ pmm_exec cpu c s = Ok s'.

Definition boot_system (s : pmm) : pmm_system := PmmSystem (PmmState s (λ _, [])) ∅.

(** ** The invariant of the system *)

Definition system_inv (U : Z → Prop) (s : pmm_system) : Prop := state_inv U (mgr s) (map_to_list (owned s)).

Lemma store_ok s B p o b pg slab fl ob :
  buddy_inv s B → B !! p = Some (TakenBlock o) → p ≤ b < p + 2 ^ o → mem_map s !! b = Some pg →
  slab = 0 ∨ PMM_MAX_ORDER < slab → buddy_inv (with_map (<[b := store_fields slab fl ob pg]> (mem_map s)) s) B.
Proof.
  intros ([Ht Hm Hb Ha Hz Hk] & [Hf Htk Hst] & Hl) Hp Hr Hpg Hslab.
  assert (∀ j, B !! b ≠ Some (FreeBlock j)) as Hnf.
  { intros j Hj. destruct (decide (b = p)) as [->|Hne]; [congruence|]. pose proof (Ha p _ b _ Hp Hj ltac:(lia)) as H.
    unfold apart in H. simpl in H. destruct (Hb b _ Hj) as ((? & _) & _). simpl in *. pose proof (pow2_pos j). lia. }
  split; [split|split; [split|]]; simpl; try done.
  - intros i. rewrite <- Hm. destruct (decide (i = b)) as [->|Hne]; [rewrite lookup_insert_eq|by rewrite lookup_insert_ne].
    by rewrite Hpg.
  - intros i pg' [[<- <-]|[Hne Hi]]%lookup_insert_Some; [apply (Hz b pg Hpg)|eauto].
  - intros q k x pg' Hq Hx [[<- <-]|[Hne Hi]]%lookup_insert_Some; [apply (Hk q k b pg Hq Hx Hpg)|eauto].
  - intros q j pg' Hq [[<- <-]|[Hne Hi]]%lookup_insert_Some; [by destruct (Hnf j)|eauto].
  - intros q j pg' Hq [[<- <-]|[Hne Hi]]%lookup_insert_Some; [apply (Htk b j pg Hq Hpg)|eauto].
  - intros x pg' [[<- <-]|[Hne Hi]]%lookup_insert_Some Hu; [|eauto].
    destruct (Hst b pg Hpg Hu) as [?|[_ Hin]]; [by left|right]. by split.
  - eapply lists_ok_ext; [done|done|]. intros q j Hq. apply lookup_insert_ne. intros ->. by destruct (Hnf j).
Qed.

Lemma acct_with_map s B mm : acct s B → acct (with_map mm s) B.
Proof. unfold acct, get_used_blocks. cbn [cpu_used_pages total_pages with_map]. auto. Qed.

Lemma addr_div p : addr p / PAGE_SIZE = p.
Proof. unfold addr, PAGE_SIZE. by rewrite Z.div_mul. Qed.

Lemma taken_fresh U st p o X : state_inv U st ((p, o) :: X) → ∀ k, (p, k) ∉ X.
Proof.
  intros (C & _ & B & _ & _ & [Hnd _] & _) k Hk. simpl in Hnd. apply NoDup_cons in Hnd as [Hn _]. apply Hn.
  apply list_elem_of_fmap. exists (p, k). split; [done|]. apply elem_of_app. by left.
Qed.

Lemma own_block_inv U st p o ow :
  0 < p → state_inv U st ((p, o) :: map_to_list ow) →
  ow !! p = None ∧ state_inv U st (map_to_list (own_block (addr p) o ow)).
Proof.
  intros Hp Hinv. assert (ow !! p = None) as Hn.
  { destruct (ow !! p) as [k|] eqn:E; [|done]. destruct (taken_fresh _ _ _ _ _ Hinv k). by apply elem_of_map_to_list. }
  split; [done|]. unfold own_block. rewrite addr_ne, addr_div by done. by rewrite map_to_list_insert.
Qed.

(** A legal call returns and keeps the invariant. *)
Lemma legal_call U cpu c s :
  system_inv U s → legal cpu c s →
  ∃ s', pmm_exec cpu c s = Ok s' ∧ system_inv U s' ∧ total_pages (buddy (mgr s')) = total_pages (buddy (mgr s)).
Proof.
  intros Hinv [Hcpu Hc]. unfold system_inv in *. destruct c as [o|o z|p| |b slab fl ob]; simpl in *.
  - destruct (alloc_pages_ok U cpu o (mgr s) _ Hinv Hcpu Hc) as [(st & -> & Hst & Ht & _)|(p & st & -> & Hp & Hst & Ht)]; simpl; eexists.
    + split_and!; [done|done|done].
    + split_and!; [done| |done]. by apply own_block_inv.
  - destruct (alloc_zone_ok U cpu o z (mgr s) _ Hinv Hcpu) as [(st & -> & Hst & Ht & _)|(p & st & -> & Hp & Hst & Ht)]; [lia|lia|..];
      simpl; eexists; (split; [done|]); (split; [|done]); [done|by apply own_block_inv].
  - destruct Hc as [o Ho]. rewrite Ho. rewrite <- (insert_delete_id _ _ _ Ho), map_to_list_insert in Hinv by apply lookup_delete_eq.
    destruct (free_pages_ok U cpu p o (mgr s) _ Hinv Hcpu) as (st & -> & Hst & Ht). simpl. eexists. by split_and!.
  - destruct (drain_ok U cpu (mgr s) _ Hinv Hcpu) as (st & -> & Hst & Ht). simpl. eexists. by split_and!.
  - destruct Hc as (Hslab & p & o & Ho & Hr). destruct Hinv as (C & HC & B & HB & Hnh & HX & Hac & HU).
    assert (B !! p = Some (TakenBlock o)) as Hp.
    { apply HX, elem_of_app. left. by apply elem_of_map_to_list. }
    pose proof HB as (Hbl & _). destruct (bi_block _ _ _ Hbl p _ Hp) as (_ & ? & ? & _). simpl in *.
    destruct (proj2 (bi_map _ _ _ Hbl b)) as [pg Hpg]; [lia|]. rewrite (page_upd_ok _ _ _ _ Hpg). simpl. eexists. split; [done|].
    split; [|done]. exists C. split; [done|]. exists B. split; [by eapply store_ok|]. exact (conj Hnh (conj HX (conj (acct_with_map _ _ _ Hac) HU))).
Qed.

Lemma boot_system_inv m s F : boot_inv m s F → system_inv F (boot_system s).
Proof.
  intros (B & HB & Hac & Hfree & HF)%boot_blocks. exists (λ _, []).
  assert (cached (λ _, []) = []) as Hcn by (unfold cached; induction keys as [|k ks IH]; [done|by rewrite bind_cons, IH]).
  split; [intros k _; split; [done|simpl; lia]|]. simpl. rewrite Hcn. exists B. split; [done|]. split_and!.
  - intros p o Hp. by specialize (Hfree p _ Hp).
  - unfold holds. simpl. split; [apply NoDup_nil_2|]. intros p o. split; [by intros ?%not_elem_of_nil|]. intros Hp. by specialize (Hfree p _ Hp).
  - done.
  - intros b (p & k & Hp & Hr). apply HF. destruct k as [o|o|o]; [by exists p, o|by specialize (Hfree p _ Hp)..].
Qed.

Lemma system_reachable U s s' :
  system_inv U s → rtc pmm_step s s' → system_inv U s' ∧ total_pages (buddy (mgr s')) = total_pages (buddy (mgr s)).
Proof.
  intros Hs Hr. apply (invariant_rtc pmm_step (λ x, system_inv U x ∧ total_pages (buddy (mgr x)) = total_pages (buddy (mgr s))) s s'); [|done|done].
  intros x y [Hx Ht] (cpu & c & Hl & Hc). destruct (legal_call U cpu c x Hx Hl) as (y' & Hc' & Hy & Hty).
  assert (y' = y) as -> by congruence. split; [done|congruence].
Qed.

(** ** The contract *)

Definition asks (c : pmm_call) (o : Z) : Prop := c = CallAlloc o ∨ ∃ z, c = CallAllocZone o z.

(** What a call may do to the blocks that are held: an allocation fails or adds
    a block of usable pages that overlaps no other, a release takes the block
    out, nothing else changes anything. *)
Inductive heap_spec (U : Z → Prop) (ow : gmap Z Z) : pmm_call → gmap Z Z → Prop :=
| spec_null c o : asks c o → heap_spec U ow c ow
| spec_block c o p :
    asks c o → 0 < p → (∀ b, p ≤ b < p + 2 ^ o → U b) → ow !! p = None → (∀ q k, ow !! q = Some k → apart p o q k) →
    heap_spec U ow c (<[p := o]> ow)
| spec_free p o : ow !! p = Some o → heap_spec U ow (CallFree p) (delete p ow)
| spec_drain : heap_spec U ow CallDrain ow
| spec_store b slab fl ob : heap_spec U ow (CallStore b slab fl ob) ow.

Lemma alloc_spec U st p o ow c :
  asks c o → 0 < p → state_inv U st ((p, o) :: map_to_list ow) → heap_spec U ow c (own_block (addr p) o ow).
Proof.
  intros Hc Hp Hst. destruct (own_block_inv U st p o ow Hp Hst) as [Hn _].
  unfold own_block. rewrite addr_ne, addr_div by done.
  destruct Hst as (C & _ & B & (Hbl & _) & _ & [_ HX] & _ & HU).
  assert (B !! p = Some (TakenBlock o)) as HBp by (apply HX; by left).
  eapply spec_block; try done.
  - intros b Hb. apply HU. by exists p, (TakenBlock o).
  - intros q k Hq. assert (B !! q = Some (TakenBlock k)) as HBq.
    { apply HX. right. apply elem_of_app. left. by apply elem_of_map_to_list. }
    apply (bi_apart _ _ _ Hbl p _ q _ HBp HBq). congruence.
Qed.

Lemma call_spec U cpu c s s' :
  system_inv U s → legal cpu c s → pmm_exec cpu c s = Ok s' → heap_spec U (owned s) c (owned s').
Proof.
  intros Hinv [Hcpu Hc] He. unfold system_inv in Hinv. destruct c as [o|o z|p| |b slab fl ob]; simpl in *.
  - destruct (alloc_pages_ok U cpu o (mgr s) _ Hinv Hcpu Hc) as [(st & E & _)|(p & st & E & Hp & Hst & _)];
      rewrite E in He; injection He as <-; simpl.
    + apply (spec_null U _ _ o). by left.
    + eapply alloc_spec; eauto. by left.
  - destruct (alloc_zone_ok U cpu o z (mgr s) _ Hinv Hcpu) as [(st & E & _)|(p & st & E & Hp & Hst & _)]; [lia|lia|..];
      rewrite E in He; injection He as <-; simpl.
    + apply (spec_null U _ _ o). right. eauto.
    + eapply alloc_spec; eauto. right. eauto.
  - destruct Hc as [o Ho]. rewrite Ho in He.
    destruct (free_pages cpu (addr p) o (mgr s)) as [st| | |]; simpl in He; try done. injection He as <-. by eapply spec_free.
  - destruct (pmm_drain_local_pcp_caches cpu (mgr s)) as [st| | |]; simpl in He; try done. injection He as <-. apply spec_drain.
  - destruct (page_upd (store_fields slab fl ob) b _) as [mm| | |]; simpl in He; try done. injection He as <-. apply spec_store.
Qed.

(** A memory map that fits: no region reaches the top, none overlap, and the
    descriptors lie below the end of the address space. *)
Definition map_ok (regions : list region) (ke : Z) : Prop :=
  Forall region_ok regions ∧ disjoint_regions regions ∧
  0 < align_down (max_end regions) / 4096 ∧
  align_up ke ≤ first_page ke (align_down (max_end regions) / 4096) * 4096.

Definition map_usable (regions : list region) (rs : list reserved_region) (ke : Z) : Z → Prop :=
  usable (first_page ke (align_down (max_end regions) / 4096)) regions rs.

Lemma boot_reachable cpu regions rs ke s0 s :
  0 ≤ cpu < 32 → map_ok regions ke → init_regions cpu regions rs ke = Ok s0 → rtc pmm_step (boot_system s0) s →
  system_inv (map_usable regions rs ke) s.
Proof.
  intros Hcpu (Hok & Hdis & Htot & Hfit) Hs0 Hr.
  destruct (init_boot cpu regions rs ke Hcpu Hok Hdis Htot Hfit) as (s1 & Hs1 & Ht & Hb).
  assert (s1 = s0) as -> by congruence. apply (system_reachable _ (boot_system s0)); [|done]. by eapply boot_system_inv.
Qed.

(** C3. The memory manager is a heap of pages: from boot on, every legal call of
    any client on any CPU returns (no access outside the descriptors, no loop
    without end), and allocation yields NULL or a block of usable pages that
    overlaps no block held, whatever the per-CPU caches and clients did before. *)
Theorem pmm_refines_heap cpu0 regions rs ke s0 s cpu c :
  0 ≤ cpu0 < 32 → map_ok regions ke → init_regions cpu0 regions rs ke = Ok s0 →
  rtc pmm_step (boot_system s0) s → legal cpu c s →
  ∃ s', pmm_exec cpu c s = Ok s' ∧ heap_spec (map_usable regions rs ke) (owned s) c (owned s').
Proof.
  intros H0 Hmap Hs0 Hr Hl. pose proof (boot_reachable _ _ _ _ _ _ H0 Hmap Hs0 Hr) as Hinv.
  destruct (legal_call _ cpu c s Hinv Hl) as (s' & Hs' & _). exists s'. split; [done|]. by eapply call_spec.
Qed.

(** C18. Memory is not lost: when [alloc_pages] fails, neither zone has a free
    block of the order or above, and at all times the free counter equals the
    number of pages in the free blocks. *)
Theorem pmm_fails_when_exhausted cpu0 regions rs ke s0 s cpu o st' :
  0 ≤ cpu0 < 32 → map_ok regions ke → init_regions cpu0 regions rs ke = Ok s0 →
  rtc pmm_step (boot_system s0) s → 0 ≤ cpu < 32 → 0 ≤ o → alloc_pages cpu o (mgr s) = Ok (0, st') →
  (∀ z, 0 ≤ z < PMM_ZONE_COUNT → none_left (buddy st') o z) ∧
  ∃ B, buddy_inv (buddy (mgr s)) B ∧ get_free_blocks (buddy (mgr s)) = Z.of_nat (size (all_free B)).
Proof.
  intros H0 Hmap Hs0 Hr Hcpu Ho Ha. pose proof (boot_reachable _ _ _ _ _ _ H0 Hmap Hs0 Hr) as Hinv. split.
  - destruct (alloc_pages_ok _ cpu o (mgr s) _ Hinv Hcpu Ho) as [(st & E & _ & _ & Hn)|(p & st & E & Hp & _)].
    + intros z Hz. assert (st = st') as <- by congruence. by apply Hn.
    + pose proof (addr_ne p Hp) as Hne. rewrite Ha in E. injection E as E _. rewrite <- E in Hne. done.
  - destruct Hinv as (C & _ & B & HB & _ & _ & Hac & _). exists B. split; [done|].
    rewrite all_free_size; [by apply free_blocks_count| |apply (bi_apart _ _ _ (proj1 HB))].
    intros p k Hp. by destruct (bi_block _ _ _ (proj1 HB) p k Hp) as ((? & _) & _).
Qed.

(** *** Instances *)

Definition small_map : list region := [Region 0 1048576 PMM_REGION_AVAILABLE].
Definition small_reserved : list reserved_region := [Reserved 655360 393216].

Lemma small_map_ok : map_ok small_map 65536.
Proof.
  split; [apply Forall_singleton; by unfold region_ok|]. split; [|done].
  split; [|done]. intros r' b Hr. by apply not_elem_of_nil in Hr.
Qed.

Lemma small_map_boots : ∃ s, init_regions 0 small_map small_reserved 65536 = Ok s.
Proof.
  destruct small_map_ok as (H1 & H2 & H3 & H4). destruct (init_boot 0 small_map small_reserved 65536 ltac:(lia) H1 H2 H3 H4) as (s & Hs & _).
  by exists s.
Qed.


Lemma pmm_refines_heap_witness :
  ∃ s0 s', init_regions 0 small_map small_reserved 65536 = Ok s0 ∧ pmm_exec 1 (CallAlloc 3) (boot_system s0) = Ok s' ∧
    heap_spec (map_usable small_map small_reserved 65536) ∅ (CallAlloc 3) (owned s').
Proof.
  destruct small_map_boots as [s0 Hs0].
  destruct (pmm_refines_heap 0 small_map small_reserved 65536 s0 (boot_system s0) 1 (CallAlloc 3)) as (s' & Hs' & Hh);
    [lia|apply small_map_ok|exact Hs0|constructor|split; simpl; lia|].
  exists s0, s'. exact (conj Hs0 (conj Hs' Hh)).
Defined.

Lemma small_map_exhausted :
  (s ← init_regions 0 small_map small_reserved 65536; r ← alloc_pages 1 9 (mgr (boot_system s)); Ok r.1) = Ok 0.
Proof. by vm_compute. Qed.

Lemma pmm_fails_when_exhausted_witness :
  ∃ s0 st', init_regions 0 small_map small_reserved 65536 = Ok s0 ∧ alloc_pages 1 9 (mgr (boot_system s0)) = Ok (0, st') ∧
    none_left (buddy st') 9 PMM_ZONE_NORMAL.
Proof.
  destruct small_map_boots as [s0 Hs0]. pose proof small_map_exhausted as Hx. rewrite Hs0 in Hx. cbn [mbind res_bind] in Hx.
  destruct (alloc_pages 1 9 (mgr (boot_system s0))) as [[a st']| | |] eqn:Ea; try discriminate Hx.
  assert (a = 0) as -> by (injection Hx as Hx; exact Hx). exists s0, st'.
  destruct (pmm_fails_when_exhausted 0 small_map small_reserved 65536 s0 (boot_system s0) 1 9 st') as [Hn _];
    [lia|apply small_map_ok|exact Hs0|constructor|lia|lia|exact Ea|].
  refine (conj Hs0 (conj Ea (Hn _ _))). vm_compute. split; [discriminate|reflexivity].
Defined.
