(* ===== verification/PmmLaws.v ===== *)
(** * Laws of the buddy allocator

    The two core routines against their definition on the map of blocks, the
    shape of that map, termination on every input, and the zone of a block that
    was asked for in the DMA zone. *)

From stdpp Require Import functions.
From S2P Require Import Prelude Pmm PmmBuddy PmmMap PmmCache PmmInit PmmSpec.

(** ** Best fit and coalescing *)

(** Best fit: a smallest free block of the zone that is large enough. *)
Definition best_fit (B : gmap Z block) (z o p c : Z) : Prop :=
  B !! p = Some (FreeBlock c) ∧ zone_of p = z ∧ o ≤ c ∧
  ∀ q k, B !! q = Some (FreeBlock k) → zone_of q = z → o ≤ k → c ≤ k.

(** What an allocation does to the map of blocks. *)
Inductive alloc_rel (B : gmap Z block) (z o : Z) : Z → gmap Z block → Prop :=
| rel_fit p c : best_fit B z o p c → alloc_rel B z o (addr p) (alloc_block B p c o)
| rel_full : exhausted B o z → alloc_rel B z o 0 B.

Lemma some_fits (B : gmap Z block) z o :
  (∃ q k, B !! q = Some (FreeBlock k) ∧ zone_of q = z ∧ o ≤ k) ∨ exhausted B o z.
Proof.
  destruct (decide (map_Exists (λ p k, fits z o p k = true) B)) as [(q & k & Hq & Hf)|Hn].
  - left. unfold fits in Hf. destruct k as [j|j|j]; [|done..]. exists q, j. bool_simpl. split_and!; [done|lia|lia].
  - right. intros p c Hp Hz. destruct (decide (c < o)); [done|]. destruct Hn. exists p, (FreeBlock c). split; [done|].
    unfold fits. rewrite Hz, Z.eqb_refl. simpl. apply Z.leb_le. lia.
Qed.

(** C9. The optimised allocator is its definition: with bitmaps and linked lists
    over the descriptors, [alloc_pages_zone_unlocked] does best fit with
    splitting, and [free_pages_unlocked] merges a block with its buddies as far
    as possible. *)
Theorem buddy_equivalence cpu s B o z p k :
  buddy_inv s B → no_hand B → 0 ≤ o ≤ PMM_MAX_ORDER → 0 ≤ z < PMM_ZONE_COUNT → B !! p = Some (TakenBlock k) →
  (∃ a s' B', alloc_pages_zone_unlocked cpu o z s = Ok (a, s') ∧ alloc_rel B z o a B' ∧ buddy_inv s' B') ∧
  (∃ s', free_pages_unlocked cpu (addr p) k s = Ok s' ∧ buddy_inv s' (free_block B p k)).
Proof.
  intros Hinv Hnh Ho Hz Hp. split.
  - destruct (some_fits B z o) as [(q & j & Hq & Hzq & Hj)|Hn].
    + destruct (alloc_ok cpu s B o z q j Hinv Hnh ltac:(lia) Hq Hzq Hj) as (a & c & s' & Ha & Hpc & Hzp & Hoc & Hbest & Hinv' & _).
      exists (addr a), s', (alloc_block B a c o). refine (conj Ha (conj (rel_fit B z o a c _) Hinv')).
      exact (conj Hpc (conj Hzp (conj Hoc Hbest))).
    + exists 0, s, B. refine (conj _ (conj (rel_full B z o Hn) Hinv)). apply (alloc_fails cpu s B); auto with lia.
  - destruct (free_taken cpu s B p k Hinv Hnh Hp) as (s' & Hf & Hinv' & _). by exists s'.
Qed.

(** ** The shape of the blocks *)

Definition aligned_blocks (B : gmap Z block) : Prop := ∀ q k, B !! q = Some k → (2 ^ block_order k | q).

Definition good_shape (B : gmap Z block) : Prop := aligned_blocks B ∧ coalesced B.

(** Alignment and full merging are kept: if every block starts at a multiple
    of its size and no two free buddies exist, this is so after an allocation,
    whose address is then a multiple of the size, and after a release. *)
Theorem buddy_keeps_shape cpu s B o z p k :
  buddy_inv s B → no_hand B → good_shape B → 0 ≤ o ≤ PMM_MAX_ORDER → 0 ≤ z < PMM_ZONE_COUNT →
  B !! p = Some (TakenBlock k) →
  (∃ a s' B', alloc_pages_zone_unlocked cpu o z s = Ok (a, s') ∧ buddy_inv s' B' ∧ good_shape B' ∧ (2 ^ o * PAGE_SIZE | a)) ∧
  (∃ s' B', free_pages_unlocked cpu (addr p) k s = Ok s' ∧ buddy_inv s' B' ∧ good_shape B').
Proof.
  intros Hinv Hnh [Hal Hco] Ho Hz Hp. pose proof Hinv as (Hbl & _). split.
  - destruct (some_fits B z o) as [(q & j & Hq & Hzq & Hj)|Hn].
    + destruct (alloc_ok cpu s B o z q j Hinv Hnh ltac:(lia) Hq Hzq Hj) as (a & c & s' & Ha & Hpc & Hzp & Hoc & _ & Hinv' & _).
      assert (0 ≤ o ≤ c) as Hc by lia. exists (addr a), s', (alloc_block B a c o). refine (conj Ha (conj Hinv' (conj (conj _ _) _))).
      * exact (alloc_block_aligned _ _ _ _ _ _ Hbl Hpc Hc Hal).
      * exact (alloc_block_coalesced _ _ _ _ _ _ Hbl Hpc Hc Hal Hco).
      * unfold addr. apply Z.mul_divide_mono_r. etrans; [|exact (Hal a _ Hpc)]. simpl.
        exists (2 ^ (c - o)). rewrite <- Z.pow_add_r by lia. f_equal. lia.
    + exists 0, s, B. refine (conj _ (conj Hinv (conj (conj Hal Hco) (Z.divide_0_r _)))). apply (alloc_fails cpu s B); auto with lia.
  - destruct (free_taken cpu s B p k Hinv Hnh Hp) as (s' & Hf & Hinv' & _).
    destruct (bi_block _ _ _ Hbl p _ Hp) as ((Hk & _) & _). exists s', (free_block B p k).
    refine (conj Hf (conj Hinv' (conj _ _))).
    + refine (free_block_aligned B p k Hk (Hal p _ Hp) _). intros q j Hq. split; [|by apply Hal].
      by destruct (bi_block _ _ _ Hbl q _ Hq) as ((? & _) & _).
    + by apply free_block_coalesced.
Qed.

(** ** Termination *)

Definition halts {A} (r : res A) : Prop := r ≠ Timeout.

Lemma halts_bind {A B} (r : res A) (f : A → res B) : halts r → (∀ a, r = Ok a → halts (f a)) → halts (r ≫= f).
Proof. intros Hr Hf. destruct r as [a| | |]; [by apply Hf|done..]. Qed.

Create HintDb halts.

Lemma halts_page_at mm i : halts (page_at mm i).
Proof. unfold page_at. by case_match. Qed.

Lemma halts_page_upd f i mm : halts (page_upd f i mm).
Proof. apply halts_bind; [apply halts_page_at|done]. Qed.

Lemma halts_zone_at s z : halts (zone_at s z).
Proof. unfold zone_at. by case_match. Qed.

Lemma halts_area_at zn o : halts (area_at zn o).
Proof. unfold area_at. by case_match. Qed.

#[local] Hint Resolve halts_page_at halts_page_upd halts_zone_at halts_area_at : halts.

(** Goes through the statements of a routine. *)
Ltac halting :=
  repeat first
    [ done
    | progress eauto with halts
    | match goal with
      | |- halts (_ ≫= _) => apply halts_bind; [|intros ? ?]
      | |- halts (if ?c then _ else _) => destruct c eqn:?
      | |- halts (match ?c with _ => _ end) => destruct c eqn:?
      | |- halts (let '(_, _) := ?c in _) => destruct c eqn:?
      end ].

Lemma halts_list_add h p mm : halts (list_add h p mm).
Proof. unfold list_add. halting. Qed.

Lemma halts_list_remove h p mm : halts (list_remove h p mm).
Proof. unfold list_remove. halting. Qed.

#[local] Hint Resolve halts_list_add halts_list_remove : halts.

Lemma halts_push z o p s : halts (free_area_push z o p s).
Proof. unfold free_area_push. halting. Qed.

Lemma halts_remove z o p s : halts (free_area_remove z o p s).
Proof. unfold free_area_remove. halting. Qed.

#[local] Hint Resolve halts_push halts_remove : halts.

Lemma halts_pop z o s : halts (free_area_pop z o s).
Proof. unfold free_area_pop. halting. Qed.

#[local] Hint Resolve halts_pop : halts.

Lemma halts_split fuel z p c o s : c - o ≤ Z.of_nat fuel → halts (split_loop fuel z p c o s).
Proof.
  revert c s. induction fuel as [|fuel IH]; intros c s Hf; cbn [split_loop]; case_match; bool_simpl; try done; [lia|].
  halting. apply IH. lia.
Qed.

Lemma halts_merge fuel z p o s : PMM_MAX_ORDER - o ≤ Z.of_nat fuel → halts (merge_loop fuel z p o s).
Proof.
  revert p o s. induction fuel as [|fuel IH]; intros p o s Hf; cbn [merge_loop]; case_match; bool_simpl; try done; [lia|].
  halting. apply IH. lia.
Qed.

Lemma pop_order z c s r : free_area_pop z c s = Ok r → 0 ≤ c ≤ PMM_MAX_ORDER.
Proof.
  unfold free_area_pop. destruct (zone_at s z) as [zn| | |]; [|done..]. unfold area_at. simpl.
  destruct (_ && _) eqn:E; [|done]. bool_simpl. lia.
Qed.

Lemma halts_alloc cpu o z s : 0 ≤ o → halts (alloc_pages_zone_unlocked cpu o z s).
Proof.
  intros Ho. unfold alloc_pages_zone_unlocked. halting. apply halts_split.
  match goal with H : free_area_pop _ _ _ = Ok _ |- _ => apply pop_order in H end. unfold PMM_MAX_ORDER in *. lia.
Qed.

Lemma halts_free cpu a o s : 0 ≤ o → halts (free_pages_unlocked cpu a o s).
Proof. intros Ho. unfold free_pages_unlocked. halting. apply halts_merge. unfold PMM_MAX_ORDER. lia. Qed.

#[local] Hint Resolve halts_alloc halts_free : halts.

Lemma halts_alloc_up_to n cpu o z s : 0 ≤ o → halts (alloc_up_to n cpu o z s).
Proof. intros Ho. revert s. induction n as [|n IH]; intros s; cbn [alloc_up_to]; halting. Qed.

Lemma halts_batch cpu o z n s : 0 ≤ o → halts (alloc_pages_batch cpu o z n s).
Proof. intros Ho. unfold alloc_pages_batch. cbv zeta. halting; by apply halts_alloc_up_to. Qed.

Lemma halts_sort s l : halts (sort_zones s l).
Proof. induction l as [|a l IH]; cbn [sort_zones]; halting. Qed.

Lemma halts_free_all cpu o l s : 0 ≤ o → halts (free_all cpu o l s).
Proof. intros Ho. revert s. induction l as [|a l IH]; intros s; cbn [free_all]; halting. Qed.

#[local] Hint Resolve halts_batch halts_sort halts_free_all : halts.

Lemma halts_free_batch cpu o l s : 0 ≤ o → halts (free_pages_batch cpu o l s).
Proof. intros Ho. unfold free_pages_batch. halting. Qed.

#[local] Hint Resolve halts_free_batch : halts.

Lemma halts_pcp_alloc cpu z o st : 0 ≤ o → halts (pcp_alloc_from_cache cpu z o st).
Proof. intros Ho. unfold pcp_alloc_from_cache. halting. Qed.

Lemma halts_pcp_drain cpu o l s : 0 ≤ o → halts (pcp_cache_drain cpu o l s).
Proof. intros Ho. unfold pcp_cache_drain. halting. Qed.

#[local] Hint Resolve halts_pcp_alloc halts_pcp_drain : halts.

Lemma halts_pcp_free cpu z o a st : 0 ≤ o → halts (pcp_free_to_cache cpu z o a st).
Proof. intros Ho. unfold pcp_free_to_cache. halting. Qed.

#[local] Hint Resolve halts_pcp_free : halts.

Lemma halts_alloc_zone cpu o z st : 0 ≤ o → halts (alloc_pages_zone cpu o z st).
Proof. intros Ho. unfold alloc_pages_zone, lift. halting. Qed.

#[local] Hint Resolve halts_alloc_zone : halts.

Lemma halts_alloc_pages cpu o st : 0 ≤ o → halts (alloc_pages cpu o st).
Proof. intros Ho. unfold alloc_pages. halting. Qed.

Lemma halts_free_pages cpu a o st : 0 ≤ o → halts (free_pages cpu a o st).
Proof. intros Ho. unfold free_pages. halting. Qed.

(** *** Setting up *)

Lemma align_down_mult a : ∃ c, align_down a = c * 4096 ∧ 0 ≤ c.
Proof.
  unfold align_down. change (u32 (Z.lnot (PAGE_SIZE - 1))) with (Z.shiftl (Z.ones 20) 12).
  exists (Z.land (Z.shiftr a 12) (Z.ones 20)). split.
  - change 4096 with (2 ^ 12). rewrite <- Z.shiftl_mul_pow2, Z.shiftl_land by lia. apply Z.bits_inj'. intros i Hi.
    rewrite !Z.land_spec, !Z.shiftl_spec by lia. destruct (decide (12 ≤ i)).
    + rewrite Z.shiftr_spec by lia. do 2 f_equal; lia.
    + by rewrite (Z.testbit_neg_r (Z.ones 20)), !andb_false_r by lia.
  - apply Z.land_nonneg. right. by compute.
Qed.

Lemma pick_order_range n cur e zf rs : 0 ≤ pick_order n cur e zf rs.
Proof. induction n as [|n IH]; cbn [pick_order]; [lia|]. repeat case_match; lia. Qed.

Lemma page_step cur o : 0 ≤ o → ∃ j, u32 (cur * 4096 + u32 (Z.shiftl PAGE_SIZE o)) = j * 4096 ∧ 0 ≤ j * 4096 < 4294967296.
Proof.
  intros Ho. exists (u32 (cur * 4096 + u32 (Z.shiftl PAGE_SIZE o)) / 4096). pose proof (u32_range (cur * 4096 + u32 (Z.shiftl PAGE_SIZE o))) as Hr.
  assert (∃ k, u32 (cur * 4096 + u32 (Z.shiftl PAGE_SIZE o)) = k * 4096) as [k Hk].
  { unfold u32. rewrite Zplus_mod_idemp_r, Z.shiftl_mul_pow2 by done. unfold PAGE_SIZE.
    exists ((cur + 2 ^ o) `mod` 1048576). rewrite <- Z.mul_mod_distr_r by lia. f_equal. lia. }
  rewrite Hk in *. rewrite Z.div_mul by lia. split; [done|]. unfold is_u32 in Hr. lia.
Qed.

Lemma halts_free_range_loop fuel cpu i e zf rs s :
  0 ≤ i → e - i ≤ Z.of_nat fuel → halts (free_range_loop fuel cpu (i * 4096) (e * 4096) zf rs s).
Proof.
  revert i s. induction fuel as [|fuel IH]; intros i s Hi Hf; cbn [free_range_loop]; case_match; bool_simpl; try done; [lia|].
  case_match; [done|]. cbv zeta. set (o := pick_order _ _ _ _ _). pose proof (pick_order_range 11 (i * 4096) (e * 4096) zf rs) as Ho. fold o in Ho.
  destruct (page_step i o Ho) as (j & Hj & Hjr). rewrite Hj. case_match; [done|]. bool_simpl. case_match.
  - rewrite (u32_small (i * 4096 + PAGE_SIZE)) by (unfold PAGE_SIZE; lia).
    replace (i * 4096 + PAGE_SIZE) with ((i + 1) * 4096) by (unfold PAGE_SIZE; lia). apply IH; lia.
  - apply halts_bind; [by apply halts_free|]. intros s' _. apply IH; lia.
Qed.

Lemma halts_free_range cpu a b zf rs s : halts (free_range cpu a b zf rs s).
Proof.
  unfold free_range. case_match; [done|]. cbv zeta. destruct (align_up_mult a) as (i & -> & Hi), (align_down_mult b) as (e & -> & He).
  case_match; [done|].
  unfold PAGE_SIZE. rewrite Z.div_mul by lia.
  case_match; [change k_dma_limit with (4096 * 4096)|]; apply halts_free_range_loop; lia.
Qed.

Lemma halts_free_regions cpu m regions rs s : halts (free_regions cpu m regions rs s).
Proof.
  revert s. induction regions as [|r regions IH]; intros s; cbn [free_regions]; [done|].
  apply halts_bind; [|auto]. unfold free_region. halting. apply halts_free_range.
Qed.

Lemma halts_drain_lists (keys : list (Z * Z)) cpu st : Forall (λ k : Z * Z, 0 ≤ k.2) keys → halts (drain_lists keys cpu st).
Proof.
  intros Hk. revert st. induction Hk as [|[z o] keys Ho _ IH]; intros st; cbn [drain_lists]; [done|].
  apply halts_bind; [|auto]. unfold drain_list. simpl in Ho. halting.
Qed.

(** C20. Every loop of the memory manager ends, on any memory map, however wrong,
    and from any state of the descriptors: setting up needs one round per page,
    splitting and merging at most 12. *)
Theorem pmm_terminates cpu regions rs ke o z a st :
  0 ≤ o →
  init_regions cpu regions rs ke ≠ Timeout ∧ alloc_pages cpu o st ≠ Timeout ∧ alloc_pages_zone cpu o z st ≠ Timeout ∧
  free_pages cpu a o st ≠ Timeout ∧ pmm_drain_local_pcp_caches cpu st ≠ Timeout.
Proof.
  intros Ho. split_and!.
  - unfold init_regions. cbv zeta. do 2 (case_match; [done|]). apply halts_free_regions.
  - by apply halts_alloc_pages.
  - by apply halts_alloc_zone.
  - by apply halts_free_pages.
  - apply halts_drain_lists. repeat constructor; simpl; lia.
Qed.

(** The broken state is one where every descriptor is missing. *)
Lemma pmm_terminates_witness :
  init_regions 0 [Region 4294967295 4294967295 PMM_REGION_AVAILABLE] [Reserved 4294967295 2] 0 ≠ Timeout ∧
  alloc_pages 0 3 (PmmState (empty_pmm 5) (λ _, [])) ≠ Timeout.
Proof.
  destruct (pmm_terminates 0 [Region 4294967295 4294967295 PMM_REGION_AVAILABLE] [Reserved 4294967295 2] 0 3 0 0
    (PmmState (empty_pmm 5) (λ _, []))) as (H1 & H2 & _); [lia|]. exact (conj H1 H2).
Defined.

(** ** The zone of a block *)

Lemma dma_first_normal n cpu o s s2 b U X :
  0 ≤ cpu < 32 → heap_inv U s X → 0 ≤ o ≤ PMM_MAX_ORDER →
  alloc_pages_zone_unlocked cpu o PMM_ZONE_DMA s = Ok (0, s) →
  alloc_pages_zone_unlocked cpu o PMM_ZONE_NORMAL s = Ok (b, s2) → b ≠ 0 →
  k_dma_limit ≤ b ∧ ∃ rest s', alloc_pages_batch cpu o PMM_ZONE_DMA (S n) s = Ok (b :: rest, s').
Proof.
  intros Hcpu Hinv Ho Hd Hn Hb.
  destruct (heap_alloc U cpu s X o PMM_ZONE_NORMAL Hcpu Hinv Ho ltac:(done)) as [[E _]|(p & s' & E & Hp & Hz & Hinv' & _)].
  { rewrite Hn in E. by injection E. }
  assert (b = addr p) as -> by congruence. assert (s' = s2) as -> by congruence. split.
  { unfold zone_of in Hz. case_match eqn:Hlt; [done|]. bool_simpl. unfold addr, PAGE_SIZE, k_dma_limit. lia. }
  destruct (heap_alloc_up_to U n cpu s2 _ o PMM_ZONE_NORMAL Hcpu Hinv' Ho ltac:(done)) as (ps & s3 & Hps & _).
  exists (addr <$> ps), s3. unfold alloc_pages_batch. destruct (_ || _) eqn:Ec; [apply orb_true_iff in Ec as [Ec|Ec]; bool_simpl; lia|]. clear Ec.
  change (if PMM_ZONE_COUNT <=? PMM_ZONE_DMA then _ else _) with PMM_ZONE_DMA. cbv zeta.
  change (if PMM_ZONE_DMA =? _ then _ else _) with PMM_ZONE_NORMAL. cbn [alloc_up_to]. rewrite Hd. simpl.
  rewrite Hn. simpl. by rewrite addr_ne, Hps by done.
Qed.

(** A request for DMA memory of up to 8 pages that finds the DMA zone empty
    is served from the other zone, above 16 MiB, while larger requests fail. *)
Theorem pmm_dma_falls_back U cpu o st X b s2 :
  0 ≤ cpu < 32 → state_inv U st X → 0 ≤ o ≤ PMM_MAX_ORDER → pcp st (cpu, PMM_ZONE_DMA, o) = [] →
  alloc_pages_zone_unlocked cpu o PMM_ZONE_DMA (buddy st) = Ok (0, buddy st) →
  alloc_pages_zone_unlocked cpu o PMM_ZONE_NORMAL (buddy st) = Ok (b, s2) → b ≠ 0 →
  if o <=? k_pcp_max_order
  then k_dma_limit ≤ b ∧ ∃ st', alloc_pages_zone cpu o PMM_ZONE_DMA st = Ok (b, st')
  else alloc_pages_zone cpu o PMM_ZONE_DMA st = Ok (0, st).
Proof.
  intros Hcpu (C & _ & Hinv) Ho Hc Hd Hn Hb. unfold alloc_pages_zone. destruct (o <=? k_pcp_max_order) eqn:E; bool_simpl.
  - assert (∃ n, pcp_refill_batch o = S n) as [n Hr].
    { unfold k_pcp_max_order in E. assert (o = 0 ∨ o = 1 ∨ o = 2 ∨ o = 3) as Hcase by lia.
      destruct Hcase as [->|[->|[->| ->]]]; by eexists. }
    destruct (dma_first_normal n cpu o (buddy st) s2 b _ _ Hcpu Hinv Ho Hd Hn Hb) as (Hlim & rest & s' & Hal). split; [done|].
    simpl. unfold pcp_alloc_from_cache. rewrite Hc, Hr, Hal. by eexists.
  - simpl. unfold lift. rewrite Hd. simpl. by destruct st.
Qed.

(** *** Instances *)

(** 16 pages, all in use, the first two by the kernel. *)
Definition used_state : pmm := init_used_pages 16 8192 (empty_pmm 16).

Lemma used_state_inv : buddy_inv used_state (singles 2 16).
Proof. apply (init_state_ok 2 16); lia. Qed.

Lemma singles_no_hand m total : no_hand (singles m total).
Proof. intros p o [_ ?]%singles_lookup. done. Qed.

Lemma singles_good_shape m total : good_shape (singles m total).
Proof.
  split.
  - intros q k [_ ->]%singles_lookup. apply Z.divide_1_l.
  - intros q k [_ ?]%singles_lookup. done.
Qed.

Lemma buddy_equivalence_witness :
  (∃ a s' B', alloc_pages_zone_unlocked 0 1 PMM_ZONE_DMA used_state = Ok (a, s') ∧
    alloc_rel (singles 2 16) PMM_ZONE_DMA 1 a B' ∧ buddy_inv s' B') ∧
  (∃ s', free_pages_unlocked 0 (addr 5) 0 used_state = Ok s' ∧ buddy_inv s' (free_block (singles 2 16) 5 0)).
Proof.
  apply (buddy_equivalence 0 used_state (singles 2 16) 1 PMM_ZONE_DMA 5 0);
    [apply used_state_inv|apply singles_no_hand|unfold PMM_MAX_ORDER; lia|done|by apply singles_lookup].
Defined.

Lemma buddy_keeps_shape_witness :
  ∃ s' B', free_pages_unlocked 0 (addr 5) 0 used_state = Ok s' ∧ buddy_inv s' B' ∧ good_shape B'.
Proof.
  destruct (buddy_keeps_shape 0 used_state (singles 2 16) 1 PMM_ZONE_DMA 5 0) as [_ H];
    [apply used_state_inv|apply singles_no_hand|apply singles_good_shape|unfold PMM_MAX_ORDER; lia|done|by apply singles_lookup|].
  exact H.
Defined.

(** Memory above 16 MiB only. *)
Definition high_map : list region := [Region 16777216 65536 PMM_REGION_AVAILABLE].

Lemma high_map_ok : map_ok high_map 65536.
Proof.
  split; [apply Forall_singleton; by unfold region_ok|]. split; [|done].
  split; [|done]. intros r' b Hr. by apply not_elem_of_nil in Hr.
Qed.

Lemma high_map_zones :
  (s ← init_regions 0 high_map [] 65536;
   d ← alloc_pages_zone_unlocked 0 2 PMM_ZONE_DMA s; n ← alloc_pages_zone_unlocked 0 2 PMM_ZONE_NORMAL s; Ok (d.1, n.1))
  = Ok (0, 16777216).
Proof. by vm_compute. Qed.

Lemma refusal_keeps U cpu o z st X s' :
  0 ≤ cpu < 32 → state_inv U st X → 0 ≤ o ≤ PMM_MAX_ORDER → 0 ≤ z < PMM_ZONE_COUNT →
  alloc_pages_zone_unlocked cpu o z (buddy st) = Ok (0, s') → s' = buddy st.
Proof.
  intros Hcpu (C & _ & Hh) Ho Hz Ha.
  destruct (heap_alloc _ cpu _ _ o z Hcpu Hh Ho Hz) as [[E _]|(p & s2 & E & Hp & _)]; [congruence|].
  pose proof (addr_ne p Hp) as Hne. assert (addr p = 0) as Hp0 by congruence. by rewrite Hp0 in Hne.
Qed.

Lemma pmm_dma_falls_back_witness :
  ∃ s st', init_regions 0 high_map [] 65536 = Ok s ∧ alloc_pages_zone 0 2 PMM_ZONE_DMA (PmmState s (λ _, [])) = Ok (16777216, st').
Proof.
  assert (0 ≤ 0 < 32) as Hc by lia. assert (0 ≤ 2 ≤ PMM_MAX_ORDER) as Ho by (unfold PMM_MAX_ORDER; lia).
  assert (0 ≤ PMM_ZONE_DMA < PMM_ZONE_COUNT) as Hd by done. assert (16777216 ≠ 0) as Hn by lia.
  destruct high_map_ok as (H1 & H2 & H3 & H4). destruct (init_boot 0 high_map [] 65536 ltac:(lia) H1 H2 H3 H4) as (s & Hs & _ & Hb).
  pose proof high_map_zones as Hz. rewrite Hs in Hz. cbn [mbind res_bind] in Hz.
  pose proof (boot_system_inv _ _ _ Hb) as Hinv. unfold system_inv in Hinv. cbn [owned boot_system mgr] in Hinv.
  destruct (alloc_pages_zone_unlocked 0 2 PMM_ZONE_DMA s) as [[d sd]| | |] eqn:Ed; try discriminate Hz. cbn [mbind res_bind] in Hz.
  destruct (alloc_pages_zone_unlocked 0 2 PMM_ZONE_NORMAL s) as [[n sn]| | |] eqn:En; try discriminate Hz. cbn [mbind res_bind fst] in Hz.
  assert (d = 0) as -> by congruence. assert (n = 16777216) as -> by congruence.
  pose proof (refusal_keeps _ 0 2 PMM_ZONE_DMA _ _ _ Hc Hinv Ho Hd Ed) as E. cbn [buddy] in E. subst sd.
  destruct (pmm_dma_falls_back _ 0 2 (PmmState s (λ _, [])) _ 16777216 sn Hc Hinv Ho eq_refl Ed En Hn)
    as (_ & st' & Hst). exists s, st'. exact (conj Hs Hst).
Defined.

Lemma pmm_top_of_memory_witness :
  free_region 0 0 [] (Region 4294901760 65536 PMM_REGION_AVAILABLE) used_state = Ok used_state ∧
  range_is_reserved 4294963200 4294963200 [Reserved 4294963200 4096] = false.
Proof.
  destruct (pmm_top_of_memory 0 0 used_state [] (Region 4294901760 65536 PMM_REGION_AVAILABLE) 4294963200 4096 4294963200 4294963200)
    as (H1 & _ & H2); [simpl; lia..|]. exact (conj H1 H2).
Defined.
