(* ===== verification/Bdev.v ===== *)
(** * The disk under the block cache

    The bounds checks of [src/src/drivers/block/bdev.c] and the 4096-byte
    transfers of [DiskIo] in [src/src/fs/bcache.cpp].  The driver behind them is
    a parameter, the class [BlockOps]; [ReliableDisk] is what is asked of one
    that works, and a disk held in memory is an instance of it. *)

From S2P Require Import Prelude.

Definition SECTOR_SIZE : Z := 512.
Definition SECTORS_PER_BLK : Z := 8.

(** The contents of a 4096-byte buffer. *)
Notation buffer := (list Z).


(** A block device and the transfers its driver offers; [None] is failure. *)
Class BlockOps (D : Type) := {
  sector_size : D → Z;
  sector_count : D → Z;
  read_sectors : D → Z → Z → option (list Z);
  write_sectors : D → Z → Z → list Z → option D;
}.

Section Bdev.
Context `{BlockOps D}.

Definition bdev_check_bounds (dev : D) (lba count : Z) : bool :=
  if count =? 0 then true
  else
    let end_ := u64 (lba + count) in
    if (end_ <? lba) || (sector_count dev <? end_) then false else true.

Definition bdev_read_sectors (dev : D) (lba count : Z) : option (list Z) :=
  if negb (bdev_check_bounds dev lba count) then None else read_sectors dev lba count.

Definition bdev_write_sectors (dev : D) (lba count : Z) (buf : list Z) : option D :=
  if negb (bdev_check_bounds dev lba count) then None else write_sectors dev lba count buf.

(** [DiskIo::try_read_4k]; [None] as a device is [g_bcache_bdev == nullptr]. *)
Definition try_read_4k (dev : option D) (block_idx : Z) : option buffer :=
  match dev with
  | None => None
  | Some d =>
      if negb (sector_size d =? SECTOR_SIZE) then None
      else
        let start_lba := u64 (block_idx * SECTORS_PER_BLK) in
        if 4294967295 <? start_lba then None else bdev_read_sectors d start_lba SECTORS_PER_BLK
  end.

(** [DiskIo::try_write_4k] *)
Definition try_write_4k (dev : option D) (block_idx : Z) (buf : buffer) : option D :=
  match dev with
  | None => None
  | Some d =>
      if negb (sector_size d =? SECTOR_SIZE) then None
      else
        let start_lba := u64 (block_idx * SECTORS_PER_BLK) in
        if 4294967295 <? start_lba then None else bdev_write_sectors d start_lba SECTORS_PER_BLK buf
  end.

(** [DiskIo::read_4k]: a failed transfer leaves the buffer as it was. *)
Definition read_4k (dev : option D) (block_idx : Z) (buf : option buffer) : option buffer :=
  match try_read_4k dev block_idx with Some v => Some v | None => buf end.

(** [DiskIo::write_4k]: a failure is ignored. *)
Definition write_4k (dev : option D) (block_idx : Z) (buf : buffer) : option D :=
  match try_write_4k dev block_idx buf with Some d => Some d | None => dev end.

End Bdev.

(** ** A disk that works *)

(** Transfers inside the disk succeed, a read returns what was last written
    there, and a write touches no other sector. *)
Class ReliableDisk (D : Type) `{BlockOps D} := {
  reliable : D → Prop;
  read_reliable d lba n : reliable d → 0 ≤ lba → 0 < n → lba + n ≤ sector_count d →
    ∃ v, read_sectors d lba n = Some v ∧ Z.of_nat (length v) = n * SECTOR_SIZE;
  write_reliable d lba n v : reliable d → 0 ≤ lba → 0 < n → lba + n ≤ sector_count d →
    Z.of_nat (length v) = n * SECTOR_SIZE →
    ∃ d', write_sectors d lba n v = Some d' ∧ reliable d' ∧
      sector_count d' = sector_count d ∧ sector_size d' = sector_size d ∧
      read_sectors d' lba n = Some v ∧
      (∀ lba' n', 0 ≤ n' → lba' + n' ≤ lba ∨ lba + n ≤ lba' → read_sectors d' lba' n' = read_sectors d lba' n');
}.

Section Laws.
Context `{RD : ReliableDisk D}.

(** The blocks of the disk that [DiskIo] can address. *)
Definition in_disk (d : D) (b : Z) : Prop := 0 ≤ b ∧ b * 8 ≤ 4294967295 ∧ b * 8 + 8 ≤ sector_count d.

Definition disk_ok (dev : option D) : Prop := ∃ d, dev = Some d ∧ reliable d ∧ sector_size d = SECTOR_SIZE.

Definition in_dev (dev : option D) (b : Z) : Prop := ∃ d, dev = Some d ∧ in_disk d b.

#[export] Instance in_dev_dec dev b : Decision (in_dev dev b).
Proof.
  destruct dev as [d|]; [|right; by intros (d & ? & _)].
  destruct (decide (0 ≤ b ∧ b * 8 ≤ 4294967295 ∧ b * 8 + 8 ≤ sector_count d)) as [H1|H1]; [left; by exists d|].
  right. intros (d' & [= <-] & H2). by apply H1.
Qed.

Lemma u64_small z : 0 ≤ z < 18446744073709551616 → u64 z = z.
Proof. intros. unfold u64. by rewrite Z.mod_small. Qed.

Lemma check_bounds_in d b : in_disk d b → bdev_check_bounds d (u64 (b * SECTORS_PER_BLK)) SECTORS_PER_BLK = true.
Proof.
  intros (H0 & H1 & H2). unfold bdev_check_bounds, SECTORS_PER_BLK.
  rewrite !u64_small by (rewrite ?u64_small; lia). change (8 =? 0) with false. cbv beta iota zeta.
  case_if; bool_lia.
Qed.

Lemma try_read_in d b :
  reliable d → sector_size d = SECTOR_SIZE → in_disk d b →
  try_read_4k (Some d) b = read_sectors d (b * 8) 8 ∧
  ∃ v, read_sectors d (b * 8) 8 = Some v ∧ length v = 4096%nat.
Proof.
  intros Hr Hs Hin. pose proof Hin as (H0 & H1 & H2). split.
  - unfold try_read_4k, bdev_read_sectors. rewrite Hs, Z.eqb_refl, check_bounds_in by done.
    unfold SECTORS_PER_BLK. rewrite u64_small by lia. simpl. case_if; [lia|done].
  - destruct (read_reliable d (b * 8) 8) as (v & Hv & Hl); [done|lia..|].
    exists v. split; [done|]. unfold SECTOR_SIZE in Hl. lia.
Qed.

Lemma read_in dev b : disk_ok dev → in_dev dev b → ∃ v, try_read_4k dev b = Some v ∧ length v = 4096%nat.
Proof.
  intros (d & -> & Hr & Hs) (d' & [= <-] & Hin).
  destruct (try_read_in d b Hr Hs Hin) as (-> & v & ? & ?). eauto.
Qed.

(** Writing a block of the disk: it is read back, the other blocks are as before. *)
Lemma write_in dev b v :
  disk_ok dev → in_dev dev b → length v = 4096%nat →
  disk_ok (write_4k dev b v) ∧ (∀ c, in_dev (write_4k dev b v) c ↔ in_dev dev c) ∧
  (∀ c, in_dev dev c → try_read_4k (write_4k dev b v) c = if decide (c = b) then Some v else try_read_4k dev c).
Proof.
  intros (d & -> & Hr & Hs) (d' & [= <-] & Hin) Hl. pose proof Hin as (H0 & H1 & H2).
  destruct (write_reliable d (b * 8) 8 v) as (d' & Hw & Hr' & Hc' & Hs' & Hv & Hne); [done|lia..|unfold SECTOR_SIZE; lia|].
  assert (write_4k (Some d) b v = Some d') as ->.
  { unfold write_4k, try_write_4k, bdev_write_sectors. rewrite Hs, Z.eqb_refl, check_bounds_in by done.
    unfold SECTORS_PER_BLK. rewrite u64_small by lia. simpl. case_if; [lia|]. by rewrite Hw. }
  split_and!.
  - exists d'. split_and!; congruence.
  - intros c. unfold in_dev, in_disk. split; intros (e & [= <-] & Hc); eexists; (split; [done|]); by rewrite ?Hc' in *.
  - intros c (? & [= <-] & Hc). assert (in_disk d' c) as Hc2 by (unfold in_disk; by rewrite Hc').
    destruct (try_read_in d' c) as [-> _]; [congruence..|].
    destruct (try_read_in d c) as [-> _]; [done..|].
    destruct (decide (c = b)) as [->|Hcb]; [done|]. apply Hne; lia.
Qed.

(** A write outside the disk changes nothing. *)
Lemma write_out dev b v : disk_ok dev → 0 ≤ b < 4294967296 → ¬ in_dev dev b → write_4k dev b v = dev.
Proof.
  intros (d & -> & Hr & Hs) Hb Hin. unfold write_4k, try_write_4k, bdev_write_sectors, bdev_check_bounds, SECTORS_PER_BLK.
  rewrite Hs, Z.eqb_refl, !u64_small by (rewrite ?u64_small; lia). change (8 =? 0) with false. cbv beta iota zeta. simpl.
  case_if; [done|]. case_if; [done|]. exfalso. apply Hin. exists d. split; [done|]. unfold in_disk.
  revert E0. case_if; [done|]. intros _. bool_simpl. lia.
Qed.
End Laws.

(** ** A disk in memory *)

(** Sectors that were never written are zero; the two switches make transfers fail. *)
Record ramdisk := RamDisk { rd_sectors : gmap Z (list Z); rd_count : Z; rd_read_ok : bool; rd_write_ok : bool }.

Definition rd_sector (m : gmap Z (list Z)) (i : Z) : list Z := default (replicate 512 0) (m !! i).

Fixpoint rd_read (m : gmap Z (list Z)) (lba : Z) (n : nat) : list Z :=
  match n with O => [] | S n => rd_sector m lba ++ rd_read m (lba + 1) n end.

Fixpoint rd_write (m : gmap Z (list Z)) (lba : Z) (n : nat) (v : list Z) : gmap Z (list Z) :=
  match n with O => m | S n => <[lba := take 512 v]> (rd_write m (lba + 1) n (drop 512 v)) end.

#[export] Instance ramdisk_ops : BlockOps ramdisk := {|
  sector_size _ := SECTOR_SIZE;
  sector_count := rd_count;
  read_sectors d lba n := if rd_read_ok d then Some (rd_read (rd_sectors d) lba (Z.to_nat n)) else None;
  write_sectors d lba n v :=
    if rd_write_ok d then
      Some (RamDisk (rd_write (rd_sectors d) lba (Z.to_nat n) v) (rd_count d) (rd_read_ok d) (rd_write_ok d))
    else None;
|}.

Definition sectors_ok (m : gmap Z (list Z)) : Prop := map_Forall (λ _ v, length v = 512%nat) m.

Lemma rd_sector_length m i : sectors_ok m → length (rd_sector m i) = 512%nat.
Proof. intros Hm. unfold rd_sector. destruct (m !! i) eqn:E; [by apply (Hm i)|done]. Qed.

Lemma rd_read_length m lba n : sectors_ok m → length (rd_read m lba n) = (n * 512)%nat.
Proof. intros Hm. revert lba. induction n as [|n IH]; intros lba; simpl; [done|]. rewrite length_app, rd_sector_length, IH by done. lia. Qed.

Lemma rd_write_ok_sectors m lba n v : sectors_ok m → length v = (n * 512)%nat → sectors_ok (rd_write m lba n v).
Proof.
  intros Hm. revert lba v. induction n as [|n IH]; intros lba v Hv; simpl; [done|].
  apply map_Forall_insert_2; [rewrite length_take; lia|]. apply IH. rewrite length_drop. lia.
Qed.

Lemma rd_write_lookup_lt m lba n v i : i < lba → rd_write m lba n v !! i = m !! i.
Proof.
  revert lba v. induction n as [|n IH]; intros lba v Hi; simpl; [done|].
  rewrite lookup_insert_ne by lia. apply IH. lia.
Qed.

Lemma rd_write_lookup_ge m lba n v i : lba + Z.of_nat n ≤ i → rd_write m lba n v !! i = m !! i.
Proof.
  revert lba v. induction n as [|n IH]; intros lba v Hi; simpl; [done|].
  rewrite lookup_insert_ne by lia. apply IH. lia.
Qed.

Lemma rd_read_ext m m' lba n : (∀ i, lba ≤ i < lba + Z.of_nat n → m !! i = m' !! i) → rd_read m lba n = rd_read m' lba n.
Proof.
  revert lba. induction n as [|n IH]; intros lba Hi; simpl; [done|]. unfold rd_sector.
  rewrite (Hi lba) by lia. f_equal. apply IH. intros i Hi'. apply Hi. lia.
Qed.

Lemma rd_read_write m lba n v : length v = (n * 512)%nat → rd_read (rd_write m lba n v) lba n = v.
Proof.
  revert lba v. induction n as [|n IH]; intros lba v Hv; simpl.
  - by destruct v.
  - unfold rd_sector at 1. rewrite lookup_insert_eq. simpl.
    rewrite (rd_read_ext _ (rd_write m (lba + 1) n (drop 512 v))).
    2:{ intros i Hi. apply lookup_insert_ne. lia. }
    rewrite IH by (rewrite length_drop; lia). apply take_drop.
Qed.

#[export] Program Instance ramdisk_reliable : ReliableDisk ramdisk := {|
  reliable d := rd_read_ok d = true ∧ rd_write_ok d = true ∧ sectors_ok (rd_sectors d);
|}.
Next Obligation.
  intros d lba n (Hr & Hw & Hs) H0 H1 H2. simpl in *. rewrite Hr. eexists. split; [done|].
  rewrite rd_read_length by done. unfold SECTOR_SIZE. lia.
Qed.
Next Obligation.
  intros d lba n v (Hr & Hw & Hs) H0 H1 H2 Hl. simpl in *. rewrite Hw. unfold SECTOR_SIZE in Hl.
  assert (length v = (Z.to_nat n * 512)%nat) as Hl' by lia.
  eexists. split; [done|]. simpl. rewrite Hr. split_and!; try done.
  - by apply rd_write_ok_sectors.
  - by rewrite rd_read_write.
  - intros lba' n' Hn' Hd. f_equal. apply rd_read_ext. intros i Hi.
    destruct Hd; [apply rd_write_lookup_lt|apply rd_write_lookup_ge]; lia.
Qed.
