(* ===== verification/Bcache.v ===== *)
(** * The block cache: [src/src/fs/bcache.cpp]

    The shards with their hash map, CLOCK ring and dirty list, the reference
    counted entries, the per-CPU hot caches, the prefetch ring and the public
    operations.  A call runs to completion before the next one starts, on any
    CPU; the prefetch worker runs between calls, and inside a call that waits
    for one of its transfers.  Entries live in [heap] under their address: an
    access to a freed one is [Fault].  The shard map is a finite map whose
    insertion may run out of memory, the circular CLOCK list is read from
    [clock_hand] on, and the three oracles [mem_*] say which allocations of an
    entry, of its data page and of a map node succeed (the exhausted oracle
    says yes). *)

From S2P Require Import Prelude Bdev.

Definition BLOCK_SIZE : Z := 4096.
Definition BCACHE_SHARDS : Z := 64.
Definition HOT_SLOTS : Z := 64.
Definition PREFETCH_QUEUE_CAP : Z := 128.
Definition MAX_CPUS : Z := 32.

Definition k_flag_valid : Z := Z.shiftl 1 0.
Definition k_flag_dirty : Z := Z.shiftl 1 1.
Definition k_flag_io_inflight : Z := Z.shiftl 1 2.
Definition k_flag_evicting : Z := Z.shiftl 1 3.
Definition k_flag_accessed : Z := Z.shiftl 1 4.
Definition k_flag_on_dirty_list : Z := Z.shiftl 1 5.

(** [(f & m) != 0u] *)
Definition has (f m : Z) : bool := negb (Z.land f m =? 0).

(** ** State *)

(** [edata] is [None] while the page has never been written. *)
Record entry := Entry {
  block_idx : Z; refcnt : Z; eflags : Z; io_done : bool; edata : option buffer }.

Record shard := Shard {
  map : gmap Z Z; clock : list Z; dirty_list : list Z; entries : Z; max_entries : Z }.

Record prefetch_queue := PrefetchQueue { items : gmap Z Z; head : Z; tail : Z; count : Z }.

(** [hot]: the slot of each CPU, absent when its entry is null. *)
Record bcache (D : Type) := Bcache {
  heap : gmap Z entry; brk : Z; shards : gmap Z shard; hot : gmap (Z * Z) (Z * Z);
  prefetch : prefetch_queue; prefetch_started : bool; bdev : option D;
  mem_entry : list bool; mem_data : list bool; mem_node : list bool }.
#[global] Arguments Bcache {D}.
#[global] Arguments heap {D}. #[global] Arguments brk {D}. #[global] Arguments shards {D}.
#[global] Arguments hot {D}. #[global] Arguments prefetch {D}. #[global] Arguments prefetch_started {D}.
#[global] Arguments bdev {D}. #[global] Arguments mem_entry {D}. #[global] Arguments mem_data {D}.
#[global] Arguments mem_node {D}.

Definition evicting (e : entry) : bool := has (eflags e) k_flag_evicting.
Definition dirty (e : entry) : bool := has (eflags e) k_flag_dirty.
Definition inflight (e : entry) : bool := has (eflags e) k_flag_io_inflight.
Definition accessed (e : entry) : bool := has (eflags e) k_flag_accessed.
Definition on_dirty_list (e : entry) : bool := has (eflags e) k_flag_on_dirty_list.

(** Stores to the fields of an entry; [fetch_and(~m)] is [Z.ldiff _ m]. *)
Definition set_refcnt (r : Z) (e : entry) : entry := Entry (block_idx e) r (eflags e) (io_done e) (edata e).
Definition set_flags (f : Z) (e : entry) : entry := Entry (block_idx e) (refcnt e) f (io_done e) (edata e).
Definition flags_or (m : Z) (e : entry) : entry := set_flags (Z.lor (eflags e) m) e.
Definition flags_clear (m : Z) (e : entry) : entry := set_flags (Z.ldiff (eflags e) m) e.
Definition set_data (d : option buffer) (e : entry) : entry := Entry (block_idx e) (refcnt e) (eflags e) (io_done e) d.
Definition set_io_done (b : bool) (e : entry) : entry := Entry (block_idx e) (refcnt e) (eflags e) b (edata e).

Definition hash (value : Z) : Z :=
  let x := value in
  let x := Z.lxor x (Z.shiftr x 16) in
  let x := u32 (x * 0x7feb352d) in
  let x := Z.lxor x (Z.shiftr x 15) in
  let x := u32 (x * 0x846ca68b) in
  Z.lxor x (Z.shiftr x 16).

Definition index_for (block_idx : Z) : Z := Z.land (hash block_idx) (BCACHE_SHARDS - 1).
Definition slot_index_for (block_idx : Z) : Z := Z.land (hash block_idx) (HOT_SLOTS - 1).

Section Bcache.
Context `{BlockOps D}.
Implicit Types (s : bcache D).

Definition with_heap (h : gmap Z entry) s : bcache D :=
  Bcache h (brk s) (shards s) (hot s) (prefetch s) (prefetch_started s) (bdev s) (mem_entry s) (mem_data s) (mem_node s).
Definition with_brk (b : Z) s : bcache D :=
  Bcache (heap s) b (shards s) (hot s) (prefetch s) (prefetch_started s) (bdev s) (mem_entry s) (mem_data s) (mem_node s).
Definition with_shards (m : gmap Z shard) s : bcache D :=
  Bcache (heap s) (brk s) m (hot s) (prefetch s) (prefetch_started s) (bdev s) (mem_entry s) (mem_data s) (mem_node s).
Definition with_hot (h : gmap (Z * Z) (Z * Z)) s : bcache D :=
  Bcache (heap s) (brk s) (shards s) h (prefetch s) (prefetch_started s) (bdev s) (mem_entry s) (mem_data s) (mem_node s).
Definition with_prefetch (q : prefetch_queue) s : bcache D :=
  Bcache (heap s) (brk s) (shards s) (hot s) q (prefetch_started s) (bdev s) (mem_entry s) (mem_data s) (mem_node s).
Definition with_started (b : bool) s : bcache D :=
  Bcache (heap s) (brk s) (shards s) (hot s) (prefetch s) b (bdev s) (mem_entry s) (mem_data s) (mem_node s).
Definition with_bdev (d : option D) s : bcache D :=
  Bcache (heap s) (brk s) (shards s) (hot s) (prefetch s) (prefetch_started s) d (mem_entry s) (mem_data s) (mem_node s).
Definition with_mem (l1 l2 l3 : list bool) s : bcache D :=
  Bcache (heap s) (brk s) (shards s) (hot s) (prefetch s) (prefetch_started s) (bdev s) l1 l2 l3.

(** The next answer of an allocator. *)
Definition answer (l : list bool) : bool := match l with [] => true | b :: _ => b end.

Definition entry_at s (p : Z) : res entry := match heap s !! p with Some e => Ok e | None => Fault end.
Definition upd_entry (f : entry → entry) (p : Z) s : res (bcache D) :=
  e ← entry_at s p; Ok (with_heap (<[p := f e]> (heap s)) s).
Definition shard_at s (i : Z) : res shard := match shards s !! i with Some sh => Ok sh | None => Fault end.
Definition upd_shard (f : shard → shard) (i : Z) s : res (bcache D) :=
  sh ← shard_at s i; Ok (with_shards (<[i := f sh]> (shards s)) s).

Definition set_map (m : gmap Z Z) (sh : shard) : shard := Shard m (clock sh) (dirty_list sh) (entries sh) (max_entries sh).
Definition set_clock (l : list Z) (sh : shard) : shard := Shard (map sh) l (dirty_list sh) (entries sh) (max_entries sh).
Definition set_dirty_list (l : list Z) (sh : shard) : shard := Shard (map sh) (clock sh) l (entries sh) (max_entries sh).
Definition set_entries (n : Z) (sh : shard) : shard := Shard (map sh) (clock sh) (dirty_list sh) (u32 n) (max_entries sh).

(** ** Entries *)

Definition get (p : Z) s : res (bcache D) := upd_entry (λ e, set_refcnt (u32 (refcnt e + 1)) e) p s.

(** [free_self]: the data page and the entry go back to their allocators. *)
Definition free_self (p : Z) s : res (bcache D) := Ok (with_heap (delete p (heap s)) s).

Definition put (p : Z) s : res (bcache D) :=
  e ← entry_at s p;
  let prev := refcnt e in
  s ← upd_entry (λ e, set_refcnt (u32 (refcnt e - 1)) e) p s;
  if negb (prev =? 1) then Ok s
  else if negb (evicting e) then Ok s
  else free_self p s.

Definition try_get_not_evicting (p : Z) s : res (bool * bcache D) :=
  e ← entry_at s p;
  if evicting e then Ok (false, s)
  else
    s ← get p s;
    e ← entry_at s p;
    if evicting e then s ← put p s; Ok (false, s)
    else Ok (true, s).

(** ** The hot caches *)

(** [HotCache::cpu_index], [cpu] being the index of [cpu_current()] *)
Definition cpu_index (cpu : Z) : Z := if (cpu <? 0) || (MAX_CPUS <=? cpu) then -1 else cpu.

Definition hot_try_get (cpu block : Z) s : res (option Z * bcache D) :=
  let cpu_idx := cpu_index cpu in
  if cpu_idx <? 0 then Ok (None, s)
  else
    match hot s !! (cpu_idx, slot_index_for block) with
    | None => Ok (None, s)
    | Some (b, p) => if negb (b =? block) then Ok (None, s) else s ← get p s; Ok (Some p, s)
    end.

(** [PerCpuHotCache::put] *)
Definition hot_put_cpu (cpu_idx block p : Z) s : res (bcache D) :=
  let slot := (cpu_idx, slot_index_for block) in
  r ← try_get_not_evicting p s;
  if negb r.1 then Ok r.2
  else
    let s := r.2 in
    let old := hot s !! slot in
    let s := with_hot (<[slot := (block, p)]> (hot s)) s in
    match old with None => Ok s | Some (_, q) => put q s end.

(** [HotCache::put] *)
Definition hot_put (cpu block p : Z) s : res (bcache D) :=
  e ← entry_at s p;
  if evicting e then Ok s
  else
    let cpu_idx := cpu_index cpu in
    if cpu_idx <? 0 then Ok s else hot_put_cpu cpu_idx block p s.

(** ** The prefetch ring *)

Definition try_push (p : Z) s : bool * bcache D :=
  let q := prefetch s in
  if count q =? PREFETCH_QUEUE_CAP then (false, s)
  else
    (true, with_prefetch
             (PrefetchQueue (<[tail q := p]> (items q)) (head q) (u32 (tail q + 1) `mod` PREFETCH_QUEUE_CAP)
                (u32 (count q + 1))) s).

(** The second half of [pop_blocking]: what it does once the semaphore let it in. *)
Definition pop s : option Z * bcache D :=
  let q := prefetch s in
  if count q =? 0 then (None, s)
  else
    (items q !! head q, with_prefetch
       (PrefetchQueue (delete (head q) (items q)) (u32 (head q + 1) `mod` PREFETCH_QUEUE_CAP) (tail q)
          (u32 (count q - 1))) s).

(** The end of a transfer: valid, accessed, no longer in flight, waiters woken. *)
Definition finish_read (p : Z) s : res (bcache D) :=
  e ← entry_at s p;
  s ← upd_entry (set_data (read_4k (bdev s) (block_idx e) (edata e))) p s;
  s ← upd_entry (flags_or (Z.lor k_flag_valid k_flag_accessed)) p s;
  s ← upd_entry (flags_clear k_flag_io_inflight) p s;
  upd_entry (set_io_done true) p s.

(** One turn of [bcache_prefetch_worker]. *)
Definition prefetch_worker_turn s : res (bcache D) :=
  let '(o, s) := pop s in
  match o with
  | None => Ok s
  | Some p => s ← finish_read p s; put p s
  end.

(** [io_done.wait()]: the worker runs until it has signalled this entry. *)
Fixpoint io_wait (fuel : nat) (p : Z) s : res (bcache D) :=
  e ← entry_at s p;
  if io_done e then Ok s
  else
    match fuel with
    | O => Timeout
    | S fuel => s ← prefetch_worker_turn s; io_wait fuel p s
    end.

(** ** Shards *)

(** [clock_insert_locked]: before the hand, that is at the end of the ring. *)
Definition clock_insert_locked (p : Z) (sh : shard) : shard := set_clock (clock sh ++ [p]) sh.
Definition clock_remove_locked (p : Z) (sh : shard) : shard := set_clock (filter (.≠ p) (clock sh)) sh.

Definition dirty_mark_locked (si p : Z) s : res (bcache D) :=
  e ← entry_at s p;
  if evicting e then Ok s
  else if on_dirty_list e then Ok s
  else
    s ← upd_shard (λ sh, set_dirty_list (dirty_list sh ++ [p]) sh) si s;
    upd_entry (flags_or k_flag_on_dirty_list) p s.

Definition dirty_unmark_locked (si p : Z) s : res (bcache D) :=
  e ← entry_at s p;
  if negb (on_dirty_list e) then Ok s
  else
    s ← upd_shard (λ sh, set_dirty_list (filter (.≠ p) (dirty_list sh)) sh) si s;
    upd_entry (flags_clear k_flag_on_dirty_list) p s.

Record evicted := Evicted { ev_block : Z; ev_entry : Z; ev_dirty : bool; ev_data : option buffer }.

(** The unlinking half of an eviction, once [cand] is marked. *)
Definition evict_unlink (si cand : Z) s : res (evicted * bcache D) :=
  s ← dirty_unmark_locked si cand s;
  e ← entry_at s cand;
  s ← upd_shard (λ sh, set_map (delete (block_idx e) (map sh)) sh) si s;
  s ← upd_shard (clock_remove_locked cand) si s;
  s ← upd_shard (λ sh, set_entries (entries sh - 1) sh) si s;
  if dirty e then
    s ← upd_entry (flags_clear k_flag_dirty) cand s;
    Ok (Evicted (block_idx e) cand true (edata e), s)
  else Ok (Evicted (block_idx e) cand false None, s).

(** The loop of [try_evict_one_locked], [n] turns of it left. *)
Fixpoint try_evict_loop (n : nat) (si : Z) s : res (option evicted * bcache D) :=
  match n with
  | O => Ok (None, s)
  | S n =>
      sh ← shard_at s si;
      match clock sh with
      | [] => Fault
      | cand :: rest =>
          s ← upd_shard (set_clock (rest ++ [cand])) si s;
          e ← entry_at s cand;
          if negb (refcnt e =? 1) then try_evict_loop n si s
          else if accessed e then
            s ← upd_entry (flags_clear k_flag_accessed) cand s;
            try_evict_loop n si s
          else
            s ← upd_entry (flags_or k_flag_evicting) cand s;
            e ← entry_at s cand;
            if negb (refcnt e =? 1) then
              s ← upd_entry (flags_clear k_flag_evicting) cand s;
              try_evict_loop n si s
            else
              r ← evict_unlink si cand s;
              Ok (Some r.1, r.2)
      end
  end.

Definition try_evict_one_locked (si : Z) s : res (option evicted * bcache D) :=
  sh ← shard_at s si;
  match clock sh with
  | [] => Ok (None, s)
  | _ => try_evict_loop (Z.to_nat (u32 (entries sh + 1))) si s
  end.

(** Writing a buffer back; bytes that were never stored must not reach the disk. *)
Definition write_back (block : Z) (data : option buffer) s : res (bcache D) :=
  match data with None => Fault | Some v => Ok (with_bdev (write_4k (bdev s) block v) s) end.

(** What follows an eviction, outside the lock. *)
Definition evict_finish (ev : evicted) s : res (bcache D) :=
  s ← (if ev_dirty ev then write_back (ev_block ev) (ev_data ev) s else Ok s);
  put (ev_entry ev) s.

Fixpoint ensure_space_loop (fuel : nat) (si : Z) s : res (bool * bcache D) :=
  sh ← shard_at s si;
  if (max_entries sh <=? entries sh) && negb (max_entries sh =? 0) then
    match fuel with
    | O => Timeout
    | S fuel =>
        r ← try_evict_one_locked si s;
        match r.1 with
        | None => Ok (false, r.2)
        | Some ev => s ← evict_finish ev r.2; ensure_space_loop fuel si s
        end
    end
  else Ok (true, s).

Definition ensure_space (si : Z) s : res (bool * bcache D) :=
  sh ← shard_at s si;
  ensure_space_loop (S (Z.to_nat (entries sh))) si s.

(** [new (mem) BcacheEntry()] with its first fields, or no memory. *)
Definition new_entry (block flags : Z) s : option Z * bcache D :=
  let s' := with_mem (tl (mem_entry s)) (mem_data s) (mem_node s) s in
  if negb (answer (mem_entry s)) then (None, s')
  else
    let p := brk s in
    (Some p, with_brk (p + 1) (with_heap (<[p := Entry block 2 flags false None]> (heap s)) s')).

(** [kmalloc_a(BLOCK_SIZE)] for the data page. *)
Definition new_data s : bool * bcache D :=
  (answer (mem_data s), with_mem (mem_entry s) (tl (mem_data s)) (mem_node s) s).

(** The exit when there is no data page. *)
Definition drop_entry (p : Z) s : res (bcache D) :=
  s ← upd_entry (flags_or k_flag_evicting) p s;
  s ← upd_entry (set_refcnt 1) p s;
  put p s.

(** [map.insert_or_assign], its result ignored. *)
Definition map_insert_or_assign (si block p : Z) s : res (bcache D) :=
  sh ← shard_at s si;
  match map sh !! block with
  | Some _ => upd_shard (λ sh, set_map (<[block := p]> (map sh)) sh) si s
  | None =>
      let s' := with_mem (mem_entry s) (mem_data s) (tl (mem_node s)) s in
      if negb (answer (mem_node s)) then Ok s'
      else upd_shard (λ sh, set_map (<[block := p]> (map sh)) sh) si s'
  end.

(** The end of both creation paths: map, ring, count. *)
Definition link_entry (si block p : Z) s : res (bcache D) :=
  s ← map_insert_or_assign si block p s;
  s ← upd_shard (clock_insert_locked p) si s;
  upd_shard (λ sh, set_entries (entries sh + 1) sh) si s.

Definition create_readahead_entry (si block : Z) s : res (option Z * bcache D) :=
  sh ← shard_at s si;
  match map sh !! block with
  | Some _ => Ok (None, s)
  | None =>
      r ← ensure_space si s;
      if negb r.1 then Ok (None, r.2)
      else
        let s := r.2 in
        sh ← shard_at s si;
        match map sh !! block with
        | Some _ => Ok (None, s)
        | None =>
            match new_entry block k_flag_io_inflight s with
            | (None, s) => Ok (None, s)
            | (Some p, s) =>
                let '(ok, s) := new_data s in
                if negb ok then s ← drop_entry p s; Ok (None, s)
                else
                  s ← upd_entry (set_io_done false) p s;
                  s ← link_entry si block p s;
                  Ok (Some p, s)
            end
        end
  end.

(** The lookup that starts each phase of [get_or_create]. *)
Definition lookup_live (si block : Z) s : res (option Z * bcache D) :=
  sh ← shard_at s si;
  match map sh !! block with
  | None => Ok (None, s)
  | Some p => r ← try_get_not_evicting p s; Ok (if r.1 : bool then Some p else None, r.2)
  end.

(** [write_buf] is [Some] exactly when [for_write]. *)
Definition get_or_create (si block : Z) (write_buf : option buffer) s : res (option Z * bcache D) :=
  r ← lookup_live si block s;
  if r.1 is Some p then Ok (Some p, r.2)
  else
    r ← ensure_space si r.2;
    if negb r.1 then Ok (None, r.2)
    else
      r ← lookup_live si block r.2;
      if r.1 is Some p then Ok (Some p, r.2)
      else
        let base_flags :=
          if write_buf is Some _ then Z.lor (Z.lor k_flag_valid k_flag_dirty) k_flag_accessed
          else k_flag_io_inflight in
        match new_entry block base_flags r.2 with
        | (None, s) => Ok (None, s)
        | (Some p, s) =>
            let '(ok, s) := new_data s in
            if negb ok then s ← drop_entry p s; Ok (None, s)
            else
              s ← (if write_buf is Some buf then
                     s ← upd_entry (set_data (Some buf)) p s; dirty_mark_locked si p s
                   else upd_entry (set_io_done false) p s);
              s ← link_entry si block p s;
              if write_buf is Some _ then Ok (Some p, s)
              else s ← finish_read p s; Ok (Some p, s)
        end.

(** ** The public operations *)

(** Waiting for a transfer another caller has started. *)
Definition wait_if_inflight (p : Z) s : res (bcache D) :=
  e ← entry_at s p;
  if inflight e then io_wait (Z.to_nat PREFETCH_QUEUE_CAP) p s else Ok s.

(** The result and what the caller's buffer holds: [None] is indeterminate. *)
Definition bcache_read (cpu block : Z) s : res (Z * option buffer * bcache D) :=
  r ← hot_try_get cpu block s;
  if r.1 is Some p then
    e ← entry_at r.2 p;
    s ← upd_entry (flags_or k_flag_accessed) p r.2;
    s ← put p s;
    Ok (1, edata e, s)
  else
    r ← get_or_create (index_for block) block None r.2;
    if r.1 is Some p then
      s ← wait_if_inflight p r.2;
      e ← entry_at s p;
      s ← upd_entry (flags_or k_flag_accessed) p s;
      s ← hot_put cpu block p s;
      s ← put p s;
      Ok (1, edata e, s)
    else
      match try_read_4k (bdev r.2) block with
      | Some v => Ok (1, Some v, r.2)
      | None => Ok (0, None, r.2)
      end.

(** The store of a write: payload, flags, and the dirty list if it was clean. *)
Definition store_dirty (block p : Z) (buf : buffer) s : res (bcache D) :=
  s ← upd_entry (set_data (Some buf)) p s;
  e ← entry_at s p;
  s ← upd_entry (flags_or (Z.lor (Z.lor k_flag_dirty k_flag_valid) k_flag_accessed)) p s;
  if negb (dirty e) then dirty_mark_locked (index_for block) p s else Ok s.

Definition bcache_write (cpu block : Z) (buf : buffer) s : res (Z * bcache D) :=
  r ← hot_try_get cpu block s;
  if r.1 is Some p then
    s ← store_dirty block p buf r.2;
    s ← put p s;
    Ok (1, s)
  else
    r ← get_or_create (index_for block) block (Some buf) r.2;
    if r.1 is Some p then
      s ← wait_if_inflight p r.2;
      s ← store_dirty block p buf s;
      s ← hot_put cpu block p s;
      s ← put p s;
      Ok (1, s)
    else Ok (0, r.2).

(** One turn of the inner loop of [bcache_sync]; [false] when the list is empty. *)
Definition sync_turn (si : Z) s : res (bool * bcache D) :=
  sh ← shard_at s si;
  match dirty_list sh with
  | [] => Ok (false, s)
  | cur :: _ =>
      s ← dirty_unmark_locked si cur s;
      e ← entry_at s cur;
      if negb (dirty e) || evicting e then Ok (true, s)
      else
        s ← get cur s;
        s ← upd_entry (flags_clear k_flag_dirty) cur s;
        s ← write_back (block_idx e) (edata e) s;
        s ← put cur s;
        Ok (true, s)
  end.

Fixpoint sync_shard (fuel : nat) (si : Z) s : res (bcache D) :=
  match fuel with
  | O => Timeout
  | S fuel => r ← sync_turn si s; if r.1 : bool then sync_shard fuel si r.2 else Ok r.2
  end.

Fixpoint sync_shards (l : list Z) s : res (bcache D) :=
  match l with
  | [] => Ok s
  | si :: l => sh ← shard_at s si; s ← sync_shard (S (length (dirty_list sh))) si s; sync_shards l s
  end.

Definition bcache_sync s : res (bcache D) := sync_shards (seqZ 0 BCACHE_SHARDS) s.

Definition bcache_flush_block (block : Z) s : res (bcache D) :=
  let si := index_for block in
  sh ← shard_at s si;
  match map sh !! block with
  | None => Ok s
  | Some p =>
      s ← get p s;
      e ← entry_at s p;
      if negb (dirty e) then put p s
      else
        s ← dirty_unmark_locked si p s;
        s ← upd_entry (flags_clear k_flag_dirty) p s;
        e ← entry_at s p;
        s ← put p s;
        write_back block (edata e) s
  end.

(** [has_proc]: [proc_current()] is not null; [spawned]: the thread was created. *)
Definition ensure_prefetch_worker_started (has_proc spawned : bool) s : bool * bcache D :=
  if prefetch_started s then (true, s)
  else if negb has_proc then (false, s)
  else if negb spawned then (false, s)
  else (true, with_started true s).

(** The ring was full: the new entry is unlinked and dropped. *)
Definition readahead_rollback (p : Z) s : res (bcache D) :=
  e ← entry_at s p;
  let si := index_for (block_idx e) in
  sh ← shard_at s si;
  if bool_decide (map sh !! block_idx e = Some p) then
    s ← upd_entry (flags_or k_flag_evicting) p s;
    s ← upd_shard (λ sh, set_map (delete (block_idx e) (map sh)) sh) si s;
    s ← upd_shard (clock_remove_locked p) si s;
    s ← upd_shard (λ sh, set_entries (entries sh - 1) sh) si s;
    s ← put p s;
    put p s
  else put p s.

Fixpoint readahead_loop (start_block : Z) (l : list Z) s : res (bcache D) :=
  match l with
  | [] => Ok s
  | i :: l =>
      let block := u32 (start_block + i) in
      r ← create_readahead_entry (index_for block) block s;
      s ← match r.1 with
          | None => Ok r.2
          | Some p => match try_push p r.2 with (true, s) => Ok s | (false, s) => readahead_rollback p s end
          end;
      readahead_loop start_block l s
  end.

Definition bcache_readahead (start_block cnt : Z) (has_proc spawned : bool) s : res (bcache D) :=
  if cnt =? 0 then Ok s
  else
    let '(ok, s) := ensure_prefetch_worker_started has_proc spawned s in
    if negb ok then Ok s
    else
      let cnt := if 8 <? cnt then 8 else cnt in
      readahead_loop start_block (seqZ 1 cnt) s.

(** The inner loop of [bcache_shrinker_cb]; [freed] of [target_pages] so far. *)
Fixpoint shrink_shard (fuel : nat) (si target_pages freed : Z) s : res (Z * bcache D) :=
  if negb (freed <? target_pages) then Ok (freed, s)
  else
    match fuel with
    | O => Timeout
    | S fuel =>
        r ← try_evict_one_locked si s;
        match r.1 with
        | None => Ok (freed, r.2)
        | Some ev => s ← evict_finish ev r.2; shrink_shard fuel si target_pages (freed + 1) s
        end
    end.

Fixpoint shrink_shards (l : list Z) (target_pages freed : Z) s : res (Z * bcache D) :=
  match l with
  | [] => Ok (freed, s)
  | si :: l =>
      if negb (freed <? target_pages) then Ok (freed, s)
      else
        sh ← shard_at s si;
        r ← shrink_shard (S (Z.to_nat (entries sh))) si target_pages freed s;
        shrink_shards l target_pages r.1 r.2
  end.

Definition bcache_shrinker_cb (target_pages : Z) s : res (Z * bcache D) :=
  shrink_shards (seqZ 0 BCACHE_SHARDS) target_pages 0 s.

(** The number of entries of each shard, from the pages of RAM. *)
Definition per_shard (total_blocks : Z) : Z :=
  let target_bytes := u64 (total_blocks * BLOCK_SIZE) / 50 in
  let target_entries := target_bytes / BLOCK_SIZE in
  let target_entries := if target_entries <? BCACHE_SHARDS then BCACHE_SHARDS else target_entries in
  let target_entries := target_entries - target_entries `mod` BCACHE_SHARDS in
  u32 (target_entries / BCACHE_SHARDS).

(** [bcache_init], on zeroed statics, after [bcache_attach_device(dev)]. *)
Definition bcache_init (total_blocks : Z) (dev : option D) (l1 l2 l3 : list bool) : bcache D :=
  Bcache ∅ 1
    (list_to_map ((λ i, (i, Shard ∅ [] [] 0 (per_shard total_blocks))) <$> seqZ 0 BCACHE_SHARDS))
    ∅ (PrefetchQueue ∅ 0 0 0) false dev l1 l2 l3.

End Bcache.
