(* ===== verification/BcacheInv.v ===== *)
(** * The block cache: its invariant

    What holds of the shards, entries, hot caches and prefetch ring between two
    calls, and, with the references a call holds in flight ([tmp]), inside one.
    The lemmas say how each kind of update keeps it. *)

From S2P Require Import Prelude Bdev Bcache.

(** ** Flags *)

Lemma has_testbit f i : 0 ≤ i → has f (Z.shiftl 1 i) = Z.testbit f i.
Proof.
  intros Hi. unfold has. rewrite Z.shiftl_1_l. destruct (Z.testbit f i) eqn:E.
  - assert (Z.land f (2 ^ i) ≠ 0) as Hne.
    { intros H0. apply (f_equal (λ z, Z.testbit z i)) in H0. rewrite Z.land_spec, E, Z.pow2_bits_true, Z.bits_0 in H0 by done. done. }
    apply Z.eqb_neq in Hne. by rewrite Hne.
  - assert (Z.land f (2 ^ i) = 0) as ->; [|done]. apply Z.bits_inj'. intros n Hn. rewrite Z.land_spec, Z.bits_0.
    destruct (decide (n = i)) as [->|Hni]; [by rewrite E|]. rewrite Z.pow2_bits_false by lia. by rewrite andb_false_r.
Qed.

Lemma evicting_bit e : evicting e = Z.testbit (eflags e) 3. Proof. by apply has_testbit. Qed.
Lemma dirty_bit e : dirty e = Z.testbit (eflags e) 1. Proof. by apply has_testbit. Qed.
Lemma inflight_bit e : inflight e = Z.testbit (eflags e) 2. Proof. by apply has_testbit. Qed.
Lemma accessed_bit e : accessed e = Z.testbit (eflags e) 4. Proof. by apply has_testbit. Qed.
Lemma on_dirty_bit e : on_dirty_list e = Z.testbit (eflags e) 5. Proof. by apply has_testbit. Qed.

(** Reads the flags of an entry after updates by constant masks. *)
Ltac flags_simpl :=
  rewrite ?evicting_bit, ?dirty_bit, ?inflight_bit, ?accessed_bit, ?on_dirty_bit in *;
  unfold flags_or, flags_clear, set_flags, set_refcnt, set_data, set_io_done in *;
  cbn [eflags block_idx refcnt io_done edata] in *;
  rewrite ?Z.lor_spec, ?Z.ldiff_spec in *;
  repeat match goal with
  | |- context [Z.testbit (Z.lor ?a ?b) ?i] => rewrite (Z.lor_spec a b i)
  | |- context [Z.testbit k_flag_valid ?i] => change (Z.testbit k_flag_valid i) with ltac:(let v := eval compute in (Z.testbit k_flag_valid i) in exact v)
  | |- context [Z.testbit k_flag_dirty ?i] => change (Z.testbit k_flag_dirty i) with ltac:(let v := eval compute in (Z.testbit k_flag_dirty i) in exact v)
  | |- context [Z.testbit k_flag_io_inflight ?i] => change (Z.testbit k_flag_io_inflight i) with ltac:(let v := eval compute in (Z.testbit k_flag_io_inflight i) in exact v)
  | |- context [Z.testbit k_flag_evicting ?i] => change (Z.testbit k_flag_evicting i) with ltac:(let v := eval compute in (Z.testbit k_flag_evicting i) in exact v)
  | |- context [Z.testbit k_flag_accessed ?i] => change (Z.testbit k_flag_accessed i) with ltac:(let v := eval compute in (Z.testbit k_flag_accessed i) in exact v)
  | |- context [Z.testbit k_flag_on_dirty_list ?i] => change (Z.testbit k_flag_on_dirty_list i) with ltac:(let v := eval compute in (Z.testbit k_flag_on_dirty_list i) in exact v)
  end;
  rewrite ?orb_false_r, ?orb_true_r, ?andb_true_r, ?andb_false_r; cbn [negb orb andb].

Lemma index_for_range b : 0 ≤ index_for b < 64.
Proof.
  unfold index_for, BCACHE_SHARDS. change (64 - 1) with (Z.ones 6).
  rewrite Z.land_ones by lia. apply Z.mod_pos_bound. lia.
Qed.

Lemma slot_index_eq b : slot_index_for b = index_for b. Proof. done. Qed.

(** ** The prefetch ring as a list *)

Definition ring_slot (q : prefetch_queue) (i : Z) : Z := (head q + i) `mod` PREFETCH_QUEUE_CAP.

Definition queue_list (q : prefetch_queue) : list Z := omap (λ i, items q !! ring_slot q i) (seqZ 0 (count q)).

Definition ring_ok (q : prefetch_queue) : Prop :=
  0 ≤ head q < PREFETCH_QUEUE_CAP ∧ 0 ≤ count q ≤ PREFETCH_QUEUE_CAP ∧
  tail q = ring_slot q (count q) ∧ ∀ i, 0 ≤ i < count q → is_Some (items q !! ring_slot q i).

Lemma ring_slot_inj q i j :
  0 ≤ i < PREFETCH_QUEUE_CAP → 0 ≤ j < PREFETCH_QUEUE_CAP → ring_slot q i = ring_slot q j → i = j.
Proof. unfold ring_slot, PREFETCH_QUEUE_CAP. intros. Z.to_euclidean_division_equations. lia. Qed.

Lemma omap_ext_in {A B} (f g : A → option B) (l : list A) : (∀ x, x ∈ l → f x = g x) → omap f l = omap g l.
Proof.
  induction l as [|x l IH]; intros Hf; csimpl; [done|]. rewrite (Hf x) by left.
  rewrite IH by (intros y Hy; apply Hf; by right). done.
Qed.

Lemma omap_fmap_in {A B C} (f : A → B) (g : B → option C) (l : list A) : omap g (f <$> l) = omap (λ x, g (f x)) l.
Proof. induction l as [|x l IH]; csimpl; [done|]. by rewrite IH. Qed.

Lemma ring_push q p :
  ring_ok q → count q ≠ PREFETCH_QUEUE_CAP →
  let q' := PrefetchQueue (<[tail q := p]> (items q)) (head q) (u32 (tail q + 1) `mod` PREFETCH_QUEUE_CAP) (u32 (count q + 1)) in
  ring_ok q' ∧ queue_list q' = queue_list q ++ [p].
Proof.
  intros (Hh & Hc & Ht & Hs) Hne q'.
  assert (count q' = count q + 1) as Ec by (unfold q', PREFETCH_QUEUE_CAP in *; cbn; rewrite u32_small; lia).
  assert (∀ i, ring_slot q' i = ring_slot q i) as Es by done.
  assert (∀ i, 0 ≤ i < count q → items q' !! ring_slot q i = items q !! ring_slot q i) as Ei.
  { intros i Hi. unfold q'; cbn. apply lookup_insert_ne. rewrite Ht. intros E. apply ring_slot_inj in E; lia. }
  assert (items q' !! ring_slot q (count q) = Some p) as El by (unfold q'; cbn; rewrite Ht; apply lookup_insert_eq).
  split.
  - split; [exact Hh|]. split; [lia|]. split.
    + rewrite Ec. unfold q'; cbn [tail]. rewrite Ht. unfold ring_slot, PREFETCH_QUEUE_CAP in *; cbn [head].
      rewrite u32_small by (pose proof (Z.mod_pos_bound (head q + count q) 128); lia).
      Z.to_euclidean_division_equations. lia.
    + intros i Hi. rewrite Es, Ec in *. destruct (decide (i = count q)) as [->|]; [by rewrite El|]. rewrite Ei by lia. apply Hs. lia.
  - unfold queue_list. rewrite Ec. replace (seqZ 0 (count q + 1)) with (seqZ 0 (count q) ++ [count q]).
    2:{ rewrite seqZ_app by lia. f_equal. }
    rewrite omap_app. f_equal.
    + apply omap_ext_in. intros i Hi%elem_of_seqZ. rewrite Es. apply Ei. lia.
    + csimpl. rewrite Es, Ht. by rewrite lookup_insert_eq.
Qed.

Lemma ring_pop q :
  ring_ok q → count q ≠ 0 →
  let q' := PrefetchQueue (delete (head q) (items q)) (u32 (head q + 1) `mod` PREFETCH_QUEUE_CAP) (tail q) (u32 (count q - 1)) in
  ∃ p, items q !! head q = Some p ∧ ring_ok q' ∧ queue_list q = p :: queue_list q'.
Proof.
  intros (Hh & Hc & Ht & Hs) Hne q'.
  assert (count q' = count q - 1) as Ec by (unfold q', PREFETCH_QUEUE_CAP in *; cbn; rewrite u32_small; lia).
  assert (ring_slot q 0 = head q) as E0 by (unfold ring_slot; rewrite Z.add_0_r; by apply Z.mod_small).
  assert (∀ i, ring_slot q' i = ring_slot q (1 + i)) as Es.
  { intros i. unfold q', ring_slot, PREFETCH_QUEUE_CAP in *; cbn. rewrite u32_small by lia.
    rewrite Z.add_mod_idemp_l by lia. f_equal. lia. }
  assert (∀ i, 0 ≤ i < count q' → items q' !! ring_slot q' i = items q !! ring_slot q (1 + i)) as Ei.
  { intros i Hi. rewrite Es. unfold q' in *; cbn in *. apply lookup_delete_ne. rewrite <-E0. intros E. apply ring_slot_inj in E; lia. }
  destruct (Hs 0) as [p Hp]; [lia|]. rewrite E0 in Hp. exists p. split; [done|]. split.
  - split; [apply Z.mod_pos_bound; done|]. split; [lia|]. split.
    + rewrite Es, Ec. unfold q'; cbn. rewrite Ht. f_equal. lia.
    + intros i Hi. rewrite Ei by done. apply Hs. lia.
  - unfold queue_list. rewrite Ec. rewrite (seqZ_cons 0) by lia. simpl. rewrite E0, Hp. f_equal.
    change (Z.succ 0) with (1 + 0). rewrite <-(fmap_add_seqZ 1 0). rewrite omap_fmap_in. apply omap_ext_in.
    intros i Hi%elem_of_seqZ. rewrite Ei by lia. done.
Qed.

Lemma queue_list_length q : (length (queue_list q) ≤ Z.to_nat (count q))%nat.
Proof.
  unfold queue_list. rewrite <-(length_seqZ 0 (count q)). generalize (seqZ 0 (count q)). intros l.
  induction l as [|i l IH]; csimpl; [lia|]. destruct (items q !! ring_slot q i); csimpl; lia.
Qed.

(** ** References *)

(** How many hot slots hold a reference to [p]. *)
Definition hot_refs (h : gmap (Z * Z) (Z * Z)) (p : Z) : nat := size (filter (λ kv, kv.2.2 = p) h).

Lemma hot_refs_fresh h k b p q :
  h !! k = None → hot_refs (<[k := (b, p)]> h) q = ((if decide (p = q) then 1 else 0) + hot_refs h q)%nat.
Proof.
  intros Hk. unfold hot_refs. destruct (decide (p = q)) as [->|Hne].
  - rewrite map_filter_insert_True by done. rewrite map_size_insert_None; [done|].
    apply map_lookup_filter_None. by left.
  - rewrite map_filter_insert_False by done. by rewrite delete_id.
Qed.

Lemma hot_refs_insert h k b p q :
  hot_refs (<[k := (b, p)]> h) q =
  ((if decide (p = q) then 1 else 0) + hot_refs (delete k h) q)%nat.
Proof. rewrite <-insert_delete_eq. by apply hot_refs_fresh, lookup_delete_eq. Qed.

Lemma hot_refs_split h k q :
  hot_refs h q =
  ((if h !! k is Some (_, p) then if decide (p = q) then 1 else 0 else 0) + hot_refs (delete k h) q)%nat.
Proof.
  destruct (h !! k) as [[b p]|] eqn:E; [|by rewrite delete_id].
  rewrite <-(hot_refs_fresh _ k b) by apply lookup_delete_eq. by rewrite insert_delete_id.
Qed.

Lemma hot_refs_pos h k b p : h !! k = Some (b, p) → (0 < hot_refs h p)%nat.
Proof. intros E. rewrite (hot_refs_split h k), E, decide_True by done. lia. Qed.

Definition hot_keys : list (Z * Z) := c ← seqZ 0 MAX_CPUS; pair c <$> seqZ 0 HOT_SLOTS.

Lemma elem_of_hot_keys c k : (c, k) ∈ hot_keys ↔ 0 ≤ c < MAX_CPUS ∧ 0 ≤ k < HOT_SLOTS.
Proof.
  unfold hot_keys. rewrite list_elem_of_bind. split.
  - intros (x & (y & Hxy & Hy)%list_elem_of_fmap & Hx). rewrite elem_of_seqZ in Hx, Hy. simplify_eq. lia.
  - intros [? ?]. exists c. rewrite list_elem_of_fmap, elem_of_seqZ. split; [|lia].
    exists k. split; [done|]. rewrite elem_of_seqZ. lia.
Qed.

Lemma hot_refs_bound h p : (∀ c k x, h !! (c, k) = Some x → 0 ≤ c < MAX_CPUS ∧ 0 ≤ k < HOT_SLOTS) → (hot_refs h p ≤ 2048)%nat.
Proof.
  intros Hk. unfold hot_refs. rewrite <-size_dom.
  trans (size (list_to_set hot_keys : gset (Z * Z))).
  - apply subseteq_size. intros [c k] [x Hx]%elem_of_dom. apply map_lookup_filter_Some in Hx as [Hx _].
    apply elem_of_list_to_set, elem_of_hot_keys. eauto.
  - generalize (eq_refl : length hot_keys = 2048%nat). generalize hot_keys, 2048%nat. intros l n <-.
    induction l as [|x l IH]; [by rewrite list_to_set_nil, size_empty|]. rewrite list_to_set_cons, length_cons.
    pose proof (size_union_alt ({[x]} : gset (Z * Z)) (list_to_set l)) as ->. rewrite size_singleton.
    assert (size (list_to_set l ∖ {[x]} : gset (Z * Z)) ≤ size (list_to_set l : gset (Z * Z)))%nat by (apply subseteq_size; set_solver). lia.
Qed.

Notation occ l p := (count_occ Z.eq_dec l p).

(** ** The invariant *)

Section Inv.
Context `{RD : ReliableDisk D}.
Implicit Types (s : bcache D) (e : entry) (dev : option D).

Definition queue s : list Z := queue_list (prefetch s).

Definition ptr_of s (b : Z) : option Z := sh ← shards s !! index_for b; map sh !! b.
Definition ent_of s (b : Z) : option entry := p ← ptr_of s b; heap s !! p.

(** What an entry promises: data that is the disk's unless dirty, and no data
    but a place in the prefetch ring while its transfer is in flight. *)
Record ent_ok dev (Q : list Z) (p : Z) e : Prop := {
  eo_block : is_u32 (block_idx e);
  eo_evict : evicting e = false;
  eo_inflight : inflight e = true ↔ p ∈ Q;
  eo_done : inflight e = true → io_done e = false;
  eo_dirty : dirty e = true →
    on_dirty_list e = true ∧ inflight e = false ∧ ∃ v, edata e = Some v ∧ length v = 4096%nat;
  eo_data : inflight e = false → in_dev dev (block_idx e) →
    ∃ v, edata e = Some v ∧ length v = 4096%nat ∧ (dirty e = false → try_read_4k dev (block_idx e) = Some v);
}.

(** The references to [p]: the shard's, the hot slots', the ring's and those a
    running call holds. *)
Definition refs s (tmp : list Z) (p : Z) : Z :=
  1 + Z.of_nat (hot_refs (hot s) p) + Z.of_nat (occ (queue s) p) + Z.of_nat (occ tmp p).

Record shard_ok (h : gmap Z entry) (si : Z) (sh : shard) : Prop := {
  so_home b p : map sh !! b = Some p → si = index_for b;
  so_clock_nodup : NoDup (clock sh);
  so_clock p : p ∈ clock sh ↔ ∃ e, h !! p = Some e ∧ index_for (block_idx e) = si;
  so_dirty_nodup : NoDup (dirty_list sh);
  so_dirty p : p ∈ dirty_list sh ↔ ∃ e, h !! p = Some e ∧ index_for (block_idx e) = si ∧ on_dirty_list e = true;
  so_entries : entries sh = Z.of_nat (length (clock sh));
  so_max : 0 < max_entries sh < 4294967295;
  so_bound : entries sh ≤ max_entries sh;
}.

Record inv s (tmp : list Z) : Prop := {
  i_ptr p e : heap s !! p = Some e → ptr_of s (block_idx e) = Some p;
  i_link b p : ptr_of s b = Some p → ∃ e, heap s !! p = Some e ∧ block_idx e = b;
  i_shards si : 0 ≤ si < 64 → is_Some (shards s !! si);
  i_shard si sh : shards s !! si = Some sh → shard_ok (heap s) si sh;
  i_ent p e : heap s !! p = Some e → ent_ok (bdev s) (queue s) p e;
  i_ref p e : heap s !! p = Some e → refcnt e = refs s tmp p;
  i_brk p e : heap s !! p = Some e → p < brk s;
  i_hot c k b p : hot s !! (c, k) = Some (b, p) →
    0 ≤ c < MAX_CPUS ∧ k = slot_index_for b ∧
    ∃ e, heap s !! p = Some e ∧ block_idx e = b ∧ inflight e = false;
  i_ring : ring_ok (prefetch s);
  i_queue_nodup : NoDup (queue s);
  i_queue p : p ∈ queue s → is_Some (heap s !! p);
  i_tmp p : p ∈ tmp → is_Some (heap s !! p);
  i_tmp_len : (length tmp ≤ 4)%nat;
  i_dev : disk_ok (bdev s);
  i_node : Forall (.= true) (mem_node s);
}.

(** What a caller sees in each block. *)
Definition view s (b : Z) : option buffer :=
  match ent_of s b with
  | Some e => if inflight e then try_read_4k (bdev s) b else edata e
  | None => try_read_4k (bdev s) b
  end.

Lemma hot_bound s tmp p : inv s tmp → (hot_refs (hot s) p ≤ 2048)%nat.
Proof.
  intros I. apply hot_refs_bound. intros c k [b q] E. apply (i_hot _ _ I) in E as (? & -> & _).
  rewrite slot_index_eq. pose proof (index_for_range b). unfold HOT_SLOTS. done.
Qed.

Lemma occ_le (l : list Z) p : (occ l p ≤ length l)%nat.
Proof. induction l as [|x l IH]; simpl; [lia|]. destruct (Z.eq_dec x p); lia. Qed.

Lemma refs_bound s tmp p : inv s tmp → 0 < refs s tmp p < 4000.
Proof.
  intros I. unfold refs. pose proof (hot_bound s tmp p I). pose proof (occ_le (queue s) p). pose proof (occ_le tmp p).
  pose proof (i_tmp_len _ _ I). pose proof (queue_list_length (prefetch s)).
  destruct (i_ring _ _ I) as (_ & Hc & _). unfold PREFETCH_QUEUE_CAP, queue in *. lia.
Qed.

Lemma ent_of_heap s tmp p e : inv s tmp → heap s !! p = Some e → ent_of s (block_idx e) = Some e.
Proof. intros I E. unfold ent_of. rewrite (i_ptr _ _ I _ _ E). done. Qed.

Lemma ent_of_inv s tmp b e : inv s tmp → ent_of s b = Some e → ∃ p, ptr_of s b = Some p ∧ heap s !! p = Some e ∧ block_idx e = b.
Proof.
  intros I. unfold ent_of. destruct (ptr_of s b) as [p|] eqn:Ep; [|done]. simpl. intros E. exists p.
  destruct (i_link _ _ I _ _ Ep) as (e' & E' & Hb). by simplify_eq.
Qed.

Lemma shard_of s tmp b : inv s tmp → ∃ sh, shards s !! index_for b = Some sh ∧ shard_ok (heap s) (index_for b) sh.
Proof. intros I. destruct (i_shards _ _ I (index_for b)) as [sh E]; [apply index_for_range|]. eauto using i_shard. Qed.

Lemma view_in_disk s tmp b : inv s tmp → in_dev (bdev s) b → ∃ v, view s b = Some v ∧ length v = 4096%nat.
Proof.
  intros I Hb. unfold view. destruct (ent_of s b) as [e|] eqn:E; [|by apply read_in; [apply (i_dev _ _ I)|]].
  destruct (inflight e) eqn:Ef; [by apply read_in; [apply (i_dev _ _ I)|]|].
  apply (ent_of_inv _ _ _ _ I) in E as (p & _ & E & <-).
  destruct (eo_data _ _ _ _ (i_ent _ _ I _ _ E) Ef Hb) as (v & ? & ? & _). eauto.
Qed.

(** ** Updating an entry *)

Lemma elem_of_occ (l : list Z) p : p ∈ l ↔ (0 < occ l p)%nat.
Proof. rewrite list_elem_of_In, (count_occ_In Z.eq_dec). lia. Qed.

(** [p] gets a new value, its shard's dirty list follows its flag and the ring
    [pq] may differ in [p]. *)
Lemma inv_update_ring s tmp tmp' p e e' sh l pq :
  inv s tmp → heap s !! p = Some e → shards s !! index_for (block_idx e) = Some sh →
  block_idx e' = block_idx e → ent_ok (bdev s) (queue_list pq) p e' → refcnt e' = refs (with_prefetch pq s) tmp' p →
  ring_ok pq → NoDup (queue_list pq) → (∀ q, q ≠ p → occ (queue_list pq) q = occ (queue s) q) →
  (∀ q, q ≠ p → occ tmp' q = occ tmp q) → (∀ q, q ∈ tmp' → is_Some (heap s !! q)) → (length tmp' ≤ 4)%nat →
  (inflight e' = true → inflight e = true) →
  NoDup l → (∀ q, q ∈ l ↔ if decide (q = p) then on_dirty_list e' = true else q ∈ dirty_list sh) →
  inv (with_prefetch pq (with_shards (<[index_for (block_idx e) := set_dirty_list l sh]> (shards s)) (with_heap (<[p := e']> (heap s)) s))) tmp'.
Proof.
  intros I Hp Hsh Hb Hent Href Hring Hqnd Hqocc Hocc Htmp Hlen Hinf Hnd Hl.
  assert (∀ q, q ≠ p → (q ∈ queue_list pq ↔ q ∈ queue s)) as Hqin by (intros q Hq; by rewrite !elem_of_occ, Hqocc).
  set (s' := with_prefetch pq _).
  assert (∀ b, ptr_of s' b = ptr_of s b) as Eptr.
  { intros b. unfold s', ptr_of, with_prefetch, with_shards, with_heap; cbn [shards].
    destruct (decide (index_for (block_idx e) = index_for b)) as [E|E].
    - rewrite <-E, lookup_insert_eq, Hsh. done.
    - by rewrite lookup_insert_ne. }
  assert (∀ q x, <[p := e']> (heap s) !! q = Some x →
            ∃ x0, heap s !! q = Some x0 ∧ block_idx x = block_idx x0 ∧ (inflight x = true → inflight x0 = true)) as Hback.
  { intros q x. destruct (decide (q = p)) as [->|Hq].
    - rewrite lookup_insert_eq. intros [= <-]. eauto.
    - rewrite lookup_insert_ne by done. eauto. }
  assert (∀ q x0, heap s !! q = Some x0 →
            ∃ x, <[p := e']> (heap s) !! q = Some x ∧ block_idx x = block_idx x0 ∧ (inflight x = true → inflight x0 = true)) as Hforth.
  { intros q x0 Hq. destruct (decide (q = p)) as [->|Hqp].
    - rewrite lookup_insert_eq. exists e'. simplify_eq. eauto.
    - rewrite lookup_insert_ne by done. eauto. }
  assert (∀ si sh', shard_ok (heap s) si sh' → ∀ q, q ∈ clock sh' ↔ ∃ x, <[p := e']> (heap s) !! q = Some x ∧ index_for (block_idx x) = si) as Hclk.
  { intros si sh' Hso q. rewrite (so_clock _ _ _ Hso). split.
    - intros (x0 & Hx0 & <-). destruct (Hforth _ _ Hx0) as (x & Hx & Hxb & _). exists x. by rewrite Hxb.
    - intros (x & Hx & <-). destruct (Hback _ _ Hx) as (x0 & Hx0 & Hxb & _). exists x0. by rewrite Hxb. }
  split; unfold queue; cbn [heap shards hot prefetch bdev brk mem_node with_shards with_heap with_prefetch s'].
  - intros q x Hx. destruct (Hback _ _ Hx) as (x0 & Hx0 & -> & _). rewrite Eptr. eauto using i_ptr.
  - intros b q. rewrite Eptr. intros Hq. destruct (i_link _ _ I _ _ Hq) as (x0 & Hx0 & <-).
    destruct (Hforth _ _ Hx0) as (x & Hx & Hxb & _). eauto.
  - intros si Hsi. destruct (decide (index_for (block_idx e) = si)) as [<-|Hne].
    + rewrite lookup_insert_eq. eauto.
    + rewrite lookup_insert_ne by done. by apply (i_shards _ _ I).
  - intros si sh'. destruct (decide (index_for (block_idx e) = si)) as [<-|Hne].
    + rewrite lookup_insert_eq. intros [= <-]. pose proof (i_shard _ _ I _ _ Hsh) as Hso.
      split; cbn [map clock dirty_list entries max_entries set_dirty_list]; try apply Hso; try done.
      * apply (Hclk _ _ Hso).
      * intros q. rewrite Hl. destruct (decide (q = p)) as [->|Hq].
        -- rewrite lookup_insert_eq. split; [intros; exists e'; by rewrite Hb|]. intros (x & [= <-] & _ & ?). done.
        -- rewrite lookup_insert_ne by done. apply (so_dirty _ _ _ Hso).
    + rewrite lookup_insert_ne by done. intros Hsh'. pose proof (i_shard _ _ I _ _ Hsh') as Hso.
      split; try apply Hso.
      * apply (Hclk _ _ Hso).
      * intros q. rewrite (so_dirty _ _ _ Hso). destruct (decide (q = p)) as [->|Hq].
        -- rewrite lookup_insert_eq. split; [intros (x & Hx & Hxs & _); congruence|].
           intros (x & [= <-] & Hxs & _). congruence.
        -- by rewrite lookup_insert_ne.
  - intros q x. destruct (decide (q = p)) as [->|Hq].
    + rewrite lookup_insert_eq. by intros [= <-].
    + rewrite lookup_insert_ne by done. intros Hx. destruct (i_ent _ _ I _ _ Hx) as [? ? Hi ? ? ?].
      split; try done. by rewrite Hi, Hqin.
  - intros q x. destruct (decide (q = p)) as [->|Hq].
    + rewrite lookup_insert_eq. by intros [= <-].
    + rewrite lookup_insert_ne by done. intros Hx. rewrite (i_ref _ _ I _ _ Hx).
      unfold refs, queue in *; cbn [hot prefetch with_prefetch with_shards with_heap s']. by rewrite Hocc, Hqocc.
  - intros q x Hx. destruct (Hback _ _ Hx) as (x0 & Hx0 & _). eauto using i_brk.
  - intros c k b q Hq. destruct (i_hot _ _ I _ _ _ _ Hq) as (Hc & Hk & x0 & Hx0 & Hxb & Hxf).
    split; [done|]. split; [done|]. destruct (Hforth _ _ Hx0) as (x & Hx & Hxb' & Hxf').
    exists x. split; [done|]. split; [congruence|]. destruct (inflight x); [|done]. rewrite Hxf' in Hxf; done.
  - done.
  - done.
  - intros q Hq. destruct (decide (q = p)) as [->|Hqp]; [rewrite lookup_insert_eq; eauto|]. apply Hqin in Hq; [|done].
    destruct (i_queue _ _ I _ Hq) as [x0 Hx0]. destruct (Hforth _ _ Hx0) as (x & Hx & _). eauto.
  - intros q Hq. destruct (Htmp _ Hq) as [x0 Hx0]. destruct (Hforth _ _ Hx0) as (x & Hx & _). eauto.
  - done.
  - apply (i_dev _ _ I).
  - apply (i_node _ _ I).
Qed.

Lemma with_prefetch_id s : with_prefetch (prefetch s) s = s.
Proof. by destruct s. Qed.

Lemma inv_update s tmp tmp' p e e' sh l :
  inv s tmp → heap s !! p = Some e → shards s !! index_for (block_idx e) = Some sh →
  block_idx e' = block_idx e → ent_ok (bdev s) (queue s) p e' → refcnt e' = refs s tmp' p →
  (∀ q, q ≠ p → occ tmp' q = occ tmp q) → (∀ q, q ∈ tmp' → is_Some (heap s !! q)) → (length tmp' ≤ 4)%nat →
  (inflight e' = true → inflight e = true) →
  NoDup l → (∀ q, q ∈ l ↔ if decide (q = p) then on_dirty_list e' = true else q ∈ dirty_list sh) →
  inv (with_shards (<[index_for (block_idx e) := set_dirty_list l sh]> (shards s)) (with_heap (<[p := e']> (heap s)) s)) tmp'.
Proof.
  intros I Hp Hsh Hb Hent Href. intros.
  change (with_shards ?m (with_heap ?h s)) with (with_prefetch (prefetch s) (with_shards m (with_heap h s))).
  eapply inv_update_ring; eauto; rewrite ?with_prefetch_id; eauto using i_ring, i_queue_nodup.
Qed.

Lemma set_dirty_list_id sh : set_dirty_list (dirty_list sh) sh = sh.
Proof. by destruct sh. Qed.

Lemma with_shards_id s : with_shards (shards s) s = s.
Proof. by destruct s. Qed.

Lemma with_heap_id s : with_heap (heap s) s = s.
Proof. by destruct s. Qed.

(** The same with the dirty list left alone. *)
Lemma inv_entry s tmp tmp' p e e' :
  inv s tmp → heap s !! p = Some e →
  block_idx e' = block_idx e → ent_ok (bdev s) (queue s) p e' → refcnt e' = refs s tmp' p →
  (∀ q, q ≠ p → occ tmp' q = occ tmp q) → (∀ q, q ∈ tmp' → is_Some (heap s !! q)) → (length tmp' ≤ 4)%nat →
  (inflight e' = true → inflight e = true) → on_dirty_list e' = on_dirty_list e →
  inv (with_heap (<[p := e']> (heap s)) s) tmp'.
Proof.
  intros I Hp Hb Hent Href Hocc Htmp Hlen Hinf Hod.
  destruct (shard_of s tmp (block_idx e) I) as (sh & Hsh & Hso).
  pose proof (inv_update s tmp tmp' p e e' sh (dirty_list sh)) as G.
  rewrite set_dirty_list_id, (insert_id (shards s)) in G by done. apply G; try done.
  - apply (so_dirty_nodup _ _ _ Hso).
  - intros q. destruct (decide (q = p)) as [->|Hq]; [|done]. rewrite Hod, (so_dirty _ _ _ Hso).
    split; [intros (x & Hx & _ & ?); congruence|eauto].
Qed.

(** Between two states the entries of which agree but for [p], of block [b]. *)
Lemma view_update s s' tmp tmp' p e e' :
  inv s tmp → inv s' tmp' → heap s !! p = Some e → heap s' = <[p := e']> (heap s) → block_idx e' = block_idx e →
  (∀ b, ptr_of s' b = ptr_of s b) → bdev s' = bdev s →
  ∀ b, view s' b = if decide (b = block_idx e) then (if inflight e' then try_read_4k (bdev s) b else edata e') else view s b.
Proof.
  intros I I' Hp Hh Hb Hptr Hd b. unfold view, ent_of. rewrite Hptr, Hd, Hh. case_decide as Hbe.
  - subst b. rewrite (i_ptr _ _ I _ _ Hp). simpl. by rewrite lookup_insert_eq.
  - destruct (ptr_of s b) as [q|] eqn:Eq; [|done]. simpl. rewrite lookup_insert_ne; [done|].
    intros <-. destruct (i_link _ _ I _ _ Eq) as (x & Hx & <-). congruence.
Qed.

Lemma view_entry s tmp p e e' :
  inv s tmp → heap s !! p = Some e → block_idx e' = block_idx e → inflight e' = inflight e → edata e' = edata e →
  ∀ b, view (with_heap (<[p := e']> (heap s)) s) b = view s b.
Proof.
  intros I Hp Hb Hf Hd b. unfold view, ent_of. change (ptr_of (with_heap _ s) b) with (ptr_of s b).
  destruct (ptr_of s b) as [q|]; [|done]. simpl. destruct (decide (q = p)) as [->|Hq].
  - rewrite lookup_insert_eq, Hp, Hf, Hd. done.
  - by rewrite lookup_insert_ne.
Qed.

(** ** What the operations leave unchanged *)

(** A block on the disk is as it was, or was written back. *)
Definition drifts s s' : Prop :=
  ∀ b, in_dev (bdev s) b →
    try_read_4k (bdev s') b = try_read_4k (bdev s) b ∨ try_read_4k (bdev s') b = view s b.

(** The same disk geometry and the same contents of every block, and no change
    of the disk but write-backs. *)
Definition keeps s s' : Prop :=
  (∀ b, in_dev (bdev s') b ↔ in_dev (bdev s) b) ∧ (∀ b, in_dev (bdev s) b → view s' b = view s b) ∧ drifts s s'.

(** No entry is lost or reused for another block, no transfer is started. *)
Definition grows s s' : Prop :=
  ∀ p e, heap s !! p = Some e →
    ∃ e', heap s' !! p = Some e' ∧ block_idx e' = block_idx e ∧ (inflight e' = true → inflight e = true).

#[export] Instance keeps_preorder : PreOrder keeps.
Proof.
  split; [intros s; split_and!; [done..|]; by left|]. intros s1 s2 s3 (H1 & H2 & H3) (H4 & H5 & H6). split_and!; intros b.
  - by rewrite H4.
  - intros Hb. rewrite H5 by (by apply H1). by apply H2.
  - intros Hb. destruct (H6 b) as [-> | ->]; [by apply H1|by apply H3|]. right. by apply H2.
Qed.

#[export] Instance grows_preorder : PreOrder grows.
Proof.
  split; [intros s p e; eauto|]. intros s1 s2 s3 H1 H2 p e (e1 & E1 & ? & ?)%H1. destruct (H2 _ _ E1) as (e2 & ? & ? & ?).
  exists e2. split_and!; [done|congruence|auto].
Qed.

Lemma keeps_view s s' : bdev s' = bdev s → (∀ b, view s' b = view s b) → keeps s s'.
Proof. intros Hd Hv. split_and!; intros b; rewrite ?Hd; auto. Qed.

Lemma grows_insert s p e e' :
  heap s !! p = Some e → block_idx e' = block_idx e → (inflight e' = true → inflight e = true) →
  grows s (with_heap (<[p := e']> (heap s)) s).
Proof.
  intros Hp Hb Hf q x Hx. cbn. destruct (decide (q = p)) as [->|Hq].
  - rewrite lookup_insert_eq. exists e'. simplify_eq. eauto.
  - rewrite lookup_insert_ne by done. eauto.
Qed.

(** ** References *)

Lemma entry_at_ok s p e : heap s !! p = Some e → entry_at s p = Ok e.
Proof. unfold entry_at. by intros ->. Qed.

Lemma upd_entry_ok f s p e : heap s !! p = Some e → upd_entry f p s = Ok (with_heap (<[p := f e]> (heap s)) s).
Proof. intros E. unfold upd_entry. by rewrite (entry_at_ok s p e). Qed.

Lemma upd_shard_ok f s si sh : shards s !! si = Some sh → upd_shard f si s = Ok (with_shards (<[si := f sh]> (shards s)) s).
Proof. intros E. unfold upd_shard, shard_at. by rewrite E. Qed.

(** Only the reference count or the accessed and valid bits differ. *)
Lemma ent_ok_refcnt dev Q p e r : ent_ok dev Q p e → ent_ok dev Q p (set_refcnt r e).
Proof. intros []. by split. Qed.

Lemma entry_get_ok s tmp p e :
  inv s tmp → heap s !! p = Some e → (length tmp ≤ 3)%nat →
  let s' := with_heap (<[p := set_refcnt (refcnt e + 1) e]> (heap s)) s in
  get p s = Ok s' ∧ inv s' (p :: tmp) ∧ keeps s s' ∧ grows s s'.
Proof.
  intros I Hp Hlen s'. pose proof (i_ref _ _ I _ _ Hp) as Hr. pose proof (refs_bound s tmp p I) as Hb.
  split; [|split; [|split]].
  - unfold get. rewrite (upd_entry_ok _ _ _ e) by done. by rewrite u32_small by lia.
  - eapply inv_entry; eauto using ent_ok_refcnt, i_ent.
    + cbn. rewrite Hr. unfold refs. rewrite count_occ_cons_eq by done. lia.
    + intros q Hq. by rewrite count_occ_cons_neq.
    + intros q [->|Hq]%elem_of_cons; [eauto|by apply (i_tmp _ _ I)].
    + simpl. lia.
  - apply keeps_view; [done|]. by eapply view_entry.
  - by eapply grows_insert.
Qed.

Lemma put_ok s tmp p :
  inv s (p :: tmp) →
  ∃ e, heap s !! p = Some e ∧
  let s' := with_heap (<[p := set_refcnt (refcnt e - 1) e]> (heap s)) s in
  put p s = Ok s' ∧ inv s' tmp ∧ keeps s s' ∧ grows s s'.
Proof.
  intros I. destruct (i_tmp _ _ I p) as [e Hp]; [by left|]. exists e. split; [done|].
  pose proof (i_ref _ _ I _ _ Hp) as Hr. pose proof (refs_bound s _ p I) as Hb.
  assert (1 < refcnt e) as Hgt by (rewrite Hr; unfold refs; rewrite count_occ_cons_eq by done; lia).
  intros s'. split; [|split; [|split]].
  - unfold put. rewrite (entry_at_ok _ _ e) by done. cbn [mbind res_bind].
    rewrite (upd_entry_ok _ _ _ e) by done. cbn [mbind res_bind]. rewrite u32_small by lia.
    case_if; [done|]. exfalso. bool_simpl. lia.
  - eapply inv_entry; eauto using ent_ok_refcnt, i_ent.
    + cbn. rewrite Hr. unfold refs. rewrite count_occ_cons_eq by done. lia.
    + intros q Hq. by rewrite count_occ_cons_neq.
    + intros q Hq. apply (i_tmp _ _ I). by right.
    + pose proof (i_tmp_len _ _ I). simpl in *. lia.
  - apply keeps_view; [done|]. by eapply view_entry.
  - by eapply grows_insert.
Qed.

Lemma put_keeps s tmp p : inv s (p :: tmp) → ∃ s', put p s = Ok s' ∧ inv s' tmp ∧ keeps s s' ∧ grows s s'.
Proof. intros I. destruct (put_ok _ _ _ I) as (e & _ & ?). eauto. Qed.

Lemma try_get_ok s tmp p e :
  inv s tmp → heap s !! p = Some e → (length tmp ≤ 3)%nat →
  ∃ s', try_get_not_evicting p s = Ok (true, s') ∧ get p s = Ok s' ∧ inv s' (p :: tmp) ∧ keeps s s' ∧ grows s s' ∧
    hot s' = hot s ∧ prefetch s' = prefetch s.
Proof.
  intros I Hp Hlen. destruct (entry_get_ok s tmp p e I Hp Hlen) as (Hg & I' & HK & HG).
  set (s' := with_heap _ _) in *. exists s'. split_and!; try done.
  unfold try_get_not_evicting. rewrite (entry_at_ok _ _ e) by done. cbn [mbind res_bind].
  rewrite (eo_evict _ _ _ _ (i_ent _ _ I _ _ Hp)), Hg. cbn [mbind res_bind].
  assert (heap s' !! p = Some (set_refcnt (refcnt e + 1) e)) as Hp' by apply lookup_insert_eq.
  rewrite (entry_at_ok _ _ _ Hp'). cbn [mbind res_bind]. by rewrite (eo_evict _ _ _ _ (i_ent _ _ I' _ _ Hp')).
Qed.

(** The accessed bit. *)
Lemma touch_ok s tmp p e :
  inv s tmp → heap s !! p = Some e →
  ∃ s', upd_entry (flags_or k_flag_accessed) p s = Ok s' ∧ inv s' tmp ∧ keeps s s' ∧ grows s s'.
Proof.
  intros I Hp. eexists. split; [by apply upd_entry_ok|].
  assert (∀ f : entry → bool, f = evicting ∨ f = inflight ∨ f = dirty ∨ f = on_dirty_list → f (flags_or k_flag_accessed e) = f e) as Hf.
  { intros f Hf. destruct Hf as [-> | [-> | [-> | ->] ] ]; by flags_simpl. }
  split; [|split].
  - eapply inv_entry; eauto using i_tmp, i_tmp_len.
    + destruct (i_ent _ _ I _ _ Hp). split; rewrite ?(Hf evicting), ?(Hf inflight), ?(Hf dirty), ?(Hf on_dirty_list) by tauto; done.
    + by rewrite <-(i_ref _ _ I _ _ Hp).
    + by rewrite (Hf inflight) by tauto.
  - apply keeps_view; [done|]. by eapply view_entry; eauto.
  - eapply grows_insert; eauto. by rewrite (Hf inflight) by tauto.
Qed.

End Inv.
