(* ===== verification/BcacheOps.v ===== *)
(** * The block cache: hot caches, prefetching, dirty entries

    How the hot caches, the prefetch worker, the dirty lists and the writes to
    the disk keep the invariant, and what they change of the contents. *)

From S2P Require Import Prelude Bdev Bcache BcacheInv.

Section Ops.
Context `{RD : ReliableDisk D}.
Implicit Types (s : bcache D) (e : entry) (dev : option D).

(** ** The hot caches *)

Lemma cpu_index_cases cpu : cpu_index cpu = -1 ∨ (cpu_index cpu = cpu ∧ 0 ≤ cpu < MAX_CPUS).
Proof. unfold cpu_index, MAX_CPUS. case_if; [by left|]. right. split; [done|]. bool_simpl. lia. Qed.

(** Installing a reference the call holds; it takes over the displaced one. *)
Lemma inv_hot s tmp c b p e :
  inv s (p :: tmp) → 0 ≤ c < MAX_CPUS → heap s !! p = Some e → block_idx e = b → inflight e = false →
  let k := slot_index_for b in
  let old := if hot s !! (c, k) is Some (_, q) then [q] else [] in
  inv (with_hot (<[(c, k) := (b, p)]> (hot s)) s) (old ++ tmp).
Proof.
  intros I Hc Hp Hb Hf k old.
  assert (∀ q, refs (with_hot (<[(c, k) := (b, p)]> (hot s)) s) (old ++ tmp) q = refs s (p :: tmp) q) as Hrefs.
  { intros q. unfold refs, queue; cbn [hot prefetch with_hot]. rewrite hot_refs_insert, (hot_refs_split (hot s) (c, k)).
    rewrite count_occ_app. unfold old. destruct (hot s !! (c, k)) as [[b' q']|]; simpl;
      repeat case_decide; repeat destruct (Z.eq_dec _ _); try congruence; lia. }
  destruct I as [? ? ? ? ? Iref ? Ihot ? ? ? Itmp Ilen ? ?]. split; try done.
  - intros q x Hx. rewrite Hrefs. eauto.
  - intros c' k' b' q. cbn [hot with_hot]. destruct (decide ((c, k) = (c', k'))) as [Heq|Hne].
    + rewrite Heq, lookup_insert_eq. intros [= <- <-]. injection Heq as <- <-. eauto 8.
    + rewrite lookup_insert_ne by done. apply Ihot.
  - intros q [Hq|Hq]%elem_of_app; [|apply Itmp; by right]. unfold old in Hq.
    destruct (hot s !! (c, k)) as [[b' q']|] eqn:E; [|by apply not_elem_of_nil in Hq].
    apply list_elem_of_singleton in Hq as ->. apply Ihot in E as (_ & _ & x & Hx & _). eauto.
  - rewrite length_app. unfold old. simpl in *. destruct (hot s !! (c, k)) as [[??]|]; simpl; lia.
Qed.

Lemma hot_try_get_ok s tmp cpu b :
  inv s tmp → (length tmp ≤ 3)%nat →
  hot_try_get cpu b s = Ok (None, s) ∨
  ∃ p e s', heap s !! p = Some e ∧ block_idx e = b ∧ inflight e = false ∧
    hot_try_get cpu b s = Ok (Some p, s') ∧ get p s = Ok s' ∧ inv s' (p :: tmp) ∧ keeps s s' ∧ grows s s'.
Proof.
  intros I Hlen. unfold hot_try_get. cbv zeta. case_if; [by left|].
  destruct (hot s !! (cpu_index cpu, slot_index_for b)) as [[b' p]|] eqn:Eh; [|by left].
  case_if; [by left|]. right. bool_simpl. subst b'.
  destruct (i_hot _ _ I _ _ _ _ Eh) as (_ & _ & e & Hp & Hb & Hf).
  destruct (entry_get_ok s tmp p e I Hp Hlen) as (Hg & I' & HK & HG).
  exists p, e, (with_heap (<[p := set_refcnt (refcnt e + 1) e]> (heap s)) s). rewrite Hg. by split_and!.
Qed.

Lemma hot_put_ok s tmp cpu b p e :
  inv s tmp → (length tmp ≤ 3)%nat → heap s !! p = Some e → block_idx e = b → inflight e = false →
  ∃ s', hot_put cpu b p s = Ok s' ∧ inv s' tmp ∧ keeps s s' ∧ grows s s'.
Proof.
  intros I Hlen Hp Hb Hf. unfold hot_put. rewrite (entry_at_ok _ _ e) by done. cbn [mbind res_bind].
  rewrite (eo_evict _ _ _ _ (i_ent _ _ I _ _ Hp)). cbv zeta. case_if; [by exists s|].
  destruct (cpu_index_cases cpu) as [Hc|[-> Hc]]; [lia|]. unfold hot_put_cpu. cbv zeta.
  destruct (try_get_ok s tmp p e I Hp Hlen) as (s1 & -> & _ & I1 & K1 & G1 & Hhot & Hpf). cbn [mbind res_bind fst snd negb].
  destruct (G1 _ _ Hp) as (e1 & Hp1 & Hb1 & Hf1).
  assert (inflight e1 = false) as Hf1' by (destruct (inflight e1); [rewrite Hf1 in Hf|]; done).
  pose proof (inv_hot s1 tmp cpu b p e1 I1 Hc Hp1) as I2. specialize (I2 ltac:(congruence) Hf1'). cbv zeta in I2.
  assert (keeps s1 (with_hot (<[(cpu, slot_index_for b) := (b, p)]> (hot s1)) s1)) as K2 by (by apply keeps_view).
  assert (grows s1 (with_hot (<[(cpu, slot_index_for b) := (b, p)]> (hot s1)) s1)) as G2 by (intros q x; cbn; eauto).
  destruct (hot s1 !! (cpu, slot_index_for b)) as [[b' q]|].
  - destruct (put_keeps _ _ _ I2) as (s3 & -> & I3 & K3 & G3). exists s3. split_and!; [done|done| |]; by do 2 (etrans; [done|]).
  - eexists. split_and!; [done|done| |]; by etrans.
Qed.

(** ** The prefetch worker *)

(** A finished transfer. *)
Definition fetched dev e : entry :=
  set_io_done true (flags_clear k_flag_io_inflight (flags_or (Z.lor k_flag_valid k_flag_accessed)
    (set_data (read_4k dev (block_idx e) (edata e)) e))).

Lemma fetched_flags dev e :
  evicting (fetched dev e) = evicting e ∧ inflight (fetched dev e) = false ∧
  dirty (fetched dev e) = dirty e ∧ on_dirty_list (fetched dev e) = on_dirty_list e.
Proof. unfold fetched. split_and!; by flags_simpl. Qed.

Lemma finish_read_ok s p e :
  heap s !! p = Some e → finish_read p s = Ok (with_heap (<[p := fetched (bdev s) e]> (heap s)) s).
Proof.
  intros Hp. unfold finish_read. rewrite (entry_at_ok _ _ e) by done. cbn [mbind res_bind].
  do 4 (erewrite upd_entry_ok by (first [exact Hp|apply lookup_insert_eq]); cbn [mbind res_bind heap with_heap];
        rewrite ?insert_insert_eq). done.
Qed.

(** The data a transfer brings in is the disk's. *)
Lemma ent_ok_fetched dev Q Q' p e :
  disk_ok dev → ent_ok dev Q p e → dirty e = false → p ∉ Q' → ent_ok dev Q' p (fetched dev e).
Proof.
  intros Hd [? ? ? ? ? ?] Hcl Hq. destruct (fetched_flags dev e) as (F1 & F2 & F3 & F4). split; rewrite ?F1, ?F2, ?F3, ?F4; try done.
  - congruence.
  - intros _ Hin. change (block_idx (fetched dev e)) with (block_idx e) in *.
    destruct (read_in dev (block_idx e)) as (v & Hv & Hl); [done..|]. exists v. split; [|done].
    unfold fetched; cbn. unfold read_4k. by rewrite Hv.
Qed.

Lemma with_heap_prefetch h pq s : with_heap h (with_prefetch pq s) = with_prefetch pq (with_heap h s).
Proof. done. Qed.

Lemma with_shards_heap_id h s : with_shards (shards s) (with_heap h s) = with_heap h s.
Proof. by destruct s. Qed.

Lemma worker_turn_ok s tmp :
  inv s tmp →
  ∃ s', prefetch_worker_turn s = Ok s' ∧ inv s' tmp ∧ keeps s s' ∧ grows s s' ∧
    match queue s with
    | [] => s' = s
    | p :: Q => queue s' = Q ∧ ∃ e, heap s' !! p = Some e ∧ io_done e = true ∧ inflight e = false
    end.
Proof.
  intros I. unfold prefetch_worker_turn, pop, queue. destruct (count (prefetch s) =? 0) eqn:Ec; bool_simpl.
  - exists s. assert (queue_list (prefetch s) = []) as -> by (unfold queue_list; by rewrite Ec). by split_and!.
  - destruct (ring_pop _ (i_ring _ _ I) Ec) as (p & Hi & Hrok & Hq). set (pq := PrefetchQueue _ _ _ _) in *. rewrite Hi, Hq.
    assert (p ∈ queue s) as Hpq by (unfold queue; rewrite Hq; left). destruct (i_queue _ _ I _ Hpq) as [e Hp].
    pose proof (i_queue_nodup _ _ I) as Hnd. unfold queue in Hnd. rewrite Hq in Hnd. apply NoDup_cons in Hnd as [Hnin Hnd].
    pose proof (i_ent _ _ I _ _ Hp) as He. apply (eo_inflight _ _ _ _ He) in Hpq.
    assert (dirty e = false) as Hcl by (destruct (dirty e) eqn:E; [apply (eo_dirty _ _ _ _ He) in E; destruct E; intuition congruence|done]).
    rewrite (finish_read_ok _ _ e) by done. cbn [mbind res_bind].
    set (e' := set_refcnt (refcnt e - 1) (fetched (bdev s) e)).
    pose proof (i_ref _ _ I _ _ Hp) as Hr. pose proof (refs_bound s _ p I) as Hb.
    assert (refcnt e = 2 + Z.of_nat (hot_refs (hot s) p) + Z.of_nat (occ (queue_list pq) p) + Z.of_nat (occ tmp p)) as Hr'.
    { rewrite Hr. unfold refs, queue. rewrite Hq, count_occ_cons_eq by done. lia. }
    assert (put p (with_heap (<[p := fetched (bdev s) e]> (heap s)) (with_prefetch pq s)) =
            Ok (with_heap (<[p := e']> (heap s)) (with_prefetch pq s))) as Hput.
    { unfold put. rewrite (entry_at_ok _ _ (fetched (bdev s) e)) by apply lookup_insert_eq. cbn [mbind res_bind].
      rewrite (upd_entry_ok _ _ _ (fetched (bdev s) e)) by apply lookup_insert_eq. cbn [mbind res_bind heap with_heap].
      rewrite insert_insert_eq. change (refcnt (fetched (bdev s) e)) with (refcnt e). rewrite u32_small by lia.
      case_if; [done|]. exfalso. bool_simpl. lia. }
    exists (with_heap (<[p := e']> (heap s)) (with_prefetch pq s)). split; [exact Hput|].
    assert (inflight e' = false ∧ on_dirty_list e' = on_dirty_list e) as [Hf' Hod'].
    { destruct (fetched_flags (bdev s) e) as (_ & ? & _ & ?). done. }
    assert (inv (with_heap (<[p := e']> (heap s)) (with_prefetch pq s)) tmp) as I'.
    { destruct (shard_of s tmp (block_idx e) I) as (sh & Hsh & Hso).
      pose proof (inv_update_ring s tmp tmp p e e' sh (dirty_list sh) pq) as G.
      rewrite set_dirty_list_id, (insert_id (shards s)), with_shards_heap_id in G by done. apply G; try done.
      - apply ent_ok_refcnt. eapply ent_ok_fetched; eauto using i_dev.
      - unfold refs, queue; cbn. lia.
      - intros q Hqp. unfold queue. rewrite Hq. by rewrite count_occ_cons_neq.
      - apply (i_tmp _ _ I).
      - apply (i_tmp_len _ _ I).
      - apply (so_dirty_nodup _ _ _ Hso).
      - intros q. destruct (decide (q = p)) as [->|Hqp]; [|done]. rewrite Hod', (so_dirty _ _ _ Hso).
        split; [intros (x & Hx & _ & ?); congruence|eauto]. }
    split_and!; [done|..].
    + split; [done|]. split; [|by left]. intros b Hin.
      rewrite (view_update s _ tmp tmp p e e') by done. case_decide as Hbe; [|done]. subst b.
      unfold view. rewrite (ent_of_heap _ _ _ _ I Hp), Hpq, Hf'. unfold e', fetched; cbn. unfold read_4k.
      destruct (read_in (bdev s) (block_idx e)) as (v & -> & _); eauto using i_dev.
    + intros q x Hx. cbn. destruct (decide (q = p)) as [->|Hqp].
      * rewrite lookup_insert_eq. exists e'. simplify_eq. rewrite Hf'. done.
      * rewrite lookup_insert_ne by done. eauto.
    + done.
    + exists e'. split; [apply lookup_insert_eq|done].
Qed.

Lemma io_wait_ok fuel s tmp p e :
  inv s tmp → heap s !! p = Some e → inflight e = true ∨ io_done e = true → (length (queue s) ≤ fuel)%nat →
  ∃ s' e', io_wait fuel p s = Ok s' ∧ inv s' tmp ∧ keeps s s' ∧ grows s s' ∧ heap s' !! p = Some e' ∧ inflight e' = false.
Proof.
  revert s e. induction fuel as [|fuel IH]; intros s e I Hp Hor Hlen; simpl; rewrite (entry_at_ok _ _ e) by done; cbn [mbind res_bind];
    pose proof (i_ent _ _ I _ _ Hp) as He.
  all: destruct (io_done e) eqn:Ed;
    [exists s, e; split_and!; try done; destruct (inflight e) eqn:Ef; [by rewrite (eo_done _ _ _ _ He Ef) in Ed|done]|].
  all: destruct Hor as [Hf|]; [|done]; apply (eo_inflight _ _ _ _ He) in Hf.
  - destruct (queue s); [by apply not_elem_of_nil in Hf|simpl in Hlen; lia].
  - destruct (worker_turn_ok s tmp I) as (s1 & -> & I1 & K1 & G1 & Hq). cbn [mbind res_bind].
    destruct (queue s) as [|q Q] eqn:EQ; [by apply not_elem_of_nil in Hf|]. destruct Hq as (HQ & e1 & Hq1 & Hd1 & Hf1).
    destruct (G1 _ _ Hp) as (e' & Hp1 & Hb' & Hf').
    destruct (IH s1 e' I1 Hp1) as (s2 & e2 & -> & I2 & K2 & G2 & Hp2 & Hf2).
    + destruct (decide (p = q)) as [->|Hpq]; [right; congruence|]. left. apply (eo_inflight _ _ _ _ (i_ent _ _ I1 _ _ Hp1)).
      rewrite HQ. by apply elem_of_cons in Hf as [].
    + rewrite HQ. simpl in Hlen. lia.
    + exists s2, e2. split_and!; try done; by etrans.
Qed.

Lemma wait_if_inflight_ok s tmp p e :
  inv s tmp → heap s !! p = Some e →
  ∃ s' e', wait_if_inflight p s = Ok s' ∧ inv s' tmp ∧ keeps s s' ∧ grows s s' ∧
    heap s' !! p = Some e' ∧ block_idx e' = block_idx e ∧ inflight e' = false.
Proof.
  intros I Hp. unfold wait_if_inflight. rewrite (entry_at_ok _ _ e) by done. cbn [mbind res_bind].
  destruct (inflight e) eqn:Ef; [|by exists s, e].
  destruct (io_wait_ok (Z.to_nat PREFETCH_QUEUE_CAP) s tmp p e) as (s' & e' & ? & ? & ? & HG & Hp' & ?); [done|done|by left| |].
  - pose proof (queue_list_length (prefetch s)). destruct (i_ring _ _ I) as (_ & ? & _). unfold queue. lia.
  - exists s', e'. split_and!; try done. destruct (HG _ _ Hp) as (e2 & ? & ? & _). congruence.
Qed.

(** ** Dirty entries *)

Lemma ent_ok_stored dev Q p e e' v :
  ent_ok dev Q p e → inflight e = false → length v = 4096%nat →
  block_idx e' = block_idx e → evicting e' = false → inflight e' = false → on_dirty_list e' = true →
  dirty e' = true → edata e' = Some v → ent_ok dev Q p e'.
Proof.
  intros [? ? Hi ? ? ?] Hf Hl Hb' Hev' Hf' Hod' Hd' Hv'. split; rewrite ?Hb', ?Hf', ?Hd' in *; try done; eauto.
  - rewrite <-Hi, Hf. done.
  - intros _ _. exists v. by rewrite Hv'.
Qed.

Lemma NoDup_snoc (l : list Z) p : NoDup l → p ∉ l → NoDup (l ++ [p]).
Proof. intros. apply NoDup_app. split; [done|]. split; [set_solver|apply NoDup_singleton]. Qed.

(** What [store_dirty] does: the list either has the entry already or gets it. *)
Lemma store_dirty_call s tmp p e sh v :
  inv s tmp → heap s !! p = Some e → shards s !! index_for (block_idx e) = Some sh → inflight e = false →
  ∃ l e2, store_dirty (block_idx e) p v s =
    Ok (with_shards (<[index_for (block_idx e) := set_dirty_list l sh]> (shards s)) (with_heap (<[p := e2]> (heap s)) s)) ∧
    block_idx e2 = block_idx e ∧ refcnt e2 = refcnt e ∧ edata e2 = Some v ∧ evicting e2 = false ∧ inflight e2 = false ∧
    dirty e2 = true ∧ on_dirty_list e2 = true ∧ NoDup l ∧ ∀ q, q ∈ l ↔ if decide (q = p) then True else q ∈ dirty_list sh.
Proof.
  intros I Hp Hsh Hf. pose proof (i_shard _ _ I _ _ Hsh) as Hso. pose proof (i_ent _ _ I _ _ Hp) as He.
  set (e1 := flags_or (Z.lor (Z.lor k_flag_dirty k_flag_valid) k_flag_accessed) (set_data (Some v) e)).
  assert (evicting e1 = false ∧ inflight e1 = false ∧ dirty e1 = true ∧ on_dirty_list e1 = on_dirty_list e) as (Fe & Ff & Fd & Fo).
  { pose proof (eo_evict _ _ _ _ He). unfold e1. split_and!; by flags_simpl. }
  unfold store_dirty. rewrite (upd_entry_ok _ _ _ e) by done. cbn [mbind res_bind].
  rewrite (entry_at_ok _ _ (set_data (Some v) e)) by apply lookup_insert_eq. cbn [mbind res_bind].
  rewrite (upd_entry_ok _ _ _ (set_data (Some v) e)) by apply lookup_insert_eq. cbn [mbind res_bind heap with_heap].
  rewrite insert_insert_eq. fold e1. change (dirty (set_data (Some v) e)) with (dirty e).
  assert (on_dirty_list e = true → p ∈ dirty_list sh) as Hlist by (intros; apply (so_dirty _ _ _ Hso); eauto).
  destruct (on_dirty_list e) eqn:Eo.
  - exists (dirty_list sh), e1. rewrite set_dirty_list_id, (insert_id (shards s)) by done.
    split; [|split_and!; try done; [apply (so_dirty_nodup _ _ _ Hso)|intros q; case_decide; [subst; tauto|done]] ].
    destruct (dirty e) eqn:Ed; cbn [negb]; [by destruct s|].
    unfold dirty_mark_locked. rewrite (entry_at_ok _ _ e1) by apply lookup_insert_eq. cbn [mbind res_bind]. rewrite Fe, Fo. by destruct s.
  - assert (dirty e = false) as -> by (destruct (dirty e) eqn:Ed; [apply (eo_dirty _ _ _ _ He) in Ed as []; congruence|done]).
    exists (dirty_list sh ++ [p]), (flags_or k_flag_on_dirty_list e1). split.
    + cbn [negb]. unfold dirty_mark_locked. rewrite (entry_at_ok _ _ e1) by apply lookup_insert_eq. cbn [mbind res_bind].
      rewrite Fe, Fo. rewrite (upd_shard_ok _ _ _ sh) by done. cbn [mbind res_bind].
      rewrite (upd_entry_ok _ _ _ e1) by apply lookup_insert_eq. unfold with_heap, with_shards; cbn. by rewrite insert_insert_eq.
    + split_and!; try done; try (by flags_simpl).
      * apply NoDup_snoc; [apply (so_dirty_nodup _ _ _ Hso)|]. rewrite (so_dirty _ _ _ Hso). intros (x & Hx & _ & ?). congruence.
      * intros q. rewrite elem_of_app, list_elem_of_singleton. case_decide; tauto.
Qed.

(** Changing only a shard's dirty list leaves every block where it was. *)
Lemma ptr_of_dirty s si sh l h pq b :
  shards s !! si = Some sh →
  ptr_of (with_prefetch pq (with_shards (<[si := set_dirty_list l sh]> (shards s)) (with_heap h s))) b = ptr_of s b.
Proof.
  intros Hsh. unfold ptr_of; cbn. destruct (decide (si = index_for b)) as [->|E].
  - by rewrite lookup_insert_eq, Hsh.
  - by rewrite lookup_insert_ne.
Qed.

(** [store_dirty]: the entry is dirty, listed, and holds the new contents. *)
Lemma store_dirty_ok s tmp p e b v :
  inv s tmp → heap s !! p = Some e → block_idx e = b → inflight e = false → length v = 4096%nat →
  ∃ s' e', store_dirty b p v s = Ok s' ∧ inv s' tmp ∧ grows s s' ∧ bdev s' = bdev s ∧
    (∀ c, view s' c = if decide (c = b) then Some v else view s c) ∧ heap s' !! p = Some e' ∧ inflight e' = false.
Proof.
  intros I Hp <- Hf Hl. destruct (shard_of s tmp (block_idx e) I) as (sh & Hsh & Hso).
  pose proof (i_ent _ _ I _ _ Hp) as He.
  destruct (store_dirty_call s tmp p e sh v I Hp Hsh Hf) as (l & e2 & -> & Hb2 & Hr2 & Hv2 & He2 & Hf2 & Hd2 & Ho2 & Hnd & Hin).
  eexists _, e2. split; [done|].
  assert (inv (with_shards (<[index_for (block_idx e) := set_dirty_list l sh]> (shards s)) (with_heap (<[p := e2]> (heap s)) s)) tmp) as I'.
  { eapply inv_update; eauto using ent_ok_stored, i_tmp, i_tmp_len.
    - rewrite Hr2. apply (i_ref _ _ I _ _ Hp).
    - intros q. rewrite Hin. case_decide; [|done]. by rewrite Ho2. }
  split; [done|]. split.
  { intros q x Hx. cbn. destruct (decide (q = p)) as [->|Hq]; [rewrite lookup_insert_eq|rewrite lookup_insert_ne by done; eauto].
    exists e2. simplify_eq. rewrite Hf2. done. }
  split; [done|]. split; [|split; [apply lookup_insert_eq|done]].
  intros c. erewrite (view_update s _ tmp tmp p e e2); eauto.
  - case_decide; [|done]. by rewrite Hf2.
  - intros c'. by apply (ptr_of_dirty s (index_for (block_idx e)) sh l (<[p := e2]> (heap s)) (prefetch s)).
Qed.

(** ** Writing to the disk *)

(** A block is written with what its cached copy, if there is one, holds. *)
Lemma inv_dev s tmp b v :
  inv s tmp → is_u32 b → length v = 4096%nat →
  (∀ e, ent_of s b = Some e → inflight e = false → edata e = Some v) →
  let s' := with_bdev (write_4k (bdev s) b v) s in
  inv s' tmp ∧ (∀ c, in_dev (bdev s') c ↔ in_dev (bdev s) c) ∧
  (∀ c, in_dev (bdev s) c → view s' c = if decide (c = b) then Some v else view s c) ∧
  (∀ c, in_dev (bdev s) c → try_read_4k (bdev s') c = if decide (c = b) then Some v else try_read_4k (bdev s) c).
Proof.
  intros I Hb Hl He s'. pose proof (i_dev _ _ I) as Hd.
  assert (disk_ok (bdev s') ∧ (∀ c, in_dev (bdev s') c ↔ in_dev (bdev s) c) ∧
    (∀ c, in_dev (bdev s) c → try_read_4k (bdev s') c = if decide (c = b) then Some v else try_read_4k (bdev s) c)) as (Hd' & Hin & Hrd).
  { destruct (decide (in_dev (bdev s) b)) as [Hb'|Hb'].
    - by apply write_in.
    - unfold s'; cbn. rewrite write_out by done. split_and!; [done..|]. intros c Hc. case_decide; [by subst|done]. }
  split_and!; [|done| |].
  - destruct I as [Iptr Ilink ? ? Ient ? ? ? ? ? ? ? ? ? ?]. split; try done. intros p e Hp.
    destruct (Ient _ _ Hp) as [? ? ? ? ? Hdat]. split; try done. intros Hf Hc%Hin.
    destruct (Hdat Hf Hc) as (v' & Hv' & Hl' & Hcl). exists v'. split_and!; [done..|]. intros Hcln. rewrite Hrd by done.
    case_decide as Hbe; [|by apply Hcl]. rewrite <-Hv'. symmetry. apply He; [|done].
    rewrite <-Hbe. unfold ent_of. rewrite (Iptr _ _ Hp). done.
  - intros c Hc. unfold view. change (ent_of s' c) with (ent_of s c). rewrite Hrd by done.
    case_decide as Hcb; [subst c|done]. destruct (ent_of s b) as [e|] eqn:E; [|done].
    destruct (inflight e) eqn:Ef; [done|]. by apply He.
  - done.
Qed.

(** ** Writing back *)

(** Off the dirty list: the entry's flag and its place in the list go together. *)
Definition unlisted (e : entry) : entry := flags_clear k_flag_on_dirty_list e.
Definition cleaned (e : entry) : entry := flags_clear k_flag_dirty (unlisted e).

Lemma unmark_call s p e sh :
  heap s !! p = Some e → on_dirty_list e = true → shards s !! index_for (block_idx e) = Some sh →
  dirty_unmark_locked (index_for (block_idx e)) p s =
    Ok (with_shards (<[index_for (block_idx e) := set_dirty_list (filter (.≠ p) (dirty_list sh)) sh]> (shards s))
          (with_heap (<[p := unlisted e]> (heap s)) s)).
Proof.
  intros Hp Ho Hsh. unfold dirty_unmark_locked. rewrite (entry_at_ok _ _ e) by done. cbn [mbind res_bind]. rewrite Ho. cbn [negb].
  rewrite (upd_shard_ok _ _ _ sh) by done. cbn [mbind res_bind]. by rewrite (upd_entry_ok _ _ _ e).
Qed.

Lemma filter_ne_elem (l : list Z) p q : q ∈ filter (.≠ p) l ↔ if decide (q = p) then False else q ∈ l.
Proof. rewrite list_elem_of_filter. case_decide; tauto. Qed.

(** A listed entry leaves the list with its data on the disk, or was clean. *)
Lemma inv_unlist s tmp p e e' sh :
  inv s tmp → heap s !! p = Some e → shards s !! index_for (block_idx e) = Some sh →
  block_idx e' = block_idx e → refcnt e' = refcnt e → io_done e' = io_done e → edata e' = edata e →
  evicting e' = false → inflight e' = inflight e → dirty e' = false → on_dirty_list e' = false →
  (dirty e = true → in_dev (bdev s) (block_idx e) → try_read_4k (bdev s) (block_idx e) = edata e) →
  let s' := with_shards (<[index_for (block_idx e) := set_dirty_list (filter (.≠ p) (dirty_list sh)) sh]> (shards s))
              (with_heap (<[p := e']> (heap s)) s) in
  inv s' tmp ∧ keeps s s' ∧ grows s s'.
Proof.
  intros I Hp Hsh Hb Hr Hio Hd Hev Hf Hcl Hol Hdisk s'. pose proof (i_shard _ _ I _ _ Hsh) as Hso.
  destruct (i_ent _ _ I _ _ Hp) as [? ? Hi ? ? Hdat].
  assert (inv s' tmp) as I'.
  { eapply inv_update; eauto using i_tmp, i_tmp_len.
    - split; rewrite ?Hb, ?Hf, ?Hcl, ?Hio, ?Hd; try done. intros Hf' Hin. destruct (Hdat Hf' Hin) as (v & Hv & Hl & Hc).
      exists v. split_and!; try done. intros _. destruct (dirty e); [|by apply Hc]. rewrite <-Hv. by apply Hdisk.
    - rewrite Hr. apply (i_ref _ _ I _ _ Hp).
    - apply NoDup_filter, (so_dirty_nodup _ _ _ Hso).
    - intros q. rewrite filter_ne_elem, Hol. by case_decide. }
  split; [done|]. split.
  - apply keeps_view; [done|]. intros b. erewrite (view_update s s' tmp tmp p e e'); eauto.
    + case_decide as Hbe; [|done]. subst b. unfold view. by rewrite (ent_of_heap _ _ _ _ I Hp), Hf, Hd.
    + intros c. by apply (ptr_of_dirty s _ sh _ _ (prefetch s)).
  - intros q x Hx. cbn. destruct (decide (q = p)) as [->|Hq]; [rewrite lookup_insert_eq|rewrite lookup_insert_ne by done; eauto].
    exists e'. simplify_eq. rewrite Hf. done.
Qed.

(** The state after a write-back: disk, flags and list. *)
Definition written_back s (p : Z) e (sh : shard) (v : buffer) : bcache D :=
  with_shards (<[index_for (block_idx e) := set_dirty_list (filter (.≠ p) (dirty_list sh)) sh]> (shards s))
    (with_heap (<[p := cleaned e]> (heap s)) (with_bdev (write_4k (bdev s) (block_idx e) v) s)).

Lemma written_back_ok s tmp p e sh v :
  inv s tmp → heap s !! p = Some e → shards s !! index_for (block_idx e) = Some sh →
  dirty e = true → edata e = Some v → length v = 4096%nat →
  inv (written_back s p e sh v) tmp ∧ keeps s (written_back s p e sh v) ∧ grows s (written_back s p e sh v) ∧
  (in_dev (bdev s) (block_idx e) → try_read_4k (bdev (written_back s p e sh v)) (block_idx e) = Some v).
Proof.
  intros I Hp Hsh Hd Hv Hl. pose proof (i_ent _ _ I _ _ Hp) as He.
  pose proof (eo_evict _ _ _ _ He) as Hev.
  pose proof (eo_dirty _ _ _ _ He Hd) as (Ho & Hf & _). pose proof (eo_block _ _ _ _ He) as Hu.
  destruct (inv_dev s tmp (block_idx e) v) as (I1 & Hin & Hvw & Hrd); [done..| |].
  { intros e0. rewrite (ent_of_heap _ _ _ _ I Hp). by intros [= <-]. }
  set (s1 := with_bdev _ s) in *.
  destruct (inv_unlist s1 tmp p e (cleaned e) sh) as (I2 & K2 & G2); try done; try (unfold cleaned, unlisted; by flags_simpl).
  { intros _ Hc. rewrite Hv, Hrd, decide_True; [done..|]. by apply Hin. }
  assert (view s (block_idx e) = Some v) as Hvs by (unfold view; by rewrite (ent_of_heap _ _ _ _ I Hp), Hf).
  split; [exact I2|]. split; [|split; [exact G2|] ].
  - etrans; [|exact K2]. split; [exact Hin|]. split; intros b Hb.
    + rewrite Hvw by done. case_decide; [congruence|done].
    + rewrite Hrd by done. case_decide; [right; congruence|by left].
  - intros Hb. change (try_read_4k (bdev s1) (block_idx e) = Some v). by rewrite Hrd, decide_True.
Qed.

(** The dirty list of a shard. *)
Definition dl s (si : Z) : list Z := default [] (dirty_list <$> shards s !! si).

Lemma dl_update s si sj sh l h d :
  shards s !! si = Some sh →
  dl (with_shards (<[si := set_dirty_list l sh]> (shards s)) (with_heap h (with_bdev d s))) sj = if decide (sj = si) then l else dl s sj.
Proof.
  intros Hsh. unfold dl; cbn. case_decide as E; [subst|].
  - by rewrite lookup_insert_eq.
  - by rewrite lookup_insert_ne.
Qed.

Lemma filter_ne_head p (l : list Z) : NoDup (p :: l) → filter (.≠ p) (p :: l) = l.
Proof.
  intros [Hp _]%NoDup_cons. rewrite filter_cons_False by (intros []; done).
  induction l as [|x l IH]; [done|]. rewrite not_elem_of_cons in Hp. destruct Hp as [? ?].
  rewrite filter_cons_True by done. by rewrite IH.
Qed.

Lemma sync_turn_ok s tmp si sh :
  inv s tmp → shards s !! si = Some sh →
  ∃ s', sync_turn si s = Ok (bool_decide (dirty_list sh ≠ []), s') ∧ inv s' tmp ∧ keeps s s' ∧ grows s s' ∧
    ∀ sj, dl s' sj = if decide (sj = si) then tl (dirty_list sh) else dl s sj.
Proof.
  intros I Hsh. pose proof (i_shard _ _ I _ _ Hsh) as Hso. unfold sync_turn, shard_at. rewrite Hsh. cbn [mbind res_bind].
  destruct (dirty_list sh) as [|p rest] eqn:El.
  { exists s. split_and!; try done. intros sj. case_decide; [subst; unfold dl; by rewrite Hsh; simpl; rewrite El|done]. }
  assert (p ∈ dirty_list sh) as Hpin by (rewrite El; left). apply (so_dirty _ _ _ Hso) in Hpin as (e & Hp & <- & Ho).
  pose proof (i_ent _ _ I _ _ Hp) as He. pose proof (eo_evict _ _ _ _ He) as Hev.
  pose proof (so_dirty_nodup _ _ _ Hso) as Hnd. rewrite El in Hnd.
  rewrite (unmark_call _ _ _ sh) by done. cbn [mbind res_bind].
  rewrite (entry_at_ok _ _ (unlisted e)) by apply lookup_insert_eq. cbn [mbind res_bind].
  assert (dirty (unlisted e) = dirty e ∧ evicting (unlisted e) = false) as [-> ->] by (unfold unlisted; split; by flags_simpl; rewrite ?Hev).
  rewrite orb_false_r, bool_decide_true by done. destruct (dirty e) eqn:Ed; cbn [negb].
  - pose proof (eo_dirty _ _ _ _ He Ed) as (_ & Hf & v & Hv & Hl).
    exists (written_back s p e sh v). destruct (written_back_ok s tmp p e sh v) as (? & ? & ? & _); [done..|]. split; [|split_and!; try done].
    + pose proof (i_ref _ _ I _ _ Hp) as Hr. pose proof (refs_bound s _ p I) as Hb.
      unfold get. erewrite upd_entry_ok by apply lookup_insert_eq. cbn [mbind res_bind heap with_heap with_shards].
      erewrite upd_entry_ok by apply lookup_insert_eq. cbn [mbind res_bind heap with_heap with_shards].
      change (edata (unlisted e)) with (edata e). rewrite Hv. cbn [write_back mbind res_bind].
      unfold put. erewrite entry_at_ok by apply lookup_insert_eq. cbn [mbind res_bind].
      erewrite upd_entry_ok by apply lookup_insert_eq. cbn [mbind res_bind heap with_heap with_shards with_bdev].
      rewrite !insert_insert_eq. cbn [refcnt flags_clear set_flags set_refcnt unlisted].
      rewrite (u32_small (refcnt e + 1)) by lia. case_if; [|exfalso; bool_simpl; lia].
      unfold written_back, cleaned, unlisted, flags_clear, set_flags, set_refcnt; cbn. rewrite u32_small by lia.
      replace (refcnt e + 1 - 1) with (refcnt e) by lia. done.
    + intros sj. unfold written_back. rewrite dl_update by done. rewrite El, filter_ne_head by done. done.
  - destruct (inv_unlist s tmp p e (unlisted e) sh) as (? & ? & ?); try done; try (unfold unlisted; by flags_simpl).
    { intros. congruence. }
    eexists. split_and!; try done. intros sj. rewrite El, filter_ne_head by done.
    by apply (dl_update s _ sj sh rest _ (bdev s)).
Qed.

Lemma dl_shard s si sh : shards s !! si = Some sh → dl s si = dirty_list sh.
Proof. unfold dl. by intros ->. Qed.

Lemma sync_shard_ok fuel s tmp si :
  inv s tmp → 0 ≤ si < 64 → (length (dl s si) < fuel)%nat →
  ∃ s', sync_shard fuel si s = Ok s' ∧ inv s' tmp ∧ keeps s s' ∧ grows s s' ∧
    ∀ sj, dl s' sj = if decide (sj = si) then [] else dl s sj.
Proof.
  revert s. induction fuel as [|fuel IH]; intros s I Hsi Hlen; [lia|]. simpl.
  destruct (i_shards _ _ I si Hsi) as [sh Hsh]. pose proof (dl_shard _ _ _ Hsh) as Hdl.
  destruct (sync_turn_ok s tmp si sh I Hsh) as (s1 & -> & I1 & K1 & G1 & Hdl1). cbn [mbind res_bind fst snd].
  case_bool_decide as Hne.
  - destruct (IH s1 I1 Hsi) as (s2 & -> & I2 & K2 & G2 & Hdl2).
    { rewrite Hdl1, decide_True by done. rewrite Hdl in Hlen. destruct (dirty_list sh); simpl in *; [done|lia]. }
    exists s2. split_and!; try done; try (by etrans). intros sj. rewrite Hdl2, Hdl1. by case_decide.
  - exists s1. split_and!; try done. intros sj. rewrite Hdl1. case_decide; [|done].
    destruct (dirty_list sh); done.
Qed.

Lemma sync_shards_ok l s tmp :
  inv s tmp → Forall (λ si, 0 ≤ si < 64) l →
  ∃ s', sync_shards l s = Ok s' ∧ inv s' tmp ∧ keeps s s' ∧ grows s s' ∧
    ∀ sj, dl s' sj = if decide (sj ∈ l) then [] else dl s sj.
Proof.
  revert s. induction l as [|si l IH]; intros s I Hl; cbn [sync_shards].
  { exists s. split_and!; try done. }
  apply Forall_cons in Hl as [Hsi Hl]. destruct (i_shards _ _ I si Hsi) as [sh Hsh]. unfold shard_at. rewrite Hsh. cbn [mbind res_bind].
  destruct (sync_shard_ok (S (length (dirty_list sh))) s tmp si I Hsi) as (s1 & -> & I1 & K1 & G1 & Hd1); [rewrite (dl_shard _ _ _ Hsh); lia|].
  cbn [mbind res_bind]. destruct (IH s1 I1 Hl) as (s2 & -> & I2 & K2 & G2 & Hd2).
  exists s2. split_and!; try done; try (by etrans). intros sj. rewrite Hd2, Hd1. repeat case_decide; set_solver.
Qed.

(** With nothing dirty the disk holds what the cache shows. *)
Lemma no_dirty_disk s tmp b :
  inv s tmp → dl s (index_for b) = [] → in_dev (bdev s) b → try_read_4k (bdev s) b = view s b.
Proof.
  intros I Hdl Hb. unfold view. destruct (ent_of s b) as [e|] eqn:E; [|done]. destruct (inflight e) eqn:Ef; [done|].
  apply (ent_of_inv _ _ _ _ I) in E as (p & _ & Hp & Hbe). pose proof (i_ent _ _ I _ _ Hp) as He. rewrite <-Hbe in *.
  destruct (eo_data _ _ _ _ He Ef Hb) as (v & -> & _ & Hc). apply Hc. destruct (dirty e) eqn:Ed; [|done]. exfalso.
  destruct (eo_dirty _ _ _ _ He Ed) as (Ho & _). destruct (shard_of s tmp (block_idx e) I) as (sh & Hsh & Hso).
  assert (p ∈ dirty_list sh) as Hin by (apply (so_dirty _ _ _ Hso); eauto).
  rewrite (dl_shard _ _ _ Hsh) in Hdl. rewrite Hdl in Hin. by apply not_elem_of_nil in Hin.
Qed.

Lemma bcache_sync_ok s tmp :
  inv s tmp →
  ∃ s', bcache_sync s = Ok s' ∧ inv s' tmp ∧ keeps s s' ∧ ∀ b, in_dev (bdev s') b → try_read_4k (bdev s') b = view s' b.
Proof.
  intros I. destruct (sync_shards_ok (seqZ 0 BCACHE_SHARDS) s tmp I) as (s' & Hs & I' & K & G & Hd).
  { apply Forall_forall. intros si Hsi%elem_of_seqZ. unfold BCACHE_SHARDS in Hsi. lia. }
  exists s'. split_and!; try done. intros b Hb. eapply no_dirty_disk; eauto. rewrite Hd, decide_True; [done|].
  apply elem_of_seqZ. pose proof (index_for_range b). unfold BCACHE_SHARDS. lia.
Qed.

Lemma flush_block_ok s tmp b :
  inv s tmp → (length tmp ≤ 3)%nat →
  ∃ s', bcache_flush_block b s = Ok s' ∧ inv s' tmp ∧ keeps s s' ∧ (in_dev (bdev s') b → try_read_4k (bdev s') b = view s' b).
Proof.
  intros I Hlen. unfold bcache_flush_block. cbv zeta. destruct (shard_of s tmp b I) as (sh & Hsh & Hso). unfold shard_at. rewrite Hsh.
  cbn [mbind res_bind]. destruct (map sh !! b) as [p|] eqn:Eb.
  2:{ exists s. split_and!; try done. intros _. unfold view, ent_of, ptr_of. rewrite Hsh. simpl. by rewrite Eb. }
  assert (ptr_of s b = Some p) as Hptr by (unfold ptr_of; by rewrite Hsh).
  destruct (i_link _ _ I _ _ Hptr) as (e & Hp & <-). pose proof (i_ent _ _ I _ _ Hp) as He. pose proof (eo_evict _ _ _ _ He) as Hev.
  destruct (entry_get_ok s tmp p e I Hp Hlen) as (-> & I1 & K1 & G1). cbn [mbind res_bind].
  rewrite (entry_at_ok _ _ (set_refcnt (refcnt e + 1) e)) by apply lookup_insert_eq. cbn [mbind res_bind].
  change (dirty (set_refcnt (refcnt e + 1) e)) with (dirty e). destruct (dirty e) eqn:Ed; cbn [negb].
  - pose proof (eo_dirty _ _ _ _ He Ed) as (Ho & Hf & v & Hv & Hl).
    exists (written_back s p e sh v). destruct (written_back_ok s tmp p e sh v) as (I2 & K2 & G2 & Hrd); [done..|].
    split; [|split_and!; try done].
    + pose proof (i_ref _ _ I _ _ Hp) as Hr. pose proof (refs_bound s _ p I) as Hb.
      change (block_idx e) with (block_idx (set_refcnt (refcnt e + 1) e)) at 1.
      rewrite (unmark_call _ _ (set_refcnt (refcnt e + 1) e) sh); [|apply lookup_insert_eq|done|done]. cbn [mbind res_bind].
      erewrite upd_entry_ok by apply lookup_insert_eq. cbn [mbind res_bind].
      erewrite entry_at_ok by apply lookup_insert_eq. cbn [mbind res_bind].
      unfold put. erewrite entry_at_ok by apply lookup_insert_eq. cbn [mbind res_bind].
      erewrite upd_entry_ok by apply lookup_insert_eq. cbn [mbind res_bind heap with_heap with_shards with_bdev].
      rewrite !insert_insert_eq. cbn [refcnt flags_clear set_flags set_refcnt unlisted].
      case_if; [|exfalso; bool_simpl; lia]. cbn [mbind res_bind]. unfold write_back; cbn [edata flags_clear set_flags unlisted set_refcnt].
      rewrite Hv. unfold written_back, cleaned, unlisted, flags_clear, set_flags, set_refcnt; cbn. rewrite u32_small by lia.
      replace (refcnt e + 1 - 1) with (refcnt e) by lia. done.
    + intros Hin. destruct K2 as (K2 & K2' & _). apply K2 in Hin. rewrite Hrd by done. rewrite K2' by done.
      unfold view. by rewrite (ent_of_heap _ _ _ _ I Hp), Hf, Hv.
  - destruct (put_ok _ _ _ I1) as (e1 & _ & -> & I2 & K2 & G2). eexists. split; [done|]. split; [done|].
    assert (keeps s (with_heap (<[p := set_refcnt (refcnt e1 - 1) e1]> (<[p := set_refcnt (refcnt e + 1) e]> (heap s))) s)) as K by (by etrans).
    split; [done|]. destruct K as (_ & K' & _). intros Hin. rewrite K' by done. unfold view. rewrite (ent_of_heap _ _ _ _ I Hp).
    destruct (inflight e) eqn:Ef; [done|]. destruct (eo_data _ _ _ _ He Ef Hin) as (v & -> & _ & Hc). by apply Hc.
Qed.

End Ops.
