(* ===== verification/BcacheEvict.v ===== *)
(** * The block cache: creating and evicting entries

    The CLOCK hand, eviction with its write-back, making room, creating and
    looking up entries, readahead and the shrinker. *)

From S2P Require Import Prelude Bdev Bcache BcacheInv BcacheOps.

Section Evict.
Context `{RD : ReliableDisk D}.
Implicit Types (s : bcache D) (e : entry) (dev : option D).

(** The size and the limit of a shard. *)
Definition sizes s (si : Z) : Z * Z := match shards s !! si with Some sh => (entries sh, max_entries sh) | None => (0, 0) end.

Lemma sizes_shard s si sh : shards s !! si = Some sh → sizes s si = (entries sh, max_entries sh).
Proof. unfold sizes. by intros ->. Qed.

(** Blocks that were not cached are still not. *)
Definition drops s s' : Prop := ∀ b, ptr_of s b = None → ptr_of s' b = None.

#[export] Instance drops_preorder : PreOrder drops.
Proof. split; [by intros s b|]. intros s1 s2 s3 H1 H2 b Hb. auto. Qed.

(** Turning the ring. *)
Lemma inv_clock s tmp si sh l :
  inv s tmp → shards s !! si = Some sh → clock sh ≡ₚ l →
  let s' := with_shards (<[si := set_clock l sh]> (shards s)) s in
  inv s' tmp ∧ (∀ b, ptr_of s' b = ptr_of s b) ∧ keeps s s' ∧ ∀ sj, sizes s' sj = sizes s sj.
Proof.
  intros I Hsh Hl s'.
  assert (∀ b, ptr_of s' b = ptr_of s b) as Eptr.
  { intros b. unfold ptr_of; cbn. destruct (decide (si = index_for b)) as [->|E].
    - by rewrite lookup_insert_eq, Hsh.
    - by rewrite lookup_insert_ne. }
  split_and!.
  - destruct I as [Iptr Ilink Ish Iso ? ? ? ? ? ? ? ? ? ? ?]. split; try done.
    + intros p e Hp. rewrite Eptr. by apply Iptr.
    + intros b p. rewrite Eptr. apply Ilink.
    + intros sj Hsj. cbn. destruct (decide (si = sj)) as [->|E]; [rewrite lookup_insert_eq; eauto|].
      rewrite lookup_insert_ne by done. by apply Ish.
    + intros sj sh'. cbn. destruct (decide (si = sj)) as [<-|E].
      * rewrite lookup_insert_eq. intros [= <-]. destruct (Iso _ _ Hsh) as [? Hnd Hc ? ? He ? ?].
        split; cbn [map clock dirty_list entries max_entries set_clock]; try done.
        -- by rewrite <-Hl.
        -- intros p. by rewrite <-Hl.
        -- by rewrite <-Hl.
      * rewrite lookup_insert_ne by done. apply Iso.
  - done.
  - apply keeps_view; [done|]. intros b. unfold view, ent_of. by rewrite Eptr.
  - intros sj. unfold sizes; cbn. destruct (decide (si = sj)) as [<-|E].
    + by rewrite lookup_insert_eq, Hsh.
    + by rewrite lookup_insert_ne.
Qed.

(** The accessed bit, cleared. *)
Lemma untouch_ok s tmp p e :
  inv s tmp → heap s !! p = Some e →
  ∃ s', upd_entry (flags_clear k_flag_accessed) p s = Ok s' ∧ inv s' tmp ∧ keeps s s' ∧ shards s' = shards s.
Proof.
  intros I Hp. eexists. split; [by apply upd_entry_ok|].
  assert (∀ f : entry → bool, f = evicting ∨ f = inflight ∨ f = dirty ∨ f = on_dirty_list → f (flags_clear k_flag_accessed e) = f e) as Hf.
  { intros f Hf. destruct Hf as [-> | [-> | [-> | ->] ] ]; by flags_simpl. }
  split; [|split].
  - eapply inv_entry; eauto using i_tmp, i_tmp_len.
    + destruct (i_ent _ _ I _ _ Hp). split; rewrite ?(Hf evicting), ?(Hf inflight), ?(Hf dirty), ?(Hf on_dirty_list) by tauto; done.
    + by rewrite <-(i_ref _ _ I _ _ Hp).
    + by rewrite (Hf inflight) by tauto.
  - apply keeps_view; [done|]. by eapply view_entry; eauto.
  - done.
Qed.

(** ** Unlinking an entry *)

(** A shard without the entry [p] of block [b]. *)
Definition unlinked (p b : Z) (sh : shard) : shard :=
  Shard (delete b (map sh)) (filter (.≠ p) (clock sh)) (filter (.≠ p) (dirty_list sh)) (u32 (entries sh - 1)) (max_entries sh).

Lemma length_filter_ne (l : list Z) p : NoDup l → p ∈ l → S (length (filter (.≠ p) l)) = length l.
Proof.
  intros Hnd Hin. induction l as [|x l IH]; [by apply not_elem_of_nil in Hin|].
  pose proof Hnd as [Hx Hnd']%NoDup_cons. destruct (decide (x = p)) as [->|Hxp].
  - rewrite filter_ne_head by done. done.
  - rewrite filter_cons_True by done. simpl. rewrite IH; [done|done|]. by apply elem_of_cons in Hin as [|].
Qed.

Lemma inv_unlink s tmp p e sh :
  inv s tmp → heap s !! p = Some e → shards s !! index_for (block_idx e) = Some sh → refs s tmp p = 1 →
  let s' := with_shards (<[index_for (block_idx e) := unlinked p (block_idx e) sh]> (shards s)) (with_heap (delete p (heap s)) s) in
  inv s' tmp ∧ ptr_of s' (block_idx e) = None ∧ drops s s' ∧
  (∀ b, view s' b = if decide (b = block_idx e) then try_read_4k (bdev s) b else view s b) ∧
  ∀ sj, sizes s' sj = if decide (sj = index_for (block_idx e)) then (entries sh - 1, max_entries sh) else sizes s sj.
Proof.
  intros I Hp Hsh Hr s'. unfold s'. clear s'. remember (block_idx e) as bi eqn:Hbi. set (s' := with_shards _ _).
  pose proof (i_shard _ _ I _ _ Hsh) as Hso.
  assert (p ∈ clock sh) as Hpc by (apply (so_clock _ _ _ Hso); exists e; split; congruence).
  pose proof (length_filter_ne _ _ (so_clock_nodup _ _ _ Hso) Hpc) as Hlen.
  pose proof (so_entries _ _ _ Hso) as Hent. pose proof (so_bound _ _ _ Hso). pose proof (so_max _ _ _ Hso).
  assert (u32 (entries sh - 1) = entries sh - 1) as Hu by (apply u32_small; lia).
  assert (hot_refs (hot s) p = 0%nat ∧ occ (queue s) p = 0%nat ∧ occ tmp p = 0%nat) as (Hr1 & Hr2 & Hr3) by (unfold refs in Hr; lia).
  assert (∀ b, ptr_of s' b = if decide (b = bi) then None else ptr_of s b) as Eptr.
  { intros b. unfold ptr_of; cbn. destruct (decide (index_for bi = index_for b)) as [E|E].
    - rewrite <-E, lookup_insert_eq, Hsh. simpl. case_decide as Hb; [subst; apply lookup_delete_eq|by rewrite lookup_delete_ne].
    - rewrite lookup_insert_ne by done. case_decide as Hb; [rewrite Hb in E; done|done]. }
  assert (ptr_of s bi = Some p) as Hptr by (rewrite Hbi; apply (i_ptr _ _ I _ _ Hp)).
  assert (∀ q x, delete p (heap s) !! q = Some x ↔ q ≠ p ∧ heap s !! q = Some x) as Hdel.
  { intros q x. rewrite lookup_delete_Some. naive_solver. }
  assert (∀ q x, heap s !! q = Some x → q ≠ p → block_idx x ≠ bi) as Hother.
  { intros q x Hx Hq Hb. apply (i_ptr _ _ I) in Hx. rewrite Hb, Hptr in Hx. congruence. }
  split_and!.
  - split; unfold queue; cbn [heap shards hot prefetch bdev brk mem_node with_shards with_heap s'].
    + intros q x [Hq Hx]%Hdel. rewrite Eptr, decide_False by eauto. by apply (i_ptr _ _ I).
    + intros b q. rewrite Eptr. case_decide as Hb; [done|]. intros Hq. destruct (i_link _ _ I _ _ Hq) as (x & Hx & <-).
      exists x. split; [|done]. apply Hdel. split; [|done]. intros ->. congruence.
    + intros sj Hsj. destruct (decide (index_for bi = sj)) as [<-|E]; [rewrite lookup_insert_eq; eauto|].
      rewrite lookup_insert_ne by done. by apply (i_shards _ _ I).
    + intros sj sh'. destruct (decide (index_for bi = sj)) as [<-|E].
      * rewrite lookup_insert_eq. intros [= <-]. split; cbn [map clock dirty_list entries max_entries unlinked]; rewrite ?Hu.
        -- intros b q [_ ?]%lookup_delete_Some. by eapply (so_home _ _ _ Hso).
        -- apply NoDup_filter, (so_clock_nodup _ _ _ Hso).
        -- intros q. rewrite list_elem_of_filter, (so_clock _ _ _ Hso). setoid_rewrite Hdel. naive_solver.
        -- apply NoDup_filter, (so_dirty_nodup _ _ _ Hso).
        -- intros q. rewrite list_elem_of_filter, (so_dirty _ _ _ Hso). setoid_rewrite Hdel. naive_solver.
        -- lia.
        -- done.
        -- lia.
      * rewrite lookup_insert_ne by done. intros Hsh'. pose proof (i_shard _ _ I _ _ Hsh') as Hso'. split; try apply Hso'.
        -- intros q. rewrite (so_clock _ _ _ Hso'). setoid_rewrite Hdel. split; [|naive_solver].
           intros (x & Hx & Hxs). exists x. split; [|done]. split; [|done]. intros ->. congruence.
        -- intros q. rewrite (so_dirty _ _ _ Hso'). setoid_rewrite Hdel. split; [|naive_solver].
           intros (x & Hx & Hxs & ?). exists x. split; [|done]. split; [|done]. intros ->. congruence.
    + intros q x [_ Hx]%Hdel. by apply (i_ent _ _ I).
    + intros q x [_ Hx]%Hdel. by apply (i_ref _ _ I).
    + intros q x [_ Hx]%Hdel. by eapply (i_brk _ _ I).
    + intros c k b q Hq. destruct (i_hot _ _ I _ _ _ _ Hq) as (Hc & Hk & x & Hx & Hxb & Hxf). split; [done|]. split; [done|].
      exists x. split; [|done]. apply Hdel. split; [|done]. intros ->. apply hot_refs_pos in Hq. lia.
    + apply (i_ring _ _ I).
    + apply (i_queue_nodup _ _ I).
    + intros q Hq. destruct (i_queue _ _ I _ Hq) as [x Hx]. exists x. apply Hdel. split; [|done]. intros ->. apply elem_of_occ in Hq. unfold queue in *. lia.
    + intros q Hq. destruct (i_tmp _ _ I _ Hq) as [x Hx]. exists x. apply Hdel. split; [|done]. intros ->. apply elem_of_occ in Hq. lia.
    + apply (i_tmp_len _ _ I).
    + apply (i_dev _ _ I).
    + apply (i_node _ _ I).
  - rewrite Eptr. by rewrite decide_True.
  - intros b Hb. rewrite Eptr. by case_decide.
  - intros b. unfold view, ent_of. rewrite Eptr. case_decide as Hb; [done|]. destruct (ptr_of s b) as [q|] eqn:Eq; [|done].
    cbn. rewrite lookup_delete_ne; [done|]. intros <-. destruct (i_link _ _ I _ _ Eq) as (x & Hx & <-). congruence.
  - intros sj. unfold sizes; cbn. case_decide as E; [subst sj|].
    + rewrite lookup_insert_eq. cbn. by rewrite Hu.
    + by rewrite lookup_insert_ne.
Qed.

(** ** Eviction *)

Lemma filter_ne_id (l : list Z) p : p ∉ l → filter (.≠ p) l = l.
Proof.
  induction l as [|x l IH]; [done|]. rewrite not_elem_of_cons. intros [? ?]. rewrite filter_cons_True by done. by rewrite IH.
Qed.

(** What eviction leaves: the entry, dead, outside every structure. *)
Lemma evict_unlink_call s tmp p e sh :
  inv s tmp → heap s !! p = Some e → shards s !! index_for (block_idx e) = Some sh →
  let e0 := flags_or k_flag_evicting e in
  ∃ e3, evict_unlink (index_for (block_idx e)) p (with_heap (<[p := e0]> (heap s)) s) =
    Ok (Evicted (block_idx e) p (dirty e) (if dirty e then edata e else None),
        with_shards (<[index_for (block_idx e) := unlinked p (block_idx e) sh]> (shards s)) (with_heap (<[p := e3]> (heap s)) s)) ∧
    evicting e3 = true ∧ refcnt e3 = refcnt e.
Proof.
  intros I Hp Hsh e0. pose proof (i_shard _ _ I _ _ Hsh) as Hso.
  assert (evicting e0 = true ∧ dirty e0 = dirty e ∧ on_dirty_list e0 = on_dirty_list e) as (F1 & F2 & F3) by (unfold e0; split_and!; by flags_simpl).
  assert (∃ e1, dirty_unmark_locked (index_for (block_idx e)) p (with_heap (<[p := e0]> (heap s)) s) =
    Ok (with_shards (<[index_for (block_idx e) := set_dirty_list (filter (.≠ p) (dirty_list sh)) sh]> (shards s))
          (with_heap (<[p := e1]> (heap s)) s)) ∧
    block_idx e1 = block_idx e ∧ refcnt e1 = refcnt e ∧ edata e1 = edata e ∧ evicting e1 = true ∧ dirty e1 = dirty e)
    as (e1 & Hun & Hb1 & Hr1 & Hd1 & He1 & Hdt1).
  { destruct (on_dirty_list e) eqn:Eo.
    - exists (unlisted e0). split.
      + change (block_idx e) with (block_idx e0). rewrite (unmark_call _ _ e0 sh); [|apply lookup_insert_eq|congruence|done].
        unfold with_heap, with_shards; cbn. by rewrite insert_insert_eq.
      + split_and!; try done; unfold unlisted, e0; flags_simpl; done.
    - exists e0. split; [|done]. rewrite filter_ne_id, set_dirty_list_id, (insert_id (shards s)) by
        (done || (rewrite (so_dirty _ _ _ Hso); intros (x & Hx & _ & ?); congruence)).
      unfold dirty_unmark_locked. rewrite (entry_at_ok _ _ e0) by apply lookup_insert_eq. cbn [mbind res_bind]. rewrite F3. by destruct s. }
  assert (∃ e3, (if dirty e then e3 = flags_clear k_flag_dirty e1 else e3 = e1) ∧ evicting e3 = true ∧ refcnt e3 = refcnt e) as (e3 & He3 & Hev3 & Hr3).
  { destruct (dirty e); eexists; (split; [done|]); [|done]. split; [|done]. by flags_simpl. }
  exists e3. split; [|done]. unfold evict_unlink. rewrite Hun. cbn [mbind res_bind].
  rewrite (entry_at_ok _ _ e1) by apply lookup_insert_eq. cbn [mbind res_bind].
  do 3 (erewrite upd_shard_ok by apply lookup_insert_eq; cbn [mbind res_bind shards with_shards with_heap]; rewrite ?insert_insert_eq).
  rewrite Hdt1, Hb1, Hd1. destruct (dirty e).
  - erewrite upd_entry_ok by apply lookup_insert_eq. cbn [mbind res_bind heap with_shards with_heap]. rewrite insert_insert_eq. by subst e3.
  - by subst e3.
Qed.

(** What an eviction owes: once the entry is gone, the disk must get its data. *)
Definition evicted_from s tmp (si : Z) (ev : evicted) s' : Prop :=
  ∃ e, heap s' !! ev_entry ev = Some e ∧ refcnt e = 1 ∧ evicting e = true ∧ is_u32 (ev_block ev) ∧ bdev s' = bdev s ∧
    let s'' := with_heap (delete (ev_entry ev) (heap s')) s' in
    inv s'' tmp ∧ ptr_of s'' (ev_block ev) = None ∧ drops s s'' ∧
    (∀ b, view s'' b = if decide (b = ev_block ev) then try_read_4k (bdev s) b else view s b) ∧
    (if ev_dirty ev then ∃ v, ev_data ev = Some v ∧ length v = 4096%nat ∧ view s (ev_block ev) = Some v
     else in_dev (bdev s) (ev_block ev) → view s (ev_block ev) = try_read_4k (bdev s) (ev_block ev)) ∧
    ∀ sj, sizes s'' sj = if decide (sj = si) then ((sizes s si).1 - 1, (sizes s si).2) else sizes s sj.

Lemma evicted_from_mono s0 s tmp si ev s' :
  bdev s = bdev s0 → drops s0 s → (∀ b, view s b = view s0 b) → (∀ sj, sizes s sj = sizes s0 sj) →
  evicted_from s tmp si ev s' → evicted_from s0 tmp si ev s'.
Proof.
  intros Hd Hdr Hv Hz (e & ? & ? & ? & ? & Hbd & I & Hn & Hdr' & Hvw & Hdt & Hsz). exists e. rewrite Hd in *. do 7 (split; [done|]).
  split; [by etrans|]. split; [|split].
  - intros b. rewrite Hvw. case_decide; [done|]. apply Hv.
  - by rewrite <-Hv.
  - intros sj. rewrite Hsz. case_decide; by rewrite !Hz.
Qed.

Lemma try_evict_loop_ok n s tmp si :
  inv s tmp → 0 ≤ si < 64 → (∃ sh, shards s !! si = Some sh ∧ clock sh ≠ []) →
  ∃ r s', try_evict_loop n si s = Ok (r, s') ∧
    match r with
    | None => inv s' tmp ∧ bdev s' = bdev s ∧ drops s s' ∧ (∀ b, view s' b = view s b) ∧ ∀ sj, sizes s' sj = sizes s sj
    | Some ev => evicted_from s tmp si ev s'
    end.
Proof.
  revert s. induction n as [|n IH]; intros s I Hsi (sh & Hsh & Hne); cbn [try_evict_loop].
  { exists None, s. by split_and!. }
  unfold shard_at. rewrite Hsh. cbn [mbind res_bind]. destruct (clock sh) as [|cand rest] eqn:Ec; [done|]. clear Hne.
  rewrite (upd_shard_ok _ _ _ sh) by done. cbn [mbind res_bind].
  pose proof (i_shard _ _ I _ _ Hsh) as Hso.
  destruct (inv_clock s tmp si sh (rest ++ [cand]) I Hsh) as (I1 & Hp1 & K1 & Hz1); [rewrite Ec; apply Permutation_cons_append|].
  set (s1 := with_shards _ s) in *.
  assert (∀ b, view s1 b = view s b) as V1 by (intros b; unfold view, ent_of; by rewrite Hp1).
  assert (shards s1 !! si = Some (set_clock (rest ++ [cand]) sh)) as Hsh1 by apply lookup_insert_eq.
  assert (cand ∈ clock sh) as Hcin by (rewrite Ec; left). apply (so_clock _ _ _ Hso) in Hcin as (e & Hp & Hbe).
  assert (heap s1 !! cand = Some e) as Hp' by done. rewrite (entry_at_ok _ _ _ Hp'). cbn [mbind res_bind].
  (* the turns that go on *)
  assert (∀ s2, inv s2 tmp → bdev s2 = bdev s → (∀ b, view s2 b = view s b) → shards s2 = shards s1 →
    ∃ r s', try_evict_loop n si s2 = Ok (r, s') ∧
      match r with
      | None => inv s' tmp ∧ bdev s' = bdev s ∧ drops s s' ∧ (∀ b, view s' b = view s b) ∧ ∀ sj, sizes s' sj = sizes s sj
      | Some ev => evicted_from s tmp si ev s'
      end) as Hgo.
  { intros s2 I2 Hd2 V2 Hs2. assert (drops s s2) as Hdr2 by (intros b; rewrite <-Hp1; unfold ptr_of; by rewrite Hs2).
    assert (∀ sj, sizes s2 sj = sizes s sj) as Hz2 by (intros sj; rewrite <-Hz1; unfold sizes; by rewrite Hs2).
    destruct (IH s2 I2 Hsi) as (r & s' & Hl & Hr).
    { exists (set_clock (rest ++ [cand]) sh). rewrite Hs2. split; [done|]. cbn. by destruct rest. }
    exists r, s'. split; [done|]. destruct r as [ev|].
    - by apply (evicted_from_mono s s2).
    - destruct Hr as (? & Hd' & ? & Hv' & Hz'). split_and!; [done|congruence|by etrans|..]; intros; rewrite ?Hv', ?Hz'; auto. }
  case_if; [by apply Hgo|]. bool_simpl. destruct (accessed e).
  { destruct (untouch_ok s1 tmp cand e I1 Hp') as (s2 & Hu & I2 & K2 & Hs2). rewrite Hu. cbn [mbind res_bind].
    rewrite (upd_entry_ok _ _ _ e) in Hu by done. injection Hu as <-. apply Hgo; try done.
    intros b. rewrite <-V1. apply (view_entry s1 tmp cand e (flags_clear k_flag_accessed e)); [exact I1|exact Hp'|done|clear; by flags_simpl|done]. }
  rewrite (upd_entry_ok _ _ _ e) by done. cbn [mbind res_bind].
  erewrite entry_at_ok by apply lookup_insert_eq. cbn [mbind res_bind].
  change (refcnt (flags_or k_flag_evicting e)) with (refcnt e). case_if; [exfalso; bool_simpl; lia|].
  subst si. destruct (evict_unlink_call s1 tmp cand e _ I1 Hp' Hsh1) as (e3 & -> & Hev3 & Hr3). cbn [mbind res_bind fst snd].
  eexists (Some _), _. split; [done|]. apply (evicted_from_mono s s1); try done; [intros b; by rewrite Hp1|].
  pose proof (i_ref _ _ I1 _ _ Hp') as Hr. pose proof (i_ent _ _ I1 _ _ Hp') as He.
  destruct (inv_unlink s1 tmp cand e _ I1 Hp' Hsh1) as (I2 & Hn2 & Hdr2 & V2 & Hz2); [lia|].
  exists e3. cbn [ev_entry ev_block ev_dirty ev_data heap with_shards with_heap]. rewrite delete_insert_eq.
  split; [apply lookup_insert_eq|]. split; [lia|]. split; [done|]. split; [apply (eo_block _ _ _ _ He)|]. split; [done|].
  split; [exact I2|]. split; [exact Hn2|]. split; [exact Hdr2|]. split; [exact V2|]. split.
  - unfold view. rewrite (ent_of_heap _ _ _ _ I1 Hp'). destruct (dirty e) eqn:Ed.
    + destruct (eo_dirty _ _ _ _ He Ed) as (_ & -> & v & Hv & Hl). eauto.
    + intros Hin. destruct (inflight e) eqn:Ef; [done|]. destruct (eo_data _ _ _ _ He Ef Hin) as (v & -> & _ & Hc). by rewrite Hc.
  - intros sj. etrans; [apply Hz2|]. by rewrite (sizes_shard _ _ _ Hsh1).
Qed.

(** Writing the evicted data back restores every block of the disk. *)
Lemma evict_finish_ok s tmp si ev s' :
  evicted_from s tmp si ev s' →
  ∃ s2, evict_finish ev s' = Ok s2 ∧ inv s2 tmp ∧ keeps s s2 ∧ drops s s2 ∧
    ∀ sj, sizes s2 sj = if decide (sj = si) then ((sizes s si).1 - 1, (sizes s si).2) else sizes s sj.
Proof.
  intros (e & Hp & Hr & Hev & Hu & Hd & I & Hn & Hdr & Hvw & Hdt & Hz). set (s'' := with_heap _ s') in *.
  assert (ent_of s'' (ev_block ev) = None) as Hent by (unfold ent_of; by rewrite Hn).
  assert (∀ d, put (ev_entry ev) (with_bdev d s') = Ok (with_bdev d s'')) as Hput.
  { intros d. unfold put. rewrite (entry_at_ok _ _ e) by done. cbn [mbind res_bind].
    rewrite (upd_entry_ok _ _ _ e) by done. cbn [mbind res_bind]. rewrite Hr, Hev. cbn [negb Z.eqb Pos.eqb].
    unfold free_self; cbn. by rewrite delete_insert_eq. }
  unfold evict_finish. destruct (ev_dirty ev).
  - destruct Hdt as (v & Hv & Hl & Hvs). rewrite Hv. cbn [write_back mbind res_bind]. rewrite Hput.
    eexists. split; [done|]. destruct (inv_dev s'' tmp (ev_block ev) v I Hu Hl) as (I2 & Hin & Hv2 & Hrd); [by rewrite Hent|].
    split; [exact I2|]. split; [|split; [exact Hdr|exact Hz] ]. split; [intros b; rewrite <-Hd; apply Hin|].
    split; intros b Hb; rewrite <-Hd in Hb.
    + etrans; [by apply Hv2|]. rewrite Hvw. case_decide; [by subst|done].
    + specialize (Hrd b Hb). case_decide; [right; subst b; etrans; [exact Hrd|done]|left; rewrite <-Hd; exact Hrd].
  - cbn [mbind res_bind]. specialize (Hput (bdev s')). replace (with_bdev (bdev s') s') with s' in Hput by (by destruct s').
    rewrite Hput. eexists. split; [done|]. replace (with_bdev (bdev s') s'') with s'' by (by destruct s').
    split; [done|]. split; [|split; [exact Hdr|exact Hz] ]. split; [by cbn; rewrite Hd|].
    split; [|intros b _; left; cbn; by rewrite Hd]. intros b Hb. rewrite Hvw. case_decide; [|done]. subst b. by rewrite Hdt.
Qed.

(** One eviction with its write-back: nothing is lost. *)
Lemma evict_one_ok s tmp si :
  inv s tmp → 0 ≤ si < 64 →
  ∃ r s', try_evict_one_locked si s = Ok (r, s') ∧
    match r with
    | None => inv s' tmp ∧ keeps s s' ∧ drops s s' ∧ ∀ sj, sizes s' sj = sizes s sj
    | Some ev => ∃ s2, evict_finish ev s' = Ok s2 ∧ inv s2 tmp ∧ keeps s s2 ∧ drops s s2 ∧
        ∀ sj, sizes s2 sj = if decide (sj = si) then ((sizes s si).1 - 1, (sizes s si).2) else sizes s sj
    end.
Proof.
  intros I Hsi. destruct (i_shards _ _ I si Hsi) as [sh Hsh]. unfold try_evict_one_locked, shard_at. rewrite Hsh. cbn [mbind res_bind].
  destruct (clock sh) as [|x l] eqn:Ec; [by exists None, s|].
  destruct (try_evict_loop_ok (Z.to_nat (u32 (entries sh + 1))) s tmp si I Hsi) as (r & s' & Hl & Hr); [exists sh; by rewrite Ec|].
  exists r, s'. split; [done|]. destruct r as [ev|]; [by apply evict_finish_ok|].
  destruct Hr as (? & ? & ? & ? & ?). split_and!; try done. by apply keeps_view.
Qed.

Lemma sizes_bound s tmp si : inv s tmp → 0 ≤ si < 64 → 0 ≤ (sizes s si).1 ≤ (sizes s si).2 ∧ 0 < (sizes s si).2 < 4294967295.
Proof.
  intros I Hsi. destruct (i_shards _ _ I si Hsi) as [sh Hsh]. rewrite (sizes_shard _ _ _ Hsh). cbn.
  destruct (i_shard _ _ I _ _ Hsh) as [? ? ? ? ? He ? ?]. lia.
Qed.

Lemma ensure_space_loop_ok fuel s tmp si :
  inv s tmp → 0 ≤ si < 64 → (Z.to_nat (sizes s si).1 < fuel)%nat →
  ∃ ok s', ensure_space_loop fuel si s = Ok (ok, s') ∧ inv s' tmp ∧ keeps s s' ∧ drops s s' ∧
    (ok = true → (sizes s' si).1 < (sizes s' si).2).
Proof.
  revert s. induction fuel as [|fuel IH]; intros s I Hsi Hf; [lia|]. cbn [ensure_space_loop].
  destruct (i_shards _ _ I si Hsi) as [sh Hsh]. pose proof (sizes_shard _ _ _ Hsh) as Hz. unfold shard_at. rewrite Hsh. cbn [mbind res_bind].
  pose proof (sizes_bound s tmp si I Hsi) as Hb. rewrite Hz in Hb, Hf; cbn in Hb, Hf.
  case_if.
  - destruct (evict_one_ok s tmp si I Hsi) as (r & s1 & -> & Hr). cbn [mbind res_bind fst snd]. destruct r as [ev|].
    + destruct Hr as (s2 & -> & I2 & K2 & R2 & Hz2). cbn [mbind res_bind].
      destruct (IH s2 I2 Hsi) as (ok & s3 & -> & I3 & K3 & R3 & Hok).
      { rewrite Hz2, decide_True, Hz by done. cbn. bool_simpl. lia. }
      exists ok, s3. split_and!; try done; by etrans.
    + destruct Hr as (I1 & K1 & R1 & _). exists false, s1. by split_and!.
  - exists true, s. split_and!; try done. intros _. rewrite Hz. cbn. apply andb_false_iff in E as [E|E]; bool_simpl; lia.
Qed.

Lemma ensure_space_ok s tmp si :
  inv s tmp → 0 ≤ si < 64 →
  ∃ ok s', ensure_space si s = Ok (ok, s') ∧ inv s' tmp ∧ keeps s s' ∧ drops s s' ∧ (ok = true → (sizes s' si).1 < (sizes s' si).2).
Proof.
  intros I Hsi. destruct (i_shards _ _ I si Hsi) as [sh Hsh]. unfold ensure_space, shard_at. rewrite Hsh. cbn [mbind res_bind].
  apply ensure_space_loop_ok; [done..|]. rewrite (sizes_shard _ _ _ Hsh). cbn. lia.
Qed.

(** ** The shrinker *)

Lemma shrink_shard_ok fuel s tmp si target freed :
  inv s tmp → 0 ≤ si < 64 → (Z.to_nat (sizes s si).1 < fuel)%nat →
  ∃ n s', shrink_shard fuel si target freed s = Ok (n, s') ∧ inv s' tmp ∧ keeps s s' ∧ freed ≤ n ∧ (freed ≤ target → n ≤ target).
Proof.
  revert s freed. induction fuel as [|fuel IH]; intros s freed I Hsi Hf; [lia|]. cbn [shrink_shard].
  case_if; [exists freed, s; split_and!; try done; lia|]. bool_simpl.
  destruct (evict_one_ok s tmp si I Hsi) as (r & s1 & -> & Hr). cbn [mbind res_bind fst snd]. destruct r as [ev|].
  - destruct Hr as (s2 & -> & I2 & K2 & _ & Hz2). cbn [mbind res_bind]. pose proof (sizes_bound s2 tmp si I2 Hsi) as Hb2.
    rewrite Hz2, decide_True in Hb2 by done. cbn in Hb2.
    destruct (IH s2 (freed + 1) I2 Hsi) as (n & s3 & -> & I3 & K3 & Hn & Hn').
    { rewrite Hz2, decide_True by done. cbn. lia. }
    exists n, s3. split_and!; try done; try lia. by etrans.
  - destruct Hr as (I1 & K1 & _). exists freed, s1. split_and!; try done.
Qed.

Lemma shrink_shards_ok l s tmp target freed :
  inv s tmp → Forall (λ si, 0 ≤ si < 64) l →
  ∃ n s', shrink_shards l target freed s = Ok (n, s') ∧ inv s' tmp ∧ keeps s s' ∧ freed ≤ n ∧ (freed ≤ target → n ≤ target).
Proof.
  revert s freed. induction l as [|si l IH]; intros s freed I Hl; cbn [shrink_shards].
  { exists freed, s. by split_and!. }
  apply Forall_cons in Hl as [Hsi Hl]. case_if; [exists freed, s; by split_and!|].
  destruct (i_shards _ _ I si Hsi) as [sh Hsh]. unfold shard_at. rewrite Hsh. cbn [mbind res_bind].
  destruct (shrink_shard_ok (S (Z.to_nat (entries sh))) s tmp si target freed I Hsi) as (n & s1 & -> & I1 & K1 & Hn & Hn').
  { rewrite (sizes_shard _ _ _ Hsh). cbn. lia. }
  cbn [mbind res_bind fst snd]. destruct (IH s1 n I1 Hl) as (m & s2 & -> & I2 & K2 & Hm & Hm').
  exists m, s2. split_and!; try done; [by etrans|lia|auto].
Qed.

Lemma shrinker_ok s tmp target :
  inv s tmp → 0 ≤ target →
  ∃ n s', bcache_shrinker_cb target s = Ok (n, s') ∧ inv s' tmp ∧ keeps s s' ∧ 0 ≤ n ≤ target.
Proof.
  intros I Ht. destruct (shrink_shards_ok (seqZ 0 BCACHE_SHARDS) s tmp target 0 I) as (n & s' & ? & ? & ? & ? & ?).
  { apply Forall_forall. intros si Hsi%elem_of_seqZ. unfold BCACHE_SHARDS in Hsi. lia. }
  exists n, s'. split_and!; try done. auto.
Qed.

End Evict.
