(* ===== verification/BcacheCreate.v ===== *)
(** * The block cache: creating entries, readahead

    Linking a new entry, looking one up or creating it, and the readahead
    pipeline from its entry to the prefetch ring or back out of the cache. *)

From S2P Require Import Prelude Bdev Bcache BcacheInv BcacheOps BcacheEvict.

Section Create.
Context `{RD : ReliableDisk D}.
Implicit Types (s : bcache D) (e : entry) (dev : option D).

(** Allocation answers and the next address change nothing. *)
Lemma inv_mem s tmp k l1 l2 l3 :
  inv s tmp → brk s ≤ k → Forall (.= true) l3 →
  inv (with_brk k (with_mem l1 l2 l3 s)) tmp ∧ keeps s (with_brk k (with_mem l1 l2 l3 s)).
Proof.
  intros I Hk Hl. split; [|by apply keeps_view]. destruct I as [? ? ? ? ? ? Hb ? ? ? ? ? ? ? ?]. split; try done.
  intros p e Hp. apply Hb in Hp. cbn. lia.
Qed.

Lemma fresh_ptr s tmp : inv s tmp → heap s !! brk s = None.
Proof. intros I. destruct (heap s !! brk s) eqn:E; [|done]. apply (i_brk _ _ I) in E. lia. Qed.

(** A shard with a new entry. *)
Definition linked (p b : Z) (l : list Z) (sh : shard) : shard :=
  Shard (<[b := p]> (map sh)) (clock sh ++ [p]) l (u32 (entries sh + 1)) (max_entries sh).

(** The state with [p], a fresh address, holding the entry [e]. *)
Definition with_new s (p : Z) e (sh : shard) (l : list Z) (pq : prefetch_queue) : bcache D :=
  with_prefetch pq (with_shards (<[index_for (block_idx e) := linked p (block_idx e) l sh]> (shards s))
    (with_heap (<[p := e]> (heap s)) s)).

Lemma inv_link s tmp tmp' p e sh l pq :
  inv s tmp → heap s !! p = None → p < brk s → shards s !! index_for (block_idx e) = Some sh → map sh !! block_idx e = None →
  entries sh < max_entries sh → ent_ok (bdev s) (queue_list pq) p e → refcnt e = refs (with_prefetch pq s) tmp' p →
  ring_ok pq → NoDup (queue_list pq) → (∀ q, q ≠ p → occ (queue_list pq) q = occ (queue s) q) →
  (∀ q, q ≠ p → occ tmp' q = occ tmp q) → (length tmp' ≤ 4)%nat →
  NoDup l → (∀ q, q ∈ l ↔ if decide (q = p) then on_dirty_list e = true else q ∈ dirty_list sh) →
  inv (with_new s p e sh l pq) tmp' ∧
  ptr_of (with_new s p e sh l pq) (block_idx e) = Some p ∧
  (∀ b, view (with_new s p e sh l pq) b =
     if decide (b = block_idx e) then (if inflight e then try_read_4k (bdev s) b else edata e) else view s b).
Proof.
  intros I Hp Hbrk Hsh Hmap Hroom Hent Href Hring Hqnd Hqocc Hocc Hlen Hnd Hl.
  pose proof (i_shard _ _ I _ _ Hsh) as Hso. remember (block_idx e) as bi eqn:Hbi.
  assert (∀ q, q ≠ p → (q ∈ queue_list pq ↔ q ∈ queue s)) as Hqin by (intros q Hq; by rewrite !elem_of_occ, Hqocc).
  assert (∀ q, q ≠ p → (q ∈ tmp' ↔ q ∈ tmp)) as Htin by (intros q Hq; by rewrite !elem_of_occ, Hocc).
  set (s' := with_new s p e sh l pq).
  assert (∀ b, ptr_of s' b = if decide (b = bi) then Some p else ptr_of s b) as Eptr.
  { intros b. unfold s', with_new, ptr_of; cbn. rewrite <-Hbi. destruct (decide (index_for bi = index_for b)) as [E|E].
    - rewrite <-E, lookup_insert_eq, Hsh. cbn. case_decide as Hb; [rewrite Hb; apply lookup_insert_eq|by rewrite lookup_insert_ne].
    - rewrite lookup_insert_ne by done. case_decide; [congruence|done]. }
  assert (∀ q x, heap s !! q = Some x → q ≠ p) as Hne by (intros q x Hx ->; congruence).
  assert (∀ q x, <[p := e]> (heap s) !! q = Some x ↔ (q = p ∧ x = e) ∨ (q ≠ p ∧ heap s !! q = Some x)) as Hins.
  { intros q x. rewrite lookup_insert_Some. naive_solver. }
  assert (ptr_of s bi = None) as Hptr by (unfold ptr_of; by rewrite Hsh).
  assert (u32 (entries sh + 1) = entries sh + 1) as Hu.
  { pose proof (so_max _ _ _ Hso). pose proof (so_entries _ _ _ Hso). apply u32_small. lia. }
  split_and!.
  - split; unfold queue; cbn [heap shards hot prefetch bdev brk mem_node with_shards with_heap with_prefetch with_new s']; rewrite <-?Hbi.
    + intros q x [ [-> ->] |[Hq Hx] ]%Hins; rewrite Eptr; [by rewrite <-Hbi, decide_True|].
      rewrite decide_False; [by apply (i_ptr _ _ I)|]. intros Hb. apply (i_ptr _ _ I) in Hx. rewrite Hb in Hx. congruence.
    + intros b q. rewrite Eptr. case_decide as Hb; [intros [= <-]; exists e; rewrite Hins; naive_solver|].
      intros Hq. destruct (i_link _ _ I _ _ Hq) as (x & Hx & <-). exists x. rewrite Hins. split; [|done]. right. eauto.
    + intros sj Hsj. destruct (decide (index_for bi = sj)) as [<-|E]; [rewrite lookup_insert_eq; eauto|].
      rewrite lookup_insert_ne by done. by apply (i_shards _ _ I).
    + intros sj sh'. destruct (decide (index_for bi = sj)) as [<-|E].
      * rewrite lookup_insert_eq. intros [= <-]. split; cbn [map clock dirty_list entries max_entries linked]; rewrite ?Hu.
        -- intros b q [ [<- _] | [_ ?] ]%lookup_insert_Some; [done|]. by eapply (so_home _ _ _ Hso).
        -- apply NoDup_snoc; [apply (so_clock_nodup _ _ _ Hso)|]. rewrite (so_clock _ _ _ Hso). intros (x & Hx & _). congruence.
        -- intros q. rewrite elem_of_app, list_elem_of_singleton, (so_clock _ _ _ Hso). setoid_rewrite Hins. naive_solver.
        -- done.
        -- intros q. rewrite Hl. setoid_rewrite Hins. case_decide; [|rewrite (so_dirty _ _ _ Hso)]; naive_solver.
        -- rewrite length_app, (so_entries _ _ _ Hso). simpl. lia.
        -- apply (so_max _ _ _ Hso).
        -- lia.
      * rewrite lookup_insert_ne by done. intros Hsh'. pose proof (i_shard _ _ I _ _ Hsh') as Hso'. split; try apply Hso'.
        -- intros q. rewrite (so_clock _ _ _ Hso'). setoid_rewrite Hins. naive_solver congruence.
        -- intros q. rewrite (so_dirty _ _ _ Hso'). setoid_rewrite Hins. naive_solver congruence.
    + intros q x [ [-> ->] | [Hq Hx] ]%Hins; [done|]. destruct (i_ent _ _ I _ _ Hx) as [? ? Hi ? ? ?]. split; try done. by rewrite Hi, Hqin.
    + intros q x [ [-> ->] | [Hq Hx] ]%Hins; [done|]. rewrite (i_ref _ _ I _ _ Hx). unfold refs, queue in *. cbn. by rewrite Hocc, Hqocc.
    + intros q x [ [-> ->] | [Hq Hx] ]%Hins; [done|]. by eapply (i_brk _ _ I).
    + intros c k b q Hq. destruct (i_hot _ _ I _ _ _ _ Hq) as (Hc & Hk & x & Hx & Hxb & Hxf). split; [done|]. split; [done|].
      exists x. rewrite Hins. split; [|done]. right. eauto.
    + done.
    + done.
    + intros q Hq. destruct (decide (q = p)) as [->|Hqp]; [rewrite lookup_insert_eq; eauto|]. rewrite lookup_insert_ne by done.
      apply (i_queue _ _ I). by apply Hqin.
    + intros q Hq. destruct (decide (q = p)) as [->|Hqp]; [rewrite lookup_insert_eq; eauto|]. rewrite lookup_insert_ne by done.
      apply (i_tmp _ _ I). by apply Htin.
    + done.
    + apply (i_dev _ _ I).
    + apply (i_node _ _ I).
  - rewrite Eptr. by rewrite decide_True.
  - intros b. unfold view, ent_of. rewrite Eptr. unfold s', with_new; cbn. case_decide as Hb.
    + cbn. by rewrite lookup_insert_eq.
    + destruct (ptr_of s b) as [q|] eqn:Eq; [|done]. cbn. rewrite lookup_insert_ne; [done|]. intros <-.
      destruct (i_link _ _ I _ _ Eq) as (x & Hx & _). congruence.
Qed.

(** ** Fresh entries *)

Lemma fresh_refs s tmp p pq tmp' :
  inv s tmp → heap s !! p = None →
  refs (with_prefetch pq s) tmp' p = 1 + Z.of_nat (occ (queue_list pq) p) + Z.of_nat (occ tmp' p) ∧
  occ (queue s) p = 0%nat ∧ occ tmp p = 0%nat.
Proof.
  intros I Hp.
  assert (hot_refs (hot s) p = 0%nat) as Hh.
  { unfold hot_refs. apply map_size_empty_iff, map_empty. intros [c k]. apply map_lookup_filter_None. right. intros [b q] Hq Heq. cbn in Heq. subst q.
    destruct (i_hot _ _ I _ _ _ _ Hq) as (_ & _ & x & Hx & _). congruence. }
  unfold refs, queue; cbn. rewrite Hh. split; [lia|]. split; apply count_occ_not_In; rewrite <-list_elem_of_In; intros Hin.
  - destruct (i_queue _ _ I _ Hin). congruence.
  - destruct (i_tmp _ _ I _ Hin). congruence.
Qed.

(** The allocations of a creation that went well. *)
Definition allocated s : bcache D :=
  with_brk (brk s + 1) (with_mem (tl (mem_entry s)) (tl (mem_data s)) (tl (mem_node s)) s).

Lemma allocated_ok s tmp : inv s tmp → inv (allocated s) tmp ∧ keeps s (allocated s).
Proof.
  intros I. apply inv_mem; [done|lia|]. pose proof (i_node _ _ I) as Hn. destruct (mem_node s); [done|]. by apply Forall_cons in Hn as [_ ?].
Qed.

Lemma link_entry_call s si b p sh :
  shards s !! si = Some sh → map sh !! b = None → answer (mem_node s) = true →
  link_entry si b p s =
    Ok (with_shards (<[si := linked p b (dirty_list sh) sh]> (shards s)) (with_mem (mem_entry s) (mem_data s) (tl (mem_node s)) s)).
Proof.
  intros Hsh Hb Ha. unfold link_entry, map_insert_or_assign, shard_at. rewrite Hsh. cbn [mbind res_bind]. rewrite Hb, Ha. cbn [negb].
  rewrite (upd_shard_ok _ _ _ sh) by done. cbn [mbind res_bind].
  do 2 (erewrite upd_shard_ok by apply lookup_insert_eq; cbn [mbind res_bind shards with_shards with_mem]; rewrite ?insert_insert_eq).
  done.
Qed.

Lemma node_answer s tmp : inv s tmp → answer (mem_node s) = true.
Proof. intros I. pose proof (i_node _ _ I) as Hn. destruct (mem_node s); [done|]. by apply Forall_cons in Hn as [-> _]. Qed.

(** No memory for the entry or its page: only the allocators notice. *)
Lemma drop_entry_call s tmp b f :
  inv s tmp →
  drop_entry (brk s) (with_mem (tl (mem_entry s)) (tl (mem_data s)) (mem_node s)
                        (with_brk (brk s + 1) (with_heap (<[brk s := Entry b 2 f false None]> (heap s)) s)))
  = Ok (with_brk (brk s + 1) (with_mem (tl (mem_entry s)) (tl (mem_data s)) (mem_node s) s)).
Proof.
  intros I. pose proof (fresh_ptr _ _ I) as Hf. unfold drop_entry.
  do 2 (erewrite upd_entry_ok by apply lookup_insert_eq; cbn [mbind res_bind heap with_heap with_brk with_mem]; rewrite ?insert_insert_eq).
  unfold put. erewrite entry_at_ok by apply lookup_insert_eq. cbn [mbind res_bind].
  erewrite upd_entry_ok by apply lookup_insert_eq. cbn [mbind res_bind heap with_heap with_brk with_mem]. rewrite ?insert_insert_eq.
  change (refcnt (set_refcnt 1 _)) with 1. cbn [negb Z.eqb Pos.eqb].
  replace (evicting (set_refcnt 1 (flags_or k_flag_evicting (Entry b 2 f false None)))) with true by (symmetry; by flags_simpl).
  cbn [negb]. unfold free_self; cbn. rewrite delete_insert_id by done. by destruct s.
Qed.

(** ** Looking up *)

Lemma lookup_live_ok s tmp b :
  inv s tmp → (length tmp ≤ 3)%nat →
  (lookup_live (index_for b) b s = Ok (None, s) ∧ ptr_of s b = None) ∨
  ∃ p e s', lookup_live (index_for b) b s = Ok (Some p, s') ∧ heap s' !! p = Some e ∧ block_idx e = b ∧
    inv s' (p :: tmp) ∧ keeps s s'.
Proof.
  intros I Hlen. destruct (shard_of s tmp b I) as (sh & Hsh & Hso). unfold lookup_live, shard_at. rewrite Hsh. cbn [mbind res_bind].
  destruct (map sh !! b) as [p|] eqn:Eb; [right|left; split; [done|unfold ptr_of; by rewrite Hsh] ].
  assert (ptr_of s b = Some p) as Hptr by (unfold ptr_of; by rewrite Hsh). destruct (i_link _ _ I _ _ Hptr) as (e & Hp & Hb).
  destruct (try_get_ok s tmp p e I Hp Hlen) as (s' & -> & _ & I' & K & G & _). destruct (G _ _ Hp) as (e' & Hp' & Hb' & _).
  exists p, e', s'. cbn. split_and!; try done. congruence.
Qed.

Lemma ptr_of_None s b sh : shards s !! index_for b = Some sh → ptr_of s b = None → map sh !! b = None.
Proof. unfold ptr_of. by intros ->. Qed.

(** What [get_or_create] promises: an entry of the block with a reference for
    the caller and every block as before, but for the block itself, which may
    hold the data to write already. *)
Definition got s tmp (b : Z) (wb : option buffer) (r : option Z) s' : Prop :=
  match r with
  | None => inv s' tmp ∧ keeps s s' ∧ ptr_of s' b = None
  | Some p => inv s' (p :: tmp) ∧ (∃ e, heap s' !! p = Some e ∧ block_idx e = b) ∧
      (∀ c, in_dev (bdev s') c ↔ in_dev (bdev s) c) ∧ drifts s s' ∧
      ∀ c, in_dev (bdev s) c → view s' c = view s c ∨ (c = b ∧ wb ≠ None ∧ view s' c = wb)
  end.

Lemma got_keeps s s1 tmp b wb r s' : keeps s s1 → got s1 tmp b wb r s' → got s tmp b wb r s'.
Proof.
  intros K. destruct r as [p|]; cbn; [|intros (? & K2 & ?); split_and!; try done; by etrans].
  destruct K as (K1 & K1' & K1''). intros (? & ? & Hin & Hdr & Hv). split_and!; try done; [intros c; by rewrite Hin|..].
  - intros c Hc. destruct (Hdr c) as [-> | ->]; [by apply K1|by apply K1''|]. right. by apply K1'.
  - intros c Hc. rewrite <-K1' by done. apply Hv. by apply K1.
Qed.

Lemma got_hit s tmp b wb p e s' : inv s' (p :: tmp) → keeps s s' → heap s' !! p = Some e → block_idx e = b → got s tmp b wb (Some p) s'.
Proof. intros I (K & K' & K'') Hp Hb. cbn. split_and!; eauto. Qed.

(** A new clean entry, read from the disk at once. *)
Lemma new_read_ok s tmp b sh :
  inv s tmp → (length tmp ≤ 3)%nat → is_u32 b → shards s !! index_for b = Some sh → map sh !! b = None → entries sh < max_entries sh →
  got s tmp b None (Some (brk s))
    (with_new (allocated s) (brk s) (fetched (bdev s) (Entry b 2 k_flag_io_inflight false None)) sh (dirty_list sh) (prefetch s)).
Proof.
  intros I Hlen Hu Hsh Hb Hroom. set (e0 := Entry b 2 k_flag_io_inflight false None). set (e := fetched (bdev s) e0).
  destruct (allocated_ok s tmp I) as [I1 K1]. pose proof (fresh_ptr _ _ I) as Hf.
  destruct (fresh_refs (allocated s) tmp (brk s) (prefetch s) (brk s :: tmp) I1 Hf) as (Hr & Hq & Ht).
  destruct (fetched_flags (bdev s) e0) as (F1 & F2 & F3 & F4). fold e in F1, F2, F3, F4.
  assert (evicting e0 = false ∧ dirty e0 = false ∧ on_dirty_list e0 = false) as (G1 & G3 & G4) by done. rewrite G1, G3, G4 in *.
  pose proof (i_shard _ _ I _ _ Hsh) as Hso.
  destruct (inv_link (allocated s) tmp (brk s :: tmp) (brk s) e sh (dirty_list sh) (prefetch s)) as (I2 & Hp2 & V2); try done.
  - cbn. lia.
  - split; rewrite ?F1, ?F2, ?F3; try done.
    + split; [done|]. intros Hin%elem_of_occ. unfold queue in Hq. cbn in Hq. lia.
    + intros _ Hin. destruct (read_in (bdev s) b (i_dev _ _ I) Hin) as (v & Hv & Hl). exists v. split; [|done].
      unfold e, fetched; cbn. unfold read_4k. by rewrite Hv.
  - change (refcnt e) with 2. rewrite Hr. unfold queue in Hq. cbn in Hq. rewrite Hq, count_occ_cons_eq, Ht by done. lia.
  - apply (i_ring _ _ I).
  - apply (i_queue_nodup _ _ I).
  - intros q Hqp. by rewrite count_occ_cons_neq.
  - simpl. lia.
  - apply (so_dirty_nodup _ _ _ Hso).
  - intros q. case_decide as Hqp; [|done]. subst q. rewrite F4, (so_dirty _ _ _ Hso). split; [|done]. intros (x & Hx & _). congruence.
  - cbn. split; [exact I2|]. split; [exists e; split; [apply lookup_insert_eq|done]|]. split; [done|]. split; [by left|].
    intros c Hc. left. rewrite V2. case_decide as Hcb; [|done]. rewrite F2. subst c.
    unfold view, ent_of. unfold ptr_of. cbn. rewrite Hsh. cbn. rewrite Hb. unfold e, fetched; cbn. unfold read_4k.
    destruct (read_in (bdev s) b (i_dev _ _ I) Hc) as (v & -> & _). done.
Qed.

(** A new dirty entry with the data to write. *)
Lemma new_write_ok s tmp b sh v :
  inv s tmp → (length tmp ≤ 3)%nat → is_u32 b → length v = 4096%nat →
  shards s !! index_for b = Some sh → map sh !! b = None → entries sh < max_entries sh →
  got s tmp b (Some v) (Some (brk s))
    (with_new (allocated s) (brk s)
       (flags_or k_flag_on_dirty_list (set_data (Some v) (Entry b 2 (Z.lor (Z.lor k_flag_valid k_flag_dirty) k_flag_accessed) false None)))
       sh (dirty_list sh ++ [brk s]) (prefetch s)).
Proof.
  intros I Hlen Hu Hl Hsh Hb Hroom. set (e := flags_or _ _).
  destruct (allocated_ok s tmp I) as [I1 K1]. pose proof (fresh_ptr _ _ I) as Hf.
  destruct (fresh_refs (allocated s) tmp (brk s) (prefetch s) (brk s :: tmp) I1 Hf) as (Hr & Hq & Ht).
  assert (evicting e = false ∧ inflight e = false ∧ dirty e = true ∧ on_dirty_list e = true) as (F1 & F2 & F3 & F4) by done.
  pose proof (i_shard _ _ I _ _ Hsh) as Hso.
  destruct (inv_link (allocated s) tmp (brk s :: tmp) (brk s) e sh (dirty_list sh ++ [brk s]) (prefetch s)) as (I2 & Hp2 & V2); try done.
  - cbn. lia.
  - split; rewrite ?F1, ?F2, ?F3; try done; eauto.
    + split; [done|]. intros Hin%elem_of_occ. unfold queue in Hq. cbn in Hq. lia.
    + intros _ _. by exists v.
  - change (refcnt e) with 2. rewrite Hr. unfold queue in Hq. cbn in Hq. rewrite Hq, count_occ_cons_eq, Ht by done. lia.
  - apply (i_ring _ _ I).
  - apply (i_queue_nodup _ _ I).
  - intros q Hqp. by rewrite count_occ_cons_neq.
  - simpl. lia.
  - apply NoDup_snoc; [apply (so_dirty_nodup _ _ _ Hso)|]. rewrite (so_dirty _ _ _ Hso). intros (x & Hx & _). congruence.
  - intros q. rewrite elem_of_app, list_elem_of_singleton, F4. case_decide; tauto.
  - cbn. split; [exact I2|]. split; [exists e; split; [apply lookup_insert_eq|done]|]. split; [done|]. split; [by left|].
    intros c Hc. rewrite V2. case_decide as Hcb; [|by left]. right. rewrite F2. done.
Qed.

(** ** Creating *)

Lemma get_or_create_ok s tmp b wb :
  inv s tmp → (length tmp ≤ 3)%nat → is_u32 b → (∀ v, wb = Some v → length v = 4096%nat) →
  ∃ r s', get_or_create (index_for b) b wb s = Ok (r, s') ∧ got s tmp b wb r s'.
Proof.
  intros I Hlen Hu Hwb. unfold get_or_create.
  destruct (lookup_live_ok s tmp b I Hlen) as [ [-> Hp0] | (p & e & s1 & -> & Hp & Hb & I1 & K1) ]; cbn [mbind res_bind fst snd].
  2:{ exists (Some p), s1. split; [done|]. by eapply got_hit. }
  destruct (ensure_space_ok s tmp (index_for b) I (index_for_range b)) as (ok & s1 & -> & I1 & K1 & R1 & Hroom). cbn [mbind res_bind fst snd].
  destruct ok; cbn [negb].
  2:{ exists None, s1. split; [done|]. cbn. split_and!; try done. by apply R1. }
  destruct (lookup_live_ok s1 tmp b I1 Hlen) as [ [-> Hp1] | (p & e & s2 & -> & Hp & Hb & I2 & K2) ]; cbn [mbind res_bind fst snd].
  2:{ exists (Some p), s2. split; [done|]. eapply got_hit; eauto. by etrans. }
  destruct (shard_of s1 tmp b I1) as (sh & Hsh & Hso). pose proof (ptr_of_None _ _ _ Hsh Hp1) as Hmap.
  specialize (Hroom eq_refl). rewrite (sizes_shard _ _ _ Hsh) in Hroom. cbn in Hroom.
  unfold new_entry. destruct (answer (mem_entry s1)) eqn:Ea; cbn [negb].
  2:{ exists None. eexists. split; [done|]. apply (got_keeps s s1); [done|]. cbn.
      destruct (inv_mem s1 tmp (brk s1) (tl (mem_entry s1)) (mem_data s1) (mem_node s1) I1) as [I2 K2]; [lia|apply (i_node _ _ I1)|].
      split; [done|]. split; [done|]. done. }
  unfold new_data. cbn [mem_data with_brk with_heap with_mem].
  destruct (answer (mem_data s1)) eqn:Ed; cbn [negb].
  2:{ pose proof (drop_entry_call s1 tmp b (if wb is Some _ then Z.lor (Z.lor k_flag_valid k_flag_dirty) k_flag_accessed else k_flag_io_inflight) I1) as Hdr.
      unfold with_mem, with_brk, with_heap in Hdr |- *. cbn in Hdr |- *. rewrite Hdr. cbn [mbind res_bind].
      exists None. eexists. split; [done|]. apply (got_keeps s s1); [done|]. cbn.
      destruct (inv_mem s1 tmp (brk s1 + 1) (tl (mem_entry s1)) (tl (mem_data s1)) (mem_node s1) I1) as [I2 K2]; [lia|apply (i_node _ _ I1)|].
      split; [done|]. split; [done|]. done. }
  pose proof (node_answer _ _ I1) as Hna. pose proof (fresh_ptr _ _ I1) as Hf.
  exists (Some (brk s1)). destruct wb as [v|].
  - eexists. split; [|apply (got_keeps s s1); [done|]; eapply new_write_ok; eauto].
    erewrite upd_entry_ok by apply lookup_insert_eq. cbn [mbind res_bind heap with_heap with_brk with_mem]. rewrite insert_insert_eq.
    unfold dirty_mark_locked. erewrite entry_at_ok by apply lookup_insert_eq. cbn [mbind res_bind].
    change (evicting (set_data _ _)) with false. change (on_dirty_list (set_data _ _)) with false. cbn iota.
    erewrite upd_shard_ok by exact Hsh. cbn [mbind res_bind].
    erewrite upd_entry_ok by apply lookup_insert_eq. cbn [mbind res_bind heap with_heap with_brk with_mem with_shards]. rewrite insert_insert_eq.
    erewrite link_entry_call; [|apply lookup_insert_eq|done|done]. cbn [mbind res_bind shards with_shards with_heap with_mem with_brk]. rewrite insert_insert_eq. reflexivity.
  - eexists. split; [|apply (got_keeps s s1); [done|]; eapply new_read_ok; eauto].
    erewrite upd_entry_ok by apply lookup_insert_eq. cbn [mbind res_bind heap with_heap with_brk with_mem]. rewrite insert_insert_eq.
    erewrite link_entry_call; [|exact Hsh|done|done]. cbn [mbind res_bind].
    erewrite finish_read_ok by apply lookup_insert_eq. cbn [mbind res_bind heap shards with_shards with_heap with_mem with_brk].
    rewrite insert_insert_eq. reflexivity.
Qed.

(** ** Readahead *)

(** The entry a readahead starts with: in flight, one reference for the ring. *)
Definition pending (b : Z) : entry := Entry b 2 k_flag_io_inflight false None.

Lemma create_readahead_call s tmp b :
  inv s tmp →
  ∃ r s', create_readahead_entry (index_for b) b s = Ok (r, s') ∧
    match r with
    | None => inv s' tmp ∧ keeps s s'
    | Some p => ∃ s1 sh, inv s1 tmp ∧ keeps s s1 ∧ shards s1 !! index_for b = Some sh ∧ map sh !! b = None ∧
        entries sh < max_entries sh ∧ p = brk s1 ∧ s' = with_new (allocated s1) p (pending b) sh (dirty_list sh) (prefetch s1)
    end.
Proof.
  intros I. unfold create_readahead_entry, shard_at. destruct (shard_of s tmp b I) as (sh0 & Hsh0 & _). rewrite Hsh0. cbn [mbind res_bind].
  destruct (map sh0 !! b); [by exists None, s|].
  destruct (ensure_space_ok s tmp (index_for b) I (index_for_range b)) as (ok & s1 & -> & I1 & K1 & _ & Hroom). cbn [mbind res_bind fst snd].
  destruct ok; cbn [negb]; [|by exists None, s1].
  destruct (shard_of s1 tmp b I1) as (sh & Hsh & Hso). rewrite Hsh. cbn [mbind res_bind].
  destruct (map sh !! b) eqn:Hmap; [by exists None, s1|].
  specialize (Hroom eq_refl). rewrite (sizes_shard _ _ _ Hsh) in Hroom. cbn in Hroom.
  unfold new_entry. destruct (answer (mem_entry s1)) eqn:Ea; cbn [negb].
  2:{ exists None. eexists. split; [done|].
      destruct (inv_mem s1 tmp (brk s1) (tl (mem_entry s1)) (mem_data s1) (mem_node s1) I1) as [I2 K2]; [lia|apply (i_node _ _ I1)|].
      split; [exact I2|by etrans]. }
  unfold new_data. cbn [mem_data with_brk with_heap with_mem]. destruct (answer (mem_data s1)) eqn:Ed; cbn [negb].
  2:{ pose proof (drop_entry_call s1 tmp b k_flag_io_inflight I1) as Hdr.
      unfold with_mem, with_brk, with_heap in Hdr |- *. cbn in Hdr |- *. rewrite Hdr. cbn [mbind res_bind].
      exists None. eexists. split; [done|].
      destruct (inv_mem s1 tmp (brk s1 + 1) (tl (mem_entry s1)) (tl (mem_data s1)) (mem_node s1) I1) as [I2 K2]; [lia|apply (i_node _ _ I1)|].
      split; [exact I2|by etrans]. }
  pose proof (node_answer _ _ I1) as Hna. exists (Some (brk s1)). eexists. split; [|exists s1, sh; split_and!; done].
  erewrite upd_entry_ok by apply lookup_insert_eq. cbn [mbind res_bind heap with_heap with_brk with_mem]. rewrite insert_insert_eq.
  erewrite link_entry_call; [|exact Hsh|done|done]. cbn [mbind res_bind]. reflexivity.
Qed.

Lemma pending_flags b : evicting (pending b) = false ∧ inflight (pending b) = true ∧ dirty (pending b) = false ∧ on_dirty_list (pending b) = false.
Proof. done. Qed.

(** The ring takes it: the worker will read the block. *)
Lemma readahead_pushed s tmp b sh pq :
  inv s tmp → is_u32 b → shards s !! index_for b = Some sh → map sh !! b = None → entries sh < max_entries sh →
  ring_ok pq → queue_list pq = queue s ++ [brk s] →
  inv (with_new (allocated s) (brk s) (pending b) sh (dirty_list sh) pq) tmp ∧
  keeps s (with_new (allocated s) (brk s) (pending b) sh (dirty_list sh) pq).
Proof.
  intros I Hu Hsh Hmap Hroom Hring Hq. destruct (allocated_ok s tmp I) as [I1 K1]. pose proof (fresh_ptr _ _ I) as Hf.
  destruct (fresh_refs (allocated s) tmp (brk s) pq tmp I1 Hf) as (Hr & Hq0 & Ht). change (queue (allocated s)) with (queue s) in Hq0.
  destruct (pending_flags b) as (F1 & F2 & F3 & F4). pose proof (i_shard _ _ I _ _ Hsh) as Hso.
  assert (brk s ∉ queue s) as Hnin by (rewrite elem_of_occ; lia).
  destruct (inv_link (allocated s) tmp tmp (brk s) (pending b) sh (dirty_list sh) pq) as (I2 & Hp2 & V2); try done.
  - cbn. lia.
  - split; try done. rewrite F2, Hq. split; [|done]. intros _. set_solver.
  - rewrite Hr, Hq, count_occ_app, Hq0, Ht. simpl. destruct (Z.eq_dec (brk s) (brk s)); [|done]. cbn. lia.
  - rewrite Hq. apply NoDup_snoc; [apply (i_queue_nodup _ _ I)|done].
  - intros q Hqp. rewrite Hq, count_occ_app. simpl. destruct (Z.eq_dec (brk s) q); [congruence|]. change (queue (allocated s)) with (queue s). lia.
  - apply (i_tmp_len _ _ I).
  - apply (so_dirty_nodup _ _ _ Hso).
  - intros q. case_decide as Hqp; [|done]. subst q. rewrite F4, (so_dirty _ _ _ Hso). split; [|done]. intros (x & Hx & _). congruence.
  - split; [done|]. split; [done|]. split; [|by left]. intros c Hc. rewrite V2. case_decide as Hcb; [|done]. rewrite F2. cbn in Hcb. subst c.
    unfold view, ent_of, ptr_of. rewrite Hsh. cbn. by rewrite Hmap.
Qed.

(** [put] on an entry with more than one reference, and on a dead one. *)
Lemma put_dec s p e :
  heap s !! p = Some e → (refcnt e =? 1) = false → put p s = Ok (with_heap (<[p := set_refcnt (u32 (refcnt e - 1)) e]> (heap s)) s).
Proof.
  intros Hp Hr. unfold put. rewrite (entry_at_ok _ _ e) by done. cbn [mbind res_bind]. rewrite (upd_entry_ok _ _ _ e) by done.
  cbn [mbind res_bind]. by rewrite Hr.
Qed.

Lemma put_free s p e :
  heap s !! p = Some e → refcnt e = 1 → evicting e = true → put p s = Ok (with_heap (delete p (heap s)) s).
Proof.
  intros Hp Hr Hev. unfold put. rewrite (entry_at_ok _ _ e) by done. cbn [mbind res_bind]. rewrite (upd_entry_ok _ _ _ e) by done.
  cbn [mbind res_bind]. rewrite Hr, Hev. cbn. unfold free_self; cbn. by rewrite delete_insert_eq.
Qed.

(** The ring is full: the entry leaves no trace. *)
Lemma rollback_call s tmp b sh :
  inv s tmp → shards s !! index_for b = Some sh → map sh !! b = None → entries sh < max_entries sh →
  readahead_rollback (brk s) (with_new (allocated s) (brk s) (pending b) sh (dirty_list sh) (prefetch s)) = Ok (allocated s).
Proof.
  intros I Hsh Hmap Hroom. pose proof (fresh_ptr _ _ I) as Hf. pose proof (i_shard _ _ I _ _ Hsh) as Hso.
  assert (0 ≤ entries sh < 4294967295) as Hn by (destruct Hso as [? ? ? ? ? He ? ?]; lia).
  unfold readahead_rollback. erewrite entry_at_ok by apply lookup_insert_eq. cbn [mbind res_bind block_idx pending].
  unfold shard_at. cbn [shards with_new with_prefetch with_shards block_idx pending]. rewrite lookup_insert_eq. cbn [mbind res_bind map linked].
  rewrite bool_decide_true by apply lookup_insert_eq.
  erewrite upd_entry_ok by apply lookup_insert_eq. cbn [mbind res_bind].
  do 3 (erewrite upd_shard_ok by apply lookup_insert_eq; cbn [mbind res_bind shards with_shards with_heap with_new with_prefetch block_idx pending]; rewrite ?insert_insert_eq).
  erewrite put_dec; [|apply lookup_insert_eq|done]. cbn [mbind res_bind].
  erewrite put_free; [|apply lookup_insert_eq|done|done].
  cbn [heap with_heap with_shards with_new with_prefetch allocated with_brk with_mem]. rewrite !insert_insert_eq, delete_insert_id by done.
  assert (set_entries (entries (clock_remove_locked (brk s) (set_map (delete b (map (linked (brk s) b (dirty_list sh) sh))) (linked (brk s) b (dirty_list sh) sh))) - 1)
            (clock_remove_locked (brk s) (set_map (delete b (map (linked (brk s) b (dirty_list sh) sh))) (linked (brk s) b (dirty_list sh) sh))) = sh) as Hs.
  { unfold set_entries, clock_remove_locked, set_map, set_clock, linked; cbn [map clock dirty_list entries max_entries].
    rewrite delete_insert_id by done. rewrite filter_app, filter_cons_False, filter_nil, app_nil_r by (intros []; done).
    rewrite filter_ne_id by (rewrite (so_clock _ _ _ Hso); intros (x & Hx & _); congruence).
    rewrite (u32_small (entries sh + 1)) by lia. replace (entries sh + 1 - 1) with (entries sh) by lia. rewrite u32_small by lia. by destruct sh. }
  rewrite Hs, (insert_id (shards (allocated s)) (index_for b) sh) by exact Hsh. by destruct s.
Qed.

Lemma readahead_loop_ok start l s tmp :
  inv s tmp → ∃ s', readahead_loop start l s = Ok s' ∧ inv s' tmp ∧ keeps s s'.
Proof.
  revert s. induction l as [|i l IH]; intros s I; cbn [readahead_loop]; [by exists s|]. cbv zeta.
  set (b := u32 (start + i)). assert (is_u32 b) as Hu by apply u32_range.
  assert (∀ s1, inv s1 tmp → keeps s s1 → ∃ s', readahead_loop start l s1 = Ok s' ∧ inv s' tmp ∧ keeps s s') as Hgo.
  { intros s1 I1 K1. destruct (IH s1 I1) as (s2 & -> & I2 & K2). exists s2. split_and!; try done. by etrans. }
  destruct (create_readahead_call s tmp b I) as (r & s1 & -> & Hr). cbn [mbind res_bind fst snd].
  destruct r as [p|]; [|destruct Hr as [? ?]; by apply Hgo].
  destruct Hr as (s0 & sh & I0 & K0 & Hsh & Hmap & Hroom & -> & ->). unfold try_push. cbv zeta. cbn [prefetch with_new with_prefetch].
  destruct (count (prefetch s0) =? PREFETCH_QUEUE_CAP) eqn:Ec; bool_simpl.
  - rewrite (rollback_call s0 tmp b sh) by done. cbn [mbind res_bind]. destruct (allocated_ok s0 tmp I0). apply Hgo; [done|by etrans].
  - destruct (ring_push (prefetch s0) (brk s0) (i_ring _ _ I0) Ec) as [Hring Hq]. set (pq := PrefetchQueue _ _ _ _) in *. cbn [mbind res_bind].
    destruct (readahead_pushed s0 tmp b sh pq) as [I2 K2]; try done. apply Hgo; [exact I2|]. etrans; [done|exact K2].
Qed.

Lemma readahead_ok s tmp start cnt has_proc spawned :
  inv s tmp → ∃ s', bcache_readahead start cnt has_proc spawned s = Ok s' ∧ inv s' tmp ∧ keeps s s'.
Proof.
  intros I. unfold bcache_readahead, ensure_prefetch_worker_started. case_if; [by exists s|].
  destruct (prefetch_started s); cbn [negb]; [by apply readahead_loop_ok|].
  destruct has_proc; cbn [negb]; [|by exists s]. destruct spawned; cbn [negb]; [|by exists s].
  assert (inv (with_started true s) tmp) as I' by (destruct I; by split).
  destruct (readahead_loop_ok start (seqZ 1 (if 8 <? cnt then 8 else cnt)) _ _ I') as (s' & ? & ? & ?). by exists s'.
Qed.

End Create.
