(* ===== verification/BcacheSpec.v ===== *)
(** * The block cache refines a disk

    The public operations against an abstract disk: the contents every caller
    sees and, next to them, what is already on the medium.  A sequence of
    calls, from any CPUs and with the prefetch worker and the shrinker at any
    point in between, behaves like that disk. *)

From S2P Require Import Prelude Bdev Bcache BcacheInv BcacheOps BcacheEvict BcacheCreate.

(** ** The abstract disk *)

Inductive op :=
  | Read (cpu block : Z)
  | Write (cpu block : Z) (buf : buffer)
  | Sync
  | Flush (block : Z)
  | Readahead (start cnt : Z) (has_proc spawned : bool)
  | Worker
  | Shrink (pages : Z).

Inductive out := ORead (ret : Z) (buf : option buffer) | OWrite (ret : Z) | OCount (n : Z) | ONone.

(** The arguments the types of the code allow. *)
Definition op_ok (o : op) : Prop :=
  match o with
  | Read _ b => is_u32 b
  | Write _ b v => is_u32 b ∧ length v = 4096%nat
  | Shrink n => is_u32 n
  | _ => True
  end.

(** [seen]: the contents; [medium]: what a power cut would leave. *)
Record disk_state := DiskState { seen : Z → option buffer; medium : Z → option buffer }.

Section Spec.
Variable blk : Z → Prop. (* the blocks of the disk *)

(** Write-backs may happen at any time. *)
Definition written (d d' : disk_state) (b : Z) : Prop :=
  medium d' b = medium d b ∨ medium d' b = seen d b ∨ medium d' b = seen d' b.

Definition spec_step (o : op) (d : disk_state) (r : out) (d' : disk_state) : Prop :=
  (∀ b, blk b → written d d' b) ∧
  match o with
  | Write _ b v =>
      (r = OWrite 1 ∧ ∀ c, blk c → seen d' c = if decide (c = b) then Some v else seen d c) ∨
      (r = OWrite 0 ∧ ∀ c, blk c → seen d' c = seen d c)
  | _ =>
      (∀ c, blk c → seen d' c = seen d c) ∧
      match o with
      | Read _ b => blk b → r = ORead 1 (seen d b)
      | Sync => r = ONone ∧ ∀ c, blk c → medium d' c = seen d' c
      | Flush b => r = ONone ∧ (blk b → medium d' b = seen d' b)
      | Shrink n => ∃ k, r = OCount k ∧ 0 ≤ k ≤ n
      | _ => r = ONone
      end
  end.

Inductive spec_run : list op → disk_state → list out → disk_state → Prop :=
  | run_nil d : spec_run [] d [] d
  | run_cons o l d r d' rs d'' :
      spec_step o d r d' → spec_run l d' rs d'' → spec_run (o :: l) d (r :: rs) d''.
End Spec.

Section Refine.
Context `{RD : ReliableDisk D}.
Implicit Types (s : bcache D) (e : entry).

Definition step (o : op) s : res (out * bcache D) :=
  match o with
  | Read cpu b => r ← bcache_read cpu b s; Ok (ORead r.1.1 r.1.2, r.2)
  | Write cpu b v => r ← bcache_write cpu b v s; Ok (OWrite r.1, r.2)
  | Sync => s ← bcache_sync s; Ok (ONone, s)
  | Flush b => s ← bcache_flush_block b s; Ok (ONone, s)
  | Readahead st n hp sp => s ← bcache_readahead st n hp sp s; Ok (ONone, s)
  | Worker => s ← prefetch_worker_turn s; Ok (ONone, s)
  | Shrink n => r ← bcache_shrinker_cb n s; Ok (OCount r.1, r.2)
  end.

Fixpoint run (l : list op) s : res (list out * bcache D) :=
  match l with
  | [] => Ok ([], s)
  | o :: l => r ← step o s; q ← run l r.2; Ok (r.1 :: q.1, q.2)
  end.

(** ** Reading and writing *)

Lemma view_hit s tmp p e : inv s tmp → heap s !! p = Some e → inflight e = false → view s (block_idx e) = edata e.
Proof. intros I Hp Hf. unfold view. by rewrite (ent_of_heap _ _ _ _ I Hp), Hf. Qed.

Lemma grows_live s s' p e : grows s s' → heap s !! p = Some e → inflight e = false →
  ∃ e', heap s' !! p = Some e' ∧ block_idx e' = block_idx e ∧ inflight e' = false.
Proof. intros G Hp Hf. destruct (G _ _ Hp) as (e' & ? & ? & Hf'). exists e'. split_and!; try done. destruct (inflight e'); [rewrite Hf' in Hf|]; done. Qed.

Lemma bcache_read_ok s cpu b :
  inv s [] → is_u32 b →
  ∃ ret buf s', bcache_read cpu b s = Ok (ret, buf, s') ∧ inv s' [] ∧ keeps s s' ∧ (in_dev (bdev s) b → ret = 1 ∧ buf = view s b).
Proof.
  intros I Hu. unfold bcache_read.
  destruct (hot_try_get_ok s [] cpu b I) as [-> | (p & e & s1 & Hp & Hb & Hf & -> & _ & I1 & K1 & G1)]; [simpl; lia|..]; cbn [mbind res_bind fst snd].
  - destruct (get_or_create_ok s [] b None I) as (r & s1 & -> & Hgot); [simpl; lia|done|done|]. cbn [mbind res_bind fst snd]. destruct r as [p|].
    + destruct Hgot as (I1 & (e & Hp & Hb) & Hin & Hdr & Hv).
      assert (keeps s s1) as K1 by (split_and!; try done; intros c Hc; destruct (Hv c Hc) as [?|(_ & ? & _)]; done).
      destruct (wait_if_inflight_ok s1 [p] p e I1 Hp) as (s2 & e2 & -> & I2 & K2 & _ & Hp2 & Hb2 & Hf2). cbn [mbind res_bind].
      rewrite (entry_at_ok _ _ e2) by done. cbn [mbind res_bind].
      destruct (touch_ok s2 [p] p e2 I2 Hp2) as (s3 & -> & I3 & K3 & G3). cbn [mbind res_bind].
      destruct (grows_live _ _ _ _ G3 Hp2 Hf2) as (e3 & Hp3 & Hb3 & Hf3).
      destruct (hot_put_ok s3 [p] cpu b p e3 I3) as (s4 & -> & I4 & K4 & G4); [simpl; lia|done|congruence|done|]. cbn [mbind res_bind].
      destruct (put_keeps _ _ _ I4) as (s5 & -> & I5 & K5 & _). cbn [mbind res_bind].
      exists 1, (edata e2), s5. split; [done|]. split; [done|]. assert (keeps s s2) as K02 by (by etrans). split.
      * etrans; [exact K02|]. by repeat (etrans; [done|]).
      * intros Hd. split; [done|]. destruct K02 as (_ & <- & _); [|done]. by rewrite <-(view_hit _ _ _ _ I2 Hp2 Hf2), Hb2, Hb.
    + destruct Hgot as (I1 & K1 & Hn). destruct (try_read_4k (bdev s1) b) as [v|] eqn:Er.
      * exists 1, (Some v), s1. split_and!; try done. intros Hd. split; [done|]. destruct K1 as (_ & <- & _); [|done].
        unfold view, ent_of. by rewrite Hn.
      * exists 0, None, s1. split_and!; try done. intros Hd. exfalso.
        destruct (read_in (bdev s1) b (i_dev _ _ I1)) as (v & ? & _); [by apply K1|congruence].
  - destruct (grows_live _ _ _ _ G1 Hp Hf) as (e1 & Hp1 & Hb1 & Hf1).
    rewrite (entry_at_ok _ _ e1) by done. cbn [mbind res_bind].
    destruct (touch_ok s1 [p] p e1 I1 Hp1) as (s2 & -> & I2 & K2 & G2). cbn [mbind res_bind].
    destruct (put_keeps _ _ _ I2) as (s3 & -> & I3 & K3 & _). cbn [mbind res_bind].
    exists 1, (edata e1), s3. split; [done|]. split; [done|]. split; [by repeat (etrans; [done|])|].
    intros Hd. split; [done|]. destruct K1 as (_ & <- & _); [|done]. by rewrite <-(view_hit _ _ _ _ I1 Hp1 Hf1), Hb1, Hb.
Qed.

(** The contents change at one block only, the medium by write-backs only. *)
Definition stores (b : Z) (v : buffer) s s' : Prop :=
  (∀ c, in_dev (bdev s') c ↔ in_dev (bdev s) c) ∧
  (∀ c, in_dev (bdev s) c → view s' c = if decide (c = b) then Some v else view s c) ∧
  (∀ c, in_dev (bdev s) c → try_read_4k (bdev s') c = try_read_4k (bdev s) c ∨
     try_read_4k (bdev s') c = view s c ∨ try_read_4k (bdev s') c = view s' c).

Lemma keeps_stores b v s1 s2 s3 : keeps s1 s2 → stores b v s2 s3 → stores b v s1 s3.
Proof.
  intros (A1 & A2 & A3) (B1 & B2 & B3). split_and!; intros c.
  - by rewrite B1.
  - intros Hc. rewrite B2 by (by apply A1). by rewrite A2.
  - intros Hc. destruct (B3 c) as [-> | [-> | ->] ]; [by apply A1|..]; [|right; left; by apply A2|by right; right].
    destruct (A3 c Hc); auto.
Qed.

Lemma stores_keeps b v s1 s2 s3 : stores b v s1 s2 → keeps s2 s3 → stores b v s1 s3.
Proof.
  intros (A1 & A2 & A3) (B1 & B2 & B3). split_and!; intros c.
  - by rewrite B1.
  - intros Hc. rewrite B2 by (by apply A1). by apply A2.
  - intros Hc. assert (in_dev (bdev s2) c) as Hc2 by (by apply A1). rewrite (B2 c Hc2). destruct (B3 c Hc2) as [-> | ->]; [by apply A3|by right; right].
Qed.

(** A store to a block that may already hold the data. *)
Lemma got_stores tmp b v p s1 s2 s3 :
  got s1 tmp b (Some v) (Some p) s2 → stores b v s2 s3 → stores b v s1 s3.
Proof.
  intros (_ & _ & A1 & A3 & A2) (B1 & B2 & B3). split_and!; intros c.
  - by rewrite B1.
  - intros Hc. rewrite B2 by (by apply A1). case_decide as Hcb; [done|]. by destruct (A2 c Hc) as [?|(? & _)].
  - intros Hc. assert (in_dev (bdev s2) c) as Hc2 by (by apply A1).
    destruct (B3 c Hc2) as [-> | [-> | ->] ]; [|destruct (A2 c Hc) as [-> | (-> & _ & ->)]|]; eauto.
    + destruct (A3 c Hc); auto.
    + right; right. by rewrite B2, decide_True by done.
Qed.

Lemma store_stores s s' b v : bdev s' = bdev s → (∀ c, view s' c = if decide (c = b) then Some v else view s c) → stores b v s s'.
Proof. intros Hd Hv. split_and!; intros c; rewrite ?Hd; auto. Qed.

Lemma bcache_write_ok s cpu b v :
  inv s [] → is_u32 b → length v = 4096%nat →
  ∃ ret s', bcache_write cpu b v s = Ok (ret, s') ∧ inv s' [] ∧ ((ret = 1 ∧ stores b v s s') ∨ (ret = 0 ∧ keeps s s')).
Proof.
  intros I Hu Hl. unfold bcache_write.
  destruct (hot_try_get_ok s [] cpu b I) as [-> | (p & e & s1 & Hp & Hb & Hf & -> & _ & I1 & K1 & G1)]; [simpl; lia|..]; cbn [mbind res_bind fst snd].
  - destruct (get_or_create_ok s [] b (Some v) I) as (r & s1 & -> & Hgot); [simpl; lia|done|by intros ? [= <-]|]. cbn [mbind res_bind fst snd]. destruct r as [p|].
    + pose proof Hgot as (I1 & (e & Hp & Hb) & _).
      destruct (wait_if_inflight_ok s1 [p] p e I1 Hp) as (s2 & e2 & -> & I2 & K2 & _ & Hp2 & Hb2 & Hf2). cbn [mbind res_bind].
      destruct (store_dirty_ok s2 [p] p e2 b v I2 Hp2) as (s3 & e3 & -> & I3 & G3 & Hd3 & V3 & Hp3 & Hf3); [congruence|done..|]. cbn [mbind res_bind].
      assert (block_idx e3 = b) as Hb3 by (destruct (G3 _ _ Hp2) as (? & ? & ? & _); congruence).
      destruct (hot_put_ok s3 [p] cpu b p e3 I3) as (s4 & -> & I4 & K4 & G4); [simpl; lia|done..|]. cbn [mbind res_bind].
      destruct (put_keeps _ _ _ I4) as (s5 & -> & I5 & K5 & _). cbn [mbind res_bind].
      exists 1, s5. split; [done|]. split; [done|]. left. split; [done|].
      eapply got_stores; [done|]. eapply keeps_stores; [done|]. eapply stores_keeps; [|done]. eapply stores_keeps; [|done].
      by apply store_stores.
    + destruct Hgot as (I1 & K1 & _). exists 0, s1. split_and!; try done. by right.
  - destruct (grows_live _ _ _ _ G1 Hp Hf) as (e1 & Hp1 & Hb1 & Hf1).
    destruct (store_dirty_ok s1 [p] p e1 b v I1 Hp1) as (s2 & e2 & -> & I2 & G2 & Hd2 & V2 & Hp2 & Hf2); [congruence|done..|]. cbn [mbind res_bind].
    destruct (put_keeps _ _ _ I2) as (s3 & -> & I3 & K3 & _). cbn [mbind res_bind].
    exists 1, s3. split; [done|]. split; [done|]. left. split; [done|].
    eapply keeps_stores; [done|]. eapply stores_keeps; [|done]. by apply store_stores.
Qed.

(** ** The refinement *)

Definition abs s : disk_state := DiskState (view s) (try_read_4k (bdev s)).

Lemma keeps_written s s' b : keeps s s' → in_dev (bdev s) b → written (abs s) (abs s') b.
Proof. intros (_ & _ & Hd) Hb. destruct (Hd b Hb); [by left|by right; left]. Qed.

(** Every call returns, keeps the invariant and does what the disk does. *)
Lemma step_refines o s :
  inv s [] → op_ok o →
  ∃ r s', step o s = Ok (r, s') ∧ inv s' [] ∧ (∀ b, in_dev (bdev s') b ↔ in_dev (bdev s) b) ∧
    spec_step (in_dev (bdev s)) o (abs s) r (abs s').
Proof.
  intros I Ho. destruct o as [cpu b|cpu b v| |b|st n hp sp| |n]; cbn [step op_ok] in *.
  - destruct (bcache_read_ok s cpu b I Ho) as (ret & buf & s' & -> & I' & K & Hr). cbn [mbind res_bind fst snd].
    eexists _, s'. split; [done|]. split; [done|]. split; [apply K|]. split; [intros; by apply keeps_written|]. split; [apply K|].
    intros Hb. by destruct (Hr Hb) as [-> ->].
  - destruct Ho as [Hu Hl]. destruct (bcache_write_ok s cpu b v I Hu Hl) as (ret & s' & -> & I' & Hr). cbn [mbind res_bind fst snd].
    eexists _, s'. split; [done|]. split; [done|]. destruct Hr as [ [-> (H1 & H2 & H3)] | [-> K] ].
    + split; [done|]. split; [exact H3|]. left. by split.
    + split; [apply K|]. split; [intros; by apply keeps_written|]. right. split; [done|]. apply K.
  - destruct (bcache_sync_ok s [] I) as (s' & -> & I' & K & Hd). cbn [mbind res_bind].
    eexists _, s'. split; [done|]. split; [done|]. split; [apply K|]. split; [intros; by apply keeps_written|]. split; [apply K|].
    split; [done|]. intros c Hc. apply Hd. by apply K.
  - destruct (flush_block_ok s [] b I) as (s' & -> & I' & K & Hd); [simpl; lia|]. cbn [mbind res_bind].
    eexists _, s'. split; [done|]. split; [done|]. split; [apply K|]. split; [intros; by apply keeps_written|]. split; [apply K|].
    split; [done|]. intros Hc. apply Hd. by apply K.
  - destruct (readahead_ok s [] st n hp sp I) as (s' & -> & I' & K). cbn [mbind res_bind].
    eexists _, s'. split; [done|]. split; [done|]. split; [apply K|]. split; [intros; by apply keeps_written|]. split; [apply K|done].
  - destruct (worker_turn_ok s [] I) as (s' & -> & I' & K & _). cbn [mbind res_bind].
    eexists _, s'. split; [done|]. split; [done|]. split; [apply K|]. split; [intros; by apply keeps_written|]. split; [apply K|done].
  - destruct (shrinker_ok s [] n I) as (k & s' & -> & I' & K & Hk); [destruct Ho; lia|]. cbn [mbind res_bind fst snd].
    eexists _, s'. split; [done|]. split; [done|]. split; [apply K|]. split; [intros; by apply keeps_written|]. split; [apply K|]. by exists k.
Qed.

Lemma spec_step_iff (blk blk' : Z → Prop) o d r d' :
  (∀ b, blk b ↔ blk' b) → spec_step blk o d r d' → spec_step blk' o d r d'.
Proof.
  intros Hb [Hw Ho]. split; [intros b ?; by apply Hw, Hb|].
  destruct o; cbn in *; setoid_rewrite <-Hb; done.
Qed.

Lemma run_refines (blk : Z → Prop) l s :
  inv s [] → (∀ b, blk b ↔ in_dev (bdev s) b) → Forall op_ok l →
  ∃ rs s', run l s = Ok (rs, s') ∧ inv s' [] ∧ (∀ b, blk b ↔ in_dev (bdev s') b) ∧ spec_run blk l (abs s) rs (abs s').
Proof.
  revert s. induction l as [|o l IH]; intros s I Hblk Hl; cbn [run].
  { exists [], s. split_and!; try done. apply run_nil. }
  apply Forall_cons in Hl as [Ho Hl]. destruct (step_refines o s I Ho) as (r & s1 & -> & I1 & Hin & Hs). cbn [mbind res_bind fst snd].
  destruct (IH s1 I1) as (rs & s2 & -> & I2 & Hblk2 & Hr); [intros b; by rewrite Hblk, Hin|done|]. cbn [mbind res_bind fst snd].
  exists (r :: rs), s2. split_and!; try done. eapply run_cons; [|done]. eapply spec_step_iff; [|exact Hs]. intros b. by rewrite Hblk.
Qed.

(** ** The start *)

Lemma per_shard_range total : is_u32 total → 1 ≤ per_shard total < 4294967295.
Proof.
  intros [H0 H1]. unfold per_shard, BLOCK_SIZE, BCACHE_SHARDS. cbv zeta.
  rewrite u64_small by lia. set (n := total * 4096 / 50 / 4096).
  assert (0 ≤ n < 85899347) as Hn by (unfold n; Z.to_euclidean_division_equations; lia).
  destruct (n <? 64) eqn:E; bool_simpl; [done|]. rewrite u32_small; Z.to_euclidean_division_equations; lia.
Qed.

Lemma init_shard total dev l1 l2 l3 si sh :
  shards (bcache_init (D := D) total dev l1 l2 l3) !! si = Some sh → sh = Shard ∅ [] [] 0 (per_shard total).
Proof.
  cbn. intros Hsh. apply elem_of_list_to_map_2, list_elem_of_fmap in Hsh as (i & [= -> ->] & _). done.
Qed.

Lemma init_inv total d l1 l2 l3 :
  is_u32 total → reliable d → sector_size d = SECTOR_SIZE → Forall (.= true) l3 →
  inv (bcache_init total (Some d) l1 l2 l3) [].
Proof.
  intros Ht Hr Hs Hl. set (s := bcache_init _ _ _ _ _).
  assert (∀ b, ptr_of s b = None) as Hptr.
  { intros b. unfold ptr_of. destruct (shards s !! index_for b) as [sh|] eqn:E; [|done]. by apply init_shard in E as ->. }
  split; try done.
  - intros b p. by rewrite Hptr.
  - intros si Hsi. cbn. destruct (list_to_map _ !! si) eqn:E; [eauto|]. exfalso.
    apply not_elem_of_list_to_map in E. apply E. rewrite <-list_fmap_compose. apply list_elem_of_fmap. exists si. split; [done|].
    apply elem_of_seqZ. unfold BCACHE_SHARDS. lia.
  - intros si sh Hsh%init_shard. subst sh. pose proof (per_shard_range total Ht).
    split; cbn [map clock dirty_list entries max_entries]; try done; try lia; try apply NoDup_nil_2;
      intros p; (split; [intros Hp; by apply not_elem_of_nil in Hp|by intros (e & ? & _)]).
  - split; [done|]. split; [done|]. split; [done|]. intros i Hi. cbn in Hi. lia.
  - apply NoDup_nil_2.
  - intros p Hp. by apply not_elem_of_nil in Hp.
  - intros p Hp. by apply not_elem_of_nil in Hp.
  - cbn. lia.
  - by exists d.
Qed.

Lemma init_view total d l1 l2 l3 b : view (bcache_init total (Some d) l1 l2 l3) b = try_read_4k (Some d) b.
Proof.
  unfold view, ent_of, ptr_of. destruct (shards _ !! index_for b) as [sh|] eqn:E; [|done]. by apply init_shard in E as ->.
Qed.

End Refine.

(** ** The properties *)

(** C4. Over a disk that works, and unless the memory for a node of the hash
    map runs out (entries and data pages may), every sequence of reads, writes,
    syncs, flushes, readahead, worker turns and shrinker calls, on any CPUs,
    returns, touches no freed entry, and behaves like one disk: a read gives the
    last successful write to that block, a failed write changes nothing, a block
    on the medium always holds contents it once had, and after a sync the
    medium has everything. *)
Theorem bcache_refines_disk `{RD : ReliableDisk D} total (d : D) l1 l2 l3 ops :
  is_u32 total → reliable d → sector_size d = SECTOR_SIZE → Forall (.= true) l3 → Forall op_ok ops →
  let s0 := bcache_init total (Some d) l1 l2 l3 in
  (∀ b, seen (abs s0) b = try_read_4k (Some d) b ∧ medium (abs s0) b = try_read_4k (Some d) b) ∧
  ∃ outs s', run ops s0 = Ok (outs, s') ∧ spec_run (in_disk d) ops (abs s0) outs (abs s').
Proof.
  intros Ht Hr Hs Hl Hops s0. split; [intros b; split; [apply init_view|done]|].
  destruct (run_refines (in_disk d) ops (bcache_init total (Some d) l1 l2 l3)) as (outs & s' & Hrun & _ & _ & Hspec); [by apply init_inv| |done|].
  { intros b. split; [intros; by exists d|by intros (? & [= <-] & ?)]. }
  by exists outs, s'.
Qed.

(** A disk of 1000 blocks and a machine with two cached blocks per shard. *)
Definition disk0 : ramdisk := RamDisk ∅ 8000 true true.
Definition ones : buffer := replicate 4096 1.
Definition zeros : buffer := replicate 4096 0.

Lemma disk0_reliable : reliable disk0.
Proof. by split_and!. Qed.

Lemma bcache_refines_disk_witness :
  ∃ outs s', run [Write 0 5 ones; Readahead 5 8 true true; Worker; Read 1 6; Read 1 5; Shrink 3; Sync]
               (bcache_init 6400 (Some disk0) [] [] []) = Ok (outs, s') ∧
    spec_run (in_disk disk0) [Write 0 5 ones; Readahead 5 8 true true; Worker; Read 1 6; Read 1 5; Shrink 3; Sync]
      (abs (bcache_init 6400 (Some disk0) [] [] [])) outs (abs s').
Proof.
  apply (bcache_refines_disk 6400 disk0 [] [] []); [done|apply disk0_reliable|done|done|].
  repeat constructor; by vm_compute.
Defined.

(** C13. At every point every entry is in the map of its shard, and its
    reference count is one for that map plus one for each hot slot and each
    place in the prefetch ring that names it; nothing that the maps, rings,
    dirty lists and hot slots name has been freed, an entry waiting in the ring
    is in flight, and no shard exceeds its limit. *)
Theorem bcache_references `{RD : ReliableDisk D} total (d : D) l1 l2 l3 ops outs s :
  is_u32 total → reliable d → sector_size d = SECTOR_SIZE → Forall (.= true) l3 → Forall op_ok ops →
  run ops (bcache_init total (Some d) l1 l2 l3) = Ok (outs, s) →
  (∀ p e, heap s !! p = Some e →
     ptr_of s (block_idx e) = Some p ∧
     refcnt e = 1 + Z.of_nat (hot_refs (hot s) p) + Z.of_nat (occ (queue s) p)) ∧
  (∀ b p, ptr_of s b = Some p → ∃ e, heap s !! p = Some e ∧ block_idx e = b) ∧
  (∀ c k b p, hot s !! (c, k) = Some (b, p) → ∃ e, heap s !! p = Some e ∧ block_idx e = b) ∧
  (∀ p, p ∈ queue s → ∃ e, heap s !! p = Some e ∧ inflight e = true) ∧
  (∀ si sh, shards s !! si = Some sh →
     entries sh = Z.of_nat (length (clock sh)) ∧ entries sh ≤ max_entries sh ∧
     ∀ p, p ∈ clock sh ∨ p ∈ dirty_list sh → ∃ e, heap s !! p = Some e ∧ index_for (block_idx e) = si).
Proof.
  intros Ht Hr Hs Hl Hops Hrun.
  destruct (run_refines (in_disk d) ops (bcache_init total (Some d) l1 l2 l3)) as (outs' & s' & Hrun' & I & _); [by apply init_inv| |done|].
  { intros b. split; [intros; by exists d|by intros (? & [= <-] & ?)]. }
  rewrite Hrun in Hrun'. injection Hrun' as <- <-. split_and!.
  - intros p e Hp. split; [by apply (i_ptr _ _ I)|]. rewrite (i_ref _ _ I _ _ Hp). unfold refs. simpl. lia.
  - apply (i_link _ _ I).
  - intros c k b p Hh. destruct (i_hot _ _ I _ _ _ _ Hh) as (_ & _ & e & ? & ? & _). eauto.
  - intros p Hq. destruct (i_queue _ _ I _ Hq) as [e Hp]. exists e. split; [done|]. by apply (eo_inflight _ _ _ _ (i_ent _ _ I _ _ Hp)).
  - intros si sh Hsh. pose proof (i_shard _ _ I _ _ Hsh) as Hso. split; [apply Hso|]. split; [apply Hso|].
    intros p [Hp|Hp]; [by apply (so_clock _ _ _ Hso)|]. apply (so_dirty _ _ _ Hso) in Hp as (e & ? & ? & _). eauto.
Qed.

(** A run that leaves an entry dirty, one in the ring and hot slots taken. *)
Definition busy_ops : list op := [Write 0 5 ones; Readahead 5 1 true true; Read 1 5].
Definition busy : res (list out * bcache ramdisk) := run busy_ops (bcache_init 6400 (Some disk0) [] [] []).
Definition heap_size (r : res (list out * bcache ramdisk)) : option nat := match r with Ok r => Some (size (heap r.2)) | _ => None end.

Lemma busy_ops_ok : Forall op_ok busy_ops.
Proof. repeat constructor; by vm_compute. Qed.

Lemma busy_size : heap_size busy = Some 2%nat.
Proof. by vm_compute. Qed.

Lemma ram_6400 : is_u32 6400. Proof. done. Qed.
Lemma ram_3200 : is_u32 3200. Proof. done. Qed.

Lemma bcache_references_witness :
  ∃ outs s, busy = Ok (outs, s) ∧ size (heap s) = 2%nat ∧
    (∀ p, p ∈ queue s → ∃ e, heap s !! p = Some e ∧ inflight e = true) ∧
    (∀ p e, heap s !! p = Some e → refcnt e = 1 + Z.of_nat (hot_refs (hot s) p) + Z.of_nat (occ (queue s) p)).
Proof.
  pose proof (λ outs s, bcache_references 6400 disk0 [] [] [] busy_ops outs s ram_6400 disk0_reliable eq_refl (Forall_nil_2 _) busy_ops_ok) as H.
  change (run busy_ops _) with busy in H. pose proof busy_size as Hsz. destruct busy as [ [outs s] | | | ]; try discriminate Hsz.
  exists outs, s. split; [done|]. split; [by injection Hsz|].
  destruct (H outs s eq_refl) as (H1 & _ & _ & H4 & _). split; [done|]. intros p e Hp. by apply H1.
Defined.

(** C14. What [bcache_sync] left on the disk is what a fresh cache over that disk
    reads after a restart, whatever was done before the sync. *)
Theorem bcache_survives_restart `{RD : ReliableDisk D} total (d : D) l1 l2 l3 ops outs s total' l1' l2' l3' :
  is_u32 total → reliable d → sector_size d = SECTOR_SIZE → Forall (.= true) l3 → Forall op_ok ops →
  run (ops ++ [Sync]) (bcache_init total (Some d) l1 l2 l3) = Ok (outs, s) →
  is_u32 total' → Forall (.= true) l3' →
  ∀ cpu b, in_disk d b →
    ∃ v s', view s b = Some v ∧ length v = 4096%nat ∧
      bcache_read cpu b (bcache_init total' (bdev s) l1' l2' l3') = Ok (1, Some v, s').
Proof.
  intros Ht Hr Hs Hl Hops Hrun Ht' Hl' cpu b Hb.
  assert (Forall op_ok (ops ++ [Sync])) as Hops' by (apply Forall_app; split; [done|repeat constructor]).
  destruct (run_refines (in_disk d) (ops ++ [Sync]) (bcache_init total (Some d) l1 l2 l3)) as (outs' & s' & Hrun' & I & Hblk & Hspec); [by apply init_inv| |done|].
  { intros c. split; [intros; by exists d|by intros (? & [= <-] & ?)]. }
  rewrite Hrun in Hrun'. injection Hrun' as <- <-.
  assert (in_dev (bdev s) b) as Hin by (by apply Hblk). destruct (view_in_disk s [] b I Hin) as (v & Hv & Hlen).
  assert (try_read_4k (bdev s) b = Some v) as Hrd.
  { rewrite <-Hv. clear -Hspec Hb. remember (abs (bcache_init total (Some d) l1 l2 l3)) as ds eqn:Eds. clear Eds.
    change (medium (abs s) b = seen (abs s) b). remember (abs s) as ds' eqn:Eds. clear Eds s.
    revert ds outs Hspec. induction ops as [|o ops IH]; intros ds outs Hspec; inversion Hspec as [|? ? ? ? ? ? ? Hst Hrn]; subst; [|by eapply IH].
    inversion Hrn; subst. destruct Hst as (_ & _ & _ & Hm). by apply Hm. }
  destruct (i_dev _ _ I) as (d' & Hd' & Hr' & Hs'). rewrite Hd' in *.
  destruct (bcache_read_ok (bcache_init total' (Some d') l1' l2' l3') cpu b) as (ret & buf & s'' & Hread & _ & _ & Hres); [by apply init_inv| |].
  { destruct Hb as (? & ? & _). unfold is_u32. lia. }
  destruct Hres as [-> ->]; [done|]. rewrite init_view, Hrd in Hread. eauto 10.
Qed.

Lemma write_5_ok : Forall op_ok [Write 0 5 ones].
Proof. repeat constructor; by vm_compute. Qed.

Lemma in_disk_5 : in_disk disk0 5.
Proof. split; [done|]. by vm_compute. Qed.

Lemma restart_size : heap_size (run ([Write 0 5 ones] ++ [Sync]) (bcache_init 6400 (Some disk0) [] [] [])) = Some 1%nat.
Proof. by vm_compute. Qed.

Lemma bcache_survives_restart_witness :
  ∃ outs s, run ([Write 0 5 ones] ++ [Sync]) (bcache_init 6400 (Some disk0) [] [] []) = Ok (outs, s) ∧
    ∃ v s', view s 5 = Some v ∧ length v = 4096%nat ∧ bcache_read 1 5 (bcache_init 3200 (bdev s) [] [] []) = Ok (1, Some v, s').
Proof.
  pose proof (λ outs s H, bcache_survives_restart 6400 disk0 [] [] [] [Write 0 5 ones] outs s 3200 [] [] []
    ram_6400 disk0_reliable eq_refl (Forall_nil_2 _) write_5_ok H ram_3200 (Forall_nil_2 _) 1 5 in_disk_5) as H.
  pose proof restart_size as Hsz. destruct (run _ _) as [ [outs s] | | | ]; try discriminate Hsz.
  exists outs, s. split; [done|]. by apply (H outs).
Defined.

(** ** What goes wrong *)

Definition ret_of (r : res (Z * bcache ramdisk)) : option Z := match r with Ok r => Some r.1 | _ => None end.
Definition buf_of (r : res (Z * option buffer * bcache ramdisk)) : option (Z * option buffer) := match r with Ok r => Some r.1 | _ => None end.
Definition pinned (b : Z) (r : res (Z * option buffer * bcache ramdisk)) : option Z :=
  match r with Ok r => refcnt <$> ent_of r.2 b | _ => None end.

(** The blocks 44, 93 and 159 share a shard, which holds two entries. *)
Definition full_shard : res (Z * option buffer * bcache ramdisk) :=
  r ← bcache_read 0 44 (bcache_init 6400 (Some disk0) [] [] []);
  r ← bcache_read 0 93 r.2;
  bcache_read 0 44 r.2.

(** A shard is full, its hand is at an entry a hot slot pins and the other
    entry, held by nobody but the shard, was accessed: the scan visits both and
    the pinned one again, gives up, and [bcache_write] fails and drops the
    data, although the same call made once more succeeds. *)
Theorem bcache_write_gives_up :
  pinned 93 full_shard = Some 1 ∧
  ret_of (r ← full_shard; bcache_write 0 159 ones r.2) = Some 0 ∧
  ret_of (r ← full_shard; r ← bcache_write 0 159 ones r.2; bcache_write 0 159 ones r.2) = Some 1.
Proof. split_and!; by vm_compute. Qed.


