(* ===== verification/YfsBitmap.v ===== *)
(** * YulaFS: allocation bitmaps

    The bit operations of [src/src/fs/yulafs.cpp] on a 4096-byte map block and
    the search for a clear bit by 64-bit words, against a scan bit by bit. *)

From S2P Require Import Prelude Bdev.

Definition YFS_BLOCK_SIZE : Z := 4096.
Definition BLOCKS_PER_GROUP : Z := YFS_BLOCK_SIZE * 8.

Definition set_bit (m : buffer) (i : Z) : res buffer :=
  b ← arr_get m (i / 8); arr_set m (i / 8) (u8 (Z.lor b (Z.shiftl 1 (i `mod` 8)))).

Definition clr_bit (m : buffer) (i : Z) : res buffer :=
  b ← arr_get m (i / 8); arr_set m (i / 8) (u8 (Z.land b (u32 (Z.lnot (Z.shiftl 1 (i `mod` 8)))))).

Definition chk_bit (m : buffer) (i : Z) : res bool :=
  b ← arr_get m (i / 8); Ok (negb (Z.land b (Z.shiftl 1 (i `mod` 8)) =? 0)).

(** [ptr[i]], a little-endian 64-bit word. *)
Definition le_word (l : list Z) : Z := foldr (λ b acc, b + 256 * acc) 0 l.
Definition word_at (buf : buffer) (i : Z) : res Z := l ← arr_slice buf (i * 8) 8; Ok (le_word l).

(** [for (bit ...)] with [n] bits left; [None] when none of them is clear. *)
Fixpoint scan_bits (n : nat) (val i bit start_bit : Z) : option Z :=
  match n with
  | O => None
  | S n =>
      let absolute_bit := i * 64 + bit in
      if absolute_bit <? start_bit then scan_bits n val i (bit + 1) start_bit
      else if Z.land (Z.shiftr val bit) 1 =? 0 then Some absolute_bit
      else scan_bits n val i (bit + 1) start_bit
  end.

Fixpoint scan_words (n : nat) (buf : buffer) (i start_bit : Z) : res Z :=
  match n with
  | O => Ok (-1)
  | S n =>
      val ← word_at buf i;
      if negb (val =? 18446744073709551615) then
        match scan_bits 64 val i 0 start_bit with
        | Some b => Ok b
        | None => scan_words n buf (i + 1) start_bit
        end
      else scan_words n buf (i + 1) start_bit
  end.

Definition find_free_bit_in_block (buf : buffer) (start_bit : Z) : res Z :=
  let words := YFS_BLOCK_SIZE / 8 in
  let start_word := start_bit / 64 in
  scan_words (Z.to_nat (words - start_word)) buf start_word start_bit.

(** ** Bits *)

(** A map block: 4096 bytes. *)
Definition map_ok (m : buffer) : Prop := length m = 4096%nat ∧ Forall is_u8 m.

Definition bit (m : buffer) (i : Z) : bool := Z.testbit (default 0 (m !! Z.to_nat (i / 8))) (i `mod` 8).

Lemma map_byte (m : buffer) k : map_ok m → 0 ≤ k < 4096 → ∃ b, m !! Z.to_nat k = Some b ∧ is_u8 b.
Proof.
  intros [Hl Hb] Hk. destruct (lookup_lt_is_Some_2 m (Z.to_nat k)) as [b Hbk]; [lia|].
  exists b. split; [done|]. by eapply Forall_lookup_1.
Qed.

Lemma byte_index i : 0 ≤ i < 32768 → 0 ≤ i / 8 < 4096 ∧ 0 ≤ i `mod` 8 < 8.
Proof. intros. Z.to_euclidean_division_equations. lia. Qed.

Lemma arr_get_byte (m : buffer) i b : 0 ≤ i → m !! Z.to_nat i = Some b → arr_get m i = Ok b.
Proof. intros Hi Hb. apply arr_get_ok; [done|]. done. Qed.

Lemma byte_bits b i : is_u8 b → 8 ≤ i → Z.testbit b i = false.
Proof.
  intros [H0 H1] Hi. destruct (decide (b = 0)) as [->|]; [apply Z.bits_0|]. apply Z.bits_above_log2; [lia|].
  pose proof (Z.log2_lt_pow2 b 8). lia.
Qed.

Lemma shl1_bit k i : 0 ≤ k → 0 ≤ i → Z.testbit (Z.shiftl 1 k) i = bool_decide (i = k).
Proof.
  intros Hk Hi. rewrite Z.shiftl_1_l. case_bool_decide as E; [subst; by apply Z.pow2_bits_true|by apply Z.pow2_bits_false; lia].
Qed.

Lemma u8_bit z i : 0 ≤ i → Z.testbit (u8 z) i = bool_decide (i < 8) && Z.testbit z i.
Proof.
  intros Hi. unfold u8. change 256 with (2 ^ 8). case_bool_decide.
  - by rewrite Z.mod_pow2_bits_low by lia.
  - by rewrite Z.mod_pow2_bits_high by lia.
Qed.

Lemma u32_bit z i : 0 ≤ i < 32 → Z.testbit (u32 z) i = Z.testbit z i.
Proof. intros Hi. unfold u32. change 4294967296 with (2 ^ 32). by rewrite Z.mod_pow2_bits_low by lia. Qed.

Lemma chk_bit_ok m i : map_ok m → 0 ≤ i < 32768 → chk_bit m i = Ok (bit m i).
Proof.
  intros Hm Hi. destruct (byte_index i Hi) as [H1 H2]. destruct (map_byte m (i / 8) Hm H1) as (b & Hb & Hu).
  unfold chk_bit, bit. rewrite (arr_get_byte _ _ b), Hb by (done || lia). cbn [mbind res_bind default from_option]. f_equal.
  destruct (Z.testbit b (i `mod` 8)) eqn:E.
  - destruct (Z.land b (Z.shiftl 1 (i `mod` 8)) =? 0) eqn:E0; [|done]. apply Z.eqb_eq in E0.
    assert (Z.testbit (Z.land b (Z.shiftl 1 (i `mod` 8))) (i `mod` 8) = true) as Ht
      by (rewrite Z.land_spec, E, shl1_bit, bool_decide_true by (done || lia); done).
    by rewrite E0, Z.bits_0 in Ht.
  - replace (Z.land b (Z.shiftl 1 (i `mod` 8))) with 0; [done|]. symmetry. apply Z.bits_inj'. intros k Hk.
    rewrite Z.land_spec, Z.bits_0, shl1_bit by lia. case_bool_decide; [subst; by rewrite E|by rewrite andb_false_r].
Qed.

(** A byte of the map replaced: only the bits of that byte can differ. *)
Lemma bit_insert (m : buffer) k b j :
  map_ok m → 0 ≤ k < 4096 → 0 ≤ j < 32768 →
  bit (<[Z.to_nat k := b]> m) j = if decide (j / 8 = k) then Z.testbit b (j `mod` 8) else bit m j.
Proof.
  intros [Hl _] Hk Hj. unfold bit. destruct (byte_index j Hj) as [H1 H2]. case_decide as E.
  - rewrite E, list_lookup_insert_eq by lia. done.
  - rewrite list_lookup_insert_ne by lia. done.
Qed.

Lemma map_ok_insert (m : buffer) k b : map_ok m → is_u8 b → map_ok (<[k := b]> m).
Proof. intros [Hl Hb] Hu. split; [by rewrite length_insert|by apply Forall_insert]. Qed.

Lemma div_mod_8 i j : i / 8 = j / 8 → (i = j ↔ i `mod` 8 = j `mod` 8).
Proof. intros. Z.to_euclidean_division_equations. lia. Qed.

(** Writing one bit. *)
Lemma set_bit_ok m i :
  map_ok m → 0 ≤ i < 32768 →
  ∃ m', set_bit m i = Ok m' ∧ map_ok m' ∧ ∀ j, 0 ≤ j < 32768 → bit m' j = (bool_decide (j = i) || bit m j).
Proof.
  intros Hm Hi. destruct (byte_index i Hi) as [H1 H2]. destruct (map_byte m (i / 8) Hm H1) as (b & Hb & Hu).
  unfold set_bit. rewrite (arr_get_byte _ _ b) by (done || lia). cbn [mbind res_bind].
  rewrite arr_set_ok by (destruct Hm; lia). eexists. split; [done|]. split; [apply map_ok_insert; [done|apply u8_range]|].
  intros j Hj. destruct (byte_index j Hj) as [H3 H4]. rewrite bit_insert by done. case_decide as E.
  - rewrite u8_bit, Z.lor_spec, shl1_bit by lia. rewrite bool_decide_true by lia. unfold bit. rewrite E, Hb. cbn.
    pose proof (div_mod_8 j i E) as Hd. rewrite orb_comm. f_equal. by apply bool_decide_ext.
  - rewrite bool_decide_false; [done|]. intros ->. done.
Qed.

Lemma clr_bit_ok m i :
  map_ok m → 0 ≤ i < 32768 →
  ∃ m', clr_bit m i = Ok m' ∧ map_ok m' ∧ ∀ j, 0 ≤ j < 32768 → bit m' j = (negb (bool_decide (j = i)) && bit m j).
Proof.
  intros Hm Hi. destruct (byte_index i Hi) as [H1 H2]. destruct (map_byte m (i / 8) Hm H1) as (b & Hb & Hu).
  unfold clr_bit. rewrite (arr_get_byte _ _ b) by (done || lia). cbn [mbind res_bind].
  rewrite arr_set_ok by (destruct Hm; lia). eexists. split; [done|]. split; [apply map_ok_insert; [done|apply u8_range]|].
  intros j Hj. destruct (byte_index j Hj) as [H3 H4]. rewrite bit_insert by done. case_decide as E.
  - rewrite u8_bit, Z.land_spec, u32_bit, Z.lnot_spec, shl1_bit by lia. rewrite bool_decide_true by lia. unfold bit. rewrite E, Hb. cbn.
    pose proof (div_mod_8 j i E) as Hd. rewrite andb_comm. f_equal. f_equal. by apply bool_decide_ext.
  - rewrite bool_decide_false; [done|]. intros ->. done.
Qed.

(** ** The search *)

Lemma le_word_bit (l : list Z) n :
  Forall is_u8 l → 0 ≤ n → Z.testbit (le_word l) n = Z.testbit (default 0 (l !! Z.to_nat (n / 8))) (n `mod` 8).
Proof.
  intros Hl. revert n. induction Hl as [|b l Hb Hl IH]; intros n Hn; cbn [le_word foldr].
  { by rewrite lookup_nil, !Z.bits_0. }
  fold (le_word l). assert (b + 256 * le_word l = Z.lor (Z.shiftl (le_word l) 8) b) as ->.
  { rewrite Z.shiftl_mul_pow2 by lia. rewrite lor_low; [lia|lia|]. destruct Hb. simpl. lia. }
  rewrite Z.lor_spec, Z.shiftl_spec by lia. destruct (decide (n < 8)) as [H8|H8].
  - rewrite Z.testbit_neg_r by lia. rewrite Z.div_small, Z.mod_small by lia. done.
  - rewrite IH by lia. rewrite (byte_bits b) by (done || lia). rewrite orb_false_r.
    replace (Z.to_nat (n / 8)) with (S (Z.to_nat ((n - 8) / 8))) by (Z.to_euclidean_division_equations; lia).
    replace ((n - 8) `mod` 8) with (n `mod` 8) by (Z.to_euclidean_division_equations; lia). done.
Qed.

Lemma le_word_range l : Forall is_u8 l → length l = 8%nat → 0 ≤ le_word l < 18446744073709551616.
Proof.
  intros Hl Hlen. do 8 (destruct Hl as [|? l ? Hl]; [done|]). destruct l; [|done]. unfold is_u8 in *. cbn. lia.
Qed.

Lemma word_at_ok m i :
  map_ok m → 0 ≤ i < 512 →
  ∃ w, word_at m i = Ok w ∧ 0 ≤ w < 18446744073709551616 ∧ ∀ k, 0 ≤ k < 64 → Z.testbit w k = bit m (i * 64 + k).
Proof.
  intros [Hl Hb] Hi. unfold word_at. rewrite arr_slice_ok by lia. cbn [mbind res_bind]. eexists. split; [done|].
  assert (Forall is_u8 (slice m (Z.to_nat (i * 8)) (Z.to_nat 8))) as Hs by (unfold slice; by apply Forall_take, Forall_drop).
  split; [apply le_word_range; [done|rewrite length_slice; lia]|].
  intros k Hk. rewrite le_word_bit by (done || lia). unfold bit. rewrite lookup_slice.
  assert (k / 8 < 8 ∧ 0 ≤ k / 8) as [? ?] by (Z.to_euclidean_division_equations; lia).
  rewrite decide_True by lia.
  replace (Z.to_nat (i * 8) + Z.to_nat (k / 8))%nat with (Z.to_nat ((i * 64 + k) / 8)) by (Z.to_euclidean_division_equations; lia).
  f_equal. Z.to_euclidean_division_equations. lia.
Qed.

Lemma shiftr_and_1 v k : 0 ≤ k → (Z.land (Z.shiftr v k) 1 =? 0) = negb (Z.testbit v k).
Proof.
  intros Hk. change 1 with (Z.ones 1). rewrite Z.land_ones by lia. change (2 ^ 1) with 2.
  rewrite Z.testbit_odd, Zmod_odd. by destruct (Z.odd (Z.shiftr v k)).
Qed.

(** The least clear bit from [start] on below [hi]. *)
Definition least_clear (m : buffer) (start hi r : Z) : Prop :=
  start ≤ r < hi ∧ bit m r = false ∧ ∀ j, start ≤ j < r → bit m j = true.

Lemma scan_bits_ok n m val i b start :
  (∀ k, 0 ≤ k < 64 → Z.testbit val k = bit m (i * 64 + k)) → 0 ≤ b → b + Z.of_nat n = 64 →
  (∀ j, start ≤ j < i * 64 + b → bit m j = true) →
  match scan_bits n val i b start with
  | Some r => least_clear m start (i * 64 + 64) r
  | None => ∀ j, start ≤ j < i * 64 + 64 → bit m j = true
  end.
Proof.
  intros Hv. revert b. induction n as [|n IH]; intros b Hb Hn Hpre; cbn [scan_bits].
  { intros j Hj. apply Hpre. lia. }
  cbv zeta. case_if.
  - apply IH; [lia..|]. intros j Hj. lia.
  - rewrite shiftr_and_1, Hv by lia. destruct (bit m (i * 64 + b)) eqn:E2; cbn [negb].
    + apply IH; [lia..|]. intros j Hj. destruct (decide (j = i * 64 + b)) as [->|]; [done|]. apply Hpre. lia.
    + split; [lia|]. split; [done|]. intros j Hj. apply Hpre. lia.
Qed.

Lemma scan_words_ok n m i start :
  map_ok m → 0 ≤ i → i + Z.of_nat n = 512 ∨ n = 0%nat ∧ 512 ≤ i →
  (∀ j, start ≤ j < i * 64 → bit m j = true) →
  ∃ r, scan_words n m i start = Ok r ∧
    (least_clear m start 32768 r ∨ (r = -1 ∧ ∀ j, start ≤ j < 32768 → bit m j = true)).
Proof.
  intros Hm. revert i. induction n as [|n IH]; intros i Hi Hn Hpre; cbn [scan_words].
  { exists (-1). split; [done|]. right. split; [done|]. intros j Hj. apply Hpre. lia. }
  destruct (word_at_ok m i Hm) as (w & -> & Hw & Hbits); [lia|]. cbn [mbind res_bind].
  assert ((∀ j, start ≤ j < (i + 1) * 64 → bit m j = true) →
    ∃ r, scan_words n m (i + 1) start = Ok r ∧
      (least_clear m start 32768 r ∨ (r = -1 ∧ ∀ j, start ≤ j < 32768 → bit m j = true))) as Hgo by (intros; apply IH; [lia|lia|done]).
  destruct (w =? 18446744073709551615) eqn:E; cbn [negb].
  - apply Hgo. intros j Hj. apply Z.eqb_eq in E. destruct (decide (j < i * 64)); [apply Hpre; lia|].
    replace j with (i * 64 + (j - i * 64)) by lia. rewrite <-Hbits by lia. subst w.
    change 18446744073709551615 with (Z.ones 64). apply Z.ones_spec_low. lia.
  - pose proof (scan_bits_ok 64 m w i 0 start Hbits) as Hs. destruct (scan_bits 64 w i 0 start) as [r|].
    + exists r. split; [done|]. left. destruct Hs as (? & ? & ?); [lia|lia|intros; apply Hpre; lia|]. split; [lia|done].
    + apply Hgo. intros j Hj. apply Hs; [lia|lia| |lia]. intros; apply Hpre; lia.
Qed.

(** The search by 64-bit words from any starting bit finds what a scan bit
    by bit finds: the least clear bit from there on, or -1 when there is none;
    it stays inside the block. *)
Theorem find_free_bit_correct m start :
  map_ok m → 0 ≤ start →
  ∃ r, find_free_bit_in_block m start = Ok r ∧
    (least_clear m start 32768 r ∨ (r = -1 ∧ ∀ j, start ≤ j < 32768 → bit m j = true)).
Proof.
  intros Hm Hs. unfold find_free_bit_in_block. cbv zeta. change (YFS_BLOCK_SIZE / 8) with 512.
  apply scan_words_ok; [done|apply Z.div_pos; lia| |].
  - destruct (decide (start / 64 ≤ 512)); [left|right]; lia.
  - intros j Hj. exfalso. Z.to_euclidean_division_equations. lia.
Qed.

(** Two full bytes, then one with bit 5 clear. *)
Lemma find_free_bit_correct_witness :
  let m := [255; 255; 223] ++ replicate 4093 0 in
  find_free_bit_in_block m 3 = Ok 21 ∧
  ∃ r, find_free_bit_in_block m 3 = Ok r ∧
    (least_clear m 3 32768 r ∨ (r = -1 ∧ ∀ j, 3 ≤ j < 32768 → bit m j = true)).
Proof.
  split; [by vm_compute|]. apply find_free_bit_correct; [|lia]. split; [by vm_compute|].
  apply Forall_app. split; [repeat constructor; done|]. by apply Forall_replicate.
Defined.
