(* ===== verification/YfsWords.v ===== *)
(** * YulaFS: 32-bit words in a block

    The packed structures of [src/src/fs/yulafs.h] and the tables of block
    pointers are sequences of little-endian 32-bit words. *)

From S2P Require Import Prelude Bdev YfsBitmap.

Definition le32 (z : Z) : list Z := [u8 z; u8 (Z.shiftr z 8); u8 (Z.shiftr z 16); u8 (Z.shiftr z 24)].

(** The load and the store of a word at a byte offset. *)
Definition rd32 (buf : buffer) (off : Z) : res Z := l ← arr_slice buf off 4; Ok (le_word l).
Definition wr32 (buf : buffer) (off v : Z) : res buffer := arr_blit buf off (le32 v).

(** The bytes of a sequence of words. *)
Definition word_bytes (ws : list Z) : buffer := concat (le32 <$> ws).

Lemma le32_ok z : length (le32 z) = 4%nat ∧ Forall is_u8 (le32 z).
Proof. split; [done|]. repeat constructor; apply u8_range. Qed.

Lemma le_word_le32 z : is_u32 z → le_word (le32 z) = z.
Proof.
  intros [H0 H1]. cbn [le_word le32 foldr]. unfold u8. rewrite !Z.shiftr_div_pow2 by lia.
  change (2 ^ 8) with 256. change (2 ^ 16) with 65536. change (2 ^ 24) with 16777216. Z.to_euclidean_division_equations. lia.
Qed.

Lemma word_bytes_ok ws : length (word_bytes ws) = (4 * length ws)%nat ∧ Forall is_u8 (word_bytes ws).
Proof.
  induction ws as [|w ws [IH1 IH2] ]; [by split|]. change (word_bytes (w :: ws)) with (le32 w ++ word_bytes ws).
  rewrite length_app, IH1. split; [cbn; lia|].
  apply Forall_app. split; [apply le32_ok|done].
Qed.

Lemma map_ok_bytes ws pad : length pad = (4096 - 4 * length ws)%nat → (4 * length ws ≤ 4096)%nat → Forall is_u8 pad → map_ok (word_bytes ws ++ pad).
Proof.
  intros Hl Hle Hu. destruct (word_bytes_ok ws) as [Hw1 Hw2]. split; [rewrite length_app; lia|]. by apply Forall_app.
Qed.

(** A word of a packed structure reads back. *)
Lemma slice_bytes ws pad k w : ws !! k = Some w → slice (word_bytes ws ++ pad) (4 * k) 4 = le32 w.
Proof.
  revert k. induction ws as [|x ws IH]; intros k Hk; [done|]. destruct k as [|k]; cbn in Hk.
  - injection Hk as ->. done.
  - replace (4 * S k)%nat with (4 + 4 * k)%nat by lia. rewrite <-(IH k Hk). done.
Qed.

Lemma rd32_bytes ws pad (k : nat) w : ws !! k = Some w → is_u32 w → rd32 (word_bytes ws ++ pad) (4 * Z.of_nat k) = Ok w.
Proof.
  intros Hk Hw. pose proof (lookup_lt_Some _ _ _ Hk). destruct (word_bytes_ok ws) as [Hl _].
  unfold rd32. rewrite arr_slice_ok by (rewrite ?length_app; lia). cbn [mbind res_bind].
  replace (Z.to_nat (4 * Z.of_nat k)) with (4 * k)%nat by lia. change (Z.to_nat 4) with 4%nat.
  by rewrite (slice_bytes _ _ _ w), le_word_le32.
Qed.

(** ** Tables of 1024 words *)

Definition word (buf : buffer) (i : Z) : Z := le_word (slice buf (Z.to_nat (4 * i)) 4).

Lemma le_word4_range l : Forall is_u8 l → length l = 4%nat → is_u32 (le_word l).
Proof.
  intros Hl Hlen. do 4 (destruct Hl as [|? l ? Hl]; [done|]). destruct l; [|done]. unfold is_u8, is_u32 in *. cbn. lia.
Qed.

Lemma word_range buf i : map_ok buf → 0 ≤ i < 1024 → is_u32 (word buf i).
Proof.
  intros [Hl Hu] Hi. apply le_word4_range; [unfold slice; by apply Forall_take, Forall_drop|rewrite length_slice; lia].
Qed.

Lemma rd32_ok buf i : map_ok buf → 0 ≤ i < 1024 → rd32 buf (4 * i) = Ok (word buf i).
Proof. intros [Hl Hu] Hi. unfold rd32. rewrite arr_slice_ok by (lia). done. Qed.

Lemma slice_blit_same {A} (l d : list A) off : (off + length d ≤ length l)%nat → slice (blit l off d) off (length d) = d.
Proof.
  intros Hl. apply list_eq. intros i. rewrite lookup_slice. case_decide as E.
  - rewrite lookup_blit by done. repeat case_decide; try lia; (replace (off + i - off)%nat with i by lia); done.
  - symmetry. apply lookup_ge_None. lia.
Qed.

Lemma slice_blit_other {A} (l d : list A) off o n :
  (off + length d ≤ length l)%nat → (o + n ≤ off ∨ off + length d ≤ o)%nat → slice (blit l off d) o n = slice l o n.
Proof.
  intros Hl Ho. apply list_eq. intros i. rewrite !lookup_slice. case_decide as E; [|done].
  rewrite lookup_blit by done. repeat case_decide; try lia; done.
Qed.

Lemma wr32_ok buf i v :
  map_ok buf → 0 ≤ i < 1024 → is_u32 v →
  ∃ buf', wr32 buf (4 * i) v = Ok buf' ∧ map_ok buf' ∧ ∀ j, 0 ≤ j < 1024 → word buf' j = if decide (j = i) then v else word buf j.
Proof.
  intros [Hl Hu] Hi Hv. destruct (le32_ok v) as [Hlv Huv]. unfold wr32. rewrite arr_blit_ok by (lia).
  eexists. split; [done|]. split.
  - split; [rewrite length_blit; lia|]. unfold blit. apply Forall_app. split; [by apply Forall_take|]. apply Forall_app. split; [done|]. by apply Forall_drop.
  - intros j Hj. unfold word. case_decide as E.
    + subst j. rewrite <-Hlv, slice_blit_same by lia. by apply le_word_le32.
    + rewrite slice_blit_other by lia. done.
Qed.

Lemma word_zeros i : 0 ≤ i < 1024 → word (replicate 4096 0) i = 0.
Proof.
  intros Hi. unfold word, slice. rewrite drop_replicate, take_replicate. replace (4 `min` (4096 - Z.to_nat (4 * i)))%nat with 4%nat by lia. done.
Qed.
