(* ===== verification/Yfs.v ===== *)
(** * YulaFS: block and inode allocation

    The superblock, the block groups and the two allocators of
    [src/src/fs/yulafs.cpp].  The file system stands on the abstract disk the
    block cache is shown to be: [disk] has the contents of every block, a block
    that is missing cannot be read, and a buffer that was not filled may not be
    used ([Fault]).  [mem] says which allocations of a 4096-byte buffer succeed.
    What runs under the mutex of a group is one step. *)

From S2P Require Import Prelude Bdev YfsBitmap YfsWords.

Definition YFS_MAGIC : Z := 0x59554C41.
Definition YFS_VERSION : Z := 2.

Record superblock := Superblock {
  magic : Z; version : Z; block_size : Z; total_blocks : Z; total_inodes : Z; free_blocks : Z; free_inodes : Z;
  map_inode_start : Z; map_block_start : Z; inode_table_start : Z; data_start : Z; sb_padding : list Z }.

Record group := Group {
  free_blocks_count : Z; free_inodes_count : Z; last_alloc_blk_bit : Z; last_alloc_ino_bit : Z }.

(** [groups] is [[]] while the pointer is null. *)
Record yfs := Yfs {
  disk : gmap Z buffer; sb : superblock; groups : list group;
  global_free_blocks : Z; global_free_inodes : Z; mem : list bool }.

Definition with_disk (d : gmap Z buffer) (s : yfs) : yfs := Yfs d (sb s) (groups s) (global_free_blocks s) (global_free_inodes s) (mem s).
Definition with_sb (b : superblock) (s : yfs) : yfs := Yfs (disk s) b (groups s) (global_free_blocks s) (global_free_inodes s) (mem s).
Definition with_groups (l : list group) (s : yfs) : yfs := Yfs (disk s) (sb s) l (global_free_blocks s) (global_free_inodes s) (mem s).
Definition with_free (fb fi : Z) (s : yfs) : yfs := Yfs (disk s) (sb s) (groups s) fb fi (mem s).
Definition with_mem (l : list bool) (s : yfs) : yfs := Yfs (disk s) (sb s) (groups s) (global_free_blocks s) (global_free_inodes s) l.

Definition group_count (s : yfs) : Z := Z.of_nat (length (groups s)).

(** [kmalloc(YFS_BLOCK_SIZE)] *)
Definition kmalloc (s : yfs) : bool * yfs := (match mem s with [] => true | b :: _ => b end, with_mem (tl (mem s)) s).

(** [bcache_read] into a buffer that is used whatever it returns. *)
Definition bread (lba : Z) (s : yfs) : res buffer := match disk s !! lba with Some v => Ok v | None => Fault end.

(** [bcache_write]: outside the disk nothing is stored. *)
Definition bwrite (lba : Z) (v : buffer) (s : yfs) : yfs :=
  if bool_decide (is_Some (disk s !! lba)) then with_disk (<[lba := v]> (disk s)) s else s.

(** The bytes of the packed superblock. *)
Definition sb_bytes (b : superblock) : buffer :=
  word_bytes [magic b; version b; block_size b; total_blocks b; total_inodes b; free_blocks b; free_inodes b;
              map_inode_start b; map_block_start b; inode_table_start b; data_start b] ++ sb_padding b.

(** [memcpy] of a block into the superblock. *)
Definition read_sb (buf : buffer) : res superblock :=
  mg ← rd32 buf 0; vs ← rd32 buf 4; bs ← rd32 buf 8; tb ← rd32 buf 12; ti ← rd32 buf 16; fb ← rd32 buf 20; fi ← rd32 buf 24;
  mi ← rd32 buf 28; mb ← rd32 buf 32; it ← rd32 buf 36; ds ← rd32 buf 40; pad ← arr_slice buf 44 4052;
  Ok (Superblock mg vs bs tb ti fb fi mi mb it ds pad).

Definition set_free (fb fi : Z) (b : superblock) : superblock :=
  Superblock (magic b) (version b) (block_size b) (total_blocks b) (total_inodes b) fb fi
    (map_inode_start b) (map_block_start b) (inode_table_start b) (data_start b) (sb_padding b).

Definition flush_sb (s : yfs) : yfs :=
  let s := with_sb (set_free (global_free_blocks s) (global_free_inodes s) (sb s)) s in
  bwrite 1 (sb_bytes (sb s)) s.

Definition zero_block (lba : Z) (s : yfs) : yfs :=
  let '(ok, s) := kmalloc s in
  if negb ok then s else bwrite lba (replicate 4096 0) s.

(** ** Blocks *)

Definition upd_group (i : Z) (g : group) (s : yfs) : res yfs := l ← arr_set (groups s) i g; Ok (with_groups l s).

(** The search from the hint, then from the start. *)
Definition find_with_hint (m : buffer) (last : Z) : res Z :=
  found_bit ← find_free_bit_in_block m (s32 last);
  if found_bit =? -1 then find_free_bit_in_block m 0 else Ok found_bit.

(** [n] turns of the loop over the groups left, [i] the next one. *)
Fixpoint alloc_block_loop (n : nat) (preferred_group i : Z) (s : yfs) : res (Z * yfs) :=
  match n with
  | O => Ok (0, s)
  | S n =>
      let group_idx := u32 (preferred_group + i) `mod` group_count s in
      g ← arr_get (groups s) group_idx;
      if free_blocks_count g =? 0 then alloc_block_loop n preferred_group (i + 1) s
      else
        let map_lba := u32 (map_block_start (sb s) + group_idx) in
        map_buf ← bread map_lba s;
        found_bit ← find_with_hint map_buf (last_alloc_blk_bit g);
        if negb (found_bit =? -1) then
          map_buf ← set_bit map_buf found_bit;
          let s := bwrite map_lba map_buf s in
          s ← upd_group group_idx
                (Group (u32 (free_blocks_count g - 1)) (free_inodes_count g) (u32 (found_bit + 1)) (last_alloc_ino_bit g)) s;
          let s := with_free (u32 (global_free_blocks s - 1)) (global_free_inodes s) s in
          let lba := u32 (data_start (sb s) + u32 (group_idx * BLOCKS_PER_GROUP) + found_bit) in
          Ok (lba, zero_block lba s)
        else alloc_block_loop n preferred_group (i + 1) s
  end.

Definition alloc_block_for_inode (file_ino : Z) (s : yfs) : res (Z * yfs) :=
  if global_free_blocks s =? 0 then Ok (0, s)
  else if group_count s =? 0 then Ok (0, s)
  else
    let preferred_group := file_ino / BLOCKS_PER_GROUP in
    let preferred_group := if group_count s <=? preferred_group then group_count s - 1 else preferred_group in
    let '(ok, s) := kmalloc s in
    if negb ok then Ok (0, s)
    else alloc_block_loop (length (groups s)) preferred_group 0 s.

Definition alloc_block (s : yfs) : res (Z * yfs) := alloc_block_for_inode 1 s.

Definition free_block (lba : Z) (s : yfs) : res yfs :=
  if lba <? data_start (sb s) then Ok s
  else if group_count s =? 0 then Ok s
  else
    let idx := u32 (lba - data_start (sb s)) in
    let group_idx := idx / BLOCKS_PER_GROUP in
    let bit := idx `mod` BLOCKS_PER_GROUP in
    if group_count s <=? group_idx then Ok s
    else
      g ← arr_get (groups s) group_idx;
      let map_lba := u32 (map_block_start (sb s) + group_idx) in
      let '(ok, s) := kmalloc s in
      if negb ok then Ok s
      else
        map_buf ← bread map_lba s;
        set ← chk_bit map_buf bit;
        if (set : bool) then
          map_buf ← clr_bit map_buf bit;
          let s := bwrite map_lba map_buf s in
          let last := if bit <? last_alloc_blk_bit g then bit else last_alloc_blk_bit g in
          s ← upd_group group_idx (Group (u32 (free_blocks_count g + 1)) (free_inodes_count g) last (last_alloc_ino_bit g)) s;
          Ok (with_free (u32 (global_free_blocks s + 1)) (global_free_inodes s) s)
        else Ok s.

(** ** Inodes *)

Definition set_last_ino (l : Z) (g : group) : group :=
  Group (free_blocks_count g) (free_inodes_count g) (last_alloc_blk_bit g) l.

(** The end of a successful turn: mark the bit and count it. *)
Definition take_inode (group_idx found_bit map_lba : Z) (map_buf : buffer) (g : group) (s : yfs) : res yfs :=
  map_buf ← set_bit map_buf found_bit;
  let s := bwrite map_lba map_buf s in
  s ← upd_group group_idx
        (Group (free_blocks_count g) (u32 (free_inodes_count g - 1)) (last_alloc_blk_bit g) (u32 (found_bit + 1))) s;
  Ok (with_free (global_free_blocks s) (u32 (global_free_inodes s - 1)) s).

Fixpoint alloc_inode_loop (n : nat) (preferred_group i : Z) (s : yfs) : res (Z * yfs) :=
  match n with
  | O => Ok (0, s)
  | S n =>
      let group_idx := u32 (preferred_group + i) `mod` group_count s in
      g ← arr_get (groups s) group_idx;
      if free_inodes_count g =? 0 then alloc_inode_loop n preferred_group (i + 1) s
      else
        let map_lba := u32 (map_inode_start (sb s) + group_idx) in
        map_buf ← bread map_lba s;
        found_bit ← find_with_hint map_buf (last_alloc_ino_bit g);
        if negb (found_bit =? -1) then
          let ino := u32 (u32 (group_idx * BLOCKS_PER_GROUP) + found_bit) in
          if ino =? 0 then
            let g := set_last_ino 1 g in
            s ← upd_group group_idx g s;
            found_bit ← find_free_bit_in_block map_buf 1;
            if found_bit =? -1 then alloc_inode_loop n preferred_group (i + 1) s
            else
              let ino := u32 (u32 (group_idx * BLOCKS_PER_GROUP) + found_bit) in
              if total_inodes (sb s) <=? ino then alloc_inode_loop n preferred_group (i + 1) s
              else s ← take_inode group_idx found_bit map_lba map_buf g s; Ok (ino, s)
          else if total_inodes (sb s) <=? ino then alloc_inode_loop n preferred_group (i + 1) s
          else s ← take_inode group_idx found_bit map_lba map_buf g s; Ok (ino, s)
        else alloc_inode_loop n preferred_group (i + 1) s
  end.

Definition alloc_inode_for_parent (parent_ino : Z) (s : yfs) : res (Z * yfs) :=
  if global_free_inodes s =? 0 then Ok (0, s)
  else if group_count s =? 0 then Ok (0, s)
  else
    let preferred_group := parent_ino / BLOCKS_PER_GROUP in
    let preferred_group := if group_count s <=? preferred_group then group_count s - 1 else preferred_group in
    let '(ok, s) := kmalloc s in
    if negb ok then Ok (0, s)
    else alloc_inode_loop (length (groups s)) preferred_group 0 s.

Definition free_inode (ino : Z) (s : yfs) : res yfs :=
  if (ino =? 0) || (total_inodes (sb s) <=? ino) then Ok s
  else if group_count s =? 0 then Ok s
  else
    let group_idx := ino / BLOCKS_PER_GROUP in
    let bit := ino `mod` BLOCKS_PER_GROUP in
    if group_count s <=? group_idx then Ok s
    else
      g ← arr_get (groups s) group_idx;
      let map_lba := u32 (map_inode_start (sb s) + group_idx) in
      let '(ok, s) := kmalloc s in
      if negb ok then Ok s
      else
        map_buf ← bread map_lba s;
        set ← chk_bit map_buf bit;
        if (set : bool) then
          map_buf ← clr_bit map_buf bit;
          let s := bwrite map_lba map_buf s in
          let last := if bit <? last_alloc_ino_bit g then bit else last_alloc_ino_bit g in
          s ← upd_group group_idx (Group (free_blocks_count g) (u32 (free_inodes_count g + 1)) (last_alloc_blk_bit g) last) s;
          Ok (with_free (global_free_blocks s) (u32 (global_free_inodes s + 1)) s)
        else Ok s.

(** ** Mounting *)

(** [for (bit = 0; bit < bits_to_check; bit++)]: how many are clear. *)
Fixpoint count_clear (n : nat) (m : buffer) (bit acc : Z) : res Z :=
  match n with
  | O => Ok acc
  | S n =>
      b ← arr_get m (bit / 8);
      count_clear n m (bit + 1) (if Z.land (Z.shiftr b (bit `mod` 8)) 1 =? 0 then u32 (acc + 1) else acc)
  end.

(** The loop over the groups: their states and the two totals. *)
Fixpoint groups_init_loop (n : nat) (g remaining_data_blocks remaining_inodes tb ti : Z) (s : yfs) : res (list group * Z * Z) :=
  match n with
  | O => Ok ([], tb, ti)
  | S n =>
      let blocks_in_this_group := if BLOCKS_PER_GROUP <? remaining_data_blocks then BLOCKS_PER_GROUP else remaining_data_blocks in
      let inodes_in_this_group := if BLOCKS_PER_GROUP <? remaining_inodes then BLOCKS_PER_GROUP else remaining_inodes in
      bm ← bread (u32 (map_block_start (sb s) + g)) s;
      free_blks ← count_clear (Z.to_nat blocks_in_this_group) bm 0 0;
      im ← bread (u32 (map_inode_start (sb s) + g)) s;
      free_inos ← count_clear (Z.to_nat inodes_in_this_group) im 0 0;
      r ← groups_init_loop n (g + 1) (remaining_data_blocks - blocks_in_this_group) (remaining_inodes - inodes_in_this_group)
            (u32 (tb + free_blks)) (u32 (ti + free_inos)) s;
      Ok (Group free_blks free_inos 0 0 :: r.1.1, r.1.2, r.2)
  end.

Definition groups_init_or_panic (s : yfs) : res yfs :=
  let data_blocks := u32 (total_blocks (sb s) - data_start (sb s)) in
  let calc_group_count := u32 (data_blocks + BLOCKS_PER_GROUP - 1) / BLOCKS_PER_GROUP in
  let inode_groups := u32 (total_inodes (sb s) + BLOCKS_PER_GROUP - 1) / BLOCKS_PER_GROUP in
  let calc_group_count := if calc_group_count <? inode_groups then inode_groups else calc_group_count in
  let calc_group_count := if calc_group_count =? 0 then 1 else calc_group_count in
  let '(ok, s) := kmalloc s in
  if negb ok then Panic
  else
    let '(ok, s) := kmalloc s in
    if negb ok then Panic
    else
      r ← groups_init_loop (Z.to_nat calc_group_count) 0 data_blocks (total_inodes (sb s)) 0 0 s;
      Ok (with_free r.1.2 r.2 (with_groups r.1.1 s)).

(** The start of [init]: the superblock comes into memory; [false] when it
    returns without one. *)
Definition load_sb (s : yfs) : res (bool * yfs) :=
  let '(ok, s) := kmalloc s in
  if negb ok then Ok (false, s)
  else match disk s !! 1 with
       | None => Ok (false, s)
       | Some buf => b ← read_sb buf; Ok (true, with_sb b s)
       end.

(** [get_filesystem_info] of a mounted file system: total, free, block size. *)
Definition get_filesystem_info (fs_mounted : bool) (s : yfs) : Z * Z * Z :=
  if fs_mounted then (total_blocks (sb s), global_free_blocks s, block_size (sb s)) else (0, 0, 0).
