(* ===== verification/YfsAlloc.v ===== *)
(** * YulaFS: what the allocators keep

    Blocks and inodes are allocated alike: a bitmap per group, a count of its
    clear bits and a hint below which every bit is set.  [side_ok] says so for
    one of the two; the lemmas say how taking and giving back an item keep it. *)

From S2P Require Import Prelude Bdev YfsBitmap YfsWords Yfs.

(** ** Counting *)

(** How many of [n] items from [lo] on are free. *)
Definition count_free (f : Z → bool) (lo n : Z) : Z := Z.of_nat (length (filter (λ j, f j = false) (seqZ lo n))).

Lemma count_free_ext f f' lo n : (∀ j, lo ≤ j < lo + n → f j = f' j) → count_free f lo n = count_free f' lo n.
Proof.
  intros Hf. unfold count_free. f_equal.
  assert (∀ j, j ∈ seqZ lo n → f j = f' j) as Hl by (intros j Hj%elem_of_seqZ; by apply Hf). revert Hl.
  generalize (seqZ lo n) as l. induction l as [|j l IH]; intros Hl; [done|]. rewrite !filter_cons, (Hl j) by left.
  case_decide; cbn; rewrite IH; try done; intros k Hk; apply Hl; by right.
Qed.

Lemma count_free_range f lo n : 0 ≤ n → 0 ≤ count_free f lo n ≤ n.
Proof.
  intros Hn. unfold count_free. split; [lia|]. pose proof (length_filter (λ j, f j = false) (seqZ lo n)) as H.
  rewrite length_seqZ in H. lia.
Qed.

Lemma count_free_app f lo n m : 0 ≤ n → 0 ≤ m → count_free f lo (n + m) = count_free f lo n + count_free f (lo + n) m.
Proof. intros. unfold count_free. rewrite seqZ_app, filter_app, length_app by done. lia. Qed.

Lemma count_free_one f x : count_free f x 1 = if f x then 0 else 1.
Proof. unfold count_free. change (seqZ x 1) with [0 + x]. rewrite Z.add_0_l, filter_cons, filter_nil. destruct (f x); by case_decide. Qed.

(** One item changes. *)
Lemma count_free_upd f f' lo n x :
  lo ≤ x < lo + n → (∀ j, lo ≤ j < lo + n → j ≠ x → f' j = f j) →
  count_free f' lo n = count_free f lo n + (if f x then (if f' x then 0 else 1) else (if f' x then -1 else 0)).
Proof.
  intros Hx Hf. replace n with ((x - lo) + (1 + (lo + n - x - 1))) by lia.
  rewrite !count_free_app by lia. replace (lo + (x - lo)) with x by lia. rewrite !count_free_one.
  rewrite (count_free_ext f' f lo (x - lo)) by (intros; apply Hf; lia).
  rewrite (count_free_ext f' f (x + 1)) by (intros; apply Hf; lia).
  destruct (f x), (f' x); lia.
Qed.

Lemma count_free_pos f lo n : 0 < count_free f lo n → ∃ x, lo ≤ x < lo + n ∧ f x = false.
Proof.
  unfold count_free. intros H. destruct (filter _ _) as [|x l] eqn:E; [simpl in H; lia|].
  assert (x ∈ filter (λ j, f j = false) (seqZ lo n)) as Hin by (rewrite E; left).
  apply list_elem_of_filter in Hin as [Hf Hx%elem_of_seqZ]. eauto.
Qed.

Lemma count_free_zero f lo n x : count_free f lo n = 0 → lo ≤ x < lo + n → f x = true.
Proof.
  intros H Hx. destruct (f x) eqn:E; [done|]. exfalso. unfold count_free in H.
  assert (x ∈ filter (λ j, f j = false) (seqZ lo n)) as Hin by (apply list_elem_of_filter; split; [done|by apply elem_of_seqZ]).
  destruct (filter _ _); [by apply not_elem_of_nil in Hin|simpl in H; lia].
Qed.

(** ** One side *)

(** How many items the group [gi] has of [n]. *)
Definition in_group (n gi : Z) : Z := Z.max 0 (Z.min 32768 (n - gi * 32768)).

(** The item [i] is in use: its bit is set. *)
Definition used (start : Z) (d : gmap Z buffer) (i : Z) : bool :=
  match d !! (start + i / 32768) with Some m => bit m (i `mod` 32768) | None => true end.

Record group_ok (start n : Z) (d : gmap Z buffer) (gi c l : Z) : Prop := {
  go_map : 0 < in_group n gi → ∃ m, d !! (start + gi) = Some m ∧ map_ok m ∧ c = count_free (bit m) 0 (in_group n gi) ∧
    ∀ j, 0 ≤ j < l → j < 32768 → bit m j = true;
  go_empty : in_group n gi = 0 → c = 0;
  go_last : 0 ≤ l ≤ 32768;
}.

Record side_ok (start n : Z) (d : gmap Z buffer) (cs : list (Z * Z)) (total : Z) : Prop := {
  so_n : 0 ≤ n < 4294967296;
  so_cover : n ≤ 32768 * Z.of_nat (length cs);
  so_group gi c l : 0 ≤ gi → cs !! Z.to_nat gi = Some (c, l) → group_ok start n d gi c l;
  so_total : total = count_free (used start d) 0 n;
}.

Lemma item_split gi j : 0 ≤ j < 32768 → (gi * 32768 + j) / 32768 = gi ∧ (gi * 32768 + j) `mod` 32768 = j.
Proof. intros. Z.to_euclidean_division_equations. lia. Qed.

Lemma in_group_pos n gi j : 0 ≤ gi → 0 ≤ j < 32768 → gi * 32768 + j < n → 0 ≤ j < in_group n gi.
Proof. unfold in_group. lia. Qed.

Lemma in_group_range n gi : 0 ≤ in_group n gi ≤ 32768.
Proof. unfold in_group. lia. Qed.

Lemma used_at start d gi j m : d !! (start + gi) = Some m → 0 ≤ j < 32768 → used start d (gi * 32768 + j) = bit m j.
Proof. intros Hm Hj. unfold used. destruct (item_split gi j Hj) as [-> ->]. by rewrite Hm. Qed.

(** A group that counts a free item has one, found from the hint. *)
Lemma side_find start n d cs total gi c l :
  side_ok start n d cs total → 0 ≤ gi → cs !! Z.to_nat gi = Some (c, l) → c ≠ 0 →
  ∃ m r, d !! (start + gi) = Some m ∧ map_ok m ∧ find_with_hint m l = Ok r ∧
    0 ≤ r < in_group n gi ∧ bit m r = false ∧ (∀ j, 0 ≤ j < r → bit m j = true) ∧ used start d (gi * 32768 + r) = false.
Proof.
  intros S Hgi Hc Hne. destruct (so_group _ _ _ _ _ S gi c l Hgi Hc) as [Hm He Hl].
  pose proof (in_group_range n gi) as Hr. destruct (decide (in_group n gi = 0)) as [E|E]; [by apply He in E|].
  destruct Hm as (m & Hm & Hok & Hcnt & Hset); [lia|].
  destruct (count_free_pos (bit m) 0 (in_group n gi)) as (x & Hx & Hxf).
  { pose proof (count_free_range (bit m) 0 (in_group n gi)). lia. }
  assert (l ≤ x) as Hlx by (destruct (decide (l ≤ x)); [done|]; rewrite Hset in Hxf by lia; done).
  assert (s32 l = l) as Hs by (unfold s32; rewrite u32_small by lia; case_if; lia).
  destruct (scan_words_ok (Z.to_nat (512 - l / 64)) m (l / 64) l) as (r & Hf & Hres); [done|apply Z.div_pos; lia| | |].
  { destruct (decide (l / 64 ≤ 512)); [left|right]; lia. }
  { intros j Hj. exfalso. Z.to_euclidean_division_equations. lia. }
  assert (least_clear m l 32768 r) as (Hr1 & Hr2 & Hr3).
  { destruct Hres as [|[_ Hall]]; [done|]. rewrite Hall in Hxf by lia. done. }
  assert (r ≤ x) as Hrx by (destruct (decide (r ≤ x)); [done|]; rewrite Hr3 in Hxf by lia; done).
  exists m, r. split_and!; try done; try lia.
  - unfold find_with_hint, find_free_bit_in_block. rewrite Hs. change (YFS_BLOCK_SIZE / 8) with 512. rewrite Hf. cbn [mbind res_bind].
    case_if; [lia|done].
  - intros j Hj. destruct (decide (j < l)); [apply Hset; lia|apply Hr3; lia].
  - rewrite (used_at _ _ _ _ m) by (done || lia). done.
Qed.

(** The bit [j] of the group [gi] is rewritten, with count, hint and total. *)
Lemma side_update start n d cs total gi c l j m m' c' l' total' v :
  side_ok start n d cs total → 0 ≤ gi → cs !! Z.to_nat gi = Some (c, l) →
  d !! (start + gi) = Some m → map_ok m' → 0 ≤ j < in_group n gi → bit m j = negb v →
  (∀ k, 0 ≤ k < 32768 → bit m' k = if decide (k = j) then v else bit m k) →
  c' = (if v then c - 1 else c + 1) → total' = (if v then total - 1 else total + 1) →
  0 ≤ l' ≤ 32768 → (∀ k, 0 ≤ k < l' → k < 32768 → bit m' k = true) →
  side_ok start n (<[start + gi := m']> d) (<[Z.to_nat gi := (c', l')]> cs) total' ∧
  ∀ i, 0 ≤ i → used start (<[start + gi := m']> d) i = if decide (i = gi * 32768 + j) then v else used start d i.
Proof.
  intros S Hgi Hcs Hm Hm' Hj Hbit Hbits -> -> Hl' Hset. pose proof (in_group_range n gi) as Hir.
  assert (∀ i, 0 ≤ i → used start (<[start + gi := m']> d) i = if decide (i = gi * 32768 + j) then v else used start d i) as Hu.
  { intros i Hi. unfold used. destruct (decide (i / 32768 = gi)) as [E|E].
    - rewrite E, lookup_insert_eq, Hm. rewrite Hbits by (apply Z.mod_pos_bound; lia).
      assert (i `mod` 32768 = j ↔ i = gi * 32768 + j) as Hiff by (clear -E Hj Hir; Z.to_euclidean_division_equations; lia).
      repeat case_decide; tauto.
    - rewrite lookup_insert_ne by lia. rewrite decide_False; [done|]. intros ->. destruct (item_split gi j); [lia|]. done. }
  split; [|done]. destruct S as [Sn Scov Sg St]. split; [done|by rewrite length_insert|..].
  - intros gj c2 l2 Hgj. destruct (decide (gj = gi)) as [->|E].
    + rewrite list_lookup_insert_eq by (by eapply lookup_lt_Some). intros [= <- <-].
      destruct (Sg gi c l Hgi Hcs) as [Hmm He Hl]. split; [|lia|done]. intros _.
      destruct Hmm as (m0 & Hm0 & Hok0 & Hc & _); [lia|]. rewrite Hm in Hm0. injection Hm0 as <-.
      exists m'. split; [apply lookup_insert_eq|]. split; [done|]. split; [|done].
      rewrite (count_free_upd (bit m) (bit m') 0 (in_group n gi) j) by (lia || (intros; rewrite Hbits, decide_False by lia; done)).
      rewrite Hbits, decide_True, Hbit by (done || lia). rewrite <-Hc. destruct v; simpl; lia.
    + rewrite list_lookup_insert_ne by lia. intros Hcs2. destruct (Sg gj c2 l2 Hgj Hcs2) as [Hmm He Hl]. split; try done.
      intros Hp. destruct (Hmm Hp) as (m0 & ? & ?). exists m0. rewrite lookup_insert_ne by lia. done.
  - rewrite St. assert (gi * 32768 + j < n) as Hlt by (unfold in_group in Hj; lia).
    rewrite (count_free_upd (used start d) (used start (<[start + gi := m']> d)) 0 n (gi * 32768 + j)) by (lia || (intros; rewrite Hu, decide_False by lia; done)).
    rewrite Hu, decide_True by (done || lia). rewrite (used_at _ _ _ _ m), Hbit by (done || lia). destruct v; simpl; lia.
Qed.

(** Blocks that are not maps of this side do not matter to it. *)
Lemma side_frame start n d d' cs total :
  side_ok start n d cs total → (∀ gi, 0 ≤ gi → gi * 32768 < n → d' !! (start + gi) = d !! (start + gi)) →
  side_ok start n d' cs total ∧ ∀ i, 0 ≤ i < n → used start d' i = used start d i.
Proof.
  intros [Sn Scov Sg St] Hd.
  assert (∀ i, 0 ≤ i < n → used start d' i = used start d i) as Hu.
  { intros i Hi. unfold used. rewrite Hd; [done|apply Z.div_pos; lia|]. Z.to_euclidean_division_equations. lia. }
  split; [|done]. split; try done.
  - intros gi c l Hgi Hc. destruct (Sg gi c l Hgi Hc) as [Hm ? ?]. split; try done. intros Hp. rewrite Hd; [by apply Hm|done|].
    unfold in_group in Hp. lia.
  - rewrite St. apply count_free_ext. intros j Hj. symmetry. apply Hu. lia.
Qed.

(** A side that counts a free item has a group that does. *)
Lemma side_free_group start n d cs total :
  side_ok start n d cs total → total ≠ 0 →
  ∃ gi c l, 0 ≤ gi < Z.of_nat (length cs) ∧ cs !! Z.to_nat gi = Some (c, l) ∧ c ≠ 0.
Proof.
  intros S Ht. pose proof (so_total _ _ _ _ _ S) as E. pose proof (so_n _ _ _ _ _ S) as Hn. pose proof (so_cover _ _ _ _ _ S) as Hcov.
  pose proof (count_free_range (used start d) 0 n).
  destruct (count_free_pos (used start d) 0 n) as (x & Hx & Hf); [lia|].
  assert (0 ≤ x / 32768 < Z.of_nat (length cs) ∧ 0 ≤ x `mod` 32768 < 32768 ∧ x = x / 32768 * 32768 + x `mod` 32768) as (Hgi & Hj & Hxe)
    by (Z.to_euclidean_division_equations; lia).
  destruct (lookup_lt_is_Some_2 cs (Z.to_nat (x / 32768))) as [ [c l] Hc]; [lia|]. exists (x / 32768), c, l. split_and!; try done; try lia.
  pose proof (in_group_pos n (x / 32768) (x `mod` 32768)) as Hin. intros ->.
  destruct (so_group _ _ _ _ _ S _ _ _ (proj1 Hgi) Hc) as [Hm _ _]. destruct Hm as (m & Hm & _ & Hcnt & _); [lia|].
  rewrite Hxe, (used_at _ _ _ _ m) in Hf by (done || lia).
  rewrite (count_free_zero (bit m) 0 (in_group n (x / 32768)) (x `mod` 32768)) in Hf by (done || lia). done.
Qed.

(** The counters stay within their words. *)
Lemma side_counts start n d cs total gi c l :
  side_ok start n d cs total → 0 ≤ gi → cs !! Z.to_nat gi = Some (c, l) →
  0 ≤ c ≤ in_group n gi ∧ 0 ≤ l ≤ 32768 ∧ 0 ≤ n < 4294967296 ∧ 0 ≤ total ≤ n.
Proof.
  intros S Hgi Hc. destruct (so_group _ _ _ _ _ S gi c l Hgi Hc) as [Hm He Hl]. pose proof (in_group_range n gi).
  pose proof (so_n _ _ _ _ _ S). split_and!; try lia.
  - destruct (decide (in_group n gi = 0)) as [E|E]; [apply He in E; lia|]. destruct Hm as (m & _ & _ & -> & _); [lia|]. unfold count_free. lia.
  - destruct (decide (in_group n gi = 0)) as [E|E]; [apply He in E; lia|]. destruct Hm as (m & _ & _ & -> & _); [lia|]. apply count_free_range. lia.
  - rewrite (so_total _ _ _ _ _ S). unfold count_free. lia.
  - rewrite (so_total _ _ _ _ _ S). apply count_free_range. lia.
Qed.

Lemma side_total_pos start n d cs total i : side_ok start n d cs total → 0 ≤ i < n → used start d i = false → 0 < total.
Proof.
  intros S Hi Hu. rewrite (so_total _ _ _ _ _ S). pose proof (count_free_range (used start d) 0 n).
  destruct (decide (count_free (used start d) 0 n = 0)) as [E|]; [|lia].
  rewrite (count_free_zero _ _ _ i E) in Hu by lia. done.
Qed.

(** Giving an item back: fewer than all are free. *)
Lemma side_total_lt start n d cs total i : side_ok start n d cs total → 0 ≤ i < n → used start d i = true → total < n.
Proof.
  intros S Hi Hu. rewrite (so_total _ _ _ _ _ S). replace n with (i + (1 + (n - i - 1))) by lia.
  rewrite !count_free_app, count_free_one, Z.add_0_l, Hu by lia.
  pose proof (count_free_range (used start d) 0 i). pose proof (count_free_range (used start d) (i + 1) (n - i - 1)). lia.
Qed.

(** ** The file system *)

Definition nblk (s : yfs) : Z := total_blocks (sb s) - data_start (sb s).
Definition blk_cs (s : yfs) : list (Z * Z) := (λ g, (free_blocks_count g, last_alloc_blk_bit g)) <$> groups s.
Definition ino_cs (s : yfs) : list (Z * Z) := (λ g, (free_inodes_count g, last_alloc_ino_bit g)) <$> groups s.

(** Where the regions of the disk lie: the maps of inodes, those of blocks, the
    inode table, the data. *)
Record layout_ok (b : superblock) : Prop := {
  l_start : 2 ≤ map_inode_start b;
  l_imap gi : 0 ≤ gi → gi * 32768 < total_inodes b → map_inode_start b + gi < map_block_start b;
  l_bmap gi : 0 ≤ gi → gi * 32768 < total_blocks b - data_start b → map_block_start b + gi < inode_table_start b;
  l_maps : map_inode_start b ≤ map_block_start b ≤ inode_table_start b;
  l_data : inode_table_start b ≤ data_start b ≤ total_blocks b;
  l_total : total_blocks b < 4294967296;
  l_inodes : 0 < total_inodes b < 4294967296;
  l_pad : length (sb_padding b) = 4052%nat ∧ Forall is_u8 (sb_padding b);
  l_words : Forall is_u32 [magic b; version b; block_size b];
}.

Record fs_ok (s : yfs) : Prop := {
  f_layout : layout_ok (sb s);
  f_disk b : 0 ≤ b < total_blocks (sb s) → ∃ v, disk s !! b = Some v ∧ map_ok v;
  f_count : 0 < group_count s ≤ 131072;
  f_blk : side_ok (map_block_start (sb s)) (nblk s) (disk s) (blk_cs s) (global_free_blocks s);
  f_ino : side_ok (map_inode_start (sb s)) (total_inodes (sb s)) (disk s) (ino_cs s) (global_free_inodes s);
  f_zero : used (map_inode_start (sb s)) (disk s) 0 = true;
}.

Definition blk_used (s : yfs) (b : Z) : bool := used (map_block_start (sb s)) (disk s) (b - data_start (sb s)).
Definition ino_used (s : yfs) (i : Z) : bool := used (map_inode_start (sb s)) (disk s) i.

Definition is_data (s : yfs) (b : Z) : Prop := data_start (sb s) ≤ b < total_blocks (sb s).
Definition is_ino (s : yfs) (i : Z) : Prop := 0 ≤ i < total_inodes (sb s).

(** A block of either bitmap. *)
Definition is_map (s : yfs) (b : Z) : Prop := map_inode_start (sb s) ≤ b < inode_table_start (sb s).

(** Writing a block that is not a map keeps everything else. *)
Lemma bwrite_in s b v : fs_ok s → 0 ≤ b < total_blocks (sb s) → bwrite b v s = with_disk (<[b := v]> (disk s)) s.
Proof. intros F Hb. destruct (f_disk _ F b Hb) as (w & Hw & _). unfold bwrite. rewrite Hw, bool_decide_true; eauto. Qed.

Lemma fs_ok_write s b v :
  fs_ok s → ¬ is_map s b → map_ok v →
  fs_ok (with_disk (<[b := v]> (disk s)) s) ∧
  (∀ c, is_data s c → blk_used (with_disk (<[b := v]> (disk s)) s) c = blk_used s c) ∧
  (∀ i, is_ino s i → ino_used (with_disk (<[b := v]> (disk s)) s) i = ino_used s i).
Proof.
  intros F Hb Hv. pose proof (f_layout _ F) as L. destruct L as [L1 L2 L3 L4 L5 L6 L7 L8 L9].
  destruct (side_frame _ _ _ (<[b := v]> (disk s)) _ _ (f_blk _ F)) as [S1 U1].
  { intros gi Hgi Hlt. apply lookup_insert_ne. intros ->. apply Hb. unfold is_map. specialize (L3 gi Hgi Hlt). lia. }
  destruct (side_frame _ _ _ (<[b := v]> (disk s)) _ _ (f_ino _ F)) as [S2 U2].
  { intros gi Hgi Hlt. apply lookup_insert_ne. intros ->. apply Hb. unfold is_map. specialize (L2 gi Hgi Hlt). lia. }
  split_and!.
  - split; try done; try apply F.
    + intros c Hc. cbn in *. destruct (decide (c = b)) as [->|]; [rewrite lookup_insert_eq; eauto|].
      rewrite lookup_insert_ne by done. by apply (f_disk _ F).
    + cbn. rewrite U2 by lia. apply (f_zero _ F).
  - intros c Hc. unfold is_data in Hc. apply U1. unfold nblk; cbn. lia.
  - intros i Hi. by apply U2.
Qed.

Lemma map_ok_zeros : map_ok (replicate 4096 0).
Proof. split; [done|]. by apply Forall_replicate. Qed.

Lemma kmalloc_eq s : kmalloc s = (match mem s with [] => true | b :: _ => b end, with_mem (tl (mem s)) s).
Proof. done. Qed.

Lemma fs_ok_mem s l : fs_ok s → fs_ok (with_mem l s).
Proof. intros []. by split. Qed.


(** One bit of a block map rewritten, with the counters of its group. *)
Lemma blk_update s gi g m m' j v g' :
  fs_ok s → 0 ≤ gi → groups s !! Z.to_nat gi = Some g → disk s !! (map_block_start (sb s) + gi) = Some m → map_ok m' →
  0 ≤ j < in_group (nblk s) gi → bit m j = negb v →
  (∀ k, 0 ≤ k < 32768 → bit m' k = if decide (k = j) then v else bit m k) →
  free_blocks_count g' = (if v then free_blocks_count g - 1 else free_blocks_count g + 1) →
  0 ≤ last_alloc_blk_bit g' ≤ 32768 → (∀ k, 0 ≤ k < last_alloc_blk_bit g' → k < 32768 → bit m' k = true) →
  free_inodes_count g' = free_inodes_count g → last_alloc_ino_bit g' = last_alloc_ino_bit g →
  let s' := with_free (if v then global_free_blocks s - 1 else global_free_blocks s + 1) (global_free_inodes s)
              (with_groups (<[Z.to_nat gi := g']> (groups s)) (with_disk (<[map_block_start (sb s) + gi := m']> (disk s)) s)) in
  fs_ok s' ∧
  (∀ b, is_data s b → blk_used s' b = if decide (b = data_start (sb s) + (gi * 32768 + j)) then v else blk_used s b) ∧
  (∀ i, is_ino s i → ino_used s' i = ino_used s i).
Proof.
  intros F Hgi Hg Hm Hm' Hj Hbit Hbits Hc Hl Hset Hci Hli s'. pose proof (f_layout _ F) as L.
  assert (gi * 32768 < nblk s) as Hlt by (unfold in_group in Hj; lia).
  destruct (side_update _ _ _ _ _ gi (free_blocks_count g) (last_alloc_blk_bit g) j m m' (free_blocks_count g') (last_alloc_blk_bit g')
    (global_free_blocks s') v (f_blk _ F)) as [S1 U1]; try done; [unfold blk_cs; by rewrite list_lookup_fmap, Hg|].
  destruct (side_frame _ _ _ (<[map_block_start (sb s) + gi := m']> (disk s)) _ _ (f_ino _ F)) as [S2 U2].
  { intros gj Hgj Hlt'. apply lookup_insert_ne. pose proof (l_imap _ L gj Hgj Hlt'). lia. }
  split_and!.
  - split; try done.
    + intros b Hb. cbn in *. destruct (decide (b = map_block_start (sb s) + gi)) as [->|]; [rewrite lookup_insert_eq; eauto|].
      rewrite lookup_insert_ne by done. by apply (f_disk _ F).
    + unfold group_count, s'; cbn. rewrite length_insert. apply (f_count _ F).
    + unfold blk_cs, s'; cbn. rewrite list_fmap_insert. exact S1.
    + unfold ino_cs, s'; cbn. rewrite list_fmap_insert, Hci, Hli, list_insert_id; [exact S2|]. by rewrite list_lookup_fmap, Hg.
    + cbn. rewrite U2 by (pose proof (l_inodes _ L); lia). apply (f_zero _ F).
  - intros b Hb. unfold is_data in Hb. unfold blk_used, s'; cbn. rewrite U1 by lia. repeat case_decide; try done; exfalso; lia.
  - intros i Hi. by apply U2.
Qed.

Lemma ino_update s gi g m m' j v g' :
  fs_ok s → 0 ≤ gi → groups s !! Z.to_nat gi = Some g → disk s !! (map_inode_start (sb s) + gi) = Some m → map_ok m' →
  0 ≤ j < in_group (total_inodes (sb s)) gi → gi * 32768 + j ≠ 0 → bit m j = negb v →
  (∀ k, 0 ≤ k < 32768 → bit m' k = if decide (k = j) then v else bit m k) →
  free_inodes_count g' = (if v then free_inodes_count g - 1 else free_inodes_count g + 1) →
  0 ≤ last_alloc_ino_bit g' ≤ 32768 → (∀ k, 0 ≤ k < last_alloc_ino_bit g' → k < 32768 → bit m' k = true) →
  free_blocks_count g' = free_blocks_count g → last_alloc_blk_bit g' = last_alloc_blk_bit g →
  let s' := with_free (global_free_blocks s) (if v then global_free_inodes s - 1 else global_free_inodes s + 1)
              (with_groups (<[Z.to_nat gi := g']> (groups s)) (with_disk (<[map_inode_start (sb s) + gi := m']> (disk s)) s)) in
  fs_ok s' ∧
  (∀ i, is_ino s i → ino_used s' i = if decide (i = gi * 32768 + j) then v else ino_used s i) ∧
  (∀ b, is_data s b → blk_used s' b = blk_used s b).
Proof.
  intros F Hgi Hg Hm Hm' Hj Hnz Hbit Hbits Hc Hl Hset Hcb Hlb s'. pose proof (f_layout _ F) as L.
  assert (gi * 32768 < total_inodes (sb s)) as Hlt by (unfold in_group in Hj; lia).
  destruct (side_update _ _ _ _ _ gi (free_inodes_count g) (last_alloc_ino_bit g) j m m' (free_inodes_count g') (last_alloc_ino_bit g')
    (global_free_inodes s') v (f_ino _ F)) as [S1 U1]; try done; [unfold ino_cs; by rewrite list_lookup_fmap, Hg|].
  destruct (side_frame _ _ _ (<[map_inode_start (sb s) + gi := m']> (disk s)) _ _ (f_blk _ F)) as [S2 U2].
  { intros gj Hgj Hlt'. apply lookup_insert_ne. pose proof (l_imap _ L gi Hgi Hlt). lia. }
  split_and!.
  - split; try done.
    + intros b Hb. cbn in *. destruct (decide (b = map_inode_start (sb s) + gi)) as [->|]; [rewrite lookup_insert_eq; eauto|].
      rewrite lookup_insert_ne by done. by apply (f_disk _ F).
    + unfold group_count, s'; cbn. rewrite length_insert. apply (f_count _ F).
    + change (nblk s') with (nblk s). unfold blk_cs, s'; cbn. rewrite list_fmap_insert, Hcb, Hlb, list_insert_id; [exact S2|]. by rewrite list_lookup_fmap, Hg.
    + unfold ino_cs, s'; cbn. rewrite list_fmap_insert. exact S1.
    + cbn. rewrite U1, decide_False by lia. apply (f_zero _ F).
  - intros i Hi. apply U1. by destruct Hi.
  - intros b Hb. unfold is_data in Hb. apply U2. unfold nblk; cbn. lia.
Qed.

(** ** Taking a block *)

(** An allocation of a buffer can fail. *)
Definition oom (s : yfs) : Prop := ¬ Forall (.= true) (mem s).

Lemma oom_tl s : oom (with_mem (tl (mem s)) s) → oom s.
Proof. unfold oom; cbn. intros H Hall. apply H. destruct (mem s); [done|]. by apply Forall_cons in Hall as [_ ?]. Qed.

(** What an allocation of a block does. *)
Record block_taken (s : yfs) (r : Z) (s' : yfs) : Prop := {
  bt_ok : fs_ok s';
  bt_sb : sb s' = sb s;
  bt_data : is_data s r;
  bt_was : blk_used s r = false;
  bt_blk b : is_data s b → blk_used s' b = bool_decide (b = r) || blk_used s b;
  bt_ino i : is_ino s i → ino_used s' i = ino_used s i;
  bt_disk b : ¬ is_map s b → b ≠ r → disk s' !! b = disk s !! b;
  bt_free : global_free_blocks s' = global_free_blocks s - 1 ∧ global_free_inodes s' = global_free_inodes s;
  bt_zero : disk s' !! r = Some (replicate 4096 0) ∨ (oom s ∧ disk s' !! r = disk s !! r);
  bt_mem : oom s' → oom s;
}.

Lemma group_idx_range pref i n : 0 ≤ pref → 0 ≤ i → pref + i < 4294967296 → 0 < n → 0 ≤ u32 (pref + i) `mod` n < n.
Proof. intros. by apply Z.mod_pos_bound. Qed.

Lemma map_lba_small s gi (F : fs_ok s) : 0 ≤ gi → gi * 32768 < nblk s →
  u32 (map_block_start (sb s) + gi) = map_block_start (sb s) + gi ∧ 0 ≤ map_block_start (sb s) + gi < total_blocks (sb s) ∧
  is_map s (map_block_start (sb s) + gi).
Proof.
  intros Hgi Hlt. destruct (f_layout _ F) as [L1 L2 L3 L4 L5 L6 L7 L8 L9]. specialize (L3 gi Hgi Hlt). rewrite u32_small by lia.
  unfold is_map. split_and!; try done; lia.
Qed.

(** One turn of the loop in a group with a free block. *)
Lemma alloc_block_turn s gi g n pref i :
  fs_ok s → 0 ≤ gi → groups s !! Z.to_nat gi = Some g → free_blocks_count g ≠ 0 → gi = u32 (pref + i) `mod` group_count s →
  ∃ r s', alloc_block_loop (S n) pref i s = Ok (r, s') ∧ block_taken s r s'.
Proof.
  intros F Hgi Hg Hc Hidx. pose proof (f_layout _ F) as L. cbn [alloc_block_loop]. cbv zeta. rewrite <-Hidx.
  rewrite (arr_get_ok _ _ g) by done. cbn [mbind res_bind]. apply Z.eqb_neq in Hc as Hc'. rewrite Hc'.
  destruct (side_find _ _ _ _ _ gi (free_blocks_count g) (last_alloc_blk_bit g) (f_blk _ F)) as (m & j & Hm & Hok & Hfind & Hj & Hbit & Hbelow & Huse);
    [done|unfold blk_cs; by rewrite list_lookup_fmap, Hg|done|].
  pose proof (in_group_range (nblk s) gi). assert (gi * 32768 + j < nblk s) as Hlt by (unfold in_group in Hj; lia).
  destruct (map_lba_small s gi F Hgi) as (-> & Hlba & Hmap); [lia|].
  unfold bread. rewrite Hm. cbn [mbind res_bind]. rewrite Hfind. cbn [mbind res_bind]. case_if; [|exfalso; bool_simpl; lia].
  destruct (set_bit_ok m j Hok) as (m' & -> & Hm' & Hbits); [lia|]. cbn [mbind res_bind]. rewrite bwrite_in by done.
  unfold upd_group. cbn [groups with_disk]. rewrite arr_set_ok by (apply lookup_lt_Some in Hg; lia). cbn [mbind res_bind].
  destruct (side_counts _ _ _ _ _ gi (free_blocks_count g) (last_alloc_blk_bit g) (f_blk _ F)) as (Hcr & _ & Hn & Htot); [done|unfold blk_cs; by rewrite list_lookup_fmap, Hg|].
  pose proof (side_total_pos _ _ _ _ _ (gi * 32768 + j) (f_blk _ F)) as Hglob. specialize (Hglob ltac:(lia) Huse).
  cbn [global_free_blocks global_free_inodes with_groups with_disk with_free sb].
  destruct L as [L1 L2 L3 L4 L5 L6 L7 L8 L9]. unfold nblk, BLOCKS_PER_GROUP, YFS_BLOCK_SIZE in *. change (4096 * 8) with 32768.
  rewrite (u32_small (free_blocks_count g - 1)), (u32_small (j + 1)), (u32_small (global_free_blocks s - 1)), (u32_small (gi * 32768)) by lia.
  rewrite (u32_small (data_start (sb s) + gi * 32768 + j)) by lia. set (r := data_start (sb s) + gi * 32768 + j).
  set (g' := Group (free_blocks_count g - 1) (free_inodes_count g) (j + 1) (last_alloc_ino_bit g)).
  destruct (blk_update s gi g m m' j true g' F Hgi Hg Hm Hm' Hj) as (F1 & U1 & V1); try done.
  { intros k Hk. rewrite Hbits by done. case_decide; [by rewrite bool_decide_true|by rewrite bool_decide_false]. }
  { cbn. lia. }
  { intros k Hk Hk'. cbn in Hk. rewrite Hbits by lia. destruct (decide (k = j)); [by rewrite bool_decide_true|]. rewrite Hbelow by lia. by rewrite orb_true_r. }
  set (s1 := with_free _ _ _) in *. exists r, (zero_block r s1). split; [done|].
  assert (is_data s r) as Hr by (unfold is_data, r; lia). assert (¬ is_map s r) as Hnm by (unfold is_map, r; lia).
  assert (blk_used s r = false) as Hwas by (unfold blk_used; replace (r - data_start (sb s)) with (gi * 32768 + j) by (unfold r; lia); done).
  assert (∀ b, is_data s b → blk_used s1 b = bool_decide (b = r) || blk_used s b) as U1'.
  { intros b Hb. rewrite U1 by done. unfold r. rewrite Z.add_assoc. case_decide; [by rewrite bool_decide_true|by rewrite bool_decide_false]. }
  unfold zero_block. rewrite kmalloc_eq. cbv iota beta zeta.
  assert (∀ b, ¬ is_map s b → disk s1 !! b = disk s !! b) as Hd1.
  { intros b Hb. unfold s1; cbn. apply lookup_insert_ne. intros <-. done. }
  destruct (match mem s1 with [] => true | b :: _ => b end) eqn:Em; cbn [negb].
  - rewrite bwrite_in; [|by apply fs_ok_mem|unfold is_data in Hr; cbn; lia].
    destruct (fs_ok_write (with_mem (tl (mem s1)) s1) r (replicate 4096 0) (fs_ok_mem _ _ F1)) as (F2 & U2 & V2); [done|apply map_ok_zeros|].
    split; try done.
    + intros b Hb. rewrite U2 by done. by apply U1'.
    + intros x Hx. rewrite V2 by done. by apply V1.
    + intros b Hb Hne. cbn [disk with_disk]. rewrite lookup_insert_ne by done. by apply Hd1.
    + left. apply lookup_insert_eq.
    + apply (oom_tl s).
  - split; try done.
    + by apply fs_ok_mem.
    + intros b Hb _. by apply Hd1.
    + right. split; [|by apply Hd1]. change (mem s1) with (mem s) in Em. intros Hall. destruct (mem s); [done|]. apply Forall_cons in Hall as [-> _]. done.
    + apply (oom_tl s).
Qed.

(** Every group is reached by the loop. *)
Lemma group_reached pref gi n : 0 ≤ pref < n → 0 ≤ gi < n → n ≤ 131072 → ∃ k, 0 ≤ k < n ∧ u32 (pref + k) `mod` n = gi.
Proof.
  intros Hp Hg Hn. exists ((gi - pref) `mod` n). pose proof (Z.mod_pos_bound (gi - pref) n). split; [lia|].
  rewrite u32_small by lia. rewrite Z.add_mod_idemp_r by lia. replace (pref + (gi - pref)) with gi by lia. by apply Z.mod_small.
Qed.

Lemma group_at s gi : 0 ≤ gi < group_count s → ∃ g, groups s !! Z.to_nat gi = Some g.
Proof. unfold group_count. intros. apply lookup_lt_is_Some_2. lia. Qed.

Lemma alloc_block_loop_ok n s pref i :
  fs_ok s → 0 ≤ pref < group_count s → 0 ≤ i → i + Z.of_nat n = group_count s → global_free_blocks s ≠ 0 →
  (∀ k g, 0 ≤ k < i → groups s !! Z.to_nat (u32 (pref + k) `mod` group_count s) = Some g → free_blocks_count g = 0) →
  ∃ r s', alloc_block_loop n pref i s = Ok (r, s') ∧ block_taken s r s'.
Proof.
  intros F Hp. revert i. induction n as [|n IH]; intros i Hi Hn Hfree Hseen.
  { exfalso. destruct (side_free_group _ _ _ _ _ (f_blk _ F) Hfree) as (gi & c & l & Hgi & Hc & Hne).
    unfold blk_cs in Hgi, Hc. rewrite length_fmap in Hgi. apply list_lookup_fmap_Some in Hc as (g & [= -> ->] & Hg).
    destruct (group_reached pref gi (group_count s)) as (k & Hk & E); [done|done|apply (f_count _ F)|].
    apply Hne, (Hseen k g); [lia|]. by rewrite E. }
  assert (0 ≤ u32 (pref + i) `mod` group_count s < group_count s) as Hr by (apply Z.mod_pos_bound; pose proof (f_count _ F); lia).
  destruct (group_at s _ Hr) as [g Hg]. destruct (decide (free_blocks_count g = 0)) as [E|E].
  - cbn [alloc_block_loop]. cbv zeta. rewrite (arr_get_ok _ _ g) by (done || lia). cbn [mbind res_bind]. rewrite E. cbn [Z.eqb].
    apply IH; [lia|lia|done|]. intros k g' Hk Hg'. destruct (decide (k = i)) as [->|]; [by simplify_eq|]. apply (Hseen k g'); [lia|done].
  - by eapply alloc_block_turn; [done| |done..]; lia.
Qed.

Lemma kmalloc_cases s : ∃ ok, kmalloc s = (ok, with_mem (tl (mem s)) s) ∧ (ok = false → oom s).
Proof.
  eexists. split; [done|]. intros E Hall. destruct (mem s); [done|]. apply Forall_cons in Hall as [-> _]. done.
Qed.

Lemma pref_range f s : fs_ok s → 0 ≤ f → 0 ≤ (if group_count s <=? f then group_count s - 1 else f) < group_count s.
Proof. intros F Hf. pose proof (f_count _ F). case_if; lia. Qed.

Lemma taken_mem s r s' : block_taken (with_mem (tl (mem s)) s) r s' → block_taken s r s'.
Proof.
  intros []. split; try done.
  - destruct bt_zero0 as [|[? ?] ]; [by left|right]. split; [|done]. by apply oom_tl.
  - intros H. by apply oom_tl, bt_mem0.
Qed.

Lemma alloc_block_ok s f :
  fs_ok s → 0 ≤ f →
  ∃ r s', alloc_block_for_inode f s = Ok (r, s') ∧
    (block_taken s r s' ∨
     r = 0 ∧ (s' = s ∨ s' = with_mem (tl (mem s)) s) ∧ (global_free_blocks s = 0 ∨ oom s)).
Proof.
  intros F Hf. unfold alloc_block_for_inode. case_if.
  { exists 0, s. split; [done|]. right. split; [done|]. split; [by left|left]. lia. }
  pose proof (f_count _ F) as Hc. case_if; [lia|]. cbv zeta.
  destruct (kmalloc_cases s) as (ok & -> & Hok). cbv iota beta. destruct ok; cbn [negb].
  - destruct (alloc_block_loop_ok (length (groups s)) (with_mem (tl (mem s)) s) (if group_count s <=? f / BLOCKS_PER_GROUP then group_count s - 1 else f / BLOCKS_PER_GROUP) 0)
      as (r & s' & Hl & Ht); [by apply fs_ok_mem|apply (pref_range _ s); [done|apply Z.div_pos; [done|by vm_compute] ]|done|done|cbn; lia|lia|].
    exists r, s'. split; [exact Hl|]. left. by apply taken_mem.
  - exists 0, (with_mem (tl (mem s)) s). split; [done|]. right. split; [done|]. split; [by right|right; by apply Hok].
Qed.
