(* ===== verification/YfsOps.v ===== *)
(** * YulaFS: giving back, inodes, and the abstract volume

    What [free_block], [alloc_inode_for_parent] and [free_inode] do to a sound
    file system, and the refinement of the four operations to a volume that is
    two sets of free items and the contents of its blocks. *)

From S2P Require Import Prelude Bdev YfsBitmap YfsWords Yfs YfsAlloc.

(** [s'] is sound and has [fb] and [fi] for its blocks and inodes in use; no
    block but a map has changed. *)
Record moved (s s' : yfs) (fb fi : Z → bool) : Prop := {
  mv_ok : fs_ok s';
  mv_sb : sb s' = sb s;
  mv_blk b : is_data s b → blk_used s' b = fb b;
  mv_ino i : is_ino s i → ino_used s' i = fi i;
  mv_disk b : ¬ is_map s b → disk s' !! b = disk s !! b;
  mv_mem : oom s' → oom s;
}.

Lemma moved_mem s : fs_ok s → moved s (with_mem (tl (mem s)) s) (blk_used s) (ino_used s).
Proof. intros F. split; try done; [by apply fs_ok_mem|apply oom_tl]. Qed.

Lemma moved_refl s : fs_ok s → moved s s (blk_used s) (ino_used s).
Proof. by split. Qed.

(** The hint after a bit is cleared. *)
Lemma hint_below m m' j l k :
  0 ≤ j → (∀ k, 0 ≤ k < 32768 → bit m' k = negb (bool_decide (k = j)) && bit m k) →
  (∀ k, 0 ≤ k < l → k < 32768 → bit m k = true) →
  0 ≤ k < (if j <? l then j else l) → k < 32768 → bit m' k = true.
Proof. intros Hj Hb Hl Hk Hk'. rewrite Hb by lia. rewrite bool_decide_false by (revert Hk; case_if; lia). apply Hl; [revert Hk; case_if; lia|done]. Qed.

Lemma free_block_ok s b :
  fs_ok s → 0 ≤ b < total_blocks (sb s) →
  ∃ s', free_block b s = Ok s' ∧
    (moved s s' (λ c, negb (bool_decide (c = b)) && blk_used s c) (ino_used s) ∨
     moved s s' (blk_used s) (ino_used s) ∧ (b < data_start (sb s) ∨ oom s)).
Proof.
  intros F Hb. pose proof (f_layout _ F) as L. pose proof (f_count _ F) as Hcount. unfold free_block. case_if.
  { exists s. split; [done|]. right. split; [by apply moved_refl|left; lia]. }
  case_if; [lia|]. cbv zeta. destruct L as [L1 L2 L3 L4 L5 L6 L7 L8 L9].
  rewrite u32_small by lia. change BLOCKS_PER_GROUP with 32768. set (idx := b - data_start (sb s)).
  set (gi := idx / 32768). set (j := idx `mod` 32768).
  assert (0 ≤ gi ∧ 0 ≤ j < 32768 ∧ idx = gi * 32768 + j ∧ idx < nblk s) as (Hgi & Hj & Hidx & Hlt)
    by (unfold gi, j, idx, nblk; Z.to_euclidean_division_equations; lia).
  pose proof (so_cover _ _ _ _ _ (f_blk _ F)) as Hcov. unfold blk_cs in Hcov. rewrite length_fmap in Hcov.
  assert (gi < group_count s) as Hgc by (unfold group_count; lia). case_if; [lia|].
  destruct (group_at s gi) as [g Hg]; [lia|]. rewrite (arr_get_ok _ _ g) by done. cbn [mbind res_bind].
  destruct (kmalloc_cases s) as (ok & -> & Hoom). cbv iota beta.
  destruct (map_lba_small s gi F Hgi) as (-> & Hlba & Hmap); [lia|].
  destruct ok; cbn [negb]; [|eexists; split; [done|]; right; split; [by apply moved_mem|right; by apply Hoom] ].
  pose proof (fs_ok_mem s (tl (mem s)) F) as F1. set (s1 := with_mem (tl (mem s)) s) in *.
  pose proof (in_group_pos (nblk s) gi j Hgi Hj) as Hin. specialize (Hin ltac:(lia)).
  assert (blk_cs s !! Z.to_nat gi = Some (free_blocks_count g, last_alloc_blk_bit g)) as Hcs by (unfold blk_cs; by rewrite list_lookup_fmap, Hg).
  destruct (so_group _ _ _ _ _ (f_blk _ F) gi _ _ Hgi Hcs) as [Hgm _ Hl]. destruct Hgm as (m & Hm & Hok & Hcnt & Hset); [lia|].
  unfold bread. change (disk s1) with (disk s). rewrite Hm. cbn [mbind res_bind]. rewrite chk_bit_ok by done. cbn [mbind res_bind].
  assert (blk_used s b = bit m j) as Hu by (unfold blk_used; fold idx; rewrite Hidx; by apply used_at).
  destruct (bit m j) eqn:Hbit.
  2: { exists s1. split; [done|]. left. destruct (moved_mem s F) as [? ? Hb1 ? ?]. split; try done.
       intros c Hc. rewrite Hb1 by done. case_bool_decide; [by subst|done]. }
  destruct (clr_bit_ok m j Hok Hj) as (m' & -> & Hm' & Hbits). cbn [mbind res_bind]. rewrite bwrite_in by done.
  unfold upd_group. cbn [groups with_disk with_mem s1]. rewrite arr_set_ok by (apply lookup_lt_Some in Hg; lia). cbn [mbind res_bind].
  destruct (side_counts _ _ _ _ _ gi _ _ (f_blk _ F) Hgi Hcs) as (Hcr & _ & Hn & Htot). pose proof (in_group_range (nblk s) gi).
  assert (used (map_block_start (sb s)) (disk s) idx = true) as Hused by exact Hu.
  pose proof (side_total_lt _ _ _ _ _ idx (f_blk _ F)) as Hltn. specialize (Hltn ltac:(lia) Hused).
  unfold s1. cbn [global_free_blocks global_free_inodes with_groups with_disk with_free with_mem sb]. fold s1.
  rewrite (u32_small (free_blocks_count g + 1)), (u32_small (global_free_blocks s + 1)) by lia.
  set (g' := Group _ _ _ _). eexists. split; [done|]. left.
  destruct (blk_update s1 gi g m m' j false g' F1 Hgi Hg Hm Hm' Hin) as (F2 & U2 & V2); try done.
  { intros k Hk. rewrite Hbits by done. case_decide; [by rewrite bool_decide_true|by rewrite bool_decide_false]. }
  { cbn. case_if; lia. }
  { intros k. cbn [g' last_alloc_blk_bit]. apply (hint_below m); try done. lia. }
  split; try done.
  - intros c Hc. rewrite U2 by done. change (blk_used s1 c) with (blk_used s c). change (sb s1) with (sb s).
    replace (data_start (sb s) + (gi * 32768 + j)) with b by lia. case_decide; [by rewrite bool_decide_true|by rewrite bool_decide_false].
  - intros c Hc. cbn. apply lookup_insert_ne. intros <-. done.
  - apply (oom_tl s).
Qed.

(** ** Inodes *)

Record inode_taken (s : yfs) (r : Z) (s' : yfs) : Prop := {
  it_moved : moved s s' (blk_used s) (λ i, bool_decide (i = r) || ino_used s i);
  it_ino : is_ino s r;
  it_was : ino_used s r = false;
}.

(** Inode 0 is never handed out: it is in use. *)
Lemma taken_nonzero s r s' : fs_ok s → inode_taken s r s' → r ≠ 0.
Proof. intros F [_ _ H] ->. unfold ino_used in H. by rewrite (f_zero _ F) in H. Qed.

Lemma imap_lba_small s gi (F : fs_ok s) : 0 ≤ gi → gi * 32768 < total_inodes (sb s) →
  u32 (map_inode_start (sb s) + gi) = map_inode_start (sb s) + gi ∧ 0 ≤ map_inode_start (sb s) + gi < total_blocks (sb s) ∧
  is_map s (map_inode_start (sb s) + gi).
Proof.
  intros Hgi Hlt. destruct (f_layout _ F) as [L1 L2 L3 L4 L5 L6 L7 L8 L9]. specialize (L2 gi Hgi Hlt). rewrite u32_small by lia.
  unfold is_map. split_and!; try done; lia.
Qed.

Lemma take_inode_ok s gi g m j :
  fs_ok s → 0 ≤ gi → groups s !! Z.to_nat gi = Some g → disk s !! (map_inode_start (sb s) + gi) = Some m → map_ok m →
  0 ≤ j < in_group (total_inodes (sb s)) gi → gi * 32768 + j ≠ 0 → bit m j = false → (∀ k, 0 ≤ k < j → bit m k = true) →
  ∃ s', take_inode gi j (map_inode_start (sb s) + gi) m g s = Ok s' ∧ inode_taken s (gi * 32768 + j) s'.
Proof.
  intros F Hgi Hg Hm Hok Hj Hnz Hbit Hbelow. pose proof (in_group_range (total_inodes (sb s)) gi).
  assert (gi * 32768 + j < total_inodes (sb s)) as Hlt by (unfold in_group in Hj; lia).
  destruct (imap_lba_small s gi F Hgi) as (_ & Hlba & Hmap); [lia|]. unfold take_inode.
  destruct (set_bit_ok m j Hok) as (m' & -> & Hm' & Hbits); [lia|]. cbn [mbind res_bind]. rewrite bwrite_in by done.
  unfold upd_group. cbn [groups with_disk]. rewrite arr_set_ok by (apply lookup_lt_Some in Hg; lia). cbn [mbind res_bind].
  assert (ino_cs s !! Z.to_nat gi = Some (free_inodes_count g, last_alloc_ino_bit g)) as Hcs by (unfold ino_cs; by rewrite list_lookup_fmap, Hg).
  destruct (side_counts _ _ _ _ _ gi _ _ (f_ino _ F) Hgi Hcs) as (Hcr & _ & Hn & Htot).
  assert (used (map_inode_start (sb s)) (disk s) (gi * 32768 + j) = false) as Huse by (rewrite (used_at _ _ _ _ m); [done|done|lia]).
  pose proof (side_total_pos _ _ _ _ _ (gi * 32768 + j) (f_ino _ F)) as Hglob. specialize (Hglob ltac:(lia) Huse).
  assert (free_inodes_count g ≠ 0) as Hne.
  { intros E. destruct (so_group _ _ _ _ _ (f_ino _ F) gi _ _ Hgi Hcs) as [Hgm _ _]. destruct Hgm as (m0 & Hm0 & _ & Hcnt & _); [lia|].
    rewrite Hm in Hm0. injection Hm0 as <-. rewrite (count_free_zero (bit m) 0 (in_group (total_inodes (sb s)) gi) j) in Hbit by lia. done. }
  cbn [global_free_blocks global_free_inodes with_groups with_disk with_free sb].
  rewrite (u32_small (free_inodes_count g - 1)), (u32_small (j + 1)), (u32_small (global_free_inodes s - 1)) by lia.
  set (g' := Group _ _ _ _). eexists. split; [done|].
  destruct (ino_update s gi g m m' j true g' F Hgi Hg Hm Hm' Hj Hnz) as (F1 & U1 & V1); try done.
  { intros k Hk. rewrite Hbits by done. case_decide; [by rewrite bool_decide_true|by rewrite bool_decide_false]. }
  { cbn. lia. }
  { intros k Hk Hk'. cbn in Hk. rewrite Hbits by lia. destruct (decide (k = j)); [by rewrite bool_decide_true|]. rewrite Hbelow by lia. by rewrite orb_true_r. }
  split; [|unfold is_ino; lia|done]. split; try done.
  - intros i Hi. rewrite U1 by done. case_decide; [by rewrite bool_decide_true|by rewrite bool_decide_false].
  - intros b Hb. cbn. apply lookup_insert_ne. intros <-. done.
Qed.

Lemma alloc_inode_turn s gi g n pref i :
  fs_ok s → 0 ≤ gi → groups s !! Z.to_nat gi = Some g → free_inodes_count g ≠ 0 → gi = u32 (pref + i) `mod` group_count s →
  ∃ r s', alloc_inode_loop (S n) pref i s = Ok (r, s') ∧ inode_taken s r s'.
Proof.
  intros F Hgi Hg Hc Hidx. cbn [alloc_inode_loop]. cbv zeta. rewrite <-Hidx.
  rewrite (arr_get_ok _ _ g) by done. cbn [mbind res_bind]. apply Z.eqb_neq in Hc as Hc'. rewrite Hc'.
  destruct (side_find _ _ _ _ _ gi (free_inodes_count g) (last_alloc_ino_bit g) (f_ino _ F)) as (m & j & Hm & Hok & Hfind & Hj & Hbit & Hbelow & Huse);
    [done|unfold ino_cs; by rewrite list_lookup_fmap, Hg|done|].
  pose proof (in_group_range (total_inodes (sb s)) gi). assert (gi * 32768 + j < total_inodes (sb s)) as Hlt by (unfold in_group in Hj; lia).
  pose proof (l_inodes _ (f_layout _ F)) as Hti.
  destruct (imap_lba_small s gi F Hgi) as (-> & Hlba & Hmap); [lia|].
  unfold bread. rewrite Hm. cbn [mbind res_bind]. rewrite Hfind. cbn [mbind res_bind]. case_if; [|exfalso; bool_simpl; lia].
  change BLOCKS_PER_GROUP with 32768. rewrite (u32_small (gi * 32768)), (u32_small (gi * 32768 + j)) by lia.
  assert (gi * 32768 + j ≠ 0) as Hnz by (intros Ez; rewrite Ez, (f_zero _ F) in Huse; done).
  case_if; [lia|]. case_if; [lia|].
  destruct (take_inode_ok s gi g m j F Hgi Hg Hm Hok Hj Hnz Hbit Hbelow) as (s' & -> & Ht). by exists (gi * 32768 + j), s'.
Qed.

Lemma alloc_inode_loop_ok n s pref i :
  fs_ok s → 0 ≤ pref < group_count s → 0 ≤ i → i + Z.of_nat n = group_count s → global_free_inodes s ≠ 0 →
  (∀ k g, 0 ≤ k < i → groups s !! Z.to_nat (u32 (pref + k) `mod` group_count s) = Some g → free_inodes_count g = 0) →
  ∃ r s', alloc_inode_loop n pref i s = Ok (r, s') ∧ inode_taken s r s'.
Proof.
  intros F Hp. revert i. induction n as [|n IH]; intros i Hi Hn Hfree Hseen.
  { exfalso. destruct (side_free_group _ _ _ _ _ (f_ino _ F) Hfree) as (gi & c & l & Hgi & Hc & Hne).
    unfold ino_cs in Hgi, Hc. rewrite length_fmap in Hgi. apply list_lookup_fmap_Some in Hc as (g & [= -> ->] & Hg).
    destruct (group_reached pref gi (group_count s)) as (k & Hk & E); [done|done|apply (f_count _ F)|].
    apply Hne, (Hseen k g); [lia|]. by rewrite E. }
  assert (0 ≤ u32 (pref + i) `mod` group_count s < group_count s) as Hr by (apply Z.mod_pos_bound; pose proof (f_count _ F); lia).
  destruct (group_at s _ Hr) as [g Hg]. destruct (decide (free_inodes_count g = 0)) as [E|E].
  - cbn [alloc_inode_loop]. cbv zeta. rewrite (arr_get_ok _ _ g) by (done || lia). cbn [mbind res_bind]. rewrite E. cbn [Z.eqb].
    apply IH; [lia|lia|done|]. intros k g' Hk Hg'. destruct (decide (k = i)) as [->|]; [by simplify_eq|]. apply (Hseen k g'); [lia|done].
  - by eapply alloc_inode_turn; [done| |done..]; lia.
Qed.

Lemma alloc_inode_ok s p :
  fs_ok s → 0 ≤ p →
  ∃ r s', alloc_inode_for_parent p s = Ok (r, s') ∧
    (inode_taken s r s' ∨
     r = 0 ∧ (s' = s ∨ s' = with_mem (tl (mem s)) s) ∧ (global_free_inodes s = 0 ∨ oom s)).
Proof.
  intros F Hf. unfold alloc_inode_for_parent. case_if.
  { exists 0, s. split; [done|]. right. split; [done|]. split; [by left|left]. lia. }
  pose proof (f_count _ F) as Hc. case_if; [lia|]. cbv zeta.
  destruct (kmalloc_cases s) as (ok & -> & Hok). cbv iota beta. destruct ok; cbn [negb].
  - destruct (alloc_inode_loop_ok (length (groups s)) (with_mem (tl (mem s)) s) (if group_count s <=? p / BLOCKS_PER_GROUP then group_count s - 1 else p / BLOCKS_PER_GROUP) 0)
      as (r & s' & Hl & [ [? ? ? ? ? Hmm] ? ?]); [by apply fs_ok_mem|apply (pref_range _ s); [done|apply Z.div_pos; [done|by vm_compute] ]|done|done|cbn; lia|lia|].
    exists r, s'. split; [exact Hl|]. left. split; try done. split; try done. intros H. by apply oom_tl, Hmm.
  - exists 0, (with_mem (tl (mem s)) s). split; [done|]. right. split; [done|]. split; [by right|right; by apply Hok].
Qed.

Lemma free_inode_ok s i :
  fs_ok s → 0 ≤ i →
  ∃ s', free_inode i s = Ok s' ∧
    (i ≠ 0 ∧ moved s s' (blk_used s) (λ k, negb (bool_decide (k = i)) && ino_used s k) ∨
     moved s s' (blk_used s) (ino_used s) ∧ (i = 0 ∨ total_inodes (sb s) ≤ i ∨ oom s)).
Proof.
  intros F Hi. pose proof (f_count _ F) as Hcount. pose proof (l_inodes _ (f_layout _ F)) as Hti. unfold free_inode.
  destruct ((i =? 0) || (total_inodes (sb s) <=? i)) eqn:E0.
  { exists s. split; [done|]. right. split; [by apply moved_refl|]. apply orb_true_iff in E0 as [E0|E0]; [left; lia|right; left; lia]. }
  apply orb_false_iff in E0 as [E0 E1]. bool_simpl. case_if; [lia|]. cbv zeta.
  change BLOCKS_PER_GROUP with 32768. set (gi := i / 32768). set (j := i `mod` 32768).
  assert (0 ≤ gi ∧ 0 ≤ j < 32768 ∧ i = gi * 32768 + j) as (Hgi & Hj & Hidx) by (unfold gi, j; Z.to_euclidean_division_equations; lia).
  pose proof (so_cover _ _ _ _ _ (f_ino _ F)) as Hcov. unfold ino_cs in Hcov. rewrite length_fmap in Hcov.
  assert (gi < group_count s) as Hgc by (unfold group_count; lia). case_if; [lia|].
  destruct (group_at s gi) as [g Hg]; [lia|]. rewrite (arr_get_ok _ _ g) by done. cbn [mbind res_bind].
  destruct (kmalloc_cases s) as (ok & -> & Hoom). cbv iota beta.
  destruct (imap_lba_small s gi F Hgi) as (-> & Hlba & Hmap); [lia|].
  destruct ok; cbn [negb]; [|eexists; split; [done|]; right; split; [by apply moved_mem|right; right; by apply Hoom] ].
  pose proof (fs_ok_mem s (tl (mem s)) F) as F1. set (s1 := with_mem (tl (mem s)) s) in *.
  pose proof (in_group_pos (total_inodes (sb s)) gi j Hgi Hj) as Hin. specialize (Hin ltac:(lia)).
  assert (ino_cs s !! Z.to_nat gi = Some (free_inodes_count g, last_alloc_ino_bit g)) as Hcs by (unfold ino_cs; by rewrite list_lookup_fmap, Hg).
  destruct (so_group _ _ _ _ _ (f_ino _ F) gi _ _ Hgi Hcs) as [Hgm _ Hl]. destruct Hgm as (m & Hm & Hok & Hcnt & Hset); [lia|].
  unfold bread. change (disk s1) with (disk s). rewrite Hm. cbn [mbind res_bind]. rewrite chk_bit_ok by done. cbn [mbind res_bind].
  assert (ino_used s i = bit m j) as Hu by (unfold ino_used; rewrite Hidx; by apply used_at).
  destruct (bit m j) eqn:Hbit.
  2: { exists s1. split; [done|]. left. split; [lia|]. destruct (moved_mem s F) as [? ? ? Hb1 ?]. split; try done.
       intros c Hc. rewrite Hb1 by done. case_bool_decide as Ec; [by rewrite Ec, Hu|done]. }
  destruct (clr_bit_ok m j Hok Hj) as (m' & -> & Hm' & Hbits). cbn [mbind res_bind]. rewrite bwrite_in by done.
  unfold upd_group. cbn [groups with_disk with_mem s1]. rewrite arr_set_ok by (apply lookup_lt_Some in Hg; lia). cbn [mbind res_bind].
  destruct (side_counts _ _ _ _ _ gi _ _ (f_ino _ F) Hgi Hcs) as (Hcr & _ & Hn & Htot). pose proof (in_group_range (total_inodes (sb s)) gi).
  assert (used (map_inode_start (sb s)) (disk s) i = true) as Hused by exact Hu.
  pose proof (side_total_lt _ _ _ _ _ i (f_ino _ F)) as Hltn. specialize (Hltn ltac:(lia) Hused).
  unfold s1. cbn [global_free_blocks global_free_inodes with_groups with_disk with_free with_mem sb]. fold s1.
  rewrite (u32_small (free_inodes_count g + 1)), (u32_small (global_free_inodes s + 1)) by lia.
  set (g' := Group _ _ _ _). eexists. split; [done|]. left. split; [lia|].
  destruct (ino_update s1 gi g m m' j false g' F1 Hgi Hg Hm Hm' Hin) as (F2 & U2 & V2); try done; [lia| | | |].
  { intros k Hk. rewrite Hbits by done. case_decide; [by rewrite bool_decide_true|by rewrite bool_decide_false]. }
  { cbn. case_if; lia. }
  { intros k. cbn [g' last_alloc_ino_bit]. apply (hint_below m); try done. lia. }
  split; try done.
  - intros c Hc. rewrite U2 by done. change (ino_used s1 c) with (ino_used s c). rewrite <-Hidx.
    case_decide; [by rewrite bool_decide_true|by rewrite bool_decide_false].
  - intros c Hc. cbn. apply lookup_insert_ne. intros <-. done.
  - apply (oom_tl s).
Qed.
