(* ===== verification/YfsVolume.v ===== *)
(** * YulaFS: mounting, and the abstract volume

    [groups_init_or_panic] brings the counters of any sound set of bitmaps into
    memory.  The allocators, block writes and [flush_sb] then refine a volume:
    the set of free blocks, the set of free inodes and the contents of every
    block that is not a bitmap. *)

From S2P Require Import Prelude Bdev YfsBitmap YfsWords Yfs YfsAlloc YfsOps.

(** ** Mounting *)

Lemma count_clear_ok n m b acc :
  map_ok m → 0 ≤ b → b + Z.of_nat n ≤ 32768 → 0 ≤ acc → acc + Z.of_nat n < 4294967296 →
  count_clear n m b acc = Ok (acc + count_free (bit m) b (Z.of_nat n)).
Proof.
  intros Hm. revert b acc. induction n as [|n IH]; intros b acc Hb Hn Ha Hacc; cbn [count_clear].
  { change (count_free (bit m) b (Z.of_nat 0)) with 0. by rewrite Z.add_0_r. }
  destruct (byte_index b) as [H1 H2]; [lia|]. destruct (map_byte m (b / 8) Hm H1) as (v & Hv & Hu).
  rewrite (arr_get_byte _ _ v) by (done || lia). cbn [mbind res_bind].
  rewrite shiftr_and_1 by lia. replace (Z.testbit v (b `mod` 8)) with (bit m b) by (unfold bit; by rewrite Hv).
  replace (Z.of_nat (S n)) with (1 + Z.of_nat n) by lia. rewrite count_free_app, count_free_one by lia.
  destruct (bit m b); cbn [negb]; [|rewrite u32_small by lia]; rewrite IH by lia; f_equal; lia.
Qed.

Lemma count_free_shift f lo n : count_free f lo n = count_free (λ j, f (lo + j)) 0 n.
Proof.
  unfold count_free. replace lo with (lo + 0) at 1 by lia. rewrite <-(fmap_add_seqZ lo 0 n). f_equal.
  generalize (seqZ 0 n) as l. induction l as [|j l IH]; [done|]. csimpl. rewrite !filter_cons. case_decide; cbn; by rewrite IH.
Qed.

Lemma count_free_group start d n gi m :
  0 ≤ gi → d !! (start + gi) = Some m → count_free (used start d) (gi * 32768) (in_group n gi) = count_free (bit m) 0 (in_group n gi).
Proof.
  intros Hgi Hm. rewrite count_free_shift. apply count_free_ext. intros j Hj. pose proof (in_group_range n gi). apply used_at; [done|lia].
Qed.

(** The items of the groups before [gi]. *)
Definition before (n gi : Z) : Z := Z.min n (gi * 32768).

Lemma before_succ start d n gi m :
  0 ≤ n → 0 ≤ gi → d !! (start + gi) = Some m →
  count_free (used start d) 0 (before n (gi + 1)) = count_free (used start d) 0 (before n gi) + count_free (bit m) 0 (in_group n gi).
Proof.
  intros Hn Hgi Hm. rewrite <-(count_free_group start d n gi m) by done.
  pose proof (in_group_range n gi). destruct (decide (gi * 32768 ≤ n)).
  - replace (gi * 32768) with (0 + before n gi) by (unfold before; lia).
    rewrite <-count_free_app by (unfold before; lia). f_equal. unfold before, in_group. lia.
  - replace (in_group n gi) with 0 by (unfold in_group; lia). change (count_free (used start d) (gi * 32768) 0) with 0.
    rewrite Z.add_0_r. f_equal. unfold before. lia.
Qed.

Lemma min_in_group n gi : 0 ≤ gi → (if BLOCKS_PER_GROUP <? n - before n gi then BLOCKS_PER_GROUP else n - before n gi) = in_group n gi.
Proof. intros. change BLOCKS_PER_GROUP with 32768. unfold before, in_group. case_if; lia. Qed.

(** What the loop leaves in the array of groups. *)
Definition group_init (s : yfs) (gi : Z) (g : group) : Prop :=
  ∃ bm im, disk s !! (map_block_start (sb s) + gi) = Some bm ∧ map_ok bm ∧ disk s !! (map_inode_start (sb s) + gi) = Some im ∧ map_ok im ∧
    g = Group (count_free (bit bm) 0 (in_group (nblk s) gi)) (count_free (bit im) 0 (in_group (total_inodes (sb s)) gi)) 0 0.

Lemma groups_init_loop_ok n s gi :
  layout_ok (sb s) → 0 ≤ gi → map_block_start (sb s) + gi + Z.of_nat n ≤ total_blocks (sb s) →
  (∀ b, 0 ≤ b < total_blocks (sb s) → ∃ v, disk s !! b = Some v ∧ map_ok v) →
  let fb k := count_free (used (map_block_start (sb s)) (disk s)) 0 (before (nblk s) k) in
  let fi k := count_free (used (map_inode_start (sb s)) (disk s)) 0 (before (total_inodes (sb s)) k) in
  ∃ l, groups_init_loop n gi (nblk s - before (nblk s) gi) (total_inodes (sb s) - before (total_inodes (sb s)) gi) (fb gi) (fi gi) s =
      Ok (l, fb (gi + Z.of_nat n), fi (gi + Z.of_nat n)) ∧
    length l = n ∧ ∀ k g, l !! k = Some g → group_init s (gi + Z.of_nat k) g.
Proof.
  intros L. revert gi. induction n as [|n IH]; intros gi Hgi Hn Hd fb fi; cbn [groups_init_loop].
  { exists []. rewrite Z.add_0_r. split; [done|]. split; [done|]. intros k g Hk. done. }
  cbv zeta. rewrite !min_in_group by done. destruct L as [L1 L2 L3 L4 L5 L6 L7 L8 L9].
  rewrite (u32_small (map_block_start _ + _)), (u32_small (map_inode_start _ + _)) by lia.
  destruct (Hd (map_block_start (sb s) + gi)) as (bm & Hbm & Hbok); [lia|].
  destruct (Hd (map_inode_start (sb s) + gi)) as (im & Him & Hiok); [lia|].
  pose proof (in_group_range (nblk s) gi). pose proof (in_group_range (total_inodes (sb s)) gi).
  unfold bread. rewrite Hbm. cbn [mbind res_bind]. rewrite count_clear_ok by (done || lia). cbn [mbind res_bind].
  rewrite Him. cbn [mbind res_bind]. rewrite count_clear_ok by (done || lia). cbn [mbind res_bind]. rewrite !Z2Nat.id, !Z.add_0_l by lia.
  assert (0 ≤ nblk s) as Hnb by (unfold nblk; lia).
  pose proof (before_succ (map_block_start (sb s)) (disk s) (nblk s) gi bm Hnb Hgi Hbm) as Eb.
  pose proof (before_succ (map_inode_start (sb s)) (disk s) (total_inodes (sb s)) gi im ltac:(lia) Hgi Him) as Ei.
  assert (∀ n gi, 0 ≤ gi → n - before n gi - in_group n gi = n - before n (gi + 1)) as Hsub by (intros; unfold before, in_group; lia).
  unfold fb, fi. rewrite <-Eb, <-Ei, !Hsub by done.
  assert (∀ f n k, 0 ≤ k → 0 ≤ n < 4294967296 → is_u32 (count_free f 0 (before n k))) as Hsm.
  { intros f n' k Hk Hn'. pose proof (count_free_range f 0 (before n' k)). unfold is_u32, before in *. lia. }
  rewrite !u32_small by (apply Hsm; unfold nblk in *; lia).
  destruct (IH (gi + 1)) as (l & Hl & Hlen & Hk); [lia|lia|done|]. cbv zeta in Hl. rewrite Hl. cbn [mbind res_bind fst snd].
  replace (gi + Z.of_nat (S n)) with (gi + 1 + Z.of_nat n) by lia. eexists. split; [reflexivity|]. split; [cbn; lia|].
  intros [|k] g; cbn [lookup list_lookup].
  - intros [= <-]. rewrite Z.add_0_r. exists bm, im. done.
  - intros Hg. replace (gi + Z.of_nat (S k)) with (gi + 1 + Z.of_nat k) by lia. by apply Hk.
Qed.

(** The number of groups that [groups_init_or_panic] makes. *)
Definition ngroups (b : superblock) : Z :=
  Z.max 1 (Z.max ((total_blocks b - data_start b + 32767) / 32768) ((total_inodes b + 32767) / 32768)).

(** A disk that can be mounted: the layout, all its blocks, a map of each kind
    for every group, inode 0 taken. *)
Record mountable (s : yfs) : Prop := {
  mo_layout : layout_ok (sb s);
  mo_disk b : 0 ≤ b < total_blocks (sb s) → ∃ v, disk s !! b = Some v ∧ map_ok v;
  mo_maps : map_block_start (sb s) + ngroups (sb s) ≤ total_blocks (sb s);
  mo_word : nblk s + 32767 < 4294967296 ∧ total_inodes (sb s) + 32767 < 4294967296;
  mo_zero : used (map_inode_start (sb s)) (disk s) 0 = true;
}.

Lemma side_init start n d (l : list group) (f : group → Z * Z) total :
  0 ≤ n < 4294967296 → n ≤ 32768 * Z.of_nat (length l) → total = count_free (used start d) 0 n →
  (∀ k g, l !! k = Some g → ∃ m, d !! (start + Z.of_nat k) = Some m ∧ map_ok m ∧ f g = (count_free (bit m) 0 (in_group n (Z.of_nat k)), 0)) →
  side_ok start n d (f <$> l) total.
Proof.
  intros Hn Hcov Ht Hl. split; [done|by rewrite length_fmap| |done]. intros gi c h Hgi Hc.
  apply list_lookup_fmap_Some in Hc as (g & Hf & Hg). destruct (Hl _ _ Hg) as (m & Hm & Hok & Hfg). rewrite <-Hf in Hfg.
  injection Hfg as -> ->. rewrite Z2Nat.id in * by done. split; [|intros ->; done|lia].
  intros _. exists m. split; [done|]. split; [done|]. split; [done|]. intros j Hj. lia.
Qed.

Lemma pick_groups a b : 0 ≤ a → 0 ≤ b → (if (if a <? b then b else a) =? 0 then 1 else if a <? b then b else a) = Z.max 1 (Z.max a b).
Proof. intros. destruct (a <? b) eqn:?; case_if; lia. Qed.

Lemma groups_init_ok s :
  mountable s → ¬ oom s →
  ∃ s', groups_init_or_panic s = Ok s' ∧ fs_ok s' ∧ disk s' = disk s ∧ sb s' = sb s ∧ (oom s' → oom s).
Proof.
  intros [L Hd Hmaps [Hw1 Hw2] Hz] Hmem. pose proof L as [L1 L2 L3 L4 L5 L6 L7 L8 L9]. unfold groups_init_or_panic. cbv zeta.
  change BLOCKS_PER_GROUP with 32768. unfold nblk in Hw1. rewrite (u32_small (total_blocks (sb s) - data_start (sb s))) by lia.
  rewrite <-!Z.add_sub_assoc. change (32768 - 1) with 32767. rewrite !u32_small by lia.
  rewrite pick_groups by (apply Z.div_pos; lia). fold (ngroups (sb s)). set (n := ngroups (sb s)) in *.
  assert (0 < n ≤ 131072 ∧ nblk s ≤ 32768 * n ∧ total_inodes (sb s) ≤ 32768 * n) as (Hn1 & Hn2 & Hn3)
    by (unfold n, ngroups, nblk; Z.to_euclidean_division_equations; lia).
  destruct (kmalloc_cases s) as (ok & -> & Hok). destruct ok; [|by destruct (Hmem (Hok eq_refl))]. cbn [negb].
  set (s1 := with_mem (tl (mem s)) s). destruct (kmalloc_cases s1) as (ok & -> & Hok1).
  destruct ok; [|destruct Hmem; by apply oom_tl, Hok1]. cbn [negb]. set (s2 := with_mem (tl (mem s1)) s1).
  destruct (groups_init_loop_ok (Z.to_nat n) s2 0) as (l & Hl & Hlen & Hgr); [done|lia|rewrite Z2Nat.id by lia; change (sb s2) with (sb s); lia|done|].
  cbv zeta in Hl. rewrite Z.add_0_l, Z2Nat.id in Hl by lia.
  assert (∀ x, 0 ≤ x → before x 0 = 0) as Hb0 by (intros; unfold before; lia).
  change (nblk s2) with (nblk s) in Hl. change (sb s2) with (sb s) in *. change (disk s2) with (disk s) in *.
  assert (0 ≤ nblk s) by (unfold nblk; lia). rewrite !Hb0, !Z.sub_0_r in Hl by lia.
  change (count_free (used (map_block_start (sb s)) (disk s)) 0 0) with 0 in Hl.
  change (count_free (used (map_inode_start (sb s)) (disk s)) 0 0) with 0 in Hl.
  fold (nblk s). rewrite Hl. cbn [mbind res_bind fst snd]. eexists. split; [done|].
  split; [|split; [done|]; split; [done|]; intros H1; by apply oom_tl, (oom_tl s1)].
  assert (Z.of_nat (length l) = n) as Hll by lia.
  split; try done.
  - unfold group_count; cbn. lia.
  - unfold blk_cs; cbn. apply side_init; [unfold nblk in *; cbn; lia|unfold nblk in *; cbn in *; lia| |].
    + f_equal. unfold before, nblk in *; cbn. lia.
    + intros k g Hg. destruct (Hgr k g Hg) as (bm & im & ? & ? & ? & ? & ->). exists bm. done.
  - unfold ino_cs; cbn. apply side_init; [lia|lia| |].
    + f_equal. unfold before. lia.
    + intros k g Hg. destruct (Hgr k g Hg) as (bm & im & ? & ? & ? & ? & ->). exists im. done.
Qed.

(** ** The volume *)

(** The free items of a range. *)
Definition free_set (f : Z → bool) (lo n : Z) : gset Z := list_to_set (filter (λ j, f j = false) (seqZ lo n)).

Lemma elem_of_free_set f lo n x : x ∈ free_set f lo n ↔ lo ≤ x < lo + n ∧ f x = false.
Proof. unfold free_set. rewrite elem_of_list_to_set, list_elem_of_filter, elem_of_seqZ. tauto. Qed.

Lemma size_free_set f lo n : Z.of_nat (size (free_set f lo n)) = count_free f lo n.
Proof. unfold free_set. rewrite size_list_to_set; [done|]. apply NoDup_filter, NoDup_seqZ. Qed.

Record vol := Vol { v_blks : gset Z; v_inos : gset Z; v_data : gmap Z buffer }.

Definition is_mapb (b : superblock) (k : Z) : bool := (map_inode_start b <=? k) && (k <? inode_table_start b).

Definition vol_of (s : yfs) : vol :=
  Vol (free_set (blk_used s) (data_start (sb s)) (nblk s)) (free_set (ino_used s) 0 (total_inodes (sb s)))
    (filter (λ kv, is_mapb (sb s) kv.1 = false) (disk s)).

Lemma is_mapb_spec s k : is_mapb (sb s) k = false ↔ ¬ is_map s k.
Proof. unfold is_mapb, is_map. rewrite andb_false_iff. lia. Qed.

(** The two counters are the sizes of the two sets. *)
Lemma counters_exact s :
  fs_ok s → global_free_blocks s = Z.of_nat (size (v_blks (vol_of s))) ∧ global_free_inodes s = Z.of_nat (size (v_inos (vol_of s))).
Proof.
  intros F. cbn. rewrite !size_free_set. split; [|apply (so_total _ _ _ _ _ (f_ino _ F))].
  rewrite (so_total _ _ _ _ _ (f_blk _ F)), (count_free_shift (blk_used s)). apply count_free_ext. intros j Hj.
  unfold blk_used. f_equal. lia.
Qed.

Lemma free_set_ext f f' lo n : (∀ j, lo ≤ j < lo + n → f j = f' j) → free_set f lo n = free_set f' lo n.
Proof. intros H. apply set_eq. intros x. rewrite !elem_of_free_set. split; intros [? Hx]; (split; [done|]); [rewrite <-H|rewrite H]; done. Qed.

Lemma free_set_take f r lo n : free_set (λ i, bool_decide (i = r) || f i) lo n = free_set f lo n ∖ {[r]}.
Proof.
  apply set_eq. intros x. rewrite elem_of_difference, elem_of_singleton, !elem_of_free_set, orb_false_iff, bool_decide_eq_false. tauto.
Qed.

Lemma free_set_give f r lo n : lo ≤ r < lo + n → free_set (λ i, negb (bool_decide (i = r)) && f i) lo n = {[r]} ∪ free_set f lo n.
Proof.
  intros Hr. apply set_eq. intros x. rewrite elem_of_union, elem_of_singleton, !elem_of_free_set, andb_false_iff, negb_false_iff, bool_decide_eq_true.
  destruct (decide (x = r)) as [->|]; tauto.
Qed.

Lemma data_ext b (d d' : gmap Z buffer) :
  (∀ k, is_mapb b k = false → d' !! k = d !! k) → filter (λ kv, is_mapb b kv.1 = false) d' = filter (λ kv, is_mapb b kv.1 = false) d.
Proof.
  intros H. apply map_eq. intros k. apply option_eq. intros v. rewrite !map_lookup_filter_Some. cbn.
  split; intros [Hk Hm]; (split; [|done]); [rewrite <-H|rewrite H]; done.
Qed.

Lemma data_insert b (d : gmap Z buffer) k v :
  is_mapb b k = false → filter (λ kv, is_mapb b kv.1 = false) (<[k := v]> d) = <[k := v]> (filter (λ kv, is_mapb b kv.1 = false) d).
Proof. intros H. by rewrite map_filter_insert_True. Qed.

Lemma vol_moved s s' fb fi :
  moved s s' fb fi →
  vol_of s' = Vol (free_set fb (data_start (sb s)) (nblk s)) (free_set fi 0 (total_inodes (sb s))) (v_data (vol_of s)).
Proof.
  intros [F Hsb Hb Hi Hd _]. unfold vol_of, nblk. rewrite Hsb. fold (nblk s). f_equal.
  - apply free_set_ext. intros j Hj. apply Hb. unfold is_data, nblk in *. lia.
  - apply free_set_ext. intros j Hj. apply Hi. unfold is_ino. lia.
  - apply data_ext. intros k Hk. apply Hd. by apply is_mapb_spec.
Qed.

(** ** The operations *)

Inductive op :=
  | AllocBlock (file_ino : Z) | FreeBlock (lba : Z) | AllocInode (parent_ino : Z) | FreeInode (ino : Z)
  | WriteBlock (lba : Z) (v : buffer) | FlushSb.

Definition exec (o : op) (s : yfs) : res (Z * yfs) :=
  match o with
  | AllocBlock f => alloc_block_for_inode f s
  | FreeBlock b => s ← free_block b s; Ok (0, s)
  | AllocInode p => alloc_inode_for_parent p s
  | FreeInode i => s ← free_inode i s; Ok (0, s)
  | WriteBlock b v => Ok (0, bwrite b v s)
  | FlushSb => Ok (0, flush_sb s)
  end.

Fixpoint run (os : list op) (s : yfs) : res (list Z * yfs) :=
  match os with
  | [] => Ok ([], s)
  | o :: os => r ← exec o s; q ← run os r.2; Ok (r.1 :: q.1, q.2)
  end.

(** What a caller may ask: any inode numbers, a block of the disk to free, a
    whole block written anywhere but over a map. *)
Definition op_ok (b : superblock) (o : op) : Prop :=
  match o with
  | AllocBlock f => 0 ≤ f
  | FreeBlock k => 0 ≤ k < total_blocks b
  | AllocInode p => 0 ≤ p
  | FreeInode i => 0 ≤ i
  | WriteBlock k v => 0 ≤ k < total_blocks b ∧ is_mapb b k = false ∧ map_ok v
  | FlushSb => True
  end.

(** The same on the volume; [short] says that the kernel may be out of memory. *)
Inductive vstep (b : superblock) (short : bool) : op → Z → vol → vol → Prop :=
  | vs_alloc f r v : r ∈ v_blks v →
      vstep b short (AllocBlock f) r v (Vol (v_blks v ∖ {[r]}) (v_inos v) (<[r := replicate 4096 0]> (v_data v)))
  | vs_alloc_dirty f r v : short = true → r ∈ v_blks v →
      vstep b short (AllocBlock f) r v (Vol (v_blks v ∖ {[r]}) (v_inos v) (v_data v))
  | vs_alloc_none f v : v_blks v = ∅ ∨ short = true → vstep b short (AllocBlock f) 0 v v
  | vs_free k v : data_start b ≤ k → vstep b short (FreeBlock k) 0 v (Vol ({[k]} ∪ v_blks v) (v_inos v) (v_data v))
  | vs_free_not k v : k < data_start b ∨ short = true → vstep b short (FreeBlock k) 0 v v
  | vs_ialloc p r v : r ∈ v_inos v → r ≠ 0 → vstep b short (AllocInode p) r v (Vol (v_blks v) (v_inos v ∖ {[r]}) (v_data v))
  | vs_ialloc_none p v : v_inos v = ∅ ∨ short = true → vstep b short (AllocInode p) 0 v v
  | vs_ifree i v : 0 < i < total_inodes b → vstep b short (FreeInode i) 0 v (Vol (v_blks v) ({[i]} ∪ v_inos v) (v_data v))
  | vs_ifree_not i v : i = 0 ∨ total_inodes b ≤ i ∨ short = true → vstep b short (FreeInode i) 0 v v
  | vs_write k x v : vstep b short (WriteBlock k x) 0 v (Vol (v_blks v) (v_inos v) (<[k := x]> (v_data v)))
  | vs_flush v :
      vstep b short FlushSb 0 v (Vol (v_blks v) (v_inos v)
        (<[1 := sb_bytes (set_free (Z.of_nat (size (v_blks v))) (Z.of_nat (size (v_inos v))) b)]> (v_data v))).

Inductive vrun (b : superblock) (short : bool) : list op → list Z → vol → vol → Prop :=
  | vr_nil v : vrun b short [] [] v v
  | vr_cons o os r rs v v1 v2 : vstep b short o r v v1 → vrun b short os rs v1 v2 → vrun b short (o :: os) (r :: rs) v v2.

(** [s] is sound, has the layout of [b], and no allocation fails unless [short]. *)
Record sim (b : superblock) (short : bool) (s : yfs) : Prop := {
  sm_ok : fs_ok s;
  sm_sb : ∃ x y, sb s = set_free x y b;
  sm_mem : oom s → short = true;
}.

Lemma vol_mem l s : vol_of (with_mem l s) = vol_of s.
Proof. done. Qed.

Lemma vol_eta v : Vol (v_blks v) (v_inos v) (v_data v) = v.
Proof. by destruct v. Qed.

Lemma sim_moved b short s s' fb fi : sim b short s → moved s s' fb fi → sim b short s'.
Proof. intros [F (x & y & E) M] [F' E' _ _ _ M']. split; [done|exists x, y; congruence|auto]. Qed.

Lemma fs_ok_set_free x y s : fs_ok s → fs_ok (with_sb (set_free x y (sb s)) s).
Proof. intros [L ? ? ? ? ?]. split; try done. destruct L. by split. Qed.

Lemma sb_bytes_ok b : length (sb_padding b) = 4052%nat → Forall is_u8 (sb_padding b) → map_ok (sb_bytes b).
Proof. intros Hl Hu. apply map_ok_bytes; cbn; [done|lia|done]. Qed.

(** Writing a block that is not a map. *)
Lemma sim_write b short s k v :
  sim b short s → 0 ≤ k < total_blocks (sb s) → is_mapb (sb s) k = false → map_ok v →
  sim b short (bwrite k v s) ∧
  vol_of (bwrite k v s) = Vol (v_blks (vol_of s)) (v_inos (vol_of s)) (<[k := v]> (v_data (vol_of s))).
Proof.
  intros [F Hsb Hm] Hk Hmap Hv. rewrite bwrite_in by done. pose proof (proj1 (is_mapb_spec s k) Hmap) as Hn.
  destruct (fs_ok_write s k v F Hn Hv) as (F1 & U1 & V1). split; [by split|]. unfold vol_of; cbn. f_equal.
  - apply free_set_ext. intros j Hj. apply U1. unfold is_data, nblk in *; cbn in *. lia.
  - apply free_set_ext. intros j Hj. apply V1. unfold is_ino. lia.
  - by apply data_insert.
Qed.

Lemma sim_taken b short s r s' : sim b short s → block_taken s r s' → sim b short s'.
Proof. intros [F (x & y & E) M] []. split; [done|exists x, y; congruence|auto]. Qed.

Lemma taken_data s r s' (d := v_data (vol_of s)) :
  block_taken s r s' → fs_ok s →
  v_data (vol_of s') = <[r := replicate 4096 0]> d ∨ oom s ∧ v_data (vol_of s') = d.
Proof.
  intros [F' Hsb Hr _ _ _ Hd _ Hz _] F. pose proof (f_layout _ F) as [L1 L2 L3 L4 L5 L6 L7 L8 L9].
  assert (is_mapb (sb s) r = false) as Hnm by (apply is_mapb_spec; unfold is_map, is_data in *; lia).
  unfold d, vol_of; cbn. rewrite Hsb. destruct Hz as [Hz|[Ho Hz] ].
  - left. rewrite <-data_insert by done. apply data_ext. intros k Hk. apply is_mapb_spec in Hk. destruct (decide (k = r)) as [->|].
    + by rewrite lookup_insert_eq.
    + rewrite lookup_insert_ne by done. by apply Hd.
  - right. split; [done|]. apply data_ext. intros k Hk. apply is_mapb_spec in Hk. destruct (decide (k = r)) as [->|]; [done|by apply Hd].
Qed.

Lemma taken_vol s r s' :
  block_taken s r s' → fs_ok s →
  r ∈ v_blks (vol_of s) ∧
  vol_of s' = Vol (v_blks (vol_of s) ∖ {[r]}) (v_inos (vol_of s)) (v_data (vol_of s')).
Proof.
  intros [F' Hsb Hr Hw Hb Hi _ _ _ _] F. split; [apply elem_of_free_set; unfold is_data, nblk in *; split; [lia|done]|].
  unfold vol_of, nblk; cbn. rewrite Hsb. f_equal.
  - rewrite <-free_set_take. apply free_set_ext. intros j Hj. apply Hb. unfold is_data. lia.
  - apply free_set_ext. intros j Hj. apply Hi. unfold is_ino. lia.
Qed.

Lemma empty_size (X : gset Z) : Z.of_nat (size X) = 0 → X = ∅.
Proof. intros H. apply leibniz_equiv, size_empty_inv. lia. Qed.

(** The operation [o] does on [s] what the volume allows. *)
Definition refines (b : superblock) (short : bool) (o : op) (s : yfs) : Prop :=
  ∃ r s', exec o s = Ok (r, s') ∧ sim b short s' ∧ vstep b short o r (vol_of s) (vol_of s').

Lemma sim_layout b short s : sim b short s → data_start (sb s) = data_start b ∧ total_inodes (sb s) = total_inodes b.
Proof. intros [_ (x & y & ->) _]. done. Qed.

Lemma alloc_block_refines b short s f : sim b short s → op_ok (sb s) (AllocBlock f) → refines b short (AllocBlock f) s.
Proof.
  intros S Ho. pose proof S as [F _ Hmem]. pose proof (counters_exact s F) as [Cb Ci]. unfold refines. cbn [exec op_ok] in *.
  destruct (alloc_block_ok s f F Ho) as (r & s' & -> & [Ht|(-> & Hs & Hwhy)]); eexists _, _; (split; [done|]).
  - split; [by eapply sim_taken|]. destruct (taken_vol s r s' Ht F) as [Hin Hvol]. rewrite Hvol.
    destruct (taken_data s r s' Ht F) as [->|[? ->] ]; [by constructor|constructor; auto].
  - destruct Hs as [-> | ->]; [|rewrite vol_mem].
    + split; [done|]. constructor. destruct Hwhy as [E|E]; [left; apply empty_size; lia|right; auto].
    + split; [by eapply sim_moved, moved_mem|]. constructor. destruct Hwhy as [E|E]; [left; apply empty_size; lia|right; auto].
Qed.

Lemma free_block_refines b short s k : sim b short s → op_ok (sb s) (FreeBlock k) → refines b short (FreeBlock k) s.
Proof.
  intros S Ho. pose proof S as [F _ Hmem]. destruct (sim_layout _ _ _ S) as [Eds Eti].
  pose proof (f_layout _ F) as [L1 L2 L3 L4 L5 L6 L7 L8 L9]. unfold refines. cbn [exec op_ok] in *.
  destruct (free_block_ok s k F Ho) as (s' & -> & Hm). cbn [mbind res_bind]. eexists _, _. split; [done|]. destruct Hm as [Hm|[Hm Hwhy] ].
  - split; [by eapply sim_moved|]. rewrite (vol_moved _ _ _ _ Hm).
    destruct (decide (data_start (sb s) ≤ k)) as [E|E].
    + rewrite free_set_give by (unfold nblk; lia). apply (vs_free b short k (vol_of s)). by rewrite <-Eds.
    + replace (Vol _ _ _) with (vol_of s); [constructor; left; lia|]. unfold vol_of at 1. f_equal. apply free_set_ext. intros j Hj.
      rewrite bool_decide_false by lia. done.
  - split; [by eapply sim_moved|]. rewrite (vol_moved _ _ _ _ Hm). apply (vs_free_not b short k (vol_of s)).
    destruct Hwhy; [left; lia|right; auto].
Qed.

Lemma alloc_inode_refines b short s p : sim b short s → op_ok (sb s) (AllocInode p) → refines b short (AllocInode p) s.
Proof.
  intros S Ho. pose proof S as [F _ Hmem]. pose proof (counters_exact s F) as [Cb Ci]. unfold refines. cbn [exec op_ok] in *.
  destruct (alloc_inode_ok s p F Ho) as (r & s' & -> & [Ht|(-> & Hs & Hwhy)]); eexists _, _; (split; [done|]).
  - pose proof (taken_nonzero _ _ _ F Ht). destruct Ht as [Hm Hr Hw]. split; [by eapply sim_moved|].
    rewrite (vol_moved _ _ _ _ Hm), free_set_take. apply (vs_ialloc b short p r (vol_of s)); [|done]. apply elem_of_free_set. split; [|done]. unfold is_ino in Hr. lia.
  - destruct Hs as [-> | ->]; [|rewrite vol_mem].
    + split; [done|]. constructor. destruct Hwhy as [E|E]; [left; apply empty_size; lia|right; auto].
    + split; [by eapply sim_moved, moved_mem|]. constructor. destruct Hwhy as [E|E]; [left; apply empty_size; lia|right; auto].
Qed.

Lemma free_inode_refines b short s i : sim b short s → op_ok (sb s) (FreeInode i) → refines b short (FreeInode i) s.
Proof.
  intros S Ho. pose proof S as [F _ Hmem]. destruct (sim_layout _ _ _ S) as [Eds Eti].
  pose proof (f_layout _ F) as [L1 L2 L3 L4 L5 L6 L7 L8 L9]. unfold refines. cbn [exec op_ok] in *.
  destruct (free_inode_ok s i F Ho) as (s' & -> & Hm). cbn [mbind res_bind]. eexists _, _. split; [done|]. destruct Hm as [ [Hi Hm]|[Hm Hwhy] ].
  - split; [by eapply sim_moved|]. rewrite (vol_moved _ _ _ _ Hm).
    destruct (decide (i < total_inodes (sb s))) as [E|E].
    + rewrite free_set_give by lia. apply (vs_ifree b short i (vol_of s)). lia.
    + replace (Vol _ _ _) with (vol_of s); [constructor; right; left; lia|]. unfold vol_of at 1. f_equal. apply free_set_ext. intros j Hj.
      rewrite bool_decide_false by lia. done.
  - split; [by eapply sim_moved|]. rewrite (vol_moved _ _ _ _ Hm). apply (vs_ifree_not b short i (vol_of s)).
    destruct Hwhy as [|[|] ]; [left; lia|right; left; lia|right; right; auto].
Qed.

Lemma write_block_refines b short s k v : sim b short s → op_ok (sb s) (WriteBlock k v) → refines b short (WriteBlock k v) s.
Proof.
  intros S Ho. unfold refines. cbn [exec op_ok] in *.
  destruct Ho as (Hk & Hmap & Hv). destruct (sim_write b short s k v S Hk Hmap Hv) as [S' Hvol].
  eexists _, _. split; [done|]. split; [done|]. rewrite Hvol. constructor.
Qed.

Lemma flush_sb_refines b short s : sim b short s → op_ok (sb s) (FlushSb) → refines b short (FlushSb) s.
Proof.
  intros S _. pose proof S as [F (x & y & Esb) Hmem]. pose proof (counters_exact s F) as [Cb Ci].
  pose proof (f_layout _ F) as [L1 L2 L3 L4 L5 L6 L7 L8 L9]. unfold refines. cbn [exec op_ok] in *.
  unfold flush_sb. cbv zeta. set (s1 := with_sb _ s).
  assert (sim b short s1) as S1 by (split; [by apply fs_ok_set_free|unfold s1; cbn; rewrite Esb; by eexists _, _|done]).
  destruct (sim_write b short s1 1 (sb_bytes (sb s1)) S1) as [S' Hvol]; [cbn; lia|unfold s1, is_mapb; cbn; lia|apply sb_bytes_ok; apply L8|].
  eexists _, _. split; [done|]. split; [done|]. rewrite Hvol. change (vol_of s1) with (vol_of s).
  replace (sb s1) with (set_free (Z.of_nat (size (v_blks (vol_of s)))) (Z.of_nat (size (v_inos (vol_of s)))) b)
    by (unfold s1; cbn [sb with_sb]; rewrite Cb, Ci, Esb; done).
  constructor.
Qed.

Lemma vstep_refines b short o s : sim b short s → op_ok (sb s) o → refines b short o s.
Proof.
  destruct o; [apply alloc_block_refines|apply free_block_refines|apply alloc_inode_refines|apply free_inode_refines
    |apply write_block_refines|apply flush_sb_refines].
Qed.

Lemma vrun_refines b short os s :
  sim b short s → Forall (op_ok (sb s)) os →
  ∃ rs s', run os s = Ok (rs, s') ∧ sim b short s' ∧ vrun b short os rs (vol_of s) (vol_of s').
Proof.
  revert s. induction os as [|o os IH]; intros s S Hos; cbn [run].
  { exists [], s. split; [done|]. split; [done|constructor]. }
  apply Forall_cons in Hos as [Ho Hos]. destruct (vstep_refines b short o s S Ho) as (r & s1 & -> & S1 & V1). cbn [mbind res_bind fst snd].
  destruct (IH s1 S1) as (rs & s2 & -> & S2 & V2).
  { eapply Forall_impl; [exact Hos|]. intros o' Ho'. destruct S as [_ (x & y & E) _], S1 as [_ (x1 & y1 & E1) _]. rewrite E in Ho'. rewrite E1. by destruct o'. }
  cbn [mbind res_bind fst snd]. eexists _, _. split; [done|]. split; [done|]. by econstructor.
Qed.

Lemma sim_refl s : fs_ok s → sim (sb s) (negb (forallb id (mem s))) s.
Proof.
  intros F. split; [done|exists (free_blocks (sb s)), (free_inodes (sb s)); by destruct (sb s)|].
  intros Ho. apply negb_true_iff. apply not_true_iff_false. intros Hall. apply Ho. apply forallb_forall in Hall as Hall' || rewrite forallb_forall in Hall.
  apply Forall_forall. intros x Hx. apply list_elem_of_In in Hx. specialize (Hall x Hx). by destruct x.
Qed.


(** ** The superblock on the disk *)

Definition sb_words (b : superblock) : list Z :=
  [magic b; version b; block_size b; total_blocks b; total_inodes b; free_blocks b; free_inodes b;
   map_inode_start b; map_block_start b; inode_table_start b; data_start b].

(** What is written is read back. *)
Lemma read_sb_bytes b :
  Forall is_u32 (sb_words b) → length (sb_padding b) = 4052%nat → Forall is_u8 (sb_padding b) → read_sb (sb_bytes b) = Ok b.
Proof.
  intros Hw Hl Hu. destruct (sb_bytes_ok b Hl Hu) as [Hlen _]. fold (sb_words b) in *.
  assert (∀ k w, sb_words b !! k = Some w → rd32 (sb_bytes b) (4 * Z.of_nat k) = Ok w) as Hrd
    by (intros k w Hk; apply rd32_bytes; [done|by eapply Forall_lookup_1]).
  unfold read_sb. rewrite (Hrd 0%nat _ eq_refl : rd32 _ 0 = _), (Hrd 1%nat _ eq_refl : rd32 _ 4 = _), (Hrd 2%nat _ eq_refl : rd32 _ 8 = _),
    (Hrd 3%nat _ eq_refl : rd32 _ 12 = _), (Hrd 4%nat _ eq_refl : rd32 _ 16 = _), (Hrd 5%nat _ eq_refl : rd32 _ 20 = _),
    (Hrd 6%nat _ eq_refl : rd32 _ 24 = _), (Hrd 7%nat _ eq_refl : rd32 _ 28 = _), (Hrd 8%nat _ eq_refl : rd32 _ 32 = _),
    (Hrd 9%nat _ eq_refl : rd32 _ 36 = _), (Hrd 10%nat _ eq_refl : rd32 _ 40 = _).
  cbn [mbind res_bind]. rewrite arr_slice_ok by lia. cbn [mbind res_bind].
  assert (slice (sb_bytes b) (Z.to_nat 44) (Z.to_nat 4052) = sb_padding b) as -> by (unfold slice; apply take_ge; cbn; lia).
  by destruct b.
Qed.

(** The groups of a disk fit: every group has its two maps on the disk, and the
    roundings stay within a word. *)
Definition groups_fit (b : superblock) : Prop :=
  map_block_start b + ngroups b ≤ total_blocks b ∧ total_blocks b - data_start b + 32767 < 4294967296 ∧ total_inodes b + 32767 < 4294967296.

Lemma fs_ok_words s : fs_ok s → Forall is_u32 (sb_words (set_free (global_free_blocks s) (global_free_inodes s) (sb s))).
Proof.
  intros F. destruct (counters_exact s F) as [Eb Ei]. cbn in Eb, Ei. rewrite size_free_set in Eb, Ei.
  destruct (f_layout _ F) as [L1 L2 L3 L4 L5 L6 L7 L8 L9]. rewrite !Forall_cons in L9. destruct L9 as (? & ? & ? & _).
  pose proof (count_free_range (blk_used s) (data_start (sb s)) (nblk s)). pose proof (count_free_range (ino_used s) 0 (total_inodes (sb s))).
  unfold sb_words, nblk in *. cbn. rewrite !Forall_cons. unfold is_u32 in *. repeat (split; [lia|]). done.
Qed.

Lemma vstep_flush_sets b short r v v' : vstep b short FlushSb r v v' → v_blks v' = v_blks v ∧ v_inos v' = v_inos v.
Proof. by inversion 1. Qed.


(** ** A small disk *)

(** Sixty-four blocks: superblock, a map of inodes with 0 and 1 taken, a map of
    blocks, an inode table of four blocks, 56 data blocks. *)
Definition demo_sb : superblock := Superblock YFS_MAGIC YFS_VERSION 4096 64 128 56 126 2 3 4 8 (replicate 4052 0).
Definition demo_disk : gmap Z buffer := <[2 := 3 :: replicate 4095 0]> (gset_to_gmap (replicate 4096 0) (list_to_set (seqZ 0 64))).
Definition demo_boot : yfs := Yfs demo_disk demo_sb [] 0 0 [].
Definition demo_fs : yfs := Yfs demo_disk demo_sb [Group 56 126 0 0] 56 126 [].

Lemma demo_mount : groups_init_or_panic demo_boot = Ok demo_fs.
Proof. by vm_compute. Qed.

Lemma demo_lookup b : 0 ≤ b < 64 → ∃ v, demo_disk !! b = Some v ∧ map_ok v.
Proof.
  intros Hb. unfold demo_disk. destruct (decide (b = 2)) as [->|].
  - rewrite lookup_insert_eq. eexists. split; [done|]. split; [done|]. constructor; [done|by apply Forall_replicate].
  - rewrite lookup_insert_ne by done. exists (replicate 4096 0). split; [|apply map_ok_zeros].
    apply lookup_gset_to_gmap_Some. split; [|done]. apply elem_of_list_to_set, elem_of_seqZ. lia.
Qed.

Lemma demo_layout : layout_ok demo_sb.
Proof.
  split; cbn [demo_sb map_inode_start map_block_start inode_table_start data_start total_blocks total_inodes sb_padding magic version block_size];
    try lia; [split; [by rewrite length_replicate|by apply Forall_replicate]|repeat constructor; done].
Qed.

Lemma demo_ok : fs_ok demo_fs.
Proof.
  destruct (groups_init_ok demo_boot) as (s & Hs & F & _).
  - split; [apply demo_layout|intros b Hb; by apply demo_lookup|by vm_compute|by vm_compute|by vm_compute].
  - intros Ho. by apply Ho.
  - rewrite demo_mount in Hs. by injection Hs as <-.
Qed.

(** Two blocks, an inode, the first block given back and taken again. *)
Definition demo_ops : list op :=
  [AllocBlock 1; AllocBlock 70000; AllocInode 1; WriteBlock 8 (replicate 4096 7); FreeBlock 8; FreeInode 0; AllocBlock 5; FlushSb].


