(* ===== verification/YfsInode.v ===== *)
(** * YulaFS: inodes and their cache

    The inode of [src/src/fs/yulafs.h] as 128 packed bytes, and [sync_inode] of
    [src/src/fs/yulafs.cpp], which goes through a small cache of inode-table
    blocks that every CPU has for itself.  On one CPU the cache is shown to be a
    plain table of inodes. *)

From S2P Require Import Prelude Bdev YfsBitmap YfsWords Yfs YfsAlloc YfsOps YfsVolume.

Definition YFS_DIRECT_PTRS : Z := 12.
Definition YFS_TYPE_FREE : Z := 0.
Definition YFS_TYPE_FILE : Z := 1.
Definition YFS_TYPE_DIR : Z := 2.
Definition YFS_INODE_F_DEFERRED_DELETE : Z := 1.

Record inode := Inode {
  i_id : Z; i_type : Z; i_size : Z; i_flags : Z; i_created_at : Z; i_modified_at : Z;
  i_direct : list Z; i_indirect : Z; i_doubly_indirect : Z; i_triply_indirect : Z; i_padding : list Z }.

Definition inode_words (n : inode) : list Z :=
  [i_id n; i_type n; i_size n; i_flags n; i_created_at n; i_modified_at n] ++ i_direct n ++ [i_indirect n; i_doubly_indirect n; i_triply_indirect n].

Definition inode_bytes (n : inode) : buffer := word_bytes (inode_words n) ++ i_padding n.

(** [memcpy] of the 128 bytes at [off] into an inode. *)
Definition read_inode (buf : buffer) (off : Z) : res inode :=
  b ← arr_slice buf off 128;
  id ← rd32 b 0; ty ← rd32 b 4; sz ← rd32 b 8; fl ← rd32 b 12; cr ← rd32 b 16; mo ← rd32 b 20;
  d0 ← rd32 b 24; d1 ← rd32 b 28; d2 ← rd32 b 32; d3 ← rd32 b 36; d4 ← rd32 b 40; d5 ← rd32 b 44;
  d6 ← rd32 b 48; d7 ← rd32 b 52; d8 ← rd32 b 56; d9 ← rd32 b 60; d10 ← rd32 b 64; d11 ← rd32 b 68;
  i1 ← rd32 b 72; i2 ← rd32 b 76; i3 ← rd32 b 80; pad ← arr_slice b 84 44;
  Ok (Inode id ty sz fl cr mo [d0; d1; d2; d3; d4; d5; d6; d7; d8; d9; d10; d11] i1 i2 i3 pad).

(** ** The cache *)

(** A slot; its [inflight] flag is only seen while another call is in progress. *)
Record islot := ISlot { sl_lba : Z; sl_stamp : Z; sl_valid : bool; sl_data : buffer }.
Record icache := ICache { ic_slots : list islot; ic_stamp : Z }.

(** The file system with the cache of every CPU. *)
Record fsys := Fsys { fs : yfs; ics : list icache }.

Definition with_fs (y : yfs) (s : fsys) : fsys := Fsys y (ics s).
Definition set_cache (cpu : Z) (c : icache) (s : fsys) : fsys := Fsys (fs s) (<[Z.to_nat cpu := c]> (ics s)).

(** The first valid slot for [lba]. *)
Fixpoint find_slot (lba : Z) (l : list islot) (i : Z) : option Z :=
  match l with
  | [] => None
  | sl :: l => if sl_valid sl && (sl_lba sl =? lba) then Some i else find_slot lba l (i + 1)
  end.

(** The slot to fill: the first empty one, else the one used least recently. *)
Fixpoint pick_slot (l : list islot) (i best_stamp : Z) (slot : option Z) : option Z :=
  match l with
  | [] => slot
  | sl :: l =>
      if negb (sl_valid sl) then Some i
      else if sl_stamp sl <? best_stamp then pick_slot l (i + 1) (sl_stamp sl) (Some i)
      else pick_slot l (i + 1) best_stamp slot
  end.

Definition per_block : Z := YFS_BLOCK_SIZE / 128.

(** The loop of [sync_inode] on CPU [cpu]; a call that would wait for ever is a
    [Timeout], and so is a loop that does not end within [fuel] turns. *)
Fixpoint sync_loop (fuel : nat) (cpu lba offset : Z) (data : inode) (write : bool) (s : fsys) : res (bool * inode * fsys) :=
  match fuel with
  | O => Timeout
  | S fuel =>
      c ← arr_get (ics s) cpu;
      let stamp := u32 (ic_stamp c + 1) in
      match find_slot lba (ic_slots c) 0 with
      | Some slot =>
          sl ← arr_get (ic_slots c) slot;
          if negb write then
            l ← arr_set (ic_slots c) slot (ISlot (sl_lba sl) stamp (sl_valid sl) (sl_data sl));
            n ← read_inode (sl_data sl) (offset * 128);
            Ok (true, n, set_cache cpu (ICache l stamp) s)
          else
            io_buf ← arr_blit (sl_data sl) (offset * 128) (inode_bytes data);
            let ok := bool_decide (is_Some (disk (fs s) !! lba)) in
            l ← arr_set (ic_slots c) slot (if ok then ISlot (sl_lba sl) stamp true io_buf else ISlot (sl_lba sl) stamp false (sl_data sl));
            Ok (ok, data, set_cache cpu (ICache l stamp) (with_fs (bwrite lba io_buf (fs s)) s))
      | None =>
          match pick_slot (ic_slots c) 0 4294967295 None with
          | None => Timeout
          | Some slot =>
              sl ← arr_get (ic_slots c) slot;
              match disk (fs s) !! lba with
              | None =>
                  l ← arr_set (ic_slots c) slot (ISlot lba stamp false (sl_data sl));
                  Ok (false, data, set_cache cpu (ICache l stamp) s)
              | Some buf =>
                  l ← arr_set (ic_slots c) slot (ISlot lba stamp true buf);
                  sync_loop fuel cpu lba offset data write (set_cache cpu (ICache l stamp) s)
              end
          end
      end
  end.

(** [sync_inode(ino, data, write)]: success, the inode and the new state. *)
Definition sync_inode (cpu ino : Z) (data : inode) (write : bool) (s : fsys) : res (bool * inode * fsys) :=
  if (ino =? 0) || (total_inodes (sb (fs s)) <=? ino) then Ok (false, data, s)
  else if inode_table_start (sb (fs s)) =? 0 then Ok (false, data, s)
  else
    let block_idx := ino / per_block in
    let offset := ino `mod` per_block in
    if 0xFFFFFFFF - inode_table_start (sb (fs s)) <? block_idx then Ok (false, data, s)
    else
      let lba := inode_table_start (sb (fs s)) + block_idx in
      let '(ok, y) := kmalloc (fs s) in
      let s := with_fs y s in
      if negb ok then Ok (false, data, s)
      else if (cpu <? 0) || (zlen (ics s) <=? cpu) then Ok (false, data, s)
      else sync_loop 2 cpu lba offset data write s.

(** ** Packed inodes *)

Record inode_ok (n : inode) : Prop := {
  in_words : Forall is_u32 (inode_words n);
  in_direct : length (i_direct n) = 12%nat;
  in_pad : length (i_padding n) = 44%nat ∧ Forall is_u8 (i_padding n);
}.

Lemma inode_bytes_ok n : inode_ok n → length (inode_bytes n) = 128%nat ∧ Forall is_u8 (inode_bytes n).
Proof.
  intros [Hw Hd [Hp Hu] ]. destruct (word_bytes_ok (inode_words n)) as [Hl Hb]. unfold inode_bytes. rewrite length_app, Hl, Hp.
  unfold inode_words. rewrite !length_app, Hd. split; [done|]. by apply Forall_app.
Qed.

Lemma length_12 {A} (l : list A) : length l = 12%nat →
  ∃ a b c d e f g h i j k m, l = [a; b; c; d; e; f; g; h; i; j; k; m].
Proof. intros H. do 12 (destruct l as [|? l]; [done|]). destruct l; [|done]. by repeat eexists. Qed.

Lemma read_inode_at buf off n :
  inode_ok n → 0 ≤ off → off + 128 ≤ zlen buf → slice buf (Z.to_nat off) 128 = inode_bytes n → read_inode buf off = Ok n.
Proof.
  intros Hok Hoff Hlen Hs. destruct (inode_bytes_ok n Hok) as [Hbl _]. destruct Hok as [Hw Hd [Hp _] ].
  assert (∀ k w, inode_words n !! k = Some w → rd32 (inode_bytes n) (4 * Z.of_nat k) = Ok w) as Hrd
    by (intros k w Hk; apply rd32_bytes; [done|by eapply Forall_lookup_1]).
  unfold read_inode. rewrite arr_slice_ok by lia. change (Z.to_nat 128) with 128%nat. rewrite Hs. cbn [mbind res_bind].
  assert (slice (inode_bytes n) (Z.to_nat 84) (Z.to_nat 44) = i_padding n) as Hpad.
  { unfold slice, inode_bytes. destruct (word_bytes_ok (inode_words n)) as [Hl _].
    assert (length (inode_words n) = 21%nat) as H21 by (unfold inode_words; rewrite !length_app, Hd; done).
    rewrite drop_app_ge by lia. rewrite Hl, H21. change (Z.to_nat 84 - 4 * 21)%nat with 0%nat. rewrite drop_0. apply take_ge. lia. }
  destruct (length_12 _ Hd) as (a & b & c & d & e & f & g & h & i & j & k & m & E). unfold inode_words in Hrd. rewrite E in Hrd.
  rewrite (Hrd 0%nat _ eq_refl : rd32 _ 0 = _), (Hrd 1%nat _ eq_refl : rd32 _ 4 = _), (Hrd 2%nat _ eq_refl : rd32 _ 8 = _),
    (Hrd 3%nat _ eq_refl : rd32 _ 12 = _), (Hrd 4%nat _ eq_refl : rd32 _ 16 = _), (Hrd 5%nat _ eq_refl : rd32 _ 20 = _),
    (Hrd 6%nat _ eq_refl : rd32 _ 24 = _), (Hrd 7%nat _ eq_refl : rd32 _ 28 = _), (Hrd 8%nat _ eq_refl : rd32 _ 32 = _),
    (Hrd 9%nat _ eq_refl : rd32 _ 36 = _), (Hrd 10%nat _ eq_refl : rd32 _ 40 = _), (Hrd 11%nat _ eq_refl : rd32 _ 44 = _),
    (Hrd 12%nat _ eq_refl : rd32 _ 48 = _), (Hrd 13%nat _ eq_refl : rd32 _ 52 = _), (Hrd 14%nat _ eq_refl : rd32 _ 56 = _),
    (Hrd 15%nat _ eq_refl : rd32 _ 60 = _), (Hrd 16%nat _ eq_refl : rd32 _ 64 = _), (Hrd 17%nat _ eq_refl : rd32 _ 68 = _),
    (Hrd 18%nat _ eq_refl : rd32 _ 72 = _), (Hrd 19%nat _ eq_refl : rd32 _ 76 = _), (Hrd 20%nat _ eq_refl : rd32 _ 80 = _).
  cbn [mbind res_bind]. rewrite arr_slice_ok by lia. cbn [mbind res_bind]. rewrite Hpad, <-E. by destruct n.
Qed.

(** The inode at an index of a table block; every 128 bytes are one. *)
Definition inode_in (buf : buffer) (k : Z) : inode :=
  match read_inode buf (k * 128) with Ok n => n | _ => Inode 0 0 0 0 0 0 [] 0 0 0 [] end.

Lemma rd32_total b k : length b = 128%nat → Forall is_u8 b → 0 ≤ k → k + 4 ≤ 128 → ∃ w, rd32 b k = Ok w ∧ is_u32 w.
Proof.
  intros Hl Hu Hk Hk'. unfold rd32. rewrite arr_slice_ok by lia. cbn [mbind res_bind]. eexists. split; [done|].
  apply le_word4_range; [unfold slice; by apply Forall_take, Forall_drop|rewrite length_slice; lia].
Qed.

Lemma read_inode_total buf k : map_ok buf → 0 ≤ k < 32 → read_inode buf (k * 128) = Ok (inode_in buf k) ∧ inode_ok (inode_in buf k).
Proof.
  intros [Hl Hu] Hk. unfold inode_in, read_inode. rewrite arr_slice_ok by lia. cbn [mbind res_bind].
  set (b := slice buf _ _). assert (length b = 128%nat) as Hbl by (unfold b; rewrite length_slice; lia).
  assert (Forall is_u8 b) as Hbu by (unfold b, slice; by apply Forall_take, Forall_drop). clearbody b.
  repeat match goal with |- context [rd32 b ?o] =>
    let w := fresh "w" in let E := fresh "E" in destruct (rd32_total b o Hbl Hbu) as (w & E & ?); [lia|lia|]; rewrite E; clear E; cbn [mbind res_bind] end.
  rewrite arr_slice_ok by lia. cbn [mbind res_bind]. split; [done|]. split; cbn; [repeat (constructor; [done|]); constructor|done|].
  split; [rewrite length_slice; lia|unfold slice; by apply Forall_take, Forall_drop].
Qed.

(** Writing one inode of a block leaves the others. *)
Lemma write_inode_in buf k n :
  map_ok buf → 0 ≤ k < 32 → inode_ok n →
  ∃ buf', arr_blit buf (k * 128) (inode_bytes n) = Ok buf' ∧ map_ok buf' ∧
    ∀ j, 0 ≤ j < 32 → inode_in buf' j = if decide (j = k) then n else inode_in buf j.
Proof.
  intros [Hl Hu] Hk Hn. destruct (inode_bytes_ok n Hn) as [Hbl Hbu]. rewrite arr_blit_ok by lia. eexists. split; [done|].
  assert (map_ok (blit buf (Z.to_nat (k * 128)) (inode_bytes n))) as Hok.
  { split; [rewrite length_blit; lia|]. unfold blit. apply Forall_app. split; [by apply Forall_take|]. apply Forall_app. split; [done|]. by apply Forall_drop. }
  split; [done|]. intros j Hj. case_decide as E.
  - subst j. unfold inode_in. rewrite (read_inode_at _ _ n); [done|done|lia|destruct Hok; lia|]. rewrite <-Hbl. apply slice_blit_same. lia.
  - unfold inode_in, read_inode. rewrite !arr_slice_ok by (destruct Hok; lia). rewrite slice_blit_other by lia. done.
Qed.

(** ** One CPU *)

(** Every valid slot is a copy of its block, one of the table. *)
Record cache_ok (b : superblock) (d : gmap Z buffer) (c : icache) : Prop := {
  co_range sl : sl ∈ ic_slots c → sl_valid sl = true → inode_table_start b ≤ sl_lba sl < data_start b;
  co_len : length (ic_slots c) = 8%nat;
  co_slot sl : sl ∈ ic_slots c → sl_valid sl = true → d !! sl_lba sl = Some (sl_data sl);
  co_stamp sl : sl ∈ ic_slots c → sl_stamp sl ≤ ic_stamp c;
  co_word : 0 ≤ ic_stamp c;
  co_uniq i j sl sl' : ic_slots c !! i = Some sl → ic_slots c !! j = Some sl' → sl_valid sl = true → sl_valid sl' = true →
    sl_lba sl = sl_lba sl' → i = j;
}.

Lemma find_slot_spec lba l i :
  match find_slot lba l i with
  | Some k => ∃ sl, i ≤ k ∧ l !! Z.to_nat (k - i) = Some sl ∧ sl_valid sl = true ∧ sl_lba sl = lba
  | None => ∀ sl, sl ∈ l → sl_valid sl = true → sl_lba sl ≠ lba
  end.
Proof.
  revert i. induction l as [|sl l IH]; intros i; cbn [find_slot].
  { intros sl Hsl. by apply not_elem_of_nil in Hsl. }
  destruct (sl_valid sl && (sl_lba sl =? lba)) eqn:E.
  - apply andb_true_iff in E as [E1 E2]. exists sl. rewrite Z.sub_diag. split; [lia|]. split; [done|]. split; [done|lia].
  - specialize (IH (i + 1)). destruct (find_slot lba l (i + 1)) as [k|].
    + destruct IH as (sl' & Hk & Hl & ? & ?). exists sl'. split; [lia|]. split; [|done].
      replace (Z.to_nat (k - i)) with (S (Z.to_nat (k - (i + 1)))) by lia. done.
    + intros sl' [->|Hin]%elem_of_cons; [|by apply IH]. intros Hv. rewrite Hv in E. cbn in E. lia.
Qed.

Lemma pick_slot_spec l i best slot :
  (∃ k, slot = Some k ∧ 0 ≤ k < i) ∨ (slot = None ∧ l ≠ [] ∧ ∀ sl, sl ∈ l → sl_stamp sl < best) → 0 ≤ i →
  ∃ k, pick_slot l i best slot = Some k ∧ 0 ≤ k < i + Z.of_nat (length l).
Proof.
  revert i best slot. induction l as [|sl l IH]; intros i best slot H Hi; cbn [pick_slot].
  { destruct H as [(k & -> & ?)|(_ & ? & _)]; [|done]. exists k. cbn. split; [done|lia]. }
  destruct (negb (sl_valid sl)); [exists i; split; [done|cbn; lia]|].
  assert (∀ b k, 0 ≤ k < i + 1 → ∃ r, pick_slot l (i + 1) b (Some k) = Some r ∧ 0 ≤ r < i + Z.of_nat (length (sl :: l))) as Hgo.
  { intros b k Hk. destruct (IH (i + 1) b (Some k)) as (r & ? & ?); [left; eauto|lia|]. exists r. split; [done|cbn; lia]. }
  destruct (sl_stamp sl <? best) eqn:E; [apply Hgo; lia|].
  destruct H as [(k & -> & ?)|(_ & _ & Hlt)]; [apply Hgo; lia|]. specialize (Hlt sl ltac:(left)). lia.
Qed.

(** A slot is rewritten with a copy of its block; the other slots are copies of
    the new disk and have other blocks. *)
Lemma cache_ok_set b d d' c k sl stamp :
  cache_ok b d c → inode_table_start b ≤ sl_lba sl < data_start b → 0 ≤ k < 8 → ic_stamp c ≤ stamp → sl_stamp sl ≤ stamp → (sl_valid sl = true → d' !! sl_lba sl = Some (sl_data sl)) →
  (∀ j x, j ≠ Z.to_nat k → ic_slots c !! j = Some x → sl_valid x = true → (sl_valid sl = true → sl_lba x ≠ sl_lba sl) ∧ d' !! sl_lba x = d !! sl_lba x) →
  arr_set (ic_slots c) k sl = Ok (<[Z.to_nat k := sl]> (ic_slots c)) ∧ cache_ok b d' (ICache (<[Z.to_nat k := sl]> (ic_slots c)) stamp).
Proof.
  intros [Hrg Hl Hs Hst Hw Hu] Hr Hk Hle Hsl Hd Ho. split; [apply arr_set_ok; lia|].
  assert (∀ j x, <[Z.to_nat k := sl]> (ic_slots c) !! j = Some x → j = Z.to_nat k ∧ x = sl ∨ j ≠ Z.to_nat k ∧ ic_slots c !! j = Some x) as Hin.
  { intros j x Hj. destruct (decide (j = Z.to_nat k)) as [->|].
    - rewrite list_lookup_insert_eq in Hj by lia. left. split; congruence.
    - rewrite list_lookup_insert_ne in Hj by done. by right. }
  split; cbn; [|by rewrite length_insert| | |lia|].
  - intros x (j & Hj)%list_elem_of_lookup Hv. destruct (Hin _ _ Hj) as [ [-> ->]|[Hne Hx] ]; [done|]. apply Hrg; [by eapply list_elem_of_lookup_2|done].
  - intros x (j & Hj)%list_elem_of_lookup Hv. destruct (Hin _ _ Hj) as [ [-> ->]|[Hne Hx] ]; [auto|].
    destruct (Ho _ _ Hne Hx Hv) as [_ ->]. apply Hs; [by eapply list_elem_of_lookup_2|done].
  - intros x (j & Hj)%list_elem_of_lookup. destruct (Hin _ _ Hj) as [ [-> ->]|[Hne Hx] ]; [done|].
    specialize (Hst x ltac:(by eapply list_elem_of_lookup_2)). lia.
  - intros i j x x' Hi Hj Hv Hv' Hlba. destruct (Hin _ _ Hi) as [ [-> ->]|[Hni Hxi] ], (Hin _ _ Hj) as [ [-> ->]|[Hnj Hxj] ]; [done|..].
    + exfalso. by apply (Ho _ _ Hnj Hxj Hv').
    + exfalso. by apply (Ho _ _ Hni Hxi Hv).
    + by eapply Hu.
Qed.

(** The inode [ino] as the disk has it. *)
Definition inode_of (y : yfs) (ino : Z) : inode :=
  inode_in (default [] (disk y !! (inode_table_start (sb y) + ino / 32))) (ino `mod` 32).

(** The table holds every inode. *)
Definition table_fits (b : superblock) : Prop := ∀ ino, 0 ≤ ino < total_inodes b → inode_table_start b + ino / 32 < data_start b.

(** CPU [cpu] has a coherent cache with [k] stamps to go. *)
Record cpu_ok (cpu : Z) (k : Z) (s : fsys) : Prop := {
  cp_fs : fs_ok (fs s);
  cp_fits : table_fits (sb (fs s));
  cp_cpu : 0 ≤ cpu;
  cp_cache : ∃ c, ics s !! Z.to_nat cpu = Some c ∧ cache_ok (sb (fs s)) (disk (fs s)) c ∧ ic_stamp c + k < 4294967295;
}.

(** Nothing but the inode table has changed. *)
Record synced (y y' : yfs) : Prop := {
  sy_ok : fs_ok y';
  sy_sb : sb y' = sb y;
  sy_mem : oom y' → oom y;
  sy_free : global_free_blocks y' = global_free_blocks y ∧ global_free_inodes y' = global_free_inodes y;
  sy_blk b : is_data y b → blk_used y' b = blk_used y b;
  sy_ino i : is_ino y i → ino_used y' i = ino_used y i;
  sy_disk b : ¬ (inode_table_start (sb y) ≤ b < data_start (sb y)) → disk y' !! b = disk y !! b;
}.

Lemma synced_mem y : fs_ok y → synced y (with_mem (tl (mem y)) y).
Proof. intros F. split; try done; [by apply fs_ok_mem|apply oom_tl]. Qed.

Lemma synced_trans x y z : synced x y → synced y z → synced x z.
Proof.
  intros [F1 S1 M1 [G1 G1'] B1 I1 D1] [F2 S2 M2 [G2 G2'] B2 I2 D2]. split; try done; [congruence|auto|split; congruence|..].
  - intros b Hb. rewrite B2, B1; [done|done|]. unfold is_data in *. by rewrite S1.
  - intros i Hi. rewrite I2, I1; [done|done|]. unfold is_ino in *. by rewrite S1.
  - intros b Hb. rewrite D2, D1; [done|done|]. by rewrite S1.
Qed.

Lemma synced_write y b v : fs_ok y → inode_table_start (sb y) ≤ b < data_start (sb y) → map_ok v → synced y (bwrite b v y).
Proof.
  intros F Hb Hv. pose proof (f_layout _ F) as [L1 L2 L3 L4 L5 L6 L7 L8 L9]. rewrite bwrite_in by (done || lia).
  destruct (fs_ok_write y b v F) as (F1 & U1 & V1); [unfold is_map; lia|done|]. split; try done.
  intros c Hc. cbn. apply lookup_insert_ne. intros ->. done.
Qed.

(** What a call for the inode at [offset] of the block [lba] does. *)
Definition sync_post (cpu k lba offset : Z) (data : inode) (write : bool) (s : fsys) (r : res (bool * inode * fsys)) : Prop :=
  ∃ buf s', disk (fs s) !! lba = Some buf ∧
    r = Ok (true, if write then data else inode_in buf offset, s') ∧ cpu_ok cpu k s' ∧ synced (fs s) (fs s') ∧
    length (ics s') = length (ics s) ∧
    if write then ∃ buf', disk (fs s') = <[lba := buf']> (disk (fs s)) ∧ ∀ j, 0 ≤ j < 32 → inode_in buf' j = if decide (j = offset) then data else inode_in buf j
    else disk (fs s') = disk (fs s).

(** A slot of the running CPU is rewritten. *)
Lemma cpu_ok_set cpu k s s' c l :
  cpu_ok cpu k s → ics s !! Z.to_nat cpu = Some c → fs_ok (fs s') → sb (fs s') = sb (fs s) →
  ics s' = <[Z.to_nat cpu := ICache l (ic_stamp c + 1)]> (ics s) → cache_ok (sb (fs s)) (disk (fs s')) (ICache l (ic_stamp c + 1)) → ic_stamp c + 1 + k < 4294967295 →
  cpu_ok cpu k s'.
Proof.
  intros [F Fit Hcpu _] Hc F' E Hics C Hk. split; [done|by rewrite E|done|]. exists (ICache l (ic_stamp c + 1)). rewrite Hics, E. split; [|split; [done|done] ].
  apply list_lookup_insert_eq. by eapply lookup_lt_Some.
Qed.

Lemma sync_hit fuel cpu k lba offset data (write : bool) s c slot :
  0 ≤ k → cpu_ok cpu k s → ics s !! Z.to_nat cpu = Some c → ic_stamp c + 1 + k < 4294967295 → find_slot lba (ic_slots c) 0 = Some slot →
  inode_table_start (sb (fs s)) ≤ lba < data_start (sb (fs s)) → 0 ≤ offset < 32 → (write = true → inode_ok data) →
  sync_post cpu k lba offset data write s (sync_loop (S fuel) cpu lba offset data write s).
Proof.
  intros Hk0 CP Hc Hk Hfind Hlba Hoff Hdata. pose proof CP as [F Fit Hcpu (c' & Hc' & C & _)]. rewrite Hc in Hc'. injection Hc' as <-.
  pose proof (f_layout _ F) as [L1 L2 L3 L4 L5 L6 L7 L8 L9]. pose proof (co_len _ _ _ C) as H8. pose proof (co_word _ _ _ C) as Hword.
  pose proof (find_slot_spec lba (ic_slots c) 0) as Hspec. rewrite Hfind in Hspec. destruct Hspec as (sl & Hslot & Hsl & Hv & Hl). rewrite Z.sub_0_r in Hsl.
  pose proof (lookup_lt_Some _ _ _ Hsl) as Hlt.
  pose proof (co_slot _ _ _ C sl ltac:(by eapply list_elem_of_lookup_2) Hv) as Hd. rewrite Hl in Hd.
  destruct (f_disk _ F lba) as (buf & Hbuf & Hok); [lia|]. rewrite Hbuf in Hd. injection Hd as Hd.
  assert (∀ j x, j ≠ Z.to_nat slot → ic_slots c !! j = Some x → sl_valid x = true → sl_lba x ≠ lba) as Hother.
  { intros j x Hj Hx Hvx E. apply Hj. eapply (co_uniq _ _ _ C); [done..|]. by rewrite E, Hl. }
  cbn [sync_loop]. rewrite (arr_get_ok _ _ c) by done. cbn [mbind res_bind]. cbv zeta. rewrite u32_small by lia. rewrite Hfind, (arr_get_ok _ _ sl) by done. cbn [mbind res_bind].
  rewrite <-Hd, Hbuf, bool_decide_true, Hl by eauto. exists buf. destruct write; cbn [negb].
  - destruct (write_inode_in buf offset data Hok Hoff (Hdata eq_refl)) as (buf' & -> & Hok' & Hin). cbn [mbind res_bind].
    pose proof (synced_write (fs s) lba buf' F Hlba Hok') as Sy.
    destruct (cache_ok_set _ _ (disk (bwrite lba buf' (fs s))) _ slot (ISlot lba (ic_stamp c + 1) true buf') (ic_stamp c + 1) C) as [-> C']; [cbn; lia|lia|lia|cbn; lia| |..].
    { intros _. rewrite bwrite_in by (done || lia). apply lookup_insert_eq. }
    { intros j x Hj Hx Hvx. specialize (Hother j x Hj Hx Hvx). split; [done|]. rewrite bwrite_in by (done || lia). cbn. by apply lookup_insert_ne. }
    cbn [mbind res_bind]. eexists. split; [done|]. split; [done|]. split; [eapply cpu_ok_set; [done..|apply Sy|apply Sy|done|done|done]|].
    split; [done|]. cbn. split; [by rewrite length_insert|]. exists buf'. split; [|done]. rewrite bwrite_in by (done || lia). done.
  - destruct (cache_ok_set _ _ (disk (fs s)) _ slot (ISlot lba (ic_stamp c + 1) (sl_valid sl) buf) (ic_stamp c + 1) C) as [-> C']; [cbn; lia|lia|lia|cbn; lia|done|..].
    { intros j x Hj Hx Hvx. specialize (Hother j x Hj Hx Hvx). done. }
    cbn [mbind res_bind]. destruct (read_inode_total buf offset Hok Hoff) as [-> Hino]. cbn [mbind res_bind].
    eexists. split; [done|]. split; [done|]. split; [by eapply cpu_ok_set|]. cbn. rewrite length_insert. split; [by split|done].
Qed.

(** Two turns are enough: the second finds what the first has read. *)
Lemma sync_loop_ok cpu k lba offset data (write : bool) s :
  0 ≤ k → cpu_ok cpu (k + 2) s →
  inode_table_start (sb (fs s)) ≤ lba < data_start (sb (fs s)) → 0 ≤ offset < 32 → (write = true → inode_ok data) →
  sync_post cpu k lba offset data write s (sync_loop 2 cpu lba offset data write s).
Proof.
  intros Hk CP Hlba Hoff Hdata. pose proof CP as [F Fit Hcpu (c & Hc & C & Hst)].
  pose proof (f_layout _ F) as [L1 L2 L3 L4 L5 L6 L7 L8 L9]. pose proof (co_len _ _ _ C) as H8. pose proof (co_word _ _ _ C) as Hword.
  assert (cpu_ok cpu k s) as CPk by (split; [done..|]; exists c; split; [done|]; split; [done|lia]).
  destruct (find_slot lba (ic_slots c) 0) as [slot|] eqn:Hfind; [by eapply sync_hit; try done; lia|].
  pose proof (find_slot_spec lba (ic_slots c) 0) as Hnone. rewrite Hfind in Hnone.
  destruct (pick_slot_spec (ic_slots c) 0 4294967295 None) as (slot & Hpick & Hslot); [|lia|].
  { right. split; [done|]. split; [intros E; by rewrite E in H8|]. intros sl Hsl. pose proof (co_stamp _ _ _ C sl Hsl). lia. }
  destruct (lookup_lt_is_Some_2 (ic_slots c) (Z.to_nat slot)) as [sl Hsl]; [lia|].
  destruct (f_disk _ F lba) as (buf & Hbuf & Hok); [lia|].
  cbn [sync_loop]. rewrite (arr_get_ok _ _ c) by done. cbn [mbind res_bind]. cbv zeta. rewrite u32_small by lia.
  rewrite Hfind, Hpick, (arr_get_ok _ _ sl) by (done || lia). cbn [mbind res_bind]. rewrite Hbuf.
  destruct (cache_ok_set _ _ (disk (fs s)) _ slot (ISlot lba (ic_stamp c + 1) true buf) (ic_stamp c + 1) C) as [-> C']; [cbn; lia|lia|lia|cbn; lia|done|..].
  { intros j x Hj Hx Hvx. split; [|done]. intros _. apply Hnone; [by eapply list_elem_of_lookup_2|done]. }
  cbn [mbind res_bind]. set (c' := ICache _ _) in *. set (s' := set_cache cpu c' s).
  assert (ics s' !! Z.to_nat cpu = Some c') as Hc' by (apply list_lookup_insert_eq; by eapply lookup_lt_Some).
  assert (cpu_ok cpu k s') as CP' by (eapply cpu_ok_set; [exact CPk|done..|cbn; lia]).
  destruct (find_slot lba (ic_slots c') 0) as [slot'|] eqn:Hfind'.
  - destruct (sync_hit 0 cpu k lba offset data write s' c' slot') as (b & s2 & Hb & Hr & CP2 & Sy & Hlen & Hw); [done|done|done|cbn; lia|done|done|done|done|].
    exists b, s2. split; [done|]. split; [exact Hr|]. split; [done|]. split; [done|]. split; [|done]. rewrite Hlen. cbn. by rewrite length_insert.
  - exfalso. pose proof (find_slot_spec lba (ic_slots c') 0) as Hn. rewrite Hfind' in Hn. apply (Hn (ISlot lba (ic_stamp c + 1) true buf)); [|done..].
    eapply list_elem_of_lookup_2. cbn. apply list_lookup_insert_eq. lia.
Qed.

(** ** The table of inodes *)

Lemma inode_index b ino : 0 ≤ ino < total_inodes b → table_fits b → 0 ≤ ino / 32 ∧ 0 ≤ ino `mod` 32 < 32 ∧ inode_table_start b + ino / 32 < data_start b.
Proof. intros Hi Hf. split; [apply Z.div_pos; lia|]. split; [by apply Z.mod_pos_bound|by apply Hf]. Qed.

(** What [sync_inode] does on a CPU whose cache is coherent. *)
Lemma sync_inode_ok cpu k ino data (write : bool) s :
  0 ≤ k → cpu_ok cpu (k + 2) s → 0 < ino < total_inodes (sb (fs s)) → (write = true → inode_ok data) →
  ∃ (ok : bool) s', sync_inode cpu ino data write s = Ok (ok, if ok && negb write then inode_of (fs s) ino else data, s') ∧
    (ok = false → oom (fs s)) ∧ cpu_ok cpu k s' ∧ synced (fs s) (fs s') ∧
    ∀ i, is_ino (fs s) i → inode_of (fs s') i = if ok && write && bool_decide (i = ino) then data else inode_of (fs s) i.
Proof.
  intros Hk CP Hino Hdata. pose proof CP as [F Fit Hcpu (c & Hc & C & Hst)]. pose proof (f_layout _ F) as [L1 L2 L3 L4 L5 L6 L7 L8 L9].
  destruct (inode_index (sb (fs s)) ino) as (I1 & I2 & I3); [lia|done|]. unfold sync_inode. case_if; [exfalso; lia|]. case_if; [exfalso; lia|].
  cbv zeta. change per_block with 32. case_if; [exfalso; lia|].
  destruct (kmalloc_cases (fs s)) as (ok & -> & Hok). cbv iota beta.
  assert (cpu_ok cpu (k + 2) (with_fs (with_mem (tl (mem (fs s))) (fs s)) s)) as CP1 by (split; [by apply fs_ok_mem|done|done|by exists c]).
  pose proof (synced_mem (fs s) F) as Sy1. destruct ok; cbn [negb].
  - pose proof (lookup_lt_Some _ _ _ Hc). destruct ((cpu <? 0) || (zlen (ics _) <=? cpu)) eqn:Ecpu; [exfalso; cbn in Ecpu; lia|].
    destruct (sync_loop_ok cpu k (inode_table_start (sb (fs s)) + ino / 32) (ino `mod` 32) data write _ Hk CP1) as (buf & s' & Hb & Hr & CP' & Sy & Hlen & Hw);
      [cbn; lia|done|done|]. cbn [fs with_fs disk with_mem] in Hb, Hw.
    exists true, s'. rewrite Hr. split; [|split; [done|split; [done|split; [by eapply synced_trans|] ] ] ].
    { cbn [andb]. unfold inode_of. rewrite Hb. destruct write; done. }
    intros i Hi. destruct (inode_index (sb (fs s)) i Hi Fit) as (J1 & J2 & J3). unfold inode_of. rewrite (sy_sb _ _ Sy). cbn [fs with_fs sb with_mem andb]. destruct write; [|by rewrite Hw].
    destruct Hw as (buf' & -> & Hin). cbn [andb]. destruct (decide (i / 32 = ino / 32)) as [Eq|Ne].
    + rewrite Eq, lookup_insert_eq, Hb. cbn [default from_option]. rewrite Hin by done.
      assert (i `mod` 32 = ino `mod` 32 ↔ i = ino) as Hiff by (clear -Eq; Z.to_euclidean_division_equations; lia).
      case_decide; [rewrite bool_decide_true by tauto|rewrite bool_decide_false by tauto]; done.
    + rewrite lookup_insert_ne by lia. rewrite bool_decide_false by (intros ->; done). done.
  - eexists false, _. split; [done|]. split; [by intros _; apply Hok|]. split; [|split; [done|by intros i Hi] ].
    destruct CP1 as [? ? ? (c' & ? & ? & ?)]. split; try done. exists c'. split; [done|]. split; [done|lia].
Qed.

(** Reads and writes of whole inodes. *)
Inductive iop := IGet (ino : Z) | IPut (ino : Z) (n : inode).

Definition no_inode : inode := Inode 0 0 0 0 0 0 [] 0 0 0 [].

Fixpoint irun (cpu : Z) (os : list iop) (s : fsys) : res (list inode * fsys) :=
  match os with
  | [] => Ok ([], s)
  | IGet ino :: os => r ← sync_inode cpu ino no_inode false s; q ← irun cpu os r.2; Ok (r.1.2 :: q.1, q.2)
  | IPut ino n :: os => r ← sync_inode cpu ino n true s; irun cpu os r.2
  end.

(** The same on a table. *)
Fixpoint trun (os : list iop) (t : Z → inode) : list inode * (Z → inode) :=
  match os with
  | [] => ([], t)
  | IGet ino :: os => let q := trun os t in (t ino :: q.1, q.2)
  | IPut ino n :: os => trun os (λ i, if bool_decide (i = ino) then n else t i)
  end.

Definition iop_ok (b : superblock) (o : iop) : Prop :=
  match o with IGet ino => 0 < ino < total_inodes b | IPut ino n => 0 < ino < total_inodes b ∧ inode_ok n end.

Lemma trun_ext b os t t' :
  (∀ i, 0 ≤ i < total_inodes b → t i = t' i) → Forall (iop_ok b) os →
  (trun os t).1 = (trun os t').1 ∧ ∀ i, 0 ≤ i < total_inodes b → (trun os t).2 i = (trun os t').2 i.
Proof.
  revert t t'. induction os as [|o os IH]; intros t t' Ht Hos; [done|]. apply Forall_cons in Hos as [Ho Hos]. destruct o as [ino|ino n]; cbn [trun fst snd iop_ok] in *.
  - destruct (IH t t' Ht Hos) as [-> ?]. rewrite Ht by lia. done.
  - apply IH; [|done]. intros i Hi. case_bool_decide; [done|by apply Ht].
Qed.


(** ** Witnesses *)

Definition empty_cache : icache := ICache (replicate 8 (ISlot 0 0 false (replicate 4096 0))) 0.
Definition demo_sys : fsys := Fsys demo_fs (replicate 2 empty_cache).
Definition demo_inode (id : Z) : inode := Inode id YFS_TYPE_FILE 0 0 0 0 (replicate 12 0) 0 0 0 (replicate 44 0).

Lemma demo_inode_ok id : is_u32 id → inode_ok (demo_inode id).
Proof. intros H. split; [repeat (constructor; [done|]); constructor|done|split; [done|by apply Forall_replicate] ]. Qed.

Lemma demo_cpu_ok cpu k : (cpu = 0 ∨ cpu = 1) → k < 4294967295 → cpu_ok cpu k demo_sys.
Proof.
  intros Hcpu Hk. split; [apply demo_ok| |lia|].
  - intros ino Hi. cbn in *. Z.to_euclidean_division_equations. lia.
  - exists empty_cache. split; [by destruct Hcpu as [-> | ->]|]. split; [|done]. split; [ |done| | |done|].
    + intros sl Hsl. apply elem_of_replicate in Hsl as [-> _]. done.
    + intros sl Hsl. apply elem_of_replicate in Hsl as [-> _]. done.
    + intros sl Hsl. apply elem_of_replicate in Hsl as [-> _]. done.
    + intros i j sl sl' Hi. apply lookup_replicate in Hi as [-> _]. done.
Qed.

Definition demo_iops : list iop := [IGet 40; IPut 5 (demo_inode 5); IPut 40 (demo_inode 40); IGet 5; IGet 40; IGet 6].


(** Two CPUs: what one wrote the other does not see. *)
Theorem inode_cache_stale_across_cpus :
  (r ← sync_inode 1 5 no_inode false demo_sys;
   w ← sync_inode 0 5 (demo_inode 5) true r.2;
   q ← sync_inode 1 5 no_inode false w.2;
   Ok (w.1.1, i_type (inode_of (fs q.2) 5), i_type q.1.2)) = Ok (true, YFS_TYPE_FILE, YFS_TYPE_FREE).
Proof. by vm_compute. Qed.
