(* ===== verification/YfsForest.v ===== *)
(** * YulaFS: trees of block pointers

    The blocks of all files form a forest: a root pointer of an inode is a block,
    and a block above the leaves is a table of 1024 pointers.  [walk] follows a
    path of indices; [forest_ok] says that no block is reached by two paths.  The
    lemmas say what planting a block, overwriting a leaf and cutting a tree do. *)

From S2P Require Import Prelude Bdev YfsBitmap YfsWords.

Section forest.
Context {K : Type} `{EqDecision K}.

(** How many tables lie above a leaf of the tree. *)
Variable lvl : K → nat.

Definition child (d : gmap Z buffer) (p i : Z) : Z := if p =? 0 then 0 else word (default [] (d !! p)) i.
Definition walk (d : gmap Z buffer) (root : K → Z) (k : K) (path : list Z) : Z := foldl (child d) (root k) path.

Definition valid (k : K) (path : list Z) : Prop := (length path ≤ lvl k)%nat ∧ Forall (λ i, 0 ≤ i < 1024) path.

Record forest_ok (live : Z → Prop) (d : gmap Z buffer) (root : K → Z) : Prop := {
  fo_live k path : valid k path → walk d root k path ≠ 0 → live (walk d root k path);
  fo_blk b : live b → ∃ buf, d !! b = Some buf ∧ map_ok buf;
  fo_inj k path k' path' : valid k path → valid k' path' → walk d root k path ≠ 0 → walk d root k path = walk d root k' path' → k = k' ∧ path = path';
}.

Lemma walk_snoc d root k path i : walk d root k (path ++ [i]) = child d (walk d root k path) i.
Proof. unfold walk. by rewrite foldl_app. Qed.

Lemma valid_snoc k path i : valid k (path ++ [i]) ↔ valid k path ∧ 0 ≤ i < 1024 ∧ (length path < lvl k)%nat.
Proof. unfold valid. rewrite length_app, Forall_app, Forall_singleton. cbn. split; [intros [? [? ?] ]; split; [split; [lia|done]|split; [done|lia] ]|intros [ [? ?] [? ?] ]; split; [lia|done] ]. Qed.

(** Only tables are read. *)
Lemma walk_agree d d' root k path :
  (∀ rho, valid k rho → (length rho < lvl k)%nat → walk d root k rho ≠ 0 → d' !! walk d root k rho = d !! walk d root k rho) →
  valid k path → walk d' root k path = walk d root k path.
Proof.
  intros Hd. induction path as [|i path IH] using rev_ind; intros Hv; [done|]. apply valid_snoc in Hv as (Hv & Hi & Hl).
  rewrite !walk_snoc, IH by done. unfold child. case_if; [done|]. by rewrite Hd.
Qed.

(** A change outside the live blocks. *)
Lemma forest_frame live d d' root :
  forest_ok live d root → (∀ b, live b → d' !! b = d !! b) →
  forest_ok live d' root ∧ ∀ k path, valid k path → walk d' root k path = walk d root k path.
Proof.
  intros [Hl Hb Hi] Hd.
  assert (∀ k path, valid k path → walk d' root k path = walk d root k path) as Hw
    by (intros k path; apply walk_agree; intros rho Hv _ Hne; by apply Hd, Hl).
  split; [|done]. split.
  - intros k path Hv. rewrite Hw by done. by apply Hl.
  - intros b Hlb. rewrite Hd by done. by apply Hb.
  - intros k path k' path' Hv Hv'. rewrite !Hw by done. by apply Hi.
Qed.

(** Overwriting a leaf. *)
Lemma forest_leaf live d root k path v :
  forest_ok live d root → valid k path → length path = lvl k → walk d root k path ≠ 0 → map_ok v →
  let d' := <[walk d root k path := v]> d in
  forest_ok live d' root ∧ ∀ k' path', valid k' path' → walk d' root k' path' = walk d root k' path'.
Proof.
  intros [Hl Hb Hi] Hv Hlen Hne Hok d'.
  assert (∀ k' path', valid k' path' → walk d' root k' path' = walk d root k' path') as Hw.
  { intros k' path'. apply walk_agree. intros rho Hvr Hlt Hr. apply lookup_insert_ne. intros E.
    destruct (Hi k path k' rho Hv Hvr Hne E) as [-> ->]. lia. }
  split; [|done]. split.
  - intros k' path' Hv'. rewrite Hw by done. by apply Hl.
  - intros b Hlb. unfold d'. destruct (decide (b = walk d root k path)) as [->|]; [rewrite lookup_insert_eq; eauto|].
    rewrite lookup_insert_ne by done. by apply Hb.
  - intros k1 p1 k2 p2 Hv1 Hv2. rewrite !Hw by done. by apply Hi.
Qed.

(** The walks of a forest with one more block. *)
Definition planted (d : gmap Z buffer) (root : K → Z) (d' : gmap Z buffer) (root' : K → Z) (k0 : K) (path0 : list Z) (b : Z) : Prop :=
  ∀ k path, valid k path → walk d' root' k path = if decide (k = k0 ∧ path = path0) then b else walk d root k path.

Lemma forest_planted live d root d' root' k0 path0 b :
  forest_ok live d root → ¬ live b → b ≠ 0 → walk d root k0 path0 = 0 → planted d root d' root' k0 path0 b →
  (∀ c, live c ∨ c = b → ∃ buf, d' !! c = Some buf ∧ map_ok buf) →
  forest_ok (λ c, live c ∨ c = b) d' root'.
Proof.
  intros [Hl Hb Hi] Hfresh Hnz Hzero Hp Hd. split; [|done|].
  - intros k path Hv. rewrite Hp by done. case_decide; [by right|]. intros Hne. left. by apply Hl.
  - intros k path k' path' Hv Hv'. rewrite !Hp by done.
    destruct (decide (k = k0 ∧ path = path0)) as [ [-> ->]|E1], (decide (k' = k0 ∧ path' = path0)) as [ [-> ->]|E2].
    + done.
    + intros _ E. exfalso. apply Hfresh. rewrite E. apply Hl; [done|by rewrite <-E].
    + intros Hne E. exfalso. apply Hfresh. rewrite <-E. by apply Hl.
    + by apply Hi.
Qed.

(** A block planted in a table. *)
Lemma plant_child live d root d' k path i b pbuf' :
  forest_ok live d root → valid k (path ++ [i]) → walk d root k path ≠ 0 → walk d root k (path ++ [i]) = 0 → ¬ live b → b ≠ 0 →
  d' !! walk d root k path = Some pbuf' →
  (∀ j, 0 ≤ j < 1024 → word pbuf' j = if decide (j = i) then b else word (default [] (d !! walk d root k path)) j) →
  d' !! b = Some (replicate 4096 0) → (∀ c, live c → c ≠ walk d root k path → d' !! c = d !! c) →
  planted d root d' root k (path ++ [i]) b.
Proof.
  intros [Hl Hb Hi] Hv Hne Hz Hfresh Hnz Hp Hw Hzero Hd k' path'. apply valid_snoc in Hv as (Hv & Hir & Hlen).
  induction path' as [|j rho IH] using rev_ind; intros Hv'.
  { rewrite decide_False; [done|]. intros [_ E]. by destruct path. }
  apply valid_snoc in Hv' as (Hvr & Hj & Hlr). rewrite !walk_snoc, IH by done. clear IH.
  destruct (decide (k' = k ∧ rho = path ++ [i])) as [ [-> ->]|Hno].
  - rewrite decide_False by (intros [_ E]; apply (f_equal length) in E; rewrite !length_app in E; cbn in E; lia).
    rewrite Hz. unfold child. case_if; [lia|]. rewrite Hzero. cbn [default from_option]. rewrite word_zeros by done. done.
  - set (q := walk d root k' rho) in *. unfold child. destruct (q =? 0) eqn:Eq.
    { rewrite decide_False; [done|]. intros [-> E]. apply app_inj_2 in E as [-> _]; [|done]. unfold q in Eq. lia. }
    destruct (decide (q = walk d root k path)) as [E|E].
    + assert (k' = k ∧ rho = path) as [-> ->] by (apply (Hi k' rho k path); [done|done|fold q; lia|done]).
      rewrite E, Hp. cbn [default from_option]. rewrite Hw by done. case_decide as Ej.
      * subst j. by rewrite decide_True.
      * rewrite decide_False; [done|]. intros [_ E2]. apply app_inj_2 in E2 as [_ [= ->] ]; done.
    + rewrite Hd; [|apply Hl; [done|fold q; lia]|done]. rewrite decide_False; [done|].
      intros [-> E2]. apply app_inj_2 in E2 as [-> _]; [|done]. done.
Qed.

(** A block planted at a root. *)
Lemma plant_root live d root d' root' k b :
  forest_ok live d root → root k = 0 → ¬ live b → b ≠ 0 → root' k = b → (∀ k', k' ≠ k → root' k' = root k') →
  d' !! b = Some (replicate 4096 0) → (∀ c, live c → d' !! c = d !! c) →
  planted d root d' root' k [] b.
Proof.
  intros [Hl Hb Hi] Hz Hfresh Hnz Hr Hr' Hzero Hd k' path'. induction path' as [|j rho IH] using rev_ind; intros Hv'.
  { unfold walk; cbn. case_decide as E; [by destruct E as [-> _]|]. apply Hr'. intros ->. by apply E. }
  apply valid_snoc in Hv' as (Hvr & Hj & Hlr). rewrite !walk_snoc, IH by done. clear IH.
  rewrite (decide_False (P := k' = k ∧ rho ++ [j] = [])) by (intros [_ E]; by destruct rho).
  case_decide as E.
  - destruct E as [-> ->]. unfold walk at 1; cbn. rewrite Hz. unfold child. case_if; [lia|]. rewrite Hzero. cbn [default from_option]. by rewrite word_zeros.
  - unfold child. case_if; [done|]. rewrite Hd; [done|]. by apply Hl.
Qed.

End forest.
