(* ===== verification/YfsBlockMap.v ===== *)
(** * YulaFS: from a block of a file to a block of the disk

    [resolve_block_for_inode], [free_indir_level] and [truncate_inode] of
    [src/src/fs/yulafs.cpp].  The three branches of the former for one, two and
    three levels of tables repeat one step, written once here as [table_step]. *)

From S2P Require Import Prelude Bdev YfsBitmap YfsWords Yfs YfsAlloc YfsOps YfsVolume YfsInode YfsForest.

Definition PTRS_PER_BLOCK : Z := YFS_BLOCK_SIZE / 4.

Definition set_direct (i v : Z) (n : inode) : res inode :=
  l ← arr_set (i_direct n) i v;
  Ok (Inode (i_id n) (i_type n) (i_size n) (i_flags n) (i_created_at n) (i_modified_at n) l (i_indirect n) (i_doubly_indirect n) (i_triply_indirect n) (i_padding n)).
Definition set_indirect (v : Z) (n : inode) : inode :=
  Inode (i_id n) (i_type n) (i_size n) (i_flags n) (i_created_at n) (i_modified_at n) (i_direct n) v (i_doubly_indirect n) (i_triply_indirect n) (i_padding n).
Definition set_doubly (v : Z) (n : inode) : inode :=
  Inode (i_id n) (i_type n) (i_size n) (i_flags n) (i_created_at n) (i_modified_at n) (i_direct n) (i_indirect n) v (i_triply_indirect n) (i_padding n).
Definition set_triply (v : Z) (n : inode) : inode :=
  Inode (i_id n) (i_type n) (i_size n) (i_flags n) (i_created_at n) (i_modified_at n) (i_direct n) (i_indirect n) (i_doubly_indirect n) v (i_padding n).
Definition set_size (v : Z) (n : inode) : inode :=
  Inode (i_id n) (i_type n) v (i_flags n) (i_created_at n) (i_modified_at n) (i_direct n) (i_indirect n) (i_doubly_indirect n) (i_triply_indirect n) (i_padding n).

(** One table: the pointer at [idx], allocated and stored when it is null and
    [alloc]; [None] when there is no buffer for the table. *)
Definition table_step (ino block idx : Z) (alloc : bool) (s : yfs) : res (option Z * yfs) :=
  let '(ok, s) := kmalloc s in
  if negb ok then Ok (None, s)
  else
    table ← bread block s;
    v ← rd32 table (4 * idx);
    if (v =? 0) && alloc then
      r ← alloc_block_for_inode ino s;
      table ← wr32 table (4 * idx) r.1;
      Ok (Some r.1, bwrite block table r.2)
    else Ok (Some v, s).

(** Down the tables along [idxs]. *)
Fixpoint descend (ino block : Z) (idxs : list Z) (alloc : bool) (s : yfs) : res (Z * yfs) :=
  match idxs with
  | [] => Ok (block, s)
  | idx :: idxs =>
      r ← table_step ino block idx alloc s;
      match r.1 with
      | None => Ok (0, r.2)
      | Some v => if (v =? 0) && negb alloc then Ok (0, r.2) else descend ino v idxs alloc r.2
      end
  end.

(** The root pointer [ptr] of a tree, allocated first when it is null. *)
Definition root_step (ino ptr : Z) (alloc : bool) (s : yfs) : res (option Z * yfs) :=
  if ptr =? 0 then
    if negb alloc then Ok (None, s)
    else r ← alloc_block_for_inode ino s; Ok (Some r.1, r.2)
  else Ok (Some ptr, s).

Definition resolve_block_for_inode (ino : Z) (node : inode) (file_block : Z) (alloc : bool) (s : yfs) : res (Z * inode * yfs) :=
  if file_block <? YFS_DIRECT_PTRS then
    ptr ← arr_get (i_direct node) file_block;
    r ← root_step ino ptr alloc s;
    match r.1 with
    | None => Ok (0, node, r.2)
    | Some p => node ← set_direct file_block p node; Ok (p, node, r.2)
    end
  else
    let file_block := file_block - YFS_DIRECT_PTRS in
    if file_block <? PTRS_PER_BLOCK then
      r ← root_step ino (i_indirect node) alloc s;
      match r.1 with
      | None => Ok (0, node, r.2)
      | Some p => q ← descend ino p [file_block] alloc r.2; Ok (q.1, set_indirect p node, q.2)
      end
    else
      let file_block := file_block - PTRS_PER_BLOCK in
      if file_block <? PTRS_PER_BLOCK * PTRS_PER_BLOCK then
        r ← root_step ino (i_doubly_indirect node) alloc s;
        match r.1 with
        | None => Ok (0, node, r.2)
        | Some p =>
            q ← descend ino p [file_block / PTRS_PER_BLOCK; file_block `mod` PTRS_PER_BLOCK] alloc r.2;
            Ok (q.1, set_doubly p node, q.2)
        end
      else
        let file_block := file_block - PTRS_PER_BLOCK * PTRS_PER_BLOCK in
        if file_block <? PTRS_PER_BLOCK * PTRS_PER_BLOCK * PTRS_PER_BLOCK then
          r ← root_step ino (i_triply_indirect node) alloc s;
          match r.1 with
          | None => Ok (0, node, r.2)
          | Some p =>
              let ptrs_sq := PTRS_PER_BLOCK * PTRS_PER_BLOCK in
              let rem := file_block `mod` ptrs_sq in
              q ← descend ino p [file_block / ptrs_sq; rem / PTRS_PER_BLOCK; rem `mod` PTRS_PER_BLOCK] alloc r.2;
              Ok (q.1, set_triply p node, q.2)
          end
        else Ok (0, node, s).

Definition resolve_block (node : inode) (file_block : Z) (alloc : bool) (s : yfs) : res (Z * inode * yfs) :=
  resolve_block_for_inode (i_id node) node file_block alloc s.

(** ** Truncation *)

(** [for (i = 0; i < PTRS_PER_BLOCK; i++) if (table[i]) ...], [f] the call. *)
Fixpoint free_ptrs (f : Z → yfs → res yfs) (n : nat) (i : Z) (table : buffer) (s : yfs) : res yfs :=
  match n with
  | O => Ok s
  | S n =>
      p ← rd32 table (4 * i);
      s ← (if p =? 0 then Ok s else f p s);
      free_ptrs f n (i + 1) table s
  end.

Fixpoint free_indir_level (level : nat) (block : Z) (s : yfs) : res yfs :=
  if block =? 0 then Ok s
  else
    match level with
    | O => free_block block s
    | S level =>
        let '(ok, s) := kmalloc s in
        s ← (if (ok : bool) then table ← bread block s; free_ptrs (free_indir_level level) (Z.to_nat PTRS_PER_BLOCK) 0 table s else Ok s);
        free_block block s
    end.

Fixpoint free_direct (l : list Z) (s : yfs) : res yfs :=
  match l with
  | [] => Ok s
  | p :: l => s ← (if p =? 0 then Ok s else free_block p s); free_direct l s
  end.

Definition truncate_inode (node : inode) (s : yfs) : res (inode * yfs) :=
  s ← free_direct (i_direct node) s;
  s ← (if i_indirect node =? 0 then Ok s else free_indir_level 1 (i_indirect node) s);
  s ← (if i_doubly_indirect node =? 0 then Ok s else free_indir_level 2 (i_doubly_indirect node) s);
  s ← (if i_triply_indirect node =? 0 then Ok s else free_indir_level 3 (i_triply_indirect node) s);
  Ok (Inode (i_id node) (i_type node) 0 (i_flags node) (i_created_at node) (i_modified_at node)
        (replicate (length (i_direct node)) 0) 0 0 0 (i_padding node), s).
