(* ===== verification/YfsResolve.v ===== *)
(** * YulaFS: the files of a sound file system

    [files_ok] says that the pointers of all inodes form a forest of blocks in
    use.  Resolving a block without allocation follows the path of the block
    ([resolve_lookup]); with allocation it may plant tables and the block, and
    leaves the contents of every file as they were ([resolve_grows]). *)

From S2P Require Import Prelude Bdev YfsBitmap YfsWords Yfs YfsAlloc YfsOps YfsVolume YfsInode YfsForest YfsBlockMap.

(** ** Files *)

(** The root pointers of an inode: twelve to blocks, then one to a table of each
    depth. *)
Definition slot_ptr (n : inode) (slot : Z) : Z :=
  default 0 ((i_direct n ++ [i_indirect n; i_doubly_indirect n; i_triply_indirect n]) !! Z.to_nat slot).

Definition lvl (k : Z * Z) : nat := Z.to_nat (k.2 - 11).

(** [nodes] gives the inodes; the file being worked on has its inode in memory. *)
Definition roots (total : Z) (nodes : Z → inode) (k : Z * Z) : Z :=
  if (0 <=? k.1) && (k.1 <? total) && (0 <=? k.2) && (k.2 <? 15) then slot_ptr (nodes k.1) k.2 else 0.

Definition live (y : yfs) (b : Z) : Prop := is_data y b ∧ blk_used y b = true.

Record files_ok (y : yfs) (nodes : Z → inode) : Prop := {
  fl_fs : fs_ok y;
  fl_forest : forest_ok lvl (live y) (disk y) (roots (total_inodes (sb y)) nodes);
  fl_node i : is_ino y i → inode_ok (nodes i);
}.

Definition fwalk (y : yfs) (nodes : Z → inode) : Z * Z → list Z → Z := walk (disk y) (roots (total_inodes (sb y)) nodes).

(** What a leaf holds; a hole is zeros. *)
Definition leaf (y : yfs) (nodes : Z → inode) (k : Z * Z) (path : list Z) : buffer :=
  let p := fwalk y nodes k path in if p =? 0 then replicate 4096 0 else default [] (disk y !! p).

Definition upd_node (nodes : Z → inode) (ino : Z) (n : inode) : Z → inode := λ i, if bool_decide (i = ino) then n else nodes i.

(** More blocks in use, the same contents. *)
Record grown (c : Z) (y : yfs) (nodes : Z → inode) (y' : yfs) (nodes' : Z → inode) : Prop := {
  gr_files : files_ok y' nodes';
  gr_sb : sb y' = sb y;
  gr_mem : oom y' → oom y;
  gr_free : global_free_blocks y - c ≤ global_free_blocks y' ≤ global_free_blocks y;
  gr_ino i : is_ino y i → ino_used y' i = ino_used y i;
  gr_disk b : b < data_start (sb y) → ¬ is_map y b → disk y' !! b = disk y !! b;
  gr_leaf k path : valid lvl k path → length path = lvl k → leaf y' nodes' k path = leaf y nodes k path;
  gr_walk k path : valid lvl k path → fwalk y nodes k path ≠ 0 → fwalk y' nodes' k path = fwalk y nodes k path;
  gr_live b : live y b → live y' b;
}.

Lemma grown_refl c y nodes : 0 ≤ c → files_ok y nodes → grown c y nodes y nodes.
Proof. intros. split; try done. lia. Qed.

Lemma grown_trans c1 c2 y1 n1 y2 n2 y3 n3 : grown c1 y1 n1 y2 n2 → grown c2 y2 n2 y3 n3 → grown (c1 + c2) y1 n1 y3 n3.
Proof.
  intros [F1 S1 M1 C1 I1 D1 L1 W1 V1] [F2 S2 M2 C2 I2 D2 L2 W2 V2]. split; try done; [congruence|auto|lia| | | | |auto].
  - intros i Hi. rewrite I2, I1; [done|done|]. unfold is_ino in *. by rewrite S1.
  - intros b Hb Hm. rewrite D2, D1; [done|done|done|by rewrite S1|]. unfold is_map in *. by rewrite S1.
  - intros k path Hv Hl. by rewrite L2, L1.
  - intros k path Hv Hne. rewrite W2, W1; [done|done|done|done|]. by rewrite W1.
Qed.

Lemma grown_mem y nodes : files_ok y nodes → grown 0 y nodes (with_mem (tl (mem y)) y) nodes.
Proof. intros [F Fo Fn]. split; try done; [split; [by apply fs_ok_mem|done|done]|apply oom_tl|cbn; lia]. Qed.

(** ** Taking a block into the forest *)

Lemma live_taken y r y' b : block_taken y r y' → (live y' b ↔ live y b ∨ b = r).
Proof.
  intros [F Hsb Hr Hw Hb Hi Hd _ _ _]. unfold live, is_data in *. rewrite Hsb. split.
  - intros [Hdb Hu]. rewrite Hb in Hu by done. apply orb_true_iff in Hu as [?%bool_decide_eq_true|?]; [by right|by left].
  - intros [ [Hdb Hu] | ->]; (split; [done|]); rewrite Hb by done; [by rewrite Hu, orb_true_r|by rewrite bool_decide_true].
Qed.

Lemma live_facts y b : fs_ok y → live y b → 0 < b < total_blocks (sb y) ∧ ¬ is_map y b.
Proof. intros F [Hd _]. pose proof (f_layout _ F) as [L1 L2 L3 L4 L5 L6 L7 L8 L9]. unfold is_data, is_map in *. split; lia. Qed.

Lemma taken_facts y r y' : fs_ok y → ¬ oom y → block_taken y r y' →
  r ≠ 0 ∧ ¬ live y r ∧ disk y' !! r = Some (replicate 4096 0) ∧ (∀ b, live y b → disk y' !! b = disk y !! b).
Proof.
  intros F Ho T. pose proof (f_layout _ F) as [L1 L2 L3 L4 L5 L6 L7 L8 L9]. destruct T as [F' Hsb Hr Hw Hb Hi Hd _ Hz _].
  split; [unfold is_data in Hr; lia|]. split; [intros [_ Hl]; congruence|]. split; [destruct Hz as [|[? _] ]; done|].
  intros b Hl. apply Hd; [by apply live_facts|]. intros ->. destruct Hl. congruence.
Qed.

Lemma forest_ext (l l' : Z → Prop) d (root : Z * Z → Z) : (∀ b, l b ↔ l' b) → forest_ok lvl l d root → forest_ok lvl l' d root.
Proof. intros E [H1 H2 H3]. split; [intros; apply E; by apply H1|intros b Hb; apply H2; by apply E|done]. Qed.

(** A planted block changes no content. *)
Lemma planted_leaf y nodes y' nodes' k0 path0 b :
  sb y' = sb y → planted lvl (disk y) (roots (total_inodes (sb y)) nodes) (disk y') (roots (total_inodes (sb y)) nodes') k0 path0 b → b ≠ 0 →
  fwalk y nodes k0 path0 = 0 → disk y' !! b = Some (replicate 4096 0) →
  (∀ k path, valid lvl k path → length path = lvl k → fwalk y nodes k path ≠ 0 → disk y' !! fwalk y nodes k path = disk y !! fwalk y nodes k path) →
  (∀ k path, valid lvl k path → length path = lvl k → leaf y' nodes' k path = leaf y nodes k path) ∧
  (∀ k path, valid lvl k path → fwalk y nodes k path ≠ 0 → fwalk y' nodes' k path = fwalk y nodes k path).
Proof.
  intros Hsb Hp Hnz Hz Hb Hd. split; intros k path Hv.
  - intros Hl. unfold leaf, fwalk. cbv zeta. rewrite Hsb, !Hp by done. fold (fwalk y nodes k path). case_decide as E.
    + destruct E as [-> ->]. rewrite Hz. rewrite Hb. destruct (b =? 0) eqn:E; [lia|done].
    + destruct (fwalk y nodes k path =? 0) eqn:E0; [done|]. rewrite Hd by (done || lia). done.
  - intros Hne. unfold fwalk in *. rewrite Hsb, Hp by done. rewrite decide_False; [done|]. intros [-> ->]. done.
Qed.

(** A root pointer that was null gets the block. *)
Lemma grow_root y nodes r y' nodes' k :
  files_ok y nodes → ¬ oom y → block_taken y r y' → roots (total_inodes (sb y)) nodes k = 0 →
  roots (total_inodes (sb y)) nodes' k = r → (∀ k', k' ≠ k → roots (total_inodes (sb y)) nodes' k' = roots (total_inodes (sb y)) nodes k') →
  (∀ i, is_ino y i → inode_ok (nodes' i)) →
  grown 1 y nodes y' nodes' ∧ fwalk y' nodes' k [] = r.
Proof.
  intros [F Fo Fn] Ho T Hz Hr Hr' Hn. destruct (taken_facts _ _ _ F Ho T) as (Hnz & Hfresh & Hzero & Hd).
  assert (planted lvl (disk y) (roots (total_inodes (sb y)) nodes) (disk y') (roots (total_inodes (sb y)) nodes') k [] r) as Hp
    by (eapply plant_root; eauto).
  destruct (planted_leaf y nodes y' nodes' k [] r) as [L1 W1]; [apply T|done..| |].
  { intros k' path Hv _ Hne. by apply Hd, (fo_live _ _ _ _ Fo). }
  split; [|unfold fwalk, walk; cbn; by rewrite (bt_sb _ _ _ T)].
  assert (forest_ok lvl (λ b, live y b ∨ b = r) (disk y') (roots (total_inodes (sb y)) nodes')) as Fo'.
  { apply (forest_planted lvl (live y) (disk y) _ _ _ k [] r Fo Hfresh Hnz Hz Hp). intros c [Hc | ->]; [|rewrite Hzero; exists (replicate 4096 0); split; [done|apply map_ok_zeros] ]. rewrite Hd by done. by apply Fo. }
  split; try done.
  - split; [apply T|rewrite (bt_sb _ _ _ T); eapply forest_ext; [|exact Fo']; intros b; symmetry; by apply live_taken|].
    intros i Hi. apply Hn. unfold is_ino in *. by rewrite <-(bt_sb _ _ _ T).
  - apply T.
  - apply T.
  - destruct (bt_free _ _ _ T) as [-> _]. lia.
  - apply T.
  - intros b Hb Hm. apply (bt_disk _ _ _ T); [done|]. intros ->. pose proof (bt_data _ _ _ T) as Hdt. unfold is_data in Hdt. lia.
  - intros b Hb. apply (live_taken _ _ _ _ T). by left.
Qed.

(** Writing a block that is in use. *)
Lemma bwrite_live y b v :
  fs_ok y → live y b → map_ok v →
  bwrite b v y = with_disk (<[b := v]> (disk y)) y ∧ fs_ok (bwrite b v y) ∧ (∀ c, live (bwrite b v y) c ↔ live y c) ∧
  (∀ i, is_ino y i → ino_used (bwrite b v y) i = ino_used y i).
Proof.
  intros F Hb Hv. destruct (live_facts y b F Hb) as [Hr Hm]. rewrite bwrite_in by (done || lia).
  destruct (fs_ok_write y b v F Hm Hv) as (F1 & U1 & V1). split; [done|]. split; [done|]. split; [|done].
  intros c. unfold live. split; intros [Hd Hu]; (split; [done|]); [rewrite <-U1|rewrite U1]; done.
Qed.

(** A null pointer of a table gets the block. *)
Lemma grow_child y nodes r y' k path i table' :
  files_ok y nodes → ¬ oom y → block_taken y r y' → valid lvl k (path ++ [i]) →
  fwalk y nodes k path ≠ 0 → fwalk y nodes k (path ++ [i]) = 0 → map_ok table' →
  (∀ j, 0 ≤ j < 1024 → word table' j = if decide (j = i) then r else word (default [] (disk y !! fwalk y nodes k path)) j) →
  let y2 := bwrite (fwalk y nodes k path) table' y' in
  grown 1 y nodes y2 nodes ∧ fwalk y2 nodes k (path ++ [i]) = r.
Proof.
  intros [F Fo Fn] Ho T Hv Hne Hz Hok Hw y2. destruct (taken_facts _ _ _ F Ho T) as (Hnz & Hfresh & Hzero & Hd).
  set (p := fwalk y nodes k path) in *. pose proof (valid_snoc lvl k path i) as Hvs. destruct (proj1 Hvs Hv) as (Hvp & Hi & Hlen).
  assert (live y p) as Hlp by (by apply (fo_live _ _ _ _ Fo)).
  destruct (bwrite_live y' p table') as (E2 & F2 & Hlive2 & Hino2); [apply T|apply (live_taken _ _ _ _ T); by left|done|]. fold y2 in E2, F2, Hlive2, Hino2.
  assert (r ≠ p) as Hrp by (intros ->; done).
  assert (sb y2 = sb y) as Hsb by (rewrite E2; apply T).
  assert (∀ c, live y c → c ≠ p → disk y2 !! c = disk y !! c) as Hd2 by (intros c Hc Hcp; rewrite E2; cbn; rewrite lookup_insert_ne by done; by apply Hd).
  assert (disk y2 !! r = Some (replicate 4096 0)) as Hr2 by (rewrite E2; cbn; by rewrite lookup_insert_ne by done).
  assert (planted lvl (disk y) (roots (total_inodes (sb y)) nodes) (disk y2) (roots (total_inodes (sb y)) nodes) k (path ++ [i]) r) as Hp.
  { eapply plant_child; try done. rewrite E2. apply lookup_insert_eq. }
  destruct (planted_leaf y nodes y2 nodes k (path ++ [i]) r) as [L1 W1]; [done..| |].
  { intros k' path' Hv' Hl' Hne'. apply Hd2; [by apply (fo_live _ _ _ _ Fo)|]. intros E.
    destruct (fo_inj _ _ _ _ Fo k' path' k path) as [-> ->]; try done. lia. }
  split; [|unfold fwalk; rewrite Hsb, Hp by done; by rewrite decide_True].
  assert (∀ b, live y2 b ↔ live y b ∨ b = r) as Hlive by (intros b; rewrite Hlive2; by apply live_taken).
  assert (forest_ok lvl (λ b, live y b ∨ b = r) (disk y2) (roots (total_inodes (sb y)) nodes)) as Fo'.
  { apply (forest_planted lvl (live y) (disk y) _ _ _ k (path ++ [i]) r Fo Hfresh Hnz Hz Hp). intros c Hc. apply Hlive, (live_facts _ _ F2) in Hc as [Hc _]. apply (f_disk _ F2). lia. }
  split; try done.
  - split; [done|rewrite Hsb; eapply forest_ext; [|exact Fo']; intros b; symmetry; by apply Hlive|].
    intros j Hj. apply Fn. unfold is_ino in *. by rewrite <-Hsb.
  - rewrite E2. apply T.
  - rewrite E2. cbn. destruct (bt_free _ _ _ T) as [-> _]. lia.
  - intros j Hj. rewrite Hino2; [by apply T|]. unfold is_ino in *. by rewrite (bt_sb _ _ _ T).
  - intros b Hb Hm. rewrite E2; cbn. destruct Hlp as [Hdp _]. unfold is_data in Hdp. rewrite lookup_insert_ne by lia.
    apply (bt_disk _ _ _ T); [done|]. intros ->. pose proof (bt_data _ _ _ T) as Hdt. unfold is_data in Hdt. lia.
  - intros b Hb. apply Hlive. by left.
Qed.

(** ** Descending *)

Lemma descend_lookup idxs ino y nodes k path :
  files_ok y nodes → fwalk y nodes k path ≠ 0 → valid lvl k (path ++ idxs) →
  ∃ r l, descend ino (fwalk y nodes k path) idxs false y = Ok (r, with_mem l y) ∧ (oom (with_mem l y) → oom y) ∧
    (r = fwalk y nodes k (path ++ idxs) ∨ r = 0 ∧ oom y).
Proof.
  revert y path. induction idxs as [|i idxs IH]; intros y path FO Hne Hv; cbn [descend].
  { exists (fwalk y nodes k path), (mem y). rewrite app_nil_r. split; [by destruct y|]. split; [by destruct y|by left]. }
  pose proof FO as [F Fo Fn]. assert (valid lvl k (path ++ [i])) as Hvi.
  { destruct Hv as [Hl Hf]. rewrite length_app in Hl. cbn in Hl. rewrite Forall_app, Forall_cons in Hf. split; [rewrite length_app; cbn; lia|].
    rewrite Forall_app, Forall_singleton. tauto. }
  destruct (proj1 (valid_snoc lvl k path i) Hvi) as (Hvp & Hi & Hlen).
  unfold table_step. destruct (kmalloc_cases y) as (ok & -> & Hok). cbv iota beta. destruct ok; cbn [negb].
  2: { cbn [mbind res_bind fst snd]. exists 0, (tl (mem y)). split; [done|]. split; [apply oom_tl|]. right. split; [done|by apply Hok]. }
  destruct (fo_blk _ _ _ _ Fo (fwalk y nodes k path)) as (table & Ht & Hto); [by apply Fo|].
  unfold bread. cbn [disk with_mem]. rewrite Ht. cbn [mbind res_bind]. rewrite rd32_ok by done. cbn [mbind res_bind].
  rewrite andb_false_r. cbn [mbind res_bind fst snd].
  assert (fwalk y nodes k (path ++ [i]) = word table i) as Ew.
  { unfold fwalk. rewrite walk_snoc. fold (fwalk y nodes k path). unfold child. case_if; [lia|]. by rewrite Ht. }
  rewrite <-Ew. cbn [negb]. rewrite andb_true_r. destruct (fwalk y nodes k (path ++ [i]) =? 0) eqn:E0.
  - exists 0, (tl (mem y)). split; [done|]. split; [apply oom_tl|]. left. replace (path ++ i :: idxs) with ((path ++ [i]) ++ idxs) by (by rewrite <-app_assoc).
    unfold fwalk in *. unfold walk in *. rewrite foldl_app. apply Z.eqb_eq in E0. rewrite E0. clear. induction idxs as [|j idxs IH]; [done|exact IH].
  - destruct (IH (with_mem (tl (mem y)) y) (path ++ [i])) as (r & l & Hd & Hm & Hr); [by apply grown_mem|change (fwalk y nodes k (path ++ [i]) ≠ 0); lia|by rewrite <-app_assoc|].
    exists r, l. split; [exact Hd|]. split; [by intros H; apply oom_tl, Hm|]. rewrite <-app_assoc in Hr. destruct Hr as [->|[-> Ho] ]; [by left|right; split; [done|by apply oom_tl] ].
Qed.

Lemma descend_grows idxs ino y nodes k path :
  files_ok y nodes → ¬ oom y → 0 ≤ ino → fwalk y nodes k path ≠ 0 → valid lvl k (path ++ idxs) → Z.of_nat (length idxs) ≤ global_free_blocks y →
  ∃ r y', descend ino (fwalk y nodes k path) idxs true y = Ok (r, y') ∧ grown (Z.of_nat (length idxs)) y nodes y' nodes ∧
    r ≠ 0 ∧ fwalk y' nodes k (path ++ idxs) = r.
Proof.
  revert y path. induction idxs as [|i idxs IH]; intros y path FO Ho Hino Hne Hv Hfree; cbn [descend].
  { exists (fwalk y nodes k path), y. rewrite app_nil_r. split; [done|]. split; [by apply grown_refl|done]. }
  pose proof FO as [F Fo Fn]. assert (valid lvl k (path ++ [i])) as Hvi.
  { destruct Hv as [Hl Hf]. rewrite length_app in Hl. cbn in Hl. rewrite Forall_app, Forall_cons in Hf. split; [rewrite length_app; cbn; lia|].
    rewrite Forall_app, Forall_singleton. tauto. }
  destruct (proj1 (valid_snoc lvl k path i) Hvi) as (Hvp & Hi & Hlen).
  assert (∃ v y1, table_step ino (fwalk y nodes k path) i true y = Ok (Some v, y1) ∧ grown 1 y nodes y1 nodes ∧ v ≠ 0 ∧ fwalk y1 nodes k (path ++ [i]) = v) as (v & y1 & -> & G1 & Hv0 & Hw1).
  2: { cbn [mbind res_bind fst snd negb]. rewrite andb_false_r. pose proof (gr_free _ _ _ _ _ G1) as Hg1. cbn [length] in *.
       destruct (IH y1 (path ++ [i])) as (r & y2 & Hd & G2 & Hr & Hw2); [apply G1|intros H; by apply Ho, (gr_mem _ _ _ _ _ G1)|done|by rewrite Hw1|by rewrite <-app_assoc|lia|].
       rewrite Hw1 in Hd. exists r, y2. split; [done|]. split; [|by rewrite <-app_assoc in Hw2].
       replace (Z.of_nat (S (length idxs))) with (1 + Z.of_nat (length idxs)) by lia. by eapply grown_trans. }
  unfold table_step. destruct (kmalloc_cases y) as (ok & -> & Hok). cbv iota beta. destruct ok; [|by destruct (Ho (Hok eq_refl))]. cbn [negb].
  pose proof (grown_mem y nodes FO) as G0. set (y0 := with_mem (tl (mem y)) y) in *.
  destruct (fo_blk _ _ _ _ Fo (fwalk y nodes k path)) as (table & Ht & Hto); [by apply Fo|].
  unfold bread. change (disk y0) with (disk y). rewrite Ht. cbn [mbind res_bind]. rewrite rd32_ok by done. cbn [mbind res_bind].
  assert (fwalk y nodes k (path ++ [i]) = word table i) as Ew.
  { unfold fwalk. rewrite walk_snoc. fold (fwalk y nodes k path). unfold child. case_if; [lia|]. by rewrite Ht. }
  rewrite andb_true_r. destruct (word table i =? 0) eqn:E0.
  - destruct (alloc_block_ok y0 ino) as (r & y1 & Ha & Hres); [apply G0|done|]. rewrite Ha. cbn [mbind res_bind fst snd].
    assert (¬ oom y0) as Ho0 by (intros H; by apply Ho, oom_tl). change (global_free_blocks y) with (global_free_blocks y0) in Hfree. cbn [length] in Hfree.
    destruct Hres as [T|(_ & _ & [H|H])]; [|lia|done].
    destruct (taken_facts _ _ _ (fl_fs _ _ (gr_files _ _ _ _ _ G0)) Ho0 T) as (Hnz & _).
    assert (is_u32 r) as Hru by (pose proof (bt_data _ _ _ T) as Hd; pose proof (f_layout _ F) as []; unfold is_data, is_u32 in *; cbn in *; lia).
    destruct (wr32_ok table i r Hto Hi Hru) as (table' & -> & Hto' & Hwords). cbn [mbind res_bind].
    destruct (grow_child y0 nodes r y1 k path i table') as [G1 Hw]; [apply G0|done|done|done|done|change (fwalk y nodes k (path ++ [i]) = 0); lia|done| |].
    { intros j Hj. change (fwalk y0 nodes k path) with (fwalk y nodes k path). change (disk y0) with (disk y). rewrite Ht. by apply Hwords. }
    eexists _, _. split; [done|]. split; [|split; [done|exact Hw] ]. apply (grown_trans 0 1 _ _ y0 nodes); done.
  - exists (word table i), y0. split; [done|]. split; [apply (grown_trans 0 1 _ _ y0 nodes); [done|apply grown_refl; [lia|apply G0] ]|]. split; [lia|exact Ew].
Qed.

(** ** The path of a block of a file *)

Definition MAX_FILE_BLOCKS : Z := 12 + 1024 + 1048576 + 1073741824.

Definition path_of (fb : Z) : Z * list Z :=
  if fb <? 12 then (fb, [])
  else if fb <? 1036 then (12, [fb - 12])
  else if fb <? 1049612 then (13, [(fb - 1036) / 1024; (fb - 1036) `mod` 1024])
  else let x := fb - 1049612 in (14, [x / 1048576; x `mod` 1048576 / 1024; (x `mod` 1048576) `mod` 1024]).

Lemma path_valid fb ino : 0 ≤ fb < MAX_FILE_BLOCKS →
  0 ≤ (path_of fb).1 < 15 ∧ valid lvl (ino, (path_of fb).1) (path_of fb).2 ∧ length (path_of fb).2 = lvl (ino, (path_of fb).1).
Proof.
  unfold MAX_FILE_BLOCKS, path_of. intros Hf. repeat case_if; cbn [fst snd]; unfold valid, lvl; cbn [snd length]; (split; [lia|]); (split; [split; [lia|]|lia]);
    repeat constructor; Z.to_euclidean_division_equations; lia.
Qed.

Lemma path_inj fb fb' : 0 ≤ fb < MAX_FILE_BLOCKS → 0 ≤ fb' < MAX_FILE_BLOCKS → path_of fb = path_of fb' → fb = fb'.
Proof.
  unfold MAX_FILE_BLOCKS, path_of. intros H H'. repeat case_if; intros Ep; simplify_eq; try lia; Z.to_euclidean_division_equations; lia.
Qed.

(** ** Root pointers *)

(** The same pointers, other fields. *)
Lemma grown_roots y nodes nodes' :
  files_ok y nodes → (∀ k, roots (total_inodes (sb y)) nodes' k = roots (total_inodes (sb y)) nodes k) → (∀ i, is_ino y i → inode_ok (nodes' i)) →
  grown 0 y nodes y nodes'.
Proof.
  intros [F Fo Fn] Hr Hn.
  assert (∀ k path, fwalk y nodes' k path = fwalk y nodes k path) as Hw by (intros; unfold fwalk, walk; by rewrite Hr).
  split; try done; [|lia|intros; unfold leaf; by rewrite Hw].
  split; [done| |done]. destruct Fo as [H1 H2 H3]. split; [|done|].
  - intros k path Hv. fold (fwalk y nodes' k path). rewrite Hw. by apply H1.
  - intros k path k' path' Hv Hv'. fold (fwalk y nodes' k path) (fwalk y nodes' k' path'). rewrite !Hw. by apply H3.
Qed.

Lemma roots_at total nodes ino slot : 0 ≤ ino < total → 0 ≤ slot < 15 → roots total nodes (ino, slot) = slot_ptr (nodes ino) slot.
Proof. intros. unfold roots; cbn. by repeat (case_if; try lia). Qed.

(** [f] stores a pointer in the slot. *)
Record stores (n : inode) (slot : Z) (f : Z → inode) : Prop := {
  st_slot p s : 0 ≤ s < 15 → slot_ptr (f p) s = if decide (s = slot) then p else slot_ptr n s;
  st_ok p : is_u32 p → inode_ok n → inode_ok (f p);
}.

Lemma roots_stores total nodes ino slot f p :
  stores (nodes ino) slot f → 0 ≤ ino < total → 0 ≤ slot < 15 →
  roots total (upd_node nodes ino (f p)) (ino, slot) = p ∧
  (∀ k, k ≠ (ino, slot) → roots total (upd_node nodes ino (f p)) k = roots total nodes k).
Proof.
  intros [Hs _] Hi Hsl. split.
  - rewrite roots_at by done. unfold upd_node. rewrite bool_decide_true, Hs, decide_True by done. done.
  - intros [i s] Hne. unfold roots; cbn. destruct ((0 <=? i) && (i <? total) && (0 <=? s) && (s <? 15)) eqn:E; [|done].
    unfold upd_node. case_bool_decide; [|done]. subst i. rewrite Hs by lia. rewrite decide_False; [done|]. intros ->. done.
Qed.

Lemma upd_node_ok y nodes ino n : (∀ i, is_ino y i → inode_ok (nodes i)) → inode_ok n → ∀ i, is_ino y i → inode_ok (upd_node nodes ino n i).
Proof. intros H Hn i Hi. unfold upd_node. case_bool_decide; [done|by apply H]. Qed.

Lemma slot_u32 n slot : inode_ok n → 0 ≤ slot < 15 → is_u32 (slot_ptr n slot).
Proof.
  intros [Hw Hd _] Hs. unfold slot_ptr. destruct (_ !! _) as [p|] eqn:E; [|done]. cbn.
  unfold inode_words in Hw. rewrite Forall_app in Hw. destruct Hw as [_ Hw]. by eapply Forall_lookup_1.
Qed.

Lemma root_grows hint y nodes ino slot f :
  files_ok y nodes → ¬ oom y → 0 ≤ hint → is_ino y ino → 0 ≤ slot < 15 → stores (nodes ino) slot f → 1 ≤ global_free_blocks y →
  ∃ p y', root_step hint (slot_ptr (nodes ino) slot) true y = Ok (Some p, y') ∧
    grown 1 y nodes y' (upd_node nodes ino (f p)) ∧ p ≠ 0 ∧ fwalk y' (upd_node nodes ino (f p)) (ino, slot) [] = p.
Proof.
  intros FO Ho Hh Hi Hs St Hfree. pose proof FO as [F Fo Fn]. unfold root_step.
  assert (roots (total_inodes (sb y)) nodes (ino, slot) = slot_ptr (nodes ino) slot) as Er by (by apply roots_at).
  destruct (slot_ptr (nodes ino) slot =? 0) eqn:E; cbn [negb].
  - destruct (alloc_block_ok y hint F Hh) as (r & y' & -> & [T|(_ & _ & [H|H])]); [|lia|done]. cbn [mbind res_bind fst snd].
    assert (is_u32 r) as Hru by (pose proof (bt_data _ _ _ T) as Hd; pose proof (f_layout _ F) as []; unfold is_data, is_u32 in *; lia).
    destruct (taken_facts _ _ _ F Ho T) as (Hnz & _). destruct (roots_stores (total_inodes (sb y)) nodes ino slot f r St Hi Hs) as [R1 R2].
    destruct (grow_root y nodes r y' (upd_node nodes ino (f r)) (ino, slot)) as [G Hw]; [done|done|done|rewrite Er; lia|done|done| |].
    { apply upd_node_ok; [done|]. apply St; [done|by apply Fn]. }
    by exists r, y'.
  - exists (slot_ptr (nodes ino) slot), y. split; [done|]. destruct (roots_stores (total_inodes (sb y)) nodes ino slot f (slot_ptr (nodes ino) slot) St Hi Hs) as [R1 R2].
    assert (grown 0 y nodes y (upd_node nodes ino (f (slot_ptr (nodes ino) slot)))) as G.
    { apply grown_roots; [done| |apply upd_node_ok; [done|]; apply St; [|by apply Fn]; apply slot_u32; [by apply Fn|done] ].
      intros k. destruct (decide (k = (ino, slot))) as [->|]; [by rewrite R1|by apply R2]. }
    split; [|split; [lia|exact R1] ]. destruct G as [? ? ? Hg]. split; try done. lia.
Qed.

Definition put_direct (i v : Z) (n : inode) : inode :=
  Inode (i_id n) (i_type n) (i_size n) (i_flags n) (i_created_at n) (i_modified_at n) (<[Z.to_nat i := v]> (i_direct n))
    (i_indirect n) (i_doubly_indirect n) (i_triply_indirect n) (i_padding n).

Lemma set_direct_ok n i v : inode_ok n → 0 ≤ i < 12 → set_direct i v n = Ok (put_direct i v n).
Proof. intros [_ Hd _] Hi. unfold set_direct. rewrite arr_set_ok by lia. done. Qed.

Lemma stores_direct n i : inode_ok n → 0 ≤ i < 12 → stores n i (λ p, put_direct i p n).
Proof.
  intros Hok Hi. pose proof (in_direct _ Hok) as Hd. split.
  - intros p s Hs. unfold slot_ptr; cbn [i_direct i_indirect i_doubly_indirect i_triply_indirect put_direct]. case_decide as E.
    + subst s. rewrite lookup_app_l by (rewrite length_insert; lia). rewrite list_lookup_insert_eq by lia. done.
    + f_equal. destruct (decide (s < 12)).
      * rewrite !lookup_app_l by (rewrite ?length_insert; lia). by rewrite list_lookup_insert_ne by lia.
      * rewrite !lookup_app_r by (rewrite ?length_insert; lia). by rewrite length_insert.
  - intros p Hp [Hw _ Hpad]. split; [|cbn; by rewrite length_insert|done]. unfold inode_words in *. rewrite !Forall_app in Hw. destruct Hw as (? & ? & ?).
    cbn. rewrite !Forall_cons in *. repeat (split; [tauto|]). rewrite Forall_app. split; [by apply Forall_insert|rewrite !Forall_cons; tauto].
Qed.

Lemma stores_table n slot f :
  inode_ok n → (slot = 12 ∧ f = (λ p, set_indirect p n) ∨ slot = 13 ∧ f = (λ p, set_doubly p n) ∨ slot = 14 ∧ f = (λ p, set_triply p n)) → stores n slot f.
Proof.
  intros Hok Hf. pose proof (in_direct _ Hok) as Hd. split.
  - intros p s Hs. destruct (decide (s < 12)) as [Hlt|Hlt].
    + rewrite decide_False by lia. unfold slot_ptr.
      destruct Hf as [ [_ ->] | [ [_ ->] | [_ ->] ] ]; cbn; rewrite !lookup_app_l by lia; done.
    + assert (s = 12 ∨ s = 13 ∨ s = 14) as Hs3 by lia. unfold slot_ptr.
      destruct Hf as [ [-> ->] | [ [-> ->] | [-> ->] ] ]; cbn; rewrite !lookup_app_r by lia; rewrite Hd;
        destruct Hs3 as [-> | [-> | ->] ]; done.
  - intros p Hp [Hw Hd' Hpad]. unfold inode_words in Hw. rewrite !Forall_app, !Forall_cons in Hw.
    destruct Hf as [ [_ ->] | [ [_ ->] | [_ ->] ] ]; (split; [|done|done]); unfold inode_words; cbn; rewrite !Forall_cons, Forall_app, !Forall_cons; tauto.
Qed.

Lemma slot_direct n i : inode_ok n → 0 ≤ i < 12 → arr_get (i_direct n) i = Ok (slot_ptr n i).
Proof.
  intros Hok Hi. pose proof (in_direct _ Hok) as Hd. destruct (lookup_lt_is_Some_2 (i_direct n) (Z.to_nat i)) as [p Hp]; [lia|].
  rewrite (arr_get_ok _ _ p) by (done || lia). unfold slot_ptr. rewrite lookup_app_l by lia. by rewrite Hp.
Qed.

Lemma slot_table n : inode_ok n → slot_ptr n 12 = i_indirect n ∧ slot_ptr n 13 = i_doubly_indirect n ∧ slot_ptr n 14 = i_triply_indirect n.
Proof. intros Hok. pose proof (in_direct _ Hok) as Hd. unfold slot_ptr. rewrite !lookup_app_r by lia. by rewrite Hd. Qed.

(** The same file otherwise. *)
Definition same_meta (n n' : inode) : Prop :=
  i_id n' = i_id n ∧ i_type n' = i_type n ∧ i_size n' = i_size n ∧ i_flags n' = i_flags n.

(** Allocation at the root, then down the tables. *)
Lemma branch_grows hint y nodes ino slot idxs f :
  files_ok y nodes → ¬ oom y → 0 ≤ hint → is_ino y ino → 0 ≤ slot < 15 → stores (nodes ino) slot f →
  valid lvl (ino, slot) idxs → (length idxs ≤ 3)%nat → 4 ≤ global_free_blocks y →
  ∃ p y1 r y', root_step hint (slot_ptr (nodes ino) slot) true y = Ok (Some p, y1) ∧ descend hint p idxs true y1 = Ok (r, y') ∧
    grown 4 y nodes y' (upd_node nodes ino (f p)) ∧ r ≠ 0 ∧ fwalk y' (upd_node nodes ino (f p)) (ino, slot) idxs = r.
Proof.
  intros FO Ho Hh Hi Hs St Hv Hlen Hfree. destruct (root_grows hint y nodes ino slot f) as (p & y1 & Hr & G1 & Hp & Hw); [done..|lia|].
  pose proof (gr_free _ _ _ _ _ G1) as Hf1. destruct (descend_grows idxs hint y1 (upd_node nodes ino (f p)) (ino, slot) []) as (r & y' & Hd & G2 & Hnz & Hw2);
    [apply G1|intros H; by apply Ho, (gr_mem _ _ _ _ _ G1)|done|by rewrite Hw|done|lia|].
  rewrite Hw in Hd. exists p, y1, r, y'. split; [done|]. split; [done|]. split; [|done].
  destruct (grown_trans _ _ _ _ _ _ _ _ G1 G2) as [? ? ? Hg]. split; try done. lia.
Qed.

(** With allocation: the block of the file exists afterwards, and no file has
    changed. *)
Lemma resolve_grows hint y nodes ino fb :
  files_ok y nodes → ¬ oom y → 0 ≤ hint → is_ino y ino → 0 ≤ fb < MAX_FILE_BLOCKS → 4 ≤ global_free_blocks y →
  ∃ r n' y', resolve_block_for_inode hint (nodes ino) fb true y = Ok (r, n', y') ∧ grown 4 y nodes y' (upd_node nodes ino n') ∧
    r ≠ 0 ∧ fwalk y' (upd_node nodes ino n') (ino, (path_of fb).1) (path_of fb).2 = r ∧ same_meta (nodes ino) n'.
Proof.
  intros FO Ho Hh Hi Hfb Hfree. pose proof (fl_node _ _ FO ino Hi) as Hok. destruct (path_valid fb ino Hfb) as (Hslot & Hv & Hlen).
  destruct (slot_table _ Hok) as (E12 & E13 & E14). unfold resolve_block_for_inode. cbv zeta.
  change YFS_DIRECT_PTRS with 12. change PTRS_PER_BLOCK with 1024. change (1024 * 1024) with 1048576. change (1048576 * 1024) with 1073741824.
  unfold path_of, MAX_FILE_BLOCKS in *. repeat case_if; cbn [fst snd] in *; try (exfalso; lia).
  - rewrite slot_direct by (done || lia). cbn [mbind res_bind].
    destruct (branch_grows hint y nodes ino fb [] (λ p, put_direct fb p (nodes ino))) as (p & y1 & r & y' & -> & Hd & G & Hr & Hw); [done..|apply stores_direct; [done|lia]|done|cbn; lia|done|].
    cbn [mbind res_bind fst snd]. rewrite set_direct_ok by (done || lia). cbn [mbind res_bind]. injection Hd as -> ->. by eexists _, _, _.
  - destruct (branch_grows hint y nodes ino 12 [fb - 12] (λ p, set_indirect p (nodes ino))) as (p & y1 & r & y' & Hr1 & Hd & G & Hr & Hw);
      [done..|apply stores_table; [done|by left]|done|cbn; lia|done|].
    rewrite <-E12, Hr1. cbn [mbind res_bind fst snd]. rewrite Hd. cbn [mbind res_bind fst snd]. by eexists _, _, _.
  - destruct (branch_grows hint y nodes ino 13 [(fb - 1036) / 1024; (fb - 1036) `mod` 1024] (λ p, set_doubly p (nodes ino))) as (p & y1 & r & y' & Hr1 & Hd & G & Hr & Hw);
      [done..|apply stores_table; [done|right; by left]|done|cbn; lia|done|].
    rewrite <-E13, Hr1. cbn [mbind res_bind fst snd]. replace (fb - 12 - 1024) with (fb - 1036) by lia. rewrite Hd. cbn [mbind res_bind fst snd]. by eexists _, _, _.
  - set (x := fb - 1049612) in *.
    destruct (branch_grows hint y nodes ino 14 [x / 1048576; x `mod` 1048576 / 1024; (x `mod` 1048576) `mod` 1024] (λ p, set_triply p (nodes ino))) as (p & y1 & r & y' & Hr1 & Hd & G & Hr & Hw);
      [done..|apply stores_table; [done|by right; right]|done|cbn; lia|done|].
    rewrite <-E14, Hr1. cbn [mbind res_bind fst snd]. replace (fb - 12 - 1024 - 1048576) with x by (unfold x; lia). rewrite Hd. cbn [mbind res_bind fst snd]. by eexists _, _, _.
Qed.

(** ** Without allocation *)

Lemma walk_null y nodes k path : fwalk y nodes k [] = 0 → fwalk y nodes k path = 0.
Proof.
  unfold fwalk, walk. cbn. intros ->. induction path as [|i path IH]; [done|]. exact IH.
Qed.

(** The state but for the buffers that were taken. *)
Definition reads (y : yfs) (r target : Z) (l : list bool) : Prop :=
  (oom (with_mem l y) → oom y) ∧ (r = target ∨ r = 0 ∧ oom y).

Lemma branch_lookup hint y nodes ino slot idxs :
  files_ok y nodes → is_ino y ino → 0 ≤ slot < 15 → valid lvl (ino, slot) idxs →
  slot_ptr (nodes ino) slot = 0 ∧ fwalk y nodes (ino, slot) idxs = 0 ∧ root_step hint (slot_ptr (nodes ino) slot) false y = Ok (None, y) ∨
  root_step hint (slot_ptr (nodes ino) slot) false y = Ok (Some (slot_ptr (nodes ino) slot), y) ∧
  ∃ r l, descend hint (slot_ptr (nodes ino) slot) idxs false y = Ok (r, with_mem l y) ∧ reads y r (fwalk y nodes (ino, slot) idxs) l.
Proof.
  intros FO Hi Hs Hv. assert (fwalk y nodes (ino, slot) [] = slot_ptr (nodes ino) slot) as E by (unfold fwalk, walk; cbn; by apply roots_at).
  unfold root_step. destruct (slot_ptr (nodes ino) slot =? 0) eqn:E0; [left|right].
  - apply Z.eqb_eq in E0. split; [done|]. split; [apply walk_null; by rewrite E|done].
  - split; [done|]. destruct (descend_lookup idxs hint y nodes (ino, slot) [] FO) as (r & l & Hd & Hm & Hr); [rewrite E; lia|done|].
    rewrite E in Hd. exists r, l. split; [done|]. split; [done|exact Hr].
Qed.

Lemma inode_eta n : set_indirect (i_indirect n) n = n ∧ set_doubly (i_doubly_indirect n) n = n ∧ set_triply (i_triply_indirect n) n = n.
Proof. by destruct n. Qed.

Lemma put_direct_id n i : inode_ok n → 0 ≤ i < 12 → put_direct i (slot_ptr n i) n = n.
Proof.
  intros Hok Hi. pose proof (in_direct _ Hok) as Hd. destruct (lookup_lt_is_Some_2 (i_direct n) (Z.to_nat i)) as [p Hp]; [lia|].
  unfold put_direct, slot_ptr. rewrite lookup_app_l by lia. rewrite Hp. cbn. rewrite list_insert_id by done. by destruct n.
Qed.

Lemma resolve_lookup hint y nodes ino fb :
  files_ok y nodes → is_ino y ino → 0 ≤ fb < MAX_FILE_BLOCKS →
  ∃ r l, resolve_block_for_inode hint (nodes ino) fb false y = Ok (r, nodes ino, with_mem l y) ∧
    reads y r (fwalk y nodes (ino, (path_of fb).1) (path_of fb).2) l.
Proof.
  intros FO Hi Hfb. pose proof (fl_node _ _ FO ino Hi) as Hok. destruct (path_valid fb ino Hfb) as (Hslot & Hv & Hlen).
  destruct (slot_table _ Hok) as (E12 & E13 & E14). destruct (inode_eta (nodes ino)) as (T12 & T13 & T14).
  assert (with_mem (mem y) y = y) as Ey by (by destruct y).
  assert (∀ r, reads y r r (mem y)) as Hrefl by (intros r; split; [by rewrite Ey|by left]).
  unfold resolve_block_for_inode. cbv zeta.
  change YFS_DIRECT_PTRS with 12. change PTRS_PER_BLOCK with 1024. change (1024 * 1024) with 1048576. change (1048576 * 1024) with 1073741824.
  unfold path_of, MAX_FILE_BLOCKS in *. repeat case_if; cbn [fst snd] in *; try (exfalso; lia).
  - rewrite slot_direct by (done || lia). cbn [mbind res_bind].
    destruct (branch_lookup hint y nodes ino fb [] FO Hi) as [(Hz & Hw & ->)|(-> & r & l & Hd & Hr)]; [done|done|..]; cbn [mbind res_bind fst snd].
    + exists 0, (mem y). rewrite Ey, Hw. done.
    + rewrite set_direct_ok, put_direct_id by (done || lia). cbn [mbind res_bind]. injection Hd as -> Hy. eexists _, l. by rewrite <-Hy.
  - rewrite <-E12. destruct (branch_lookup hint y nodes ino 12 [fb - 12] FO Hi) as [(Hz & Hw & ->)|(-> & r & l & Hd & Hr)]; [done|done|..]; cbn [mbind res_bind fst snd].
    + exists 0, (mem y). rewrite Ey, Hw. done.
    + rewrite Hd. cbn [mbind res_bind fst snd]. rewrite E12, T12. by exists r, l.
  - rewrite <-E13. replace (fb - 12 - 1024) with (fb - 1036) by lia.
    destruct (branch_lookup hint y nodes ino 13 [(fb - 1036) / 1024; (fb - 1036) `mod` 1024] FO Hi) as [(Hz & Hw & ->)|(-> & r & l & Hd & Hr)]; [done|done|..]; cbn [mbind res_bind fst snd].
    + exists 0, (mem y). rewrite Ey, Hw. done.
    + rewrite Hd. cbn [mbind res_bind fst snd]. rewrite E13, T13. by exists r, l.
  - rewrite <-E14. replace (fb - 12 - 1024 - 1048576) with (fb - 1049612) by lia. set (x := fb - 1049612) in *.
    destruct (branch_lookup hint y nodes ino 14 [x / 1048576; x `mod` 1048576 / 1024; (x `mod` 1048576) `mod` 1024] FO Hi) as [(Hz & Hw & ->)|(-> & r & l & Hd & Hr)]; [done|done|..]; cbn [mbind res_bind fst snd].
    + exists 0, (mem y). rewrite Ey, Hw. done.
    + rewrite Hd. cbn [mbind res_bind fst snd]. rewrite E14, T14. by exists r, l.
Qed.
