(* ===== verification/YfsFile.v ===== *)
(** * YulaFS: reading and writing files

    [read], [write], [append], [resize] and [stat] of [src/src/fs/yulafs.cpp] on
    CPU [cpu], each under the lock of the inode and so one step.  [scratch] is
    the block buffer of the call with whatever an earlier one left in it; the
    read-ahead only fills the block cache and is left out. *)

From S2P Require Import Prelude Bdev YfsBitmap YfsWords Yfs YfsAlloc YfsOps YfsVolume YfsInode YfsForest YfsBlockMap.

(** [while (read_count < size)]; the result, the destination, the state. *)
Fixpoint read_loop (fuel : nat) (node : inode) (offset size read_count last_prefetched : Z) (buf scratch : buffer) (y : yfs) : res (Z * buffer * yfs) :=
  if negb (read_count <? size) then Ok (read_count, buf, y)
  else
    match fuel with
    | O => Timeout
    | S fuel =>
        let log_blk := u32 (offset + read_count) / YFS_BLOCK_SIZE in
        let blk_off := u32 (offset + read_count) `mod` YFS_BLOCK_SIZE in
        r ← resolve_block node log_blk false y;
        let phys_blk := r.1.1 in
        let y := r.2 in
        let copy_len := YFS_BLOCK_SIZE - blk_off in
        let copy_len := if size - read_count <? copy_len then size - read_count else copy_len in
        if (YFS_BLOCK_SIZE <? copy_len) || (size - read_count <? copy_len) then Ok (-1, buf, y)
        else if negb (phys_blk =? 0) then
          match disk y !! phys_blk with
          | None => Ok (-1, buf, y)
          | Some data =>
              if (blk_off =? 0) && (copy_len =? YFS_BLOCK_SIZE) then
                buf ← arr_blit buf read_count data;
                p ← (if negb (log_blk =? last_prefetched) then resolve_block node (u32 (log_blk + 1)) false y else Ok (0, node, y));
                read_loop fuel node offset size (read_count + copy_len) log_blk buf scratch p.2
              else if (size <? read_count + copy_len) || (YFS_BLOCK_SIZE <? blk_off + copy_len) then Ok (-1, buf, y)
              else
                src ← arr_slice data blk_off copy_len;
                buf ← arr_blit buf read_count src;
                p ← (if negb (log_blk =? last_prefetched) then resolve_block node (u32 (log_blk + 1)) false y else Ok (0, node, y));
                read_loop fuel node offset size (read_count + copy_len) log_blk buf data p.2
          end
        else
          buf ← arr_blit buf read_count (replicate (Z.to_nat copy_len) 0);
          read_loop fuel node offset size (read_count + copy_len) last_prefetched buf scratch y
    end.

Definition read (fs_mounted : bool) (cpu ino : Z) (buf : buffer) (offset size : Z) (scratch : buffer) (s : fsys) : res (Z * buffer * fsys) :=
  if negb fs_mounted then Ok (-1, buf, s)
  else if size =? 0 then Ok (0, buf, s)
  else if 0xFFFFFFFF - size <? offset then Ok (-1, buf, s)
  else
    r ← sync_inode cpu ino no_inode false s;
    let '(ok, node, s) := r in
    if negb (ok : bool) then Ok (-1, buf, s)
    else if i_size node <=? offset then Ok (0, buf, s)
    else
      let size := if i_size node <? offset + size then i_size node - offset else size in
      q ← read_loop (Z.to_nat size) node offset size 0 0xFFFFFFFF buf scratch (fs s);
      Ok (s32 q.1.1, q.1.2, with_fs q.2 s).

(** How the loop of a write ends: it ran to its end or broke out, or it returned
    in the middle. *)
Inductive wloop := WDone (written : Z) (dirty blocks_allocated : bool) (node : inode) (y : yfs) | WReturn (rc : Z) (y : yfs).

Definition early (written : Z) (y : yfs) : wloop := WReturn (if 0 <? written then s32 written else -1) y.

Fixpoint write_loop (fuel : nat) (node : inode) (buf : buffer) (offset size written : Z) (dirty blocks_allocated : bool) (scratch : buffer) (y : yfs) : res wloop :=
  if negb (written <? size) then Ok (WDone written dirty blocks_allocated node y)
  else
    match fuel with
    | O => Timeout
    | S fuel =>
        let log_blk := u32 (offset + written) / YFS_BLOCK_SIZE in
        let blk_off := u32 (offset + written) `mod` YFS_BLOCK_SIZE in
        r ← resolve_block node log_blk true y;
        let '(phys_blk, node, y) := r in
        if phys_blk =? 0 then Ok (WDone written dirty blocks_allocated node y)
        else
          let copy_len := YFS_BLOCK_SIZE - blk_off in
          let copy_len := if size - written <? copy_len then size - written else copy_len in
          if (YFS_BLOCK_SIZE <? copy_len) || (size - written <? copy_len) then Ok (early written y)
          else
            match (if copy_len <? YFS_BLOCK_SIZE then disk y !! phys_blk else Some scratch) with
            | None => Ok (early written y)
            | Some scratch =>
                if (size <? written + copy_len) || (YFS_BLOCK_SIZE <? blk_off + copy_len) then Ok (early written y)
                else
                  src ← arr_slice buf written copy_len;
                  scratch ← arr_blit scratch blk_off src;
                  write_loop fuel node buf offset size (written + copy_len) true true scratch (bwrite phys_blk scratch y)
            end
    end.

Definition yulafs_write_locked (cpu ino : Z) (node : inode) (buf : buffer) (offset size : Z) (scratch : buffer) (s : fsys) : res (Z * fsys) :=
  w ← write_loop (Z.to_nat size) node buf offset size 0 false false scratch (fs s);
  match w with
  | WReturn rc y => Ok (rc, with_fs y s)
  | WDone written dirty blocks_allocated node y =>
      let s := with_fs y s in
      let grow := i_size node <? u32 (offset + written) in
      let node := if grow then set_size (u32 (offset + written)) node else node in
      s ← (if dirty || grow then r ← sync_inode cpu ino node true s; Ok r.2 else Ok s);
      let s := if blocks_allocated then with_fs (flush_sb (fs s)) s else s in
      Ok (s32 written, s)
  end.

Definition write (fs_mounted : bool) (cpu ino : Z) (buf : buffer) (offset size : Z) (scratch : buffer) (s : fsys) : res (Z * fsys) :=
  if negb fs_mounted then Ok (-1, s)
  else if size =? 0 then Ok (0, s)
  else if 0xFFFFFFFF - size <? offset then Ok (-1, s)
  else
    r ← sync_inode cpu ino no_inode false s;
    let '(ok, node, s) := r in
    if negb (ok : bool) then Ok (-1, s)
    else yulafs_write_locked cpu ino node buf offset size scratch s.

(** The result with the offset of the append. *)
Definition append (fs_mounted : bool) (cpu ino : Z) (buf : buffer) (size : Z) (scratch : buffer) (s : fsys) : res (Z * option Z * fsys) :=
  if negb fs_mounted then Ok (-1, None, s)
  else if size =? 0 then Ok (0, Some 0, s)
  else
    r ← sync_inode cpu ino no_inode false s;
    let '(ok, node, s) := r in
    if negb (ok : bool) then Ok (-1, None, s)
    else
      let start := i_size node in
      q ← yulafs_write_locked cpu ino node buf start size scratch s;
      Ok (q.1, Some start, q.2).

(** [node] on the stack has the bytes [junk] until it is read. *)
Definition resize (cpu ino new_size : Z) (junk : inode) (s : fsys) : res fsys :=
  r ← sync_inode cpu ino junk false s;
  let '(_, node, s) := r in
  t ← (if (new_size <? i_size node) && (new_size =? 0) then
         t ← truncate_inode node (fs s); Ok (t.1, with_fs (flush_sb t.2) s)
       else Ok (node, s));
  r ← sync_inode cpu ino (set_size new_size t.1) true t.2;
  Ok r.2.

(** [stat(ino, out)], with what [out] held before. *)
Definition stat (cpu ino : Z) (out : inode) (s : fsys) : res (Z * inode * fsys) :=
  r ← sync_inode cpu ino out false s;
  Ok (0, r.1.2, r.2).

(** ** Deletion *)

Definition clear_inode_to_free (ino : Z) : inode := Inode ino YFS_TYPE_FREE 0 0 0 0 (replicate 12 0) 0 0 0 (replicate 44 0).

Definition inode_finalize_deferred_delete_locked (cpu ino : Z) (node : inode) (s : fsys) : res (Z * fsys) :=
  t ← truncate_inode node (fs s);
  r ← sync_inode cpu ino (clear_inode_to_free ino) true (with_fs t.2 s);
  y ← free_inode ino (fs r.2);
  Ok (0, with_fs (flush_sb y) r.2).

(** The flag is looked at again once the lock is held. *)
Definition inode_finalize_if_needed (cpu ino : Z) (s : fsys) : res (Z * fsys) :=
  r ← sync_inode cpu ino no_inode false s;
  let '(ok, node, s) := r in
  if negb (ok : bool) then Ok (-1, s)
  else if Z.land (i_flags node) YFS_INODE_F_DEFERRED_DELETE =? 0 then Ok (0, s)
  else
    r ← sync_inode cpu ino node false s;
    let '(ok, node, s) := r in
    if negb (ok : bool) then Ok (-1, s)
    else if Z.land (i_flags node) YFS_INODE_F_DEFERRED_DELETE =? 0 then Ok (0, s)
    else inode_finalize_deferred_delete_locked cpu ino node s.

(** ** Open files *)

(** The file system with [open_refs] of every inode. *)
Record opened := Opened { osys : fsys; open_refs : list Z }.

(** [inode_rt]: the counter of [ino]. *)
Definition inode_rt (ino : Z) (o : opened) : option Z :=
  if (ino =? 0) || (zlen (open_refs o) <=? ino) then None else open_refs o !! Z.to_nat ino.

Definition set_refs (ino v : Z) (o : opened) : opened := Opened (osys o) (<[Z.to_nat ino := v]> (open_refs o)).

Definition inode_get_open (ino : Z) (o : opened) : opened :=
  match inode_rt ino o with None => o | Some v => set_refs ino (u32 (v + 1)) o end.

Definition inode_put_open (ino : Z) (o : opened) : res (Z * opened) :=
  match inode_rt ino o with
  | None => Ok (0, o)
  | Some prev => if prev =? 0 then Panic else Ok (prev - 1, set_refs ino (u32 (prev - 1)) o)
  end.

Definition yulafs_inode_open (fs_mounted : bool) (ino : Z) (o : opened) : Z * opened :=
  if negb fs_mounted then (-1, o) else (0, inode_get_open ino o).

Definition yulafs_inode_close (fs_mounted : bool) (cpu ino : Z) (o : opened) : res (Z * opened) :=
  if negb fs_mounted then Ok (-1, o)
  else
    r ← inode_put_open ino o;
    let '(refs, o) := r in
    if refs =? 0 then q ← inode_finalize_if_needed cpu ino (osys o); Ok (q.1, Opened q.2 (open_refs o))
    else Ok (0, o).
