(* ===== verification/YfsBytes.v ===== *)
(** * YulaFS: files are arrays of bytes

    What [read], [write] and [append] do to the bytes of the files of a sound
    file system: [fbyte] is byte [pos] of file [ino], zero in a hole. *)

From S2P Require Import Prelude Bdev YfsBitmap YfsWords Yfs YfsAlloc YfsOps YfsVolume YfsInode YfsForest YfsBlockMap YfsResolve YfsFile.

Definition fleaf (y : yfs) (nodes : Z → inode) (ino fb : Z) : buffer := leaf y nodes (ino, (path_of fb).1) (path_of fb).2.
Definition fbyte (y : yfs) (nodes : Z → inode) (ino pos : Z) : Z := default 0 (fleaf y nodes ino (pos / 4096) !! Z.to_nat (pos `mod` 4096)).

(** Positions are 32-bit. *)
Lemma pos_block pos : is_u32 pos → 0 ≤ pos / 4096 < MAX_FILE_BLOCKS ∧ 0 ≤ pos / 4096 < 1048576 ∧ 0 ≤ pos `mod` 4096 < 4096.
Proof. unfold is_u32, MAX_FILE_BLOCKS. intros. Z.to_euclidean_division_equations. lia. Qed.

Lemma fleaf_ok y nodes ino fb : files_ok y nodes → 0 ≤ fb < MAX_FILE_BLOCKS → map_ok (fleaf y nodes ino fb).
Proof.
  intros [F Fo Fn] Hfb. unfold fleaf, leaf. cbv zeta. destruct (path_valid fb ino Hfb) as (_ & Hv & _).
  set (p := fwalk y nodes _ _). destruct (p =? 0) eqn:E; [apply map_ok_zeros|].
  destruct (fo_blk _ _ _ _ Fo p) as (buf & -> & ?); [apply (fo_live _ _ _ _ Fo); [done|fold (fwalk y nodes (ino, (path_of fb).1) (path_of fb).2); fold p; lia]|done].
Qed.

(** The bytes of file [ino] from [lo] on are [data]; nothing else has changed. *)
Record wrote (c : Z) (y : yfs) (nodes : Z → inode) (y' : yfs) (nodes' : Z → inode) (ino lo : Z) (data : list Z) : Prop := {
  wr_files : files_ok y' nodes';
  wr_sb : sb y' = sb y;
  wr_mem : oom y' → oom y;
  wr_free : global_free_blocks y - c ≤ global_free_blocks y' ≤ global_free_blocks y;
  wr_ino i : is_ino y i → ino_used y' i = ino_used y i;
  wr_disk b : b < data_start (sb y) → ¬ is_map y b → disk y' !! b = disk y !! b;
  wr_byte i pos : is_u32 pos → fbyte y' nodes' i pos =
    if decide (i = ino ∧ lo ≤ pos < lo + zlen data) then default 0 (data !! Z.to_nat (pos - lo)) else fbyte y nodes i pos;
}.

Lemma grown_wrote c y nodes y' nodes' ino lo : grown c y nodes y' nodes' → wrote c y nodes y' nodes' ino lo [].
Proof.
  intros [F S M C I D L W V]. split; try done. intros i pos Hp. destruct (pos_block pos Hp) as (Hb & _ & _).
  destruct (path_valid (pos / 4096) i Hb) as (_ & Hv & Hl). cbn [length].
  rewrite decide_False by lia. unfold fbyte, fleaf. by rewrite L.
Qed.

Lemma wrote_trans c1 c2 y1 n1 y2 n2 y3 n3 ino lo d1 d2 :
  wrote c1 y1 n1 y2 n2 ino lo d1 → wrote c2 y2 n2 y3 n3 ino (lo + zlen d1) d2 → wrote (c1 + c2) y1 n1 y3 n3 ino lo (d1 ++ d2).
Proof.
  intros [F1 S1 M1 C1 I1 D1 B1] [F2 S2 M2 C2 I2 D2 B2]. split; try done; [congruence|auto|lia| | |].
  - intros i Hi. rewrite I2, I1; [done|done|]. unfold is_ino in *. by rewrite S1.
  - intros b Hb Hm. rewrite D2, D1; [done|done|done|by rewrite S1|]. unfold is_map in *. by rewrite S1.
  - intros i pos Hp. rewrite B2, B1 by done. rewrite length_app. destruct (decide (i = ino)) as [->|]; [|by rewrite !decide_False by tauto].
    destruct (decide (lo ≤ pos < lo + zlen d1)).
    { rewrite decide_False, !decide_True by lia. by rewrite lookup_app_l by lia. }
    rewrite (decide_False (P := ino = ino ∧ lo ≤ pos < lo + zlen d1)) by tauto. destruct (decide (lo + zlen d1 ≤ pos < lo + zlen d1 + zlen d2)).
    { rewrite !decide_True by lia. rewrite lookup_app_r by lia. do 2 f_equal. lia. }
    by rewrite !decide_False by lia.
Qed.

(** Overwriting part of a block of the file that is there. *)
Lemma wrote_leaf y nodes ino fb off data buf :
  files_ok y nodes → 0 ≤ fb < 1048576 → is_ino y ino →
  let p := fwalk y nodes (ino, (path_of fb).1) (path_of fb).2 in
  p ≠ 0 → disk y !! p = Some buf → map_ok buf → 0 ≤ off → off + zlen data ≤ 4096 → Forall is_u8 data →
  wrote 0 y nodes (bwrite p (blit buf (Z.to_nat off) data) y) nodes ino (fb * 4096 + off) data.
Proof.
  intros FO Hfb Hi p Hp Hbuf [Hbl Hbu] Hoff Hlen Hdu. pose proof FO as [F Fo Fn].
  assert (0 ≤ fb < MAX_FILE_BLOCKS) as Hfb' by (unfold MAX_FILE_BLOCKS; lia).
  destruct (path_valid fb ino Hfb') as (Hs & Hv & Hl). assert (live y p) as Hlp by (by apply (fo_live _ _ _ _ Fo)).
  set (v := blit buf (Z.to_nat off) data).
  assert (map_ok v) as Hvok.
  { split; [unfold v; rewrite length_blit; lia|]. unfold v, blit. apply Forall_app. split; [by apply Forall_take|]. apply Forall_app. split; [done|by apply Forall_drop]. }
  destruct (bwrite_live y p v F Hlp Hvok) as (E & F' & Hlive & Hino). set (y' := bwrite p v y) in *.
  destruct (forest_leaf lvl (live y) (disk y) (roots (total_inodes (sb y)) nodes) _ _ v Fo Hv Hl Hp Hvok) as [Fo' Hw].
  assert (∀ k path, valid lvl k path → fwalk y' nodes k path = fwalk y nodes k path) as Hw' by (intros; rewrite E; by apply Hw).
  split; try done.
  - split; [done| |intros j Hj; apply Fn; by rewrite E in Hj]. rewrite E in *. eapply forest_ext; [|exact Fo']. intros b. symmetry. apply Hlive.
  - by rewrite E.
  - by rewrite E.
  - rewrite E. cbn. lia.
  - intros b Hb Hm. rewrite E. cbn. apply lookup_insert_ne. destruct Hlp as [Hd _]. unfold is_data in Hd. fold p. lia.
  - intros i pos Hpos. destruct (pos_block pos Hpos) as (Hb & Hb' & Hm). destruct (path_valid (pos / 4096) i Hb) as (_ & Hvi & Hli).
    unfold fbyte, fleaf, leaf. cbv zeta. rewrite Hw' by done. set (q := fwalk y nodes (i, _) _).
    destruct (decide (i = ino ∧ pos / 4096 = fb)) as [ [-> Eb]|Hne].
    + assert (q = p) as -> by (unfold q, p; by rewrite Eb). destruct (p =? 0) eqn:E0; [lia|]. rewrite Hbuf, E. cbn [disk with_disk]. fold p. rewrite lookup_insert_eq. cbn [default from_option id].
      unfold v. rewrite lookup_blit by lia.
      destruct (decide (ino = ino ∧ fb * 4096 + off ≤ pos < fb * 4096 + off + zlen data)) as [ [_ Hin]|Hin];
        [assert (fb * 4096 + off ≤ pos < fb * 4096 + off + zlen data) as Hin' by done|assert (¬ (fb * 4096 + off ≤ pos < fb * 4096 + off + zlen data)) as Hin' by tauto];
        clear Hin; repeat case_decide; try done; try (exfalso; Z.to_euclidean_division_equations; lia).
      do 2 f_equal. Z.to_euclidean_division_equations. lia.
    + rewrite decide_False by (intros [-> Hin]; apply Hne; split; [done|]; Z.to_euclidean_division_equations; lia).
      destruct (q =? 0) eqn:E0; [done|]. rewrite E. cbn [disk with_disk]. rewrite lookup_insert_ne; [done|].
      intros Epq. apply Hne. destruct (fo_inj _ _ _ _ Fo (ino, (path_of fb).1) (path_of fb).2 (i, (path_of (pos / 4096)).1) (path_of (pos / 4096)).2) as [Ek Ep]; [done..|].
      injection Ek as -> E1. split; [done|]. symmetry. apply path_inj; [done|done|]. destruct (path_of fb), (path_of (pos / 4096)). cbn in *. congruence.
Qed.

(** ** The loop of a write *)

Lemma fwalk_live y nodes k path r : files_ok y nodes → valid lvl k path → fwalk y nodes k path = r → r ≠ 0 → live y r.
Proof. intros [_ Fo _] Hv <- Hne. by apply (fo_live _ _ _ _ Fo). Qed.

(** Only the inode [ino] differs, and only in its pointers. *)
Definition same_but (ino : Z) (nodes nodes' : Z → inode) : Prop :=
  (∀ i, i ≠ ino → nodes' i = nodes i) ∧ same_meta (nodes ino) (nodes' ino).

Lemma same_but_trans ino n1 n2 n3 : same_but ino n1 n2 → same_but ino n2 n3 → same_but ino n1 n3.
Proof.
  intros [H1 (A1 & A2 & A3 & A4)] [H2 (B1 & B2 & B3 & B4)]. split; [intros i Hi; by rewrite H2, H1|].
  unfold same_meta. rewrite B1, B2, B3, B4. done.
Qed.

Lemma same_but_upd ino nodes n : same_meta (nodes ino) n → same_but ino nodes (upd_node nodes ino n) ∧ upd_node nodes ino n ino = n.
Proof.
  intros H. unfold upd_node. split; [split|by rewrite bool_decide_true].
  - intros i Hi. by rewrite bool_decide_false.
  - by rewrite bool_decide_true.
Qed.

(** The blocks that the bytes from [a] up to [b] touch. *)
Definition blocks_touched (a b : Z) : Z := if a <? b then (b - 1) / 4096 - a / 4096 + 1 else 0.

Lemma touched_step a n b : 0 ≤ a → a < b → n = Z.min (4096 - a `mod` 4096) (b - a) →
  blocks_touched (a + n) b = blocks_touched a b - 1 ∧ 0 ≤ blocks_touched (a + n) b.
Proof. unfold blocks_touched. intros. case_if; case_if; Z.to_euclidean_division_equations; lia. Qed.

Lemma copy_len_min a b : (if b <? a then b else a) = Z.min a b.
Proof. case_if; lia. Qed.

Lemma slice_split {A} (l : list A) a n m : slice l a (n + m) = slice l a n ++ slice l (a + n) m.
Proof. unfold slice. rewrite <-drop_drop. rewrite <-(take_take_drop (drop a l) n m). done. Qed.

Lemma write_loop_ok fuel y nodes ino buf offset size written dirty alloc scratch :
  files_ok y nodes → ¬ oom y → is_ino y ino → 0 ≤ i_id (nodes ino) → map_ok scratch → Forall is_u8 buf → size ≤ zlen buf →
  0 ≤ offset → offset + size ≤ 4294967295 → 0 ≤ written ≤ size → size - written ≤ Z.of_nat fuel →
  4 * blocks_touched (offset + written) (offset + size) ≤ global_free_blocks y →
  ∃ nodes' y', write_loop fuel (nodes ino) buf offset size written dirty alloc scratch y =
      Ok (WDone size (if written <? size then true else dirty) (if written <? size then true else alloc) (nodes' ino) y') ∧
    wrote (4 * blocks_touched (offset + written) (offset + size)) y nodes y' nodes' ino (offset + written)
      (slice buf (Z.to_nat written) (Z.to_nat (size - written))) ∧
    same_but ino nodes nodes'.
Proof.
  revert y nodes written dirty alloc scratch. induction fuel as [|fuel IH]; intros y nodes written dirty alloc scratch FO Ho Hi Hid Hsc Hbu Hbl Hoff Hmax Hw Hfuel Hfree.
  all: destruct (decide (written = size)) as [->|Hne];
    [exists nodes, y; split; [cbn [write_loop]; by rewrite Z.ltb_irrefl|]; split;
      [rewrite Z.sub_diag; unfold blocks_touched; rewrite Z.ltb_irrefl; apply grown_wrote, grown_refl; [done|done]|split; [done|done] ]|].
  { lia. }
  assert (is_u32 (offset + written)) as Hu by (unfold is_u32; lia). destruct (pos_block _ Hu) as (Hb1 & Hb2 & Hb3).
  cbn [write_loop]. rewrite (proj2 (Z.ltb_lt written size)) by lia. cbn [negb]. cbv zeta. rewrite u32_small by done.
  change YFS_BLOCK_SIZE with 4096. rewrite copy_len_min. set (n := Z.min (4096 - (offset + written) `mod` 4096) (size - written)).
  destruct (touched_step (offset + written) n (offset + size)) as [Ht Ht0]; [lia|lia|unfold n; lia|]. replace (offset + written + n) with (offset + (written + n)) in * by lia.
  unfold resolve_block. destruct (resolve_grows (i_id (nodes ino)) y nodes ino ((offset + written) / 4096)) as (r & n' & y1 & -> & G & Hr & Hwalk & Hmeta); [done..|lia|].
  cbn [mbind res_bind]. destruct (same_but_upd ino nodes n' Hmeta) as [SB En']. set (nodes1 := upd_node nodes ino n') in *.
  pose proof (gr_files _ _ _ _ _ G) as FO1. pose proof (gr_sb _ _ _ _ _ G) as Esb. assert (is_ino y1 ino) as Hi1 by (unfold is_ino in *; by rewrite Esb).
  destruct (r =? 0) eqn:Er; [lia|]. destruct ((4096 <? n) || (size - written <? n)) eqn:Eg; [exfalso; lia|].
  destruct (path_valid _ ino Hb1) as (_ & Hv & _). pose proof FO1 as [F1 Fo1 Fn1].
  destruct (fo_blk _ _ _ _ Fo1 r) as (blk & Hblk & Hbok); [by eapply fwalk_live|].
  rewrite Hblk. assert (∃ sc, (if n <? 4096 then Some blk else Some scratch) = Some sc ∧ map_ok sc ∧ (sc = blk ∨ n = 4096)) as (sc & -> & Hsc' & Hsceq).
  { case_if; [exists blk|exists scratch]; split; [done|split; [done|by left]|done|split; [done|right; unfold n in *; lia] ]. }
  destruct ((size <? written + n) || (4096 <? (offset + written) `mod` 4096 + n)) eqn:Eg2; [exfalso; lia|].
  rewrite arr_slice_ok by lia. cbn [mbind res_bind]. set (src := slice buf (Z.to_nat written) (Z.to_nat n)).
  assert (zlen src = n) as Hsl by (unfold src; rewrite length_slice; lia).
  assert (Forall is_u8 src) as Hsu by (unfold src, slice; by apply Forall_take, Forall_drop).
  rewrite arr_blit_ok by (destruct Hsc'; lia). cbn [mbind res_bind].
  assert (blit sc (Z.to_nat ((offset + written) `mod` 4096)) src = blit blk (Z.to_nat ((offset + written) `mod` 4096)) src) as ->.
  { destruct Hsceq as [->|E4096]; [done|]. assert ((offset + written) `mod` 4096 = 0) as -> by lia. change (Z.to_nat 0) with 0%nat. rewrite !blit_0.
    destruct Hsc', Hbok. rewrite !drop_ge by lia. done. }
  pose proof (wrote_leaf y1 nodes1 ino ((offset + written) / 4096) ((offset + written) `mod` 4096) src blk FO1 Hb2 Hi1) as W. cbv zeta in W. rewrite Hwalk in W.
  specialize (W Hr Hblk Hbok (proj1 Hb3) ltac:(lia) Hsu). replace ((offset + written) / 4096 * 4096 + (offset + written) `mod` 4096) with (offset + written) in W by (Z.to_euclidean_division_equations; lia).
  set (y2 := bwrite r _ y1) in *. pose proof (wrote_trans 4 0 y nodes y1 nodes1 y2 nodes1 ino (offset + written) [] src (grown_wrote _ _ _ _ _ ino (offset + written) G)) as W2.
  cbn [length app] in W2. rewrite Z.add_0_r in W2. specialize (W2 W).
  pose proof (wr_files _ _ _ _ _ _ _ _ W2) as FO2. pose proof (wr_free _ _ _ _ _ _ _ _ W2) as Hfr2. pose proof (wr_sb _ _ _ _ _ _ _ _ W2) as Esb2.
  rewrite <-En'. destruct (IH y2 nodes1 (written + n) true true (blit blk (Z.to_nat ((offset + written) `mod` 4096)) src)) as (nodes' & y' & Hloop & W3 & SB'); try done.
  - intros H. by apply Ho, (wr_mem _ _ _ _ _ _ _ _ W2).
  - unfold is_ino in *. by rewrite Esb2.
  - rewrite En'. destruct Hmeta as (-> & _). done.
  - split; [rewrite length_blit; destruct Hbok; lia|]. unfold blit. destruct Hbok. apply Forall_app. split; [by apply Forall_take|]. apply Forall_app. split; [done|by apply Forall_drop].
  - lia.
  - lia.
  - lia.
  - exists nodes', y'. split; [rewrite Hloop; by destruct (written + n <? size)|]. split; [|by eapply same_but_trans].
    replace (Z.to_nat (size - written)) with (Z.to_nat n + Z.to_nat (size - (written + n)))%nat by lia. rewrite slice_split.
    replace (Z.to_nat written + Z.to_nat n)%nat with (Z.to_nat (written + n)) by lia.
    replace (4 * blocks_touched (offset + written) (offset + size)) with (4 + 0 + 4 * blocks_touched (offset + (written + n)) (offset + size)) by lia.
    fold src. eapply wrote_trans; [exact W2|]. rewrite Hsl. replace (offset + written + n) with (offset + (written + n)) by lia. exact W3.
Qed.

(** ** The loop of a read *)

Lemma files_ok_mem y nodes l : files_ok y nodes → files_ok (with_mem l y) nodes.
Proof. intros [F Fo Fn]. split; [by apply fs_ok_mem|done|done]. Qed.

(** What a read of [n] bytes at [offset + rc] leaves in the destination. *)
Definition filled (y : yfs) (nodes : Z → inode) (ino offset lo hi : Z) (buf buf' : buffer) : Prop :=
  length buf' = length buf ∧
  ∀ i, 0 ≤ i < zlen buf → buf' !! Z.to_nat i = if decide (lo ≤ i < hi) then Some (fbyte y nodes ino (offset + i)) else buf !! Z.to_nat i.

Lemma filled_trans y nodes ino offset a b c buf1 buf2 buf3 :
  a ≤ b ≤ c → filled y nodes ino offset a b buf1 buf2 → filled y nodes ino offset b c buf2 buf3 → filled y nodes ino offset a c buf1 buf3.
Proof.
  intros Hab [L1 H1] [L2 H2]. split; [congruence|]. intros i Hi. rewrite H2, H1 by lia.
  destruct (decide (b ≤ i < c)), (decide (a ≤ i < b)), (decide (a ≤ i < c)); done || lia.
Qed.

Lemma filled_block y nodes ino offset rc n buf :
  files_ok y nodes → 0 ≤ offset → 0 ≤ rc → is_u32 (offset + rc) → 0 ≤ n ≤ 4096 - (offset + rc) `mod` 4096 → rc + n ≤ zlen buf →
  filled y nodes ino offset rc (rc + n) buf
    (blit buf (Z.to_nat rc) (slice (fleaf y nodes ino ((offset + rc) / 4096)) (Z.to_nat ((offset + rc) `mod` 4096)) (Z.to_nat n))).
Proof.
  intros FO Hoff Hrc Hu Hn Hlen. destruct (pos_block _ Hu) as (Hb1 & Hb2 & Hb3). destruct (fleaf_ok y nodes ino _ FO Hb1) as [Hl _].
  set (o := (offset + rc) `mod` 4096) in *. set (fl := fleaf _ _ _ _) in *.
  assert (length (slice fl (Z.to_nat o) (Z.to_nat n)) = Z.to_nat n) as Hsl by (rewrite length_slice; lia).
  split; [rewrite length_blit; lia|]. intros i Hi. rewrite lookup_blit by lia. rewrite Hsl. destruct (decide (rc ≤ i < rc + n)) as [Hin|Hin].
  - rewrite decide_True by lia. rewrite lookup_slice, decide_True by lia.
    assert ((offset + i) / 4096 = (offset + rc) / 4096 ∧ (offset + i) `mod` 4096 = o + (i - rc)) as [E1 E2] by (unfold o; Z.to_euclidean_division_equations; lia).
    unfold fbyte. rewrite E1, E2. fold fl. replace (Z.to_nat o + (Z.to_nat i - Z.to_nat rc))%nat with (Z.to_nat (o + (i - rc))) by lia.
    destruct (lookup_lt_is_Some_2 fl (Z.to_nat (o + (i - rc)))) as [v ->]; [lia|done].
  - repeat case_decide; done || lia.
Qed.

Lemma prefetch_ok y nodes ino fb (c : bool) :
  files_ok y nodes → is_ino y ino → 0 ≤ fb < 1048576 →
  ∃ p l, (if c then resolve_block (nodes ino) (u32 (fb + 1)) false y else Ok (0, nodes ino, y)) = Ok (p, with_mem l y) ∧ (oom (with_mem l y) → oom y).
Proof.
  intros FO Hi Hfb. destruct c.
  - rewrite u32_small by lia. destruct (resolve_lookup (i_id (nodes ino)) y nodes ino (fb + 1) FO Hi) as (r & l & Hr & Hm & _); [unfold MAX_FILE_BLOCKS; lia|].
    exists (r, nodes ino), l. done.
  - exists (0, nodes ino), (mem y). by destruct y.
Qed.

Lemma slice_all {A} (l : list A) n : length l = n → slice l 0 n = l.
Proof. intros <-. unfold slice. rewrite drop_0. by apply take_ge. Qed.

Lemma read_loop_ok fuel y nodes ino buf offset size rc last scratch :
  files_ok y nodes → ¬ oom y → is_ino y ino → 0 ≤ offset → offset + size ≤ 4294967295 → size ≤ zlen buf → 0 ≤ rc ≤ size → size - rc ≤ Z.of_nat fuel →
  ∃ l buf', read_loop fuel (nodes ino) offset size rc last buf scratch y = Ok (size, buf', with_mem l y) ∧ (oom (with_mem l y) → oom y) ∧
    filled y nodes ino offset rc size buf buf'.
Proof.
  revert y buf rc last scratch. induction fuel as [|fuel IH]; intros y buf rc last scratch FO Ho Hi Hoff Hmax Hlen Hrc Hfuel.
  all: destruct (decide (rc = size)) as [->|Hne];
    [exists (mem y), buf; split; [cbn [read_loop]; rewrite Z.ltb_irrefl; by destruct y|]; split; [by destruct y|]; split; [done|]; intros i Hj; by rewrite decide_False by lia|].
  { lia. }
  assert (is_u32 (offset + rc)) as Hu by (unfold is_u32; lia). destruct (pos_block _ Hu) as (Hb1 & Hb2 & Hb3).
  cbn [read_loop]. rewrite (proj2 (Z.ltb_lt rc size)) by lia. cbn [negb]. cbv zeta. rewrite u32_small by done.
  change YFS_BLOCK_SIZE with 4096. rewrite copy_len_min. set (n := Z.min (4096 - (offset + rc) `mod` 4096) (size - rc)).
  destruct (resolve_lookup (i_id (nodes ino)) y nodes ino ((offset + rc) / 4096) FO Hi Hb1) as (r & l & Hres & Hm & [Hr|[_ ?] ]); [|done].
  fold (resolve_block (nodes ino) ((offset + rc) / 4096) false y) in Hres. rewrite Hres.
  cbn [mbind res_bind fst snd]. destruct ((4096 <? n) || (size - rc <? n)) eqn:Eg; [exfalso; lia|].
  pose proof (files_ok_mem y nodes l FO) as FO1. destruct (fleaf_ok y nodes ino _ FO Hb1) as [Hfl _].
  pose proof (filled_block y nodes ino offset rc n buf FO Hoff ltac:(lia) Hu ltac:(lia) ltac:(lia)) as Hfill.
  assert (∀ last' scratch' l', (oom (with_mem l' y) → oom y) →
    ∃ l2 buf', read_loop fuel (nodes ino) offset size (rc + n) last' (blit buf (Z.to_nat rc) (slice (fleaf y nodes ino ((offset + rc) / 4096)) (Z.to_nat ((offset + rc) `mod` 4096)) (Z.to_nat n))) scratch' (with_mem l' y)
      = Ok (size, buf', with_mem l2 y) ∧ (oom (with_mem l2 y) → oom y) ∧ filled y nodes ino offset rc size buf buf') as Hgo.
  { intros last' scratch' l' Hl'. pose proof (proj1 Hfill) as Hlb. set (buf1 := blit buf _ _) in *.
    destruct (IH (with_mem l' y) buf1 (rc + n) last' scratch' (files_ok_mem y nodes l' FO)) as (l2 & buf' & Hloop & Hm2 & Hf2); [|done|done|done| | | |eexists l2, buf'; split; [exact Hloop|]; split; [|]].
    - intros H. by apply Ho, Hl'.
    - rewrite Hlb. done.
    - lia.
    - lia.
    - intros H. by apply Hl', Hm2.
    - eapply filled_trans; [|exact Hfill|exact Hf2]. lia. }
  unfold fleaf, leaf in Hgo, Hfl. cbv zeta in Hgo, Hfl. rewrite <-Hr in Hgo, Hfl. destruct (r =? 0) eqn:Er; cbn [negb].
  - rewrite arr_blit_ok by (rewrite ?length_replicate; lia). cbn [mbind res_bind].
    replace (replicate (Z.to_nat n) 0) with (slice (replicate 4096 0) (Z.to_nat ((offset + rc) `mod` 4096)) (Z.to_nat n))
      by (unfold slice; rewrite drop_replicate, take_replicate; f_equal; lia).
    by apply Hgo.
  - destruct (path_valid _ ino Hb1) as (_ & Hv & _).
    destruct (fo_blk _ _ _ _ (fl_forest _ _ FO) r) as (blk & Hblk & Hbl & _); [eapply fwalk_live; [done|done|done|lia]|].
    cbn [disk with_mem]. rewrite Hblk. rewrite Hblk in Hgo. cbn [default from_option id] in Hgo.
    destruct (prefetch_ok (with_mem l y) nodes ino ((offset + rc) / 4096) (negb ((offset + rc) / 4096 =? last)) FO1 Hi Hb2) as (p & l' & Hpre & Hml').
    assert (oom (with_mem l' y) → oom y) as Hml2 by (intros H; by apply Hm, Hml').
    destruct (((offset + rc) `mod` 4096 =? 0) && (n =? 4096)) eqn:Efull.
    + apply andb_true_iff in Efull as [E1 E2]. apply Z.eqb_eq in E1, E2. rewrite arr_blit_ok by lia. cbn [mbind res_bind]. rewrite Hpre. cbn [mbind res_bind snd].
      specialize (Hgo ((offset + rc) / 4096) scratch l' Hml2). rewrite E1, E2 in Hgo. change (Z.to_nat 0) with 0%nat in Hgo. rewrite slice_all in Hgo by (rewrite Hbl; lia).
      rewrite E2. exact Hgo.
    + destruct ((size <? rc + n) || (4096 <? (offset + rc) `mod` 4096 + n)) eqn:Eg2; [exfalso; lia|].
      rewrite arr_slice_ok by lia. cbn [mbind res_bind]. rewrite arr_blit_ok by (rewrite ?length_slice; lia). cbn [mbind res_bind]. rewrite Hpre. cbn [mbind res_bind snd].
      by apply Hgo.
Qed.
