(* ===== verification/YfsFiles.v ===== *)
(** * YulaFS: the files a program sees

    [read], [write] and [append] on a sound file system refine a map from inodes
    to a size and an array of bytes. *)

From S2P Require Import Prelude Bdev YfsBitmap YfsWords Yfs YfsAlloc YfsOps YfsVolume YfsInode YfsForest YfsBlockMap YfsResolve YfsFile YfsBytes.

(** ** Soundness of the whole *)

(** The file system, its files and the cache of CPU [cpu] with [k] stamps to go. *)
Record sys_ok (cpu k : Z) (s : fsys) : Prop := {
  ss_cpu : cpu_ok cpu k s;
  ss_files : files_ok (fs s) (inode_of (fs s));
}.

Definition byte_of (s : fsys) : Z → Z → Z := fbyte (fs s) (inode_of (fs s)).
Definition size_of (s : fsys) (ino : Z) : Z := i_size (inode_of (fs s) ino).

(** The data blocks and the pointers are the same. *)
Lemma files_frame y nodes y' nodes' :
  files_ok y nodes → fs_ok y' → total_inodes (sb y') = total_inodes (sb y) → (∀ b, live y' b ↔ live y b) → (∀ b, live y b → disk y' !! b = disk y !! b) →
  (∀ k, roots (total_inodes (sb y)) nodes' k = roots (total_inodes (sb y)) nodes k) → (∀ i, is_ino y i → inode_ok (nodes' i)) →
  files_ok y' nodes' ∧ ∀ i pos, is_u32 pos → fbyte y' nodes' i pos = fbyte y nodes i pos.
Proof.
  intros FO F' Et Hl Hd Hr Hn. pose proof (gr_files _ _ _ _ _ (grown_roots y nodes nodes' FO Hr Hn)) as [F Fo Fn].
  destruct (forest_frame lvl (live y) (disk y) (disk y') _ Fo Hd) as [Fo' Hw]. split.
  - split; [done|rewrite Et; eapply forest_ext; [|exact Fo']; intros b; by rewrite Hl|]. intros i Hi. apply Fn. unfold is_ino in *. by rewrite <-Et.
  - intros i pos Hp. destruct (pos_block pos Hp) as (Hb & _). destruct (path_valid (pos / 4096) i Hb) as (_ & Hv & _).
    set (k := (i, (path_of (pos / 4096)).1)) in *. set (path := (path_of (pos / 4096)).2) in *.
    assert (fwalk y' nodes' k path = fwalk y nodes' k path) as E1 by (unfold fwalk; rewrite Et; by apply Hw).
    assert (fwalk y nodes' k path = fwalk y nodes k path) as E2 by (unfold fwalk, walk; by rewrite Hr).
    unfold fbyte, fleaf, leaf. cbv zeta. fold k path. rewrite E1, E2. destruct (fwalk y nodes k path =? 0) eqn:E0; [done|]. rewrite Hd; [done|].
    eapply (fwalk_live y nodes); [done|done|done|lia].
Qed.

Lemma synced_live y y' b : synced y y' → (live y' b ↔ live y b).
Proof.
  intros S. unfold live, is_data. rewrite (sy_sb _ _ S). split; intros [Hd Hu]; (split; [done|]); [rewrite <-(sy_blk _ _ S)|rewrite (sy_blk _ _ S)]; done.
Qed.

Lemma synced_disk y y' b : synced y y' → live y b → disk y' !! b = disk y !! b.
Proof. intros S [Hd _]. apply (sy_disk _ _ S). unfold is_data in Hd. lia. Qed.

(** An inode was read or written; [nodes] are the inodes of the files. *)
Lemma files_synced y nodes y' :
  files_ok y nodes → synced y y' → (∀ i, is_ino y i → inode_of y' i = nodes i) →
  files_ok y' (inode_of y') ∧ ∀ i pos, is_u32 pos → fbyte y' (inode_of y') i pos = fbyte y nodes i pos.
Proof.
  intros FO S Hin. apply files_frame; [done|apply S|by rewrite (sy_sb _ _ S)|intros b; by apply synced_live|intros b; by apply synced_disk| |].
  - intros [i sl]. unfold roots; cbn. destruct ((0 <=? i) && (i <? total_inodes (sb y)) && (0 <=? sl) && (sl <? 15)) eqn:E; [|done].
    rewrite Hin; [done|]. unfold is_ino. lia.
  - intros i Hi. rewrite Hin by done. by apply (fl_node _ _ FO).
Qed.

(** The superblock goes to the disk. *)
Lemma flush_facts y :
  fs_ok y → fs_ok (flush_sb y) ∧ (∃ v, flush_sb y = with_disk (<[1 := v]> (disk y)) (with_sb (set_free (global_free_blocks y) (global_free_inodes y) (sb y)) y)) ∧
  (∀ b, live (flush_sb y) b ↔ live y b).
Proof.
  intros F. pose proof (f_layout _ F) as [L1 L2 L3 L4 L5 L6 L7 L8 L9]. unfold flush_sb. cbv zeta. set (y1 := with_sb _ y).
  pose proof (fs_ok_set_free (global_free_blocks y) (global_free_inodes y) y F) as F1. fold y1 in F1.
  rewrite (bwrite_in y1) by (done || (cbn; lia)).
  destruct (fs_ok_write y1 1 (sb_bytes (sb y1)) F1) as (F2 & U2 & V2); [unfold is_map; cbn; lia|apply sb_bytes_ok; apply L8|].
  split; [done|]. split; [by eexists|]. intros b. unfold live. split; intros [Hd Hu]; (split; [done|]); [exact (eq_trans (eq_sym (U2 b Hd)) Hu)|exact (eq_trans (U2 b Hd) Hu)].
Qed.

Lemma inode_of_flush y i : fs_ok y → is_ino y i → inode_of (flush_sb y) i = inode_of y i.
Proof.
  intros F Hi. destruct (flush_facts y F) as (_ & (v & ->) & _). unfold inode_of; cbn. pose proof (f_layout _ F) as [L1 L2 L3 L4 L5 L6 L7 L8 L9].
  unfold is_ino in Hi. pose proof (Z.div_pos i 32). rewrite lookup_insert_ne by lia. done.
Qed.

Lemma files_flush y :
  files_ok y (inode_of y) →
  files_ok (flush_sb y) (inode_of (flush_sb y)) ∧ ∀ i pos, is_u32 pos → fbyte (flush_sb y) (inode_of (flush_sb y)) i pos = fbyte y (inode_of y) i pos.
Proof.
  intros FO. pose proof (fl_fs _ _ FO) as F. destruct (flush_facts y F) as (F2 & (v & E) & Hl). pose proof (f_layout _ F) as [L1 L2 L3 L4 L5 L6 L7 L8 L9].
  apply files_frame; [done|done|by rewrite E|done| | |].
  - intros b [Hd _]. rewrite E. cbn. unfold is_data in Hd. apply lookup_insert_ne. lia.
  - intros [i sl]. unfold roots; cbn. destruct ((0 <=? i) && (i <? total_inodes (sb y)) && (0 <=? sl) && (sl <? 15)) eqn:Ek; [|done].
    rewrite inode_of_flush; [done|done|]. unfold is_ino. lia.
  - intros i Hi. rewrite inode_of_flush by done. by apply (fl_node _ _ FO).
Qed.

(** A change outside the inode table keeps the cache. *)
Lemma cpu_ok_frame cpu k s y :
  cpu_ok cpu k s → fs_ok y → inode_table_start (sb y) = inode_table_start (sb (fs s)) → data_start (sb y) = data_start (sb (fs s)) →
  total_inodes (sb y) = total_inodes (sb (fs s)) →
  (∀ b, inode_table_start (sb y) ≤ b < data_start (sb y) → disk y !! b = disk (fs s) !! b) → cpu_ok cpu k (with_fs y s).
Proof.
  intros [F Fit Hc (c & Hcc & C & Hk)] F' E1 E2 E3 Hd. split; cbn; [done| |done|].
  - intros i. rewrite E1, E2, E3. apply Fit.
  - exists c. split; [done|]. split; [|done]. destruct C as [C0 C1 C2 C3 C4 C5]. split; try done; [intros sl Hsl Hv; rewrite E1, E2; by apply C0|].
    intros sl Hsl Hv. rewrite Hd; [by apply C2|]. rewrite E1, E2. by apply C0.
Qed.

(** ** Reading *)

(** Nothing a program can see has changed. *)
Record kept (cpu k : Z) (s s' : fsys) : Prop := {
  kp_sys : sys_ok cpu k s';
  kp_mem : oom (fs s') → oom (fs s);
  kp_sb : sb (fs s') = sb (fs s);
  kp_free : global_free_blocks (fs s') = global_free_blocks (fs s);
  kp_inode i : is_ino (fs s) i → inode_of (fs s') i = inode_of (fs s) i;
  kp_byte i pos : is_u32 pos → byte_of s' i pos = byte_of s i pos;
  kp_live b : live (fs s') b ↔ live (fs s) b;
  kp_used i : is_ino (fs s) i → ino_used (fs s') i = ino_used (fs s) i;
  kp_walk key path : valid lvl key path → fwalk (fs s') (inode_of (fs s')) key path = fwalk (fs s) (inode_of (fs s)) key path;
  kp_disk b : is_data (fs s) b → disk (fs s') !! b = disk (fs s) !! b;
}.

Lemma synced_walk y y' key path :
  files_ok y (inode_of y) → synced y y' → (∀ i, is_ino y i → inode_of y' i = inode_of y i) → valid lvl key path →
  fwalk y' (inode_of y') key path = fwalk y (inode_of y) key path.
Proof.
  intros [F Fo Fn] Sy Hin Hv. destruct (forest_frame lvl (live y) (disk y) (disk y') _ Fo) as [_ Hw]; [intros b; by apply synced_disk|].
  unfold fwalk. rewrite <-(Hw key path Hv), (sy_sb _ _ Sy). unfold walk. f_equal. destruct key as [i sl]. unfold roots; cbn.
  destruct ((0 <=? i) && (i <? total_inodes (sb y)) && (0 <=? sl) && (sl <? 15)) eqn:E; [|done]. rewrite Hin; [done|]. unfold is_ino. lia.
Qed.

Lemma sync_read_ok cpu k ino data s :
  0 ≤ k → sys_ok cpu (k + 2) s → ¬ oom (fs s) → 0 < ino < total_inodes (sb (fs s)) →
  ∃ s', sync_inode cpu ino data false s = Ok (true, inode_of (fs s) ino, s') ∧ kept cpu k s s'.
Proof.
  intros Hk [CP FO] Ho Hi. destruct (sync_inode_ok cpu k ino data false s Hk CP Hi) as (ok & s' & Hs & Hok & CP' & Sy & Hin); [done|].
  destruct ok; [|by destruct (Ho (Hok eq_refl))]. cbn [andb negb] in Hs, Hin. exists s'. split; [done|].
  destruct (files_synced (fs s) (inode_of (fs s)) (fs s') FO Sy) as [FO' Hb]; [done|].
  split; [by split|apply Sy|apply Sy|apply Sy|done|exact Hb|intros b; by apply synced_live|apply Sy| |].
  - intros key path Hv. by apply synced_walk.
  - intros b Hd. apply (sy_disk _ _ Sy). unfold is_data in Hd. lia.
Qed.

Lemma kept_mem cpu k s l : sys_ok cpu k s → (oom (with_mem l (fs s)) → oom (fs s)) → kept cpu k s (with_fs (with_mem l (fs s)) s).
Proof.
  intros [CP FO] Hm. split; try done. split; [|by apply files_ok_mem]. apply cpu_ok_frame; try done. by apply fs_ok_mem, FO.
Qed.

Lemma kept_trans cpu k k' s1 s2 s3 : kept cpu k s1 s2 → kept cpu k' s2 s3 → kept cpu k' s1 s3.
Proof.
  intros [A1 A2 A3 A4 A5 A6 A7 A8 A9 A10] [B1 B2 B3 B4 B5 B6 B7 B8 B9 B10]. split; try done; [auto|congruence|congruence| | | | | |].
  - intros i Hi. rewrite B5, A5; [done|done|]. unfold is_ino in *. by rewrite A3.
  - intros i pos Hp. by rewrite B6, A6.
  - intros b. by rewrite B7, A7.
  - intros i Hi. rewrite B8, A8; [done|done|]. unfold is_ino in *. by rewrite A3.
  - intros key path Hv. by rewrite B9, A9.
  - intros b Hb. rewrite B10, A10; [done|done|]. unfold is_data in *. by rewrite A3.
Qed.

Lemma filled_nothing y nodes ino offset lo hi buf : hi ≤ lo → filled y nodes ino offset lo hi buf buf.
Proof. intros H. split; [done|]. intros i Hi. by rewrite decide_False by lia. Qed.

Lemma read_ok cpu k ino buf offset size scratch s :
  0 ≤ k → sys_ok cpu (k + 2) s → ¬ oom (fs s) → 0 < ino < total_inodes (sb (fs s)) → 0 ≤ offset → 0 < size → offset + size ≤ 4294967295 → size ≤ zlen buf →
  let n := Z.max 0 (Z.min size (size_of s ino - offset)) in
  ∃ buf' s', read true cpu ino buf offset size scratch s = Ok (s32 n, buf', s') ∧ kept cpu k s s' ∧
    filled (fs s) (inode_of (fs s)) ino offset 0 n buf buf'.
Proof.
  intros Hk SS Ho Hi Hoff Hsz Hmax Hlen n. unfold read. cbn [negb]. case_if; [lia|]. case_if; [lia|].
  destruct (sync_read_ok cpu k ino no_inode s Hk SS Ho Hi) as (s1 & -> & K1). cbn [mbind res_bind negb].
  assert (is_ino (fs s) ino) as Hino by (unfold is_ino; lia). pose proof (fl_node _ _ (ss_files _ _ _ SS) ino Hino) as Hok.
  fold (size_of s ino). destruct (size_of s ino <=? offset) eqn:E1.
  { exists buf, s1. assert (n = 0) as -> by (unfold n; lia). split; [done|]. split; [done|by apply filled_nothing]. }
  replace (if size_of s ino <? offset + size then size_of s ino - offset else size) with n by (unfold n; case_if; lia).
  destruct (read_loop_ok (Z.to_nat n) (fs s1) (inode_of (fs s1)) ino buf offset n 0 0xFFFFFFFF scratch) as (l & buf' & Hl & Hm & Hf);
    [apply K1|intros H; by apply Ho, (kp_mem _ _ _ _ K1)|unfold is_ino in *; by rewrite (kp_sb _ _ _ _ K1)|done|lia|lia|lia|lia|].
  rewrite (kp_inode _ _ _ _ K1 ino Hino) in Hl. rewrite Hl. cbn [mbind res_bind fst snd]. eexists _, _. split; [done|].
  split; [eapply kept_trans; [exact K1|]; by apply kept_mem; [apply K1|]|].
  destruct Hf as [L1 H1]. split; [done|]. intros i Hj. rewrite H1 by done. destruct (decide (0 ≤ i < n)); [|done]. f_equal.
  apply (kp_byte _ _ _ _ K1). unfold is_u32, n in *. lia.
Qed.

(** ** Writing *)

(** File [ino] has [data] from [off] on; nothing else that a program can see has
    changed. *)
Record stored (cpu k c : Z) (s s' : fsys) (ino off : Z) (data : list Z) : Prop := {
  sd_sys : sys_ok cpu k s';
  sd_mem : oom (fs s') → oom (fs s);
  sd_total : total_inodes (sb (fs s')) = total_inodes (sb (fs s));
  sd_free : global_free_blocks (fs s) - c ≤ global_free_blocks (fs s');
  sd_size i : is_ino (fs s) i → size_of s' i = if decide (i = ino) then Z.max (size_of s i) (off + zlen data) else size_of s i;
  sd_byte i pos : is_u32 pos → byte_of s' i pos =
    if decide (i = ino ∧ off ≤ pos < off + zlen data) then default 0 (data !! Z.to_nat (pos - off)) else byte_of s i pos;
}.

Lemma set_size_ok v n : is_u32 v → inode_ok n → inode_ok (set_size v n) ∧ ∀ slot, slot_ptr (set_size v n) slot = slot_ptr n slot.
Proof.
  intros Hv [Hw Hd Hp]. split; [|done]. split; [|done|done]. unfold inode_words in *. cbn in *. rewrite !Forall_cons in *. tauto.
Qed.

(** The inode of the file goes to the table, with the same pointers. *)
Lemma sync_write_ok cpu k ino nodes n s y :
  0 ≤ k → cpu_ok cpu (k + 2) (with_fs y s) → files_ok y nodes → ¬ oom y → 0 < ino < total_inodes (sb y) →
  (∀ i, is_ino y i → i ≠ ino → inode_of y i = nodes i) → inode_ok n → (∀ slot, slot_ptr n slot = slot_ptr (nodes ino) slot) →
  ∃ s', sync_inode cpu ino n true (with_fs y s) = Ok (true, n, s') ∧ sys_ok cpu k s' ∧ synced y (fs s') ∧ inode_of (fs s') ino = n ∧
    (∀ i, is_ino y i → i ≠ ino → inode_of (fs s') i = nodes i) ∧
    ∀ i pos, is_u32 pos → byte_of s' i pos = fbyte y nodes i pos.
Proof.
  intros Hk CP FO Ho Hi Hin Hn Hptr. destruct (sync_inode_ok cpu k ino n true (with_fs y s) Hk CP) as (ok & s' & Hs & Hok & CP' & Sy & Hin'); [done|done|].
  cbn [fs with_fs] in *. destruct ok; [|by destruct (Ho (Hok eq_refl))]. cbn [andb negb] in Hs, Hin'. exists s'. split; [done|].
  assert (∀ i, is_ino y i → inode_of (fs s') i = upd_node nodes ino n i) as Hnew.
  { intros i Hi'. rewrite Hin' by done. unfold upd_node. case_bool_decide; [done|by apply Hin]. }
  assert (grown 0 y nodes y (upd_node nodes ino n)) as G.
  { apply grown_roots; [done| |by apply upd_node_ok; [apply FO|] ]. intros [i sl]. unfold roots; cbn. unfold upd_node. case_bool_decide; [|done]. subst i. by rewrite Hptr. }
  destruct (files_synced y (upd_node nodes ino n) (fs s') (gr_files _ _ _ _ _ G) Sy Hnew) as [FO' Hb].
  split; [by split|]. split; [done|]. split; [|split].
  - rewrite Hnew by (unfold is_ino; lia). unfold upd_node. by rewrite bool_decide_true.
  - intros i Hi' Hne. rewrite Hnew by done. unfold upd_node. by rewrite bool_decide_false.
  - intros i pos Hp. unfold byte_of. rewrite (Hb i pos Hp). rewrite (wr_byte _ _ _ _ _ _ _ _ (grown_wrote _ _ _ _ _ 0 0 G) i pos Hp). cbn [length]. by rewrite decide_False by lia.
Qed.

Lemma wrote_inode y nodes y' nodes' c ino lo d i :
  wrote c y nodes y' nodes' ino lo d → fs_ok y → table_fits (sb y) → is_ino y i → inode_of y' i = inode_of y i.
Proof.
  intros W F Fit Hi. destruct (inode_index (sb y) i Hi Fit) as (I1 & I2 & I3). unfold inode_of. rewrite (wr_sb _ _ _ _ _ _ _ _ W).
  rewrite (wr_disk _ _ _ _ _ _ _ _ W); [done|done|unfold is_map; lia].
Qed.

Lemma write_locked_ok cpu k ino buf offset size scratch s :
  0 ≤ k → sys_ok cpu (k + 2) s → ¬ oom (fs s) → 0 < ino < total_inodes (sb (fs s)) → map_ok scratch → Forall is_u8 buf →
  0 ≤ offset → 0 < size → offset + size ≤ 4294967295 → size ≤ zlen buf → 4 * blocks_touched offset (offset + size) ≤ global_free_blocks (fs s) →
  ∃ s', yulafs_write_locked cpu ino (inode_of (fs s) ino) buf offset size scratch s = Ok (s32 size, s') ∧
    stored cpu k (4 * blocks_touched offset (offset + size)) s s' ino offset (slice buf 0 (Z.to_nat size)).
Proof.
  intros Hk [CP FO] Ho Hi Hsc Hbu Hoff Hsz Hmax Hlen Hfree. assert (is_ino (fs s) ino) as Hino by (unfold is_ino; lia).
  pose proof (fl_node _ _ FO ino Hino) as Hok. pose proof (in_words _ Hok) as Hwords.
  assert (0 ≤ i_id (inode_of (fs s) ino) ∧ is_u32 (size_of s ino)) as [Hid Hsize] by (unfold inode_words in Hwords; cbn in Hwords; rewrite !Forall_cons in Hwords; unfold is_u32, size_of in *; tauto || lia).
  unfold yulafs_write_locked. destruct (write_loop_ok (Z.to_nat size) (fs s) (inode_of (fs s)) ino buf offset size 0 false false scratch) as (nodes & y & Hloop & W & SB);
    [done..|lia|lia|by rewrite Z.add_0_r|].
  rewrite Hloop. clear Hloop. cbn [mbind res_bind]. rewrite (proj2 (Z.ltb_lt 0 size)) by done. rewrite Z.add_0_r, Z.sub_0_r in W. change (Z.to_nat 0) with 0%nat in W.
  destruct SB as [SB1 (_ & _ & Esz & _)]. fold (size_of s ino) in Esz. rewrite Esz. rewrite u32_small by lia. cbn [orb].
  set (n := if size_of s ino <? offset + size then set_size (offset + size) (nodes ino) else nodes ino).
  assert (inode_ok (nodes ino)) as Hok' by (apply (wr_files _ _ _ _ _ _ _ _ W); unfold is_ino in *; by rewrite (wr_sb _ _ _ _ _ _ _ _ W)).
  destruct (set_size_ok (offset + size) (nodes ino)) as [Hss1 Hss2]; [unfold is_u32; lia|done|].
  assert (cpu_ok cpu (k + 2) (with_fs y s)) as CPy.
  { apply cpu_ok_frame; [done|apply W|by rewrite (wr_sb _ _ _ _ _ _ _ _ W)..|]. intros b Hb. rewrite (wr_sb _ _ _ _ _ _ _ _ W) in Hb. apply (wr_disk _ _ _ _ _ _ _ _ W); [lia|unfold is_map; lia]. }
  destruct (sync_write_ok cpu k ino nodes n s y) as (s2 & Hs2 & SS2 & Sy & Hn & Hothers & Hbytes); try done.
  { apply W. } { intros H. by apply Ho, (wr_mem _ _ _ _ _ _ _ _ W). } { by rewrite (wr_sb _ _ _ _ _ _ _ _ W). }
  { intros i Hi' Hne. rewrite SB1 by done. eapply wrote_inode; [done|apply CP|apply CP|]. unfold is_ino in *. by rewrite <-(wr_sb _ _ _ _ _ _ _ _ W). }
  { unfold n. by case_if. } { intros slot. unfold n. case_if; [apply Hss2|done]. }
  assert (i_size n = Z.max (size_of s ino) (offset + size)) as Hni by (unfold n; case_if; [cbn; lia|rewrite Esz; lia]).
  rewrite Hs2. cbn [mbind res_bind snd]. eexists. split; [done|].
  assert (zlen (slice buf 0 (Z.to_nat size)) = size) as Hsl by (rewrite length_slice; lia).
  assert (∀ i, is_ino (fs s) i → is_ino y i) as Hino_y by (intros i; unfold is_ino; by rewrite (wr_sb _ _ _ _ _ _ _ _ W)).
  destruct (files_flush (fs s2)) as [FOf Hbf]; [apply SS2|]. pose proof (fl_fs _ _ (ss_files _ _ _ SS2)) as F2. destruct (flush_facts (fs s2) F2) as (Ff & (v & Ef) & _).
  assert (∀ i, is_ino (fs s) i → is_ino (fs s2) i) as Hino_2 by (intros i; unfold is_ino; by rewrite (sy_sb _ _ Sy), (wr_sb _ _ _ _ _ _ _ _ W)).
  split; cbn [fs with_fs].
  - split; [|exact FOf]. pose proof (f_layout _ F2) as [L1 L2 L3 L4 L5 L6 L7 L8 L9]. apply cpu_ok_frame; [apply SS2|done|by rewrite Ef..|].
    intros b Hb. rewrite Ef in *. cbn in *. apply lookup_insert_ne. lia.
  - intros H. apply (wr_mem _ _ _ _ _ _ _ _ W), (sy_mem _ _ Sy). by rewrite Ef in H.
  - rewrite Ef. cbn. by rewrite (sy_sb _ _ Sy), (wr_sb _ _ _ _ _ _ _ _ W).
  - rewrite Ef. cbn. rewrite (proj1 (sy_free _ _ Sy)). apply (wr_free _ _ _ _ _ _ _ _ W).
  - intros i Hi'. unfold size_of. cbn [fs with_fs]. rewrite inode_of_flush by auto. case_decide as E.
    + subst i. by rewrite Hn, Hsl, Hni.
    + rewrite Hothers by auto. by rewrite SB1.
  - intros i pos Hp. unfold byte_of at 1. cbn [fs with_fs]. rewrite Hbf by done. fold (byte_of s2 i pos). rewrite Hbytes by done. apply (wr_byte _ _ _ _ _ _ _ _ W). done.
Qed.

(** A read of the inode, then the store. *)
Lemma stored_kept cpu k k' c s1 s2 s3 ino off data : kept cpu k' s1 s2 → stored cpu k c s2 s3 ino off data → stored cpu k c s1 s3 ino off data.
Proof.
  intros [A1 A2 A3 A4 A5 A6 _ _ _ _] [B1 B2 B3 B4 B5 B6]. split; try done; [auto|congruence|by rewrite <-A4| |].
  - intros i Hi. rewrite B5 by (unfold is_ino in *; by rewrite A3). unfold size_of. by rewrite A5.
  - intros i pos Hp. by rewrite B6, A6.
Qed.

Lemma touched_bound off n : 0 ≤ off → 0 < n → blocks_touched off (off + n) ≤ n / 4096 + 2.
Proof. intros. unfold blocks_touched. case_if; Z.to_euclidean_division_equations; lia. Qed.

Lemma write_ok cpu k ino buf offset scratch s (size := zlen buf) :
  0 ≤ k → sys_ok cpu (k + 4) s → ¬ oom (fs s) → 0 < ino < total_inodes (sb (fs s)) → map_ok scratch → Forall is_u8 buf →
  0 ≤ offset → 0 < size → offset + size ≤ 4294967295 → 4 * (size / 4096 + 2) ≤ global_free_blocks (fs s) →
  ∃ s', write true cpu ino buf offset size scratch s = Ok (s32 size, s') ∧ stored cpu k (4 * (size / 4096 + 2)) s s' ino offset buf.
Proof.
  intros Hk SS Ho Hi Hsc Hbu Hoff Hsz Hmax Hfree. unfold write. cbn [negb]. case_if; [lia|]. case_if; [lia|].
  replace (k + 4) with (k + 2 + 2) in SS by lia. destruct (sync_read_ok cpu (k + 2) ino no_inode s ltac:(lia) SS Ho Hi) as (s1 & -> & K1). cbn [mbind res_bind negb].
  assert (is_ino (fs s) ino) as Hino by (unfold is_ino; lia). rewrite <-(kp_inode _ _ _ _ K1 ino Hino). pose proof (touched_bound offset size Hoff Hsz) as Ht.
  destruct (write_locked_ok cpu k ino buf offset size scratch s1) as (s' & -> & St);
    [done|apply K1|intros H; by apply Ho, (kp_mem _ _ _ _ K1)|by rewrite (kp_sb _ _ _ _ K1)|done|done|done|done|done|done|rewrite (kp_free _ _ _ _ K1); lia|].
  exists s'. split; [done|]. eapply stored_kept; [exact K1|]. unfold size in *. rewrite Nat2Z.id, slice_all in St by done.
  destruct St as [? ? ? Hf]. split; try done. lia.
Qed.

Lemma append_ok cpu k ino buf scratch s (size := zlen buf) :
  0 ≤ k → sys_ok cpu (k + 4) s → ¬ oom (fs s) → 0 < ino < total_inodes (sb (fs s)) → map_ok scratch → Forall is_u8 buf →
  0 < size → size_of s ino + size ≤ 4294967295 → 4 * (size / 4096 + 2) ≤ global_free_blocks (fs s) →
  ∃ s', append true cpu ino buf size scratch s = Ok (s32 size, Some (size_of s ino), s') ∧ stored cpu k (4 * (size / 4096 + 2)) s s' ino (size_of s ino) buf.
Proof.
  intros Hk SS Ho Hi Hsc Hbu Hsz Hmax Hfree. unfold append. cbn [negb]. case_if; [lia|].
  replace (k + 4) with (k + 2 + 2) in SS by lia. destruct (sync_read_ok cpu (k + 2) ino no_inode s ltac:(lia) SS Ho Hi) as (s1 & -> & K1). cbn [mbind res_bind negb].
  assert (is_ino (fs s) ino) as Hino by (unfold is_ino; lia). fold (size_of s ino). rewrite <-(kp_inode _ _ _ _ K1 ino Hino).
  pose proof (in_words _ (fl_node _ _ (ss_files _ _ _ SS) ino Hino)) as Hwords.
  assert (0 ≤ size_of s ino) as Hs0 by (unfold inode_words in Hwords; cbn in Hwords; rewrite !Forall_cons in Hwords; unfold is_u32, size_of in *; lia).
  pose proof (touched_bound (size_of s ino) size Hs0 Hsz) as Ht.
  destruct (write_locked_ok cpu k ino buf (size_of s ino) size scratch s1) as (s' & -> & St);
    [done|apply K1|intros H; by apply Ho, (kp_mem _ _ _ _ K1)|by rewrite (kp_sb _ _ _ _ K1)|done|done|done|done|done|done|rewrite (kp_free _ _ _ _ K1); lia|].
  exists s'. split; [done|]. eapply stored_kept; [exact K1|]. unfold size in *. rewrite Nat2Z.id, slice_all in St by done.
  destruct St as [? ? ? Hf]. split; try done. lia.
Qed.

(** ** The refinement *)

Inductive fop := FRead (ino off n : Z) | FWrite (ino off : Z) (data : list Z) | FAppend (ino : Z) (data : list Z).

(** The result of a call, and the bytes read or the offset of the append. *)
Definition fexec (cpu : Z) (scratch : buffer) (o : fop) (s : fsys) : res (Z * list Z * fsys) :=
  match o with
  | FRead ino off n =>
      r ← read true cpu ino (replicate (Z.to_nat n) 0) off n scratch s; Ok (r.1.1, take (Z.to_nat r.1.1) r.1.2, r.2)
  | FWrite ino off data => r ← write true cpu ino data off (zlen data) scratch s; Ok (r.1, [], r.2)
  | FAppend ino data => r ← append true cpu ino data (zlen data) scratch s; Ok (r.1.1, from_option (λ z, [z]) [] r.1.2, r.2)
  end.

Fixpoint frun (cpu : Z) (os : list (fop * buffer)) (s : fsys) : res (list (Z * list Z) * fsys) :=
  match os with
  | [] => Ok ([], s)
  | (o, scratch) :: os => r ← fexec cpu scratch o s; q ← frun cpu os r.2; Ok (r.1 :: q.1, q.2)
  end.

(** Files as a program sees them: a size and an array of bytes each. *)
Record files := Files { f_size : Z → Z; f_byte : Z → Z → Z }.

Definition fput (ino off : Z) (data : list Z) (a : files) : files :=
  Files (λ i, if decide (i = ino) then Z.max (f_size a i) (off + zlen data) else f_size a i)
    (λ i pos, if decide (i = ino ∧ off ≤ pos < off + zlen data) then default 0 (data !! Z.to_nat (pos - off)) else f_byte a i pos).

Definition astep (o : fop) (a : files) : (Z * list Z) * files :=
  match o with
  | FRead ino off n => let m := Z.max 0 (Z.min n (f_size a ino - off)) in ((m, f_byte a ino <$> seqZ off m), a)
  | FWrite ino off data => ((zlen data, []), fput ino off data a)
  | FAppend ino data => ((zlen data, [f_size a ino]), fput ino (f_size a ino) data a)
  end.

Fixpoint arun (os : list (fop * buffer)) (a : files) : list (Z * list Z) * files :=
  match os with
  | [] => ([], a)
  | (o, _) :: os => let r := astep o a in let q := arun os r.2 in (r.1 :: q.1, q.2)
  end.

(** What a caller may ask for of the files [a]. *)
Definition fop_ok (total : Z) (a : files) (o : fop) : Prop :=
  match o with
  | FRead ino off n => 0 < ino < total ∧ 0 ≤ off ∧ 0 < n < 2147483648 ∧ off + n ≤ 4294967295
  | FWrite ino off data => 0 < ino < total ∧ 0 ≤ off ∧ 0 < zlen data < 2147483648 ∧ off + zlen data ≤ 4294967295 ∧ Forall is_u8 data
  | FAppend ino data => 0 < ino < total ∧ 0 < zlen data < 2147483648 ∧ f_size a ino + zlen data ≤ 4294967295 ∧ Forall is_u8 data
  end.

Fixpoint fops_ok (total : Z) (a : files) (os : list (fop * buffer)) : Prop :=
  match os with
  | [] => True
  | (o, scratch) :: os => fop_ok total a o ∧ map_ok scratch ∧ fops_ok total (astep o a).2 os
  end.

(** Free blocks that are enough. *)
Definition fcost (o : fop) : Z := match o with FRead _ _ _ => 0 | FWrite _ _ data | FAppend _ data => 4 * (zlen data / 4096 + 2) end.
Definition fcosts (os : list (fop * buffer)) : Z := foldr (λ o c, fcost o.1 + c) 0 os.

Definition represents (s : fsys) (a : files) : Prop :=
  (∀ i, is_ino (fs s) i → f_size a i = size_of s i) ∧ ∀ i pos, is_u32 pos → f_byte a i pos = byte_of s i pos.

Definition files_of (s : fsys) : files := Files (size_of s) (byte_of s).

Lemma s32_small z : 0 ≤ z < 2147483648 → s32 z = z.
Proof. intros H. unfold s32. rewrite u32_small by lia. case_if; lia. Qed.

Lemma represents_stored cpu k c s s' a ino off data :
  represents s a → stored cpu k c s s' ino off data → represents s' (fput ino off data a).
Proof.
  intros [R1 R2] [_ _ Et _ S1 S2]. split.
  - intros i Hi. assert (is_ino (fs s) i) as Hi' by (unfold is_ino in *; by rewrite <-Et). cbn. rewrite S1, R1 by done. done.
  - intros i pos Hp. cbn. rewrite S2, R2 by done. done.
Qed.

Lemma filled_take s a ino off n m buf :
  represents s a → 0 ≤ off → off + m ≤ 4294967295 → 0 ≤ m ≤ n →
  filled (fs s) (inode_of (fs s)) ino off 0 m (replicate (Z.to_nat n) 0) buf → take (Z.to_nat m) buf = f_byte a ino <$> seqZ off m.
Proof.
  intros [_ R2] Hoff Hmax Hm [Hl Hf]. rewrite length_replicate in Hl, Hf. apply list_eq. intros i. destruct (decide (i < Z.to_nat m)%nat) as [Hi|Hi].
  - rewrite lookup_take_lt by done. specialize (Hf (Z.of_nat i) ltac:(lia)). rewrite Nat2Z.id, decide_True in Hf by lia. rewrite Hf.
    rewrite list_lookup_fmap, lookup_seqZ_lt by lia. cbn. rewrite R2 by (unfold is_u32; lia). done.
  - rewrite lookup_take_ge by lia. symmetry. apply lookup_ge_None. rewrite length_fmap, length_seqZ. lia.
Qed.

Lemma fstep_ok cpu k o scratch s a :
  0 ≤ k → sys_ok cpu (k + 4) s → ¬ oom (fs s) → represents s a → fop_ok (total_inodes (sb (fs s))) a o → map_ok scratch → fcost o ≤ global_free_blocks (fs s) →
  ∃ s', fexec cpu scratch o s = Ok ((astep o a).1, s') ∧ sys_ok cpu k s' ∧ (oom (fs s') → oom (fs s)) ∧ represents s' (astep o a).2 ∧
    total_inodes (sb (fs s')) = total_inodes (sb (fs s)) ∧ global_free_blocks (fs s) - fcost o ≤ global_free_blocks (fs s').
Proof.
  intros Hk SS Ho R Hop Hsc Hcost. destruct o as [ino off n|ino off data|ino data]; cbn [fop_ok fexec fcost astep fst snd] in *.
  - destruct Hop as (Hi & Hoff & Hn & Hmax). replace (k + 4) with (k + 2 + 2) in SS by lia.
    destruct (read_ok cpu (k + 2) ino (replicate (Z.to_nat n) 0) off n scratch s) as (buf & s' & -> & K & Hf); [lia|done|done|done|done|lia|done|rewrite length_replicate; lia|].
    cbv zeta in Hf. cbn [mbind res_bind fst snd]. rewrite <-(proj1 R ino ltac:(unfold is_ino; lia)) in *. set (m := Z.max 0 (Z.min n (f_size a ino - off))) in *.
    rewrite s32_small by lia. rewrite (filled_take s a ino off n m buf) by (done || lia). exists s'. split; [done|].
    destruct K as [ [CP FO] K2 K3 K4 K5 K6 _ _ _ _]. split; [|split; [done|split; [|split; [by rewrite K3|rewrite K4; lia] ] ] ].
    + split; [|done]. destruct CP as [? ? ? (c & ? & ? & ?)]. split; try done. exists c. split; [done|]. split; [done|lia].
    + destruct R as [R1 R2]. split; [intros i Hi'; unfold size_of; rewrite K5, R1 by (unfold is_ino in *; by rewrite <-K3); done|intros i pos Hp; by rewrite K6, R2].
  - destruct Hop as (Hi & Hoff & Hn & Hmax & Hu). destruct (write_ok cpu k ino data off scratch s) as (s' & -> & St); [done..|lia|done|done|].
    cbn [mbind res_bind fst snd]. rewrite s32_small by lia. exists s'. split; [done|]. pose proof St as [S1 S2 S3 S4 _ _].
    split; [done|]. split; [done|]. split; [by eapply represents_stored|]. by split.
  - destruct Hop as (Hi & Hn & Hmax & Hu). assert (is_ino (fs s) ino) as Hino by (unfold is_ino; lia). rewrite (proj1 R ino Hino) in *.
    destruct (append_ok cpu k ino data scratch s) as (s' & -> & St); [done..|lia|done|done|].
    cbn [mbind res_bind fst snd from_option]. rewrite s32_small by lia. exists s'. split; [done|]. pose proof St as [S1 S2 S3 S4 _ _].
    split; [done|]. split; [done|]. split; [by eapply represents_stored|]. by split.
Qed.

Lemma frun_ok cpu os s a :
  sys_ok cpu (4 * Z.of_nat (length os)) s → ¬ oom (fs s) → represents s a → fops_ok (total_inodes (sb (fs s))) a os → fcosts os ≤ global_free_blocks (fs s) →
  ∃ s', frun cpu os s = Ok ((arun os a).1, s') ∧ sys_ok cpu 0 s' ∧ represents s' (arun os a).2.
Proof.
  revert s a. induction os as [|[o scratch] os IH]; intros s a SS Ho R Hos Hcost.
  { exists s. done. }
  cbn [fops_ok] in Hos. destruct Hos as (Hop & Hsc & Hos). cbn [fcosts foldr fst] in Hcost. fold (fcosts os) in Hcost.
  assert (∀ os, 0 ≤ fcosts os) as Hpos.
  { clear. induction os as [|[ [| |] ?] os IH]; unfold fcosts in *; cbn in *; try lia; pose proof (Z.div_pos (zlen data) 4096); lia. }
  assert (0 ≤ fcost o) as Hc0 by (specialize (Hpos [(o, [])]); unfold fcosts in Hpos; cbn in Hpos; lia). specialize (Hpos os).
  replace (4 * Z.of_nat (length ((o, scratch) :: os))) with (4 * Z.of_nat (length os) + 4) in SS by (cbn [length]; lia).
  destruct (fstep_ok cpu (4 * Z.of_nat (length os)) o scratch s a) as (s1 & Hx & SS1 & Hm & R1 & Et & Hf); [lia|done|done|done|done|done|lia|].
  cbn [frun arun fst snd]. rewrite Hx. cbn [mbind res_bind fst snd].
  destruct (IH s1 (astep o a).2) as (s2 & -> & SS2 & R2); [done|by intros H; apply Ho, Hm|done|by rewrite Et|lia|].
  exists s2. cbn [mbind res_bind fst snd]. done.
Qed.


(** ** A concrete file system *)

(** An inode table of zeros has no pointers. *)
Lemma zero_table k slot : 0 ≤ k < 32 → 0 ≤ slot < 15 → slot_ptr (inode_in (replicate 4096 0) k) slot = 0.
Proof.
  intros Hk Hs.
  assert (forallb (λ k, forallb (λ s, slot_ptr (inode_in (replicate 4096 0) k) s =? 0) (seqZ 0 15)) (seqZ 0 32) = true) as H by (by vm_compute).
  rewrite forallb_forall in H. specialize (H k). rewrite forallb_forall in H. apply Z.eqb_eq, H; apply list_elem_of_In, elem_of_seqZ; lia.
Qed.

Lemma demo_inode_of ino : 0 ≤ ino < 128 → inode_of demo_fs ino = inode_in (replicate 4096 0) (ino `mod` 32).
Proof.
  intros Hi. unfold inode_of. f_equal. cbn [demo_fs disk sb demo_sb inode_table_start]. unfold demo_disk.
  rewrite lookup_insert_ne by (Z.to_euclidean_division_equations; lia).
  assert (gset_to_gmap (replicate 4096 0) (list_to_set (seqZ 0 64)) !! (4 + ino / 32) = Some (replicate 4096 0)) as ->; [|done].
  apply lookup_gset_to_gmap_Some. split; [|done]. apply elem_of_list_to_set, elem_of_seqZ. Z.to_euclidean_division_equations. lia.
Qed.

Lemma demo_sys_ok cpu k : (cpu = 0 ∨ cpu = 1) → k < 4294967295 → sys_ok cpu k demo_sys.
Proof.
  intros Hcpu Hk. split; [by apply demo_cpu_ok|]. change (fs demo_sys) with demo_fs.
  assert (∀ k path, fwalk demo_fs (inode_of demo_fs) k path = 0) as Hz.
  { intros [i sl] path. apply walk_null. unfold fwalk, walk, roots; cbn [foldl fst snd]. change (total_inodes (sb demo_fs)) with 128.
    destruct ((0 <=? i) && (i <? 128) && (0 <=? sl) && (sl <? 15)) eqn:E; [|done]. rewrite demo_inode_of by lia. apply zero_table; [by apply Z.mod_pos_bound|lia]. }
  split; [apply demo_ok| |].
  - split; [intros k' path _ Hne; by rewrite (Hz k' path : walk _ _ _ _ = 0) in Hne| |intros k1 p1 k2 p2 _ _ Hne; by rewrite (Hz k1 p1 : walk _ _ _ _ = 0) in Hne].
    intros b Hl. apply (live_facts _ _ demo_ok) in Hl as [Hb _]. apply (f_disk _ demo_ok). lia.
  - intros i Hi. change (is_ino demo_fs i) with (0 ≤ i < 128) in Hi. rewrite demo_inode_of by done.
    apply (read_inode_total (replicate 4096 0)); [apply map_ok_zeros|by apply Z.mod_pos_bound].
Qed.

(** Two files: a write past the end of one, an append, reads of both. *)
Definition demo_fops : list (fop * buffer) :=
  [(FWrite 2 4094 [1; 2; 3], replicate 4096 9); (FAppend 2 [4; 5], replicate 4096 0); (FRead 2 4093 10, replicate 4096 7); (FRead 3 0 4, replicate 4096 0)].

