(* ===== verification/YfsFaults.v ===== *)
(** * YulaFS: where the code does less than it means to

    Runs of the model in which memory or the disk is exhausted, or the end of a
    file is near the largest offset. *)

From S2P Require Import Prelude Bdev YfsBitmap YfsWords Yfs YfsAlloc YfsOps YfsVolume YfsInode YfsForest YfsBlockMap YfsResolve YfsFile YfsBytes YfsFiles.

Definition zeros : buffer := replicate 4096 0.

(** The file system with the given outcomes of the next allocations. *)
Definition short_of_memory (l : list bool) (s : fsys) : fsys := with_fs (with_mem l (fs s)) s.

(** A read that finds no memory for a table of block pointers reports
    success with zeros in place of the data: after the byte 7 was written at
    offset 49152, behind the first table, a read there gives 7, and gives 0 with
    the same result code when the second allocation fails. *)
Theorem yulafs_read_oom_gives_zeros :
  (w ← write true 0 2 [7] 49152 1 zeros demo_sys;
   r ← read true 0 2 [9] 49152 1 zeros w.2;
   q ← read true 0 2 [9] 49152 1 zeros (short_of_memory [true; false] w.2);
   Ok (w.1, r.1, q.1)) = Ok (1, (1, [7]), (1, [0])).
Proof. by vm_compute. Qed.

(** An append is not checked against the largest file: to a file of 2^32 - 1
    bytes, ten more are "appended" over the bytes at its start, and the size
    stays. *)
Theorem yulafs_append_wraps :
  (w ← write true 0 2 [5; 5; 5; 5; 5] 4294967290 5 zeros demo_sys;
   a ← append true 0 2 [1; 2; 3; 4; 5; 6; 7; 8; 9; 10] 10 zeros w.2;
   r ← read true 0 2 (replicate 10 0) 0 10 zeros a.2;
   Ok (size_of w.2 2, a.1, size_of a.2 2, r.1)) =
  Ok (4294967295, (10, Some 4294967295), 4294967295, (10, [2; 3; 4; 5; 6; 7; 8; 9; 10; 0])).
Proof. by vm_compute. Qed.

(** ** A full disk *)

(** What [format] leaves in block 0: the entries [.] and [..] of the root. *)
Definition dots_block : buffer := [1; 0; 0; 0; 46] ++ replicate 59 0 ++ [1; 0; 0; 0; 46; 46] ++ replicate 4026 0.

(** Every block in use; file 3 has block 46 of the disk. *)
Definition full_fs : yfs :=
  Yfs (<[0 := dots_block]> (<[3 := replicate 4096 255]> (<[4 := replicate 384 0 ++ inode_bytes (Inode 3 YFS_TYPE_FILE 4096 0 0 0 (46 :: replicate 11 0) 0 0 0 (replicate 44 0)) ++ replicate 3584 0]> demo_disk)))
    demo_sb [Group 0 126 0 0] 0 126 [].
Definition full_sys : fsys := Fsys full_fs (replicate 2 empty_cache).


(** One free block is left. *)
Definition last_block_fs : yfs :=
  Yfs (<[3 := [254] ++ replicate 4095 255]> demo_disk) demo_sb [Group 1 126 0 0] 1 126 [].

Definition last_block_sys : fsys := Fsys last_block_fs (replicate 2 empty_cache).

(** A write that runs out of blocks between a table and the block behind it
    reports that nothing was written.  Within the file, the table is lost: no
    inode has it and it is not free.  Past the end, the file is now as long as
    the offset. *)
Theorem yulafs_failed_write_leaks :
  (s ← resize 0 2 100000 no_inode last_block_sys;
   w ← write true 0 2 [7] 49152 1 zeros s;
   Ok (w.1, i_indirect (inode_of (fs w.2) 2), global_free_blocks (fs s), global_free_blocks (fs w.2))) = Ok (0, 0, 1, 0) ∧
  (w ← write true 0 2 [7] 49152 1 zeros last_block_sys;
   Ok (w.1, size_of last_block_sys 2, size_of w.2 2)) = Ok (0, 0, 49152).
Proof. split; by vm_compute. Qed.

(** Shrinking a file other than to nothing keeps the bytes past the end: they
    come back when the file grows again. *)
Theorem yulafs_shrink_keeps_bytes :
  (w ← write true 0 2 [1; 2; 3; 4] 0 4 zeros demo_sys;
   s ← resize 0 2 1 no_inode w.2;
   s ← resize 0 2 4 no_inode s;
   r ← read true 0 2 [0; 0; 0; 0] 0 4 zeros s;
   Ok r.1) = Ok (4, [1; 2; 3; 4]).
Proof. by vm_compute. Qed.
