(* ===== verification/YfsTruncate.v ===== *)
(** * YulaFS: truncation and deletion

    [truncate_inode] gives back the blocks that the pointers of a file reach and
    no other; [inode_finalize_deferred_delete_locked] deletes a file with it. *)

From S2P Require Import Prelude Bdev YfsBitmap YfsWords Yfs YfsAlloc YfsOps YfsVolume YfsInode YfsForest YfsBlockMap YfsResolve YfsFile YfsBytes YfsFiles.

(** ** What a pointer reaches *)

(** [c] is reached from [b] through at most [level] tables of the disk [d]. *)
Definition reach (d : gmap Z buffer) (level : nat) (b c : Z) : Prop :=
  ∃ rho, (length rho ≤ level)%nat ∧ Forall (λ i, 0 ≤ i < 1024) rho ∧ foldl (child d) b rho = c ∧ c ≠ 0.

Lemma foldl_child_0 d rho : foldl (child d) 0 rho = 0.
Proof. induction rho as [|i rho IH]; [done|exact IH]. Qed.

Lemma reach_0 d b c : b ≠ 0 → (reach d 0 b c ↔ c = b).
Proof.
  intros Hb. split.
  - intros (rho & Hl & _ & <- & _). destruct rho; [done|cbn in Hl; lia].
  - intros ->. exists []. done.
Qed.

Lemma reach_S d level b table c : b ≠ 0 → d !! b = Some table →
  (reach d (S level) b c ↔ c = b ∨ ∃ j, 0 ≤ j < 1024 ∧ word table j ≠ 0 ∧ reach d level (word table j) c).
Proof.
  intros Hb Ht. assert (∀ j, child d b j = word table j) as Hc by (intros j; unfold child; case_if; [lia|by rewrite Ht]). split.
  - intros ([|j rho] & Hl & Hf & <- & Hne); [by left|]. right. apply Forall_cons in Hf as [Hj Hf]. cbn [foldl] in *. rewrite Hc in *. exists j. split; [done|].
    split; [intros E; rewrite E, foldl_child_0 in Hne; done|]. exists rho. cbn in Hl. split; [lia|]. done.
  - intros [->|(j & Hj & Hne & rho & Hl & Hf & E & Hc0)]; [exists []; split; [cbn; lia|done]|]. exists (j :: rho). split; [cbn; lia|]. split; [by constructor|].
    cbn [foldl]. by rewrite Hc.
Qed.

(** ** Giving blocks back *)

(** The blocks of [P] are no longer in use; nothing else has changed. *)
Record freed (y y' : yfs) (P : Z → Prop) : Prop := {
  fr_ok : fs_ok y';
  fr_sb : sb y' = sb y;
  fr_mem : oom y' → oom y;
  fr_blk c : is_data y c → (blk_used y' c = true ↔ blk_used y c = true ∧ ¬ P c);
  fr_ino i : is_ino y i → ino_used y' i = ino_used y i;
  fr_disk c : ¬ is_map y c → disk y' !! c = disk y !! c;
}.

Lemma freed_none y P : fs_ok y → (∀ c, ¬ P c) → freed y y P.
Proof. intros F HP. split; try done. intros c _. specialize (HP c). tauto. Qed.

Lemma freed_ext y y' P Q : (∀ c, P c ↔ Q c) → freed y y' P → freed y y' Q.
Proof. intros E [A1 A2 A3 A4 A5 A6]. split; try done. intros c Hc. rewrite A4 by done. by rewrite E. Qed.

Lemma freed_trans y1 y2 y3 P Q : freed y1 y2 P → freed y2 y3 Q → freed y1 y3 (λ c, P c ∨ Q c).
Proof.
  intros [A1 A2 A3 A4 A5 A6] [B1 B2 B3 B4 B5 B6]. split; [done|congruence|auto| | |].
  - intros c Hc. rewrite B4, A4; [tauto|done|]. unfold is_data in *. by rewrite A2.
  - intros i Hi. rewrite B5, A5; [done|done|]. unfold is_ino in *. by rewrite A2.
  - intros c Hc. rewrite B6, A6; [done|done|]. unfold is_map in *. by rewrite A2.
Qed.

Lemma moved_freed y y' b : moved y y' (λ c, negb (bool_decide (c = b)) && blk_used y c) (ino_used y) → freed y y' (.= b).
Proof.
  intros [F S B I D M]. split; try done. intros c Hc. rewrite B by done. rewrite andb_true_iff, negb_true_iff, bool_decide_eq_false. tauto.
Qed.

Lemma freed_mem y : fs_ok y → freed y (with_mem (tl (mem y)) y) (λ _, False).
Proof. intros F. split; try done; [by apply fs_ok_mem|apply oom_tl|tauto]. Qed.

Lemma free_block_freed y b : fs_ok y → ¬ oom y → is_data y b → ∃ y', free_block b y = Ok y' ∧ freed y y' (.= b).
Proof.
  intros F Ho Hb. pose proof (f_layout _ F) as [L1 L2 L3 L4 L5 L6 L7 L8 L9]. unfold is_data in Hb.
  destruct (free_block_ok y b F) as (y' & Hf & [M|[_ [?|?] ] ]); [lia| |lia|done]. exists y'. split; [done|]. by apply moved_freed.
Qed.

Lemma is_data_not_map y b : fs_ok y → is_data y b → ¬ is_map y b.
Proof. intros F. pose proof (f_layout _ F) as [L1 L2 L3 L4 L5 L6 L7 L8 L9]. unfold is_data, is_map. lia. Qed.

(** The loop over a table, [f] freeing what a pointer reaches. *)
Lemma free_ptrs_ok (f : Z → yfs → res yfs) (R : Z → Z → Prop) (Inv : yfs → Prop) table n i y :
  map_ok table → 0 ≤ i → i + Z.of_nat n = 1024 → Inv y → fs_ok y →
  (∀ z z' P, Inv z → freed z z' P → Inv z') →
  (∀ j z, 0 ≤ j < 1024 → word table j ≠ 0 → fs_ok z → Inv z → ∃ z', f (word table j) z = Ok z' ∧ freed z z' (R (word table j))) →
  ∃ y', free_ptrs f n i table y = Ok y' ∧ freed y y' (λ c, ∃ j, i ≤ j < 1024 ∧ word table j ≠ 0 ∧ R (word table j) c).
Proof.
  intros Ht Hi Hn HI F Hinv Hf. revert i y Hi Hn HI F. induction n as [|n IH]; intros i y Hi Hn HI F; cbn [free_ptrs].
  { exists y. split; [done|]. apply freed_none; [done|]. intros c (j & Hj & _). lia. }
  rewrite rd32_ok by (done || lia). cbn [mbind res_bind].
  assert (∃ y1, (if word table i =? 0 then Ok y else f (word table i) y) = Ok y1 ∧ freed y y1 (λ c, word table i ≠ 0 ∧ R (word table i) c)) as (y1 & -> & D1).
  { destruct (word table i =? 0) eqn:E.
    - exists y. split; [done|]. apply freed_none; [done|]. intros c [? _]. lia.
    - destruct (Hf i y) as (y1 & Hy1 & D); [lia|lia|done|done|]. exists y1. split; [done|]. eapply freed_ext; [|exact D]. intros c. split; [split; [lia|done]|by intros [_ ?] ]. }
  cbn [mbind res_bind]. destruct (IH (i + 1) y1) as (y' & -> & D2); [lia|lia|by eapply Hinv|apply D1|].
  exists y'. split; [done|]. eapply freed_ext; [|by eapply freed_trans]. intros c. cbn. split.
  - intros [ [? ?]|(j & Hj & ? & ?)]; [exists i; split; [lia|done]|exists j; split; [lia|done] ].
  - intros (j & Hj & Hne & HR). destruct (decide (j = i)) as [->|]; [by left|right; exists j; split; [lia|done] ].
Qed.

(** The data blocks of [y] are those of [d0]. *)
Definition same_data (d0 : gmap Z buffer) (b0 : superblock) (y : yfs) : Prop :=
  sb y = b0 ∧ ¬ oom y ∧ ∀ c, is_data y c → disk y !! c = d0 !! c.

Lemma same_data_freed d0 b0 y y' P : fs_ok y → same_data d0 b0 y → freed y y' P → same_data d0 b0 y'.
Proof.
  intros F (E & Ho & Hd) D. split; [by rewrite (fr_sb _ _ _ D)|]. split; [by intros H; apply Ho, (fr_mem _ _ _ D)|].
  intros c Hc. assert (is_data y c) as Hc' by (unfold is_data in *; by rewrite <-(fr_sb _ _ _ D)). rewrite (fr_disk _ _ _ D); [by apply Hd|by apply is_data_not_map].
Qed.

Lemma free_indir_ok level d0 b0 y b :
  fs_ok y → same_data d0 b0 y → b ≠ 0 → (∀ c, reach d0 level b c → is_data y c) →
  ∃ y', free_indir_level level b y = Ok y' ∧ freed y y' (reach d0 level b).
Proof.
  revert y b. induction level as [|level IH]; intros y b F SD Hb Hr; cbn [free_indir_level]; (destruct (b =? 0) eqn:Eb; [lia|]).
  - pose proof SD as (_ & Ho & _). destruct (free_block_freed y b F Ho) as (y' & Hf & D); [apply Hr; by apply reach_0|].
    exists y'. split; [done|]. eapply freed_ext; [|exact D]. intros c. by rewrite reach_0.
  - pose proof SD as (Esb & Ho & Hd). assert (is_data y b) as Hdb by (apply Hr; exists []; split; [cbn; lia|done]).
    destruct (f_disk _ F b) as (table & Ht & Hok); [pose proof (f_layout _ F) as [L1 L2 L3 L4 L5 L6 L7 L8 L9]; unfold is_data in Hdb; lia|].
    assert (d0 !! b = Some table) as Ht0 by (rewrite <-Hd; done).
    destruct (kmalloc_cases y) as (ok & -> & Hokm). cbv iota beta. destruct ok; [|by destruct (Ho (Hokm eq_refl))].
    unfold bread. cbn [disk with_mem]. rewrite Ht. cbn [mbind res_bind]. pose proof (freed_mem y F) as D0. set (y0 := with_mem (tl (mem y)) y) in *.
    destruct (free_ptrs_ok (free_indir_level level) (reach d0 level) (λ z, fs_ok z ∧ same_data d0 b0 z) table 1024 0 y0 Hok) as (y1 & Hp & D1).
    + lia.
    + lia.
    + split; [apply D0|by eapply same_data_freed].
    + apply D0.
    + intros z z' P [Fz SDz] Dz. split; [apply Dz|by eapply same_data_freed].
    + intros j z Hj Hne Fz [_ SDz]. apply IH; [done|done|done|]. intros c Hc. assert (is_data y c) as Hc' by (apply Hr; apply (reach_S d0 level b table); [done|done|right; exists j; done]).
      unfold is_data in *. destruct SDz as (-> & _). by rewrite <-Esb.
    + change (Z.to_nat PTRS_PER_BLOCK) with 1024%nat. rewrite Hp. cbn [mbind res_bind].
      assert (is_data y1 b) as Hdb1 by (unfold is_data in *; by rewrite (fr_sb _ _ _ D1)).
      assert (¬ oom y1) as Ho1 by (intros H; by apply Ho, (fr_mem _ _ _ D0), (fr_mem _ _ _ D1)).
      destruct (free_block_freed y1 b (fr_ok _ _ _ D1) Ho1 Hdb1) as (y2 & -> & D2). exists y2. split; [done|].
      eapply freed_ext; [|eapply freed_trans; [exact D0|eapply freed_trans; [exact D1|exact D2] ] ]. intros c. cbn. rewrite (reach_S d0 level b table) by done. split.
      * intros [ []|[(j & ? & ? & ?) | ->] ]; [right; exists j; done|by left].
      * intros [->|(j & ? & ? & ?)]; [by right; right|right; left; exists j; done].
Qed.

(** ** Truncation *)

(** The blocks of file [ino]. *)
Definition owned (y : yfs) (nodes : Z → inode) (ino c : Z) : Prop :=
  ∃ slot path, 0 ≤ slot < 15 ∧ valid lvl (ino, slot) path ∧ fwalk y nodes (ino, slot) path = c ∧ c ≠ 0.

Lemma owned_reach y nodes ino c : is_ino y ino →
  (owned y nodes ino c ↔ ∃ slot, 0 ≤ slot < 15 ∧ reach (disk y) (lvl (ino, slot)) (slot_ptr (nodes ino) slot) c).
Proof.
  intros Hi. unfold owned, reach, valid. split.
  - intros (slot & path & Hs & [Hl Hf] & Hw & Hne). exists slot. split; [done|]. exists path. split; [done|]. split; [done|].
    split; [|done]. unfold fwalk, walk in Hw. by rewrite roots_at in Hw.
  - intros (slot & Hs & path & Hl & Hf & Hw & Hne). exists slot, path. split; [done|]. split; [done|]. split; [|done]. unfold fwalk, walk. by rewrite roots_at.
Qed.

Lemma free_direct_ok l y :
  fs_ok y → ¬ oom y → (∀ c, c ∈ l → c ≠ 0 → is_data y c) → ∃ y', free_direct l y = Ok y' ∧ freed y y' (λ c, c ∈ l ∧ c ≠ 0).
Proof.
  revert y. induction l as [|p l IH]; intros y F Ho Hl; cbn [free_direct].
  { exists y. split; [done|]. apply freed_none; [done|]. intros c [Hc _]. by apply not_elem_of_nil in Hc. }
  assert (∃ y1, (if p =? 0 then Ok y else free_block p y) = Ok y1 ∧ freed y y1 (λ c, c = p ∧ c ≠ 0)) as (y1 & -> & D1).
  { destruct (p =? 0) eqn:E.
    - exists y. split; [done|]. apply freed_none; [done|]. intros c [-> ?]. lia.
    - destruct (free_block_freed y p F Ho) as (y1 & Hy & D); [apply Hl; [by left|lia]|]. exists y1. split; [done|]. eapply freed_ext; [|exact D]. intros c. split; [intros ->; split; [done|lia]|by intros [-> _] ]. }
  cbn [mbind res_bind]. destruct (IH y1) as (y' & -> & D2).
  - apply D1.
  - by intros H; apply Ho, (fr_mem _ _ _ D1).
  - intros c Hc Hne. unfold is_data. rewrite (fr_sb _ _ _ D1). apply Hl; [by right|done].
  - exists y'. split; [done|]. eapply freed_ext; [|by eapply freed_trans]. intros c. cbn. rewrite elem_of_cons. tauto.
Qed.

(** One of the three trees. *)
Lemma free_root_ok level p d0 b0 y :
  fs_ok y → same_data d0 b0 y → (∀ c, reach d0 level p c → is_data y c) →
  ∃ y', (if p =? 0 then Ok y else free_indir_level level p y) = Ok y' ∧ freed y y' (reach d0 level p).
Proof.
  intros F SD Hr. destruct (p =? 0) eqn:E; [|apply free_indir_ok with (b0 := b0); [done|done|lia|done] ].
  exists y. split; [done|]. apply freed_none; [done|]. intros c (rho & _ & _ & Hc & Hne). apply Z.eqb_eq in E. by rewrite E, foldl_child_0 in Hc.
Qed.

Definition truncated (n : inode) : inode :=
  Inode (i_id n) (i_type n) 0 (i_flags n) (i_created_at n) (i_modified_at n) (replicate (length (i_direct n)) 0) 0 0 0 (i_padding n).

Lemma fwalk_data y nodes k path c : files_ok y nodes → valid lvl k path → fwalk y nodes k path = c → c ≠ 0 → is_data y c.
Proof. intros FO Hv Hw Hne. by destruct (fwalk_live y nodes k path c FO Hv Hw Hne). Qed.

Lemma truncate_frees y nodes ino :
  files_ok y nodes → ¬ oom y → is_ino y ino →
  ∃ y', truncate_inode (nodes ino) y = Ok (truncated (nodes ino), y') ∧ freed y y' (owned y nodes ino).
Proof.
  intros FO Ho Hi. pose proof FO as [F Fo Fn]. pose proof (Fn ino Hi) as Hok. destruct (slot_table _ Hok) as (E12 & E13 & E14).
  assert (∀ slot c, 0 ≤ slot < 15 → reach (disk y) (lvl (ino, slot)) (slot_ptr (nodes ino) slot) c → is_data y c) as Hdata.
  { intros slot c Hs Hr. destruct (proj2 (owned_reach y nodes ino c Hi) ltac:(by exists slot)) as (s & path & _ & Hv & Hw & Hne). by eapply fwalk_data. }
  assert (∀ c, c ∈ i_direct (nodes ino) ∧ c ≠ 0 ↔ ∃ slot, 0 ≤ slot < 12 ∧ reach (disk y) (lvl (ino, slot)) (slot_ptr (nodes ino) slot) c) as Hdir.
  { intros c. pose proof (in_direct _ Hok) as Hd. assert (∀ slot, 0 ≤ slot < 12 → lvl (ino, slot) = 0%nat) as Hl0 by (intros; unfold lvl; cbn; lia). split.
    - intros [(j & Hj)%list_elem_of_lookup Hne]. pose proof (lookup_lt_Some _ _ _ Hj). exists (Z.of_nat j). split; [lia|]. rewrite Hl0 by lia. exists []. split; [done|]. split; [done|].
      split; [|done]. cbn. unfold slot_ptr. rewrite Nat2Z.id, lookup_app_l by lia. by rewrite Hj.
    - intros (slot & Hs & rho & Hl & _ & Hw & Hne). rewrite Hl0 in Hl by done. destruct rho; [|cbn in Hl; lia]. cbn in Hw. split; [|done].
      unfold slot_ptr in Hw. rewrite lookup_app_l in Hw by lia. destruct (lookup_lt_is_Some_2 (i_direct (nodes ino)) (Z.to_nat slot)) as [p Hp]; [lia|].
      rewrite Hp in Hw. cbn in Hw. subst p. by eapply list_elem_of_lookup_2. }
  unfold truncate_inode. destruct (free_direct_ok (i_direct (nodes ino)) y F Ho) as (y1 & -> & D1).
  { intros c Hc Hne. destruct (proj1 (Hdir c) (conj Hc Hne)) as (slot & Hs & Hr). apply (Hdata slot); [lia|done]. }
  cbn [mbind res_bind]. assert (same_data (disk y) (sb y) y) as SD by done. pose proof (same_data_freed _ _ _ _ _ F SD D1) as SD1.
  assert (∀ z slot c, sb z = sb y → 0 ≤ slot < 15 → reach (disk y) (lvl (ino, slot)) (slot_ptr (nodes ino) slot) c → is_data z c) as Hdata'
    by (intros z slot c Ez Hs Hr; unfold is_data; rewrite Ez; by apply (Hdata slot)).
  rewrite <-E12, <-E13, <-E14.
  destruct (free_root_ok 1 (slot_ptr (nodes ino) 12) (disk y) (sb y) y1 (fr_ok _ _ _ D1) SD1) as (y2 & -> & D2); [intros c; apply (Hdata' y1 12); [apply SD1|lia]|].
  cbn [mbind res_bind]. pose proof (same_data_freed _ _ _ _ _ (fr_ok _ _ _ D1) SD1 D2) as SD2.
  destruct (free_root_ok 2 (slot_ptr (nodes ino) 13) (disk y) (sb y) y2 (fr_ok _ _ _ D2) SD2) as (y3 & -> & D3); [intros c; apply (Hdata' y2 13); [apply SD2|lia]|].
  cbn [mbind res_bind]. pose proof (same_data_freed _ _ _ _ _ (fr_ok _ _ _ D2) SD2 D3) as SD3.
  destruct (free_root_ok 3 (slot_ptr (nodes ino) 14) (disk y) (sb y) y3 (fr_ok _ _ _ D3) SD3) as (y4 & -> & D4); [intros c; apply (Hdata' y3 14); [apply SD3|lia]|].
  cbn [mbind res_bind]. exists y4. split; [done|].
  eapply freed_ext; [|eapply freed_trans; [exact D1|eapply freed_trans; [exact D2|eapply freed_trans; [exact D3|exact D4] ] ] ].
  intros c. cbn. rewrite owned_reach, Hdir by done. split.
  - intros [(slot & Hs & Hr)|[Hr|[Hr|Hr] ] ]; [exists slot|exists 12|exists 13|exists 14]; (split; [lia|done]).
  - intros (slot & Hs & Hr). destruct (decide (slot < 12)); [left; exists slot; split; [lia|done]|].
    assert (slot = 12 ∨ slot = 13 ∨ slot = 14) as [-> | [-> | ->] ] by lia; auto.
Qed.

Lemma slot_ptr_zero n slot : i_direct n = replicate 12 0 → i_indirect n = 0 → i_doubly_indirect n = 0 → i_triply_indirect n = 0 → slot_ptr n slot = 0.
Proof.
  intros E1 E2 E3 E4. unfold slot_ptr. rewrite E1, E2, E3, E4. change ((replicate 12 0 ++ [0; 0; 0]) !! Z.to_nat slot) with (replicate 15 0 !! Z.to_nat slot).
  destruct (replicate 15 0 !! Z.to_nat slot) as [v|] eqn:E; [|done]. apply lookup_replicate in E as [-> _]. done.
Qed.

Lemma live_freed y y' P b : freed y y' P → (live y' b ↔ live y b ∧ ¬ P b).
Proof.
  intros D. unfold live, is_data. rewrite (fr_sb _ _ _ D). split.
  - intros [Hd Hu]. apply (fr_blk _ _ _ D) in Hu; [tauto|done].
  - intros [ [Hd Hu] HP]. split; [done|]. apply (fr_blk _ _ _ D); done.
Qed.

(** The other files after the pointers of [ino] are gone. *)
Lemma files_truncated y nodes ino y' n' :
  files_ok y nodes → is_ino y ino → freed y y' (owned y nodes ino) → inode_ok n' → (∀ slot, slot_ptr n' slot = 0) →
  files_ok y' (upd_node nodes ino n') ∧ ∀ i pos, is_u32 pos → fbyte y' (upd_node nodes ino n') i pos = if decide (i = ino) then 0 else fbyte y nodes i pos.
Proof.
  intros FO Hi D Hn Hz. pose proof FO as [F Fo Fn]. pose proof (fr_sb _ _ _ D) as Esb.
  assert (∀ c, live y c → disk y' !! c = disk y !! c) as Hd by (intros c Hc; apply (fr_disk _ _ _ D); by apply (live_facts y c F)).
  assert (∀ k path, valid lvl k path → fwalk y' (upd_node nodes ino n') k path = if decide (k.1 = ino) then 0 else fwalk y nodes k path) as Hw.
  { intros [i sl] path Hv. cbn [fst]. case_decide as E.
    - subst i. apply walk_null. unfold fwalk, walk, roots; cbn. destruct (_ && _); [|done]. unfold upd_node. rewrite bool_decide_true by done. apply Hz.
    - destruct (forest_frame lvl (live y) (disk y) (disk y') _ Fo Hd) as [_ Hfr]. unfold fwalk. rewrite <-(Hfr (i, sl) path Hv).
      unfold walk, roots; cbn [fst snd]. unfold upd_node. rewrite bool_decide_false, Esb by done. done. }
  split.
  - split; [apply D| |intros i Hi'; apply upd_node_ok with (y := y); [done|done|unfold is_ino in *; by rewrite <-Esb] ]. split.
    + intros k path Hv Hne. fold (fwalk y' (upd_node nodes ino n') k path) in *. rewrite Hw in * by done. case_decide as E; [done|].
      apply (live_freed _ _ _ _ D). split; [by eapply fwalk_live|]. intros (slot & path' & Hs & Hv' & Hw' & _).
      destruct (fo_inj _ _ _ _ Fo k path (ino, slot) path' Hv Hv' Hne) as [Ek _]; [by symmetry|]. apply E. by rewrite Ek.
    + intros b [Hl _]%(live_freed _ _ _ _ D). rewrite Hd by done. by apply Fo.
    + intros k path k' path' Hv Hv'. fold (fwalk y' (upd_node nodes ino n') k path) (fwalk y' (upd_node nodes ino n') k' path'). rewrite !Hw by done.
      destruct (decide (k.1 = ino)), (decide (k'.1 = ino)); try done. by apply Fo.
  - intros i pos Hp. destruct (pos_block pos Hp) as (Hb & _ & Hm). destruct (path_valid (pos / 4096) i Hb) as (_ & Hv & _).
    unfold fbyte, fleaf, leaf. cbv zeta. rewrite Hw by done. cbn [fst]. case_decide as E.
    + cbn [Z.eqb]. destruct (replicate 4096 0 !! Z.to_nat (pos `mod` 4096)) as [v|] eqn:Ev; [|done]. by apply lookup_replicate in Ev as [-> _].
    + set (p := fwalk y nodes _ _). destruct (p =? 0) eqn:E0; [done|]. rewrite Hd; [done|]. eapply fwalk_live; [done|done|done|lia].
Qed.

(** ** Deletion *)

Lemma clear_ok ino : is_u32 ino → inode_ok (clear_inode_to_free ino) ∧ ∀ slot, slot_ptr (clear_inode_to_free ino) slot = 0.
Proof.
  intros Hi. split; [|intros slot; by apply slot_ptr_zero]. split; [repeat (constructor; [done|]); constructor|done|split; [done|by apply Forall_replicate] ].
Qed.

(** The table is not touched by what leaves all but the maps alone. *)
Lemma inode_of_same y y' i :
  fs_ok y → table_fits (sb y) → is_ino y i → inode_table_start (sb y') = inode_table_start (sb y) →
  (∀ c, ¬ is_map y c → c < data_start (sb y) → 1 < c → disk y' !! c = disk y !! c) → inode_of y' i = inode_of y i.
Proof.
  intros F Fit Hi E Hd. destruct (inode_index (sb y) i Hi Fit) as (I1 & I2 & I3). pose proof (f_layout _ F) as [L1 L2 L3 L4 L5 L6 L7 L8 L9].
  unfold inode_of. rewrite E, Hd; [done|unfold is_map; lia|done|lia].
Qed.

(** Freeing an inode leaves the files. *)
Lemma sys_moved cpu k s y' fi :
  sys_ok cpu k s → moved (fs s) y' (blk_used (fs s)) fi →
  sys_ok cpu k (with_fs y' s) ∧ (∀ i, is_ino (fs s) i → inode_of y' i = inode_of (fs s) i) ∧
  (∀ i pos, is_u32 pos → fbyte y' (inode_of y') i pos = byte_of s i pos) ∧ ∀ b, live y' b ↔ live (fs s) b.
Proof.
  intros [CP FO] [F' Esb Hb Hi Hd Hm]. pose proof (fl_fs _ _ FO) as F. pose proof CP as [_ Fit _ _].
  assert (∀ i, is_ino (fs s) i → inode_of y' i = inode_of (fs s) i) as Hin.
  { intros i Hi'. apply inode_of_same; [done|done|done|by rewrite Esb|]. intros c Hc _ _. by apply Hd. }
  assert (∀ b, live y' b ↔ live (fs s) b) as Hlive by (intros b; unfold live, is_data; rewrite Esb; split; intros [Hdt Hu]; (split; [done|]); [rewrite <-Hb|rewrite Hb]; done).
  destruct (files_frame (fs s) (inode_of (fs s)) y' (inode_of y') FO F') as [FO' Hbytes]; [by rewrite Esb|done| | | |].
  - intros b Hl. apply Hd. by apply (live_facts (fs s) b F).
  - intros [i sl]. unfold roots; cbn. destruct ((0 <=? i) && (i <? total_inodes (sb (fs s))) && (0 <=? sl) && (sl <? 15)) eqn:Ek; [|done].
    rewrite Hin; [done|]. unfold is_ino. lia.
  - intros i Hi'. rewrite Hin by done. by apply (fl_node _ _ FO).
  - split; [|done]. split; [|done]. apply cpu_ok_frame; [done|done|by rewrite Esb..|]. intros b Hbt. apply Hd. rewrite Esb in Hbt.
    pose proof (f_layout _ F) as [L1 L2 L3 L4 L5 L6 L7 L8 L9]. unfold is_map. lia.
Qed.

Lemma sys_flush cpu k s :
  sys_ok cpu k s →
  sys_ok cpu k (with_fs (flush_sb (fs s)) s) ∧ (∀ i, is_ino (fs s) i → inode_of (flush_sb (fs s)) i = inode_of (fs s) i) ∧
  (∀ i pos, is_u32 pos → fbyte (flush_sb (fs s)) (inode_of (flush_sb (fs s))) i pos = byte_of s i pos) ∧ ∀ b, live (flush_sb (fs s)) b ↔ live (fs s) b.
Proof.
  intros [CP FO]. pose proof (fl_fs _ _ FO) as F. destruct (files_flush (fs s) FO) as [FOf Hbf]. destruct (flush_facts (fs s) F) as (Ff & (v & Ef) & Hl).
  pose proof (f_layout _ F) as [L1 L2 L3 L4 L5 L6 L7 L8 L9]. split; [|split; [intros i Hi; by apply inode_of_flush|done] ]. split; [|done].
  apply cpu_ok_frame; [done|done|by rewrite Ef..|]. intros b Hb. rewrite Ef in *. cbn in *. apply lookup_insert_ne. lia.
Qed.

Lemma ino_used_flush y i : fs_ok y → is_ino y i → ino_used (flush_sb y) i = ino_used y i.
Proof.
  intros F Hi. unfold flush_sb. cbv zeta. set (y1 := with_sb _ y).
  pose proof (fs_ok_set_free (global_free_blocks y) (global_free_inodes y) y F) as F1. fold y1 in F1. pose proof (f_layout _ F) as [L1 L2 L3 L4 L5 L6 L7 [L8 L8'] L9].
  rewrite (bwrite_in y1) by (done || (cbn; lia)).
  destruct (fs_ok_write y1 1 (sb_bytes (sb y1)) F1) as (_ & _ & V); [unfold is_map; cbn; lia|by apply sb_bytes_ok|]. exact (V i Hi).
Qed.

(** What is left of the file system when file [ino] is gone. *)
Record deleted (cpu k : Z) (s s' : fsys) (ino : Z) : Prop := {
  de_sys : sys_ok cpu k s';
  de_mem : oom (fs s') → oom (fs s);
  de_total : total_inodes (sb (fs s')) = total_inodes (sb (fs s));
  de_live b : live (fs s') b ↔ live (fs s) b ∧ ¬ owned (fs s) (inode_of (fs s)) ino b;
  de_ino i : is_ino (fs s) i → ino_used (fs s') i = negb (bool_decide (i = ino)) && ino_used (fs s) i;
  de_inode i : is_ino (fs s) i → inode_of (fs s') i = if decide (i = ino) then clear_inode_to_free ino else inode_of (fs s) i;
  de_byte i pos : is_u32 pos → byte_of s' i pos = if decide (i = ino) then 0 else byte_of s i pos;
  de_disk b : is_data (fs s) b → disk (fs s') !! b = disk (fs s) !! b;
  de_blocks : total_blocks (sb (fs s')) = total_blocks (sb (fs s)) ∧ data_start (sb (fs s')) = data_start (sb (fs s));
}.

Lemma finalize_ok cpu k ino s :
  0 ≤ k → sys_ok cpu (k + 2) s → ¬ oom (fs s) → 0 < ino < total_inodes (sb (fs s)) →
  ∃ s', inode_finalize_deferred_delete_locked cpu ino (inode_of (fs s) ino) s = Ok (0, s') ∧ deleted cpu k s s' ino.
Proof.
  intros Hk [CP FO] Ho Hi. assert (is_ino (fs s) ino) as Hino by (unfold is_ino; lia). pose proof (fl_fs _ _ FO) as F. pose proof CP as [_ Fit _ _].
  pose proof (f_layout _ F) as [L1 L2 L3 L4 L5 L6 L7 L8 L9]. destruct (clear_ok ino) as [Hc Hcz]; [unfold is_u32; lia|].
  unfold inode_finalize_deferred_delete_locked. destruct (truncate_frees (fs s) (inode_of (fs s)) ino FO Ho Hino) as (y1 & -> & D). cbn [mbind res_bind snd].
  destruct (files_truncated (fs s) (inode_of (fs s)) ino y1 (clear_inode_to_free ino) FO Hino D Hc Hcz) as [FO1 Hb1]. pose proof (fr_sb _ _ _ D) as E1.
  assert (cpu_ok cpu (k + 2) (with_fs y1 s)) as CP1.
  { apply cpu_ok_frame; [done|apply D|by rewrite E1..|]. intros b Hb. rewrite E1 in Hb. apply (fr_disk _ _ _ D). unfold is_map. lia. }
  assert (∀ i, is_ino (fs s) i → inode_of y1 i = inode_of (fs s) i) as Hin1.
  { intros i Hi'. apply inode_of_same; [done|done|done|by rewrite E1|]. intros c Hcm _ _. by apply (fr_disk _ _ _ D). }
  destruct (sync_write_ok cpu k ino (upd_node (inode_of (fs s)) ino (clear_inode_to_free ino)) (clear_inode_to_free ino) s y1) as (s2 & -> & SS2 & Sy & Hn2 & Ho2 & Hb2); try done.
  { by intros H; apply Ho, (fr_mem _ _ _ D). } { by rewrite E1. }
  { intros i Hi' Hne. unfold upd_node. rewrite bool_decide_false by done. apply Hin1. unfold is_ino in *. by rewrite <-E1. }
  { intros slot. unfold upd_node. by rewrite bool_decide_true. }
  cbn [mbind res_bind snd]. pose proof (sy_sb _ _ Sy) as E2. assert (∀ i, is_ino (fs s) i → is_ino (fs s2) i) as Hin2 by (intros i; unfold is_ino; by rewrite E2, E1).
  destruct (free_inode_ok (fs s2) ino) as (y3 & -> & Hm3); [apply SS2|lia|].
  assert (¬ oom (fs s2)) as Ho2' by (intros H; by apply Ho, (fr_mem _ _ _ D), (sy_mem _ _ Sy)).
  destruct Hm3 as [ [_ M]|[_ [?|[?|?] ] ] ]; [|lia|rewrite E2, E1 in *; lia|done].
  cbn [mbind res_bind]. destruct (sys_moved cpu k s2 y3 _ SS2 M) as (SS3 & Hi3 & Hb3 & Hl3). set (s3 := with_fs y3 s2) in *.
  destruct (sys_flush cpu k s3 SS3) as (SS4 & Hi4 & Hb4 & Hl4). pose proof (fl_fs _ _ (ss_files _ _ _ SS3)) as F3. change (fs s3) with y3 in *.
  assert (∀ i, is_ino (fs s) i → is_ino y3 i) as Hin3 by (intros i; unfold is_ino; by rewrite (mv_sb _ _ _ _ M), E2, E1).
  assert (∀ i, is_ino (fs s) i → is_ino y1 i) as Hin1' by (intros i; unfold is_ino; by rewrite E1).
  exists (with_fs (flush_sb y3) s3). split; [done|]. split; cbn [fs with_fs].
  - exact SS4.
  - intros H. apply (fr_mem _ _ _ D), (sy_mem _ _ Sy), (mv_mem _ _ _ _ M). destruct (flush_facts y3 F3) as (_ & (v & Ev) & _). by rewrite Ev in H.
  - destruct (flush_facts y3 F3) as (_ & (v & ->) & _). cbn. by rewrite (mv_sb _ _ _ _ M), E2, E1.
  - intros b. rewrite Hl4, Hl3, (synced_live _ _ b Sy). by apply live_freed.
  - intros i Hi'. rewrite ino_used_flush by auto. rewrite (mv_ino _ _ _ _ M) by auto. by rewrite (sy_ino _ _ Sy), (fr_ino _ _ _ D) by auto.
  - intros i Hi'. rewrite Hi4, Hi3 by auto. case_decide as E; [by subst i|]. rewrite Ho2 by auto. unfold upd_node. by rewrite bool_decide_false.
  - intros i pos Hp. unfold byte_of at 1. cbn [fs with_fs]. rewrite Hb4 by done. unfold byte_of at 1. change (fs s3) with y3. rewrite Hb3, Hb2, Hb1 by done. done.
  - intros b Hb. pose proof (is_data_not_map _ _ F Hb) as Hm. destruct (flush_facts y3 F3) as (_ & (v & ->) & _). cbn. unfold is_data, is_map in *.
    rewrite lookup_insert_ne by lia. rewrite (mv_disk _ _ _ _ M), (sy_disk _ _ Sy), (fr_disk _ _ _ D); [done|done|rewrite E1; lia|unfold is_map; rewrite E2, E1; done].
  - destruct (flush_facts y3 F3) as (_ & (v & ->) & _). cbn. by rewrite (mv_sb _ _ _ _ M), E2, E1.
Qed.

Lemma kept_owned cpu k s s' ino b : kept cpu k s s' → (owned (fs s') (inode_of (fs s')) ino b ↔ owned (fs s) (inode_of (fs s)) ino b).
Proof. intros K. unfold owned. split; intros (slot & path & Hs & Hv & Hw & Hne); exists slot, path; rewrite (kp_walk _ _ _ _ K) in *; done. Qed.

Lemma deleted_kept cpu k k' s1 s2 s3 ino : kept cpu k' s1 s2 → deleted cpu k s2 s3 ino → deleted cpu k s1 s3 ino.
Proof.
  intros K [D1 D2 D3 D4 D5 D6 D7 D8 D9]. pose proof (kp_sb _ _ _ _ K) as E.
  assert (∀ i, is_ino (fs s1) i → is_ino (fs s2) i) as Hi by (intros i; unfold is_ino; by rewrite E).
  split; [done|by intros H; apply (kp_mem _ _ _ _ K), D2|by rewrite D3, E| | | | | |by rewrite <-E].
  - intros b. by rewrite D4, (kp_live _ _ _ _ K), (kept_owned _ _ _ _ _ _ K).
  - intros i Hi'. by rewrite D5, (kp_used _ _ _ _ K) by auto.
  - intros i Hi'. by rewrite D6, (kp_inode _ _ _ _ K) by auto.
  - intros i pos Hp. by rewrite D7, (kp_byte _ _ _ _ K) by done.
  - intros b Hb. rewrite D8, (kp_disk _ _ _ _ K); [done|done|]. unfold is_data in *. by rewrite E.
Qed.

Lemma sys_ok_weaken cpu k k' s : k' ≤ k → sys_ok cpu k s → sys_ok cpu k' s.
Proof. intros Hk [ [F Fit Hc (c & Hcc & C & Hs)] FO]. split; [|done]. split; try done. exists c. split; [done|]. split; [done|lia]. Qed.

(** A file that was unlinked while it was open. *)
Definition deferred (s : fsys) (ino : Z) : Prop := Z.land (i_flags (inode_of (fs s) ino)) YFS_INODE_F_DEFERRED_DELETE ≠ 0.

Lemma finalize_if_needed_ok cpu k ino s :
  0 ≤ k → sys_ok cpu (k + 6) s → ¬ oom (fs s) → 0 < ino < total_inodes (sb (fs s)) →
  ∃ s', inode_finalize_if_needed cpu ino s = Ok (0, s') ∧ (deferred s ino ∧ deleted cpu k s s' ino ∨ ¬ deferred s ino ∧ kept cpu k s s').
Proof.
  intros Hk SS Ho Hi. assert (is_ino (fs s) ino) as Hino by (unfold is_ino; lia). unfold inode_finalize_if_needed, deferred.
  replace (k + 6) with (k + 4 + 2) in SS by lia. destruct (sync_read_ok cpu (k + 4) ino no_inode s) as (s1 & -> & K1); [lia|done..|]. cbn [mbind res_bind negb].
  destruct (Z.land (i_flags (inode_of (fs s) ino)) YFS_INODE_F_DEFERRED_DELETE =? 0) eqn:E.
  { exists s1. split; [done|]. right. split; [lia|]. destruct K1 as [KS ? ? ? ? ? ? ? ? ?]. split; try done. by eapply sys_ok_weaken; [|exact KS]; lia. }
  destruct (sync_read_ok cpu (k + 2) ino (inode_of (fs s) ino) s1) as (s2 & -> & K2);
    [lia|eapply sys_ok_weaken; [|apply K1]; lia|by intros H; apply Ho, (kp_mem _ _ _ _ K1)|by rewrite (kp_sb _ _ _ _ K1)|]. cbn [mbind res_bind negb].
  rewrite (kp_inode _ _ _ _ K1) by done. rewrite E. pose proof (kept_trans _ _ _ _ _ _ K1 K2) as K.
  destruct (finalize_ok cpu k ino s2) as (s3 & Hf & D); [done|apply K|by intros H; apply Ho, (kp_mem _ _ _ _ K)|by rewrite (kp_sb _ _ _ _ K)|].
  rewrite (kp_inode _ _ _ _ K) in Hf by done. rewrite Hf. exists s3. split; [done|]. left. split; [lia|]. by eapply deleted_kept.
Qed.


(** File 2 of the small disk, unlinked and open once. *)
Definition demo_unlinked : fsys :=
  match sync_inode 0 2 (Inode 2 YFS_TYPE_FILE 0 1 0 0 (replicate 12 0) 0 0 0 (replicate 44 0)) true demo_sys with Ok r => r.2 | _ => demo_sys end.

Lemma demo_unlinked_ok k : 0 ≤ k → k < 4294967290 → sys_ok 0 k demo_unlinked.
Proof.
  intros Hk Hk'. pose proof (demo_sys_ok 0 (k + 2) ltac:(by left) ltac:(lia)) as [CP FO]. set (n := Inode 2 YFS_TYPE_FILE 0 1 0 0 (replicate 12 0) 0 0 0 (replicate 44 0)).
  assert (inode_ok n) as Hn by (split; [repeat (constructor; [done|]); constructor|done|split; [done|by apply Forall_replicate] ]).
  destruct (sync_write_ok 0 k 2 (inode_of demo_fs) n demo_sys demo_fs) as (s' & Hs & SS & _); [exact Hk|exact CP|exact FO| | |intros; reflexivity|exact Hn| |].
  - intros H. by apply H.
  - change (total_inodes (sb demo_fs)) with 128. lia.
  - assert (inode_of demo_fs 2 = inode_in (replicate 4096 0) 2) as E by (apply (demo_inode_of 2); lia). intros slot. rewrite E.
    rewrite !slot_ptr_zero by (by vm_compute). done.
  - unfold demo_unlinked. fold n. change (with_fs demo_fs demo_sys) with demo_sys in Hs. by rewrite Hs.
Qed.

