(* ===== verification/YfsDcache.v ===== *)
(** * YulaFS: the cache of directory entries

    [dcache_insert], [dcache_lookup], [dcache_invalidate_entry],
    [dcache_clear_all] and the shrinker of [src/src/fs/yulafs.cpp].  A key is an
    inode and a name of at most 59 bytes; the hash table is a finite map, with
    the least-recently-used list beside it.  A name is a C string without its
    terminator.  [slab] says which allocations of an entry succeed. *)

From S2P Require Import Prelude Bdev YfsBitmap YfsWords Yfs YfsInode YfsFile.

Definition YFS_NAME_MAX : Z := 60.

Abbreviation name := (list Z).
Abbreviation dkey := (Z * name)%type.

(** What [strlcpy] keeps of a name in an array of [YFS_NAME_MAX]. *)
Definition trunc (nm : name) : name := take 59 nm.

Record dcache := Dcache { dc_table : gmap dkey Z; dc_lru : list dkey; dc_slab : list bool }.

Definition kmem_cache_alloc (c : dcache) : bool * dcache :=
  (match dc_slab c with [] => true | b :: _ => b end, Dcache (dc_table c) (dc_lru c) (tl (dc_slab c))).

(** An entry that is there already stays as it is. *)
Definition dcache_insert (parent : Z) (nm : name) (target : Z) (c : dcache) : dcache :=
  match nm with
  | [] => c
  | _ =>
      let '(ok, c) := kmem_cache_alloc c in
      if negb ok then c
      else
        let key := (parent, trunc nm) in
        match dc_table c !! key with
        | Some _ => c
        | None => Dcache (<[key := target]> (dc_table c)) (dc_lru c ++ [key]) (dc_slab c)
        end
  end.

Definition dcache_lookup (parent : Z) (nm : name) (c : dcache) : Z :=
  match nm with [] => 0 | _ => default 0 (dc_table c !! (parent, trunc nm)) end.

Definition dcache_invalidate_entry (parent : Z) (nm : name) (c : dcache) : dcache :=
  match nm with
  | [] => c
  | _ =>
      let key := (parent, trunc nm) in
      match dc_table c !! key with
      | None => c
      | Some _ => Dcache (delete key (dc_table c)) (filter (λ k, k ≠ key) (dc_lru c)) (dc_slab c)
      end
  end.

(** [for (;;)]: take the head of the list, remove it from the table. *)
Fixpoint clear_loop (l : list dkey) (t : gmap dkey Z) : gmap dkey Z :=
  match l with [] => t | key :: l => clear_loop l (delete key t) end.

Definition dcache_clear_all (c : dcache) : dcache := Dcache (clear_loop (dc_lru c) (dc_table c)) [] (dc_slab c).

(** [4096 / sizeof(DcacheEntry)]: 8 bytes of hash node, 8 of RCU head, 8 of list
    links, 64 of key and 4 of target on the 32-bit target. *)
Definition entries_per_page : Z := 4096 / 92.

(** [while (freed < target_entries)] *)
Fixpoint shrink_loop (l : list dkey) (t : gmap dkey Z) (freed target_entries : Z) : list dkey * gmap dkey Z * Z :=
  match l with
  | [] => ([], t, freed)
  | key :: l' =>
      if negb (freed <? target_entries) then (l, t, freed)
      else
        match t !! key with
        | Some _ => shrink_loop l' (delete key t) (freed + 1) target_entries
        | None => shrink_loop l' t freed target_entries
        end
  end.

Definition yulafs_dcache_shrinker_cb (target_pages : Z) (c : dcache) : Z * dcache :=
  let target_entries := u32 (target_pages * entries_per_page) in
  let target_entries := if target_entries =? 0 then 1 else target_entries in
  let '(l, t, freed) := shrink_loop (dc_lru c) (dc_table c) 0 target_entries in
  (freed / entries_per_page, Dcache t l (dc_slab c)).
