(* ===== verification/YfsDir.v ===== *)
(** * YulaFS: directories and paths

    [dir_find], [dir_link], [dir_unlink], the walk along a path, [create_obj],
    [unlink], [lookup] and [rename] of [src/src/fs/yulafs.cpp].  A directory is a
    file of 64-byte entries.  Every call runs on CPU [cpu]; [cwd] is the inode of
    the current directory and [junk] what is on the stack where an inode is read
    without looking at the result. *)

From S2P Require Import Prelude Bdev YfsBitmap YfsWords Yfs YfsAlloc YfsOps YfsVolume YfsInode YfsForest YfsBlockMap YfsFile YfsDcache.

(** The open files, the cache of entries, and whether the file system is mounted. *)
Record dirs := Dirs { d_open : opened; d_cache : dcache; d_mounted : bool }.

Definition d_sys (s : dirs) : fsys := osys (d_open s).
Definition with_sys (x : fsys) (s : dirs) : dirs := Dirs (Opened x (open_refs (d_open s))) (d_cache s) (d_mounted s).
Definition with_cache (c : dcache) (s : dirs) : dirs := Dirs (d_open s) c (d_mounted s).
Definition d_fs (s : dirs) : yfs := fs (d_sys s).
Definition with_yfs (y : yfs) (s : dirs) : dirs := with_sys (with_fs y (d_sys s)) s.

(** [sync_inode] on the whole state. *)
Definition dsync (cpu ino : Z) (data : inode) (write : bool) (s : dirs) : res (bool * inode * dirs) :=
  r ← sync_inode cpu ino data write (d_sys s); Ok (r.1.1, r.1.2, with_sys r.2 s).

(** ** Entries *)

Definition DIRENT : Z := 64.
Definition entries_per_block : Z := YFS_BLOCK_SIZE / DIRENT.

(** [strcmp(p, nm) == 0] with [p] at offset [off] of the buffer. *)
Fixpoint name_eq (buf : buffer) (off : Z) (nm : name) : res bool :=
  c ← arr_get buf off;
  match nm with
  | [] => Ok (c =? 0)
  | x :: nm => if c =? x then name_eq buf (off + 1) nm else Ok false
  end.

(** The first of [n] entries from [j] on that is in use under the name [nm]: its
    index and its inode. *)
Fixpoint find_entry (n : nat) (buf : buffer) (j : Z) (nm : name) : res (option (Z * Z)) :=
  match n with
  | O => Ok None
  | S n =>
      ino ← rd32 buf (DIRENT * j);
      eq ← (if ino =? 0 then Ok false else name_eq buf (DIRENT * j + 4) nm);
      if (eq : bool) then Ok (Some (j, ino)) else find_entry n buf (j + 1) nm
  end.

(** The first entry that is not in use. *)
Fixpoint free_entry (n : nat) (buf : buffer) (j : Z) : res (option Z) :=
  match n with
  | O => Ok None
  | S n => ino ← rd32 buf (DIRENT * j); if ino =? 0 then Ok (Some j) else free_entry n buf (j + 1)
  end.

(** [entries[j].inode = ino; strlcpy(entries[j].name, nm, YFS_NAME_MAX)] *)
Definition put_entry (buf : buffer) (j ino : Z) (nm : name) : res buffer :=
  buf ← wr32 buf (DIRENT * j) ino;
  arr_blit buf (DIRENT * j + 4) (trunc nm ++ [0]).

(** [entries[j].inode = 0; memset(entries[j].name, 0, YFS_NAME_MAX)] *)
Definition clear_entry (buf : buffer) (j : Z) : res buffer :=
  buf ← wr32 buf (DIRENT * j) 0;
  arr_blit buf (DIRENT * j + 4) (replicate 60 0).

Definition dir_blocks (dir : inode) : Z := u32 (i_size dir + YFS_BLOCK_SIZE - 1) / YFS_BLOCK_SIZE.

(** Where an entry was found. *)
Record found := Found { fd_lba : Z; fd_buf : buffer; fd_idx : Z; fd_ino : Z }.

(** [for (i = 0; i < blocks; i++)], as [dir_find], [dir_unlink] and
    [dir_unlink_entry_only] write it: [n] blocks left, [i] the next. *)
Fixpoint dir_scan (n : nat) (dir : inode) (i : Z) (nm : name) (y : yfs) : res (option found * yfs) :=
  match n with
  | O => Ok (None, y)
  | S n =>
      r ← resolve_block dir i false y;
      let lba := r.1.1 in
      let y := r.2 in
      if lba =? 0 then dir_scan n dir (i + 1) nm y
      else
        entries ← bread lba y;
        f ← find_entry (Z.to_nat entries_per_block) entries 0 nm;
        match f with
        | Some (j, ino) => Ok (Some (Found lba entries j ino), y)
        | None => dir_scan n dir (i + 1) nm y
        end
  end.

Definition dir_find (dir : inode) (nm : name) (s : dirs) : res (Z * dirs) :=
  let cached := dcache_lookup (i_id dir) nm (d_cache s) in
  if negb (cached =? 0) then Ok (cached, s)
  else
    r ← dir_scan (Z.to_nat (dir_blocks dir)) dir 0 nm (d_fs s);
    let s := with_yfs r.2 s in
    match r.1 with
    | Some f => Ok (fd_ino f, with_cache (dcache_insert (i_id dir) nm (fd_ino f) (d_cache s)) s)
    | None => Ok (0, s)
    end.

(** [while (1)]: a block that is full is in use, so no more turns than the disk
    has blocks, and one more, are made. *)
Fixpoint link_loop (fuel : nat) (cpu dir_ino : Z) (dir : inode) (blk_idx child_ino : Z) (nm : name) (s : fsys) : res (Z * fsys) :=
  match fuel with
  | O => Timeout
  | S fuel =>
      r ← resolve_block dir blk_idx true (fs s);
      let '(lba, dir, y) := r in
      if lba =? 0 then Ok (-1, with_fs y s)
      else
        entries ← bread lba y;
        f ← free_entry (Z.to_nat entries_per_block) entries 0;
        match f with
        | Some i =>
            entries ← put_entry entries i child_ino nm;
            let s := with_fs (bwrite lba entries y) s in
            let min_size := u32 ((blk_idx + 1) * YFS_BLOCK_SIZE) in
            if i_size dir <? min_size then
              w ← sync_inode cpu dir_ino (set_size min_size dir) true s; Ok (0, w.2)
            else Ok (0, s)
        | None => link_loop fuel cpu dir_ino dir (u32 (blk_idx + 1)) child_ino nm (with_fs y s)
        end
  end.

Definition dir_link (cpu dir_ino child_ino : Z) (nm : name) (junk : inode) (s : dirs) : res (Z * dirs) :=
  r ← dsync cpu dir_ino junk false s;
  let '(_, dir, s) := r in
  let s := with_cache (dcache_insert dir_ino nm child_ino (d_cache s)) s in
  let '(ok, y) := kmalloc (d_fs s) in
  let s := with_yfs y s in
  if negb ok then Ok (-1, s)
  else
    q ← link_loop (S (S (Z.to_nat (total_blocks (sb (d_fs s)))))) cpu dir_ino dir 0 child_ino nm (d_sys s);
    Ok (q.1, with_sys q.2 s).

Definition dir_unlink_entry_only (cpu dir_ino : Z) (nm : name) (junk : inode) (s : dirs) : res (Z * dirs) :=
  r ← dsync cpu dir_ino junk false s;
  let '(_, dir, s) := r in
  let s := with_cache (dcache_invalidate_entry dir_ino nm (d_cache s)) s in
  let '(ok, y) := kmalloc (d_fs s) in
  let s := with_yfs y s in
  if negb ok then Ok (-1, s)
  else
    q ← dir_scan (Z.to_nat (dir_blocks dir)) dir 0 nm (d_fs s);
    match q.1 with
    | Some f => entries ← clear_entry (fd_buf f) (fd_idx f); Ok (0, with_yfs (bwrite (fd_lba f) entries q.2) s)
    | None => Ok (-1, with_yfs q.2 s)
    end.

Definition set_flags (v : Z) (n : inode) : inode :=
  Inode (i_id n) (i_type n) (i_size n) v (i_created_at n) (i_modified_at n) (i_direct n) (i_indirect n) (i_doubly_indirect n) (i_triply_indirect n) (i_padding n).

(** What becomes of an inode whose entry is gone. *)
Definition drop_child (cpu child_id : Z) (junk : inode) (s : dirs) : res dirs :=
  r ← dsync cpu child_id junk false s;
  let '(ok, child, s) := r in
  if negb (ok : bool) then Ok s
  else
    let open_refs := default 0 (inode_rt child_id (d_open s)) in
    if open_refs =? 0 then
      q ← inode_finalize_deferred_delete_locked cpu child_id child (d_sys s); Ok (with_sys q.2 s)
    else
      q ← dsync cpu child_id (set_flags (Z.lor (i_flags child) YFS_INODE_F_DEFERRED_DELETE) child) true s; Ok q.2.

Definition dir_unlink (cpu dir_ino : Z) (nm : name) (junk : inode) (s : dirs) : res (Z * dirs) :=
  r ← dsync cpu dir_ino junk false s;
  let '(_, dir, s) := r in
  let s := with_cache (dcache_invalidate_entry dir_ino nm (d_cache s)) s in
  let '(ok, y) := kmalloc (d_fs s) in
  let s := with_yfs y s in
  if negb ok then Ok (-1, s)
  else
    q ← dir_scan (Z.to_nat (dir_blocks dir)) dir 0 nm (d_fs s);
    match q.1 with
    | Some f =>
        entries ← clear_entry (fd_buf f) (fd_idx f);
        s ← drop_child cpu (fd_ino f) junk (with_yfs (bwrite (fd_lba f) entries q.2) s);
        Ok (0, s)
    | None => Ok (-1, with_yfs q.2 s)
    end.

(** ** Paths *)

Definition slash : Z := 47.
Definition dot : name := [46].
Definition dotdot : name := [46; 46].

(** [while ( *p == '/') p++] *)
Fixpoint skip_slashes (p : list Z) : list Z :=
  match p with [] => [] | c :: q => if c =? slash then skip_slashes q else p end.

(** [while ( *p && *p != '/') p++]: what is passed and what is left. *)
Fixpoint component (p : list Z) : name * list Z :=
  match p with
  | [] => ([], [])
  | c :: q => if c =? slash then ([], p) else let r := component q in (c :: r.1, r.2)
  end.

Definition lookup_in_dir (cpu dir_ino : Z) (nm : name) (s : dirs) : res (Z * dirs) :=
  match nm with
  | [] => Ok (-1, s)
  | _ =>
      r ← dsync cpu dir_ino no_inode false s;
      let '(ok, dir, s) := r in
      if negb (ok : bool) then Ok (-1, s)
      else if negb (i_type dir =? YFS_TYPE_DIR) then Ok (-1, s)
      else
        q ← dir_find dir nm s;
        if q.1 =? 0 then Ok (-1, q.2) else Ok (s32 q.1, q.2)
  end.

(** The loop of [path_to_inode_impl]: the directory, what is left in
    [last_element], the state.  Every turn consumes a byte of the path. *)
Fixpoint path_loop (fuel : nat) (cpu curr : Z) (p : list Z) (allow_special_last : bool) (s : dirs) : res (Z * option name * dirs) :=
  match fuel with
  | O => Timeout
  | S fuel =>
      match skip_slashes p with
      | [] => Ok (0, Some [], s)
      | p =>
          let '(nm, rest) := component p in
          if (zlen nm =? 0) || (YFS_NAME_MAX <=? zlen nm) then Ok (0, None, s)
          else
            let next := skip_slashes rest in
            if bool_decide (next = []) then
              if negb allow_special_last && (bool_decide (nm = dot) || bool_decide (nm = dotdot)) then Ok (0, None, s)
              else Ok (curr, Some (trunc nm), s)
            else if bool_decide (nm = dot) then path_loop fuel cpu curr next allow_special_last s
            else if bool_decide (nm = dotdot) then
              q ← lookup_in_dir cpu curr dotdot s;
              if q.1 <=? 0 then Ok (0, None, q.2) else path_loop fuel cpu q.1 next allow_special_last q.2
            else
              r ← dsync cpu curr no_inode false s;
              let '(ok, dir_node, s) := r in
              if negb (ok : bool) then Ok (0, None, s)
              else
                q ← dir_find dir_node nm s;
                if q.1 =? 0 then Ok (0, None, q.2) else path_loop fuel cpu q.1 next allow_special_last q.2
      end
  end.

Definition path_to_inode_impl (cpu cwd : Z) (path : list Z) (allow_special_last : bool) (s : dirs) : res (Z * option name * dirs) :=
  match path with
  | [] => Ok (0, Some [], s)
  | c :: _ =>
      let curr := if c =? slash then 1 else cwd in
      let curr := if curr =? 0 then 1 else curr in
      path_loop (S (length path)) cpu curr path allow_special_last s
  end.

Definition path_to_inode (cpu cwd : Z) (path : list Z) := path_to_inode_impl cpu cwd path true.
Definition path_to_inode_for_modify (cpu cwd : Z) (path : list Z) := path_to_inode_impl cpu cwd path false.

(** ** The calls *)

Definition yulafs_lookup (cpu cwd : Z) (path : list Z) (junk : inode) (s : dirs) : res (Z * dirs) :=
  if bool_decide (path = []) then Ok (s32 cwd, s)
  else if bool_decide (path = [slash]) then Ok (1, s)
  else
    r ← path_to_inode cpu cwd path s;
    let '(parent_dir, last, s) := r in
    if parent_dir =? 0 then Ok (-1, s)
    else
      r ← dsync cpu parent_dir junk false s;
      let '(_, dir_node, s) := r in
      q ← dir_find dir_node (default [] last) s;
      if q.1 =? 0 then Ok (-1, q.2) else Ok (s32 q.1, q.2).

(** The block of a new directory. *)
Definition dots (self parent : Z) : res buffer :=
  buf ← put_entry (replicate 4096 0) 0 self dot;
  put_entry buf 1 parent dotdot.

(** [obj] and, for a directory, its first block. *)
Definition new_object (new_ino dir_ino type : Z) (y : yfs) : res (inode * yfs) :=
  let obj sz b := Inode new_ino type sz 0 0 0 (b :: replicate 11 0) 0 0 0 (replicate 44 0) in
  if type =? YFS_TYPE_DIR then
    r ← alloc_block_for_inode new_ino y;
    let '(ok, y) := kmalloc r.2 in
    if (ok : bool) then buf ← dots new_ino dir_ino; Ok (obj YFS_BLOCK_SIZE r.1, bwrite r.1 buf y)
    else Ok (obj YFS_BLOCK_SIZE r.1, y)
  else Ok (obj 0 0, y).

Definition yulafs_create_obj (cpu cwd : Z) (path : list Z) (type : Z) (junk : inode) (s : dirs) : res (Z * dirs) :=
  r ← path_to_inode_for_modify cpu cwd path s;
  let '(dir_ino, last, s) := r in
  let nm := default [] last in
  if dir_ino =? 0 then Ok (-1, s)
  else
    r ← dsync cpu dir_ino junk false s;
    let '(_, dir, s) := r in
    q ← dir_find dir nm s;
    if negb (q.1 =? 0) then Ok (-1, q.2)
    else
      let s := q.2 in
      a ← alloc_inode_for_parent dir_ino (d_fs s);
      let new_ino := a.1 in
      let s := with_yfs a.2 s in
      if new_ino =? 0 then Ok (-1, s)
      else
        o ← new_object new_ino dir_ino type (d_fs s);
        r ← dsync cpu new_ino o.1 true (with_yfs o.2 s);
        q ← dir_link cpu dir_ino new_ino nm junk r.2;
        Ok (s32 new_ino, with_yfs (flush_sb (d_fs q.2)) q.2).

Definition yulafs_mkdir (cpu cwd : Z) (path : list Z) := yulafs_create_obj cpu cwd path YFS_TYPE_DIR.
Definition yulafs_create (cpu cwd : Z) (path : list Z) := yulafs_create_obj cpu cwd path YFS_TYPE_FILE.

Definition yulafs_unlink (cpu cwd : Z) (path : list Z) (junk : inode) (s : dirs) : res (Z * dirs) :=
  r ← path_to_inode_for_modify cpu cwd path s;
  let '(dir_ino, last, s) := r in
  if dir_ino =? 0 then Ok (-1, s) else dir_unlink cpu dir_ino (default [] last) junk s.

Definition yulafs_rename (cpu cwd : Z) (old_path new_path : list Z) (junk : inode) (s : dirs) : res (Z * dirs) :=
  r ← path_to_inode_for_modify cpu cwd old_path s;
  let '(old_dir, old_last, s) := r in
  if old_dir =? 0 then Ok (-1, s)
  else
    r ← dsync cpu old_dir junk false s;
    let '(_, old_node, s) := r in
    q ← dir_find old_node (default [] old_last) s;
    let '(target, s) := q in
    if target =? 0 then Ok (-1, s)
    else
      r ← path_to_inode_for_modify cpu cwd new_path s;
      let '(new_dir, new_last, s) := r in
      if new_dir =? 0 then Ok (-1, s)
      else
        l ← dir_link cpu new_dir target (default [] new_last) junk s;
        if negb (l.1 =? 0) then Ok (-1, l.2)
        else
          u ← dir_unlink_entry_only cpu old_dir (default [] old_last) junk l.2;
          Ok (0, with_yfs (flush_sb (d_fs u.2)) u.2).
