(* ===== verification/YfsEntry.v ===== *)
(** * YulaFS: the entries of a directory block

    A block of a directory is 64 entries of an inode and a name; what
    [find_entry], [free_entry], [put_entry] and [clear_entry] do to them. *)

From S2P Require Import Prelude Bdev YfsBitmap YfsWords Yfs YfsFile YfsDcache YfsDir.

(** The bytes before the first NUL. *)
Fixpoint c_string (l : list Z) : name :=
  match l with [] => [] | c :: l => if c =? 0 then [] else c :: c_string l end.

Definition ent_ino (buf : buffer) (j : Z) : Z := word buf (16 * j).
Definition ent_bytes (buf : buffer) (j : Z) : list Z := slice buf (Z.to_nat (64 * j + 4)) 60.
Definition ent_name (buf : buffer) (j : Z) : name := c_string (ent_bytes buf j).

(** A name a caller may use: it fits with its terminator. *)
Definition name_ok (nm : name) : Prop := Forall (λ c, 0 < c < 256) nm ∧ (0 < length nm < 60)%nat.

#[export] Instance name_ok_dec nm : Decision (name_ok nm).
Proof. unfold name_ok. apply _. Defined.

(** An entry that is in use has a name that ends. *)
Definition ent_ok (buf : buffer) (j : Z) : Prop := ent_ino buf j ≠ 0 → 0 ∈ ent_bytes buf j.

Lemma trunc_ok nm : name_ok nm → trunc nm = nm.
Proof. intros [_ Hl]. unfold trunc. apply take_ge. lia. Qed.

Lemma c_string_app l r : 0 ∈ l → c_string (l ++ r) = c_string l.
Proof.
  induction l as [|c l IH]; intros H; [by apply not_elem_of_nil in H|]. cbn. case_if; [done|]. rewrite IH; [done|].
  apply elem_of_cons in H as [H|H]; [lia|done].
Qed.

Lemma c_string_nul nm r : Forall (λ c, 0 < c < 256) nm → c_string (nm ++ 0 :: r) = nm.
Proof. induction 1 as [|c nm Hc Hnm IH]; [done|]. cbn. case_if; [lia|]. by rewrite IH. Qed.

Lemma c_string_long l : 0 ∈ l → (length (c_string l) < length l)%nat.
Proof.
  induction l as [|c l IH]; intros H; [by apply not_elem_of_nil in H|]. cbn. case_if; cbn; [lia|]. apply elem_of_cons in H as [H|H]; [lia|]. specialize (IH H). lia.
Qed.

Lemma c_string_bytes l : Forall is_u8 l → Forall (λ c, 0 < c < 256) (c_string l).
Proof. induction 1 as [|c l Hc Hl IH]; [constructor|]. cbn. case_if; [constructor|]. constructor; [unfold is_u8 in Hc; lia|done]. Qed.

(** [strcmp] stops within the entry. *)
Lemma name_eq_ok buf off nm :
  Forall (λ c, 0 < c < 256) nm → 0 ≤ off → 0 ∈ drop (Z.to_nat off) buf → name_eq buf off nm = Ok (bool_decide (c_string (drop (Z.to_nat off) buf) = nm)).
Proof.
  intros Hn. revert off. induction Hn as [|x nm Hx Hn IH]; intros off Hoff H0.
  all: destruct (drop (Z.to_nat off) buf) as [|c l] eqn:E; [by apply not_elem_of_nil in H0|];
    assert (buf !! Z.to_nat off = Some c) as Hc by (rewrite <-(Nat.add_0_r (Z.to_nat off)), <-lookup_drop, E; done);
    cbn [name_eq]; rewrite (arr_get_ok _ _ c) by done; cbn [mbind res_bind c_string].
  - destruct (c =? 0) eqn:Ec; [by rewrite bool_decide_true|by rewrite bool_decide_false].
  - destruct (c =? x) eqn:Ex.
    + assert (c = x) as -> by lia. destruct (x =? 0) eqn:E0; [lia|].
      assert (drop (Z.to_nat (off + 1)) buf = l) as El.
      { replace (Z.to_nat (off + 1)) with (Z.to_nat off + 1)%nat by lia. by rewrite <-drop_drop, E. }
      rewrite IH; [|lia|rewrite El; apply elem_of_cons in H0 as [?|?]; [lia|done] ]. rewrite El. f_equal. apply bool_decide_ext. split; congruence.
    + rewrite bool_decide_false; [done|]. destruct (c =? 0); [done|]. intros [= ]. lia.
Qed.

Lemma ent_name_eq buf j nm :
  map_ok buf → 0 ≤ j < 64 → 0 ∈ ent_bytes buf j → Forall (λ c, 0 < c < 256) nm →
  name_eq buf (64 * j + 4) nm = Ok (bool_decide (ent_name buf j = nm)).
Proof.
  intros Hm Hj H0 Hn. assert (drop (Z.to_nat (64 * j + 4)) buf = ent_bytes buf j ++ drop 60 (drop (Z.to_nat (64 * j + 4)) buf)) as E
    by (unfold ent_bytes, slice; by rewrite take_drop).
  rewrite name_eq_ok; [|done|lia|rewrite E; apply elem_of_app; by left]. rewrite E, c_string_app by done. done.
Qed.

Lemma rd32_ent buf j : map_ok buf → 0 ≤ j < 64 → rd32 buf (DIRENT * j) = Ok (ent_ino buf j).
Proof. intros Hm Hj. unfold DIRENT. replace (64 * j) with (4 * (16 * j)) by lia. apply rd32_ok; [done|lia]. Qed.

Lemma find_entry_ok n buf j nm :
  map_ok buf → 0 ≤ j → j + Z.of_nat n = 64 → (∀ i, 0 ≤ i < 64 → ent_ok buf i) → Forall (λ c, 0 < c < 256) nm →
  ∃ r, find_entry n buf j nm = Ok r ∧
    match r with
    | Some (i, ino) => j ≤ i < 64 ∧ ent_ino buf i = ino ∧ ino ≠ 0 ∧ ent_name buf i = nm
    | None => ∀ i, j ≤ i < 64 → ent_ino buf i ≠ 0 → ent_name buf i ≠ nm
    end.
Proof.
  intros Hm Hj Hn He Hnm. revert j Hj Hn. induction n as [|n IH]; intros j Hj Hn; cbn [find_entry].
  { exists None. split; [done|]. intros i Hi. lia. }
  rewrite rd32_ent by (done || lia). cbn [mbind res_bind].
  assert (∃ b, (if ent_ino buf j =? 0 then Ok false else name_eq buf (DIRENT * j + 4) nm) = Ok b ∧ (b = true ↔ ent_ino buf j ≠ 0 ∧ ent_name buf j = nm)) as (b & -> & Hb).
  { destruct (ent_ino buf j =? 0) eqn:E; [exists false; split; [done|]; split; [done|lia]|]. change DIRENT with 64. rewrite ent_name_eq; [|done|lia|apply He; lia|done].
    eexists. split; [done|]. rewrite bool_decide_eq_true. split; [split; [lia|done]|by intros [_ ?] ]. }
  cbn [mbind res_bind]. destruct b.
  - exists (Some (j, ent_ino buf j)). split; [done|]. destruct (proj1 Hb eq_refl). split; [lia|done].
  - destruct (IH (j + 1)) as (r & -> & Hr); [lia|lia|]. exists r. split; [done|]. destruct r as [ [i ino]|]; [destruct Hr as (? & ? & ? & ?); split; [lia|done]|].
    intros i Hi Hne. destruct (decide (i = j)) as [->|]; [|apply Hr; [lia|done] ]. intros Hname. by assert (false = true) by by apply Hb.
Qed.

Lemma free_entry_ok n buf j :
  map_ok buf → 0 ≤ j → j + Z.of_nat n = 64 →
  ∃ r, free_entry n buf j = Ok r ∧
    match r with Some i => j ≤ i < 64 ∧ ent_ino buf i = 0 | None => ∀ i, j ≤ i < 64 → ent_ino buf i ≠ 0 end.
Proof.
  intros Hm. revert j. induction n as [|n IH]; intros j Hj Hn; cbn [free_entry].
  { exists None. split; [done|]. intros i Hi. lia. }
  rewrite rd32_ent by (done || lia). cbn [mbind res_bind]. case_if.
  - exists (Some j). split; [done|]. split; [lia|done].
  - destruct (IH (j + 1)) as (r & -> & Hr); [lia|lia|]. exists r. split; [done|]. destruct r as [i|]; [destruct Hr; split; [lia|done]|].
    intros i Hi. destruct (decide (i = j)) as [->|]; [lia|apply Hr; lia].
Qed.

(** ** Changing an entry *)

Lemma map_ok_blit buf off d : map_ok buf → Forall is_u8 d → (off + length d ≤ 4096)%nat → map_ok (blit buf off d).
Proof.
  intros [Hl Hu] Hd Hle. split; [rewrite length_blit; lia|]. unfold blit. apply Forall_app. split; [by apply Forall_take|]. apply Forall_app. split; [done|by apply Forall_drop].
Qed.

(** Both writes fall into entry [j]; the inode comes first. *)
Lemma write_entry_ok buf j ino d :
  map_ok buf → 0 ≤ j < 64 → is_u32 ino → Forall is_u8 d → (0 < length d ≤ 60)%nat →
  ∃ buf', (buf ← wr32 buf (DIRENT * j) ino; arr_blit buf (DIRENT * j + 4) d) = Ok buf' ∧ map_ok buf' ∧
    ent_ino buf' j = ino ∧ take (length d) (ent_bytes buf' j) = d ∧
    ∀ i, 0 ≤ i < 64 → i ≠ j → ent_ino buf' i = ent_ino buf i ∧ ent_bytes buf' i = ent_bytes buf i.
Proof.
  intros Hm Hj Hino Hd Hlen. change DIRENT with 64.
  destruct (le32_ok ino) as [L4 U4]. pose proof Hm as [Hl _]. unfold wr32. rewrite arr_blit_ok by lia. cbn [mbind res_bind].
  set (b1 := blit buf (Z.to_nat (64 * j)) (le32 ino)). assert (map_ok b1) as Hm1 by (apply map_ok_blit; [done|done|lia]).
  pose proof Hm1 as [Hl1 _]. rewrite arr_blit_ok by lia. set (b2 := blit b1 (Z.to_nat (64 * j + 4)) d). exists b2. split; [done|].
  split; [apply map_ok_blit; [done|done|lia]|]. split; [|split].
  - unfold ent_ino, word, b2. replace (4 * (16 * j)) with (64 * j) by lia. rewrite slice_blit_other by lia. unfold b1. rewrite <-L4 at 1. rewrite slice_blit_same by lia. by apply le_word_le32.
  - unfold ent_bytes. assert (slice b2 (Z.to_nat (64 * j + 4)) (length d) = d) as E by (unfold b2; apply slice_blit_same; lia).
    rewrite <-E at 2. unfold slice. rewrite take_take. f_equal. lia.
  - intros i Hi Hne. unfold ent_ino, ent_bytes, word, b2, b1. rewrite !slice_blit_other by (rewrite ?length_blit; lia). done.
Qed.

Lemma put_entry_ok buf j ino nm :
  map_ok buf → 0 ≤ j < 64 → is_u32 ino → name_ok nm →
  ∃ buf', put_entry buf j ino nm = Ok buf' ∧ map_ok buf' ∧ ent_ino buf' j = ino ∧ ent_name buf' j = nm ∧ 0 ∈ ent_bytes buf' j ∧
    ∀ i, 0 ≤ i < 64 → i ≠ j → ent_ino buf' i = ent_ino buf i ∧ ent_bytes buf' i = ent_bytes buf i.
Proof.
  intros Hm Hj Hino Hnm. pose proof Hnm as [Hc Hl]. unfold put_entry. rewrite (trunc_ok nm Hnm).
  destruct (write_entry_ok buf j ino (nm ++ [0])) as (buf' & Hw & Hm' & Hi & Ht & Ho); [done|done|done| |rewrite length_app; cbn; lia|].
  { apply Forall_app. split; [|by apply Forall_singleton]. eapply Forall_impl; [exact Hc|]. unfold is_u8. intros; cbn in *; lia. }
  exists buf'. split; [done|]. split; [done|]. split; [done|].
  assert (ent_bytes buf' j = nm ++ 0 :: drop (length (nm ++ [0])) (ent_bytes buf' j)) as E
    by (rewrite <-(take_drop (length (nm ++ [0])) (ent_bytes buf' j)) at 1; rewrite Ht, <-app_assoc; done).
  split; [unfold ent_name; rewrite E; by apply c_string_nul|]. split; [rewrite E; apply elem_of_app; right; left|done].
Qed.

Lemma clear_entry_ok buf j :
  map_ok buf → 0 ≤ j < 64 →
  ∃ buf', clear_entry buf j = Ok buf' ∧ map_ok buf' ∧ ent_ino buf' j = 0 ∧
    ∀ i, 0 ≤ i < 64 → i ≠ j → ent_ino buf' i = ent_ino buf i ∧ ent_bytes buf' i = ent_bytes buf i.
Proof.
  intros Hm Hj. destruct (write_entry_ok buf j 0 (replicate 60 0)) as (buf' & Hw & Hm' & Hi & _ & Ho); [done|done|done| |rewrite length_replicate; lia|].
  { by apply Forall_replicate. }
  by exists buf'.
Qed.

Lemma ent_zeros j : 0 ≤ j < 64 → ent_ino (replicate 4096 0) j = 0.
Proof. intros Hj. apply word_zeros. lia. Qed.
