(* ===== verification/YfsNames.v ===== *)
(** * YulaFS: a directory is a finite map

    [dir_rep] relates a directory to the map from its names to inodes;
    [dir_scan], [link_loop] and [clear_entry] look up, insert and delete.
    [untouched] says that a call has left an inode and its blocks alone. *)

From S2P Require Import Prelude Bdev YfsBitmap YfsWords Yfs YfsAlloc YfsOps YfsVolume YfsInode YfsForest YfsBlockMap YfsResolve YfsFile YfsBytes YfsFiles YfsTruncate YfsDcache YfsDir YfsEntry.

(** Where block [fb] of file [ino] is. *)
Definition fblock (y : yfs) (nodes : Z → inode) (ino fb : Z) : Z := fwalk y nodes (ino, (path_of fb).1) (path_of fb).2.

Lemma fleaf_block y nodes ino fb :
  fleaf y nodes ino fb = if fblock y nodes ino fb =? 0 then replicate 4096 0 else default [] (disk y !! fblock y nodes ino fb).
Proof. done. Qed.

(** ** Frames *)

(** File [i] has its inode, its contents and its blocks. *)
Record untouched (y : yfs) (nodes : Z → inode) (y' : yfs) (nodes' : Z → inode) (i : Z) : Prop := {
  ut_node : nodes' i = nodes i;
  ut_leaf fb : 0 ≤ fb < 1048576 → fleaf y' nodes' i fb = fleaf y nodes i fb;
  ut_block fb : 0 ≤ fb < 1048576 → fblock y nodes i fb ≠ 0 → fblock y' nodes' i fb ≠ 0;
}.

Lemma untouched_refl y nodes i : untouched y nodes y nodes i.
Proof. by split. Qed.

Lemma untouched_trans y1 n1 y2 n2 y3 n3 i : untouched y1 n1 y2 n2 i → untouched y2 n2 y3 n3 i → untouched y1 n1 y3 n3 i.
Proof. intros [A1 A2 A3] [B1 B2 B3]. split; [congruence|intros fb Hfb; by rewrite B2, A2|auto]. Qed.

Lemma small_fb fb : 0 ≤ fb < 1048576 → 0 ≤ fb < MAX_FILE_BLOCKS.
Proof. unfold MAX_FILE_BLOCKS. lia. Qed.

(** The blocks of the file are the same on both disks. *)
Lemma untouched_data y nodes y' nodes' i :
  files_ok y nodes → total_inodes (sb y') = total_inodes (sb y) → nodes' i = nodes i →
  (∀ key path, key.1 = i → valid lvl key path → fwalk y nodes key path ≠ 0 → disk y' !! fwalk y nodes key path = disk y !! fwalk y nodes key path) →
  untouched y nodes y' nodes' i.
Proof.
  intros FO Et En Hd.
  assert (∀ key path, key.1 = i → valid lvl key path → fwalk y' nodes' key path = fwalk y nodes key path) as Hw.
  { intros [i' sl] path Ei Hv. cbn in Ei. subst i'. unfold fwalk. rewrite <-(walk_agree lvl (disk y) (disk y') (roots (total_inodes (sb y)) nodes) (i, sl) path); [| |done].
    - unfold walk. rewrite Et. unfold roots; cbn. by rewrite En.
    - intros rho Hr _ Hne. by apply (Hd (i, sl) rho). }
  assert (∀ fb, 0 ≤ fb < 1048576 → fblock y' nodes' i fb = fblock y nodes i fb) as Hb
    by (intros fb Hfb; destruct (path_valid fb i (small_fb fb Hfb)) as (_ & Hv & _); by apply Hw).
  split; [done| |intros fb Hfb; by rewrite Hb].
  intros fb Hfb. rewrite !fleaf_block, Hb by done. destruct (fblock y nodes i fb =? 0) eqn:E; [done|]. destruct (path_valid fb i (small_fb fb Hfb)) as (_ & Hv & _).
  unfold fblock. rewrite Hd; [done|done|done|unfold fblock in E; lia].
Qed.

(** All data blocks are the same. *)
Definition data_same (y y' : yfs) : Prop := ∀ b, is_data y b → disk y' !! b = disk y !! b.

Lemma untouched_same y nodes y' nodes' i :
  files_ok y nodes → total_inodes (sb y') = total_inodes (sb y) → nodes' i = nodes i → data_same y y' → untouched y nodes y' nodes' i.
Proof. intros FO Et En Hd. apply untouched_data; [done|done|done|]. intros key path _ Hv Hne. apply Hd. by eapply fwalk_data. Qed.

Lemma untouched_grown c y nodes y' nodes' i : grown c y nodes y' nodes' → nodes' i = nodes i → untouched y nodes y' nodes' i.
Proof.
  intros G En. split; [done| |]; intros fb Hfb; destruct (path_valid fb i (small_fb fb Hfb)) as (_ & Hv & Hl).
  - by apply (gr_leaf _ _ _ _ _ G).
  - intros Hne. unfold fblock. by rewrite (gr_walk _ _ _ _ _ G).
Qed.

Lemma untouched_kept cpu k s s' i : sys_ok cpu k s → kept cpu k s s' → is_ino (fs s) i → untouched (fs s) (inode_of (fs s)) (fs s') (inode_of (fs s')) i.
Proof. intros SS K Hi. apply untouched_same; [apply SS|by rewrite (kp_sb _ _ _ _ K)|by apply (kp_inode _ _ _ _ K)|intros b; apply (kp_disk _ _ _ _ K)]. Qed.

(** ** Overwriting a block *)

Record leaf_written (y : yfs) (nodes : Z → inode) (y' : yfs) (ino fb : Z) (v : buffer) : Prop := {
  lw_files : files_ok y' nodes;
  lw_eq : y' = with_disk (<[fblock y nodes ino fb := v]> (disk y)) y;
  lw_leaf : fleaf y' nodes ino fb = v;
  lw_other fb' : 0 ≤ fb' < 1048576 → fb' ≠ fb → fleaf y' nodes ino fb' = fleaf y nodes ino fb';
  lw_block i fb' : 0 ≤ fb' < 1048576 → fblock y' nodes i fb' = fblock y nodes i fb';
  lw_untouched i : i ≠ ino → untouched y nodes y' nodes i;
  lw_ino i : is_ino y i → ino_used y' i = ino_used y i;
}.

Lemma write_leaf_ok y nodes ino fb v :
  files_ok y nodes → 0 ≤ fb < 1048576 → fblock y nodes ino fb ≠ 0 → map_ok v →
  leaf_written y nodes (bwrite (fblock y nodes ino fb) v y) ino fb v.
Proof.
  intros FO Hfb Hp Hv. pose proof FO as [F Fo Fn]. destruct (path_valid fb ino (small_fb fb Hfb)) as (_ & Hpv & Hpl).
  assert (live y (fblock y nodes ino fb)) as Hl by (by eapply fwalk_live).
  destruct (bwrite_live y _ v F Hl Hv) as (E & F' & Hlive & Hino). set (y' := bwrite _ v y) in *.
  destruct (forest_leaf lvl (live y) (disk y) (roots (total_inodes (sb y)) nodes) _ _ v Fo Hpv Hpl Hp Hv) as [Fo' Hw].
  assert (∀ i fb', 0 ≤ fb' < 1048576 → fblock y' nodes i fb' = fblock y nodes i fb') as Hb
    by (intros i fb' Hfb'; destruct (path_valid fb' i (small_fb fb' Hfb')) as (_ & Hv' & _); rewrite E; by apply Hw).
  assert (∀ i fb', 0 ≤ fb' < 1048576 → (i, fb') ≠ (ino, fb) → fleaf y' nodes i fb' = fleaf y nodes i fb') as Hother.
  { intros i fb' Hfb' Hne. rewrite !fleaf_block, Hb by done. destruct (fblock y nodes i fb' =? 0) eqn:E0; [done|]. rewrite E. cbn. rewrite lookup_insert_ne; [done|].
    intros Ep. apply Hne. destruct (path_valid fb' i (small_fb fb' Hfb')) as (_ & Hv' & _).
    destruct (fo_inj _ _ _ _ Fo (ino, (path_of fb).1) (path_of fb).2 (i, (path_of fb').1) (path_of fb').2) as [Ek Epath]; [done..|].
    injection Ek as -> E1. f_equal. symmetry. apply path_inj; [by apply small_fb..|]. destruct (path_of fb), (path_of fb'). cbn in *. congruence. }
  split; [|done| | |done| |done].
  - split; [done| |intros j Hj; apply Fn; by rewrite E in Hj]. rewrite E in *. eapply forest_ext; [|exact Fo']. intros b. symmetry. apply Hlive.
  - rewrite fleaf_block, Hb by done. destruct (fblock y nodes ino fb =? 0) eqn:E0; [lia|]. rewrite E. cbn. by rewrite lookup_insert_eq.
  - intros fb' Hfb' Hne. apply Hother; [done|congruence].
  - intros i Hi. split; [done| |intros fb' Hfb'; by rewrite Hb]. intros fb' Hfb'. apply Hother; [done|congruence].
Qed.

(** ** A block that is there is not allocated *)

Lemma table_step_present ino b idx y table :
  disk y !! b = Some table → rd32 table (4 * idx) = Ok (word table idx) → word table idx ≠ 0 → table_step ino b idx true y = table_step ino b idx false y.
Proof.
  intros Hb Hr Hne. unfold table_step. destruct (kmalloc y) as [ok y1] eqn:Ek. injection Ek as Eo Ey. destruct (negb ok); [done|].
  unfold bread. rewrite <-Ey. cbn [disk with_mem]. rewrite Hb. cbn [mbind res_bind]. rewrite Hr. cbn [mbind res_bind].
  destruct (word table idx =? 0) eqn:E; [lia|done].
Qed.

Lemma walk_prefix y nodes k path idxs : fwalk y nodes k (path ++ idxs) ≠ 0 → fwalk y nodes k path ≠ 0.
Proof.
  intros H E. apply H. unfold fwalk, walk in *. rewrite foldl_app, E. apply foldl_child_0.
Qed.

Lemma descend_present idxs ino y nodes k path :
  files_ok y nodes → valid lvl k (path ++ idxs) → fwalk y nodes k (path ++ idxs) ≠ 0 →
  descend ino (fwalk y nodes k path) idxs true y = descend ino (fwalk y nodes k path) idxs false y.
Proof.
  revert y path. induction idxs as [|i idxs IH]; intros y path FO Hv Hne; [done|]. cbn [descend].
  replace (path ++ i :: idxs) with ((path ++ [i]) ++ idxs) in Hv, Hne by (by rewrite <-app_assoc).
  pose proof (walk_prefix _ _ _ _ _ Hne) as Hi. pose proof (walk_prefix _ _ _ _ _ Hi) as Hp. pose proof FO as [F Fo Fn].
  assert (valid lvl k (path ++ [i])) as Hvi by (destruct Hv as [Hl Hf]; rewrite length_app in Hl; apply Forall_app in Hf as [Hf _]; split; [lia|done]).
  pose proof Hvi as (Hvp & Hr & _)%valid_snoc. destruct (fo_blk _ _ _ _ Fo (fwalk y nodes k path)) as (table & Ht & Hok); [by eapply fwalk_live|].
  assert (fwalk y nodes k (path ++ [i]) = word table i) as Ew.
  { unfold fwalk in *. rewrite walk_snoc. unfold child. destruct (walk (disk y) _ k path =? 0) eqn:E; [lia|]. by rewrite Ht. }
  pose proof (rd32_ok table i Hok Hr) as Hrd. rewrite (table_step_present ino _ i y table); [|done|done|by rewrite <-Ew].
  unfold table_step. destruct (kmalloc_cases y) as (ok & -> & _). cbv iota beta. destruct ok; cbn [negb]; [|done]. unfold bread. cbn [disk with_mem]. rewrite Ht. cbn [mbind res_bind].
  rewrite Hrd. cbn [mbind res_bind]. rewrite andb_false_r. cbn [mbind res_bind fst snd negb]. destruct (word table i =? 0) eqn:E; [lia|]. cbn [andb].
  specialize (IH (with_mem (tl (mem y)) y) (path ++ [i]) (files_ok_mem y nodes _ FO) Hv Hne).
  change (fwalk (with_mem (tl (mem y)) y) nodes k (path ++ [i])) with (fwalk y nodes k (path ++ [i])) in IH. by rewrite Ew in IH.
Qed.

Lemma branch_present hint y nodes ino slot idxs :
  files_ok y nodes → is_ino y ino → 0 ≤ slot < 15 → valid lvl (ino, slot) idxs → fwalk y nodes (ino, slot) idxs ≠ 0 →
  (∀ alloc, root_step hint (slot_ptr (nodes ino) slot) alloc y = Ok (Some (slot_ptr (nodes ino) slot), y)) ∧
  descend hint (slot_ptr (nodes ino) slot) idxs true y = descend hint (slot_ptr (nodes ino) slot) idxs false y.
Proof.
  intros FO Hi Hs Hv Hne. pose proof (walk_prefix y nodes (ino, slot) [] idxs Hne) as H0. pose proof (descend_present idxs hint y nodes (ino, slot) [] FO Hv Hne) as Hd.
  unfold fwalk, walk in H0, Hd. cbn [foldl] in H0, Hd. rewrite roots_at in H0, Hd by done. split; [|done]. intros alloc. unfold root_step. destruct (slot_ptr (nodes ino) slot =? 0) eqn:E; [lia|done].
Qed.

Lemma resolve_present hint y nodes ino fb :
  files_ok y nodes → is_ino y ino → 0 ≤ fb < MAX_FILE_BLOCKS → fblock y nodes ino fb ≠ 0 →
  resolve_block_for_inode hint (nodes ino) fb true y = resolve_block_for_inode hint (nodes ino) fb false y.
Proof.
  intros FO Hi Hfb Hne. pose proof (fl_node _ _ FO ino Hi) as Hok. destruct (slot_table _ Hok) as (E12 & E13 & E14).
  destruct (path_valid fb ino Hfb) as (Hs & Hv & _). destruct (branch_present hint y nodes ino _ _ FO Hi Hs Hv Hne) as [Hroot Hdesc].
  unfold resolve_block_for_inode. cbv zeta. change YFS_DIRECT_PTRS with 12. change PTRS_PER_BLOCK with 1024. change (1024 * 1024) with 1048576. change (1048576 * 1024) with 1073741824.
  clear Hv Hne Hs. unfold path_of, MAX_FILE_BLOCKS in *. revert Hroot Hdesc. repeat case_if; cbn [fst snd]; intros Hroot Hdesc; try (exfalso; lia).
  - rewrite slot_direct by (done || lia). cbn [mbind res_bind]. by rewrite !Hroot.
  - rewrite <-E12, !Hroot. cbn [mbind res_bind fst snd]. by rewrite Hdesc.
  - replace (fb - 12 - 1024) with (fb - 1036) by lia. rewrite <-E13, !Hroot. cbn [mbind res_bind fst snd]. by rewrite Hdesc.
  - replace (fb - 12 - 1024 - 1048576) with (fb - 1049612) by lia. rewrite <-E14, !Hroot. cbn [mbind res_bind fst snd]. by rewrite Hdesc.
Qed.

(** ** Slots and names *)

(** The largest directory has so many slots. *)
Definition KMAX : Z := 67108864.

(** An array of slots holds the entries of [m], each once. *)
Record slots_rep (sl : Z → Z * list Z) (m : gmap name Z) : Prop := {
  sr_ent k : 0 ≤ k < KMAX → (sl k).1 ≠ 0 → 0 ∈ (sl k).2;
  sr_uniq k k' : 0 ≤ k < KMAX → 0 ≤ k' < KMAX → (sl k).1 ≠ 0 → (sl k').1 ≠ 0 → c_string (sl k).2 = c_string (sl k').2 → k = k';
  sr_names nm i : m !! nm = Some i ↔ i ≠ 0 ∧ ∃ k, 0 ≤ k < KMAX ∧ (sl k).1 = i ∧ c_string (sl k).2 = nm;
}.

Lemma slots_ext sl sl' m : (∀ k, 0 ≤ k < KMAX → sl' k = sl k) → slots_rep sl m → slots_rep sl' m.
Proof.
  intros E [A B C]. split.
  - intros k Hk. rewrite E by done. by apply A.
  - intros k k' Hk Hk'. rewrite !E by done. by apply B.
  - intros nm i. rewrite C. split; intros (? & k & Hk & H); (split; [done|]); exists k; [rewrite E by done|rewrite E in H by done]; done.
Qed.

Lemma slots_none sl m nm : slots_rep sl m → (∀ k, 0 ≤ k < KMAX → (sl k).1 ≠ 0 → c_string (sl k).2 ≠ nm) → m !! nm = None.
Proof.
  intros [_ _ C] H. destruct (m !! nm) as [i|] eqn:E; [|done]. apply C in E as (Hi & k & Hk & E1 & E2). exfalso. apply (H k Hk); [by rewrite E1|done].
Qed.

(** A free slot gets an entry. *)
Lemma slots_put sl sl' m k0 i0 nm0 :
  slots_rep sl m → 0 ≤ k0 < KMAX → (sl k0).1 = 0 → m !! nm0 = None → i0 ≠ 0 →
  (sl' k0).1 = i0 → c_string (sl' k0).2 = nm0 → 0 ∈ (sl' k0).2 → (∀ k, 0 ≤ k < KMAX → k ≠ k0 → sl' k = sl k) →
  slots_rep sl' (<[nm0 := i0]> m).
Proof.
  intros [A B C] Hk0 Hfree Hnone Hi0 E1 E2 E3 Hother.
  assert (∀ k, 0 ≤ k < KMAX → (sl k).1 ≠ 0 → c_string (sl k).2 ≠ nm0) as Hfresh.
  { intros k Hk Hne En. assert (m !! nm0 = Some (sl k).1) as Hs by (apply C; split; [done|by exists k]). congruence. }
  split.
  - intros k Hk. destruct (decide (k = k0)) as [->|Hne]; [done|]. rewrite Hother by done. by apply A.
  - intros k k' Hk Hk'. destruct (decide (k = k0)) as [->|Hne], (decide (k' = k0)) as [->|Hne']; rewrite ?(Hother k), ?(Hother k') by done; [done|..|by apply B].
    + intros _ Hs E. exfalso. apply (Hfresh k'); [done|done|congruence].
    + intros Hs _ E. exfalso. apply (Hfresh k); [done|done|congruence].
  - intros nm i. rewrite lookup_insert_Some, C. split.
    + intros [ [<- <-]|[Hne (Hi & k & Hk & Ha & Hb)] ]; [split; [done|by exists k0]|]. split; [done|]. exists k. rewrite Hother; [done|done|]. intros ->. congruence.
    + intros (Hi & k & Hk & Ha & Hb). destruct (decide (k = k0)) as [->|Hne]; [left; split; congruence|]. rewrite Hother in Ha, Hb by done. right. split; [|split; [done|by exists k] ].
      intros <-. apply (Hfresh k); [done|congruence|done].
Qed.

(** The slot of an entry is cleared. *)
Lemma slots_clear sl sl' m k0 :
  slots_rep sl m → 0 ≤ k0 < KMAX → (sl k0).1 ≠ 0 → (sl' k0).1 = 0 → (∀ k, 0 ≤ k < KMAX → k ≠ k0 → sl' k = sl k) →
  slots_rep sl' (delete (c_string (sl k0).2) m).
Proof.
  intros [A B C] Hk0 Hused E1 Hother. split.
  - intros k Hk. destruct (decide (k = k0)) as [->|Hne]; [done|]. rewrite Hother by done. by apply A.
  - intros k k' Hk Hk'. destruct (decide (k = k0)) as [->|Hne], (decide (k' = k0)) as [->|Hne']; rewrite ?(Hother k), ?(Hother k') by done; done || by apply B.
  - intros nm i. rewrite lookup_delete_Some, C. split.
    + intros (Hne & Hi & k & Hk & Ha & Hb). split; [done|]. exists k. rewrite Hother; [done|done|]. intros ->. congruence.
    + intros (Hi & k & Hk & Ha & Hb). destruct (decide (k = k0)) as [->|Hne]; [congruence|]. rewrite Hother in Ha, Hb by done.
      split; [|split; [done|by exists k] ]. intros E. apply Hne. apply B; [done|done|congruence|done|congruence].
Qed.

(** ** Directories *)

Definition slot (y : yfs) (nodes : Z → inode) (d k : Z) : Z * list Z :=
  (ent_ino (fleaf y nodes d (k / 64)) (k `mod` 64), ent_bytes (fleaf y nodes d (k / 64)) (k `mod` 64)).

Definition nblocks (n : inode) : Z := i_size n / 4096.

(** Inode [d] is a directory with the entries of [m]: it has a block for each of
    the pages of its size, and nothing behind them. *)
Record dir_rep (y : yfs) (nodes : Z → inode) (d : Z) (m : gmap name Z) : Prop := {
  dr_type : i_type (nodes d) = YFS_TYPE_DIR;
  dr_id : i_id (nodes d) = d;
  dr_size : i_size (nodes d) = 4096 * nblocks (nodes d) ∧ 0 ≤ nblocks (nodes d) < 1048576;
  dr_full fb : 0 ≤ fb < nblocks (nodes d) → fblock y nodes d fb ≠ 0;
  dr_end fb : nblocks (nodes d) ≤ fb < 1048576 → fleaf y nodes d fb = replicate 4096 0;
  dr_slots : slots_rep (slot y nodes d) m;
}.

Lemma slot_split k : 0 ≤ k < KMAX → 0 ≤ k / 64 < 1048576 ∧ 0 ≤ k `mod` 64 < 64 ∧ k = 64 * (k / 64) + k `mod` 64.
Proof. unfold KMAX. intros. Z.to_euclidean_division_equations. lia. Qed.

Lemma slot_join fb j : 0 ≤ fb < 1048576 → 0 ≤ j < 64 → 0 ≤ 64 * fb + j < KMAX ∧ (64 * fb + j) / 64 = fb ∧ (64 * fb + j) `mod` 64 = j.
Proof. unfold KMAX. intros. Z.to_euclidean_division_equations. lia. Qed.

Lemma dir_untouched y nodes y' nodes' d m : dir_rep y nodes d m → untouched y nodes y' nodes' d → dir_rep y' nodes' d m.
Proof.
  intros [A1 A2 A3 A4 A5 A6] [U1 U2 U3]. split; rewrite ?U1; try done.
  - intros fb Hfb. apply U3; [lia|by apply A4].
  - intros fb Hfb. rewrite U2 by lia. by apply A5.
  - eapply slots_ext; [|exact A6]. intros k Hk. destruct (slot_split k Hk) as (Hfb & _). unfold slot. by rewrite U2.
Qed.

(** A block of the directory and what is in it. *)
Lemma dir_block_ok y nodes d m i :
  files_ok y nodes → ¬ oom y → is_ino y d → dir_rep y nodes d m → 0 ≤ i < nblocks (nodes d) →
  ∃ l, resolve_block (nodes d) i false y = Ok (fblock y nodes d i, nodes d, with_mem l y) ∧ (oom (with_mem l y) → oom y) ∧
    fblock y nodes d i ≠ 0 ∧ disk y !! fblock y nodes d i = Some (fleaf y nodes d i) ∧ map_ok (fleaf y nodes d i) ∧ ∀ j, 0 ≤ j < 64 → ent_ok (fleaf y nodes d i) j.
Proof.
  intros FO Ho Hd [R1 R2 [R3 R3'] R4 R5 R6] Hi. assert (0 ≤ i < 1048576) as Hib by lia. unfold resolve_block.
  destruct (resolve_lookup (i_id (nodes d)) y nodes d i FO Hd (small_fb i Hib)) as (r & l & -> & Hm & [Hr|[_ ?] ]); [|done].
  pose proof (R4 i Hi) as Hb. fold (fblock y nodes d i) in Hr. rewrite Hr. exists l. split; [done|]. split; [done|]. split; [done|].
  split; [|split; [apply fleaf_ok; [done|by apply small_fb]|] ].
  - rewrite fleaf_block. destruct (fblock y nodes d i =? 0) eqn:E0; [lia|]. destruct (path_valid i d (small_fb i Hib)) as (_ & Hv & _).
    destruct (fo_blk _ _ _ _ (fl_forest _ _ FO) (fblock y nodes d i)) as (v & -> & _); [by eapply fwalk_live|done].
  - intros j Hj Hne. destruct (slot_join i j Hib Hj) as (Hk & E1 & E2). pose proof (sr_ent _ _ R6 (64 * i + j) Hk) as He. unfold slot in He. cbn [fst snd] in He. rewrite E1, E2 in He. by apply He.
Qed.

(** Finding a name. *)
Lemma dir_scan_ok n y nodes d m i nm :
  files_ok y nodes → ¬ oom y → is_ino y d → dir_rep y nodes d m → Forall (λ c, 0 < c < 256) nm → 0 ≤ i → i + Z.of_nat n = nblocks (nodes d) →
  (∀ k, 0 ≤ k < 64 * i → (slot y nodes d k).1 ≠ 0 → c_string (slot y nodes d k).2 ≠ nm) →
  ∃ r l, dir_scan n (nodes d) i nm y = Ok (r, with_mem l y) ∧ (oom (with_mem l y) → oom y) ∧
    match r with
    | Some f => ∃ fb, 0 ≤ fb < nblocks (nodes d) ∧ fd_lba f = fblock y nodes d fb ∧ fd_buf f = fleaf y nodes d fb ∧ 0 ≤ fd_idx f < 64 ∧
        fd_ino f ≠ 0 ∧ ent_ino (fd_buf f) (fd_idx f) = fd_ino f ∧ ent_name (fd_buf f) (fd_idx f) = nm ∧ m !! nm = Some (fd_ino f)
    | None => m !! nm = None
    end.
Proof.
  intros FO Ho Hd R Hnm. pose proof R as [R1 R2 [R3 R3'] R4 R5 R6]. revert y FO Ho Hd R R4 R5 R6 i. induction n as [|n IH]; intros y FO Ho Hd R R4 R5 R6 i Hi Hn Hseen; cbn [dir_scan].
  { exists None, (mem y). split; [by destruct y|]. split; [by destruct y|]. apply (slots_none _ _ _ R6). intros k Hk Hne.
    destruct (decide (k < 64 * i)); [apply Hseen; [lia|done]|]. exfalso. apply Hne. destruct (slot_split k Hk) as (Hfb & Hj & E). unfold slot. cbn [fst].
    rewrite R5 by lia. by apply ent_zeros. }
  assert (0 ≤ i < 1048576) as Hib by lia. destruct (dir_block_ok y nodes d m i FO Ho Hd R) as (l & -> & Hm & Hb & Hdk & Hok & Hent); [lia|]. cbn [mbind res_bind fst snd].
  destruct (fblock y nodes d i =? 0) eqn:E0; [lia|].
  unfold bread. cbn [disk with_mem]. rewrite Hdk. cbn [mbind res_bind]. change (Z.to_nat entries_per_block) with 64%nat.
  destruct (find_entry_ok 64 (fleaf y nodes d i) 0 nm Hok) as (f & -> & Hf); [lia|lia|done|done|].
  cbn [mbind res_bind]. destruct f as [ [j ino]|].
  - destruct Hf as (Hj & E1 & E2 & E3). eexists _, l. split; [done|]. split; [done|]. exists i. cbn. split; [lia|]. split; [done|]. split; [done|]. split; [done|]. split; [done|]. split; [done|]. split; [done|].
    apply (sr_names _ _ R6). split; [done|]. destruct (slot_join i j Hib Hj) as (Hk & Ea & Eb). exists (64 * i + j). unfold slot. cbn [fst snd]. rewrite Ea, Eb. done.
  - destruct (IH (with_mem l y)) with (i := i + 1) as (r' & l' & Hs & Hm' & Hres); [by apply files_ok_mem|by intros H; apply Ho, Hm|done| |done|done|done|lia|lia| |].
    { by split. }
    { intros k Hk Hne. destruct (decide (k < 64 * i)); [apply Hseen; [lia|done]|].
      assert (k / 64 = i ∧ 0 ≤ k `mod` 64 < 64) as [E1 E2] by (Z.to_euclidean_division_equations; lia).
      unfold slot in *. cbn [fst snd] in *. rewrite E1 in *. apply Hf; done. }
    exists r', l'. split; [exact Hs|]. split; [by intros H; apply Hm, Hm'|exact Hres].
Qed.

(** ** Changing a directory *)

(** Inodes outside [T] have not changed; at most [c] blocks were taken. *)
Record stepped (cpu k c : Z) (s s' : fsys) (T : Z → Prop) : Prop := {
  sp_sys : sys_ok cpu k s';
  sp_mem : oom (fs s') → oom (fs s);
  sp_total : total_inodes (sb (fs s')) = total_inodes (sb (fs s));
  sp_blocks : total_blocks (sb (fs s')) = total_blocks (sb (fs s));
  sp_free : global_free_blocks (fs s) - c ≤ global_free_blocks (fs s');
  sp_used i : is_ino (fs s) i → ¬ T i → ino_used (fs s') i = ino_used (fs s) i;
  sp_same i : is_ino (fs s) i → ¬ T i → untouched (fs s) (inode_of (fs s)) (fs s') (inode_of (fs s')) i;
}.

Lemma stepped_trans cpu k1 k2 c1 c2 s1 s2 s3 T1 T2 T :
  stepped cpu k1 c1 s1 s2 T1 → stepped cpu k2 c2 s2 s3 T2 → (∀ i, T1 i ∨ T2 i → T i) → stepped cpu k2 (c1 + c2) s1 s3 T.
Proof.
  intros [A1 A2 A3 A4 A5 A6 A7] [B1 B2 B3 B4 B5 B6 B7] HT. assert (∀ i, is_ino (fs s1) i → is_ino (fs s2) i) as Hi by (intros i; unfold is_ino; by rewrite A3).
  split; [done|auto|congruence|congruence|lia| |].
  - intros i Hi1 Hn. rewrite B6, A6; auto.
  - intros i Hi1 Hn. eapply untouched_trans; [apply A7|apply B7]; auto.
Qed.

Lemma stepped_weaken cpu k k' c c' s s' (T T' : Z → Prop) : k' ≤ k → c ≤ c' → (∀ i, T i → T' i) → stepped cpu k c s s' T → stepped cpu k' c' s s' T'.
Proof.
  intros Hk Hc HT [A1 A2 A3 A4 A5 A6 A7]. split; [by eapply sys_ok_weaken|done|done|done|lia| |]; intros i Hi Hn; auto.
Qed.

Lemma stepped_kept cpu k s s' : files_ok (fs s) (inode_of (fs s)) → kept cpu k s s' → stepped cpu k 0 s s' (λ _, False).
Proof.
  intros FO K. pose proof (kp_sb _ _ _ _ K) as E. split; [apply K|apply K|by rewrite E|by rewrite E|rewrite (kp_free _ _ _ _ K); lia| |].
  - intros i Hi _. by apply (kp_used _ _ _ _ K).
  - intros i Hi _. apply untouched_same; [done|by rewrite E|by apply (kp_inode _ _ _ _ K)|intros b; apply (kp_disk _ _ _ _ K)].
Qed.

Lemma kept_stepped cpu k k' c s1 s2 s3 T : sys_ok cpu k' s1 → kept cpu k' s1 s2 → stepped cpu k c s2 s3 T → stepped cpu k c s1 s3 T.
Proof.
  intros SS K St. change c with (0 + c). eapply stepped_trans; [apply (stepped_kept cpu k'); [apply SS|exact K]|exact St|]. cbn. intros i [ []|?]. done.
Qed.

(** The inodes of the table are what [nodes] says. *)
Lemma files_ext y nodes nodes' :
  files_ok y nodes → (∀ i, is_ino y i → nodes' i = nodes i) → files_ok y nodes' ∧ ∀ i, is_ino y i → untouched y nodes y nodes' i.
Proof.
  intros FO Hn. assert (grown 0 y nodes y nodes') as G.
  { apply grown_roots; [done| |intros i Hi; rewrite Hn by done; by apply (fl_node _ _ FO)]. intros [i sl]. unfold roots; cbn.
    destruct ((0 <=? i) && (i <? total_inodes (sb y)) && (0 <=? sl) && (sl <? 15)) eqn:E; [|done]. rewrite Hn; [done|]. unfold is_ino. lia. }
  split; [apply G|]. intros i Hi. eapply untouched_grown; [done|by apply Hn].
Qed.

(** Fewer pages than blocks: no two pages share one. *)
Lemma nblocks_bound y nodes d m : files_ok y nodes → dir_rep y nodes d m → nblocks (nodes d) ≤ total_blocks (sb y).
Proof.
  intros FO R. pose proof (dr_size _ _ _ _ R) as [_ Hn]. pose proof (fl_fs _ _ FO) as F. pose proof (f_layout _ F) as [L1 L2 L3 L4 L5 L6 L7 L8 L9].
  assert (length (fblock y nodes d <$> seqZ 0 (nblocks (nodes d))) ≤ length (seqZ 0 (total_blocks (sb y))))%nat as H.
  { apply submseteq_length, NoDup_submseteq.
    - apply NoDup_fmap_2_strong; [|apply NoDup_seqZ]. intros a b Ha%elem_of_seqZ Hb%elem_of_seqZ E.
      destruct (path_valid a d) as (_ & Hva & _); [apply small_fb; lia|]. destruct (path_valid b d) as (_ & Hvb & _); [apply small_fb; lia|].
      destruct (fo_inj _ _ _ _ (fl_forest _ _ FO) (d, (path_of a).1) (path_of a).2 (d, (path_of b).1) (path_of b).2) as [Ek Ep]; [done|done| |exact E|].
      { apply (dr_full _ _ _ _ R a). lia. }
      injection Ek as E1. apply path_inj; [apply small_fb; lia..|]. destruct (path_of a), (path_of b). cbn in *. congruence.
    - intros b (fb & -> & Hfb%elem_of_seqZ)%list_elem_of_fmap. apply elem_of_seqZ.
      destruct (path_valid fb d) as (_ & Hv & _); [apply small_fb; lia|]. assert (fblock y nodes d fb ≠ 0) as Hne by (apply (dr_full _ _ _ _ R); lia).
      pose proof (fwalk_data y nodes _ _ _ FO Hv eq_refl Hne) as Hdt. unfold is_data, fblock in *. lia. }
  rewrite length_fmap, !length_seqZ in H. lia.
Qed.

(** The block and the entry of slot [k] change. *)
Lemma slot_write y nodes y' nodes' d fb j v :
  fleaf y' nodes' d fb = v → (∀ fb', 0 ≤ fb' < 1048576 → fb' ≠ fb → fleaf y' nodes' d fb' = fleaf y nodes d fb') → 0 ≤ fb < 1048576 → 0 ≤ j < 64 →
  (∀ i, 0 ≤ i < 64 → i ≠ j → ent_ino v i = ent_ino (fleaf y nodes d fb) i ∧ ent_bytes v i = ent_bytes (fleaf y nodes d fb) i) →
  slot y' nodes' d (64 * fb + j) = (ent_ino v j, ent_bytes v j) ∧ ∀ k, 0 ≤ k < KMAX → k ≠ 64 * fb + j → slot y' nodes' d k = slot y nodes d k.
Proof.
  intros Hv Ho Hfb Hj He. destruct (slot_join fb j Hfb Hj) as (_ & E1 & E2). unfold slot. split; [by rewrite E1, E2, Hv|].
  intros k Hk Hne. destruct (slot_split k Hk) as (Hfk & Hjk & Ek). destruct (decide (k / 64 = fb)) as [E|E].
  - rewrite E, Hv. destruct (He (k `mod` 64)) as [-> ->]; [done|lia|done].
  - by rewrite Ho.
Qed.

(** A block of directory [d] was overwritten on the disk. *)
Lemma block_written cpu k s d fb v :
  sys_ok cpu k s → 0 ≤ fb < 1048576 → fblock (fs s) (inode_of (fs s)) d fb ≠ 0 → map_ok v → is_ino (fs s) d →
  let s' := with_fs (bwrite (fblock (fs s) (inode_of (fs s)) d fb) v (fs s)) s in
  stepped cpu k 0 s s' (.= d) ∧ (∀ i, is_ino (fs s) i → ino_used (fs s') i = ino_used (fs s) i) ∧ inode_of (fs s') d = inode_of (fs s) d ∧
  fleaf (fs s') (inode_of (fs s')) d fb = v ∧
  (∀ fb', 0 ≤ fb' < 1048576 → fb' ≠ fb → fleaf (fs s') (inode_of (fs s')) d fb' = fleaf (fs s) (inode_of (fs s)) d fb') ∧
  (∀ fb', 0 ≤ fb' < 1048576 → fblock (fs s) (inode_of (fs s)) d fb' ≠ 0 → fblock (fs s') (inode_of (fs s')) d fb' ≠ 0).
Proof.
  intros [CP FO] Hfb Hp Hv Hd s'. set (y := fs s) in *. set (nodes := inode_of y) in *. pose proof (write_leaf_ok y nodes d fb v FO Hfb Hp Hv) as W.
  assert (fs s' = bwrite (fblock y nodes d fb) v y) as Ey by done. rewrite <-Ey in W. set (y' := fs s') in *. pose proof (lw_eq _ _ _ _ _ _ W) as E.
  pose proof (fl_fs _ _ FO) as F. pose proof (f_layout _ F) as [L1 L2 L3 L4 L5 L6 L7 L8 L9]. destruct (path_valid fb d (small_fb fb Hfb)) as (_ & Hpv & _).
  pose proof (fwalk_data y nodes _ _ _ FO Hpv eq_refl Hp) as Hdt. unfold is_data in Hdt. fold (fblock y nodes d fb) in Hdt.
  assert (∀ i, is_ino y' i → inode_of y' i = nodes i) as Hin.
  { intros i Hi. assert (is_ino y i) as Hi0 by (by rewrite E in Hi). destruct (inode_index (sb y) i Hi0) as (I1 & I2 & I3); [apply CP|].
    unfold nodes. unfold inode_of at 1. rewrite E. cbn [sb with_disk disk]. rewrite lookup_insert_ne by lia. done. }
  destruct (files_ext y' nodes (inode_of y') (lw_files _ _ _ _ _ _ W) Hin) as [FO' Hext].
  assert (∀ i, is_ino y i → is_ino y' i) as Hii by (intros i; unfold is_ino; by rewrite E).
  split; [split|].
  - split; [|done]. apply (cpu_ok_frame cpu k s y'); [done|apply FO'|by rewrite E..|]. intros b Hb. assert (b < data_start (sb y)) by (rewrite E in Hb; apply Hb). rewrite E. cbn [disk with_disk]. apply lookup_insert_ne. lia.
  - fold y'. by rewrite E.
  - fold y'. by rewrite E.
  - fold y'. by rewrite E.
  - fold y y'. rewrite E. cbn [global_free_blocks with_disk]. lia.
  - intros i Hi _. by apply (lw_ino _ _ _ _ _ _ W).
  - intros i Hi Hn. eapply untouched_trans; [by apply (lw_untouched _ _ _ _ _ _ W)|by apply Hext, Hii].
  - destruct (Hext d (Hii d Hd)) as [_ U2 U3]. fold y'. split; [apply (lw_ino _ _ _ _ _ _ W)|]. split; [by apply Hin, Hii|]. split; [rewrite U2 by done; apply (lw_leaf _ _ _ _ _ _ W)|]. split.
    + intros fb' Hfb' Hne. rewrite U2 by done. by apply (lw_other _ _ _ _ _ _ W).
    + intros fb' Hfb' Hne. apply U3; [done|]. by rewrite (lw_block _ _ _ _ _ _ W).
Qed.

(** A page that is there is found again, whether or not it may be allocated. *)
Lemma page_present s d m i cpu k (alloc : bool) :
  sys_ok cpu k s → ¬ oom (fs s) → is_ino (fs s) d → dir_rep (fs s) (inode_of (fs s)) d m → 0 ≤ i < nblocks (inode_of (fs s) d) →
  ∃ l, resolve_block (inode_of (fs s) d) i alloc (fs s) = Ok (fblock (fs s) (inode_of (fs s)) d i, inode_of (fs s) d, with_mem l (fs s)) ∧
    kept cpu k s (with_fs (with_mem l (fs s)) s) ∧ disk (fs s) !! fblock (fs s) (inode_of (fs s)) d i = Some (fleaf (fs s) (inode_of (fs s)) d i) ∧
    map_ok (fleaf (fs s) (inode_of (fs s)) d i).
Proof.
  intros SS Ho Hd R Hi. pose proof (ss_files _ _ _ SS) as FO. pose proof (dr_size _ _ _ _ R) as [_ Hn]. assert (0 ≤ i < MAX_FILE_BLOCKS) as Hfb by (apply small_fb; lia).
  pose proof (dr_full _ _ _ _ R i Hi) as Hne. destruct (path_valid i d Hfb) as (_ & Hv & _).
  destruct (resolve_lookup (i_id (inode_of (fs s) d)) (fs s) (inode_of (fs s)) d i FO Hd Hfb) as (r & l & Hr & Hm & [E|[_ ?] ]); [|done]. subst r.
  exists l. split; [unfold resolve_block; destruct alloc; [rewrite resolve_present by done|]; exact Hr|]. split; [by apply kept_mem|]. split; [|by apply fleaf_ok].
  rewrite fleaf_block. destruct (_ =? 0) eqn:E0; [lia|]. destruct (fo_blk _ _ _ _ (fl_forest _ _ FO) (fblock (fs s) (inode_of (fs s)) d i)) as (v & -> & _); [by eapply fwalk_live|done].
Qed.

(** The entry goes into a free slot of a page that is there. *)
Lemma link_present cpu k s d m fb j child nm v :
  sys_ok cpu k s → is_ino (fs s) d → dir_rep (fs s) (inode_of (fs s)) d m → m !! nm = None → child ≠ 0 → 0 ≤ fb < nblocks (inode_of (fs s) d) → 0 ≤ j < 64 →
  ent_ino (fleaf (fs s) (inode_of (fs s)) d fb) j = 0 → map_ok v → ent_ino v j = child → ent_name v j = nm → 0 ∈ ent_bytes v j →
  (∀ i, 0 ≤ i < 64 → i ≠ j → ent_ino v i = ent_ino (fleaf (fs s) (inode_of (fs s)) d fb) i ∧ ent_bytes v i = ent_bytes (fleaf (fs s) (inode_of (fs s)) d fb) i) →
  let s' := with_fs (bwrite (fblock (fs s) (inode_of (fs s)) d fb) v (fs s)) s in
  stepped cpu k 0 s s' (.= d) ∧ (∀ i, is_ino (fs s) i → ino_used (fs s') i = ino_used (fs s) i) ∧ dir_rep (fs s') (inode_of (fs s')) d (<[nm := child]> m).
Proof.
  intros SS Hd R Hnone Hc Hfb Hj Hfree Hv E1 E2 E3 Hother s'. pose proof R as [R1 R2 [R3 R3'] R4 R5 R6]. assert (0 ≤ fb < 1048576) as Hfb' by lia.
  destruct (block_written cpu k s d fb v SS Hfb' (R4 fb Hfb) Hv Hd) as (St & Hu & En & Hl & Hlo & Hb). fold s' in St, Hu, En, Hl, Hlo, Hb.
  split; [done|]. split; [done|]. destruct (slot_write _ _ _ _ d fb j v Hl Hlo Hfb' Hj Hother) as [Hs1 Hs2]. destruct (slot_join fb j Hfb' Hj) as (Hk & Ek1 & Ek2).
  split; rewrite ?En; try done.
  - intros fb' Hf. apply Hb; [lia|by apply R4].
  - intros fb' Hf. rewrite Hlo by lia. by apply R5.
  - eapply (slots_put _ _ m (64 * fb + j)); [exact R6|done| |done|done|by rewrite Hs1|by rewrite Hs1|by rewrite Hs1|done]. unfold slot. by rewrite Ek1, Ek2.
Qed.

(** The entry goes into a new page behind the others. *)
Lemma link_new cpu k s d m child nm :
  0 ≤ k → sys_ok cpu (k + 2) s → ¬ oom (fs s) → 0 < d < total_inodes (sb (fs s)) → dir_rep (fs s) (inode_of (fs s)) d m →
  name_ok nm → m !! nm = None → is_u32 child → child ≠ 0 → 4 ≤ global_free_blocks (fs s) →
  let nb := nblocks (inode_of (fs s) d) in nb < 1048575 →
  ∃ r n' y1 v s', resolve_block (inode_of (fs s) d) nb true (fs s) = Ok (r, n', y1) ∧ r ≠ 0 ∧ disk y1 !! r = Some (replicate 4096 0) ∧ i_size n' = i_size (inode_of (fs s) d) ∧
    put_entry (replicate 4096 0) 0 child nm = Ok v ∧
    sync_inode cpu d (set_size (4096 * (nb + 1)) n') true (with_fs (bwrite r v y1) s) = Ok (true, set_size (4096 * (nb + 1)) n', s') ∧
    stepped cpu k 4 s s' (.= d) ∧ (∀ i, is_ino (fs s) i → ino_used (fs s') i = ino_used (fs s) i) ∧ dir_rep (fs s') (inode_of (fs s')) d (<[nm := child]> m).
Proof.
  intros Hk [CP FO] Ho Hd R Hnm Hnone Hc Hc0 Hfree nb Hnb. pose proof R as [R1 R2 [R3 R3'] R4 R5 R6]. fold nb in R3, R3', R4, R5.
  set (y := fs s) in *. set (nodes := inode_of y) in *. assert (is_ino y d) as Hdi by (unfold is_ino; lia). pose proof (fl_fs _ _ FO) as F.
  pose proof (f_layout _ F) as [L1 L2 L3 L4 L5 L6 L7 L8 L9]. assert (0 ≤ nb < 1048576) as Hfb by lia. destruct (path_valid nb d (small_fb nb Hfb)) as (_ & Hpv & Hpl).
  unfold resolve_block. destruct (resolve_grows (i_id (nodes d)) y nodes d nb FO Ho) as (r & n' & y1 & -> & G & Hr & Hw & Hmeta); [rewrite R2; lia|done|by apply small_fb|done|].
  destruct (same_but_upd d nodes n' Hmeta) as [SB En']. set (nodes1 := upd_node nodes d n') in *. destruct Hmeta as (M1 & M2 & M3 & M4).
  pose proof (gr_files _ _ _ _ _ G) as FO1. pose proof (gr_sb _ _ _ _ _ G) as Esb. assert (is_ino y1 d) as Hd1 by (unfold is_ino in *; by rewrite Esb).
  assert (fleaf y1 nodes1 d nb = replicate 4096 0) as Hz by (unfold fleaf; rewrite (gr_leaf _ _ _ _ _ G) by done; apply R5; lia).
  assert (fblock y1 nodes1 d nb = r) as Ebr by done. assert (disk y1 !! r = Some (replicate 4096 0)) as Hdr.
  { rewrite <-Hz, fleaf_block, Ebr. destruct (r =? 0) eqn:E0; [lia|]. destruct (fo_blk _ _ _ _ (fl_forest _ _ FO1) r) as (w & -> & _); [by eapply fwalk_live|done]. }
  destruct (put_entry_ok (replicate 4096 0) 0 child nm) as (v & Hput & Hv & E1 & E2 & E3 & Hother); [apply map_ok_zeros|lia|done|done|].
  pose proof (write_leaf_ok y1 nodes1 d nb v FO1 Hfb ltac:(by rewrite Ebr) Hv) as W. rewrite Ebr in W. set (y2 := bwrite r v y1) in *. pose proof (lw_eq _ _ _ _ _ _ W) as E.
  pose proof (lw_files _ _ _ _ _ _ W) as FO2. assert (sb y2 = sb y) as Esb2 by (by rewrite E). rewrite Ebr in E.
  assert (live y1 r) as Hlr by (by eapply fwalk_live). pose proof Hlr as [Hrd _]. unfold is_data in Hrd. rewrite Esb in Hrd.
  assert (∀ b, b < data_start (sb y) → ¬ is_map y b → disk y2 !! b = disk y !! b) as Hlow.
  { intros b Hb Hm. rewrite E. cbn [disk with_disk]. rewrite lookup_insert_ne by lia. by apply (gr_disk _ _ _ _ _ G). }
  assert (cpu_ok cpu (k + 2) (with_fs y2 s)) as CP2.
  { apply cpu_ok_frame; [done|apply FO2|by rewrite Esb2..|]. intros b Hb. rewrite Esb2 in Hb. apply Hlow; [lia|unfold is_map; lia]. }
  assert (∀ i, is_ino y i → inode_of y2 i = nodes i) as Hin.
  { intros i Hi. destruct (inode_index (sb y) i Hi) as (I1 & I2 & I3); [apply CP|]. unfold nodes, inode_of. rewrite Esb2, Hlow; [done|lia|unfold is_map; lia]. }
  destruct (set_size_ok (4096 * (nb + 1)) n') as [Hss1 Hss2]; [unfold is_u32; lia|rewrite <-En'; by apply (fl_node _ _ FO1)|].
  assert (∀ i, is_ino y i → is_ino y2 i) as Hi2 by (intros i; unfold is_ino; by rewrite Esb2).
  destruct (sync_write_ok cpu k d nodes1 (set_size (4096 * (nb + 1)) n') s y2) as (s' & Hs' & SS' & Sy & Hn & Hothers & _); try done.
  { intros H. apply Ho, (gr_mem _ _ _ _ _ G). by rewrite E in H. } { by rewrite Esb2. }
  { intros i Hi Hne. destruct SB as [SB _]. rewrite SB by done. apply Hin. unfold is_ino in *. by rewrite <-Esb2. }
  { intros sl. by rewrite Hss2, En'. }
  exists r, n', y1, v, s'. split; [done|]. split; [done|]. split; [done|]. split; [done|]. split; [done|]. split; [done|].
  pose proof (sy_sb _ _ Sy) as Es'. assert (data_same y2 (fs s')) as Hds by (intros b Hb; apply (sy_disk _ _ Sy); unfold is_data in Hb; lia).
  assert (∀ i, is_ino y i → i ≠ d → untouched y nodes (fs s') (inode_of (fs s')) i) as Hut.
  { intros i Hi Hne. eapply untouched_trans; [eapply untouched_grown; [exact G|by apply SB]|]. eapply untouched_trans; [by apply (lw_untouched _ _ _ _ _ _ W)|].
    apply untouched_same; [done|by rewrite Es'|by apply Hothers; [apply Hi2|] |done]. }
  split; [|split].
  - split; try done.
    + intros H. apply (gr_mem _ _ _ _ _ G). apply (sy_mem _ _ Sy) in H. by rewrite E in H.
    + by rewrite Es', Esb2.
    + by rewrite Es', Esb2.
    + rewrite (proj1 (sy_free _ _ Sy)), E. apply (gr_free _ _ _ _ _ G).
    + intros i Hi Hne. rewrite (sy_ino _ _ Sy), (lw_ino _ _ _ _ _ _ W), (gr_ino _ _ _ _ _ G) by (done || by apply Hi2 || (unfold is_ino in *; by rewrite Esb)). done.
  - intros i Hi. rewrite (sy_ino _ _ Sy), (lw_ino _ _ _ _ _ _ W), (gr_ino _ _ _ _ _ G) by (done || by apply Hi2 || (unfold is_ino in *; by rewrite Esb)). done.
  - (* the directory *)
    assert (untouched y2 (upd_node nodes1 d (inode_of (fs s') d)) (fs s') (inode_of (fs s')) d) as U2.
    { apply untouched_same; [|by rewrite Es'|unfold upd_node; by rewrite bool_decide_true|done].
      apply (gr_files 0 y2 nodes1). apply grown_roots; [done| |]. 
      - intros [i sl]. unfold roots; cbn. unfold upd_node at 1. case_bool_decide; [|done]. subst i. by rewrite Hn, Hss2, En'.
      - apply upd_node_ok; [apply FO2|by rewrite Hn]. }
    set (nodes2 := upd_node nodes1 d (inode_of (fs s') d)) in *.
    assert (∀ fb, fblock y2 nodes2 d fb = fblock y2 nodes1 d fb ∧ fleaf y2 nodes2 d fb = fleaf y2 nodes1 d fb) as Hsame.
    { intros fb. assert (fblock y2 nodes2 d fb = fblock y2 nodes1 d fb) as Eb.
      { unfold fblock, fwalk, walk, roots; cbn. unfold nodes2, upd_node. rewrite bool_decide_true by done. by rewrite Hn, Hss2, En'. }
      split; [done|]. by rewrite !fleaf_block, Eb. }
    assert (∀ fb, 0 ≤ fb < 1048576 → fb ≠ nb → fleaf (fs s') (inode_of (fs s')) d fb = fleaf y nodes d fb) as Hlo.
    { intros fb Hf Hne. rewrite (ut_leaf _ _ _ _ _ U2) by done. rewrite (proj2 (Hsame fb)), (lw_other _ _ _ _ _ _ W) by done.
      destruct (path_valid fb d (small_fb fb Hf)) as (_ & Hv' & Hl'). by apply (gr_leaf _ _ _ _ _ G). }
    assert (fleaf (fs s') (inode_of (fs s')) d nb = v) as Hl by (rewrite (ut_leaf _ _ _ _ _ U2) by done; rewrite (proj2 (Hsame nb)); apply (lw_leaf _ _ _ _ _ _ W)).
    assert (nblocks (inode_of (fs s') d) = nb + 1) as Enb by (rewrite Hn; unfold nblocks; cbn; Z.to_euclidean_division_equations; lia).
    assert (fleaf y nodes d nb = replicate 4096 0) as Hzy by (apply R5; lia).
    destruct (slot_write y nodes (fs s') (inode_of (fs s')) d nb 0 v Hl Hlo Hfb) as [Hs1 Hs2]; [lia|by rewrite Hzy|]. destruct (slot_join nb 0 Hfb) as (Hk' & Ek1 & Ek2); [lia|].
    split; rewrite ?Enb, ?Hn; cbn [i_type i_id i_size set_size]; [congruence|congruence|lia| | |].
    + intros fb Hf. apply (ut_block _ _ _ _ _ U2); [lia|]. rewrite (proj1 (Hsame fb)), (lw_block _ _ _ _ _ _ W) by lia.
      destruct (decide (fb = nb)) as [->|]; [by rewrite Ebr|]. destruct (path_valid fb d) as (_ & Hv' & Hl'); [apply small_fb; lia|].
      unfold fblock. rewrite (gr_walk _ _ _ _ _ G); [apply R4; lia|done|apply R4; lia].
    + intros fb Hf. rewrite Hlo by lia. apply R5. lia.
    + eapply (slots_put _ _ m (64 * nb + 0)); [exact R6|done| |done|exact Hc0|by rewrite Hs1|by rewrite Hs1|by rewrite Hs1|done].
      unfold slot. rewrite Ek1, Ek2, Hzy. by apply ent_zeros.
Qed.

Lemma link_loop_ok fuel cpu k s d m i child nm :
  0 ≤ k → sys_ok cpu (k + 2) s → ¬ oom (fs s) → 0 < d < total_inodes (sb (fs s)) → total_blocks (sb (fs s)) < 1048575 → dir_rep (fs s) (inode_of (fs s)) d m →
  name_ok nm → m !! nm = None → is_u32 child → child ≠ 0 → 4 ≤ global_free_blocks (fs s) →
  0 ≤ i ≤ nblocks (inode_of (fs s) d) → nblocks (inode_of (fs s) d) - i < Z.of_nat fuel →
  ∃ s', link_loop fuel cpu d (inode_of (fs s) d) i child nm s = Ok (0, s') ∧ stepped cpu k 4 s s' (.= d) ∧
    (∀ i, is_ino (fs s) i → ino_used (fs s') i = ino_used (fs s) i) ∧ dir_rep (fs s') (inode_of (fs s')) d (<[nm := child]> m).
Proof.
  intros Hk. revert s i. induction fuel as [|fuel IH]; intros s i SS Ho Hd Htb R Hnm Hnone Hc Hc0 Hfree Hi Hfuel; [lia|].
  pose proof (nblocks_bound _ _ _ _ (ss_files _ _ _ SS) R) as Hnb. pose proof (dr_size _ _ _ _ R) as [Hsz Hn]. assert (is_ino (fs s) d) as Hdi by (unfold is_ino; lia).
  cbn [link_loop]. cbv zeta. rewrite (u32_small ((i + 1) * YFS_BLOCK_SIZE)) by (change YFS_BLOCK_SIZE with 4096; lia). rewrite (u32_small (i + 1)) by lia.
  change (Z.to_nat entries_per_block) with 64%nat. change YFS_BLOCK_SIZE with 4096. destruct (decide (i = nblocks (inode_of (fs s) d))) as [->|Hne].
  - destruct (link_new cpu k s d m child nm) as (r & n' & y1 & v & s' & -> & Hr & Hdr & Esz & Hput & Hs' & St & Hu & R'); try done; [lia|]. cbn [mbind res_bind].
    destruct (r =? 0) eqn:E0; [lia|]. unfold bread. rewrite Hdr. cbn [mbind res_bind].
    assert (free_entry 64 (replicate 4096 0) 0 = Ok (Some 0)) as -> by (cbn [free_entry]; rewrite rd32_ent by (apply map_ok_zeros || lia); cbn [mbind res_bind]; by rewrite ent_zeros by lia).
    cbn [mbind res_bind]. rewrite Hput. cbn [mbind res_bind]. rewrite Esz, Hsz. rewrite (proj2 (Z.ltb_lt _ _)) by lia.
    replace ((nblocks (inode_of (fs s) d) + 1) * 4096) with (4096 * (nblocks (inode_of (fs s) d) + 1)) by lia. rewrite Hs'. cbn [mbind res_bind snd]. by exists s'.
  - destruct (page_present s d m i cpu (k + 2) true SS Ho Hdi R) as (l & -> & K & Hdk & Hok); [lia|]. cbn [mbind res_bind].
    pose proof (dr_full _ _ _ _ R i ltac:(lia)) as Hb0. destruct (fblock _ _ d i =? 0) eqn:E0; [lia|]. unfold bread. cbn [disk with_mem]. rewrite Hdk. cbn [mbind res_bind].
    set (s1 := with_fs (with_mem l (fs s)) s) in *. pose proof (stepped_kept cpu (k + 2) s s1 (ss_files _ _ _ SS) K) as St1. assert (¬ oom (fs s1)) as Ho1 by (intros H; by apply Ho, (kp_mem _ _ _ _ K)).
    assert (dir_rep (fs s1) (inode_of (fs s1)) d m) as R1 by (eapply dir_untouched; [exact R|apply (sp_same _ _ _ _ _ _ St1); [done|tauto]]).
    destruct (free_entry_ok 64 (fleaf (fs s) (inode_of (fs s)) d i) 0 Hok) as (f & -> & Hf); [lia|lia|]. cbn [mbind res_bind]. destruct f as [j|].
    + destruct Hf as [Hj Hfr]. destruct (put_entry_ok (fleaf (fs s) (inode_of (fs s)) d i) j child nm) as (v & -> & Hv & E1 & E2 & E3 & Hother); [done..|]. cbn [mbind res_bind].
      rewrite Hsz. rewrite (proj2 (Z.ltb_ge _ _)) by lia.
      destruct (link_present cpu (k + 2) s1 d m i j child nm v) as (St & Hu & R'); try done; [apply K|change (inode_of (fs s1) d) with (inode_of (fs s) d); lia|].
      eexists. split; [done|]. split; [|split; [exact Hu|exact R'] ].
      eapply kept_stepped; [exact SS|exact K|]. eapply stepped_weaken; [| | |exact St]; [lia|lia|done].
    + destruct (IH s1 (i + 1)) as (s' & Hs' & St & Hu & R'); try done; [apply K|change (inode_of (fs s1) d) with (inode_of (fs s) d); lia|change (inode_of (fs s1) d) with (inode_of (fs s) d); lia|].
      exists s'. split; [exact Hs'|]. split; [|split; [exact Hu|exact R'] ]. by eapply kept_stepped.
Qed.
