(* ===== verification/YfsSpace.v ===== *)
(** * YulaFS: the name space

    What a program sees of the directories: the kind of every inode and a map
    from names to inodes for every directory.  [ns_ok] relates the file system
    with its caches to it; looking a name up and walking along a path leave it
    alone and find what the maps say. *)

From S2P Require Import Prelude Bdev YfsBitmap YfsWords Yfs YfsAlloc YfsOps YfsVolume YfsInode YfsForest YfsBlockMap YfsResolve YfsFile YfsBytes YfsFiles YfsTruncate YfsDcache YfsDir YfsEntry YfsNames.

Record nspace := Space { kind : Z → Z; names : Z → gmap name Z }.

(** The cache says what the directories say. *)
Definition cache_rep (c : dcache) (a : nspace) : Prop := ∀ d nm i, dc_table c !! (d, nm) = Some i → names a d !! nm = Some i.

(** The file system on CPU [cpu], with [k] stamps to go and with memory,
    represents [a]. *)
Record ns_ok (cpu k : Z) (s : dirs) (a : nspace) : Prop := {
  ns_sys : sys_ok cpu k (d_sys s);
  ns_mem : ¬ oom (d_fs s);
  ns_disk : total_blocks (sb (d_fs s)) < 1048575;
  ns_inodes : total_inodes (sb (d_fs s)) < 2147483648;
  ns_root : kind a 1 = YFS_TYPE_DIR;
  ns_range i : kind a i = YFS_TYPE_DIR → 0 < i < total_inodes (sb (d_fs s));
  ns_kind i : 0 < i < total_inodes (sb (d_fs s)) → i_type (inode_of (d_fs s) i) = kind a i;
  ns_used i : 0 < i < total_inodes (sb (d_fs s)) → ino_used (d_fs s) i = bool_decide (kind a i ≠ YFS_TYPE_FREE);
  ns_free i : 0 < i < total_inodes (sb (d_fs s)) → kind a i = YFS_TYPE_FREE → ∀ sl, slot_ptr (inode_of (d_fs s) i) sl = 0;
  ns_dir i : kind a i = YFS_TYPE_DIR → dir_rep (d_fs s) (inode_of (d_fs s)) i (names a i);
  ns_nodir i : kind a i ≠ YFS_TYPE_DIR → names a i = ∅;
  ns_target d nm i : names a d !! nm = Some i → 0 < i < total_inodes (sb (d_fs s));
  ns_cache : cache_rep (d_cache s) a;
}.

(** Blocks, open files and the shape of the disk are the same. *)
Record quiet (s s' : dirs) : Prop := {
  qu_refs : open_refs (d_open s') = open_refs (d_open s);
  qu_free : global_free_blocks (d_fs s) ≤ global_free_blocks (d_fs s');
  qu_total : total_inodes (sb (d_fs s')) = total_inodes (sb (d_fs s));
}.

Lemma quiet_refl s : quiet s s.
Proof. by split. Qed.

Lemma quiet_trans s1 s2 s3 : quiet s1 s2 → quiet s2 s3 → quiet s1 s3.
Proof. intros [A1 A2 A3] [B1 B2 B3]. split; [congruence|lia|congruence]. Qed.

(** The file system in memory may have changed, but no inode and no contents. *)
Record viewed (s s' : dirs) : Prop := {
  vw_quiet : quiet s s';
  vw_mounted : d_mounted s' = d_mounted s;
  vw_file i : is_ino (d_fs s) i → untouched (d_fs s) (inode_of (d_fs s)) (d_fs s') (inode_of (d_fs s')) i;
}.

Lemma viewed_refl s : viewed s s.
Proof. split; [apply quiet_refl|done|intros; apply untouched_refl]. Qed.

Lemma viewed_trans s1 s2 s3 : viewed s1 s2 → viewed s2 s3 → viewed s1 s3.
Proof.
  intros [A1 A3 A2] [B1 B3 B2]. split; [by eapply quiet_trans|congruence|]. intros i Hi. eapply untouched_trans; [by apply A2|]. apply B2. unfold is_ino in *. by rewrite (qu_total _ _ A1).
Qed.

(** What is new at the inodes of [T]. *)
Definition rep_at (y : yfs) (a : nspace) (i : Z) : Prop :=
  0 < i < total_inodes (sb y) ∧ i_type (inode_of y i) = kind a i ∧ ino_used y i = bool_decide (kind a i ≠ YFS_TYPE_FREE) ∧
  (kind a i = YFS_TYPE_FREE → ∀ sl, slot_ptr (inode_of y i) sl = 0) ∧
  (kind a i = YFS_TYPE_DIR → dir_rep y (inode_of y) i (names a i)) ∧ (kind a i ≠ YFS_TYPE_DIR → names a i = ∅).

Lemma ns_step cpu k0 k c s a x refs ch mnt a' (T : Z → Prop) `{∀ i, Decision (T i)} :
  ns_ok cpu k0 s a → stepped cpu k c (d_sys s) x T →
  (∀ i, ¬ T i → kind a' i = kind a i ∧ names a' i = names a i) → (∀ i, T i → rep_at (fs x) a' i) → kind a' 1 = YFS_TYPE_DIR →
  (∀ d nm i, names a' d !! nm = Some i → 0 < i < total_inodes (sb (d_fs s))) → cache_rep ch a' →
  ns_ok cpu k (Dirs (Opened x refs) ch mnt) a'.
Proof.
  intros N [S1 S2 S3 S4 S5 S6 S7] Hout Hin Hroot Htgt Hch. unfold d_fs in *. change (d_sys (Dirs (Opened x refs) ch mnt)) with x.
  assert (∀ i, 0 < i < total_inodes (sb (fs (d_sys s))) → is_ino (fs (d_sys s)) i) as Hii by (intros; unfold is_ino; lia).
  split; unfold d_fs; change (d_sys (Dirs (Opened x refs) ch mnt)) with x; rewrite ?S3, ?S4; [done|intros Ho; by apply (ns_mem _ _ _ _ N), S2|apply N|apply N|done|..].
  - intros i Hi. destruct (decide (T i)) as [Ht|Ht]; [destruct (Hin i Ht) as [? _]; by rewrite <-S3|]. destruct (Hout i Ht) as [E _]. apply (ns_range _ _ _ _ N). by rewrite <-E.
  - intros i Hi. destruct (decide (T i)) as [Ht|Ht]; [destruct (Hin i Ht) as (? & ? & ? & ? & ? & ?); auto|]. destruct (Hout i Ht) as [-> _]. rewrite (ut_node _ _ _ _ _ (S7 i (Hii i Hi) Ht)). by apply (ns_kind _ _ _ _ N).
  - intros i Hi. destruct (decide (T i)) as [Ht|Ht]; [destruct (Hin i Ht) as (? & ? & ? & ? & ? & ?); auto|]. destruct (Hout i Ht) as [-> _]. rewrite S6 by auto. by apply (ns_used _ _ _ _ N).
  - intros i Hi. destruct (decide (T i)) as [Ht|Ht]; [destruct (Hin i Ht) as (? & ? & ? & ? & ? & ?); auto|]. destruct (Hout i Ht) as [-> _]. rewrite (ut_node _ _ _ _ _ (S7 i (Hii i Hi) Ht)). by apply (ns_free _ _ _ _ N).
  - intros i. destruct (decide (T i)) as [Ht|Ht]; [destruct (Hin i Ht) as (? & ? & ? & ? & ? & ?); auto|]. destruct (Hout i Ht) as [-> ->]. intros Hk. pose proof (ns_range _ _ _ _ N i Hk) as Hi.
    eapply dir_untouched; [by apply (ns_dir _ _ _ _ N)|by apply S7, Ht; apply Hii].
  - intros i. destruct (decide (T i)) as [Ht|Ht]; [destruct (Hin i Ht) as (? & ? & ? & ? & ? & ?); auto|]. destruct (Hout i Ht) as [-> ->]. by apply (ns_nodir _ _ _ _ N).
  - done.
  - done.
Qed.

(** Nothing that is represented has changed. *)
Lemma ns_quiet cpu k0 k c s a x ch : ns_ok cpu k0 s a → stepped cpu k c (d_sys s) x (λ _, False) → cache_rep ch a →
  ns_ok cpu k (Dirs (Opened x (open_refs (d_open s))) ch (d_mounted s)) a.
Proof. intros N St Hc. apply (ns_step cpu k0 k c s a x _ ch _ a (λ _, False)); [exact N|exact St|done|done|apply N|apply N|done]. Qed.

Lemma ns_weaken cpu k k' s a : k' ≤ k → ns_ok cpu k s a → ns_ok cpu k' s a.
Proof. intros Hk [A1 A2 A3 A4 A5 A6 A7 A8 A9 A10 A11 A12 A13]. split; try done. by eapply sys_ok_weaken. Qed.

(** ** The cache *)

Lemma cache_rep_insert c a d nm i : cache_rep c a → names a d !! trunc nm = Some i → cache_rep (dcache_insert d nm i c) a.
Proof.
  intros Hc Hi d' nm' i'. unfold dcache_insert. destruct nm as [|x nm]; [apply Hc|]. unfold kmem_cache_alloc. cbv zeta iota. destruct (negb _); [apply Hc|]. cbn [dc_table].
  destruct (dc_table c !! (d, trunc (x :: nm))) eqn:E; cbn [dc_table]; [apply Hc|]. rewrite lookup_insert_Some. intros [ [ [= <- <-] <-]|[_ ?] ]; [done|by apply Hc].
Qed.

(** What is cached under a name says that the name is there; after the entry has
    gone from the cache the name may go. *)
Lemma cache_rep_invalidate c a a' d nm :
  cache_rep c a → nm ≠ [] → (∀ d' nm' i, (d', nm') ≠ (d, trunc nm) → names a d' !! nm' = Some i → names a' d' !! nm' = Some i) →
  cache_rep (dcache_invalidate_entry d nm c) a'.
Proof.
  intros Hc Hnm Ha d' nm' i. unfold dcache_invalidate_entry. destruct nm as [|x nm]; [done|]. destruct (dc_table c !! (d, trunc (x :: nm))) eqn:E; cbn [dc_table].
  - rewrite lookup_delete_Some. intros [Hne Hl]. apply Ha; [congruence|by apply Hc].
  - intros Hl. apply Ha; [|by apply Hc]. intros [= -> ->]. congruence.
Qed.

Lemma cache_lookup_ok c a d nm : cache_rep c a → name_ok nm → names a d !! nm = None → dcache_lookup d nm c = 0.
Proof.
  intros Hc Hn Hnone. unfold dcache_lookup. destruct nm as [|x nm]; [done|]. rewrite (trunc_ok _ Hn). destruct (dc_table c !! (d, x :: nm)) eqn:E; [|done]. apply Hc in E. congruence.
Qed.

Lemma cache_lookup_hit c a d nm : cache_rep c a → name_ok nm → dcache_lookup d nm c ≠ 0 → names a d !! nm = Some (dcache_lookup d nm c).
Proof.
  intros Hc Hn. unfold dcache_lookup. destruct nm as [|x nm]; [done|]. rewrite (trunc_ok _ Hn). destruct (dc_table c !! (d, x :: nm)) eqn:E; [|done]. cbn. intros _. by apply Hc.
Qed.

Lemma cache_rep_shrink l t freed n t' l' freed' a slab :
  (∀ d nm i, t !! (d, nm) = Some i → names a d !! nm = Some i) → shrink_loop l t freed n = (l', t', freed') → cache_rep (Dcache t' l' slab) a.
Proof.
  revert t freed. induction l as [|key l IH]; intros t freed Ht; cbn [shrink_loop]; [by intros [= <- <- _]|]. case_if; [by intros [= <- <- _]|].
  destruct (t !! key); apply IH; [|done]. intros d nm i [_ Hl]%lookup_delete_Some. by apply Ht.
Qed.

(** ** Looking up *)

Lemma kept_view cpu k k0 s a x : ns_ok cpu k0 s a → kept cpu k (d_sys s) x → ns_ok cpu k (with_sys x s) a ∧ viewed s (with_sys x s).
Proof.
  intros N K. split; [|split].
  - eapply ns_quiet; [exact N| |apply N]. apply stepped_kept; [apply N|exact K].
  - split; [done|unfold d_fs; cbn; rewrite (kp_free _ _ _ _ K); lia|unfold d_fs; cbn; by rewrite (kp_sb _ _ _ _ K)].
  - done.
  - intros j Hj. apply untouched_same; [apply N|unfold d_fs; cbn; by rewrite (kp_sb _ _ _ _ K)|by apply (kp_inode _ _ _ _ K)|intros b; apply (kp_disk _ _ _ _ K)].
Qed.

Lemma dsync_view cpu k s a i data :
  0 ≤ k → ns_ok cpu (k + 2) s a → 0 < i < total_inodes (sb (d_fs s)) →
  ∃ s', dsync cpu i data false s = Ok (true, inode_of (d_fs s) i, s') ∧ ns_ok cpu k s' a ∧ viewed s s' ∧ d_cache s' = d_cache s.
Proof.
  intros Hk N Hi. destruct (sync_read_ok cpu k i data (d_sys s) Hk (ns_sys _ _ _ _ N) (ns_mem _ _ _ _ N) Hi) as (x & Hx & K). unfold dsync. rewrite Hx. cbn [mbind res_bind fst snd].
  destruct (kept_view _ _ _ _ _ _ N K) as [N' V]. by exists (with_sys x s).
Qed.

Lemma dsync_read_ok cpu k s a i data :
  0 ≤ k → ns_ok cpu (k + 2) s a → 0 < i < total_inodes (sb (d_fs s)) →
  ∃ s', dsync cpu i data false s = Ok (true, inode_of (d_fs s') i, s') ∧ ns_ok cpu k s' a ∧ quiet s s' ∧ d_cache s' = d_cache s.
Proof.
  intros Hk N Hi. destruct (dsync_view cpu k s a i data Hk N Hi) as (s' & Hs & N' & V & Hc). exists s'.
  rewrite (ut_node _ _ _ _ _ (vw_file _ _ V i ltac:(unfold is_ino; lia))). split; [done|]. split; [done|]. split; [apply V|done].
Qed.

(** A change of the buffers only. *)
Lemma ns_mem_step cpu k s a l ch :
  ns_ok cpu k s a → (oom (with_mem l (d_fs s)) → oom (d_fs s)) → cache_rep ch a →
  ns_ok cpu k (with_cache ch (with_yfs (with_mem l (d_fs s)) s)) a ∧ quiet s (with_cache ch (with_yfs (with_mem l (d_fs s)) s)).
Proof.
  intros N Hm Hc. split; [|by split]. apply (ns_quiet cpu k k 0 s a (with_fs (with_mem l (d_fs s)) (d_sys s)) ch); [exact N| |done]. apply stepped_kept; [apply N|]. by apply kept_mem; [apply N|].
Qed.

Lemma view_mem_step cpu k s a l ch :
  ns_ok cpu k s a → (oom (with_mem l (d_fs s)) → oom (d_fs s)) → cache_rep ch a →
  ns_ok cpu k (with_cache ch (with_yfs (with_mem l (d_fs s)) s)) a ∧ viewed s (with_cache ch (with_yfs (with_mem l (d_fs s)) s)).
Proof. intros N Hm Hc. destruct (ns_mem_step cpu k s a l ch N Hm Hc) as [N' Q]. split; [exact N'|]. split; [exact Q|done|]. intros i _. by split. Qed.

Lemma dir_blocks_ok n : i_size n = 4096 * nblocks n → 0 ≤ nblocks n < 1048576 → dir_blocks n = nblocks n.
Proof.
  intros E Hn. unfold dir_blocks. change YFS_BLOCK_SIZE with 4096. rewrite E. destruct (decide (nblocks n = 0)) as [->|]; [done|].
  rewrite u32_small by lia. Z.to_euclidean_division_equations. lia.
Qed.

(** The scan of a whole directory. *)
Lemma dir_scan_all cpu k s a d nm :
  ns_ok cpu k s a → kind a d = YFS_TYPE_DIR → name_ok nm →
  let n := inode_of (d_fs s) d in
  ∃ r l, dir_scan (Z.to_nat (dir_blocks n)) n 0 nm (d_fs s) = Ok (r, with_mem l (d_fs s)) ∧ (oom (with_mem l (d_fs s)) → oom (d_fs s)) ∧
    match r with
    | Some f => ∃ fb, 0 ≤ fb < nblocks n ∧ fd_lba f = fblock (d_fs s) (inode_of (d_fs s)) d fb ∧ fd_buf f = fleaf (d_fs s) (inode_of (d_fs s)) d fb ∧ 0 ≤ fd_idx f < 64 ∧
        fd_ino f ≠ 0 ∧ ent_ino (fd_buf f) (fd_idx f) = fd_ino f ∧ ent_name (fd_buf f) (fd_idx f) = nm ∧ names a d !! nm = Some (fd_ino f)
    | None => names a d !! nm = None
    end.
Proof.
  intros N Hd Hnm n. pose proof (ns_dir _ _ _ _ N d Hd) as R. pose proof (ns_range _ _ _ _ N d Hd) as Hi. destruct (dr_size _ _ _ _ R) as [Hsz Hnb].
  rewrite dir_blocks_ok by done. apply dir_scan_ok; [apply N|apply N|unfold is_ino; lia|done|apply Hnm|lia|unfold n; lia|lia].
Qed.

Lemma dir_find_view cpu k s a d nm :
  ns_ok cpu k s a → kind a d = YFS_TYPE_DIR → name_ok nm →
  ∃ s', dir_find (inode_of (d_fs s) d) nm s = Ok (default 0 (names a d !! nm), s') ∧ ns_ok cpu k s' a ∧ viewed s s'.
Proof.
  intros N Hd Hnm. unfold dir_find. rewrite (dr_id _ _ _ _ (ns_dir _ _ _ _ N d Hd)). cbv zeta. destruct (dcache_lookup d nm (d_cache s) =? 0) eqn:E0; cbn [negb].
  2: { exists s. rewrite (cache_lookup_hit _ a) by (apply N || done || lia). split; [done|]. split; [done|apply viewed_refl]. }
  destruct (dir_scan_all cpu k s a d nm N Hd Hnm) as (r & l & -> & Hm & Hr). cbn [mbind res_bind fst snd]. destruct r as [f|].
  - destruct Hr as (fb & _ & _ & _ & _ & _ & _ & _ & Hname). rewrite Hname. eexists. split; [done|]. apply (view_mem_step cpu k s a l); [done|done|].
    apply cache_rep_insert; [apply N|by rewrite (trunc_ok _ Hnm)].
  - rewrite Hr. eexists. split; [done|]. apply (view_mem_step cpu k s a l (d_cache s)); [done|done|apply N].
Qed.

Lemma dir_find_ok cpu k s a d nm :
  ns_ok cpu k s a → kind a d = YFS_TYPE_DIR → name_ok nm →
  ∃ s', dir_find (inode_of (d_fs s) d) nm s = Ok (default 0 (names a d !! nm), s') ∧ ns_ok cpu k s' a ∧ quiet s s'.
Proof. intros N Hd Hnm. destruct (dir_find_view cpu k s a d nm N Hd Hnm) as (s' & Hs & N' & V). exists s'. split; [done|]. split; [done|apply V]. Qed.

Lemma s32_ino cpu k s a d nm i : ns_ok cpu k s a → names a d !! nm = Some i → s32 i = i ∧ 0 < i.
Proof. intros N Hn. pose proof (ns_target _ _ _ _ N d nm i Hn). pose proof (ns_inodes _ _ _ _ N). split; [apply s32_small; lia|lia]. Qed.

(** The answer to a caller. *)
Definition answer (o : option Z) : Z := default (-1) o.

Lemma found_answer cpu k s a d nm (s' : dirs) : ns_ok cpu k s a →
  (if default 0 (names a d !! nm) =? 0 then Ok (-1, s') else Ok (s32 (default 0 (names a d !! nm)), s')) = Ok (answer (names a d !! nm), s').
Proof.
  intros N. destruct (names a d !! nm) as [i|] eqn:E; [|done]. destruct (s32_ino _ _ _ _ _ _ _ N E) as [E1 E2]. unfold answer. cbn [default from_option id]. rewrite E1.
  destruct (i =? 0) eqn:E0; [lia|done].
Qed.

Lemma lookup_in_dir_view cpu k s a d nm :
  0 ≤ k → ns_ok cpu (k + 2) s a → kind a d = YFS_TYPE_DIR → name_ok nm →
  ∃ s', lookup_in_dir cpu d nm s = Ok (answer (names a d !! nm), s') ∧ ns_ok cpu k s' a ∧ viewed s s'.
Proof.
  intros Hk N Hd Hnm. unfold lookup_in_dir. destruct nm as [|c nm]; [by destruct Hnm as [_ [? _] ]; cbn in *; lia|]. pose proof (ns_range _ _ _ _ N d Hd) as Hi.
  destruct (dsync_view cpu k s a d no_inode Hk N Hi) as (s1 & -> & N1 & V1 & _). cbn [mbind res_bind negb]. rewrite <-(ut_node _ _ _ _ _ (vw_file _ _ V1 d ltac:(unfold is_ino; lia))).
  rewrite (dr_type _ _ _ _ (ns_dir _ _ _ _ N1 d Hd)). cbn [negb Z.eqb YFS_TYPE_DIR Pos.eqb]. destruct (dir_find_view cpu k s1 a d (c :: nm) N1 Hd Hnm) as (s2 & -> & N2 & V2).
  cbn [mbind res_bind fst snd]. rewrite (found_answer cpu k s2 a) by done. exists s2. split; [done|]. split; [done|by eapply viewed_trans].
Qed.

Lemma lookup_in_dir_ok cpu k s a d nm :
  0 ≤ k → ns_ok cpu (k + 2) s a → kind a d = YFS_TYPE_DIR → name_ok nm →
  ∃ s', lookup_in_dir cpu d nm s = Ok (answer (names a d !! nm), s') ∧ ns_ok cpu k s' a ∧ quiet s s'.
Proof. intros Hk N Hd Hnm. destruct (lookup_in_dir_view cpu k s a d nm Hk N Hd Hnm) as (s' & Hs & N' & V). exists s'. split; [done|]. split; [done|apply V]. Qed.
