(* ===== verification/YfsPath.v ===== *)
(** * YulaFS: paths

    A path is a list of components; [awalk] follows it through the maps of the
    name space, and [path_loop] gives the same directory and last component. *)

From S2P Require Import Prelude Bdev YfsBitmap YfsWords Yfs YfsAlloc YfsOps YfsVolume YfsInode YfsForest YfsBlockMap YfsResolve YfsFile YfsBytes YfsFiles YfsTruncate YfsDcache YfsDir YfsEntry YfsNames YfsSpace.

(** ** Components *)

(** The parts between slashes, the empty ones too. *)
Fixpoint split (p : list Z) : list name :=
  match p with
  | [] => [ [] ]
  | c :: q => if c =? slash then [] :: split q else match split q with n :: r => (c :: n) :: r | [] => [ [c] ] end
  end.

Definition components (p : list Z) : list name := filter (λ n, n ≠ []) (split p).

Lemma components_skip p : components (skip_slashes p) = components p.
Proof.
  induction p as [|c p IH]; [done|]. cbn [skip_slashes]. destruct (c =? slash) eqn:E; [|done]. rewrite IH. unfold components. cbn [split]. rewrite E. by rewrite filter_cons_False by naive_solver.
Qed.

(** The first component and what is left. *)
Lemma split_component p : split p = (component p).1 :: match (component p).2 with [] => [] | _ :: q => split q end.
Proof. induction p as [|c p IH]; [done|]. cbn [split component]. case_if; [done|]. rewrite IH. done. Qed.

Lemma component_rest p : match (component p).2 with [] => True | c :: _ => c = slash end ∧ p = (component p).1 ++ (component p).2.
Proof. induction p as [|c p [IH1 IH2] ]; [done|]. cbn [component]. case_if; cbn [fst snd]; [split; [lia|done]|]. split; [done|]. cbn. by rewrite <-IH2. Qed.

Lemma components_cons p : (component p).1 ≠ [] → components p = (component p).1 :: components (component p).2.
Proof.
  intros Hne. unfold components. rewrite split_component, filter_cons_True by done. f_equal. destruct (component_rest p) as [Hc _].
  destruct (component p).2 as [|c q]; [done|]. subst c. change (split (slash :: q)) with ([] :: split q). by rewrite filter_cons_False by naive_solver.
Qed.

Lemma skip_head p c q : skip_slashes p = c :: q → c ≠ slash ∧ (component (c :: q)).1 ≠ [].
Proof. induction p as [|x p IH]; [done|]. cbn [skip_slashes]. case_if; [done|]. intros [= -> ->]. split; [done|]. cbn. case_if; done. Qed.

Lemma skip_length p : (length (skip_slashes p) ≤ length p)%nat.
Proof. induction p as [|x p IH]; [done|]. cbn [skip_slashes]. case_if; cbn; lia. Qed.

Lemma skip_forall (P : Z → Prop) p : Forall P p → Forall P (skip_slashes p).
Proof. induction 1 as [|x p Hx Hp IH]; [done|]. cbn [skip_slashes]. case_if; [done|by constructor]. Qed.

(** A path of slashes has no components, and only such a path. *)
Lemma components_nil p : components p = [] ↔ skip_slashes p = [].
Proof.
  rewrite <-components_skip. destruct (skip_slashes p) as [|c q] eqn:E; [done|]. destruct (skip_head _ _ _ E) as [_ Hne]. by rewrite components_cons.
Qed.

(** ** The walk *)

(** The directory of the last component and that component. *)
Fixpoint awalk (a : nspace) (cur : Z) (cs : list name) : option (Z * name) :=
  match cs with
  | [] => None
  | nm :: cs =>
      if bool_decide (60 ≤ length nm)%nat then None
      else
        match cs with
        | [] => Some (cur, nm)
        | _ => if bool_decide (nm = dot) then awalk a cur cs else names a cur !! nm ≫= λ i, awalk a i cs
        end
  end.

(** Every component is looked for in a directory. *)
Fixpoint through_dirs (a : nspace) (cur : Z) (cs : list name) : Prop :=
  match cs with
  | [] => True
  | nm :: cs =>
      match cs with
      | [] => kind a cur = YFS_TYPE_DIR
      | _ => if bool_decide (nm = dot) then through_dirs a cur cs else kind a cur = YFS_TYPE_DIR ∧ ∀ i, names a cur !! nm = Some i → through_dirs a i cs
      end
  end.

Lemma awalk_dir a cur cs d nm : through_dirs a cur cs → awalk a cur cs = Some (d, nm) → kind a d = YFS_TYPE_DIR ∧ (length nm < 60)%nat ∧ nm ∈ cs.
Proof.
  revert cur. induction cs as [|c cs IH]; intros cur; [done|]. cbn [awalk through_dirs]. destruct (bool_decide (60 ≤ length c)%nat) eqn:E60; [by intros|]. apply bool_decide_eq_false in E60. destruct cs as [|c' cs].
  - intros Hk [= -> ->]. split; [done|]. split; [lia|left].
  - case_bool_decide.
    + intros Ht Hw. destruct (IH cur Ht Hw) as (? & ? & ?). split; [done|]. split; [done|by right].
    + intros [_ Ht]. destruct (names a cur !! c) as [i|] eqn:Ei; [|done]. cbn [mbind option_bind]. intros Hw.
      destruct (IH i (Ht i eq_refl) Hw) as (? & ? & ?). split; [done|]. split; [done|by right].
Qed.

(** Where a path starts, and where it leads to. *)
Definition start_of (cwd : Z) (path : list Z) : Z :=
  let curr := match path with c :: _ => if c =? slash then 1 else cwd | [] => cwd end in if curr =? 0 then 1 else curr.

(** The last component may be forbidden to be [.] or [..]. *)
Definition allowed_last (allow : bool) (o : option (Z * name)) : option (Z * name) :=
  match o with Some (d, nm) => if negb allow && (bool_decide (nm = dot) || bool_decide (nm = dotdot)) then None else Some (d, nm) | None => None end.

Definition aresolve (a : nspace) (cwd : Z) (path : list Z) (allow_special_last : bool) : option (Z * name) :=
  allowed_last allow_special_last (awalk a (start_of cwd path) (components path)).

(** A C string whose components are looked for in directories. *)
Definition path_ok (a : nspace) (cwd : Z) (path : list Z) : Prop :=
  Forall (λ c, 0 < c < 256) path ∧ through_dirs a (start_of cwd path) (components path).

(** ** The loop *)

Definition dir_of (o : option (Z * name)) : Z := match o with Some (d, _) => d | None => 0 end.

Lemma dotdot_ok : name_ok dotdot.
Proof. by apply (bool_decide_unpack _). Qed.

(** One component that is not the last. *)
Lemma component_step cpu k s a cur nm :
  0 ≤ k → ns_ok cpu (k + 2) s a → kind a cur = YFS_TYPE_DIR → name_ok nm → nm ≠ dot →
  ∃ s1, ns_ok cpu k s1 a ∧ quiet s s1 ∧
    (if bool_decide (nm = dotdot) then lookup_in_dir cpu cur dotdot s = Ok (answer (names a cur !! nm), s1)
     else ∃ s0, dsync cpu cur no_inode false s = Ok (true, inode_of (d_fs s0) cur, s0) ∧ dir_find (inode_of (d_fs s0) cur) nm s0 = Ok (default 0 (names a cur !! nm), s1)).
Proof.
  intros Hk N Hd Hnm Hdot. case_bool_decide as E.
  - subst nm. destruct (lookup_in_dir_ok cpu k s a cur dotdot Hk N Hd Hnm) as (s1 & Hl & N1 & Q1). by exists s1.
  - destruct (dsync_read_ok cpu k s a cur no_inode Hk N) as (s0 & Hs & N0 & Q0 & _); [by apply (ns_range _ _ _ _ N)|].
    destruct (dir_find_ok cpu k s0 a cur nm N0 Hd Hnm) as (s1 & Hf & N1 & Q1). exists s1. split; [done|]. split; [by eapply quiet_trans|]. by exists s0.
Qed.

Lemma path_loop_ok fuel cpu k s a cur p allow :
  0 ≤ k → (length p < fuel)%nat → ns_ok cpu (k + 2 * Z.of_nat (length p)) s a → Forall (λ c, 0 < c < 256) p → through_dirs a cur (components p) →
  let r := allowed_last allow (awalk a cur (components p)) in
  ∃ last s', path_loop fuel cpu cur p allow s = Ok (dir_of r, last, s') ∧ (∀ d nm, r = Some (d, nm) → last = Some nm) ∧ ns_ok cpu k s' a ∧ quiet s s'.
Proof.
  intros Hk. revert s cur p. induction fuel as [|fuel IH]; intros s cur p Hfuel N Hp Ht; [lia|]. cbn [path_loop]. cbv zeta.
  pose proof (skip_length p) as Hsl. pose proof (skip_forall _ _ Hp) as Hsp. rewrite <-components_skip in Ht |- *.
  destruct (skip_slashes p) as [|c q] eqn:E.
  { eexists _, s. split; [done|]. split; [done|]. split; [eapply ns_weaken; [|exact N]; lia|apply quiet_refl]. }
  destruct (skip_head _ _ _ E) as [_ Hne]. rewrite components_cons in Ht |- * by done. destruct (component_rest (c :: q)) as [_ Erest].
  destruct (component (c :: q)) as [nm rest]. cbn [fst snd] in *.
  assert (length (c :: q) = length nm + length rest)%nat as Hlen by (rewrite Erest; apply length_app).
  assert (Forall (λ c, 0 < c < 256) nm ∧ Forall (λ c, 0 < c < 256) rest) as [Hnm Hrest] by (rewrite Erest in Hsp; by apply Forall_app in Hsp).
  assert (0 < length nm)%nat as Hpos by (destruct nm; [done|cbn; lia]).
  change YFS_NAME_MAX with 60. cbn [awalk]. destruct (decide (60 ≤ length nm)%nat) as [E60|E60]; [rewrite (bool_decide_true (60 ≤ length nm)%nat) by done|rewrite (bool_decide_false (60 ≤ length nm)%nat) by done].
  { destruct ((zlen nm =? 0) || (60 <=? zlen nm)) eqn:Eg; [|exfalso; lia]. eexists _, s. split; [done|]. split; [done|]. split; [eapply ns_weaken; [|exact N]; lia|apply quiet_refl]. }
  destruct ((zlen nm =? 0) || (60 <=? zlen nm)) eqn:Eg; [exfalso; lia|]. assert (name_ok nm) as Hok by (split; [done|lia]).
  pose proof (skip_length rest) as Hsr. pose proof (skip_forall _ _ Hrest) as Hsf. pose proof (components_nil rest) as Hnil. rewrite <-(components_skip rest) in Ht, Hnil |- *.
  set (next := skip_slashes rest) in *. cbn [through_dirs] in Ht. destruct (decide (next = [])) as [En|En]; [rewrite (bool_decide_true (next = [])) by done|rewrite (bool_decide_false (next = [])) by done].
  { destruct (components next); [|discriminate (proj2 Hnil En)]. cbn [allowed_last]. destruct (negb allow && _); (eexists _, s; split; [done|]; split; [done || by intros d nm' [= <- <-]; rewrite (trunc_ok nm Hok)|]; split; [eapply ns_weaken; [|exact N]; lia|apply quiet_refl]). }
  destruct (components next) as [|c1 cs] eqn:Ec; [by destruct (En (proj1 Hnil eq_refl))|]. rewrite <-Ec in Ht |- *. destruct (decide (nm = dot)) as [Ed|Ed]; [rewrite (bool_decide_true (nm = dot)) in Ht |- * by done|rewrite (bool_decide_false (nm = dot)) in Ht |- * by done].
  - apply IH; [lia|eapply ns_weaken; [|exact N]; lia|done|done].
  - destruct Ht as [Hd Ht]. destruct (component_step cpu (k + 2 * Z.of_nat (length next)) s a cur nm) as (s1 & N1 & Q1 & Hstep); [lia|eapply ns_weaken; [|exact N]; lia|done|done|done|].
    assert (∀ i, names a cur !! nm = Some i → 0 < i) as Hpos_i by (intros i Hi; apply (ns_target _ _ _ _ N) in Hi; lia).
    destruct (bool_decide (nm = dotdot)).
    + rewrite Hstep. cbn [mbind res_bind fst snd]. destruct (names a cur !! nm) as [i|] eqn:Ei; cbn [answer default from_option id].
      * specialize (Hpos_i i eq_refl). destruct (i <=? 0) eqn:E0; [lia|]. destruct (IH s1 i next) as (last & s' & Hl & Hr & N' & Q'); [lia|done|done|by apply Ht|].
        exists last, s'. split; [exact Hl|]. split; [exact Hr|]. split; [done|by eapply quiet_trans].
      * eexists _, s1. split; [done|]. split; [done|]. split; [eapply ns_weaken; [|exact N1]; lia|done].
    + destruct Hstep as (s0 & -> & Hf). cbn [mbind res_bind negb]. rewrite Hf. cbn [mbind res_bind fst snd]. destruct (names a cur !! nm) as [i|] eqn:Ei; cbn [default from_option id].
      * specialize (Hpos_i i eq_refl). destruct (i =? 0) eqn:E0; [lia|]. destruct (IH s1 i next) as (last & s' & Hl & Hr & N' & Q'); [lia|done|done|by apply Ht|].
        exists last, s'. split; [exact Hl|]. split; [exact Hr|]. split; [done|by eapply quiet_trans].
      * eexists _, s1. split; [done|]. split; [done|]. split; [eapply ns_weaken; [|exact N1]; lia|done].
Qed.

(** What a caller of the walk relies on. *)
Lemma aresolve_dir a cwd path allow d nm :
  path_ok a cwd path → aresolve a cwd path allow = Some (d, nm) → kind a d = YFS_TYPE_DIR ∧ name_ok nm.
Proof.
  intros [Hp Ht]. unfold aresolve, allowed_last. destruct (awalk _ _ _) as [ [d' nm']|] eqn:E; [|done]. destruct (negb allow && _); [done|]. intros [= -> ->].
  destruct (awalk_dir _ _ _ _ _ Ht E) as (Hd & Hl & Hin). split; [done|]. unfold components in Hin. apply list_elem_of_filter in Hin as [Hne Hin]. split; [|destruct nm; [done|cbn in *; lia] ].
  clear -Hp Hin. revert nm Hin. induction Hp as [|c p Hc Hp IH]; intros nm; cbn [split]; [intros ->%list_elem_of_singleton; done|].
  case_if; [intros [->|?]%elem_of_cons; [done|auto]|]. destruct (split p) as [|n r]; [intros ->%list_elem_of_singleton; by apply Forall_singleton|].
  intros [->|Hin]%elem_of_cons; [constructor; [done|apply IH; left]|apply IH; by right].
Qed.

Lemma path_to_inode_ok cpu k s a cwd path allow :
  0 ≤ k → ns_ok cpu (k + 2 * Z.of_nat (length path)) s a → path_ok a cwd path →
  let r := aresolve a cwd path allow in
  ∃ last s', path_to_inode_impl cpu cwd path allow s = Ok (dir_of r, last, s') ∧ (∀ d nm, r = Some (d, nm) → last = Some nm) ∧ ns_ok cpu k s' a ∧ quiet s s'.
Proof.
  intros Hk N [Hp Ht]. unfold path_to_inode_impl. destruct path as [|c path].
  - exists (Some []), s. split; [done|]. split; [done|]. split; [eapply ns_weaken; [|exact N]; lia|apply quiet_refl].
  - apply path_loop_ok; [done|lia|done|done|exact Ht].
Qed.

(** ** [lookup] *)

Definition alookup (a : nspace) (cwd : Z) (path : list Z) : Z :=
  if bool_decide (path = []) then s32 cwd
  else if bool_decide (path = [slash]) then 1
  else match aresolve a cwd path true with Some (d, nm) => answer (names a d !! nm) | None => -1 end.

Lemma yulafs_lookup_ok cpu k s a cwd path junk :
  0 ≤ k → ns_ok cpu (k + 2 * Z.of_nat (length path) + 2) s a → path_ok a cwd path →
  ∃ s', yulafs_lookup cpu cwd path junk s = Ok (alookup a cwd path, s') ∧ ns_ok cpu k s' a ∧ quiet s s'.
Proof.
  intros Hk N Hp. unfold yulafs_lookup, alookup.
  destruct (bool_decide (path = [])); [exists s; split; [done|]; split; [eapply ns_weaken; [|exact N]; lia|apply quiet_refl]|].
  destruct (bool_decide (path = [slash])); [exists s; split; [done|]; split; [eapply ns_weaken; [|exact N]; lia|apply quiet_refl]|].
  unfold path_to_inode. destruct (path_to_inode_ok cpu (k + 2) s a cwd path true) as (last & s1 & -> & Hl & N1 & Q1); [lia|eapply ns_weaken; [|exact N]; lia|done|]. cbn [mbind res_bind].
  destruct (aresolve a cwd path true) as [ [d nm]|] eqn:E; cbn [dir_of].
  2: { exists s1. split; [done|]. split; [eapply ns_weaken; [|exact N1]; lia|done]. }
  destruct (aresolve_dir _ _ _ _ _ _ Hp E) as [Hd Hnm]. pose proof (ns_range _ _ _ _ N1 d Hd) as Hi. destruct (d =? 0) eqn:E0; [lia|]. rewrite (Hl d nm eq_refl). cbn [default from_option id].
  destruct (dsync_read_ok cpu k s1 a d junk Hk N1 Hi) as (s2 & -> & N2 & Q2 & _). cbn [mbind res_bind].
  destruct (dir_find_ok cpu k s2 a d nm N2 Hd Hnm) as (s3 & -> & N3 & Q3). cbn [mbind res_bind fst snd]. rewrite (found_answer cpu k s3 a) by done.
  exists s3. split; [done|]. split; [done|]. by do 2 (eapply quiet_trans; [done|]).
Qed.
