(* ===== verification/YfsNameOps.v ===== *)
(** * YulaFS: linking and unlinking names

    [dir_link], [dir_unlink_entry_only] and [dir_unlink] change the name space as
    inserting a name into a map and deleting it do. *)

From S2P Require Import Prelude Bdev YfsBitmap YfsWords Yfs YfsAlloc YfsOps YfsVolume YfsInode YfsForest YfsBlockMap YfsResolve YfsFile YfsBytes YfsFiles YfsTruncate YfsDcache YfsDir YfsEntry YfsNames YfsSpace YfsPath.

Definition set_names (d : Z) (m : gmap name Z) (a : nspace) : nspace := Space (kind a) (λ i, if decide (i = d) then m else names a i).
Definition set_kind (i v : Z) (a : nspace) : nspace := Space (λ j, if decide (j = i) then v else kind a j) (names a).

Definition alink (d : Z) (nm : name) (i : Z) (a : nspace) : nspace := set_names d (<[nm := i]> (names a d)) a.
Definition adrop (d : Z) (nm : name) (a : nspace) : nspace := set_names d (delete nm (names a d)) a.

Lemma names_set_eq d m a : names (set_names d m a) d = m.
Proof. cbn. by rewrite decide_True. Qed.

Lemma names_set_ne d m a i : i ≠ d → names (set_names d m a) i = names a i.
Proof. intros. cbn. by rewrite decide_False. Qed.

(** The directory [d] has new entries; nothing else changes. *)
Lemma ns_names cpu k0 k c s a x ch d m :
  ns_ok cpu k0 s a → kind a d = YFS_TYPE_DIR → stepped cpu k c (d_sys s) x (.= d) → (∀ i, is_ino (d_fs s) i → ino_used (fs x) i = ino_used (d_fs s) i) →
  dir_rep (fs x) (inode_of (fs x)) d m → (∀ nm i, m !! nm = Some i → 0 < i < total_inodes (sb (d_fs s))) → cache_rep ch (set_names d m a) →
  ns_ok cpu k (with_cache ch (with_sys x s)) (set_names d m a).
Proof.
  intros N Hd St Hu R Ht Hc. pose proof (ns_range _ _ _ _ N d Hd) as Hi.
  apply (ns_step cpu k0 k c s a x _ ch _ (set_names d m a) (.= d)); [done|done| | |apply N| |done].
  - intros i Hne. cbn. by rewrite decide_False.
  - intros i ->. split; [by rewrite (sp_total _ _ _ _ _ _ St)|]. cbn [kind set_names]. split; [by rewrite Hd, (dr_type _ _ _ _ R)|].
    split; [rewrite Hu by (unfold is_ino; lia); rewrite (ns_used _ _ _ _ N) by done; done|]. split; [by rewrite Hd|]. rewrite names_set_eq. done.
  - intros d' nm i. destruct (decide (d' = d)) as [->|Hne]; [rewrite names_set_eq; apply Ht|rewrite names_set_ne by done; apply N].
Qed.

(** ** Linking *)

Lemma cache_rep_link c a d nm i : cache_rep c a → name_ok nm → names a d !! nm = None → cache_rep (dcache_insert d nm i c) (alink d nm i a).
Proof.
  intros Hc Hn Hnone. apply cache_rep_insert; [|by rewrite (trunc_ok _ Hn); unfold alink; rewrite names_set_eq, lookup_insert_eq].
  intros d' nm' i' Hl. apply Hc in Hl. unfold alink. destruct (decide (d' = d)) as [->|Hne]; [|by rewrite names_set_ne]. rewrite names_set_eq, lookup_insert_ne; [done|congruence].
Qed.

Lemma dir_link_ok cpu k s a d child nm junk :
  0 ≤ k → ns_ok cpu (k + 4) s a → kind a d = YFS_TYPE_DIR → name_ok nm → names a d !! nm = None → 0 < child < total_inodes (sb (d_fs s)) → 4 ≤ global_free_blocks (d_fs s) →
  ∃ s', dir_link cpu d child nm junk s = Ok (0, s') ∧ ns_ok cpu k s' (alink d nm child a) ∧ open_refs (d_open s') = open_refs (d_open s) ∧
    global_free_blocks (d_fs s) - 4 ≤ global_free_blocks (d_fs s') ∧ total_inodes (sb (d_fs s')) = total_inodes (sb (d_fs s)).
Proof.
  intros Hk N Hd Hnm Hnone Hch Hfree. unfold dir_link. replace (k + 4) with (k + 2 + 2) in N by lia.
  destruct (dsync_read_ok cpu (k + 2) s a d junk ltac:(lia) N) as (s1 & -> & N1 & [Q1 Q2 Q3] & Ec); [by apply (ns_range _ _ _ _ N)|]. cbn [mbind res_bind].
  pose proof (ns_range _ _ _ _ N1 d Hd) as Hi. pose proof (ns_dir _ _ _ _ N1 d Hd) as R. pose proof (ns_inodes _ _ _ _ N1) as Hti.
  set (s2 := with_cache _ s1). change (d_fs s2) with (d_fs s1). destruct (kmalloc_cases (d_fs s1)) as (ok & -> & Hok). cbv iota beta. destruct ok; [|by destruct (ns_mem _ _ _ _ N1 (Hok eq_refl))]. cbn [negb].
  set (x1 := with_fs (with_mem (tl (mem (d_fs s1))) (d_fs s1)) (d_sys s1)). change (d_sys (with_yfs _ s2)) with x1. change (d_fs (with_yfs _ s2)) with (fs x1).
  assert (kept cpu (k + 2) (d_sys s1) x1) as K1 by (apply kept_mem; [apply N1|apply oom_tl]).
  assert (dir_rep (fs x1) (inode_of (fs x1)) d (names a d)) as R1.
  { eapply dir_untouched; [exact R|]. apply (untouched_kept cpu (k + 2)); [apply N1|done|unfold is_ino, d_fs in *; lia]. }
  pose proof (nblocks_bound _ _ _ _ (ss_files _ _ _ (kp_sys _ _ _ _ K1)) R1) as Hnb. pose proof (dr_size _ _ _ _ R1) as [_ Hnb0].
  destruct (link_loop_ok (S (S (Z.to_nat (total_blocks (sb (fs x1)))))) cpu k x1 d (names a d) 0 child nm) as (x2 & Hx2 & St & Hu & R2); try done.
  { apply K1. } { intros H. by apply (ns_mem _ _ _ _ N1), (kp_mem _ _ _ _ K1). } { apply N1. } { unfold is_u32. lia. } { lia. } { change (global_free_blocks (fs x1)) with (global_free_blocks (d_fs s1)). lia. } { lia. } { lia. }
  change (inode_of (d_fs s1) d) with (inode_of (fs x1) d). rewrite Hx2. cbn [mbind res_bind fst snd].
  assert (stepped cpu k 4 (d_sys s1) x2 (.= d)) as St2 by (eapply kept_stepped; [apply N1|exact K1|exact St]).
  exists (with_cache (dcache_insert d nm child (d_cache s1)) (with_sys x2 s1)). split; [done|]. split; [|split; [done|] ].
  - apply (ns_names cpu (k + 2) k 4 s1 a x2); [done|done|done|exact Hu|done| |apply cache_rep_link; [apply N1|done|done] ].
    intros nm' i. rewrite lookup_insert_Some. rewrite Q3. intros [ [_ <-]|[_ Hl] ]; [done|]. rewrite <-Q3. by apply (ns_target _ _ _ _ N1) in Hl.
  - change (d_fs (with_cache _ (with_sys x2 s1))) with (fs x2). pose proof (sp_free _ _ _ _ _ _ St2) as H1. pose proof (sp_total _ _ _ _ _ _ St2) as H2. unfold d_fs in *. split; [lia|congruence].
Qed.

(** ** Unlinking *)

Lemma cache_rep_drop c a d nm : cache_rep c a → name_ok nm → cache_rep (dcache_invalidate_entry d nm c) (adrop d nm a).
Proof.
  intros Hc Hn. apply (cache_rep_invalidate c a); [done|by destruct Hn as [_ [? _] ]; destruct nm; [cbn in *; lia|]|]. rewrite (trunc_ok _ Hn). intros d' nm' i Hne Hl. unfold adrop.
  destruct (decide (d' = d)) as [->|Hd]; [|by rewrite names_set_ne]. rewrite names_set_eq. apply lookup_delete_Some. split; [congruence|done].
Qed.

(** The slot of an entry is cleared. *)
Lemma entry_cleared cpu k s d m fb j v :
  sys_ok cpu k s → is_ino (fs s) d → dir_rep (fs s) (inode_of (fs s)) d m → 0 ≤ fb < nblocks (inode_of (fs s) d) → 0 ≤ j < 64 →
  ent_ino (fleaf (fs s) (inode_of (fs s)) d fb) j ≠ 0 → map_ok v → ent_ino v j = 0 →
  (∀ i, 0 ≤ i < 64 → i ≠ j → ent_ino v i = ent_ino (fleaf (fs s) (inode_of (fs s)) d fb) i ∧ ent_bytes v i = ent_bytes (fleaf (fs s) (inode_of (fs s)) d fb) i) →
  let s' := with_fs (bwrite (fblock (fs s) (inode_of (fs s)) d fb) v (fs s)) s in
  stepped cpu k 0 s s' (.= d) ∧ (∀ i, is_ino (fs s) i → ino_used (fs s') i = ino_used (fs s) i) ∧
  dir_rep (fs s') (inode_of (fs s')) d (delete (ent_name (fleaf (fs s) (inode_of (fs s)) d fb) j) m).
Proof.
  intros SS Hd R Hfb Hj Hused Hv E1 Hother s'. pose proof R as [R1 R2 [R3 R3'] R4 R5 R6]. assert (0 ≤ fb < 1048576) as Hfb' by lia.
  destruct (block_written cpu k s d fb v SS Hfb' (R4 fb Hfb) Hv Hd) as (St & Hu & En & Hl & Hlo & Hb). fold s' in St, Hu, En, Hl, Hlo, Hb.
  split; [done|]. split; [done|]. destruct (slot_write _ _ _ _ d fb j v Hl Hlo Hfb' Hj Hother) as [Hs1 Hs2]. destruct (slot_join fb j Hfb' Hj) as (Hk & Ek1 & Ek2).
  split; rewrite ?En; try done.
  - intros fb' Hf. apply Hb; [lia|by apply R4].
  - intros fb' Hf. rewrite Hlo by lia. by apply R5.
  - assert (slot (fs s) (inode_of (fs s)) d (64 * fb + j) = (ent_ino (fleaf (fs s) (inode_of (fs s)) d fb) j, ent_bytes (fleaf (fs s) (inode_of (fs s)) d fb) j)) as Es by (unfold slot; by rewrite Ek1, Ek2).
    pose proof (slots_clear _ (slot (fs s') (inode_of (fs s')) d) m (64 * fb + j) R6 Hk) as Hc. rewrite Es, Hs1 in Hc. by apply Hc.
Qed.

(** The common part of both ways to unlink: read the directory, drop the cached
    entry, find the name and clear its slot. *)
Lemma clear_name_ok cpu k s a d nm :
  ns_ok cpu k s a → kind a d = YFS_TYPE_DIR → name_ok nm →
  let n := inode_of (d_fs s) d in
  ∃ r y, dir_scan (Z.to_nat (dir_blocks n)) n 0 nm (d_fs s) = Ok (r, y) ∧
    match r with
    | Some f => names a d !! nm = Some (fd_ino f) ∧ ∃ v, clear_entry (fd_buf f) (fd_idx f) = Ok v ∧
        let s' := with_cache (dcache_invalidate_entry d nm (d_cache s)) (with_yfs (bwrite (fd_lba f) v y) s) in
        ns_ok cpu k s' (adrop d nm a) ∧ quiet s s'
    | None => names a d !! nm = None ∧
        let s' := with_cache (dcache_invalidate_entry d nm (d_cache s)) (with_yfs y s) in ns_ok cpu k s' a ∧ quiet s s'
    end.
Proof.
  intros N Hd Hnm n. destruct (dir_scan_all cpu k s a d nm N Hd Hnm) as (r & l & Hs & Hm & Hr). exists r, (with_mem l (d_fs s)). split; [exact Hs|]. clear Hs.
  pose proof (ns_range _ _ _ _ N d Hd) as Hi. assert (is_ino (d_fs s) d) as Hdi by (unfold is_ino; lia).
  destruct (ns_mem_step cpu k s a l (d_cache s) N Hm (ns_cache _ _ _ _ N)) as [N1 Q1]. set (s1 := with_cache (d_cache s) (with_yfs (with_mem l (d_fs s)) s)) in *. destruct r as [f|].
  - destruct Hr as (fb & Hfb & E1 & E2 & Hj & Hne & E3 & E4 & Hname). split; [done|]. rewrite E2 in *.
    assert (map_ok (fleaf (d_fs s) (inode_of (d_fs s)) d fb)) as Hok by (apply fleaf_ok; [apply N|apply small_fb; pose proof (dr_size _ _ _ _ (ns_dir _ _ _ _ N d Hd)) as [_ ?]; lia]).
    destruct (clear_entry_ok _ (fd_idx f) Hok Hj) as (v & Hv & Hvok & Ev & Hother). exists v. split; [done|].
    destruct (entry_cleared cpu k (d_sys s1) d (names a d) fb (fd_idx f) v) as (St & Hu & R); [apply N1|done|by apply (ns_dir _ _ _ _ N1)|done|done|rewrite <-E3 in Hne; exact Hne|done|done|exact Hother|].
    rewrite E1. cbv zeta. split.
    + apply (ns_names cpu k k 0 s1 a _ (dcache_invalidate_entry d nm (d_cache s)) d (delete nm (names a d)) N1 Hd St Hu).
      * rewrite <-E4. exact R.
      * intros nm' i [_ Hl]%lookup_delete_Some. by apply (ns_target _ _ _ _ N1) in Hl.
      * by apply cache_rep_drop; [apply N|].
    + split; [done| |].
      * pose proof (sp_free _ _ _ _ _ _ St) as H. rewrite Z.sub_0_r in H. exact H.
      * exact (sp_total _ _ _ _ _ _ St).
  - split; [done|]. apply (ns_mem_step cpu k s a l); [done|done|]. apply (cache_rep_invalidate _ a); [apply N|destruct Hnm as [_ [? _] ]; destruct nm; [cbn in *; lia|done]|done].
Qed.

(** The directory is read and a buffer taken. *)
Lemma unlink_start cpu k s a d junk :
  0 ≤ k → ns_ok cpu (k + 2) s a → kind a d = YFS_TYPE_DIR →
  ∃ s1 y, dsync cpu d junk false s = Ok (true, inode_of (d_fs s1) d, s1) ∧ kmalloc (d_fs s1) = (true, y) ∧
    ns_ok cpu k (with_yfs y s1) a ∧ quiet s (with_yfs y s1) ∧ inode_of y d = inode_of (d_fs s1) d.
Proof.
  intros Hk N Hd. destruct (dsync_read_ok cpu k s a d junk Hk N) as (s1 & Hs & N1 & Q1 & _); [by apply (ns_range _ _ _ _ N)|].
  destruct (kmalloc_cases (d_fs s1)) as (ok & Hm & Hok). destruct ok; [|by destruct (ns_mem _ _ _ _ N1 (Hok eq_refl))].
  destruct (ns_mem_step cpu k s1 a (tl (mem (d_fs s1))) (d_cache s1) N1) as [N2 Q2]; [apply oom_tl|apply N1|].
  exists s1, (with_mem (tl (mem (d_fs s1))) (d_fs s1)). split; [done|]. split; [done|]. split; [exact N2|]. split; [|done]. eapply quiet_trans; [exact Q1|exact Q2].
Qed.

Lemma unlink_entry_ok cpu k s a d nm junk :
  0 ≤ k → ns_ok cpu (k + 2) s a → kind a d = YFS_TYPE_DIR → name_ok nm →
  ∃ s', dir_unlink_entry_only cpu d nm junk s = Ok (match names a d !! nm with Some _ => 0 | None => -1 end, s') ∧
    ns_ok cpu k s' (adrop d nm a) ∧ quiet s s'.
Proof.
  intros Hk N Hd Hnm. unfold dir_unlink_entry_only. destruct (unlink_start cpu k s a d junk Hk N Hd) as (s1 & y & -> & Hm & N2 & Q2 & En). cbn [mbind res_bind].
  change (d_fs (with_cache _ s1)) with (d_fs s1). rewrite Hm. cbn [negb]. destruct (clear_name_ok cpu k (with_yfs y s1) a d nm N2 Hd Hnm) as (r & y' & Hs & Hr).
  change (d_fs (with_yfs y s1)) with y in Hs. rewrite En in Hs. change (d_fs (with_yfs y (with_cache _ s1))) with y. rewrite Hs. cbn [mbind res_bind fst snd]. destruct r as [f|].
  - destruct Hr as (Hname & v & -> & N3 & Q3). rewrite Hname. cbn [mbind res_bind]. eexists. split; [done|]. split; [exact N3|]. eapply quiet_trans; [exact Q2|exact Q3].
  - destruct Hr as (Hname & N3 & Q3). rewrite Hname. eexists. split; [done|]. split; [|eapply quiet_trans; [exact Q2|exact Q3] ].
    destruct N3 as [A1 A2 A3 A4 A5 A6 A7 A8 A9 A10 A11 A12 A13]. unfold adrop. rewrite delete_id by done.
    assert (∀ i, names (set_names d (names a d) a) i = names a i) as Hi by (intros i; cbn; case_decide; [by subst|done]).
    split; try done; [intros i Hk'; rewrite Hi; by apply A10|intros i Hk'; rewrite Hi; by apply A11|intros d' nm' i; rewrite Hi; apply A12|intros d' nm' i Hl; rewrite Hi; by apply A13].
Qed.

(** ** What becomes of the inode *)

(** The count of a file that is open. *)
Definition busy (refs : list Z) (i : Z) : bool :=
  negb (default 0 (if (i =? 0) || (zlen refs <=? i) then None else refs !! Z.to_nat i) =? 0).

Lemma count_free_le f f' lo n : (∀ j, lo ≤ j < lo + n → f' j = true → f j = true) → count_free f lo n ≤ count_free f' lo n.
Proof.
  intros H. unfold count_free. assert (∀ j, j ∈ seqZ lo n → f' j = true → f j = true) as Hl by (intros j Hj%elem_of_seqZ; by apply H). revert Hl.
  generalize (seqZ lo n) as l. induction l as [|j l IH]; intros Hl; [done|]. rewrite !filter_cons. specialize (Hl j ltac:(left)) as Hj.
  assert (∀ i, i ∈ l → f' i = true → f i = true) as Hl' by (intros i Hi; apply Hl; by right). specialize (IH Hl').
  destruct (f j), (f' j); repeat case_decide; cbn [length] in *; try done; try lia.
Qed.

(** A file that is gone leaves no fewer free blocks. *)
Lemma deleted_stepped cpu k s s' i : sys_ok cpu k s → deleted cpu k s s' i → stepped cpu k 0 s s' (.= i).
Proof.
  intros SS D. pose proof (de_blocks _ _ _ _ _ D) as [E1 E2]. pose proof (ss_files _ _ _ SS) as FO. split; [apply D|apply D|apply D|done| | |].
  - rewrite Z.sub_0_r. pose proof (f_blk _ (fl_fs _ _ FO)) as B. pose proof (f_blk _ (fl_fs _ _ (ss_files _ _ _ (de_sys _ _ _ _ _ D)))) as B'.
    rewrite (so_total _ _ _ _ _ B), (so_total _ _ _ _ _ B'). unfold nblk. rewrite E1, E2. apply count_free_le. intros j Hj Hu.
    destruct (de_live _ _ _ _ _ D (data_start (sb (fs s)) + j)) as [Hl _].
    assert (live (fs s') (data_start (sb (fs s)) + j)) as Hlj.
    { split; [unfold is_data; rewrite E1, E2; lia|]. unfold blk_used. rewrite E2. replace (data_start (sb (fs s)) + j - data_start (sb (fs s))) with j by lia. done. }
    destruct (Hl Hlj) as [ [_ Hb] _]. unfold blk_used in Hb. by replace (data_start (sb (fs s)) + j - data_start (sb (fs s))) with j in Hb by lia.
  - intros j Hj Hne. rewrite (de_ino _ _ _ _ _ D) by done. by rewrite bool_decide_false.
  - intros j Hj Hne. apply untouched_same; [done|apply D| |intros b; apply (de_disk _ _ _ _ _ D)]. rewrite (de_inode _ _ _ _ _ D) by done. by rewrite decide_False.
Qed.

(** A file whose last name is gone: deleted, or marked for the last close. *)
Definition arelease (refs : list Z) (i : Z) (a : nspace) : nspace := if busy refs i then a else set_kind i YFS_TYPE_FREE a.

Lemma set_flags_ok v n : is_u32 v → inode_ok n → inode_ok (set_flags v n).
Proof. intros Hv [Hw Hd Hp]. split; [|done|done]. unfold inode_words in *. cbn in *. rewrite !Forall_cons in *. tauto. Qed.

Lemma mark_ok cpu k s a i :
  0 ≤ k → ns_ok cpu (k + 2) s a → 0 < i < total_inodes (sb (d_fs s)) → kind a i ≠ YFS_TYPE_DIR →
  let n := inode_of (d_fs s) i in
  ∃ s', dsync cpu i (set_flags (Z.lor (i_flags n) YFS_INODE_F_DEFERRED_DELETE) n) true s = Ok (true, set_flags (Z.lor (i_flags n) YFS_INODE_F_DEFERRED_DELETE) n, s') ∧
    ns_ok cpu k s' a ∧ quiet s s'.
Proof.
  intros Hk N Hi Hdir n. pose proof (ns_sys _ _ _ _ N) as [CP FO]. assert (is_ino (d_fs s) i) as Hii by (unfold is_ino; lia). pose proof (fl_node _ _ FO i Hii) as Hok. fold (d_fs s) in FO, Hok.
  assert (is_u32 (Z.lor (i_flags n) YFS_INODE_F_DEFERRED_DELETE)) as Hfl.
  { pose proof (in_words _ Hok) as Hw. unfold inode_words in Hw. cbn in Hw. rewrite !Forall_cons in Hw. destruct Hw as (_ & _ & _ & Hf & _). fold n in Hf. unfold is_u32, YFS_INODE_F_DEFERRED_DELETE in *.
    split; [apply Z.lor_nonneg; lia|]. destruct (decide (i_flags n = 0)) as [->|Hne]; [done|]. change 4294967296 with (2 ^ 32). apply Z.log2_lt_pow2; [|rewrite Z.log2_lor by lia; change (Z.log2 1) with 0].
    - assert (0 ≤ Z.lor (i_flags n) 1) by (apply Z.lor_nonneg; lia). assert (Z.lor (i_flags n) 1 ≠ 0) by (intros H0; apply Z.lor_eq_0_iff in H0 as [? ?]; done). lia.
    - pose proof (Z.log2_nonneg (i_flags n)). assert (Z.log2 (i_flags n) < 32) by (apply Z.log2_lt_pow2; lia). lia. }
  assert (with_fs (d_fs s) (d_sys s) = d_sys s) as Ew by (unfold d_fs; by destruct (d_sys s)).
  destruct (sync_write_ok cpu k i (inode_of (d_fs s)) (set_flags (Z.lor (i_flags n) YFS_INODE_F_DEFERRED_DELETE) n) (d_sys s) (d_fs s)) as (x & Hx & SS & Sy & Hn & Ho & _); try done.
  { by rewrite Ew. } { apply N. } { by apply set_flags_ok. }
  unfold dsync. rewrite Ew in Hx. rewrite Hx. cbn [mbind res_bind fst snd]. exists (with_sys x s). split; [done|]. pose proof (sy_sb _ _ Sy) as E. pose proof (proj1 (sy_free _ _ Sy)) as Ef.
  assert (stepped cpu k 0 (d_sys s) x (.= i)) as St.
  { split; [done|apply Sy|by rewrite E|by rewrite E|rewrite Ef; unfold d_fs; lia|intros j Hj _; by apply (sy_ino _ _ Sy)|].
    intros j Hj Hne. apply untouched_same; [done|by rewrite E|by apply Ho|]. intros b Hd. apply (sy_disk _ _ Sy). unfold is_data, d_fs in *. lia. }
  split; [|split; [done|change (d_fs (with_sys x s)) with (fs x); lia|change (d_fs (with_sys x s)) with (fs x); by rewrite E] ].
  apply (ns_step cpu (k + 2) k 0 s a x _ _ _ a (.= i)); [done|done|done| |apply N|apply N|apply N].
  intros j ->. unfold rep_at. split; [by rewrite E|]. split; [rewrite Hn; by apply (ns_kind _ _ _ _ N)|]. split; [rewrite (sy_ino _ _ Sy) by done; by apply (ns_used _ _ _ _ N)|].
  split; [intros Hf sl; rewrite Hn; by apply (ns_free _ _ _ _ N)|]. split; [done|]. intros _. by apply (ns_nodir _ _ _ _ N).
Qed.

(** The inode of a name that is gone, when it is not a directory. *)
Lemma drop_child_ok cpu k s a i junk :
  0 ≤ k → ns_ok cpu (k + 4) s a → 0 < i < total_inodes (sb (d_fs s)) → kind a i ≠ YFS_TYPE_DIR →
  ∃ s', drop_child cpu i junk s = Ok s' ∧ ns_ok cpu k s' (arelease (open_refs (d_open s)) i a) ∧ quiet s s'.
Proof.
  intros Hk N Hi Hdir. unfold drop_child. replace (k + 4) with (k + 2 + 2) in N by lia.
  destruct (dsync_read_ok cpu (k + 2) s a i junk ltac:(lia) N Hi) as (s1 & -> & N1 & Q1 & _). cbn [mbind res_bind negb].
  assert (0 < i < total_inodes (sb (d_fs s1))) as Hi1 by (by rewrite (qu_total _ _ Q1)).
  assert ((default 0 (inode_rt i (d_open s1)) =? 0) = negb (busy (open_refs (d_open s)) i)) as Eb by (unfold busy, inode_rt; rewrite (qu_refs _ _ Q1), negb_involutive; done).
  rewrite Eb. unfold arelease. destruct (busy (open_refs (d_open s)) i); cbn [negb].
  - destruct (mark_ok cpu k s1 a i Hk N1 Hi1 Hdir) as (s2 & -> & N2 & Q2). cbn [mbind res_bind snd]. exists s2. split; [done|]. split; [done|by eapply quiet_trans].
  - destruct (finalize_ok cpu k i (d_sys s1) Hk (ns_sys _ _ _ _ N1) (ns_mem _ _ _ _ N1) Hi1) as (x & Hx & D). unfold d_fs. rewrite Hx. cbn [mbind res_bind snd].
    pose proof (deleted_stepped cpu k (d_sys s1) x i) as St. specialize (St ltac:(eapply sys_ok_weaken; [|apply N1]; lia) D).
    assert (is_ino (fs (d_sys s1)) i) as Hii by (unfold is_ino, d_fs in *; lia). destruct (clear_ok i) as [_ Hz]; [unfold is_u32; pose proof (ns_inodes _ _ _ _ N1); lia|].
    exists (with_sys x s1). split; [done|]. split.
    + apply (ns_step cpu (k + 2) k 0 s1 a x _ _ _ _ (.= i)); [done|done| | | | |].
      * intros j Hne. cbn. by rewrite decide_False.
      * intros j ->. unfold rep_at. cbn [kind set_kind names]. rewrite decide_True by done. split; [by rewrite (de_total _ _ _ _ _ D)|].
        rewrite (de_inode _ _ _ _ _ D), (de_ino _ _ _ _ _ D) by done. rewrite decide_True by done. split; [done|]. split; [by rewrite bool_decide_true|].
        split; [intros _; apply Hz|]. split; [done|]. intros _. by apply (ns_nodir _ _ _ _ N1).
      * cbn. case_decide as E; [subst i; by rewrite (ns_root _ _ _ _ N1) in Hdir|apply N1].
      * apply N1.
      * apply N1.
    + eapply quiet_trans; [exact Q1|]. split; [done| |exact (de_total _ _ _ _ _ D)]. pose proof (sp_free _ _ _ _ _ _ St) as H. change (d_fs (with_sys x s1)) with (fs x). unfold d_fs. lia.
Qed.

Lemma dir_unlink_ok cpu k s a d nm junk :
  0 ≤ k → ns_ok cpu (k + 6) s a → kind a d = YFS_TYPE_DIR → name_ok nm → (∀ i, names a d !! nm = Some i → kind a i ≠ YFS_TYPE_DIR) →
  ∃ s', dir_unlink cpu d nm junk s = Ok (match names a d !! nm with Some _ => 0 | None => -1 end, s') ∧
    ns_ok cpu k s' (match names a d !! nm with Some i => arelease (open_refs (d_open s)) i (adrop d nm a) | None => a end) ∧ quiet s s'.
Proof.
  intros Hk N Hd Hnm Hfile. unfold dir_unlink. replace (k + 6) with (k + 4 + 2) in N by lia.
  destruct (unlink_start cpu (k + 4) s a d junk ltac:(lia) N Hd) as (s1 & y & -> & Hm & N2 & Q2 & En). cbn [mbind res_bind].
  change (d_fs (with_cache _ s1)) with (d_fs s1). rewrite Hm. cbn [negb]. destruct (clear_name_ok cpu (k + 4) (with_yfs y s1) a d nm N2 Hd Hnm) as (r & y' & Hs & Hr).
  change (d_fs (with_yfs y s1)) with y in Hs. rewrite En in Hs. change (d_fs (with_yfs y (with_cache _ s1))) with y. rewrite Hs. cbn [mbind res_bind fst snd]. destruct r as [f|].
  - destruct Hr as (Hname & v & -> & N3 & Q3). rewrite Hname. cbn [mbind res_bind]. set (s3 := with_cache _ _) in N3, Q3.
    destruct (drop_child_ok cpu k s3 (adrop d nm a) (fd_ino f) junk Hk N3) as (s4 & Hs4 & N4 & Q4); [rewrite (qu_total _ _ Q3); by apply (ns_target _ _ _ _ N2) in Hname|by apply Hfile|].
    change (with_yfs (bwrite (fd_lba f) v y') (with_yfs y (with_cache (dcache_invalidate_entry d nm (d_cache s1)) s1))) with s3. rewrite Hs4. cbn [mbind res_bind].
    exists s4. split; [done|]. rewrite (qu_refs _ _ Q3), (qu_refs _ _ Q2) in N4. split; [exact N4|]. do 2 (eapply quiet_trans; [done|]). done.
  - destruct Hr as (Hname & N3 & Q3). rewrite Hname. eexists. split; [done|]. split; [eapply ns_weaken; [|exact N3]; lia|eapply quiet_trans; [exact Q2|exact Q3] ].
Qed.
