(* ===== verification/YfsCreate.v ===== *)
(** * YulaFS: creating files and directories

    [yulafs_create_obj] takes a free inode, makes an empty file or a directory
    with [.] and [..] of it and links it. *)

From S2P Require Import Prelude Bdev YfsBitmap YfsWords Yfs YfsAlloc YfsOps YfsVolume YfsInode YfsForest YfsBlockMap YfsResolve YfsFile YfsBytes YfsFiles YfsTruncate YfsDcache YfsDir YfsEntry YfsNames YfsSpace YfsPath YfsNameOps.

(** ** The object *)

Definition new_inode (r type size b : Z) : inode := Inode r type size 0 0 0 (b :: replicate 11 0) 0 0 0 (replicate 44 0).

(** The entries of a new directory. *)
Definition dots_map (r parent : Z) : gmap name Z := <[dotdot := parent]> (<[dot := r]> ∅).

Lemma new_inode_ok r type size b : is_u32 r → is_u32 type → is_u32 size → is_u32 b → inode_ok (new_inode r type size b).
Proof. intros. split; [repeat (constructor; [done|]); constructor|done|split; [done|by apply Forall_replicate] ]. Qed.

Lemma new_inode_ptr r type size b sl : slot_ptr (new_inode r type size b) sl = if decide (Z.to_nat sl = 0%nat) then b else 0.
Proof.
  unfold slot_ptr. cbn [i_direct new_inode i_indirect i_doubly_indirect i_triply_indirect]. change ((b :: replicate 11 0) ++ [0; 0; 0]) with (b :: replicate 14 0).
  destruct (Z.to_nat sl) as [|m]; [done|]. rewrite decide_False by done. change ((b :: replicate 14 0) !! S m) with (replicate 14 0 !! m). destruct (replicate 14 0 !! m) as [v|] eqn:E; [|done]. apply lookup_replicate in E as [-> _]. done.
Qed.

Lemma dot_ok : name_ok dot.
Proof. by apply (bool_decide_unpack _). Qed.

(** The block of a new directory. *)
Lemma dots_ok r parent sl :
  is_u32 r → r ≠ 0 → is_u32 parent → parent ≠ 0 →
  ∃ v, dots r parent = Ok v ∧ map_ok v ∧
    ((∀ k, 0 ≤ k < KMAX → sl k = if decide (k < 64) then (ent_ino v k, ent_bytes v k) else (0, ent_bytes (replicate 4096 0) (k `mod` 64))) → slots_rep sl (dots_map r parent)).
Proof.
  intros Hr Hr0 Hp Hp0. unfold dots.
  destruct (put_entry_ok (replicate 4096 0) 0 r dot) as (v1 & -> & M1 & A1 & A2 & A3 & A4); [apply map_ok_zeros|lia|done|apply dot_ok|]. cbn [mbind res_bind].
  destruct (put_entry_ok v1 1 parent dotdot) as (v2 & -> & M2 & B1 & B2 & B3 & B4); [done|lia|done|apply dotdot_ok|]. exists v2. split; [done|]. split; [done|]. intros Hsl.
  set (z k := (0, ent_bytes (replicate 4096 0) (k `mod` 64)) : Z * list Z).
  set (s1 k := if decide (k = 0) then (ent_ino v1 0, ent_bytes v1 0) else z k).
  assert (slots_rep z ∅) as S0 by (split; [done|done|intros nm i; rewrite lookup_empty; split; [done|intros (? & k & _ & ? & _); done] ]).
  assert (slots_rep s1 (<[dot := r]> ∅)) as S1.
  { apply (slots_put z s1 ∅ 0); [done|unfold KMAX; lia|done|done|done|done|done|done|]. intros k Hk Hne. unfold s1. by rewrite decide_False. }
  unfold dots_map. apply (slots_put s1 sl _ 1); [done|unfold KMAX; lia|done|by rewrite lookup_insert_ne, lookup_empty|done|..].
  - by rewrite Hsl, decide_True by (unfold KMAX; lia).
  - by rewrite Hsl, decide_True by (unfold KMAX; lia).
  - by rewrite Hsl, decide_True by (unfold KMAX; lia).
  - intros k Hk Hne. rewrite Hsl by done. unfold s1. destruct (decide (k < 64)).
    + destruct (B4 k) as [-> ->]; [lia|done|]. case_decide as E; [by subst|]. destruct (A4 k) as [-> ->]; [lia|done|]. unfold z. rewrite ent_zeros by lia. by rewrite Z.mod_small by lia.
    + by rewrite decide_False by lia.
Qed.

(** What [new_object] leaves: [y], with the inodes of the disk, becomes [y2]. *)
Record made (y : yfs) (r parent type : Z) (obj : inode) (y2 : yfs) : Prop := {
  md_files : files_ok y2 (upd_node (inode_of y) r obj);
  md_sb : sb y2 = sb y;
  md_mem : oom y2 → oom y;
  md_free : global_free_blocks y - 1 ≤ global_free_blocks y2;
  md_ino i : is_ino y i → ino_used y2 i = ino_used y i;
  md_disk b : b < data_start (sb y) → ¬ is_map y b → disk y2 !! b = disk y !! b;
  md_same i : i ≠ r → untouched y (inode_of y) y2 (upd_node (inode_of y) r obj) i;
  md_obj : inode_ok obj ∧ i_type obj = type;
  md_dir : type = YFS_TYPE_DIR → dir_rep y2 (upd_node (inode_of y) r obj) r (dots_map r parent);
}.

Lemma upd_node_ne nodes r n i : i ≠ r → upd_node nodes r n i = nodes i.
Proof. intros. unfold upd_node. by rewrite bool_decide_false. Qed.

Lemma upd_node_eq nodes r n : upd_node nodes r n r = n.
Proof. unfold upd_node. by rewrite bool_decide_true. Qed.

Lemma make_file y r parent :
  files_ok y (inode_of y) → 0 < r < total_inodes (sb y) → (∀ sl, slot_ptr (inode_of y r) sl = 0) →
  ∃ obj y2, new_object r parent YFS_TYPE_FILE y = Ok (obj, y2) ∧ made y r parent YFS_TYPE_FILE obj y2.
Proof.
  intros FO Hr Hz. exists (new_inode r YFS_TYPE_FILE 0 0), y. split; [done|]. pose proof (f_layout _ (fl_fs _ _ FO)) as [L1 L2 L3 L4 L5 L6 L7 L8 L9].
  assert (inode_ok (new_inode r YFS_TYPE_FILE 0 0)) as Hok by (apply new_inode_ok; unfold is_u32, YFS_TYPE_FILE; lia).
  assert (grown 0 y (inode_of y) y (upd_node (inode_of y) r (new_inode r YFS_TYPE_FILE 0 0))) as G.
  { apply grown_roots; [done| |by apply upd_node_ok; [apply FO|] ]. intros [i sl]. unfold roots; cbn. destruct (decide (i = r)) as [->|Hne]; [|by rewrite upd_node_ne].
    rewrite upd_node_eq, Hz, new_inode_ptr. by case_decide. }
  split; [apply G|done|done|lia|done|done| |by split|done]. intros i Hne. eapply untouched_grown; [exact G|by apply upd_node_ne].
Qed.

Lemma make_dir y r parent :
  files_ok y (inode_of y) → ¬ oom y → 0 < r < total_inodes (sb y) → 0 < parent < total_inodes (sb y) → (∀ sl, slot_ptr (inode_of y r) sl = 0) → 1 ≤ global_free_blocks y →
  ∃ obj y2, new_object r parent YFS_TYPE_DIR y = Ok (obj, y2) ∧ made y r parent YFS_TYPE_DIR obj y2.
Proof.
  intros FO Ho Hr Hp Hz Hfree. pose proof (fl_fs _ _ FO) as F. pose proof (f_layout _ F) as [L1 L2 L3 L4 L5 L6 L7 L8 L9]. assert (is_ino y r) as Hri by (unfold is_ino; lia).
  unfold new_object. cbn [Z.eqb YFS_TYPE_DIR Pos.eqb]. destruct (alloc_block_ok y r F) as (b & y1 & -> & [Tk|(_ & _ & [?|?])]); [lia| |lia|done]. cbn [mbind res_bind fst snd].
  assert (¬ oom y1) as Ho1 by (intros H; by apply Ho, (bt_mem _ _ _ Tk)). destruct (kmalloc_cases y1) as (ok & -> & Hok). cbv iota beta. destruct ok; [|by destruct (Ho1 (Hok eq_refl))].
  fold (new_inode r YFS_TYPE_DIR YFS_BLOCK_SIZE b). set (obj := new_inode r YFS_TYPE_DIR YFS_BLOCK_SIZE b). set (nodes := upd_node (inode_of y) r obj).
  assert (inode_ok obj) as Hobj by (apply new_inode_ok; unfold is_u32, YFS_TYPE_DIR, YFS_BLOCK_SIZE; pose proof (bt_data _ _ _ Tk) as Hd; unfold is_data in Hd; lia).
  destruct (grow_root y (inode_of y) b y1 nodes (r, 0) FO Ho Tk) as [G Hw].
  { rewrite roots_at by lia. apply Hz. }
  { rewrite roots_at by lia. unfold nodes. rewrite upd_node_eq. unfold obj. by rewrite new_inode_ptr. }
  { intros [i sl] Hne. unfold roots; cbn. unfold nodes. destruct (decide (i = r)) as [->|Hi]; [|by rewrite upd_node_ne]. rewrite upd_node_eq, Hz. unfold obj. rewrite new_inode_ptr.
    destruct ((0 <=? r) && (r <? total_inodes (sb y)) && (0 <=? sl) && (sl <? 15)) eqn:E; [|done]. rewrite decide_False; [done|]. intros E0. apply Hne. f_equal. lia. }
  { by apply upd_node_ok; [apply FO|]. }
  pose proof (gr_sb _ _ _ _ _ G) as Esb. set (y1m := with_mem (tl (mem y1)) y1). pose proof (files_ok_mem y1 nodes (tl (mem y1)) (gr_files _ _ _ _ _ G)) as FO1. fold y1m in FO1.
  pose proof (taken_facts y b y1 F Ho Tk) as (Hb0 & _ & Hbz & _). assert (fblock y1m nodes r 0 = b) as Eb by exact Hw.
  assert (0 < parent < 4294967296 ∧ 0 < r < 4294967296) as [Hp' Hr'] by lia.
  destruct (dots_ok r parent (slot (bwrite b (match dots r parent with Ok v => v | _ => [] end) y1m) nodes r)) as (v & Hv & Hvok & Hsl); [unfold is_u32; lia..|]. rewrite Hv in Hsl |- *. cbn [mbind res_bind].
  pose proof (write_leaf_ok y1m nodes r 0 v FO1 ltac:(lia) ltac:(by rewrite Eb) Hvok) as W. rewrite Eb in W. set (y2 := bwrite b v y1m) in *. pose proof (lw_eq _ _ _ _ _ _ W) as E. rewrite Eb in E.
  exists obj, y2. split; [done|]. fold nodes in Hsl. assert (is_data y b) as Hbd by apply Tk. unfold is_data in Hbd.
  assert (∀ fb, 0 ≤ fb < 1048576 → fb ≠ 0 → fleaf y2 nodes r fb = replicate 4096 0) as Hrest.
  { intros fb Hfb Hne. rewrite (lw_other _ _ _ _ _ _ W) by done. destruct (path_valid fb r (small_fb fb Hfb)) as (Hs & Hpv & Hpl). change (fleaf y1m nodes r fb) with (fleaf y1 nodes r fb). unfold fleaf.
    rewrite (gr_leaf _ _ _ _ _ G) by done. unfold leaf. cbv zeta. rewrite walk_null; [done|]. unfold fwalk, walk. cbn [foldl]. rewrite roots_at by done. apply Hz. }
  split; [apply (lw_files _ _ _ _ _ _ W)|by rewrite E|intros H; apply (gr_mem _ _ _ _ _ G), (oom_tl y1); by rewrite E in H|rewrite E; apply (gr_free _ _ _ _ _ G)| | | |by split|].
  - intros i Hi. rewrite (lw_ino _ _ _ _ _ _ W) by (unfold is_ino in *; by rewrite <-Esb in Hi). by apply (gr_ino _ _ _ _ _ G).
  - intros c Hc Hm. rewrite E. cbn [disk with_disk]. rewrite lookup_insert_ne by lia. by apply (gr_disk _ _ _ _ _ G).
  - intros i Hne. eapply untouched_trans; [eapply untouched_grown; [exact G|by apply upd_node_ne]|]. eapply untouched_trans; [|by apply (lw_untouched _ _ _ _ _ _ W)]. by split.
  - intros _. assert (nodes r = obj) as En by apply upd_node_eq. fold nodes. split; rewrite ?En; [done|done|change (nblocks obj) with 1; change (i_size obj) with 4096; lia|..].
    + intros fb Hfb. change (nblocks obj) with 1 in Hfb. assert (fb = 0) as -> by lia. rewrite (lw_block _ _ _ _ _ _ W) by lia. by rewrite Eb.
    + intros fb Hfb. change (nblocks obj) with 1 in Hfb. apply Hrest; lia.
    + apply Hsl. intros k Hk. destruct (slot_split k Hk) as (Hkb & Hkj & Ek). unfold slot. destruct (decide (k < 64)).
      * assert (k / 64 = 0 ∧ k `mod` 64 = k) as [-> ->] by (Z.to_euclidean_division_equations; lia). by rewrite (lw_leaf _ _ _ _ _ _ W).
      * rewrite Hrest by lia. by rewrite ent_zeros by lia.
Qed.

Lemma make_object y r parent type :
  files_ok y (inode_of y) → ¬ oom y → 0 < r < total_inodes (sb y) → 0 < parent < total_inodes (sb y) → (∀ sl, slot_ptr (inode_of y r) sl = 0) → 1 ≤ global_free_blocks y →
  type = YFS_TYPE_FILE ∨ type = YFS_TYPE_DIR →
  ∃ obj y2, new_object r parent type y = Ok (obj, y2) ∧ made y r parent type obj y2.
Proof. intros FO Ho Hr Hp Hz Hf [-> | ->]; [by apply make_file|by apply make_dir]. Qed.

(** ** The inode *)

(** The name space with the new object, not yet linked. *)
Definition anew (r type parent : Z) (a : nspace) : nspace :=
  set_kind r type (set_names r (if decide (type = YFS_TYPE_DIR) then dots_map r parent else ∅) a).

Lemma free_inode_exists y i : fs_ok y → is_ino y i → ino_used y i = false → global_free_inodes y ≠ 0.
Proof.
  intros F Hi Hu. rewrite (so_total _ _ _ _ _ (f_ino _ F)). unfold count_free. intros E. assert (filter (λ j, used (map_inode_start (sb y)) (disk y) j = false) (seqZ 0 (total_inodes (sb y))) = []) as El
    by (destruct (filter _ _); [done|cbn in E; lia]). assert (i ∈ filter (λ j, used (map_inode_start (sb y)) (disk y) j = false) (seqZ 0 (total_inodes (sb y)))) as Hin
    by (apply list_elem_of_filter; split; [exact Hu|apply elem_of_seqZ; unfold is_ino in Hi; lia]). rewrite El in Hin. by apply not_elem_of_nil in Hin.
Qed.

Lemma inode_taken_ok cpu k s a d :
  ns_ok cpu k s a → 0 ≤ d → (∃ i, 0 < i < total_inodes (sb (d_fs s)) ∧ kind a i = YFS_TYPE_FREE) →
  ∃ r y1, alloc_inode_for_parent d (d_fs s) = Ok (r, y1) ∧ inode_taken (d_fs s) r y1 ∧ 0 < r < total_inodes (sb (d_fs s)) ∧ kind a r = YFS_TYPE_FREE.
Proof.
  intros N Hd (i & Hi & Hk). pose proof (fl_fs _ _ (ss_files _ _ _ (ns_sys _ _ _ _ N))) as F. destruct (alloc_inode_ok (d_fs s) d F Hd) as (r & y1 & Ha & [Tk|(_ & _ & [E|?])]); [| |by destruct (ns_mem _ _ _ _ N)].
  - pose proof (taken_nonzero _ _ _ F Tk) as Hr0. pose proof (it_ino _ _ _ Tk) as Hr. unfold is_ino in Hr. assert (0 < r < total_inodes (sb (d_fs s))) as Hr' by lia.
    exists r, y1. split; [done|]. split; [done|]. split; [done|]. pose proof (it_was _ _ _ Tk) as Hw. rewrite (ns_used _ _ _ _ N r Hr') in Hw. apply bool_decide_eq_false in Hw. destruct (decide (kind a r = YFS_TYPE_FREE)); [done|by destruct Hw].
  - exfalso. apply (free_inode_exists (d_fs s) i F); [unfold is_ino; lia| |done]. rewrite (ns_used _ _ _ _ N i Hi). apply bool_decide_eq_false. intros H. by apply H.
Qed.

Lemma cache_rep_new c a r type parent : cache_rep c a → names a r = ∅ → cache_rep c (anew r type parent a).
Proof.
  intros Hc Hr d nm i Hl. apply Hc in Hl. cbn. destruct (decide (d = r)) as [->|]; [|done]. by rewrite Hr, lookup_empty in Hl.
Qed.

Lemma object_ok cpu k s a d type :
  0 ≤ k → ns_ok cpu (k + 2) s a → kind a d = YFS_TYPE_DIR → type = YFS_TYPE_FILE ∨ type = YFS_TYPE_DIR →
  (∃ i, 0 < i < total_inodes (sb (d_fs s)) ∧ kind a i = YFS_TYPE_FREE) → 1 ≤ global_free_blocks (d_fs s) →
  ∃ r y1 obj y2 x, alloc_inode_for_parent d (d_fs s) = Ok (r, y1) ∧ 0 < r < total_inodes (sb (d_fs s)) ∧ kind a r = YFS_TYPE_FREE ∧
    new_object r d type y1 = Ok (obj, y2) ∧ sync_inode cpu r obj true (with_fs y2 (d_sys s)) = Ok (true, obj, x) ∧
    ns_ok cpu k (with_sys x s) (anew r type d a) ∧ total_inodes (sb (fs x)) = total_inodes (sb (d_fs s)) ∧ global_free_blocks (d_fs s) - 1 ≤ global_free_blocks (fs x).
Proof.
  intros Hk N Hd Hty Hex Hfree. pose proof (ns_range _ _ _ _ N d Hd) as Hdr. destruct (inode_taken_ok cpu (k + 2) s a d N) as (r & y1 & Ha & Tk & Hr & Hkr); [lia|done|].
  pose proof (ns_sys _ _ _ _ N) as SS. pose proof SS as [CP FO]. pose proof (fl_fs _ _ FO) as F. pose proof (f_layout _ F) as [L1 L2 L3 L4 L5 L6 L7 L8 L9]. fold (d_fs s) in FO, F, L1, L2, L3, L4, L5, L6, L7, L8, L9.
  pose proof (it_moved _ _ _ Tk) as M. destruct (sys_moved cpu (k + 2) (d_sys s) y1 _ SS M) as ([_ FO1] & Hin1 & _ & _). cbn [fs with_fs] in FO1. pose proof (mv_sb _ _ _ _ M) as E1. fold (d_fs s) in Hin1.
  assert (is_ino (d_fs s) r) as Hri by (unfold is_ino; lia). assert (∀ i, is_ino (d_fs s) i ↔ is_ino y1 i) as Hii by (intros i; unfold is_ino; by rewrite E1).
  assert (global_free_blocks y1 = global_free_blocks (d_fs s)) as Ef.
  { rewrite (so_total _ _ _ _ _ (f_blk _ F)), (so_total _ _ _ _ _ (f_blk _ (mv_ok _ _ _ _ M))). unfold nblk. rewrite E1. apply count_free_ext. intros j Hj.
    pose proof (mv_blk _ _ _ _ M (data_start (sb (d_fs s)) + j)) as Hb. unfold blk_used, is_data in Hb. rewrite E1 in Hb. replace (data_start (sb (d_fs s)) + j - data_start (sb (d_fs s))) with j in Hb by lia. apply Hb. lia. }
  destruct (make_object y1 r d type FO1) as (obj & y2 & Hobj & MD); [intros H; by apply (ns_mem _ _ _ _ N), (mv_mem _ _ _ _ M)|by rewrite E1|by rewrite E1|intros sl; rewrite Hin1 by done; by apply (ns_free _ _ _ _ N)|lia|done|].
  pose proof (md_sb _ _ _ _ _ _ MD) as E2. set (nodes2 := upd_node (inode_of y1) r obj) in *.
  assert (∀ b, inode_table_start (sb (d_fs s)) ≤ b < data_start (sb (d_fs s)) → disk y2 !! b = disk (d_fs s) !! b) as Htab.
  { intros b Hb. rewrite (md_disk _ _ _ _ _ _ MD), (mv_disk _ _ _ _ M); [done| |rewrite E1; lia|]; unfold is_map; rewrite ?E1; lia. }
  assert (∀ i, is_ino (d_fs s) i → inode_of y2 i = inode_of y1 i) as Hin2.
  { intros i Hi. rewrite Hin1 by done. destruct (inode_index (sb (d_fs s)) i Hi) as (I1 & I2 & I3); [apply CP|]. unfold inode_of. rewrite E2, E1, Htab; [done|lia]. }
  destruct (sync_write_ok cpu k r nodes2 obj (d_sys s) y2) as (x & Hx & SSx & Sy & Hn & Hothers & _); [done| |apply MD| | | |apply MD|by unfold nodes2; intros sl; rewrite upd_node_eq|].
  { apply cpu_ok_frame; [done|apply MD|by rewrite E2, E1..|]. intros b Hb. rewrite E2, E1 in Hb. by apply Htab. }
  { intros H. by apply (ns_mem _ _ _ _ N), (mv_mem _ _ _ _ M), (md_mem _ _ _ _ _ _ MD). } { by rewrite E2, E1. }
  { intros i Hi Hne. unfold nodes2. rewrite upd_node_ne by done. apply Hin2. unfold is_ino in *. by rewrite <-E1, <-E2. }
  pose proof (sy_sb _ _ Sy) as E3. assert (total_inodes (sb (fs x)) = total_inodes (sb (d_fs s))) as Et by (by rewrite E3, E2, E1).
  assert (∀ i, is_ino (d_fs s) i → is_ino y2 i) as Hii2 by (intros i; unfold is_ino; by rewrite E2, E1).
  assert (∀ i, is_ino (d_fs s) i → ino_used (fs x) i = bool_decide (i = r) || ino_used (d_fs s) i) as Hu.
  { intros i Hi. rewrite (sy_ino _ _ Sy), (md_ino _ _ _ _ _ _ MD), (mv_ino _ _ _ _ M) by (done || by apply Hii || auto). done. }
  assert (data_same y2 (fs x)) as Hds by (intros b Hb; apply (sy_disk _ _ Sy); unfold is_data in Hb; lia).
  assert (stepped cpu k 1 (d_sys s) x (.= r)) as St.
  { split; [done|intros H; by apply (mv_mem _ _ _ _ M), (md_mem _ _ _ _ _ _ MD), (sy_mem _ _ Sy)|done|by rewrite E3, E2, E1| | |].
    - rewrite (proj1 (sy_free _ _ Sy)). pose proof (md_free _ _ _ _ _ _ MD). unfold d_fs in Ef. lia.
    - intros i Hi Hne. rewrite Hu by done. by rewrite bool_decide_false.
    - intros i Hi Hne. fold (d_fs s) in Hi |- *. eapply untouched_trans; [apply (untouched_same _ _ y1 (inode_of y1)); [done|by rewrite E1|by apply Hin1|]|].
      + intros b Hb. apply (mv_disk _ _ _ _ M). by apply is_data_not_map.
      + eapply untouched_trans; [by apply (md_same _ _ _ _ _ _ MD)|]. apply untouched_same; [apply MD|by rewrite E3|apply Hothers; [by apply Hii2|done]|done]. }
  exists r, y1, obj, y2, x. split; [done|]. split; [done|]. split; [done|]. split; [done|]. split; [done|]. split; [|split; [done|pose proof (sp_free _ _ _ _ _ _ St) as H; unfold d_fs; lia] ].
  destruct (md_obj _ _ _ _ _ _ MD) as [_ Hot].
  apply (ns_step cpu (k + 2) k 1 s a x _ _ _ (anew r type d a) (.= r)); [done|done| | | | |apply cache_rep_new; [apply N|apply (ns_nodir _ _ _ _ N); by rewrite Hkr] ].
  - intros i Hne. cbn. by rewrite !decide_False.
  - intros i ->. unfold rep_at. cbn [kind names anew set_kind set_names]. rewrite !(decide_True (P := r = r)) by done. split; [by rewrite Et|]. split; [by rewrite Hn|].
    split; [rewrite Hu by done; rewrite !bool_decide_true by (done || by destruct Hty as [-> | ->]); done|]. split; [by destruct Hty as [-> | ->]|]. split; [|intros Hne; by rewrite decide_False].
    intros Ety. rewrite decide_True by done. eapply dir_untouched; [apply (md_dir _ _ _ _ _ _ MD Ety)|]. apply untouched_same; [apply MD|by rewrite E3|rewrite Hn; unfold nodes2; by rewrite upd_node_eq|done].
  - cbn. rewrite decide_False; [apply N|]. intros <-. by rewrite (ns_root _ _ _ _ N) in Hkr.
  - intros d' nm i. cbn. destruct (decide (d' = r)) as [->|]; [|apply N]. case_decide; [|by rewrite lookup_empty]. unfold dots_map. rewrite !lookup_insert_Some, lookup_empty. intros [ [_ <-]|[_ [ [_ <-]|[_ ?] ] ] ]; done.
Qed.
