(* ===== verification/YfsCalls.v ===== *)
(** * YulaFS: the calls on names

    [lookup], [create], [mkdir], [unlink] and [rename] refine operations on the
    name space. *)

From S2P Require Import Prelude Bdev YfsBitmap YfsWords Yfs YfsAlloc YfsOps YfsVolume YfsInode YfsForest YfsBlockMap YfsResolve YfsFile YfsBytes YfsFiles YfsTruncate YfsDcache YfsDir YfsEntry YfsNames YfsSpace YfsPath YfsNameOps YfsCreate.

Lemma flush_stepped cpu k s : sys_ok cpu k s → stepped cpu k 0 s (with_fs (flush_sb (fs s)) s) (λ _, False).
Proof.
  intros SS. destruct (sys_flush cpu k s SS) as (SS' & Hin & _ & _). pose proof (ss_files _ _ _ SS) as FO. pose proof (fl_fs _ _ FO) as F. pose proof (f_layout _ F) as [L1 L2 L3 L4 L5 L6 L7 L8 L9].
  destruct (flush_facts (fs s) F) as (_ & (v & E) & _). split; [done|cbn; by rewrite E|cbn; by rewrite E|cbn; by rewrite E|cbn; rewrite E; cbn; lia|intros i Hi _; by apply ino_used_flush|].
  intros i Hi _. apply untouched_same; [done|cbn; by rewrite E|by apply Hin|]. intros b Hb. unfold is_data in Hb. cbn. rewrite E. cbn. apply lookup_insert_ne. lia.
Qed.

Lemma flush_ok cpu k s a : ns_ok cpu k s a → ns_ok cpu k (with_yfs (flush_sb (d_fs s)) s) a ∧ quiet s (with_yfs (flush_sb (d_fs s)) s).
Proof.
  intros N. pose proof (flush_stepped cpu k (d_sys s) (ns_sys _ _ _ _ N)) as St. split.
  - apply (ns_quiet cpu k k 0 s a (with_fs (flush_sb (d_fs s)) (d_sys s)) (d_cache s)); [done|exact St|apply N].
  - split; [done| |exact (sp_total _ _ _ _ _ _ St)]. pose proof (sp_free _ _ _ _ _ _ St) as H. rewrite Z.sub_0_r in H. exact H.
Qed.

(** ** [create] and [mkdir] *)

(** A free inode is taken and linked; which one is not said. *)
Definition acreate (a : nspace) (cwd : Z) (path : list Z) (type r : Z) (a' : nspace) : Prop :=
  match aresolve a cwd path false with
  | None => r = -1 ∧ a' = a
  | Some (d, nm) =>
      match names a d !! nm with
      | Some _ => r = -1 ∧ a' = a
      | None => 0 < r ∧ kind a r = YFS_TYPE_FREE ∧ a' = alink d nm r (anew r type d a)
      end
  end.

(** [path] up to its last component, with one inode read. *)
Lemma parent_ok cpu k s a cwd path junk :
  0 ≤ k → ns_ok cpu (k + 2 * Z.of_nat (length path) + 2) s a → path_ok a cwd path →
  ∃ last s1, path_to_inode_for_modify cpu cwd path s = Ok (dir_of (aresolve a cwd path false), last, s1) ∧ ns_ok cpu (k + 2) s1 a ∧ quiet s s1 ∧
    match aresolve a cwd path false with
    | None => True
    | Some (d, nm) => last = Some nm ∧ kind a d = YFS_TYPE_DIR ∧ name_ok nm ∧ d ≠ 0 ∧
        ∃ s2 s3, dsync cpu d junk false s1 = Ok (true, inode_of (d_fs s2) d, s2) ∧ dir_find (inode_of (d_fs s2) d) nm s2 = Ok (default 0 (names a d !! nm), s3) ∧
          ns_ok cpu k s3 a ∧ quiet s s3
    end.
Proof.
  intros Hk N Hp. unfold path_to_inode_for_modify. destruct (path_to_inode_ok cpu (k + 2) s a cwd path false) as (last & s1 & -> & Hl & N1 & Q1); [lia|eapply ns_weaken; [|exact N]; lia|done|].
  exists last, s1. split; [done|]. split; [done|]. split; [done|]. destruct (aresolve a cwd path false) as [ [d nm]|] eqn:E; [|done].
  destruct (aresolve_dir _ _ _ _ _ _ Hp E) as [Hd Hnm]. pose proof (ns_range _ _ _ _ N1 d Hd) as Hi. split; [by apply (Hl d)|]. split; [done|]. split; [done|]. split; [lia|].
  destruct (dsync_read_ok cpu k s1 a d junk Hk N1 Hi) as (s2 & Hs2 & N2 & Q2 & _). destruct (dir_find_ok cpu k s2 a d nm N2 Hd Hnm) as (s3 & Hs3 & N3 & Q3).
  exists s2, s3. split; [done|]. split; [done|]. split; [done|]. by do 2 (eapply quiet_trans; [done|]).
Qed.

Lemma create_obj_ok cpu k s a cwd path type junk :
  0 ≤ k → ns_ok cpu (k + 2 * Z.of_nat (length path) + 8) s a → path_ok a cwd path → type = YFS_TYPE_FILE ∨ type = YFS_TYPE_DIR →
  (∃ i, 0 < i < total_inodes (sb (d_fs s)) ∧ kind a i = YFS_TYPE_FREE) → 5 ≤ global_free_blocks (d_fs s) →
  ∃ r s' a', yulafs_create_obj cpu cwd path type junk s = Ok (r, s') ∧ acreate a cwd path type r a' ∧ ns_ok cpu k s' a' ∧
    open_refs (d_open s') = open_refs (d_open s) ∧ total_inodes (sb (d_fs s')) = total_inodes (sb (d_fs s)) ∧ global_free_blocks (d_fs s) - 5 ≤ global_free_blocks (d_fs s').
Proof.
  intros Hk N Hp Hty Hex Hfree. unfold yulafs_create_obj, acreate.
  destruct (parent_ok cpu (k + 6) s a cwd path junk) as (last & s1 & -> & N1 & [Q1 Q2 Q3] & Hr); [lia|eapply ns_weaken; [|exact N]; lia|done|]. cbn [mbind res_bind].
  destruct (aresolve a cwd path false) as [ [d nm]|]; cbn [dir_of].
  2: { exists (-1), s1, a. split; [done|]. split; [done|]. split; [eapply ns_weaken; [|exact N1]; lia|]. split; [done|]. split; [done|lia]. }
  destruct Hr as (-> & Hd & Hnm & Hd0 & s2 & s3 & Hs2 & Hs3 & N3 & [P1 P2 P3]). destruct (d =? 0) eqn:E0; [lia|]. rewrite Hs2. cbn [mbind res_bind default from_option id]. rewrite Hs3. cbn [mbind res_bind fst snd].
  destruct (names a d !! nm) as [i|] eqn:En; cbn [default from_option id].
  { pose proof (ns_target _ _ _ _ N3 d nm i En) as Hi. destruct (i =? 0) eqn:Ei; [lia|]. cbn [negb]. exists (-1), s3, a. split; [done|]. split; [done|]. split; [eapply ns_weaken; [|exact N3]; lia|]. split; [done|]. split; [done|lia]. }
  cbn [negb Z.eqb]. replace (k + 6) with (k + 4 + 2) in N3 by lia.
  destruct (object_ok cpu (k + 4) s3 a d type) as (r & y1 & obj & y2 & x & -> & Hr & Hkr & Hobj & Hx & N4 & Et & Ef); [lia|done|done|done|by rewrite P3|lia|]. cbn [mbind res_bind fst snd].
  destruct (r =? 0) eqn:Er; [lia|]. change (d_fs (with_yfs y1 s3)) with y1. rewrite Hobj. cbn [mbind res_bind fst snd]. unfold dsync at 1.
  change (d_sys (with_yfs y2 (with_yfs y1 s3))) with (with_fs y2 (d_sys s3)). rewrite Hx. cbn [mbind res_bind fst snd]. change (with_sys x (with_yfs y2 (with_yfs y1 s3))) with (with_sys x s3).
  assert (d ≠ r) as Hdr by (intros ->; by rewrite Hd in Hkr). set (a1 := anew r type d a) in *.
  assert (names a1 d = names a d) as En1 by (unfold a1; cbn; by rewrite decide_False). assert (kind a1 d = YFS_TYPE_DIR) as Hd1 by (unfold a1; cbn; by rewrite decide_False).
  destruct (dir_link_ok cpu k (with_sys x s3) a1 d r nm junk Hk N4 Hd1 Hnm) as (s5 & -> & N5 & R1 & R2 & R3); [by rewrite En1|change (d_fs (with_sys x s3)) with (fs x); by rewrite Et|change (d_fs (with_sys x s3)) with (fs x); lia|].
  cbn [mbind res_bind fst snd]. destruct (flush_ok cpu k s5 _ N5) as [N6 [Q6 Q6' Q6''] ]. change (d_fs (with_sys x s3)) with (fs x) in R2, R3.
  exists r, (with_yfs (flush_sb (d_fs s5)) s5), (alink d nm r a1). pose proof (ns_inodes _ _ _ _ N3). split; [by rewrite s32_small by lia|].
  split; [split; [lia|done]|]. split; [done|]. split; [by rewrite Q6, R1|]. split; [congruence|lia].
Qed.

(** ** [unlink] *)

Definition aunlink (refs : list Z) (a : nspace) (cwd : Z) (path : list Z) : Z * nspace :=
  match aresolve a cwd path false with
  | None => (-1, a)
  | Some (d, nm) => match names a d !! nm with Some i => (0, arelease refs i (adrop d nm a)) | None => (-1, a) end
  end.

(** What is unlinked is not a directory. *)
Definition names_file (a : nspace) (cwd : Z) (path : list Z) : Prop :=
  ∀ d nm i, aresolve a cwd path false = Some (d, nm) → names a d !! nm = Some i → kind a i ≠ YFS_TYPE_DIR.

Lemma unlink_ok cpu k s a cwd path junk :
  0 ≤ k → ns_ok cpu (k + 2 * Z.of_nat (length path) + 6) s a → path_ok a cwd path → names_file a cwd path →
  ∃ s', yulafs_unlink cpu cwd path junk s = Ok ((aunlink (open_refs (d_open s)) a cwd path).1, s') ∧
    ns_ok cpu k s' (aunlink (open_refs (d_open s)) a cwd path).2 ∧ quiet s s'.
Proof.
  intros Hk N Hp Hf. unfold yulafs_unlink, aunlink, path_to_inode_for_modify.
  destruct (path_to_inode_ok cpu (k + 6) s a cwd path false) as (last & s1 & -> & Hl & N1 & Q1); [lia|eapply ns_weaken; [|exact N]; lia|done|]. cbn [mbind res_bind].
  destruct (aresolve a cwd path false) as [ [d nm]|] eqn:E; cbn [dir_of fst snd].
  2: { exists s1. split; [done|]. split; [eapply ns_weaken; [|exact N1]; lia|done]. }
  destruct (aresolve_dir _ _ _ _ _ _ Hp E) as [Hd Hnm]. pose proof (ns_range _ _ _ _ N1 d Hd) as Hi. destruct (d =? 0) eqn:E0; [lia|]. rewrite (Hl d nm eq_refl). cbn [default from_option id].
  destruct (dir_unlink_ok cpu k s1 a d nm junk Hk N1 Hd Hnm) as (s2 & -> & N2 & Q2); [intros i Hn; by apply (Hf d nm i)|]. exists s2. rewrite (qu_refs _ _ Q1) in N2.
  destruct (names a d !! nm); (split; [done|]; split; [done|by eapply quiet_trans]).
Qed.

(** ** [rename] *)

Definition arename (a : nspace) (cwd : Z) (old new : list Z) : Z * nspace :=
  match aresolve a cwd old false with
  | None => (-1, a)
  | Some (d, nm) =>
      match names a d !! nm, aresolve a cwd new false with
      | Some i, Some (d', nm') => (0, adrop d nm (alink d' nm' i a))
      | _, _ => (-1, a)
      end
  end.

(** The new name is not there yet. *)
Definition names_nothing (a : nspace) (cwd : Z) (path : list Z) : Prop := ∀ d nm, aresolve a cwd path false = Some (d, nm) → names a d !! nm = None.

Lemma rename_ok cpu k s a cwd old new junk :
  0 ≤ k → ns_ok cpu (k + 2 * Z.of_nat (length old) + 2 * Z.of_nat (length new) + 8) s a → path_ok a cwd old → path_ok a cwd new → names_nothing a cwd new → 4 ≤ global_free_blocks (d_fs s) →
  ∃ s', yulafs_rename cpu cwd old new junk s = Ok ((arename a cwd old new).1, s') ∧ ns_ok cpu k s' (arename a cwd old new).2 ∧
    open_refs (d_open s') = open_refs (d_open s) ∧ total_inodes (sb (d_fs s')) = total_inodes (sb (d_fs s)) ∧ global_free_blocks (d_fs s) - 4 ≤ global_free_blocks (d_fs s').
Proof.
  intros Hk N Ho Hn Hnone Hfree. unfold yulafs_rename, arename.
  destruct (parent_ok cpu (k + 2 * Z.of_nat (length new) + 6) s a cwd old junk) as (last & s1 & -> & N1 & [Q1 Q2 Q3] & Hr); [lia|eapply ns_weaken; [|exact N]; lia|done|]. cbn [mbind res_bind].
  destruct (aresolve a cwd old false) as [ [d nm]|]; cbn [dir_of].
  2: { exists s1. split; [done|]. split; [eapply ns_weaken; [|exact N1]; lia|]. split; [done|]. split; [done|lia]. }
  destruct Hr as (-> & Hd & Hnm & Hd0 & s2 & s3 & Hs2 & Hs3 & N3 & [P1 P2 P3]). destruct (d =? 0) eqn:E0; [lia|]. rewrite Hs2. cbn [mbind res_bind default from_option id]. rewrite Hs3. cbn [mbind res_bind fst snd].
  destruct (names a d !! nm) as [i|] eqn:En; cbn [default from_option id].
  2: { exists s3. split; [done|]. split; [eapply ns_weaken; [|exact N3]; lia|]. split; [done|]. split; [done|lia]. }
  pose proof (ns_target _ _ _ _ N3 d nm i En) as Hi. destruct (i =? 0) eqn:Ei; [lia|]. unfold path_to_inode_for_modify.
  destruct (path_to_inode_ok cpu (k + 6) s3 a cwd new false) as (last' & s4 & -> & Hl' & N4 & [R1 R2 R3]); [lia|eapply ns_weaken; [|exact N3]; lia|done|]. cbn [mbind res_bind].
  destruct (aresolve a cwd new false) as [ [d' nm']|] eqn:E'; cbn [dir_of fst snd].
  2: { exists s4. split; [done|]. split; [eapply ns_weaken; [|exact N4]; lia|]. split; [congruence|]. split; [congruence|lia]. }
  destruct (aresolve_dir _ _ _ _ _ _ Hn E') as [Hd' Hnm']. pose proof (ns_range _ _ _ _ N4 d' Hd') as Hi'. destruct (d' =? 0) eqn:E0'; [lia|]. rewrite (Hl' d' nm' eq_refl). cbn [default from_option id].
  replace (k + 6) with (k + 2 + 4) in N4 by lia.
  destruct (dir_link_ok cpu (k + 2) s4 a d' i nm' junk ltac:(lia) N4 Hd' Hnm') as (s5 & -> & N5 & T1 & T2 & T3); [by apply (Hnone d')|by rewrite R3|lia|]. cbn [mbind res_bind fst snd negb Z.eqb].
  destruct (unlink_entry_ok cpu k s5 (alink d' nm' i a) d nm junk Hk N5 Hd Hnm) as (s6 & -> & N6 & [U1 U2 U3]). cbn [mbind res_bind fst snd].
  destruct (flush_ok cpu k s6 _ N6) as [N7 [V1 V2 V3] ]. eexists. split; [done|]. split; [exact N7|]. split; [congruence|]. split; [congruence|lia].
Qed.
