(* ===== verification/YfsNameSpace.v ===== *)
(** * YulaFS: the name space refines a tree of maps

    The calls on paths, on a sound file system, one after the other. *)

From S2P Require Import Prelude Bdev YfsBitmap YfsWords Yfs YfsAlloc YfsOps YfsVolume YfsInode YfsForest YfsBlockMap YfsResolve YfsFile YfsBytes YfsFiles YfsTruncate YfsDcache YfsDir YfsEntry YfsNames YfsSpace YfsPath YfsNameOps YfsCreate YfsCalls.

Inductive nop :=
| NLookup (path : list Z)
| NCreate (path : list Z)
| NMkdir (path : list Z)
| NUnlink (path : list Z)
| NRename (old new : list Z)
| NShrink (pages : Z).

Definition nexec (cpu cwd : Z) (junk : inode) (o : nop) (s : dirs) : res (Z * dirs) :=
  match o with
  | NLookup p => yulafs_lookup cpu cwd p junk s
  | NCreate p => yulafs_create cpu cwd p junk s
  | NMkdir p => yulafs_mkdir cpu cwd p junk s
  | NUnlink p => yulafs_unlink cpu cwd p junk s
  | NRename p q => yulafs_rename cpu cwd p q junk s
  | NShrink n => let r := yulafs_dcache_shrinker_cb n (d_cache s) in Ok (r.1, with_cache r.2 s)
  end.

(** What the call does to the name space; [refs] are the counts of open files. *)
Definition nstep (refs : list Z) (cwd : Z) (o : nop) (a : nspace) (r : Z) (a' : nspace) : Prop :=
  match o with
  | NLookup p => r = alookup a cwd p ∧ a' = a
  | NCreate p => acreate a cwd p YFS_TYPE_FILE r a'
  | NMkdir p => acreate a cwd p YFS_TYPE_DIR r a'
  | NUnlink p => (r, a') = aunlink refs a cwd p
  | NRename p q => (r, a') = arename a cwd p q
  | NShrink _ => a' = a
  end.

(** What a caller may ask for: paths go through directories, a directory is not
    unlinked, a name is not renamed onto another, and there is a free inode for a
    new one. *)
Definition nop_ok (total cwd : Z) (a : nspace) (o : nop) : Prop :=
  match o with
  | NLookup p => path_ok a cwd p
  | NCreate p | NMkdir p => path_ok a cwd p ∧ ∃ i, 0 < i < total ∧ kind a i = YFS_TYPE_FREE
  | NUnlink p => path_ok a cwd p ∧ names_file a cwd p
  | NRename p q => path_ok a cwd p ∧ path_ok a cwd q ∧ names_nothing a cwd q
  | NShrink _ => True
  end.

(** Accesses to the inode table and blocks that are enough. *)
Definition nstamps (o : nop) : Z :=
  match o with
  | NLookup p | NCreate p | NMkdir p | NUnlink p => 2 * Z.of_nat (length p) + 8
  | NRename p q => 2 * Z.of_nat (length p) + 2 * Z.of_nat (length q) + 8
  | NShrink _ => 0
  end.
Definition nblks (o : nop) : Z := match o with NCreate _ | NMkdir _ => 5 | NRename _ _ => 4 | _ => 0 end.

Definition total (f : nop → Z) (os : list nop) : Z := foldr (λ o n, f o + n) 0 os.

Fixpoint nrun (cpu cwd : Z) (junk : inode) (os : list nop) (s : dirs) : res (list Z * dirs) :=
  match os with
  | [] => Ok ([], s)
  | o :: os => r ← nexec cpu cwd junk o s; q ← nrun cpu cwd junk os r.2; Ok (r.1 :: q.1, q.2)
  end.

Inductive nsteps (refs : list Z) (cwd : Z) : list nop → nspace → list Z → nspace → Prop :=
| nsteps_nil a : nsteps refs cwd [] a [] a
| nsteps_cons o os a r a1 rs a2 : nstep refs cwd o a r a1 → nsteps refs cwd os a1 rs a2 → nsteps refs cwd (o :: os) a (r :: rs) a2.

(** Every call is allowed, whichever inodes the calls before it have taken. *)
Fixpoint allowed (refs : list Z) (total cwd : Z) (os : list nop) (a : nspace) : Prop :=
  match os with
  | [] => True
  | o :: os => nop_ok total cwd a o ∧ ∀ r a', nstep refs cwd o a r a' → allowed refs total cwd os a'
  end.

Lemma nexec_ok cpu k s a cwd junk o :
  0 ≤ k → ns_ok cpu (k + nstamps o) s a → nop_ok (total_inodes (sb (d_fs s))) cwd a o → nblks o ≤ global_free_blocks (d_fs s) →
  ∃ r s' a', nexec cpu cwd junk o s = Ok (r, s') ∧ nstep (open_refs (d_open s)) cwd o a r a' ∧ ns_ok cpu k s' a' ∧
    open_refs (d_open s') = open_refs (d_open s) ∧ total_inodes (sb (d_fs s')) = total_inodes (sb (d_fs s)) ∧ global_free_blocks (d_fs s) - nblks o ≤ global_free_blocks (d_fs s').
Proof.
  intros Hk N Hop Hfree. destruct o as [p|p|p|p|p q|n]; cbn [nexec nstep nop_ok nstamps nblks] in *.
  - destruct (yulafs_lookup_ok cpu k s a cwd p junk Hk) as (s' & -> & N' & [Q1 Q2 Q3]); [eapply ns_weaken; [|exact N]; lia|done|]. eexists _, s', a. split; [done|]. split; [done|]. split; [done|]. split; [done|]. split; [done|lia].
  - destruct Hop as [Hp Hex]. apply (create_obj_ok cpu k s a cwd p YFS_TYPE_FILE junk Hk); [eapply ns_weaken; [|exact N]; lia|done|by left|done|done].
  - destruct Hop as [Hp Hex]. apply (create_obj_ok cpu k s a cwd p YFS_TYPE_DIR junk Hk); [eapply ns_weaken; [|exact N]; lia|done|by right|done|done].
  - destruct Hop as [Hp Hf]. destruct (unlink_ok cpu k s a cwd p junk Hk) as (s' & -> & N' & [Q1 Q2 Q3]); [eapply ns_weaken; [|exact N]; lia|done|done|].
    eexists _, s', _. split; [done|]. split; [symmetry; apply surjective_pairing|]. split; [done|]. split; [done|]. split; [done|lia].
  - destruct Hop as (Hp & Hq & Hn). destruct (rename_ok cpu k s a cwd p q junk Hk) as (s' & -> & N' & H1 & H2 & H3); [eapply ns_weaken; [|exact N]; lia|done..|].
    eexists _, s', _. split; [done|]. split; [symmetry; apply surjective_pairing|]. done.
  - unfold yulafs_dcache_shrinker_cb. cbv zeta. destruct (shrink_loop _ _ _ _) as [ [l t] freed] eqn:E. cbn [fst snd]. eexists _, _, a. split; [done|]. split; [done|].
    split; [|split; [done|split; [done|change (d_fs (with_cache (Dcache t l (dc_slab (d_cache s))) s)) with (d_fs s); lia] ] ].
    pose proof (cache_rep_shrink _ _ _ _ _ _ _ a (dc_slab (d_cache s)) (ns_cache _ _ _ _ N) E) as Hc. rewrite Z.add_0_r in N. destruct N as [A1 A2 A3 A4 A5 A6 A7 A8 A9 A10 A11 A12 A13]. by split.
Qed.

Lemma nstamps_pos o : 0 ≤ nstamps o.
Proof. destruct o; cbn; lia. Qed.

Lemma nblks_pos o : 0 ≤ nblks o.
Proof. destruct o; cbn; lia. Qed.

Lemma total_pos f os : (∀ o, 0 ≤ f o) → 0 ≤ total f os.
Proof. intros Hf. induction os as [|o os IH]; [done|]. cbn. specialize (Hf o). unfold total in IH. lia. Qed.

(** C0. The calls on paths refine a tree of maps: on one CPU, with memory, free
    blocks and a free inode for every new object, any sequence of lookups,
    creations of files and directories, unlinks of files, renames to new names and
    reclaims of the entry cache returns what it would on maps from names to
    inodes, and leaves directories, entry cache, bitmaps and inode table that
    represent the resulting maps.  A new object gets some free inode; an unlinked
    file that is open keeps its inode. *)
Theorem yulafs_names_refine cpu cwd junk os s a :
  ns_ok cpu (total nstamps os) s a → total nblks os ≤ global_free_blocks (d_fs s) → allowed (open_refs (d_open s)) (total_inodes (sb (d_fs s))) cwd os a →
  ∃ rs s' a', nrun cpu cwd junk os s = Ok (rs, s') ∧ nsteps (open_refs (d_open s)) cwd os a rs a' ∧ ns_ok cpu 0 s' a'.
Proof.
  revert s a. induction os as [|o os IH]; intros s a N Hfree Hal.
  { exists [], s, a. split; [done|]. split; [constructor|done]. }
  cbn [total foldr allowed] in *. fold (total nstamps os) in N. fold (total nblks os) in Hfree. destruct Hal as [Hop Hal].
  pose proof (total_pos nstamps os nstamps_pos). pose proof (total_pos nblks os nblks_pos). pose proof (nblks_pos o).
  rewrite Z.add_comm in N. destruct (nexec_ok cpu (total nstamps os) s a cwd junk o) as (r & s1 & a1 & Hx & Hst & N1 & E1 & E2 & E3); [done|done|done|lia|].
  destruct (IH s1 a1 N1) as (rs & s2 & a2 & Hr & Hss & N2); [lia|rewrite E1, E2; by apply (Hal r)|]. exists (r :: rs), s2, a2. cbn [nrun]. rewrite Hx. cbn [mbind res_bind fst snd]. rewrite Hr.
  split; [done|]. split; [|done]. econstructor; [exact Hst|]. by rewrite <-E1.
Qed.

(** ** A root directory *)

Definition root_space : nspace := Space (λ i, if decide (i = 1) then YFS_TYPE_DIR else YFS_TYPE_FREE) (λ i, if decide (i = 1) then dots_map 1 1 else ∅).

(** On an empty disk, a root made the way [yulafs_create_obj] makes a directory
    is a name space of its own. *)
Lemma root_ok cpu k s refs slab mnt :
  0 ≤ k → sys_ok cpu (k + 2) s → ¬ oom (fs s) → 1 < total_inodes (sb (fs s)) < 2147483648 → total_blocks (sb (fs s)) < 1048575 → 1 ≤ global_free_blocks (fs s) →
  (∀ i, 0 < i < total_inodes (sb (fs s)) → i_type (inode_of (fs s) i) = YFS_TYPE_FREE ∧ (∀ sl, slot_ptr (inode_of (fs s) i) sl = 0) ∧ ino_used (fs s) i = bool_decide (i = 1)) →
  ∃ obj y2 x, new_object 1 1 YFS_TYPE_DIR (fs s) = Ok (obj, y2) ∧ sync_inode cpu 1 obj true (with_fs y2 s) = Ok (true, obj, x) ∧
    ns_ok cpu k (Dirs (Opened x refs) (Dcache ∅ [] slab) mnt) root_space ∧ total_inodes (sb (fs x)) = total_inodes (sb (fs s)) ∧ global_free_blocks (fs s) - 1 ≤ global_free_blocks (fs x).
Proof.
  intros Hk [CP FO] Ho Ht Htb Hfree Hall. pose proof (fl_fs _ _ FO) as F. pose proof (f_layout _ F) as [L1 L2 L3 L4 L5 L6 L7 L8 L9]. destruct (Hall 1 ltac:(lia)) as (_ & Hz1 & _).
  destruct (make_dir (fs s) 1 1 FO Ho) as (obj & y2 & Hobj & MD); [lia|lia|done|done|]. pose proof (md_sb _ _ _ _ _ _ MD) as E2. set (nodes2 := upd_node (inode_of (fs s)) 1 obj) in *.
  assert (∀ b, inode_table_start (sb (fs s)) ≤ b < data_start (sb (fs s)) → disk y2 !! b = disk (fs s) !! b) as Htab by (intros b Hb; apply (md_disk _ _ _ _ _ _ MD); [lia|unfold is_map; lia]).
  assert (∀ i, is_ino (fs s) i → inode_of y2 i = inode_of (fs s) i) as Hin2.
  { intros i Hi. destruct (inode_index (sb (fs s)) i Hi) as (I1 & I2 & I3); [apply CP|]. unfold inode_of. rewrite E2, Htab; [done|lia]. }
  destruct (sync_write_ok cpu k 1 nodes2 obj s y2) as (x & Hx & SSx & Sy & Hn & Hothers & _); [done| |apply MD| | | |apply MD|by unfold nodes2; intros sl; rewrite upd_node_eq|].
  { apply cpu_ok_frame; [done|apply MD|by rewrite E2..|]. intros b Hb. rewrite E2 in Hb. by apply Htab. }
  { intros H. by apply Ho, (md_mem _ _ _ _ _ _ MD). } { rewrite E2. lia. }
  { intros i Hi Hne. unfold nodes2. rewrite upd_node_ne by done. apply Hin2. unfold is_ino in *. by rewrite <-E2. }
  pose proof (sy_sb _ _ Sy) as E3. assert (∀ i, 0 < i < total_inodes (sb (fs s)) → is_ino y2 i) as Hi2 by (intros i; unfold is_ino; rewrite E2; lia).
  exists obj, y2, x. split; [done|]. split; [done|]. split; [|split; [by rewrite E3, E2|rewrite (proj1 (sy_free _ _ Sy)); apply (md_free _ _ _ _ _ _ MD)] ].
  split; unfold d_fs; change (d_sys (Dirs (Opened x refs) (Dcache ∅ [] slab) mnt)) with x; rewrite ?E3, ?E2; [done|intros H; by apply Ho, (md_mem _ _ _ _ _ _ MD), (sy_mem _ _ Sy)|done|lia|done|..].
  - intros i. cbn. case_decide; [lia|done].
  - intros i Hi. destruct (Hall i Hi) as (H1 & _ & _). cbn. case_decide as E; [subst i; rewrite Hn; apply MD|]. rewrite Hothers by auto. unfold nodes2. by rewrite upd_node_ne.
  - intros i Hi. destruct (Hall i Hi) as (_ & _ & H3). rewrite (sy_ino _ _ Sy) by auto. rewrite (md_ino _ _ _ _ _ _ MD) by (unfold is_ino; lia). rewrite H3. cbn. case_decide as E; [by rewrite !bool_decide_true|by rewrite !bool_decide_false by (done || by intros H; apply H)].
  - intros i Hi. cbn. case_decide as E; [done|]. intros _ sl. destruct (Hall i Hi) as (_ & H2 & _). rewrite Hothers by auto. unfold nodes2. by rewrite upd_node_ne.
  - intros i. cbn. case_decide as E; [|done]. intros _. subst i. eapply dir_untouched; [by apply (md_dir _ _ _ _ _ _ MD)|]. apply untouched_same; [apply MD|by rewrite E3|rewrite Hn; unfold nodes2; by rewrite upd_node_eq|].
    intros b Hb. apply (sy_disk _ _ Sy). unfold is_data in Hb. lia.
  - intros i. cbn. by case_decide.
  - intros d nm i. cbn. case_decide; [|by rewrite lookup_empty]. unfold dots_map. rewrite !lookup_insert_Some, lookup_empty. intros [ [_ <-]|[_ [ [_ <-]|[_ ?] ] ] ]; [lia|lia|done].
  - intros d nm i. cbn. by rewrite lookup_empty.
Qed.

(** ** A concrete name space *)

(** A root on the small disk, no file open. *)
Definition demo_root : res dirs :=
  r ← new_object 1 1 YFS_TYPE_DIR demo_fs;
  q ← sync_inode 0 1 r.1 true (with_fs r.2 demo_sys);
  Ok (Dirs (Opened q.2 (replicate 128 0)) (Dcache ∅ [] []) true).

Definition path_d : list Z := [47; 100].
Definition path_f : list Z := [47; 100; 47; 102].

Lemma zero_pointers k : 0 ≤ k < 32 → let n := inode_in (replicate 4096 0) k in i_direct n ++ [i_indirect n; i_doubly_indirect n; i_triply_indirect n] = replicate 15 0.
Proof.
  intros Hk. assert (forallb (λ k, let n := inode_in (replicate 4096 0) k in bool_decide (i_direct n ++ [i_indirect n; i_doubly_indirect n; i_triply_indirect n] = replicate 15 0)) (seqZ 0 32) = true) as H by (by vm_compute).
  rewrite forallb_forall in H. eapply bool_decide_eq_true, H, list_elem_of_In, elem_of_seqZ. lia.
Qed.

Lemma demo_root_ok k : 0 ≤ k < 4294967290 → ∃ s, demo_root = Ok s ∧ ns_ok 0 k s root_space ∧ open_refs (d_open s) = replicate 128 0 ∧ total_inodes (sb (d_fs s)) = 128 ∧ 55 ≤ global_free_blocks (d_fs s).
Proof.
  intros Hk. destruct (root_ok 0 k demo_sys (replicate 128 0) [] true) as (obj & y2 & x & H1 & H2 & N & Et & Ef); [lia|apply demo_sys_ok; [by left|lia]|intros H; by apply H|done|done|done| |].
  - intros i Hi. change (total_inodes (sb (fs demo_sys))) with 128 in Hi. change (fs demo_sys) with demo_fs. rewrite demo_inode_of by lia. pose proof (Z.mod_pos_bound i 32) as Hm.
    assert (forallb (λ k, i_type (inode_in (replicate 4096 0) k) =? 0) (seqZ 0 32) = true) as Ht by (by vm_compute). assert (forallb (λ i, Bool.eqb (ino_used demo_fs i) (i =? 1)) (seqZ 1 127) = true) as Hu by (by vm_compute).
    rewrite forallb_forall in Ht, Hu. split; [|split].
    + apply Z.eqb_eq, Ht, list_elem_of_In, elem_of_seqZ. lia.
    + intros sl. unfold slot_ptr. rewrite (zero_pointers (i `mod` 32)) by lia. destruct (replicate 15 0 !! Z.to_nat sl) as [v|] eqn:E; [|done]. by apply lookup_replicate in E as [-> _].
    + specialize (Hu i). rewrite Bool.eqb_true_iff in Hu. rewrite Hu by (apply list_elem_of_In, elem_of_seqZ; lia). destruct (decide (i = 1)) as [->|]; [done|]. rewrite bool_decide_false by done. lia.
  - change (fs demo_sys) with demo_fs in H1. eexists. split; [unfold demo_root; by rewrite H1; cbn [mbind res_bind fst snd]; rewrite H2|]. split; [exact N|]. split; [done|]. split; [exact Et|exact Ef].
Qed.

Definition demo_nops : list nop := [NMkdir path_d; NCreate path_f; NLookup path_f; NShrink 1; NLookup path_f; NUnlink path_f; NLookup path_f].

(** [/d] leads from the root to [r]. *)
Definition has_d (a : nspace) (r : Z) : Prop := kind a 1 = YFS_TYPE_DIR ∧ names a 1 !! [100] = Some r ∧ kind a r = YFS_TYPE_DIR.

Lemma path_f_ok a r : has_d a r → path_ok a 1 path_f.
Proof.
  intros (H1 & H2 & H3). split; [repeat constructor|]. replace (components path_f) with ([ [100]; [102] ] : list name) by (by vm_compute). change (start_of 1 path_f) with 1. cbn. split; [done|]. intros i. rewrite H2. by intros [= <-].
Qed.

Lemma path_f_at a r : has_d a r → aresolve a 1 path_f false = Some (r, [102]).
Proof.
  intros (H1 & H2 & H3). unfold aresolve. replace (components path_f) with ([ [100]; [102] ] : list name) by (by vm_compute). change (start_of 1 path_f) with 1. cbn [awalk].
  rewrite !bool_decide_false by (cbn; lia || done). by rewrite H2.
Qed.

Lemma demo_allowed refs : allowed refs 128 1 demo_nops root_space.
Proof.
  unfold demo_nops. cbn [allowed nop_ok nstep].
  assert (aresolve root_space 1 path_d false = Some (1, [100])) as E0 by (by vm_compute).
  split; [split; [split; [repeat constructor|by vm_compute]|exists 2; done]|]. intros r a1 Hc. unfold acreate in Hc. rewrite E0 in Hc.
  replace (names root_space 1 !! [100]) with (None : option Z) in Hc by (by vm_compute). destruct Hc as (Hr & Hk & E1).
  assert (r ≠ 1) as Hr1 by (intros ->; done). assert (has_d a1 r) as D1.
  { subst a1. unfold has_d. cbn. repeat (case_decide; try congruence). by rewrite lookup_insert_eq. }
  assert (names a1 r !! [102] = None) as Ef by (subst a1; cbn; rewrite decide_False by done; rewrite decide_True by done; done).
  split; [split; [by eapply path_f_ok|] |].
  { exists (if decide (r = 2) then 3 else 2). subst a1. cbn. case_decide; (split; [lia|]); by repeat (case_decide; try lia). }
  intros r2 a2 Hc2. unfold acreate in Hc2. rewrite (path_f_at _ _ D1), Ef in Hc2. destruct Hc2 as (Hr2 & Hk2 & E2).
  assert (r2 ≠ r ∧ r2 ≠ 1) as [N1 N2] by (destruct D1 as (D1 & D2 & D3); split; intros E; rewrite E, ?D1, ?D3 in Hk2; discriminate).
  assert (has_d a2 r) as D2.
  { destruct D1 as (D1 & D2 & D3). subst a2. unfold has_d. cbn. by repeat (case_decide; try congruence). }
  assert (path_ok a2 1 path_f) as P2 by (by eapply path_f_ok).
  split; [done|]. intros q1 b1 [_ ->]. split; [done|]. intros q2 b2 ->. split; [done|]. intros q3 b3 [_ ->]. split; [split; [done|] |].
  { intros d nm i. rewrite (path_f_at _ _ D2). intros [= <- <-]. subst a2. cbn. rewrite decide_True by done. rewrite lookup_insert_eq. intros [= <-]. by rewrite decide_True by done. }
  intros r3 a3 E3. unfold aunlink in E3. rewrite (path_f_at _ _ D2) in E3. assert (has_d a3 r) as D3; [|split; [by eapply path_f_ok|done] ].
  assert (names a2 r !! [102] = Some r2) as E4 by (subst a2; cbn; rewrite decide_True by done; by rewrite lookup_insert_eq). rewrite E4 in E3.
  injection E3 as _ ->. destruct D2 as (D2 & D4 & D5). unfold arelease. destruct (busy refs r2); unfold has_d; cbn; by repeat (case_decide; try congruence).
Qed.

(** The answers: the directory is inode 2, the file 3, and it is gone at the end. *)
Lemma yulafs_names_refine_witness :
  (s ← demo_root; r ← nrun 0 1 no_inode demo_nops s; Ok r.1) = Ok [2; 3; 3; 0; 3; 0; -1] ∧
  ∃ s rs s' a', demo_root = Ok s ∧ nrun 0 1 no_inode demo_nops s = Ok (rs, s') ∧ nsteps (open_refs (d_open s)) 1 demo_nops root_space rs a' ∧ ns_ok 0 0 s' a'.
Proof.
  split; [by vm_compute|]. destruct (demo_root_ok (total nstamps demo_nops)) as (s & Hs & N & E1 & E2 & E3); [by vm_compute|]. exists s.
  destruct (yulafs_names_refine 0 1 no_inode demo_nops s root_space N) as (rs & s' & a' & H1 & H2 & H3); [|rewrite E2; apply demo_allowed|].
  - eapply Z.le_trans; [|exact E3]. by vm_compute.
  - exists rs, s', a'. split; [exact Hs|]. split; [exact H1|]. split; [exact H2|exact H3].
Defined.
