(* ===== verification/YfsList.v ===== *)
(** * YulaFS: listing a directory

    [getdents] of [src/src/fs/yulafs.cpp] copies the entries in use into the
    buffer of the caller, from a byte offset on.  Called again and again, with a
    buffer for one entry or more, it gives every name of the directory once. *)

From S2P Require Import Prelude Bdev YfsBitmap YfsWords Yfs YfsAlloc YfsOps YfsVolume YfsInode YfsForest YfsBlockMap YfsResolve YfsFile YfsBytes YfsFiles YfsTruncate YfsDcache YfsDir YfsEntry YfsNames YfsSpace YfsPath YfsNameOps YfsCreate YfsCalls YfsNameSpace.

(** [yfs_dirent_info_t], 72 bytes *)
Record dirent_info := DirentInfo { di_inode : Z; di_type : Z; di_size : Z; di_name : name }.

Definition DIRENT_INFO : Z := 72.

(** The C string at the start of [l]. *)
Fixpoint read_string (l : list Z) : res name :=
  match l with
  | [] => Fault
  | c :: l => if c =? 0 then Ok [] else nm ← read_string l; Ok (c :: nm)
  end.

(** [strlcpy(d->name, p, YFS_NAME_MAX)] with [p] at offset [off] of the buffer. *)
Definition copy_name (buf : buffer) (off : Z) : res name := nm ← read_string (drop (Z.to_nat off) buf); Ok (trunc nm).

(** The inner loop: [n] entries of the block are left, [room] in the buffer of the
    caller.  What it stores, the next index, the state. *)
Fixpoint ents_loop (n : nat) (cpu : Z) (ents : buffer) (ent_idx idx total_entries room : Z) (junk : inode) (s : dirs) : res (list dirent_info * Z * dirs) :=
  match n with
  | O => Ok ([], idx, s)
  | S n =>
      if negb ((idx <? total_entries) && (0 <? room)) then Ok ([], idx, s)
      else
        ino ← rd32 ents (DIRENT * ent_idx);
        if ino =? 0 then ents_loop n cpu ents (ent_idx + 1) (u32 (idx + 1)) total_entries room junk s
        else
          nm ← copy_name ents (DIRENT * ent_idx + 4);
          r ← dsync cpu ino junk false s;
          let '(ok, child, s) := r in
          let d := if (ok : bool) then DirentInfo ino (i_type child) (i_size child) nm else DirentInfo ino 0 0 nm in
          q ← ents_loop n cpu ents (ent_idx + 1) (u32 (idx + 1)) total_entries (room - 1) junk s;
          Ok (d :: q.1.1, q.1.2, q.2)
  end.

(** [while (idx < total_entries && out_count < max_entries)]: the index grows with
    every turn. *)
Fixpoint getdents_loop (fuel : nat) (cpu : Z) (dir : inode) (idx total_entries room : Z) (junk : inode) (s : dirs) : res (list dirent_info * Z * dirs) :=
  match fuel with
  | O => Timeout
  | S fuel =>
      if negb ((idx <? total_entries) && (0 <? room)) then Ok ([], idx, s)
      else
        let blk_idx := idx / entries_per_block in
        let ent_idx := idx `mod` entries_per_block in
        r ← resolve_block dir blk_idx false (d_fs s);
        let '(lba, dir, y) := r in
        let s := with_yfs y s in
        if lba =? 0 then getdents_loop fuel cpu dir (u32 ((blk_idx + 1) * entries_per_block)) total_entries room junk s
        else
          ents ← bread lba (d_fs s);
          q ← ents_loop (Z.to_nat (entries_per_block - ent_idx)) cpu ents ent_idx idx total_entries room junk s;
          p ← getdents_loop fuel cpu dir q.1.2 total_entries (room - zlen q.1.1) junk q.2;
          Ok (q.1.1 ++ p.1.1, p.1.2, p.2)
  end.

(** The result, what is stored in [out], the new offset. *)
Definition yulafs_getdents (cpu dir_ino offset out_size : Z) (junk : inode) (s : dirs) : res (Z * list dirent_info * Z * dirs) :=
  if out_size <? DIRENT_INFO then Ok (-1, [], offset, s)
  else
    let max_entries := out_size / DIRENT_INFO in
    r ← dsync cpu dir_ino junk false s;
    let '(ok, dir, s) := r in
    if negb (ok : bool) then Ok (-1, [], offset, s)
    else if negb (i_type dir =? YFS_TYPE_DIR) then Ok (-1, [], offset, s)
    else
      let total_entries := u32 (i_size dir + DIRENT - 1) / DIRENT in
      let idx := offset / DIRENT in
      let idx := if negb (offset `mod` DIRENT =? 0) then u32 (idx + 1) else idx in
      q ← getdents_loop (S (Z.to_nat total_entries)) cpu dir idx total_entries max_entries junk s;
      Ok (s32 (u32 (zlen q.1.1 * DIRENT_INFO)), q.1.1, u32 (q.1.2 * DIRENT), q.2).

(** ** Reading *)

(** An entry, as it is listed. *)
Definition info (s : dirs) (d k : Z) : dirent_info :=
  let e := slot (d_fs s) (inode_of (d_fs s)) d k in
  let n := inode_of (d_fs s) e.1 in DirentInfo e.1 (i_type n) (i_size n) (c_string e.2).

Definition in_use (s : dirs) (d k : Z) : Prop := (slot (d_fs s) (inode_of (d_fs s)) d k).1 ≠ 0.

#[export] Instance in_use_dec s d k : Decision (in_use s d k).
Proof. unfold in_use. apply _. Defined.

Lemma slot_viewed s s' d k : viewed s s' → is_ino (d_fs s) d → 0 ≤ k < KMAX → slot (d_fs s') (inode_of (d_fs s')) d k = slot (d_fs s) (inode_of (d_fs s)) d k.
Proof. intros V Hd Hk. destruct (slot_split k Hk) as (Hfb & _). unfold slot. by rewrite (ut_leaf _ _ _ _ _ (vw_file _ _ V d Hd)). Qed.

(** An entry in use names an inode. *)
Lemma in_use_target cpu n s a d k : ns_ok cpu n s a → kind a d = YFS_TYPE_DIR → 0 ≤ k < KMAX → in_use s d k →
  let e := slot (d_fs s) (inode_of (d_fs s)) d k in names a d !! c_string e.2 = Some e.1 ∧ 0 < e.1 < total_inodes (sb (d_fs s)).
Proof.
  intros N Hd Hk Hu. cbv zeta. pose proof (dr_slots _ _ _ _ (ns_dir _ _ _ _ N d Hd)) as R.
  assert (names a d !! c_string (slot (d_fs s) (inode_of (d_fs s)) d k).2 = Some (slot (d_fs s) (inode_of (d_fs s)) d k).1) as H by (apply (sr_names _ _ R); split; [exact Hu|by exists k]).
  split; [exact H|]. by apply (ns_target _ _ _ _ N) in H.
Qed.

Lemma info_viewed cpu n s s' a d k : ns_ok cpu n s a → viewed s s' → kind a d = YFS_TYPE_DIR → 0 ≤ k < KMAX → in_use s d k → info s' d k = info s d k.
Proof.
  intros N V Hd Hk Hu. destruct (in_use_target _ _ _ _ _ _ N Hd Hk Hu) as [_ Ht]. pose proof (ns_range _ _ _ _ N d Hd) as Hi. unfold info. rewrite (slot_viewed s s') by (done || unfold is_ino; lia).
  assert (is_ino (d_fs s) (slot (d_fs s) (inode_of (d_fs s)) d k).1) as Hn by (unfold is_ino; lia). by rewrite (ut_node _ _ _ _ _ (vw_file _ _ V _ Hn)).
Qed.

Lemma in_use_viewed cpu n s s' a d k : ns_ok cpu n s a → viewed s s' → kind a d = YFS_TYPE_DIR → 0 ≤ k < KMAX → in_use s' d k ↔ in_use s d k.
Proof. intros N V Hd Hk. pose proof (ns_range _ _ _ _ N d Hd) as Hi. unfold in_use. by rewrite (slot_viewed s s') by (done || unfold is_ino; lia). Qed.

(** The entries in use from [k] on, up to [n]. *)
Definition used_from (s : dirs) (d k n : Z) : list Z := filter (in_use s d) (seqZ k (n - k)).

Lemma used_from_end s d k n : n ≤ k → used_from s d k n = [].
Proof. intros H. unfold used_from. by rewrite seqZ_nil by lia. Qed.

Lemma used_from_step s d k n : k < n → used_from s d k n = (if decide (in_use s d k) then [k] else []) ++ used_from s d (k + 1) n.
Proof.
  intros H. unfold used_from. rewrite seqZ_cons by lia. rewrite filter_cons. replace (Z.succ k) with (k + 1) by lia. replace (Z.pred (n - k)) with (n - (k + 1)) by lia. by case_decide.
Qed.

Lemma filter_on {A} (P Q : A → Prop) `{∀ x, Decision (P x), ∀ x, Decision (Q x)} (l : list A) : (∀ x, x ∈ l → P x ↔ Q x) → filter P l = filter Q l.
Proof.
  induction l as [|x l IH]; intros H1; [done|]. pose proof (H1 x (list_elem_of_here x l)) as Hx. rewrite !filter_cons, IH by (intros y Hy; apply H1; by right). repeat case_decide; tauto.
Qed.

Lemma used_from_viewed cpu n s s' a d k m : ns_ok cpu n s a → viewed s s' → kind a d = YFS_TYPE_DIR → 0 ≤ k → m ≤ KMAX → used_from s' d k m = used_from s d k m.
Proof.
  intros N V Hd Hk Hm. unfold used_from. apply filter_on. intros x Hx. apply elem_of_seqZ in Hx. eapply in_use_viewed; [done|done|done|lia].
Qed.

Lemma used_from_elem s d k n x : x ∈ used_from s d k n ↔ k ≤ x < n ∧ in_use s d x.
Proof. unfold used_from. rewrite list_elem_of_filter, elem_of_seqZ. split; intros [H1 H2]; (split; [|done || lia]); done || lia. Qed.

Lemma infos_viewed cpu n s s' a d (l : list Z) k m : ns_ok cpu n s a → viewed s s' → kind a d = YFS_TYPE_DIR → 0 ≤ k → m ≤ KMAX → (∀ x, x ∈ l → x ∈ used_from s d k m) → info s' d <$> l = info s d <$> l.
Proof.
  intros N V Hd Hk Hm Hl. apply list_fmap_ext. intros i x Hx%list_elem_of_lookup_2. apply Hl, used_from_elem in Hx as [Hx Hu]. eapply info_viewed; [done|done|done|lia|done].
Qed.

Lemma read_string_ok l : 0 ∈ l → read_string l = Ok (c_string l).
Proof.
  induction l as [|c l IH]; intros H; [by apply not_elem_of_nil in H|]. cbn. case_if; [done|]. rewrite IH; [done|]. apply elem_of_cons in H as [H|H]; [lia|done].
Qed.

Lemma copy_name_ok buf off : 0 ∈ slice buf (Z.to_nat off) 60 → copy_name buf off = Ok (c_string (slice buf (Z.to_nat off) 60)).
Proof.
  intros H0. unfold copy_name. rewrite <-(take_drop 60 (drop (Z.to_nat off) buf)). fold (slice buf (Z.to_nat off) 60).
  rewrite read_string_ok by (apply elem_of_app; by left). cbn [mbind res_bind]. rewrite c_string_app by done. f_equal. unfold trunc. apply take_ge.
  pose proof (c_string_long _ H0) as Hl. assert (length (slice buf (Z.to_nat off) 60) ≤ 60)%nat by (unfold slice; rewrite length_take; lia). lia.
Qed.

(** ** The loops *)

Lemma ents_loop_ok n cpu k s a d fb e room junk :
  let T := 64 * nblocks (inode_of (d_fs s) d) in
  0 ≤ k → ns_ok cpu (k + 2 * zlen (used_from s d (64 * fb + e) T)) s a → kind a d = YFS_TYPE_DIR → 0 ≤ fb < nblocks (inode_of (d_fs s) d) → 0 ≤ e → e + Z.of_nat n = 64 → 0 ≤ room →
  ∃ l k' s', ents_loop n cpu (fleaf (d_fs s) (inode_of (d_fs s)) d fb) e (64 * fb + e) T room junk s = Ok (info s d <$> l, k', s') ∧
    ns_ok cpu (k + 2 * zlen (used_from s d k' T)) s' a ∧ viewed s s' ∧ used_from s d (64 * fb + e) T = l ++ used_from s d k' T ∧
    64 * fb + e ≤ k' ≤ 64 * (fb + 1) ∧ zlen l ≤ room ∧ (room = zlen l ∨ k' = 64 * (fb + 1)).
Proof.
  intros T Hk. unfold T. clear T. revert s e room. induction n as [|n IH]; intros s e room N Hd Hfb He Hn Hroom; cbn [ents_loop].
  { exists [], (64 * fb + e), s. cbn. split; [done|]. split; [done|]. split; [apply viewed_refl|]. split; [done|]. lia. }
  pose proof (ns_dir _ _ _ _ N d Hd) as R. destruct (dr_size _ _ _ _ R) as [_ Hnb]. pose proof (ns_range _ _ _ _ N d Hd) as Hi. assert (is_ino (d_fs s) d) as Hid by (unfold is_ino; lia).
  set (T := 64 * nblocks (inode_of (d_fs s) d)) in *. assert (64 * fb + e < T ≤ KMAX) as HT by (unfold T, KMAX; lia).
  destruct (decide (room = 0)) as [->|Hr].
  { replace (0 <? 0) with false by done. rewrite andb_false_r. cbn [negb]. exists [], (64 * fb + e), s. cbn. split; [done|]. split; [done|]. split; [apply viewed_refl|]. split; [done|]. lia. }
  destruct (negb ((64 * fb + e <? T) && (0 <? room))) eqn:Eg; [lia|]. clear Eg.
  destruct (dir_block_ok (d_fs s) (inode_of (d_fs s)) d (names a d) fb) as (_ & _ & _ & _ & _ & Hok & Hent); [apply N|apply N|done|done|lia|].
  destruct (slot_join fb e) as (Hk1 & Ea & Eb); [lia|lia|]. set (buf := fleaf (d_fs s) (inode_of (d_fs s)) d fb) in *.
  assert (slot (d_fs s) (inode_of (d_fs s)) d (64 * fb + e) = (ent_ino buf e, ent_bytes buf e)) as Es by (unfold slot; by rewrite Ea, Eb).
  rewrite rd32_ent by (done || lia). cbn [mbind res_bind]. rewrite (u32_small (64 * fb + e + 1)) by (unfold KMAX in *; lia). replace (64 * fb + e + 1) with (64 * fb + (e + 1)) by lia.
  rewrite (used_from_step s d (64 * fb + e) T) in N |- * by lia. replace (64 * fb + e + 1) with (64 * fb + (e + 1)) in N |- * by lia.
  destruct (ent_ino buf e =? 0) eqn:E0.
  - assert (¬ in_use s d (64 * fb + e)) as Hu by (unfold in_use; rewrite Es; cbn; lia). rewrite decide_False in N |- * by done. cbn [app] in N |- *.
    destruct (IH s (e + 1) room N Hd Hfb) as (l & k' & s' & Hx & N' & V & Hl & Hk' & Hc & Hor); [lia|lia|lia|]. exists l, k', s'. split; [exact Hx|]. split; [done|]. split; [done|]. split; [done|]. split; [lia|]. done.
  - assert (in_use s d (64 * fb + e)) as Hu by (unfold in_use; rewrite Es; cbn; lia). rewrite decide_True in N |- * by done. cbn [app] in N |- *.
    assert (0 ∈ ent_bytes buf e) as H0 by (apply Hent; [lia|unfold in_use in Hu; by rewrite Es in Hu]). rewrite copy_name_ok by exact H0. cbn [mbind res_bind].
    destruct (in_use_target _ _ _ _ _ _ N Hd Hk1 Hu) as [_ Htgt]. rewrite Es in Htgt. cbn [fst] in Htgt.
    destruct (dsync_view cpu (k + 2 * zlen (used_from s d (64 * fb + (e + 1)) T)) s a (ent_ino buf e) junk) as (s1 & -> & N1 & V1 & _); [lia|eapply ns_weaken; [|exact N]; cbn [length]; lia|done|]. cbn [mbind res_bind].
    pose proof (ut_node _ _ _ _ _ (vw_file _ _ V1 d Hid)) as En. assert (fleaf (d_fs s1) (inode_of (d_fs s1)) d fb = buf) as Ebuf by (apply (ut_leaf _ _ _ _ _ (vw_file _ _ V1 d Hid)); lia).
    assert (∀ x, 0 ≤ x → used_from s1 d x T = used_from s d x T) as Eu by (intros x Hx; eapply used_from_viewed; [exact N|done|done|done|lia]).
    specialize (IH s1 (e + 1) (room - 1)). rewrite En, Ebuf in IH. fold T in IH. rewrite Eu in IH by lia.
    destruct (IH N1 Hd Hfb) as (l & k' & s' & Hx & N' & V & Hl & Hk' & Hc & Hor); [lia|lia|lia|]. rewrite Hx. cbn [mbind res_bind fst snd]. rewrite Eu in N', Hl by lia.
    exists ((64 * fb + e) :: l), k', s'. split.
    { do 3 f_equal. cbn [fmap list_fmap]. f_equal; [unfold info; by rewrite Es|]. eapply (infos_viewed _ _ s s1 a d l (64 * fb + (e + 1)) T); [exact N|done|done|lia|lia|]. intros x Hin. rewrite Hl. apply elem_of_app. by left. }
    split; [done|]. split; [by eapply viewed_trans|]. split; [by rewrite Hl|]. cbn [length]. lia.
Qed.

Lemma getdents_loop_ok fuel cpu k s a d idx room junk :
  let T := 64 * nblocks (inode_of (d_fs s) d) in
  0 ≤ k → ns_ok cpu (k + 2 * zlen (used_from s d idx T)) s a → kind a d = YFS_TYPE_DIR → 0 ≤ idx ≤ T → 0 ≤ room → T - idx < Z.of_nat fuel →
  ∃ l k' s', getdents_loop fuel cpu (inode_of (d_fs s) d) idx T room junk s = Ok (info s d <$> l, k', s') ∧
    ns_ok cpu (k + 2 * zlen (used_from s d k' T)) s' a ∧ viewed s s' ∧ used_from s d idx T = l ++ used_from s d k' T ∧ idx ≤ k' ≤ T ∧ zlen l ≤ room ∧ (room = zlen l ∨ k' = T).
Proof.
  intros T Hk. unfold T. clear T. revert s idx room. induction fuel as [|fuel IH]; intros s idx room N Hd Hidx Hroom Hfuel; [lia|]. cbn [getdents_loop].
  set (T := 64 * nblocks (inode_of (d_fs s) d)) in *. destruct (negb ((idx <? T) && (0 <? room))) eqn:Eg.
  { exists [], idx, s. cbn. split; [done|]. split; [done|]. split; [apply viewed_refl|]. split; [done|]. lia. }
  pose proof (ns_dir _ _ _ _ N d Hd) as R. destruct (dr_size _ _ _ _ R) as [_ Hnb]. pose proof (ns_range _ _ _ _ N d Hd) as Hi. assert (is_ino (d_fs s) d) as Hid by (unfold is_ino; lia).
  change entries_per_block with 64. cbv zeta. set (fb := idx / 64). set (e := idx `mod` 64). assert (idx = 64 * fb + e ∧ 0 ≤ e < 64 ∧ 0 ≤ fb < nblocks (inode_of (d_fs s) d)) as (Eidx & He & Hfb) by (unfold fb, e, T in *; Z.to_euclidean_division_equations; lia).
  destruct (dir_block_ok (d_fs s) (inode_of (d_fs s)) d (names a d) fb) as (m & -> & Hm & Hb & Hdk & _ & _); [apply N|apply N|done|done|done|]. cbn [mbind res_bind].
  destruct (fblock _ _ _ _ =? 0) eqn:E0; [lia|]. destruct (view_mem_step cpu _ s a m (d_cache s) N Hm (ns_cache _ _ _ _ N)) as [N1 V1]. set (s1 := with_yfs (with_mem m (d_fs s)) s) in *. change (with_cache _ _) with s1 in N1, V1.
  change (bread (fblock (d_fs s) (inode_of (d_fs s)) d fb) (d_fs s1)) with (bread (fblock (d_fs s) (inode_of (d_fs s)) d fb) (d_fs s)). unfold bread. rewrite Hdk. cbn [mbind res_bind].
  destruct (ents_loop_ok (Z.to_nat (64 - e)) cpu k s1 a d fb e room junk Hk) as (l & k' & s2 & Hx & N2 & V2 & Hl & Hk' & Hc & Hor); [by rewrite <-Eidx|done|done|lia|lia|lia|].
  rewrite <-Eidx in Hx, Hl. change (nblocks (inode_of (d_fs s1) d)) with (nblocks (inode_of (d_fs s) d)) in *. fold T in Hx, Hl, N2. change (fleaf (d_fs s1) (inode_of (d_fs s1)) d fb) with (fleaf (d_fs s) (inode_of (d_fs s)) d fb) in Hx.
  change (used_from s1) with (used_from s) in N2, Hl. change (info s1) with (info s) in Hx.
  rewrite Hx. cbn [mbind res_bind fst snd]. rewrite length_fmap. pose proof (viewed_trans _ _ _ V1 V2) as V. assert (idx < k' ∨ room = zlen l) as Hmove by lia.
  pose proof (ut_node _ _ _ _ _ (vw_file _ _ V d Hid)) as En. assert (∀ x, 0 ≤ x → used_from s2 d x T = used_from s d x T) as Eu by (intros x Hx0; eapply used_from_viewed; [exact N|done|done|done|unfold T, KMAX; lia]).
  destruct (decide (room = zlen l)) as [->|Hne].
  { destruct fuel as [|fuel]; [exfalso; lia|]. cbn [getdents_loop]. replace (0 <? zlen l - zlen l) with false by lia. rewrite andb_false_r. cbn [negb mbind res_bind fst snd].
    exists l, k', s2. rewrite app_nil_r. split; [done|]. split; [done|]. split; [done|]. split; [done|]. lia. }
  specialize (IH s2 k' (room - zlen l)). rewrite En in IH. fold T in IH. rewrite Eu in IH by lia.
  destruct (IH N2 Hd) as (l2 & k2 & s3 & Hx3 & N3 & V3 & Hl3 & Hk3 & Hc3 & Hor3); [lia|lia|lia|]. rewrite Hx3. cbn [mbind res_bind fst snd]. rewrite Eu in N3, Hl3 by lia.
  exists (l ++ l2), k2, s3. split.
  { do 3 f_equal. rewrite fmap_app. f_equal. eapply (infos_viewed _ _ s s2 a d l2 k' T); [exact N|done|done|lia|unfold T, KMAX; lia|]. intros x Hin. rewrite Hl3. apply elem_of_app. by left. }
  split; [done|]. split; [by eapply viewed_trans|]. split; [by rewrite Hl, Hl3, app_assoc|]. rewrite length_app. lia.
Qed.

(** ** The whole directory *)

Definition entry_of (i : dirent_info) : name * Z := (di_name i, di_inode i).

(** The slots in use are the names. *)
Lemma used_names cpu n s a d :
  ns_ok cpu n s a → kind a d = YFS_TYPE_DIR → entry_of <$> (info s d <$> used_from s d 0 (64 * nblocks (inode_of (d_fs s) d))) ≡ₚ map_to_list (names a d).
Proof.
  intros N Hd. pose proof (ns_dir _ _ _ _ N d Hd) as R. destruct (dr_size _ _ _ _ R) as [_ Hnb]. pose proof (dr_slots _ _ _ _ R) as SR. rewrite <-list_fmap_compose.
  assert (∀ x, x ∈ used_from s d 0 (64 * nblocks (inode_of (d_fs s) d)) → 0 ≤ x < KMAX ∧ in_use s d x) as Hr by (intros x [Hx Hu]%used_from_elem; unfold KMAX; split; [lia|done]).
  apply NoDup_Permutation; [|apply NoDup_map_to_list|].
  - apply NoDup_fmap_2_strong; [|apply NoDup_filter, NoDup_seqZ]. intros x y [Hx Ux]%Hr [Hy Uy]%Hr [= E _]. by apply (sr_uniq _ _ SR).
  - intros [nm i]. rewrite list_elem_of_fmap, elem_of_map_to_list, (sr_names _ _ SR). split.
    + intros (x & [= -> ->] & [Hx Ux]%Hr). split; [exact Ux|]. by exists x.
    + intros (Hi & x & Hx & E1 & E2). exists x. split; [unfold compose, entry_of, info; cbn [di_name di_inode]; by rewrite E1, E2|]. apply used_from_elem. split; [|unfold in_use; by rewrite E1].
      split; [lia|]. destruct (slot_split x Hx) as (Hfb & Hj & E). destruct (decide (x / 64 < nblocks (inode_of (d_fs s) d))); [lia|]. exfalso. apply Hi. rewrite <-E1. unfold slot. cbn [fst]. rewrite (dr_end _ _ _ _ R) by lia. by apply ent_zeros.
Qed.

Lemma getdents_ok cpu k s a d idx out_size junk :
  let T := 64 * nblocks (inode_of (d_fs s) d) in
  0 ≤ k → ns_ok cpu (k + 2 + 2 * zlen (used_from s d idx T)) s a → kind a d = YFS_TYPE_DIR → 0 ≤ idx ≤ T → 72 ≤ out_size < 2147483648 →
  ∃ l k' s', yulafs_getdents cpu d (64 * idx) out_size junk s = Ok (72 * zlen l, info s d <$> l, 64 * k', s') ∧
    ns_ok cpu (k + 2 * zlen (used_from s d k' T)) s' a ∧ viewed s s' ∧ used_from s d idx T = l ++ used_from s d k' T ∧ idx ≤ k' ≤ T ∧ zlen l ≤ out_size / 72 ∧ (zlen l = out_size / 72 ∨ k' = T).
Proof.
  intros T Hk N Hd Hidx Hsz. pose proof (ns_range _ _ _ _ N d Hd) as Hi. pose proof (ns_dir _ _ _ _ N d Hd) as R. destruct (dr_size _ _ _ _ R) as [Hsize Hnb]. unfold yulafs_getdents, DIRENT_INFO, DIRENT.
  destruct (out_size <? 72) eqn:E; [lia|]. replace (k + 2 + 2 * zlen (used_from s d idx T)) with (k + 2 * zlen (used_from s d idx T) + 2) in N by lia.
  destruct (dsync_view cpu (k + 2 * zlen (used_from s d idx T)) s a d junk) as (s1 & -> & N1 & V1 & _); [lia|done|done|]. cbn [mbind res_bind negb]. rewrite (dr_type _ _ _ _ R). cbn [negb Z.eqb YFS_TYPE_DIR Pos.eqb]. cbv zeta.
  assert (u32 (i_size (inode_of (d_fs s) d) + 64 - 1) / 64 = T) as ET by (rewrite u32_small by lia; unfold T; rewrite Hsize; Z.to_euclidean_division_equations; lia). rewrite ET.
  assert ((64 * idx) `mod` 64 = 0 ∧ 64 * idx / 64 = idx) as [-> ->] by (Z.to_euclidean_division_equations; lia). cbn [Z.eqb negb].
  assert (is_ino (d_fs s) d) as Hid by (unfold is_ino; lia). pose proof (ut_node _ _ _ _ _ (vw_file _ _ V1 d Hid)) as En. assert (T ≤ KMAX) as HT by (unfold T, KMAX; lia).
  assert (∀ x, 0 ≤ x → used_from s1 d x T = used_from s d x T) as Eu by (intros x Hx0; by eapply used_from_viewed).
  pose proof (getdents_loop_ok (S (Z.to_nat T)) cpu k s1 a d idx (out_size / 72) junk) as H. rewrite En in H. fold T in H. cbv zeta in H. rewrite Eu in H by lia.
  assert (1 ≤ out_size / 72 ∧ 72 * (out_size / 72) ≤ out_size) as Hcap by (Z.to_euclidean_division_equations; lia).
  destruct H as (l & k' & s2 & Hx & N2 & V2 & Hl & Hk' & Hc & Hor); [done|done|done|done|lia|lia|]. rewrite Hx. cbn [mbind res_bind fst snd]. rewrite Eu in N2, Hl by lia. rewrite length_fmap.
  exists l, k', s2. split; [|split; [done|split; [by eapply viewed_trans|split; [done|split; [done|split; [done|lia] ] ] ] ] ].
  rewrite (u32_small (zlen l * 72)), s32_small, (u32_small (k' * 64)) by (unfold KMAX in HT; lia). rewrite (infos_viewed _ _ s s1 a d l idx T N V1 Hd); [|lia|done|intros x Hin; rewrite Hl; apply elem_of_app; by left].
  by rewrite (Z.mul_comm (zlen l)), (Z.mul_comm k').
Qed.

(** A caller that lists a directory with a buffer of [out_size] bytes. *)
Fixpoint list_dir (fuel : nat) (cpu d offset out_size : Z) (junk : inode) (s : dirs) : res (list dirent_info * dirs) :=
  match fuel with
  | O => Timeout
  | S fuel =>
      r ← yulafs_getdents cpu d offset out_size junk s;
      let '(n, l, offset, s) := r in
      if n <=? 0 then Ok ([], s) else q ← list_dir fuel cpu d offset out_size junk s; Ok (l ++ q.1, q.2)
  end.

Lemma list_dir_ok fuel cpu k s a d idx out_size junk :
  let T := 64 * nblocks (inode_of (d_fs s) d) in
  0 ≤ k → ns_ok cpu (k + 2 + 4 * zlen (used_from s d idx T)) s a → kind a d = YFS_TYPE_DIR → 0 ≤ idx ≤ T → 72 ≤ out_size < 2147483648 → (length (used_from s d idx T) < fuel)%nat →
  ∃ s', list_dir fuel cpu d (64 * idx) out_size junk s = Ok (info s d <$> used_from s d idx T, s') ∧ ns_ok cpu k s' a ∧ viewed s s'.
Proof.
  intros T Hk. unfold T. clear T. revert s idx. induction fuel as [|fuel IH]; intros s idx N Hd Hidx Hsz Hfuel; [lia|]. cbn [list_dir]. set (T := 64 * nblocks (inode_of (d_fs s) d)) in *.
  pose proof (ns_range _ _ _ _ N d Hd) as Hi. destruct (dr_size _ _ _ _ (ns_dir _ _ _ _ N d Hd)) as [_ Hnb]. assert (T ≤ KMAX) as HT by (unfold T, KMAX; lia).
  destruct (getdents_ok cpu (k + 2 * zlen (used_from s d idx T)) s a d idx out_size junk) as (l & k' & s1 & -> & N1 & V1 & Hl & Hk' & Hc & Hor); [lia|eapply ns_weaken; [|exact N]; fold T; lia|done|done|done|]. fold T in N1, Hl, Hk', Hor. cbn [mbind res_bind].
  assert (1 ≤ out_size / 72) as Hcap by (Z.to_euclidean_division_equations; lia). destruct l as [|x l].
  { cbn [length] in *. replace (72 * Z.of_nat 0 <=? 0) with true by done. destruct Hor as [?| ->]; [lia|]. rewrite (used_from_end s d T T) in * by lia. rewrite Hl. cbn. exists s1. split; [done|]. split; [eapply ns_weaken; [|exact N1]; lia|done]. }
  destruct (72 * zlen (x :: l) <=? 0) eqn:E; [exfalso; clear - E; apply Z.leb_le in E; rewrite length_cons in E; lia|]. assert (length (used_from s d idx T) = S (length l + length (used_from s d k' T)))%nat as Hlen by (rewrite Hl, length_app; done).
  assert (is_ino (d_fs s) d) as Hid by (unfold is_ino; lia). pose proof (ut_node _ _ _ _ _ (vw_file _ _ V1 d Hid)) as En.
  assert (used_from s1 d k' T = used_from s d k' T) as Eu by (eapply used_from_viewed; [exact N|done|done|lia|done]).
  specialize (IH s1 k'). rewrite En in IH. fold T in IH. rewrite Eu in IH. destruct IH as (s2 & -> & N2 & V2); [eapply ns_weaken; [|exact N1]; lia|done|lia|done|lia|]. cbn [mbind res_bind fst snd].
  exists s2. split; [|split; [done|by eapply viewed_trans] ]. rewrite Hl, fmap_app. do 3 f_equal. eapply (infos_viewed _ _ s s1 a d _ k' T); [exact N|done|done|lia|done|done].
Qed.

(** C0. Listing a directory gives its names: with a buffer for one entry or more,
    calling [getdents] from offset 0 with the offsets it returns, until it returns
    0, ends after as many calls as there are names and one more at most; what it
    stores is every name of the directory with its inode, each once, with the type
    and the size of the inode, and the file system is left alone.  On an inode that
    is not a directory it returns -1. *)
Theorem yulafs_getdents_lists cpu k s a d out_size junk :
  0 ≤ k → ns_ok cpu (k + 2 + 4 * Z.of_nat (size (names a d))) s a → 0 < d < total_inodes (sb (d_fs s)) → 72 ≤ out_size < 2147483648 →
  if decide (kind a d = YFS_TYPE_DIR) then
    ∃ l s', list_dir (S (size (names a d))) cpu d 0 out_size junk s = Ok (l, s') ∧ ns_ok cpu k s' a ∧ viewed s s' ∧ entry_of <$> l ≡ₚ map_to_list (names a d) ∧
      Forall (λ i, di_type i = kind a (di_inode i) ∧ di_size i = i_size (inode_of (d_fs s) (di_inode i))) l
  else ∃ s', yulafs_getdents cpu d 0 out_size junk s = Ok (-1, [], 0, s') ∧ ns_ok cpu k s' a ∧ viewed s s'.
Proof.
  intros Hk N Hi Hsz. case_decide as Hd.
  - pose proof (used_names _ _ _ _ _ N Hd) as Hp. destruct (dr_size _ _ _ _ (ns_dir _ _ _ _ N d Hd)) as [_ Hnb]. set (T := 64 * nblocks (inode_of (d_fs s) d)) in *.
    assert (length (used_from s d 0 T) = size (names a d)) as Hlen by (apply Permutation_length in Hp; by rewrite !length_fmap, length_map_to_list in Hp).
    destruct (list_dir_ok (S (size (names a d))) cpu k s a d 0 out_size junk Hk) as (s' & Hx & N' & V); [fold T; by rewrite Hlen|done|lia|done|fold T; lia|]. fold T in Hx.
    eexists _, s'. split; [exact Hx|]. split; [done|]. split; [done|]. split; [done|]. apply Forall_fmap, Forall_forall. intros x [Hx1 Hu]%used_from_elem.
    destruct (in_use_target _ _ _ _ _ x N Hd) as [_ Ht]; [unfold T, KMAX in *; lia|done|]. cbn. split; [by apply (ns_kind _ _ _ _ N)|done].
  - unfold yulafs_getdents, DIRENT_INFO. destruct (out_size <? 72) eqn:E; [lia|]. destruct (dsync_view cpu k s a d junk) as (s' & -> & N' & V & _); [done|eapply ns_weaken; [|exact N]; lia|done|]. cbn [mbind res_bind negb].
    rewrite (ns_kind _ _ _ _ N d Hi). destruct (kind a d =? YFS_TYPE_DIR) eqn:E2; [by apply Z.eqb_eq in E2|]. cbn [negb]. by exists s'.
Qed.

(** Three entries of the root after a directory was made, read one by one. *)
Lemma yulafs_getdents_lists_witness :
  (s ← demo_root; r ← yulafs_mkdir 0 1 path_d no_inode s; q ← list_dir 4 0 1 0 72 no_inode r.2; Ok q.1) =
    Ok [DirentInfo 1 2 4096 [46]; DirentInfo 1 2 4096 [46; 46]; DirentInfo 2 2 4096 [100] ] ∧
  ∃ s l s', demo_root = Ok s ∧ list_dir 3 0 1 0 72 no_inode s = Ok (l, s') ∧ entry_of <$> l ≡ₚ [ ([46; 46], 1); ([46], 1) ].
Proof.
  split; [by vm_compute|]. destruct (demo_root_ok 10) as (s & Hs & N & E1 & E2 & E3); [lia|].
  pose proof (yulafs_getdents_lists 0 0 s root_space 1 72 no_inode ltac:(lia)) as H. specialize (H N ltac:(rewrite E2; lia) ltac:(lia)). assert (size (names root_space 1) = 2%nat) as Esz by (by vm_compute). rewrite Esz in H.
  rewrite decide_True in H by done. destruct H as (l & s' & H1 & _ & _ & H2 & _). exists s, l, s'. split; [exact Hs|]. split; [exact H1|]. assert (map_to_list (names root_space 1) = [ ([46; 46], 1); ([46], 1) ]) as Em by (by vm_compute). by rewrite H2, Em.
Defined.
