(* ===== verification/YfsWhere.v ===== *)
(** * YulaFS: from an inode to its path

    [yulafs_inode_to_path] of [src/src/fs/yulafs.cpp] climbs from a directory to
    the root by [..] and looks for the name of each directory in its parent, with
    reads of eight entries.  Looking the path up gives the inode again. *)

From S2P Require Import Prelude Bdev YfsBitmap YfsWords Yfs YfsAlloc YfsOps YfsVolume YfsInode YfsForest YfsBlockMap YfsResolve YfsFile YfsBytes YfsFiles YfsTruncate YfsDcache YfsDir YfsEntry YfsNames YfsSpace YfsPath YfsNameOps YfsCreate YfsCalls YfsNameSpace YfsList.

(** [for (i = 0; i < count; i++)], [n] entries left: the name that is stored. *)
Fixpoint child_scan (n : nat) (entries : buffer) (i child_ino : Z) : res (option name) :=
  match n with
  | O => Ok None
  | S n =>
      ino ← rd32 entries (DIRENT * i);
      if negb (ino =? child_ino) then child_scan n entries (i + 1) child_ino
      else
        d ← name_eq entries (DIRENT * i + 4) dot;
        if (d : bool) then child_scan n entries (i + 1) child_ino
        else
          d ← name_eq entries (DIRENT * i + 4) dotdot;
          if (d : bool) then child_scan n entries (i + 1) child_ino
          else nm ← copy_name entries (DIRENT * i + 4); Ok (Some nm)
  end.

(** [for (;;)]: every turn passes an entry of the directory. *)
Fixpoint child_loop (fuel : nat) (cpu dir_ino child_ino offset : Z) (entries scratch : buffer) (s : dirs) : res (option name * dirs) :=
  match fuel with
  | O => Timeout
  | S fuel =>
      r ← read (d_mounted s) cpu dir_ino entries offset 512 scratch (d_sys s);
      let '(bytes, entries, x) := r in
      let s := with_sys x s in
      if bytes <=? 0 then Ok (None, s)
      else
        let count := bytes / DIRENT in
        if count <=? 0 then Ok (None, s)
        else
          f ← child_scan (Z.to_nat count) entries 0 child_ino;
          match f with
          | Some nm => Ok (Some nm, s)
          | None => child_loop fuel cpu dir_ino child_ino (u32 (offset + bytes)) entries scratch s
          end
  end.

(** [None] when -1 is returned. *)
Definition yulafs_find_child_name_in_dir (cpu dir_ino child_ino : Z) (entries scratch : buffer) (s : dirs) : res (option name * dirs) :=
  if (dir_ino =? 0) || (child_ino =? 0) then Ok (None, s)
  else child_loop (S (Z.to_nat (i_size (inode_of (d_fs s) dir_ino) / DIRENT))) cpu dir_ino child_ino 0 entries scratch s.

(** [while (cur != 1u)]; [parts] with the last one first, [None] when -1 is
    returned.  The array has 64 parts. *)
Fixpoint climb (fuel : nat) (cpu cur depth : Z) (parts : list name) (entries scratch : buffer) (s : dirs) : res (option (list name) * dirs) :=
  match fuel with
  | O => Timeout
  | S fuel =>
      if cur =? 1 then Ok (Some parts, s)
      else if 64 <=? depth then Ok (None, s)
      else
        r ← lookup_in_dir cpu cur dotdot s;
        let '(parent, s) := r in
        if parent <=? 0 then Ok (None, s)
        else
          f ← yulafs_find_child_name_in_dir cpu parent cur entries scratch s;
          match f with
          | (None, s) => Ok (None, s)
          | (Some nm, s) => if parent =? cur then Ok (None, s) else climb fuel cpu parent (depth + 1) (nm :: parts) entries scratch s
          end
  end.

(** [for (i = depth; i > 0; i--)]: [out] holds the bytes of [acc]. *)
Fixpoint join_parts (parts : list name) (out_size : Z) (acc : list Z) : option (list Z) :=
  match parts with
  | [] => Some acc
  | part :: parts =>
      if zlen part =? 0 then join_parts parts out_size acc
      else if (1 <? zlen acc) && (out_size <=? zlen acc + 1) then None
      else
        let acc := if 1 <? zlen acc then acc ++ [slash] else acc in
        if out_size <=? zlen acc + zlen part then None else join_parts parts out_size (acc ++ part)
  end.

(** The result and, unless it is -1, the string in [out]. *)
Definition yulafs_inode_to_path (cpu inode_id out_size : Z) (entries scratch : buffer) (s : dirs) : res (Z * list Z * dirs) :=
  if out_size =? 0 then Ok (-1, [], s)
  else
    let cur := if negb (inode_id =? 0) then inode_id else 1 in
    if cur =? 1 then if out_size <? 2 then Ok (-1, [], s) else Ok (1, [slash], s)
    else
      r ← climb 65 cpu cur 0 [] entries scratch s;
      match r with
      | (None, s) => Ok (-1, [], s)
      | (Some parts, s) =>
          if out_size <? 2 then Ok (-1, [], s)
          else match join_parts parts out_size [slash] with Some out => Ok (s32 (zlen out), out, s) | None => Ok (-1, [], s) end
      end.

(** ** Eight entries *)

Lemma slice_slice {A} (l : list A) o n p m : (p + m ≤ n)%nat → slice (slice l o n) p m = slice l (o + p) m.
Proof. intros H. unfold slice. rewrite skipn_firstn_comm, take_take, drop_drop. by rewrite Nat.min_l by lia. Qed.

(** What a read of eight entries gives. *)
Record eight (s : dirs) (d q : Z) (buf : buffer) : Prop := {
  e8_len : length buf = 512%nat;
  e8_ino j : 0 ≤ j < 8 → rd32 buf (DIRENT * j) = Ok (slot (d_fs s) (inode_of (d_fs s)) d (8 * q + j)).1;
  e8_name j : 0 ≤ j < 8 → slice buf (Z.to_nat (DIRENT * j + 4)) 60 = (slot (d_fs s) (inode_of (d_fs s)) d (8 * q + j)).2;
}.

Lemma eight_read cpu k s a d q entries scratch :
  0 ≤ k → ns_ok cpu (k + 2) s a → d_mounted s = true → kind a d = YFS_TYPE_DIR → length entries = 512%nat → 0 ≤ q ≤ 8 * nblocks (inode_of (d_fs s) d) →
  ∃ buf x, read (d_mounted s) cpu d entries (512 * q) 512 scratch (d_sys s) = Ok (if decide (q = 8 * nblocks (inode_of (d_fs s) d)) then 0 else 512, buf, x) ∧
    ns_ok cpu k (with_sys x s) a ∧ viewed s (with_sys x s) ∧ length buf = 512%nat ∧ (q < 8 * nblocks (inode_of (d_fs s) d) → eight s d q buf).
Proof.
  intros Hk N -> Hd Hlen Hq. pose proof (ns_dir _ _ _ _ N d Hd) as R. destruct (dr_size _ _ _ _ R) as [Hsize Hnb]. pose proof (ns_range _ _ _ _ N d Hd) as Hi.
  destruct (read_ok cpu k d entries (512 * q) 512 scratch (d_sys s)) as (buf & x & Hx & K & Hl & Hf); [done|apply N|apply N|done|lia|lia|lia|lia|].
  destruct (kept_view _ _ _ _ _ _ N K) as [N' V]. exists buf, x. unfold size_of in Hx, Hf. fold (d_fs s) in Hx, Hf. rewrite Hsize in Hx, Hf. rewrite Hx. split; [|split; [done|split; [done|split; [congruence|] ] ] ].
  { case_decide; [by replace (Z.max 0 (Z.min 512 (4096 * nblocks (inode_of (d_fs s) d) - 512 * q))) with 0 by lia|by replace (Z.max 0 (Z.min 512 (4096 * nblocks (inode_of (d_fs s) d) - 512 * q))) with 512 by lia]. }
  intros Hlt. replace (Z.max 0 (Z.min 512 (4096 * nblocks (inode_of (d_fs s) d) - 512 * q))) with 512 in Hf by lia.
  set (L := fleaf (d_fs s) (inode_of (d_fs s)) d (q / 8)). set (o := Z.to_nat (512 * (q `mod` 8))).
  assert (0 ≤ q / 8 < nblocks (inode_of (d_fs s) d) ∧ 0 ≤ q `mod` 8 < 8 ∧ q = 8 * (q / 8) + q `mod` 8) as (Hfb & Hm & Eq) by (Z.to_euclidean_division_equations; lia).
  destruct (dir_block_ok (d_fs s) (inode_of (d_fs s)) d (names a d) (q / 8)) as (_ & _ & _ & _ & _ & Hok & _); [apply N|apply N|unfold is_ino; lia|done|done|]. fold L in Hok. destruct Hok as [HL HLu].
  assert (buf = slice L o 512) as Eb.
  { apply list_eq. intros i. destruct (decide (i < 512)%nat) as [Hi5|Hi5].
    - specialize (Hf (Z.of_nat i) ltac:(lia)). rewrite Nat2Z.id, decide_True in Hf by lia. rewrite Hf, lookup_slice by done. unfold fbyte.
      assert ((512 * q + Z.of_nat i) / 4096 = q / 8 ∧ (512 * q + Z.of_nat i) `mod` 4096 = 512 * (q `mod` 8) + Z.of_nat i) as [-> ->] by (Z.to_euclidean_division_equations; lia). fold L.
      replace (Z.to_nat (512 * (q `mod` 8) + Z.of_nat i)) with (o + i)%nat by (unfold o; lia). destruct (lookup_lt_is_Some_2 L (o + i)) as [v Hv]; [unfold o; lia|]. rewrite Hv. by rewrite decide_True.
    - rewrite !lookup_ge_None_2; [done|rewrite length_slice; lia|lia]. }
  assert (∀ j, 0 ≤ j < 8 → 0 ≤ 8 * (q `mod` 8) + j < 64 ∧ slot (d_fs s) (inode_of (d_fs s)) d (8 * q + j) = (ent_ino L (8 * (q `mod` 8) + j), ent_bytes L (8 * (q `mod` 8) + j))) as Hslot.
  { intros j Hj. split; [lia|]. unfold slot. assert ((8 * q + j) / 64 = q / 8 ∧ (8 * q + j) `mod` 64 = 8 * (q `mod` 8) + j) as [-> ->] by (Z.to_euclidean_division_equations; lia). done. }
  split; [by rewrite Eb, length_slice; unfold o; lia| |]; intros j Hj; destruct (Hslot j Hj) as [Hr ->]; cbn [fst snd]; rewrite Eb.
  - unfold rd32, DIRENT. rewrite arr_slice_ok by (rewrite ?length_slice; unfold o; lia). cbn [mbind res_bind]. change (Z.to_nat 4) with 4%nat. rewrite slice_slice by lia. unfold ent_ino, word. do 3 f_equal. unfold o. lia.
  - unfold DIRENT, ent_bytes. rewrite slice_slice by lia. f_equal. unfold o. lia.
Qed.

(** ** The name of a directory *)

(** Slot [k] is an entry of [child] that is not [.] or [..]. *)
Definition child_at (s : dirs) (d child k : Z) : Prop :=
  let e := slot (d_fs s) (inode_of (d_fs s)) d k in e.1 = child ∧ c_string e.2 ≠ dot ∧ c_string e.2 ≠ dotdot.

Definition names_child (a : nspace) (d child : Z) (nm : name) : Prop := names a d !! nm = Some child ∧ nm ≠ dot ∧ nm ≠ dotdot.

Lemma name_eq_slice buf off nm : Forall (λ c, 0 < c < 256) nm → 0 ≤ off → 0 ∈ slice buf (Z.to_nat off) 60 → name_eq buf off nm = Ok (bool_decide (c_string (slice buf (Z.to_nat off) 60) = nm)).
Proof.
  intros Hn Ho H0. assert (drop (Z.to_nat off) buf = slice buf (Z.to_nat off) 60 ++ drop 60 (drop (Z.to_nat off) buf)) as E by (unfold slice; by rewrite take_drop).
  rewrite name_eq_ok by (done || (rewrite E; apply elem_of_app; by left)). by rewrite E, c_string_app.
Qed.

Lemma child_scan_ok n cpu k s a d q buf i child :
  ns_ok cpu k s a → kind a d = YFS_TYPE_DIR → eight s d q buf → child ≠ 0 → 0 ≤ q < 8 * nblocks (inode_of (d_fs s) d) → 0 ≤ i → i + Z.of_nat n = 8 →
  ∃ r, child_scan n buf i child = Ok r ∧ match r with Some nm => names_child a d child nm | None => ∀ j, i ≤ j < 8 → ¬ child_at s d child (8 * q + j) end.
Proof.
  intros N Hd E8 Hc Hq. destruct (dr_size _ _ _ _ (ns_dir _ _ _ _ N d Hd)) as [_ Hnb]. revert i. induction n as [|n IH]; intros i Hi Hn; cbn [child_scan].
  { exists None. split; [done|]. intros; lia. }
  rewrite (e8_ino _ _ _ _ E8) by lia. cbn [mbind res_bind]. pose proof (e8_name _ _ _ _ E8 i ltac:(lia)) as En. set (e := slot (d_fs s) (inode_of (d_fs s)) d (8 * q + i)) in *.
  assert (∃ r, child_scan n buf (i + 1) child = Ok r ∧ match r with Some nm => names_child a d child nm | None => ∀ j, i + 1 ≤ j < 8 → ¬ child_at s d child (8 * q + j) end) as IH' by (apply IH; lia).
  assert (¬ child_at s d child (8 * q + i) → ∃ r, child_scan n buf (i + 1) child = Ok r ∧ match r with Some nm => names_child a d child nm | None => ∀ j, i ≤ j < 8 → ¬ child_at s d child (8 * q + j) end) as Hnext.
  { intros Hno. destruct IH' as (r & Hr & H). exists r. split; [done|]. destruct r; [done|]. intros j Hj. destruct (decide (j = i)) as [->|]; [done|apply H; lia]. }
  destruct (e.1 =? child) eqn:E1; cbn [negb]; [|apply Hnext; intros [H _]; apply Z.eqb_neq in E1; by apply E1]. apply Z.eqb_eq in E1. assert (0 ≤ 8 * q + i < KMAX) as Hk by (unfold KMAX; lia).
  assert (in_use s d (8 * q + i)) as Hu by (unfold in_use; fold e; by rewrite E1). destruct (in_use_target _ _ _ _ _ _ N Hd Hk Hu) as [Hname _]. fold e in Hname.
  assert (0 ∈ e.2) as H0 by (apply (sr_ent _ _ (dr_slots _ _ _ _ (ns_dir _ _ _ _ N d Hd)) _ Hk Hu)). unfold DIRENT in *.
  rewrite (name_eq_slice buf _ dot) by (lia || (by rewrite En) || apply dot_ok). rewrite En. cbn [mbind res_bind].
  case_bool_decide as Ed; [apply Hnext; intros (_ & ? & _); done|].
  rewrite (name_eq_slice buf _ dotdot) by (lia || (by rewrite En) || apply dotdot_ok). rewrite En. cbn [mbind res_bind].
  case_bool_decide as Ed2; [apply Hnext; intros (_ & _ & ?); done|]. rewrite copy_name_ok by (by rewrite En). rewrite En. cbn [mbind res_bind]. exists (Some (c_string e.2)). split; [done|]. split; [by rewrite Hname, E1|done].
Qed.

Lemma child_at_viewed s s' d child k : viewed s s' → is_ino (d_fs s) d → 0 ≤ k < KMAX → child_at s' d child k ↔ child_at s d child k.
Proof. intros V Hd Hk. unfold child_at. by rewrite (slot_viewed s s'). Qed.

Lemma child_loop_ok fuel cpu k s a d q child entries scratch :
  let nb := nblocks (inode_of (d_fs s) d) in
  0 ≤ k → ns_ok cpu (k + 2 * (8 * nb - q + 1)) s a → d_mounted s = true → kind a d = YFS_TYPE_DIR → child ≠ 0 → length entries = 512%nat → 0 ≤ q ≤ 8 * nb → 8 * nb - q < Z.of_nat fuel →
  (∀ j, 0 ≤ j < 8 * q → ¬ child_at s d child j) → (∃ nm, names_child a d child nm) →
  ∃ nm s', child_loop fuel cpu d child (512 * q) entries scratch s = Ok (Some nm, s') ∧ names_child a d child nm ∧ ns_ok cpu k s' a ∧ viewed s s'.
Proof.
  intros nb Hk. unfold nb. clear nb. revert s q entries. induction fuel as [|fuel IH]; intros s q entries N Hmt Hd Hc Hlen Hq Hfuel Hseen Hex; [lia|]. cbn [child_loop].
  pose proof (ns_dir _ _ _ _ N d Hd) as R. destruct (dr_size _ _ _ _ R) as [_ Hnb]. pose proof (ns_range _ _ _ _ N d Hd) as Hi. assert (is_ino (d_fs s) d) as Hid by (unfold is_ino; lia). set (nb := nblocks (inode_of (d_fs s) d)) in *.
  destruct (eight_read cpu (k + 2 * (8 * nb - q)) s a d q entries scratch) as (buf & x & -> & N1 & V1 & Hlb & H8); [lia|eapply ns_weaken; [|exact N]; lia|done|done|done|done|]. fold nb in H8. fold nb. cbn [mbind res_bind].
  destruct (decide (q = 8 * nb)) as [->|Hne].
  { exfalso. destruct Hex as (nm & Hnm & H1 & H2). apply (sr_names _ _ (dr_slots _ _ _ _ R)) in Hnm as (_ & j & Hj & E1 & E2). destruct (decide (j < 64 * nb)) as [Hlt|Hlt].
    - apply (Hseen j); [lia|]. unfold child_at. by rewrite E1, E2.
    - destruct (slot_split j Hj) as (Hfb & Hjm & Ej). apply Hc. rewrite <-E1. unfold slot. cbn [fst]. rewrite (dr_end _ _ _ _ R) by (unfold nb in *; lia). by apply ent_zeros. }
  cbn [Z.leb Z.compare]. change (512 / DIRENT) with 8. cbn [Z.leb Z.compare]. change (Z.to_nat 8) with 8%nat.
  destruct (child_scan_ok 8 cpu _ s a d q buf 0 child N Hd) as (r & -> & Hr); [apply H8; lia|done|unfold nb in *; lia|lia|lia|]. cbn [mbind res_bind]. destruct r as [nm|].
  { exists nm, (with_sys x s). split; [done|]. split; [done|]. split; [eapply ns_weaken; [|exact N1]; lia|done]. }
  pose proof (ut_node _ _ _ _ _ (vw_file _ _ V1 d Hid)) as En. rewrite u32_small by (unfold nb in *; lia). replace (512 * q + 512) with (512 * (q + 1)) by lia.
  specialize (IH (with_sys x s) (q + 1) buf). rewrite En in IH. fold nb in IH. destruct IH as (nm & s' & Hx & Hnm & N' & V'); [eapply ns_weaken; [|exact N1]; lia|done|done|done|done|lia|lia| |done|].
  { intros j Hj. rewrite (child_at_viewed s (with_sys x s)) by (done || (unfold KMAX, nb in *; lia)). destruct (decide (j < 8 * q)); [apply Hseen; lia|]. replace j with (8 * q + (j - 8 * q)) by lia. apply Hr. lia. }
  exists nm, s'. split; [done|]. split; [done|]. split; [done|by eapply viewed_trans].
Qed.

(** ** Up to the root *)

(** A name that is a component of a path. *)
Definition proper (nm : name) : Prop := nm ≠ [] ∧ (slash ∉ nm) ∧ nm ≠ dot ∧ nm ≠ dotdot.

(** Directory [i] is [n] levels below the root: every directory on the way has
    its parent under [..], and the parent has it under a proper name. *)
Fixpoint rooted (a : nspace) (n : nat) (i : Z) : Prop :=
  match n with
  | O => i = 1
  | S n => i ≠ 1 ∧ kind a i = YFS_TYPE_DIR ∧ ∃ p, names a i !! dotdot = Some p ∧ p ≠ i ∧ kind a p = YFS_TYPE_DIR ∧
      (∃ nm, names_child a p i nm) ∧ (∀ nm, names_child a p i nm → proper nm) ∧ rooted a n p
  end.

(** The parts lead from [cur] to [i]. *)
Fixpoint leads (a : nspace) (cur : Z) (parts : list name) (i : Z) : Prop :=
  match parts with
  | [] => cur = i
  | nm :: parts => kind a cur = YFS_TYPE_DIR ∧ proper nm ∧ name_ok nm ∧ ∃ c, names a cur !! nm = Some c ∧ leads a c parts i
  end.

(** Names on the disk are C strings of less than 60 bytes. *)
Lemma names_bytes cpu k s a d nm i : ns_ok cpu k s a → kind a d = YFS_TYPE_DIR → names a d !! nm = Some i → nm ≠ [] → name_ok nm.
Proof.
  intros N Hd Hn Hne. pose proof (ns_dir _ _ _ _ N d Hd) as R. pose proof (ns_range _ _ _ _ N d Hd) as Hi. apply (sr_names _ _ (dr_slots _ _ _ _ R)) in Hn as (Hi0 & j & Hj & E1 & E2).
  assert (0 ∈ (slot (d_fs s) (inode_of (d_fs s)) d j).2) as H0 by (apply (sr_ent _ _ (dr_slots _ _ _ _ R) _ Hj); by rewrite E1). pose proof (c_string_long _ H0) as Hl. destruct (slot_split j Hj) as (Hfb & _).
  assert (map_ok (fleaf (d_fs s) (inode_of (d_fs s)) d (j / 64))) as [HL HU] by (apply fleaf_ok; [apply N|by apply small_fb]).
  assert (length (slot (d_fs s) (inode_of (d_fs s)) d j).2 ≤ 60)%nat by (unfold slot, ent_bytes, slice; cbn [snd]; rewrite length_take; lia). rewrite E2 in Hl. split; [|destruct nm; [done|cbn in *; lia] ].
  rewrite <-E2. apply c_string_bytes. unfold slot, ent_bytes, slice. cbn [snd]. by apply Forall_take, Forall_drop.
Qed.

Lemma climb_ok n fuel cpu k B s a cur depth parts i entries scratch :
  0 ≤ k → ns_ok cpu (k + Z.of_nat n * (16 * B + 4)) s a → d_mounted s = true → length entries = 512%nat → (∀ d, kind a d = YFS_TYPE_DIR → nblocks (inode_of (d_fs s) d) ≤ B) →
  rooted a n cur → leads a cur parts i → (n < fuel)%nat → 0 ≤ depth → depth + Z.of_nat n ≤ 64 →
  ∃ parts' s', climb fuel cpu cur depth parts entries scratch s = Ok (Some (parts' ++ parts), s') ∧ leads a 1 (parts' ++ parts) i ∧ length parts' = n ∧ ns_ok cpu k s' a ∧ viewed s s'.
Proof.
  intros Hk. revert fuel s cur depth parts. induction n as [|n IH]; intros fuel s cur depth parts N Hmt Hlen HB Hroot Hlead Hfuel Hdep Hmax; (destruct fuel as [|fuel]; [lia|]); cbn [climb].
  { cbn in Hroot. subst cur. cbn [Z.eqb Pos.eqb]. exists [], s. split; [done|]. split; [done|]. split; [done|]. split; [eapply ns_weaken; [|exact N]; lia|apply viewed_refl]. }
  destruct Hroot as (Hne & Hd & p & Hp & Hpc & Hdp & Hex & Hprop & Hroot). destruct (cur =? 1) eqn:E1; [lia|]. destruct (64 <=? depth) eqn:E64; [lia|].
  pose proof (HB p Hdp) as HBp. pose proof (ns_range _ _ _ _ N cur Hd) as Hi. pose proof (ns_range _ _ _ _ N p Hdp) as Hip. assert (is_ino (d_fs s) p) as Hpi by (unfold is_ino; lia).
  destruct (dr_size _ _ _ _ (ns_dir _ _ _ _ N p Hdp)) as [Hsize Hnb].
  rewrite Nat2Z.inj_succ, Z.mul_succ_l in N. assert (0 ≤ Z.of_nat n * (16 * B + 4)) as Hcost by (apply Z.mul_nonneg_nonneg; lia). set (C := Z.of_nat n * (16 * B + 4)) in *.
  destruct (lookup_in_dir_view cpu (k + C + (16 * B + 2)) s a cur dotdot) as (s1 & -> & N1 & V1); [lia|eapply ns_weaken; [|exact N]; lia|done|apply dotdot_ok|]. rewrite Hp. cbn [answer default from_option id mbind res_bind].
  destruct (p <=? 0) eqn:Ep; [lia|]. unfold yulafs_find_child_name_in_dir. destruct ((p =? 0) || (cur =? 0)) eqn:Ez; [lia|].
  pose proof (ut_node _ _ _ _ _ (vw_file _ _ V1 p Hpi)) as En.
  destruct (child_loop_ok (S (Z.to_nat (i_size (inode_of (d_fs s1) p) / DIRENT))) cpu (k + C) s1 a p 0 cur entries scratch) as (nm & s2 & Hx & Hnm & N2 & V2);
    [lia|rewrite En; eapply ns_weaken; [|exact N1]; lia|by rewrite (vw_mounted _ _ V1)|done|lia|done|rewrite En; lia| |intros; lia|done|].
  { rewrite En, Hsize. unfold DIRENT. Z.to_euclidean_division_equations. lia. }
  change (512 * 0) with 0 in Hx. rewrite Hx. cbn [mbind res_bind]. destruct (p =? cur) eqn:Epc; [lia|].
  pose proof (viewed_trans _ _ _ V1 V2) as V. destruct Hnm as (Hnm & Hd1 & Hd2). destruct (Hprop nm) as (P1 & P2 & _); [by split|].
  destruct (IH fuel s2 p (depth + 1) (nm :: parts)) as (parts' & s3 & Hx3 & Hl3 & Hlen3 & N3 & V3); [done|by rewrite (vw_mounted _ _ V)|done| |done| |lia|lia|lia|].
  { intros d Hdd. pose proof (ns_range _ _ _ _ N d Hdd) as Hdr. rewrite (ut_node _ _ _ _ _ (vw_file _ _ V d ltac:(unfold is_ino; lia))). by apply HB. }
  { cbn. split; [done|]. split; [by split|]. split; [by eapply (names_bytes _ _ _ _ p nm cur N)|]. by exists cur. }
  exists (parts' ++ [nm]), s3. rewrite <-app_assoc. cbn [app]. split; [done|]. split; [done|]. split; [rewrite length_app; cbn; lia|]. split; [done|by eapply viewed_trans].
Qed.

(** ** The string *)

Lemma split_app x y : split (x ++ slash :: y) = split x ++ split y.
Proof.
  induction x as [|c x IH]; [done|]. cbn [app split]. case_if; [by rewrite IH|]. rewrite IH. rewrite (split_component x). done.
Qed.

Lemma components_app x y : components (x ++ slash :: y) = components x ++ components y.
Proof. unfold components. by rewrite split_app, filter_app. Qed.

Lemma components_one nm : nm ≠ [] → slash ∉ nm → components nm = [nm].
Proof.
  intros Hne Hs. assert (split nm = [nm]) as E.
  { clear Hne. induction nm as [|c nm IH]; [done|]. apply not_elem_of_cons in Hs as [H1 H2]. cbn. case_if; [by destruct H1; lia|]. by rewrite IH. }
  unfold components. rewrite E. by rewrite filter_cons_True.
Qed.

Lemma join_parts_ok a cur parts i out_size acc :
  leads a cur parts i → acc ≠ [] → head acc = Some slash → zlen acc + 60 * zlen parts < out_size →
  ∃ out, join_parts parts out_size acc = Some (acc ++ out) ∧ components (acc ++ out) = components acc ++ parts ∧ zlen (acc ++ out) ≤ zlen acc + 60 * zlen parts ∧ Forall (λ c, 0 < c < 256) out.
Proof.
  intros Hl Hne Hh. revert cur acc Hl Hne Hh. induction parts as [|nm parts IH]; intros cur acc Hl Hne Hh Hsz; cbn [join_parts].
  { exists []. rewrite !app_nil_r. split; [done|]. split; [done|]. split; [lia|constructor]. }
  destruct Hl as (_ & (P1 & P2 & _) & [Hb Hln] & c & _ & Hl). rewrite length_cons in Hsz. destruct (zlen nm =? 0) eqn:E0; [lia|].
  destruct ((1 <? zlen acc) && (out_size <=? zlen acc + 1)) eqn:E1; [lia|]. destruct acc as [|c0 acc]; [done|]. injection Hh as ->. set (acc' := if 1 <? zlen (slash :: acc) then _ else _).
  assert (∃ sep, acc' = (slash :: acc) ++ sep ∧ (length sep ≤ 1)%nat ∧ Forall (λ c, 0 < c < 256) sep ∧ components (acc' ++ nm) = components (slash :: acc) ++ [nm]) as (sep & Ea & Hsep & Hsb & Hcomp).
  { unfold acc'. destruct (1 <? zlen (slash :: acc)) eqn:El.
    - exists [slash]. split; [done|]. split; [done|]. split; [by repeat constructor|]. rewrite <-app_assoc. change ([slash] ++ nm) with (slash :: nm). by rewrite (components_app (slash :: acc) nm), (components_one nm).
    - exists []. rewrite app_nil_r. split; [done|]. split; [cbn; lia|]. split; [constructor|]. destruct acc as [|? acc]; [|exfalso; apply Z.ltb_ge in El; rewrite !length_cons in El; lia]. change ([slash] ++ nm) with ([] ++ slash :: nm). rewrite (components_app [] nm), (components_one nm) by done. done. }
  rewrite Ea. rewrite length_app, Nat2Z.inj_add. destruct (out_size <=? zlen (slash :: acc) + zlen sep + zlen nm) eqn:E2; [lia|].
  destruct (IH c (((slash :: acc) ++ sep) ++ nm) Hl) as (out & Ho & Hc & Hz & Hf); [done|done|rewrite !length_app; lia|]. exists (sep ++ nm ++ out).
  assert ((slash :: acc) ++ sep ++ nm ++ out = (((slash :: acc) ++ sep) ++ nm) ++ out) as Eo by (by rewrite !app_assoc). rewrite Eo. split; [exact Ho|].
  split; [by rewrite Hc, <-Ea, Hcomp, <-app_assoc|]. split; [rewrite !length_app in *; rewrite (length_cons nm parts); lia|]. by repeat (apply Forall_app; split).
Qed.

(** ** The lookup *)

Lemma leads_walk a cur parts i : leads a cur parts i → parts ≠ [] → through_dirs a cur parts ∧ ∃ d nm, awalk a cur parts = Some (d, nm) ∧ names a d !! nm = Some i.
Proof.
  revert cur. induction parts as [|nm parts IH]; intros cur Hl Hne; [done|]. destruct Hl as (Hd & (P1 & P2 & P3 & P4) & [Hb Hln] & c & Hc & Hl).
  cbn [through_dirs awalk]. rewrite (bool_decide_false (60 ≤ length nm)%nat), (bool_decide_false (nm = dot)) by (done || lia). destruct parts as [|nm' parts].
  { cbn in Hl. subst c. split; [done|]. by exists cur, nm. }
  destruct (IH c Hl) as [Ht Hw]; [done|]. rewrite Hc. split; [|done]. split; [done|]. by intros ? [= <-].
Qed.

(** C0. The path of a directory leads back to it: for a directory at most 64
    levels below the root, with room in the buffer for 60 bytes a level,
    [yulafs_inode_to_path] stores a path and returns its length, nothing in the
    file system changes, and [yulafs_lookup] of that path, whatever the current
    directory, returns the inode. *)
Theorem yulafs_inode_to_path_roundtrip cpu k cwd n i s a out_size entries scratch junk :
  0 ≤ k → ns_ok cpu (k + Z.of_nat n * 16777340 + 4) s a → d_mounted s = true → length entries = 512%nat → rooted a n i → (n ≤ 64)%nat → 60 * Z.of_nat n + 1 < out_size →
  ∃ path s1 s2, yulafs_inode_to_path cpu i out_size entries scratch s = Ok (zlen path, path, s1) ∧ viewed s s1 ∧
    yulafs_lookup cpu cwd path junk s1 = Ok (i, s2) ∧ ns_ok cpu k s2 a.
Proof.
  intros Hk N Hmt Hlen Hroot Hn Hsz. unfold yulafs_inode_to_path. destruct (out_size =? 0) eqn:Eo; [lia|]. destruct (out_size <? 2) eqn:Eo2; [lia|]. cbv zeta. destruct n as [|n].
  { cbn in Hroot. subst i. cbn [Z.eqb negb Pos.eqb]. exists [slash], s, s. split; [done|]. split; [apply viewed_refl|]. split; [done|]. eapply ns_weaken; [|exact N]; lia. }
  assert (i ≠ 1 ∧ kind a i = YFS_TYPE_DIR) as [Hi1 Hd] by (split; apply Hroot). pose proof (ns_range _ _ _ _ N i Hd) as Hi. destruct (i =? 0) eqn:E0; [lia|]. cbn [negb]. destruct (i =? 1) eqn:E1; [lia|].
  destruct (climb_ok (S n) 65 cpu (k + 120 * Z.of_nat (S n) + 4) 1048576 s a i 0 [] i entries scratch) as (parts & s1 & -> & Hl & Hnp & N1 & V1);
    [lia|eapply ns_weaken; [|exact N]; lia|done|done| |done|done|lia|lia|lia|].
  { intros d Hdd. destruct (dr_size _ _ _ _ (ns_dir _ _ _ _ N d Hdd)) as [_ ?]. lia. }
  rewrite app_nil_r in Hl |- *. cbn [mbind res_bind]. destruct (join_parts_ok a 1 parts i out_size [slash] Hl) as (out & -> & Hc & Hz & Hb); [done|done|rewrite Hnp; cbn; lia|].
  set (path := [slash] ++ out) in *. change (components [slash]) with ([] : list name) in Hc. cbn [app] in Hc. change (zlen [slash]) with 1 in Hz.
  destruct parts as [|nm parts]; [done|]. destruct (leads_walk a 1 (nm :: parts) i Hl) as (Ht & d & nm' & Hw & Hn'); [done|]. rewrite <-Hc in Ht, Hw.
  destruct (yulafs_lookup_ok cpu k s1 a cwd path junk Hk) as (s2 & Hx & N2 & _); [eapply ns_weaken; [|exact N1]; lia|split; [by constructor|done]|].
  exists path, s1, s2. split; [by rewrite s32_small by lia|]. split; [done|]. split; [|done]. rewrite Hx. do 2 f_equal. unfold alookup. rewrite (bool_decide_false (path = [])) by done.
  rewrite (bool_decide_false (path = [slash])) by (intros E; rewrite E in Hc; discriminate Hc). unfold aresolve. change (start_of cwd path) with 1. rewrite Hw. cbn. by rewrite Hn'.
Qed.

(** ** A concrete directory *)

Lemma demo_allowed_mkdir : nop_ok 128 1 root_space (NMkdir path_d).
Proof. split; [split; [repeat constructor|by vm_compute]|]. exists 2. split; [lia|done]. Qed.

Lemma demo_rooted refs r a : nstep refs 1 (NMkdir path_d) root_space r a → rooted a 1 r.
Proof.
  cbn [nstep]. unfold acreate. assert (aresolve root_space 1 path_d false = Some (1, [100])) as -> by (by vm_compute).
  replace (names root_space 1 !! [100]) with (None : option Z) by (by vm_compute). intros (Hr & Hk & ->). assert (r ≠ 1) as Hr1 by (intros ->; done).
  assert (names (alink 1 [100] r (anew r YFS_TYPE_DIR 1 root_space)) 1 = <[ [100] := r]> (dots_map 1 1)) as E1 by (cbn; by repeat (case_decide; try congruence)).
  assert (names (alink 1 [100] r (anew r YFS_TYPE_DIR 1 root_space)) r = dots_map r 1) as Er by (cbn; by repeat (case_decide; try congruence)).
  cbn [rooted]. split; [done|]. split; [cbn; by repeat (case_decide; try congruence)|]. exists 1. rewrite Er. split; [unfold dots_map; by rewrite lookup_insert_eq|]. split; [done|].
  split; [cbn; by repeat (case_decide; try congruence)|]. unfold names_child. rewrite E1. split; [exists [100]; by rewrite lookup_insert_eq|]. split; [|done].
  intros nm (Hn & H1 & H2). unfold dots_map in Hn. rewrite !lookup_insert_Some, lookup_empty in Hn. destruct Hn as [ [<- _]|[_ [ [<- _]|[_ [ [<- _]|[_ ?] ] ] ] ] ]; [|done..].
  split; [done|]. split; [|done]. by apply (bool_decide_unpack _).
Qed.

(** The directory [/d/f] of the small disk. *)
Lemma yulafs_inode_to_path_roundtrip_witness :
  (s ← demo_root; r ← yulafs_mkdir 0 1 path_d no_inode s; r ← yulafs_mkdir 0 1 path_f no_inode r.2;
   q ← yulafs_inode_to_path 0 3 128 (replicate 512 7) (replicate 4096 7) r.2; Ok q.1) = Ok (4, path_f) ∧
  ∃ s r s', demo_root = Ok s ∧ yulafs_mkdir 0 1 path_d no_inode s = Ok (r, s') ∧
    ∃ path s1 s2, yulafs_inode_to_path 0 r 128 (replicate 512 7) (replicate 4096 7) s' = Ok (zlen path, path, s1) ∧ yulafs_lookup 0 1 path no_inode s1 = Ok (r, s2).
Proof.
  split; [by vm_compute|]. destruct (demo_root_ok (16777344 + nstamps (NMkdir path_d))) as (s & Hs & N & E1 & E2 & E3); [by vm_compute|].
  destruct (nexec_ok 0 16777344 s root_space 1 no_inode (NMkdir path_d)) as (r & s' & a & Hx & Hst & N' & _); [lia|exact N|rewrite E2; apply demo_allowed_mkdir|eapply Z.le_trans; [|exact E3]; by vm_compute|].
  exists s, r, s'. split; [exact Hs|]. split; [exact Hx|]. assert (rooted a 1 r) as Hroot by (exact (demo_rooted _ _ _ Hst)).
  assert ((s ← demo_root; r ← yulafs_mkdir 0 1 path_d no_inode s; Ok (d_mounted r.2)) = Ok true) as Hm by (by vm_compute). rewrite Hs in Hm. cbn [mbind res_bind] in Hm. cbn [nexec] in Hx. rewrite Hx in Hm. injection Hm as Hm.
  destruct (yulafs_inode_to_path_roundtrip 0 0 1 1 r s' a 128 (replicate 512 7) (replicate 4096 7) no_inode) as (path & s1 & s2 & H1 & _ & H2 & _); [lia|exact N'|exact Hm|by rewrite length_replicate|exact Hroot|lia|lia|].
  exists path, s1, s2. split; [exact H1|exact H2].
Defined.
