(* ===== verification/YfsMount.v ===== *)
(** * YulaFS: formatting and mounting

    [format], [orphan_inode_cleanup] and [init] of [src/src/fs/yulafs.cpp], on CPU
    [cpu].  [bcache_init], [bcache_sync] and the registration of the shrinker do
    nothing to the disk the file system sees. *)

From S2P Require Import Prelude Bdev YfsBitmap YfsWords Yfs YfsAlloc YfsOps YfsVolume YfsInode YfsForest YfsBlockMap YfsFile YfsDcache YfsDir.

Definition zero_page : buffer := replicate 4096 0.

(** [for (i = 0; i < n; i++) bcache_write(start + i, zero)] *)
Fixpoint write_zeros (n : nat) (start : Z) (y : yfs) : yfs :=
  match n with O => y | S n => write_zeros n (u32 (start + 1)) (bwrite start zero_page y) end.

(** The superblock of a disk of [disk_blocks_4k] blocks. *)
Definition format_sb (disk_blocks_4k : Z) : superblock :=
  let bits := YFS_BLOCK_SIZE * 8 in
  let total_inodes := if disk_blocks_4k / 8 <? 128 then 128 else disk_blocks_4k / 8 in
  let sec_per_map := u32 (disk_blocks_4k + bits - 1) / bits in
  let sec_per_imap := u32 (total_inodes + bits - 1) / bits in
  let sec_inodes := u32 (total_inodes * 128 + YFS_BLOCK_SIZE - 1) / YFS_BLOCK_SIZE in
  let map_block_start := u32 (2 + sec_per_imap) in
  let inode_table_start := u32 (map_block_start + sec_per_map) in
  let data_start := u32 (inode_table_start + sec_inodes) in
  Superblock YFS_MAGIC YFS_VERSION YFS_BLOCK_SIZE disk_blocks_4k total_inodes (u32 (disk_blocks_4k - data_start)) total_inodes
    2 map_block_start inode_table_start data_start (replicate 4052 0).

(** [inode_state_init_or_panic] *)
Definition inode_state_init_or_panic (s : dirs) : res dirs :=
  let n := total_inodes (sb (d_fs s)) in
  if n =? 0 then Panic
  else
    let '(ok, y) := kmalloc (d_fs s) in
    if negb ok then Panic
    else Ok (Dirs (Opened (with_fs y (d_sys s)) (replicate (Z.to_nat n) 0)) (d_cache s) (d_mounted s)).

Definition dgroups_init (s : dirs) : res dirs := y ← groups_init_or_panic (d_fs s); Ok (with_yfs y s).

Definition set_mounted (s : dirs) : dirs := Dirs (d_open s) (d_cache s) true.

Definition bin : list Z := [47; 98; 105; 110].
Definition home : list Z := [47; 104; 111; 109; 101].
Definition dev : list Z := [47; 100; 101; 118].

(** The empty disk: the maps, the inode table and the root. *)
Definition format_disk (cpu disk_blocks_4k : Z) (s : dirs) : res dirs :=
  let b := format_sb disk_blocks_4k in
  let y := with_sb b (d_fs s) in
  let y := write_zeros (Z.to_nat (map_block_start b - map_inode_start b)) (map_inode_start b) y in
  let y := write_zeros (Z.to_nat (inode_table_start b - map_block_start b)) (map_block_start b) y in
  let y := write_zeros (Z.to_nat (data_start b - inode_table_start b)) (inode_table_start b) y in
  map ← set_bit zero_page 0;
  map ← set_bit map 1;
  let y := bwrite (map_inode_start b) map y in
  let y := with_sb (set_free (free_blocks b) (u32 (free_inodes b - 2)) b) y in
  r ← alloc_block y;
  buf ← dots 1 1;
  let root := Inode 1 YFS_TYPE_DIR YFS_BLOCK_SIZE 0 0 0 (r.1 :: replicate 11 0) 0 0 0 (replicate 44 0) in
  w ← dsync cpu 1 root true (with_yfs (bwrite r.1 buf r.2) s);
  Ok (with_yfs (flush_sb (d_fs w.2)) w.2).

Definition yulafs_format (cpu cwd disk_blocks_4k : Z) (junk : inode) (s : dirs) : res dirs :=
  let '(zero, y) := kmalloc (d_fs s) in
  let '(map, y) := kmalloc y in
  let '(ents, y) := kmalloc y in
  let s := with_yfs y s in
  if negb zero || negb map || negb ents then Ok s
  else
    s ← format_disk cpu disk_blocks_4k s;
    s ← inode_state_init_or_panic (set_mounted s);
    s ← dgroups_init s;
    let s := with_cache (dcache_clear_all (d_cache s)) s in
    a ← yulafs_mkdir cpu cwd bin junk s;
    a ← yulafs_mkdir cpu cwd home junk a.2;
    a ← yulafs_mkdir cpu cwd dev junk a.2;
    Ok a.2.

(** ** Orphans *)

(** One inode whose bit is set; the flag is looked at again under the lock. *)
Definition clean_orphan (cpu ino : Z) (s : dirs) : res dirs :=
  r ← dsync cpu ino no_inode false s;
  let '(ok, node, s) := r in
  if negb ok || (Z.land (i_flags node) YFS_INODE_F_DEFERRED_DELETE =? 0) then Ok s
  else
    r ← dsync cpu ino node false s;
    let '(ok, node, s) := r in
    if negb ok || (Z.land (i_flags node) YFS_INODE_F_DEFERRED_DELETE =? 0) then Ok s
    else q ← inode_finalize_deferred_delete_locked cpu ino node (d_sys s); Ok (with_sys q.2 s).

(** [for (bit = 0; bit < bits_per_block; bit++)], [n] bits left. *)
Fixpoint orphan_bits (n : nat) (cpu blk bit : Z) (map : buffer) (s : dirs) : res dirs :=
  match n with
  | O => Ok s
  | S n =>
      let ino := u32 (blk * BLOCKS_PER_GROUP + bit) in
      s ← (if (ino =? 0) || (total_inodes (sb (d_fs s)) <=? ino) then Ok s
           else set ← chk_bit map bit; if (set : bool) then clean_orphan cpu ino s else Ok s);
      orphan_bits n cpu blk (bit + 1) map s
  end.

Fixpoint orphan_blocks (n : nat) (cpu blk : Z) (s : dirs) : res dirs :=
  match n with
  | O => Ok s
  | S n =>
      s ← match disk (d_fs s) !! u32 (map_inode_start (sb (d_fs s)) + blk) with
          | None => Ok s
          | Some map => orphan_bits (Z.to_nat BLOCKS_PER_GROUP) cpu blk 0 map s
          end;
      orphan_blocks n cpu (blk + 1) s
  end.

Definition orphan_inode_cleanup (cpu : Z) (s : dirs) : res dirs :=
  if negb (d_mounted s) || negb (magic (sb (d_fs s)) =? YFS_MAGIC) then Ok s
  else if negb (zlen (open_refs (d_open s)) =? total_inodes (sb (d_fs s))) then Ok s
  else
    let map_blocks := u32 (total_inodes (sb (d_fs s)) + BLOCKS_PER_GROUP - 1) / BLOCKS_PER_GROUP in
    let '(ok, y) := kmalloc (d_fs s) in
    if negb ok then Panic else orphan_blocks (Z.to_nat map_blocks) cpu 0 (with_yfs y s).

(** ** Mounting *)

Definition fresh_cache : icache := ICache (replicate 8 (ISlot 0 0 false zero_page)) 0.

(** The caches of the CPUs that are there. *)
Definition reset_caches (cpu_count : nat) (s : dirs) : dirs :=
  let l := ics (d_sys s) in
  with_sys (Fsys (d_fs s) (replicate cpu_count fresh_cache ++ drop cpu_count l)) s.

(** [init], on a root device of [sector_count] sectors of 512 bytes, 0 when there
    is none. *)
Definition yulafs_init (cpu_count : nat) (cpu cwd sector_count : Z) (junk : inode) (s : dirs) : res dirs :=
  let s := reset_caches cpu_count s in
  let s := with_cache (dcache_clear_all (d_cache s)) s in
  r ← load_sb (d_fs s);
  let s := with_yfs r.2 s in
  if negb r.1 then Ok s
  else if negb (magic (sb (d_fs s)) =? YFS_MAGIC) then
    let capacity_sectors := if sector_count =? 0 then 131072 else sector_count in
    yulafs_format cpu cwd (u32 (capacity_sectors / 8)) junk s
  else
    s ← inode_state_init_or_panic (set_mounted s);
    s ← dgroups_init s;
    orphan_inode_cleanup cpu s.
