(* ===== verification/YfsNameFaults.v ===== *)
(** * YulaFS: where the name space goes wrong

    Calls that the refinement of the name space leaves out, and formatting, run on
    small disks. *)

From S2P Require Import Prelude Bdev YfsBitmap YfsWords Yfs YfsAlloc YfsOps YfsVolume YfsInode YfsForest YfsBlockMap YfsFile YfsDcache YfsDir YfsNameSpace YfsMount.

(** ** Formatting *)

Definition blank_disk : gmap Z buffer := gset_to_gmap (replicate 4096 0) (list_to_set (seqZ 0 64)).
Definition blank : dirs :=
  Dirs (Opened (Fsys (Yfs blank_disk (Superblock 0 0 0 0 0 0 0 0 0 0 0 []) [] 0 0 []) []) []) (Dcache ∅ [] []) false.

(** The inodes of [/bin], [/home] and of [..] in the root, and the free blocks. *)
Definition look (s : dirs) : res (list Z * dirs) :=
  a ← yulafs_lookup 0 1 bin no_inode s;
  b ← yulafs_lookup 0 1 home no_inode a.2;
  u ← lookup_in_dir 0 1 dotdot b.2;
  Ok ([a.1; b.1; u.1; global_free_blocks (d_fs u.2)], u.2).

(** What is left of a run: the disk. *)
Definition restart (s : dirs) : dirs := with_yfs (with_disk (disk (d_fs s)) (d_fs blank)) blank.

(** A start on a blank disk and one more, with what is found after each. *)
Definition two_starts : res (list Z * list Z * list Z) :=
  s ← yulafs_init 2 0 1 512 no_inode blank;
  a ← look s;
  t ← yulafs_init 2 0 1 512 no_inode (restart a.2);
  b ← look t;
  Ok (a.1, b.1, i_direct (inode_of (d_fs b.2) 1)).

(** C0. A disk that [init] has formatted loses its directories with the next
    start: [format] asks for the block of the root before there are groups and
    gets 0, every [mkdir] then allocates a block for the root that is not stored
    in its inode, since the size of the root covers it already, and [/bin] and
    [/home] are found through the entry cache only.  After the restart neither is
    there, the root has no block and no [..], and six of the 56 blocks are taken
    without being part of any file. *)
Theorem yulafs_format_loses_root : two_starts = Ok ([2; 3; -1; 50], [-1; -1; -1; 50], replicate 12 0).
Proof. by vm_compute. Qed.

(** ** Calls *)

Definition calls (os : list nop) : res (list Z) := s ← demo_root; r ← nrun 0 1 no_inode os s; Ok r.1.

Definition path_a : list Z := [47; 97].
Definition path_b : list Z := [47; 98].
Definition under (p : list Z) (c : Z) : list Z := p ++ [47; c].
Definition up (p : list Z) : list Z := p ++ [47; 46; 46].

(** A rename onto a name that is there reports success, but the name still leads
    to the old file; it leads to the new one when it has been unlinked. *)
Theorem rename_keeps_target :
  calls [NCreate path_a; NCreate path_b; NRename path_a path_b; NLookup path_a; NLookup path_b; NUnlink path_b; NLookup path_b] = Ok [2; 3; 0; -1; 3; 0; 2].
Proof. by vm_compute. Qed.

(** A directory that was renamed into another still has its old parent. *)
Theorem rename_keeps_parent :
  calls [NMkdir path_a; NMkdir path_b; NMkdir (under path_a 100); NRename (under path_a 100) (under path_b 100); NLookup (under path_b 100); NLookup (up (under path_b 100))]
  = Ok [2; 3; 4; 0; 4; 2].
Proof. by vm_compute. Qed.

(** The entry cache keeps [..] of a directory that was unlinked: a directory that
    gets the inode again has the parent of the old one. *)
Theorem unlink_leaves_stale_entries :
  calls [NMkdir path_a; NMkdir path_b; NMkdir (under path_b 100); NLookup (up (under path_b 100)); NUnlink (under path_b 100); NMkdir (under path_a 101); NLookup (up (under path_a 101))]
  = Ok [2; 3; 4; 3; 0; 4; 3].
Proof. by vm_compute. Qed.

(** A directory that is not empty can be unlinked: what it held is still taken, and
    through the entry cache it turns up in the next directory that gets the
    inode. *)
Theorem unlink_full_directory :
  calls [NMkdir path_a; NCreate (under path_a 102); NUnlink path_a; NLookup (under path_a 102); NMkdir path_b; NLookup (under path_b 102); NCreate path_a] = Ok [2; 3; 0; -1; 2; 3; 4].
Proof. by vm_compute. Qed.

(** A file is created inside a regular file, whose contents become entries. *)
Theorem create_inside_file :
  calls [NCreate path_a; NCreate (under path_a 102); NLookup (under path_a 102)] = Ok [2; 3; 3] ∧
  (s ← demo_root; r ← nrun 0 1 no_inode [NCreate path_a; NCreate (under path_a 102)] s; let n := inode_of (d_fs r.2) 2 in Ok (i_type n, i_size n)) = Ok (YFS_TYPE_FILE, 4096).
Proof. by vm_compute. Qed.

(** A directory made on a full disk puts its entries over block 0 and reports its
    inode; it cannot be found but through the entry cache. *)
Theorem mkdir_on_full_disk :
  (s ← demo_root;
   let y := d_fs s in
   let full := foldr (λ _ r, r ≫= λ y, r ← alloc_block_for_inode 1 y; Ok r.2) (Ok y) (seqZ 0 55) in
   y ← full;
   r ← yulafs_mkdir 0 1 path_a no_inode (with_yfs y s);
   ino ← rd32 (default [] (disk (d_fs r.2) !! 0)) 0;
   Ok (global_free_blocks y, r.1, ino, head (i_direct (inode_of (d_fs r.2) 2)))) = Ok (0, 2, 2, Some 0).
Proof. by vm_compute. Qed.
